(* ===== verification/_CoqProject ===== *)
-Q . S2P
Prelude.v
LockMode.v
SlotBitmap.v
LockQueue.v
Deadlock.v
LockManager.v
LockSafety.v
Page.v
FreeList.v
Heap.v
PageRows.v
Storage.v
ByteOrder.v
BTreeNode.v
PageIo.v
BTree.v
BTreeRep.v
BTreeSplit.v
BTreeStep.v
BTreeInsert.v
BTreeMove.v
BTreeRebalance.v
BTreeDelete.v
BTreeRange.v
BTreeChain.v
KeyEncoding.v
IndexScan.v
WalEntry.v
Undo.v
ZoneMap.v
HeapChain.v
HeapBatch.v
HeapUpdate.v
HeapRaces.v
TableWrite.v
TableForward.v
TableRollback.v
TableFlaws.v
WalLog.v
WalWriter.v
WalPipeline.v
Txn.v
WalClustered.v
Recovery.v
RecoveryHistory.v
RecoveryFlaws.v
