(* ===== verification/Prelude.v ===== *)
(** * AxiomDB: a verification library for the storage, logging, locking and index core

    AxiomDB is a relational database in Rust.  This library models the part of it on which
    the durability and the isolation of transactions rest, from the bytes of a page up to
    interleaved transactions, and the secondary B+tree index on top of the storage engine.

    ** The program and the files that model it

    _Locks_ (crates/axiomdb-lock).  A lock manager keeps, in 64 record shards and 16 table
    shards, a queue of holders and waiters per page or table.
    - LockMode: mode.rs, the modes, the conflict matrix and the flags.
    - SlotBitmap: bitmap.rs, the set of slots of a page that a record lock covers.
    - LockQueue: entry.rs, [find_conflict] and [try_grant_waiters] on one queue.
    - Deadlock: deadlock.rs and txn_locks.rs, Brent's cycle search and the choice of a victim.
    - LockManager: manager.rs.  Every section under a shard mutex is one function on the
      record [LockManager]; a [World] runs any number of transactions, each inside at most
      one call, and its steps interleave those sections.
    - LockSafety: what holds in every reachable world.

    _Pages and their allocation_ (crates/axiomdb-storage).
    - Page: page.rs, 16 KiB of bytes with a header of 64 bytes and a checksum.
    - FreeList: freelist.rs, the bitmap of free pages.
    - Heap: heap.rs and the snapshots of axiomdb-core/src/traits.rs, slotted pages of rows
      with the transaction identifiers that decide their visibility.
    - PageRows: which changes of a page leave its live rows in place.
    - Storage: engine.rs, memory.rs and local_page_batch.rs.  The trait [StorageEngine] is a
      class; [StorageLaws] states what its clients rely on, reads and writes of pages in use
      and the freeing of pages one by one and in batches, [StorageRoom] when allocation
      succeeds; the in-memory engine is an instance of all three.
    - ZoneMap: zone_map.rs, the bounds of one column kept in a page header, and the test by
      which a table scan skips a page.
    - HeapChain: heap_chain.rs, the insertions of heap_chain_write.rs and the scans of
      heap_chain_scan.rs, tables as linked lists of heap pages.
    - HeapBatch: the batch insertion of heap_chain_batch.rs.
    - HeapUpdate: the batch deletion, rewriting and reading of rows by location, and the
      clearing of the deletions of a transaction.
    - HeapRaces: interleavings of these operations between their latches, and failures.

    _The B+tree_ (crates/axiomdb-index).  Its code runs in the state and error monad of
    PageIo, over any engine and with or without a transaction-local batch of pages.
    - ByteOrder: byte strings in lexicographic order and fixed-size arrays.
    - BTreeNode: page_layout.rs, leaves and internal nodes in the body of a page.
    - PageIo: the monad, its weakest precondition with a budget of allocations, and [moved],
      which says which pages an operation may have changed.
    - BTree: tree.rs, tree_insert.rs, tree_delete.rs, tree_range.rs and iter.rs.
    - BTreeRep: what it means that pages hold a tree, and lookups.
    - BTreeSplit, BTreeStep, BTreeInsert: insertion.
    - BTreeMove, BTreeRebalance, BTreeDelete: deletion.
    - BTreeRange: scans.  BTreeChain: an insertion after which a scan fails.

    _Index keys_ (crates/axiomdb-sql, over the values of crates/axiomdb-types).
    - KeyEncoding: key_encoding.rs, the order-preserving encoding of column values.
    - IndexScan: index_maintenance.rs and fk_enforcement.rs, the keys of secondary and
      foreign-key indexes and the lookups through the B+tree.

    _The log and transactions_ (crates/axiomdb-wal).
    - WalEntry: entry.rs, the format of log records.
    - Undo: txn_record_heap.rs, txn_rollback.rs and the single-row operations of
      heap_chain_write.rs of the storage crate, the undo log and its reversal over any engine.
    - WalLog: the file header and tail scan of writer.rs, and reader.rs.
    - WalWriter: concurrent_writer.rs, with the file and the disk as separate images and
      the flushes as interleaved steps.
    - WalPipeline: fsync_pipeline.rs and the protocol of its caller in the network crate.
    - TableWrite: the statements on heap tables of table_write.rs, table_ctx.rs and table.rs
      (crates/axiomdb-sql), from the encoded rows on, with the batch records of
      txn_record_heap.rs.  A [Session] is the engine, the page batch, the undo log and the
      records handed to the log writer; statements run in a monad over it.
    - TableForward: changes of a table that an undo log takes back.
    - TableRollback: what the statements do, and that rolling back undoes them.
    - TableFlaws: executions in which they break isolation or atomicity.
    - Txn: txn.rs, txn_begin_commit.rs, txn_inspect.rs and the state changes of commit and
      rollback, for any number of connections whose calls interleave at the shared accesses.
    - WalClustered: clustered.rs, the values of the log records of clustered tables.
    - Recovery: recovery.rs, checkpoint.rs, the checkpoint field of meta.rs (storage crate),
      and the opening, checkpointing and log rotation of txn_inspect.rs, txn_construction.rs
      and txn.rs.  The operations on clustered trees that recovery calls are the class
      [ClusteredTree]; flushing an engine is the class [StorageFlush].
    - RecoveryHistory: histories of transactions with the log they leave ([db_history]), and
      what recovery makes of them at any point.
    - RecoveryFlaws: executions after which recovery loses or revives changes, or fails.

    ** How code is represented

    Machine integers are [Z] with their range as a predicate and every wrap-around or
    saturation written out; buffers are lists of bytes; structs are records and enums are
    inductive types.  [Result] is the [Result] of Rust with the errors of [DbError]; a panic
    (an index out of bounds, a failed [assert], an [unreachable]) is [None], written with
    [let!].  Operations that change a structure return the changed one, also with an error.
    [debug_assert] is left out, as in release builds.  Hash maps are [gmap]s; the order in
    which one of them is iterated is never relied on.  CRC-32C comes from another crate and
    is the class [Crc32c]; [Crc32cRange] says that it yields 32 bits, and a bitwise
    implementation is an instance of both.

    ** What the theorems show

    - Isolation: in every guarded interleaving snapshots are exact ([txn_snapshot_exact]),
      and the scan of a running transaction does not change when others insert rows, or
      delete rows that it does not see as deleted, before they commit.  The two exceptions
      are stated with it: deleting once more a row that it sees as deleted brings the row
      back, and an update in place takes the row out ([mvcc_isolation],
      [heap_snapshot_isolation]).
    - Atomicity: rolling back restores every row and touches no other, also when the changes
      are those of any sequence of statements on a table, after which every snapshot sees
      what it saw before ([rollback_restores_rows], [transaction_rolls_back]).
    - Recovery: at any point of a history of interleaved transactions, opening the database
      leaves exactly what was committed ([recovery_restores_committed]), and the records
      that the statements of a transaction leave in the log are enough to undo it
      ([crashed_transaction_recovers]).  Both are about the history since the last
      checkpoint, with the log file holding every record, and about heap records; a row has
      one writer at a time.
    - In the theorems on atomicity and recovery statements may delete any row with a live
      slot, also one that carries the stamp of an earlier deletion.  Undoing a deletion
      clears the stamp and does not restore an earlier one: [cleared] says so of a row,
      [clear_row] of the rows of a table, and [stamp_free], that no row the transaction
      deleted was stamped, is the condition under which everything is as it was.
      [redeletion_revives_row] shows what happens without it.
    - Durability: what a completed flush covers is on disk, nothing is lost or duplicated in
      the writer, and opening a torn log returns exactly what was written
      ([wal_commit_durable], [wal_writer_conserves], [wal_log_recovery]).
    - Mutual exclusion and progress of locks: conflicting modes are never held together, no
      wakeup is lost, detection of deadlocks is sound, complete and terminates.
    - The index: lookup, insertion, deletion and scans implement a finite map ordered by
      key, on any lawful engine, touch and free only pages of the tree, and do not fail when
      the engine has room for the stated number of pages.
    - Tables: scans of a chain return exactly the visible rows, insertions append exactly
      theirs and grow the chain when needed, deletions and rewrites by location change
      exactly the rows named, and zone maps stay true under batch insertion
      ([heap_chain_scan_correct], [heap_chain_insert_correct], [heap_chain_batch_correct],
      [heap_chain_delete_correct], [heap_chain_rewrite_correct]).  Batch statements do that,
      and log and record for undo exactly the rows they changed
      ([batch_statements_correct]).
    - Index keys: encoded keys compare as the values do and decode to them, and a lookup of
      a logical key through a tree with linked leaves returns exactly the rows indexed under
      it ([index_key_order], [index_key_roundtrip], [index_lookup_exact]), for the values
      that [orderable] and [storable] name.
    - Refinement of the data structures to sets and maps (bitmaps, free list, in-memory
      engine), round trips of every format, and the behaviour of each page operation on
      every branch, errors included.

    Several theorems exhibit executions in which the code does not do what it means to: two
    holders of an exclusive record lock after an extension or an upgrade, a deadlock victim
    that leaves a waiter behind, a log whose records are out of order, an acknowledged
    commit that is not durable, a snapshot that sees a running transaction, a rollback that
    overwrites a concurrent insert, a split after which the chain of leaves is broken,
    values whose index keys cannot be decoded or compare wrongly, rows of a table lost
    between latches, a batch deletion that fails halfway, zone maps that hide rows, rows
    written in the name of another transaction, a failed update that is not undone, a
    committed deletion that is lost when a second one is rolled back, decimals whose
    comparison overflows, a checkpoint after which a reopened database shows no rows, a recovery that undoes what
    was committed after an earlier one or cannot be run again, a lost insertion that comes
    back, and a log record with more fields than its count can hold.  The positive theorems
    name the condition that excludes them.

    ** Bounds and fuel

    Loops whose number of turns depends on data take fuel.  The two loops of the cycle
    search get [2 ^ 22] and [2 ^ 14] turns, which [detect_cycle_terminates] shows to be
    enough for every map, because the code gives up on its own before; binary search takes
    the number of keys; a descent of the tree takes one unit per level, and the theorems
    ask for more fuel than the height; a scan takes one unit per entry and leaf; a walk of
    a heap chain takes its number of pages, and the theorems ask for that much; the scans
    of the log take the length of the file; recovery takes fuel for the chain of a
    truncated table, and its theorems hold for any.  Running out of fuel is [None], so the theorems
    that state a result exclude it.

    ** Not modelled

    - Memory mapping, the buffer pool, the double write buffer and file I/O errors: unsafe
      pointers and system calls.
    - Page latches: the index code runs under the lock of its tree; for heap pages the
      effect of missing latches is shown in Undo and HeapRaces.
    - Bulk loading and batch deletion of the index (tree_bulk.rs), prefix compression and
      the adaptive hash index.
    - Clustered tables and their undo log (trees that hold rows); recovery of them is
      translated over an interface, and no theorem is about a log with clustered records.
    - Redo: the code has none; pages are assumed to be as the process left them, which is
      what the module documentation of recovery.rs promises to handle.
    - The maintenance of secondary indexes under changes of rows, with the duplicate check
      of unique indexes (index_maintenance.rs); only its keys and lookups are modelled.
    - The row codec, coercions and collations, the catalog, the rest of SQL, the network
      protocol and the command line. *)

From Stdlib Require Export ZArith Lia.
From stdpp Require Export base list list_numbers gmap numbers.
Export list_basics.list list_relations.list list_monad.list list_misc.list.

#[global] Open Scope Z_scope.

(** ** Machine integers *)

(** [uN z] holds when [z] is the value of an unsigned [N]-bit integer. *)
Definition in_u8 (z : Z) : Prop := 0 <= z < 2 ^ 8.
Definition in_u16 (z : Z) : Prop := 0 <= z < 2 ^ 16.
Definition in_u32 (z : Z) : Prop := 0 <= z < 2 ^ 32.
Definition in_u64 (z : Z) : Prop := 0 <= z < 2 ^ 64.
Definition in_i64 (z : Z) : Prop := - 2 ^ 63 <= z < 2 ^ 63.

(** Wrap-around of the unsigned types ([as u16] casts, release-mode [+=]). *)
Definition wrap8 (z : Z) : Z := z mod 2 ^ 8.
Definition wrap16 (z : Z) : Z := z mod 2 ^ 16.
Definition wrap32 (z : Z) : Z := z mod 2 ^ 32.
Definition wrap64 (z : Z) : Z := z mod 2 ^ 64.

Definition U64_MAX : Z := 2 ^ 64 - 1.
Definition U32_MAX : Z := 2 ^ 32 - 1.

(** [u64::saturating_add] and friends. *)
Definition saturating_add64 (a b : Z) : Z := Z.min (a + b) U64_MAX.
Definition saturating_mul64 (a b : Z) : Z := Z.min (a * b) U64_MAX.
Definition saturating_add32 (a b : Z) : Z := Z.min (a + b) U32_MAX.

(** Bitwise complement [!w] of a 64-bit word. *)
Definition not64 (w : Z) : Z := Z.lxor w U64_MAX.

(** [u64::trailing_zeros]: the index of the lowest set bit, 64 for zero. *)
Fixpoint tz_from (fuel : nat) (i w : Z) : Z :=
  match fuel with
  | O => i
  | S f => if Z.testbit w i then i else tz_from f (i + 1) w
  end.
Definition trailing_zeros64 (w : Z) : Z := tz_from 64 0 w.

(** [u64::count_ones]: the number of set bits among the low 64. *)
Definition count_ones64 (w : Z) : Z :=
  Z.of_nat (length (filter (fun i => Z.testbit w i = true) (seqZ 0 64))).

(** A cast to a signed integer of [w] bits. *)
Definition as_signed (w z : Z) : Z :=
  let u := z mod 2 ^ w in if u <? 2 ^ (w - 1) then u else u - 2 ^ w.

(** The range of a signed integer of [k + 1] bits. *)
Definition in_signed (k n : Z) : Prop := - 2 ^ k <= n < 2 ^ k.

Lemma as_signed_id k n : 0 <= k -> in_signed k n -> as_signed (k + 1) n = n.
Proof.
  unfold as_signed, in_signed. intros Hk Hn. replace (k + 1 - 1) with k by lia.
  assert (2 ^ (k + 1) = 2 * 2 ^ k) as E by (rewrite Z.pow_add_r by lia; lia). rewrite E.
  destruct (decide (0 <= n)).
  - rewrite Z.mod_small by lia. by rewrite (proj2 (Z.ltb_lt _ _)) by lia.
  - replace (n mod (2 * 2 ^ k)) with (n + 2 * 2 ^ k).
    + rewrite (proj2 (Z.ltb_ge _ _)) by lia. lia.
    + replace n with (n + 2 * 2 ^ k + (-1) * (2 * 2 ^ k)) at 2 by lia. rewrite Z.mod_add, Z.mod_small; lia.
Qed.

(** ** Byte buffers *)

Abbreviation bytes := (list Z).
Abbreviation zlen l := (Z.of_nat (length l)).

(** A buffer all of whose elements are bytes. *)
Definition byte_ok (b : Z) : Prop := 0 <= b < 2 ^ 8.
Definition bytes_ok (bs : bytes) : Prop := Forall byte_ok bs.

(** [uN::to_le_bytes] into [n] bytes and [uN::from_le_bytes] of a slice. *)
Definition le_bytes (n v : Z) : bytes := Z_to_little_endian n 8 v.
Definition le_val (bs : bytes) : Z := little_endian_to_Z 8 bs.

(** [&buf[off..off + len]]: out-of-range slicing panics, modelled by [None]. *)
Definition slice (off len : Z) (buf : bytes) : option bytes :=
  if decide (0 <= off /\ 0 <= len /\ off + len <= zlen buf)
  then Some (take (Z.to_nat len) (drop (Z.to_nat off) buf))
  else None.

(** [buf[off..off + src.len()].copy_from_slice(src)]. *)
Definition blit (off : Z) (src buf : bytes) : option bytes :=
  if decide (0 <= off /\ off + zlen src <= zlen buf)
  then Some (take (Z.to_nat off) buf ++ src
               ++ drop (Z.to_nat off + length src)%nat buf)
  else None.

(** [uN::from_le_bytes] of the bytes [buf[off] .. buf[off + n - 1]]. *)
Definition read_le (off n : Z) (buf : bytes) : option Z :=
  match slice off n buf with Some bs => Some (le_val bs) | None => None end.

(** ** Results and panics *)

(** The errors of [DbError] (crates/axiomdb-core/src/error.rs) that the modelled
    code returns, with their payloads. *)
Inductive DbError : Type :=
| PageNotFound (page_id : Z)
| DoubleFree (page_id : Z)
| ChecksumMismatch (page_id expected got : Z)
| HeapPageFull (page_id needed available : Z)
| InvalidSlot (page_id slot_id num_slots : Z)
| AlreadyDeleted (page_id slot_id : Z)
| RestoreDoesNotFit (page_id slot_id image_len capacity : Z)
| ParseErrorPageType (v : Z)
| WalEntryTruncated (lsn : Z)
| WalChecksumMismatch (lsn expected got : Z)
| WalUnknownEntryType (byte : Z)
| WalInvalidHeader
| IoUnexpectedEof
| StorageFull
| CannotFreeReserved (page_id : Z)
| FreelistEmptyAfterGrow
| DeadlockDetected
| LockTimeout
| NoActiveTransaction
| TransactionAlreadyActive (txn_id : Z)
| KeyTooLong (len max : Z)
| DuplicateKey
| BTreeCorrupted
| IndexKeyTooLong (key_len max : Z)
| InvalidValue
| ValueTooLarge (len max : Z)
| ParseError
| TypeMismatch
| Internal.

(** Rust's [Result<A, DbError>].  A computation that may panic is an
    [option (Result A)]: [None] is the panic. *)
Inductive Result (A : Type) : Type :=
| Ok (a : A)
| Err (e : DbError).
Arguments Ok {A} a.
Arguments Err {A} e.

Declare Scope rust_scope.
Delimit Scope rust_scope with rust.

(** [let! x := c in k]: continue unless [c] panicked. *)
Notation "'let!' x := c 'in' k" :=
  (match c with Some x => k | None => None end)
  (at level 10, x binder, k at level 200) : rust_scope.

#[global] Open Scope rust_scope.

#[export] Instance DbError_eq_dec : EqDecision DbError.
Proof. solve_decision. Defined.

#[export] Instance Result_eq_dec {A} `{EqDecision A} : EqDecision (Result A).
Proof. solve_decision. Defined.

(** ** Bounded loops *)

(** [loop_pow n step s] runs [step] at most [2 ^ n] times, stopping at the first
    [inr]; it is the executable form of a [loop] whose bound is large. *)
Fixpoint loop_pow {S R : Type} (n : nat) (step : S -> S + R) (s : S) : S + R :=
  match n with
  | O => step s
  | Datatypes.S n' =>
      match loop_pow n' step s with
      | inl s' => loop_pow n' step s'
      | inr r => inr r
      end
  end.

(** The same loop with unary fuel, for reasoning. *)
Fixpoint loop_nat {S R : Type} (n : nat) (step : S -> S + R) (s : S) : S + R :=
  match n with
  | O => inl s
  | Datatypes.S n' =>
      match step s with
      | inl s' => loop_nat n' step s'
      | inr r => inr r
      end
  end.

(** ** Automation *)

Create HintDb axiomdb.

(** Case analysis on the tests of a model: [if]s, [decide]s and [match]es. *)
Ltac case_tests :=
  repeat match goal with
  | |- context [if decide ?P then _ else _] => destruct (decide P)
  | |- context [if Z.eqb ?a ?b then _ else _] => destruct (Z.eqb_spec a b)
  | |- context [if Z.ltb ?a ?b then _ else _] => destruct (Z.ltb_spec a b)
  | |- context [if Z.leb ?a ?b then _ else _] => destruct (Z.leb_spec a b)
  end.

(** Unfold the width predicates and let [lia] finish. *)
Ltac widths :=
  unfold byte_ok, in_u8, in_u16, in_u32, in_u64, in_i64, U64_MAX, U32_MAX in *; lia.

(** ** Loops *)

Lemma loop_nat_app {S R} (step : S -> S + R) a b s :
  loop_nat (a + b) step s =
  match loop_nat a step s with
  | inl s' => loop_nat b step s'
  | inr r => inr r
  end.
Proof.
  revert s. induction a as [|a IH]; intros s; simpl; [done|].
  destruct (step s); [apply IH|done].
Qed.

Lemma loop_pow_nat {S R} (step : S -> S + R) n s :
  loop_pow n step s = loop_nat (2 ^ n) step s.
Proof.
  revert s. induction n as [|n IH]; intros s.
  - simpl. by destruct (step s).
  - cbn [loop_pow].
    replace (2 ^ Datatypes.S n)%nat with (2 ^ n + 2 ^ n)%nat
      by (cbn [Nat.pow]; lia).
    rewrite loop_nat_app, IH.
    destruct (loop_nat _ step s); [apply IH|done].
Qed.

(** Fuel is monotone: a loop that stopped stays stopped. *)
Lemma loop_nat_mono {S R} (step : S -> S + R) a b s r :
  (a <= b)%nat -> loop_nat a step s = inr r -> loop_nat b step s = inr r.
Proof.
  intros Hab Hr. replace b with (a + (b - a))%nat by lia.
  by rewrite loop_nat_app, Hr.
Qed.

(** Invariant rule for a loop that stops. *)
Lemma loop_nat_inv {S R} (step : S -> S + R) (I : S -> Prop) (Q : R -> Prop) :
  (forall s s', I s -> step s = inl s' -> I s') ->
  (forall s r, I s -> step s = inr r -> Q r) ->
  forall n s r, I s -> loop_nat n step s = inr r -> Q r.
Proof.
  intros Hstep Hstop n. induction n as [|n IH]; intros s r Hs Hr; simpl in Hr.
  - done.
  - destruct (step s) as [s'|r'] eqn:E.
    + eapply IH; [eapply Hstep|]; eauto.
    + inv Hr. eauto.
Qed.

(** A loop whose steps decrease a bounded measure stops within its fuel. *)
Lemma loop_nat_term {S R} (step : S -> S + R) (I : S -> Prop) (m : S -> nat) :
  (forall s s', I s -> step s = inl s' -> I s' /\ (m s' < m s)%nat) ->
  forall n s, I s -> (m s < n)%nat -> exists r, loop_nat n step s = inr r.
Proof.
  intros Hstep n. induction n as [|n IH]; intros s Hs Hm; [lia|]. simpl.
  destruct (step s) as [s'|r] eqn:E; [|by exists r].
  destruct (Hstep s s' Hs E). apply IH; [done|lia].
Qed.

Lemma loop_pow_term {S R} (step : S -> S + R) (I : S -> Prop) (m : S -> Z) n s :
  (forall s s', I s -> step s = inl s' -> I s' /\ 0 <= m s' < m s) ->
  I s -> 0 <= m s < 2 ^ Z.of_nat n -> exists r, loop_pow n step s = inr r.
Proof.
  intros Hstep Hs Hm. rewrite loop_pow_nat.
  apply (loop_nat_term step I (fun s => Z.to_nat (m s))); [|done|].
  - intros s1 s2 H1 H2. destruct (Hstep s1 s2 H1 H2). split; [done|lia].
  - apply Nat2Z.inj_lt. rewrite Nat2Z.inj_pow. lia.
Qed.

Lemma loop_pow_inv {S R} (step : S -> S + R) (I : S -> Prop) (Q : R -> Prop) n s r :
  (forall s s', I s -> step s = inl s' -> I s') ->
  (forall s r, I s -> step s = inr r -> Q r) ->
  I s -> loop_pow n step s = inr r -> Q r.
Proof. intros ???. rewrite loop_pow_nat. by eapply loop_nat_inv. Qed.

(** ** Bits of 64-bit words *)

Lemma u64_bits_high w i : in_u64 w -> 64 <= i -> Z.testbit w i = false.
Proof. intros Hw Hi. apply (Z.bounded_iff_bits_nonneg' 64 w); widths. Qed.

Lemma u64_of_bits w :
  0 <= w -> (forall i, 64 <= i -> Z.testbit w i = false) -> in_u64 w.
Proof. intros H0 H. apply (Z.bounded_iff_bits_nonneg' 64 w); [lia|lia|auto]. Qed.

Lemma u64_bit_ext a b :
  in_u64 a -> in_u64 b ->
  (forall i, 0 <= i < 64 -> Z.testbit a i = Z.testbit b i) -> a = b.
Proof.
  intros Ha Hb H. apply Z.bits_inj_iff'. intros i Hi.
  destruct (decide (i < 64)); [apply H; lia|].
  by rewrite !u64_bits_high by (done || lia).
Qed.

Lemma testbit_U64_MAX i : 0 <= i -> Z.testbit U64_MAX i = bool_decide (i < 64).
Proof.
  intros Hi. change U64_MAX with (Z.ones 64).
  rewrite Z.ones_spec by lia. apply bool_decide_ext. lia.
Qed.

Lemma testbit_not64 w i :
  0 <= i < 64 -> Z.testbit (not64 w) i = negb (Z.testbit w i).
Proof.
  intros Hi. unfold not64. rewrite Z.lxor_spec, testbit_U64_MAX by lia.
  rewrite bool_decide_eq_true_2 by lia. by destruct (Z.testbit w i).
Qed.

Lemma testbit_bit n i : 0 <= n -> Z.testbit (1 ≪ n) i = bool_decide (i = n).
Proof.
  intros Hn. rewrite Z.shiftl_1_l. rewrite Z.pow2_bits_eqb by lia.
  destruct (Z.eqb_spec n i); symmetry;
    [apply bool_decide_eq_true_2|apply bool_decide_eq_false_2]; lia.
Qed.

Lemma in_u64_bit n : 0 <= n < 64 -> in_u64 (1 ≪ n).
Proof.
  intros Hn. unfold in_u64. rewrite Z.shiftl_1_l.
  split; [apply Z.pow_nonneg; lia|apply Z.pow_lt_mono_r; lia].
Qed.

Lemma in_u64_lor a b : in_u64 a -> in_u64 b -> in_u64 (Z.lor a b).
Proof.
  intros Ha Hb. apply u64_of_bits; [apply Z.lor_nonneg; widths|].
  intros i Hi. by rewrite Z.lor_spec, !u64_bits_high.
Qed.

Lemma in_u64_land a b : in_u64 a -> 0 <= b -> in_u64 (Z.land a b).
Proof.
  intros Ha Hb. apply u64_of_bits; [apply Z.land_nonneg; widths|].
  intros i Hi. by rewrite Z.land_spec, (u64_bits_high a).
Qed.

Lemma in_u64_not64 w : in_u64 w -> in_u64 (not64 w).
Proof.
  intros Hw. apply u64_of_bits.
  - unfold not64. apply Z.lxor_nonneg. widths.
  - intros i Hi. unfold not64. rewrite Z.lxor_spec, u64_bits_high by done.
    rewrite testbit_U64_MAX by lia. by rewrite bool_decide_eq_false_2 by lia.
Qed.

Lemma in_u64_0 : in_u64 0.
Proof. widths. Qed.

Lemma in_u64_MAX : in_u64 U64_MAX.
Proof. widths. Qed.

#[export] Hint Resolve in_u64_bit in_u64_lor in_u64_land in_u64_not64 in_u64_0
  in_u64_MAX : axiomdb.

(** Setting and clearing one bit of a word. *)
Lemma testbit_set_bit w n i :
  0 <= n -> Z.testbit (Z.lor w (1 ≪ n)) i = bool_decide (i = n) || Z.testbit w i.
Proof. intros. rewrite Z.lor_spec, testbit_bit by lia. apply orb_comm. Qed.

Lemma testbit_clear_bit w n i :
  0 <= n < 64 -> 0 <= i < 64 ->
  Z.testbit (Z.land w (not64 (1 ≪ n))) i = negb (bool_decide (i = n)) && Z.testbit w i.
Proof.
  intros. rewrite Z.land_spec, testbit_not64, testbit_bit by lia. apply andb_comm.
Qed.

Lemma land_bit_nonzero w n :
  0 <= n -> bool_decide (Z.land w (1 ≪ n) ≠ 0) = Z.testbit w n.
Proof.
  intros Hn. case_bool_decide as H.
  - destruct (Z.testbit w n) eqn:E; [done|]. exfalso. apply H.
    apply Z.bits_inj_iff'. intros i Hi. rewrite Z.land_spec, testbit_bit, Z.bits_0 by lia.
    case_bool_decide; subst; [by rewrite E|apply andb_false_r].
  - destruct (Z.testbit w n) eqn:E; [|done]. exfalso.
    apply (f_equal (fun z => Z.testbit z n)) in H.
    rewrite Z.land_spec, testbit_bit, Z.bits_0, E in H by lia.
    by rewrite bool_decide_eq_true_2 in H.
Qed.

Lemma land_bit_zero w n :
  0 <= n -> Z.land w (1 ≪ n) = 0 <-> Z.testbit w n = false.
Proof.
  intros Hn. rewrite <-(land_bit_nonzero w n) by lia.
  rewrite bool_decide_eq_false. split; [tauto|].
  intros H. destruct (decide (Z.land w (1 ≪ n) = 0)); [done|tauto].
Qed.

Lemma u64_nonzero_bit w :
  in_u64 w -> w ≠ 0 -> exists i, 0 <= i < 64 /\ Z.testbit w i = true.
Proof.
  intros Hw Hnz.
  destruct (decide (Exists (fun i => Z.testbit w i = true) (seqZ 0 64))) as [H|H].
  - apply Exists_exists in H as (i & Hi & Ht).
    apply elem_of_seqZ in Hi.
    exists i. split; [lia|done].
  - exfalso. apply Hnz. apply u64_bit_ext; auto with axiomdb.
    intros i Hi. rewrite Z.bits_0. destruct (Z.testbit w i) eqn:E; [|done].
    exfalso. apply H, Exists_exists. exists i. split; [|done].
    apply elem_of_seqZ. lia.
Qed.

Lemma tz_from_spec fuel : forall i w j,
  i <= j < i + Z.of_nat fuel -> Z.testbit w j = true ->
  (forall k, i <= k < j -> Z.testbit w k = false) -> tz_from fuel i w = j.
Proof.
  induction fuel as [|f IH]; intros i w j Hj Hb Hlow; [lia|]. simpl.
  destruct (Z.testbit w i) eqn:E.
  - destruct (decide (i = j)); [done|]. rewrite Hlow in E; [done|lia].
  - assert (i ≠ j) by congruence.
    apply IH; [lia|done|]. intros k Hk. apply Hlow. lia.
Qed.

Lemma tz_from_bounds fuel : forall i w,
  let t := tz_from fuel i w in
  i <= t <= i + Z.of_nat fuel /\
  (t < i + Z.of_nat fuel -> Z.testbit w t = true) /\
  (forall k, i <= k < t -> Z.testbit w k = false).
Proof.
  induction fuel as [|f IH]; intros i w; simpl.
  - split_and!; [lia|lia|lia|]. intros; lia.
  - destruct (Z.testbit w i) eqn:E.
    + split_and!; [lia|lia|done|]. intros; lia.
    + destruct (IH (i + 1) w) as (H1 & H2 & H3). simpl in *.
      split_and!; [lia|lia| |].
      * intros. apply H2. lia.
      * intros k Hk. destruct (decide (k = i)); [by subst|]. apply H3. lia.
Qed.

(** [trailing_zeros] finds the lowest set bit of a non-zero word. *)
Lemma trailing_zeros64_spec w :
  in_u64 w -> w ≠ 0 ->
  0 <= trailing_zeros64 w < 64 /\
  Z.testbit w (trailing_zeros64 w) = true /\
  (forall k, 0 <= k < trailing_zeros64 w -> Z.testbit w k = false).
Proof.
  intros Hw Hnz. unfold trailing_zeros64.
  pose proof (tz_from_bounds 64 0 w) as Htz. cbv zeta in Htz.
  destruct Htz as (H1 & H2 & H3). change (Z.of_nat 64) with 64 in *.
  destruct (u64_nonzero_bit w Hw Hnz) as (i & Hi & Hb).
  assert (tz_from 64 0 w < 64).
  { destruct (decide (tz_from 64 0 w < 64)); [done|].
    rewrite H3 in Hb; [done|lia]. }
  split_and!; [lia|lia|apply H2; lia|]. intros k Hk. apply H3. lia.
Qed.

(** ** Little-endian integers *)

Lemma len_le_bytes n v : 0 <= n -> zlen (le_bytes n v) = n.
Proof. intros. by apply length_Z_to_little_endian. Qed.

Lemma length_le_bytes n v : 0 <= n -> length (le_bytes n v) = Z.to_nat n.
Proof. intros Hn. pose proof (len_le_bytes n v Hn). lia. Qed.

Lemma bytes_ok_le_bytes n v : 0 <= n -> bytes_ok (le_bytes n v).
Proof. intros. by apply Z_to_little_endian_bound. Qed.

Lemma le_val_le_bytes n v : 0 <= n -> 0 <= v < 2 ^ (n * 8) -> le_val (le_bytes n v) = v.
Proof.
  intros Hn Hv. unfold le_val, le_bytes.
  rewrite little_endian_to_Z_to_little_endian by lia. by apply Z.mod_small.
Qed.

Lemma le_bytes_le_val n bs :
  bytes_ok bs -> n = zlen bs -> le_bytes n (le_val bs) = bs.
Proof. intros. by apply Z_to_little_endian_to_Z. Qed.

Lemma le_val_range bs : bytes_ok bs -> 0 <= le_val bs < 2 ^ (zlen bs * 8).
Proof. intros. by apply little_endian_to_Z_bound. Qed.

Lemma le_val_u8 bs : bytes_ok bs -> zlen bs = 1 -> in_u8 (le_val bs).
Proof. intros H Hl. apply le_val_range in H. rewrite Hl in H. done. Qed.
Lemma le_val_u16 bs : bytes_ok bs -> zlen bs = 2 -> in_u16 (le_val bs).
Proof. intros H Hl. apply le_val_range in H. rewrite Hl in H. done. Qed.
Lemma le_val_u32 bs : bytes_ok bs -> zlen bs = 4 -> in_u32 (le_val bs).
Proof. intros H Hl. apply le_val_range in H. rewrite Hl in H. done. Qed.
Lemma le_val_u64 bs : bytes_ok bs -> zlen bs = 8 -> in_u64 (le_val bs).
Proof. intros H Hl. apply le_val_range in H. rewrite Hl in H. done. Qed.

(** ** Slices and blits *)

Lemma slice_inv off len buf r :
  slice off len buf = Some r ->
  0 <= off /\ 0 <= len /\ off + len <= zlen buf /\ zlen r = len.
Proof.
  unfold slice. case_decide as H; [|done]. intros [= <-].
  rewrite length_take, length_drop. lia.
Qed.

Lemma slice_ok off len buf :
  0 <= off -> 0 <= len -> off + len <= zlen buf ->
  slice off len buf = Some (take (Z.to_nat len) (drop (Z.to_nat off) buf)).
Proof. intros. unfold slice. by rewrite decide_True by lia. Qed.

Lemma slice_is_Some off len buf :
  0 <= off -> 0 <= len -> off + len <= zlen buf -> exists r, slice off len buf = Some r.
Proof. intros. eexists. by apply slice_ok. Qed.

Lemma slice_lookup off len buf r (i : nat) :
  slice off len buf = Some r -> (Z.of_nat i < len) ->
  r !! i = buf !! (Z.to_nat off + i)%nat.
Proof.
  unfold slice. case_decide as H; [|done]. intros [= <-] Hi.
  rewrite lookup_take_lt, lookup_drop by lia. done.
Qed.

Lemma slice_bytes_ok off len buf r :
  bytes_ok buf -> slice off len buf = Some r -> bytes_ok r.
Proof.
  unfold slice. case_decide; [|done]. intros Hb [= <-].
  by apply Forall_take, Forall_drop.
Qed.

Lemma slice_full buf : slice 0 (zlen buf) buf = Some buf.
Proof. rewrite slice_ok by lia. rewrite drop_0, take_ge by lia. done. Qed.

(** Slicing a slice. *)
Lemma slice_slice off len buf r o l :
  slice off len buf = Some r -> 0 <= o -> 0 <= l -> o + l <= len ->
  slice o l r = slice (off + o) l buf.
Proof.
  intros Hr Ho Hl Hol. pose proof (slice_inv _ _ _ _ Hr) as (?&?&?&?).
  rewrite !slice_ok by lia. f_equal.
  rewrite slice_ok in Hr by lia. injection Hr as <-.
  rewrite skipn_firstn_comm, drop_drop, take_take. f_equal; [lia|f_equal; lia].
Qed.

Lemma blit_inv off src buf buf' :
  blit off src buf = Some buf' -> 0 <= off /\ off + zlen src <= zlen buf /\
  length buf' = length buf.
Proof.
  unfold blit. case_decide as H; [|done]. intros [= <-].
  rewrite !length_app, length_take, length_drop. lia.
Qed.

Lemma blit_is_Some off src buf :
  0 <= off -> off + zlen src <= zlen buf -> exists buf', blit off src buf = Some buf'.
Proof. intros. unfold blit. rewrite decide_True by lia. eauto. Qed.

Lemma blit_lookup off src buf buf' (i : nat) :
  blit off src buf = Some buf' ->
  buf' !! i =
    if decide (off <= Z.of_nat i < off + zlen src)
    then src !! (i - Z.to_nat off)%nat else buf !! i.
Proof.
  unfold blit. case_decide as H; [|done]. intros [= <-].
  destruct (decide (Z.of_nat i < off)).
  { rewrite decide_False by lia.
    rewrite lookup_app_l by (rewrite length_take; lia). by rewrite lookup_take_lt by lia. }
  rewrite lookup_app_r by (rewrite length_take; lia). rewrite length_take.
  replace (Z.to_nat off `min` length buf)%nat with (Z.to_nat off) by lia.
  case_decide.
  - by rewrite lookup_app_l by lia.
  - rewrite lookup_app_r, lookup_drop by lia. f_equal. lia.
Qed.

Lemma blit_bytes_ok off src buf buf' :
  bytes_ok src -> bytes_ok buf -> blit off src buf = Some buf' -> bytes_ok buf'.
Proof.
  unfold blit. case_decide; [|done]. intros Hs Hb [= <-].
  apply Forall_app. split; [by apply Forall_take|].
  apply Forall_app. split; [done|by apply Forall_drop].
Qed.

(** Two slices agree when the buffers agree on the range. *)
Lemma slice_ext off len b1 b2 :
  length b1 = length b2 ->
  (forall i : nat, off <= Z.of_nat i < off + len -> b1 !! i = b2 !! i) ->
  slice off len b1 = slice off len b2.
Proof.
  intros Hlen H. unfold slice. rewrite Hlen. case_decide; [|done]. f_equal.
  apply list_eq. intros i. destruct (decide (Z.of_nat i < len)).
  - rewrite !lookup_take_lt, !lookup_drop by lia. apply H. lia.
  - by rewrite !lookup_take_ge by lia.
Qed.

(** Reading back what was written. *)
Lemma slice_blit_eq off src buf buf' :
  blit off src buf = Some buf' -> slice off (zlen src) buf' = Some src.
Proof.
  intros H. pose proof (blit_inv _ _ _ _ H) as (?&?&?).
  rewrite slice_ok by lia. f_equal. apply list_eq. intros i.
  destruct (decide (i < length src)%nat).
  - rewrite lookup_take_lt, lookup_drop by lia.
    rewrite (blit_lookup _ _ _ _ _ H), decide_True by lia. f_equal. lia.
  - rewrite lookup_take_ge by lia. symmetry. apply lookup_ge_None. lia.
Qed.

(** Reading elsewhere. *)
Lemma slice_blit_ne off src buf buf' o l :
  blit off src buf = Some buf' -> o + l <= off \/ off + zlen src <= o ->
  slice o l buf' = slice o l buf.
Proof.
  intros H Hd. pose proof (blit_inv _ _ _ _ H) as (?&?&?).
  apply slice_ext; [done|]. intros i Hi.
  rewrite (blit_lookup _ _ _ _ _ H), decide_False by lia. done.
Qed.

(** Reading inside what was written. *)
Lemma slice_blit_inside off src buf buf' o l :
  blit off src buf = Some buf' -> off <= o -> 0 <= l -> o + l <= off + zlen src ->
  slice o l buf' = slice (o - off) l src.
Proof.
  intros H Ho Hl Hol. pose proof (slice_blit_eq _ _ _ _ H) as Hs.
  rewrite (slice_slice _ _ _ _ (o - off) l Hs) by lia. f_equal. lia.
Qed.

(** Slices of concatenations: the shape of every record decoder. *)
Lemma slice_app_l off len a b :
  0 <= off -> 0 <= len -> off + len <= zlen a -> slice off len (a ++ b) = slice off len a.
Proof.
  intros. rewrite !slice_ok by (rewrite ?length_app; lia). f_equal.
  rewrite drop_app_le, take_app_le by (rewrite ?length_drop; lia). done.
Qed.

Lemma slice_app_r off len a b :
  zlen a <= off -> slice off len (a ++ b) = slice (off - zlen a) len b.
Proof.
  intros H. unfold slice. rewrite length_app.
  destruct (decide (0 <= off - zlen a /\ 0 <= len /\ off - zlen a + len <= zlen b)).
  - rewrite decide_True by lia. f_equal. rewrite drop_app_ge by lia. do 2 f_equal. lia.
  - by rewrite decide_False by lia.
Qed.

Lemma slice_app_head a b n : n = zlen a -> slice 0 n (a ++ b) = Some a.
Proof. intros ->. rewrite slice_app_l by lia. apply slice_full. Qed.

(** A buffer laid out as a sequence of fields. *)
Lemma slice_concat (cs : list bytes) rest i c :
  cs !! i = Some c ->
  slice (zlen (concat (take i cs))) (zlen c) (concat cs ++ rest) = Some c.
Proof.
  intros Hi. rewrite <-(take_drop_middle _ _ _ Hi) at 2. rewrite concat_app. cbn [concat].
  rewrite <-!app_assoc, slice_app_r by lia. rewrite Z.sub_diag. by apply slice_app_head.
Qed.

Lemma slice_concat_prefix (cs : list bytes) rest i :
  slice 0 (zlen (concat (take i cs))) (concat cs ++ rest) = Some (concat (take i cs)).
Proof. rewrite <-(take_drop i cs) at 2. rewrite concat_app, <-app_assoc. by apply slice_app_head. Qed.

Lemma read_le_concat (cs : list bytes) rest i n v :
  0 <= n -> 0 <= v < 2 ^ (n * 8) -> cs !! i = Some (le_bytes n v) ->
  read_le (zlen (concat (take i cs))) n (concat cs ++ rest) = Some v.
Proof.
  intros Hn Hv Hi. unfold read_le. pose proof (slice_concat cs rest i _ Hi) as Hs.
  rewrite len_le_bytes in Hs by done. rewrite Hs. by rewrite le_val_le_bytes.
Qed.

Lemma read_le_is_Some off n buf :
  0 <= off -> 0 <= n -> off + n <= zlen buf -> exists v, read_le off n buf = Some v.
Proof. intros. unfold read_le. rewrite slice_ok by lia. eauto. Qed.

Lemma read_le_range off n buf v :
  bytes_ok buf -> read_le off n buf = Some v -> 0 <= v < 2 ^ (n * 8).
Proof.
  unfold read_le. intros Hb. destruct (slice off n buf) as [bs|] eqn:Hs; [|done]. intros [= <-].
  pose proof (slice_inv _ _ _ _ Hs) as (_ & _ & _ & Hl). rewrite <-Hl.
  apply le_val_range. by eapply slice_bytes_ok.
Qed.

Lemma read_le_slice off n buf v :
  bytes_ok buf -> read_le off n buf = Some v -> slice off n buf = Some (le_bytes n v).
Proof.
  unfold read_le. intros Hb. destruct (slice off n buf) as [bs|] eqn:Hs; [|done]. intros [= <-].
  pose proof (slice_inv _ _ _ _ Hs) as (_ & _ & _ & Hl). f_equal. symmetry.
  apply le_bytes_le_val; [by eapply slice_bytes_ok|done].
Qed.

(** Adjacent slices. *)
Lemma slice_join off n m buf a b o :
  slice off n buf = Some a -> slice o m buf = Some b -> o = off + n ->
  slice off (n + m) buf = Some (a ++ b).
Proof.
  intros Ha Hb ->. pose proof (slice_inv _ _ _ _ Ha) as (? & ? & ? & ?).
  pose proof (slice_inv _ _ _ _ Hb) as (? & ? & ? & ?).
  rewrite slice_ok in Ha, Hb |- * by lia. apply (inj Some) in Ha, Hb. subst a b. f_equal.
  rewrite <-(take_drop (Z.to_nat n) (take (Z.to_nat (n + m)) _)). f_equal.
  - rewrite take_take. f_equal. lia.
  - rewrite skipn_firstn_comm, drop_drop. f_equal; [lia|]. f_equal. lia.
Qed.
