(* ===== verification/LockMode.v ===== *)
(** * Lock modes and lock flags

    crates/axiomdb-lock/src/mode.rs: the five lock modes, the conflict matrix and
    the [LockFlags] bit set. *)

From S2P Require Import Prelude.

Inductive LockMode : Type :=
| IntentionShared
| IntentionExclusive
| Shared
| Exclusive
| AutoIncrement.

#[export] Instance LockMode_eq_dec : EqDecision LockMode.
Proof. solve_decision. Defined.

(** [self as usize]: the [repr(u8)] discriminant. *)
Definition mode_idx (m : LockMode) : nat :=
  match m with
  | IntentionShared => 0
  | IntentionExclusive => 1
  | Shared => 2
  | Exclusive => 3
  | AutoIncrement => 4
  end%nat.

(** [CONFLICT_MATRIX[held][requested]]. *)
Definition CONFLICT_MATRIX : list (list bool) :=
  let F := false in let T := true in
  [ [F; F; F; T; F];
    [F; F; T; T; F];
    [F; T; F; T; T];
    [T; T; T; T; T];
    [F; F; T; T; T] ].

Definition conflicts (held requested : LockMode) : bool :=
  nth (mode_idx requested) (nth (mode_idx held) CONFLICT_MATRIX []) false.
#[global] Arguments conflicts : simpl never.

(** [LockFlags(u16)]: the raw bits. *)
Module LockFlags.

Definition NONE : Z := 0.
Definition WAITING : Z := 0x0001.
Definition GAP : Z := 0x0002.
Definition REC_NOT_GAP : Z := 0x0004.
Definition INSERT_INTENTION : Z := 0x0008.
Definition TABLE_LOCK : Z := 0x0010.
Definition NOWAIT : Z := 0x0020.

Definition contains (self other : Z) : bool :=
  (Z.land self other =? other) && negb (other =? 0).
Definition union (self other : Z) : Z := Z.lor self other.
(** [self.0 & !other.0] at width 16. *)
Definition difference (self other : Z) : Z := Z.land self (Z.lxor other 0xFFFF).
Definition is_empty (self : Z) : bool := self =? 0.

End LockFlags.

(** The matrix is symmetric, so the order of holder and requester is irrelevant. *)
Lemma conflicts_comm m1 m2 : conflicts m1 m2 = conflicts m2 m1.
Proof. by destruct m1, m2. Qed.

Lemma exclusive_conflicts m : conflicts Exclusive m = true.
Proof. by destruct m. Qed.

#[export] Hint Resolve conflicts_comm exclusive_conflicts : axiomdb.

(** Clearing [WAITING] leaves every other flag bit alone. *)
Lemma difference_testbit f g i :
  in_u16 g -> 0 <= i < 16 ->
  Z.testbit (LockFlags.difference f g) i = Z.testbit f i && negb (Z.testbit g i).
Proof.
  intros Hg Hi. unfold LockFlags.difference.
  rewrite Z.land_spec, Z.lxor_spec. f_equal.
  change 0xFFFF with (Z.ones 16). rewrite Z.ones_spec by lia.
  rewrite bool_decide_eq_true_2 by lia. by destruct (Z.testbit g i).
Qed.

Lemma union_testbit f g i :
  Z.testbit (LockFlags.union f g) i = Z.testbit f i || Z.testbit g i.
Proof. apply Z.lor_spec. Qed.

(** A single-bit flag is contained exactly when its bit is set. *)
Lemma contains_bit f n :
  0 <= n -> LockFlags.contains f (1 ≪ n) = Z.testbit f n.
Proof.
  intros Hn. unfold LockFlags.contains.
  assert (1 ≪ n ≠ 0) by (rewrite Z.shiftl_1_l; pose proof (Z.pow_pos_nonneg 2 n); lia).
  replace (negb _) with true by (symmetry; apply negb_true_iff, Z.eqb_neq; done).
  rewrite andb_true_r. destruct (Z.testbit f n) eqn:E.
  - apply Z.eqb_eq, Z.bits_inj_iff'. intros i Hi.
    rewrite Z.land_spec, testbit_bit by lia.
    case_bool_decide; subst; [by rewrite E|apply andb_false_r].
  - apply Z.eqb_neq. apply (land_bit_zero f n Hn) in E. lia.
Qed.

Lemma waiting_union f :
  LockFlags.contains (LockFlags.union f LockFlags.WAITING) LockFlags.WAITING = true.
Proof.
  change LockFlags.WAITING with (1 ≪ 0). rewrite contains_bit, union_testbit by lia.
  by rewrite orb_true_r.
Qed.

Lemma waiting_difference f :
  LockFlags.contains (LockFlags.difference f LockFlags.WAITING) LockFlags.WAITING = false.
Proof.
  change LockFlags.WAITING with (1 ≪ 0).
  rewrite contains_bit, difference_testbit by (done || lia). apply andb_false_r.
Qed.
