(* ===== verification/SlotBitmap.v ===== *)
(** * Slot bitmaps of record locks

    crates/axiomdb-lock/src/bitmap.rs: a growable [Vec<u64>] with one bit per slot.
    [slots] is the abstract set of slots a bitmap stands for; every operation is
    proved to implement the corresponding set operation. *)

From S2P Require Import Prelude.

Record SlotBitmap : Type := mkBitmap { words : list Z }.

Definition bm_new : SlotBitmap := mkBitmap [].

(** [self.words[word_idx] |= 1u64 << bit_idx], growing the vector first. *)
Definition bm_set (bm : SlotBitmap) (slot_id : Z) : SlotBitmap :=
  let word_idx := Z.to_nat (slot_id / 64) in
  let bit_idx := slot_id mod 64 in
  let ws :=
    if decide (length (words bm) <= word_idx)%nat
    then resize (word_idx + 1) 0 (words bm)
    else words bm in
  mkBitmap (alter (fun w => Z.lor w (1 ≪ bit_idx)) word_idx ws).

Definition bm_with_slot (slot_id : Z) : SlotBitmap := bm_set bm_new slot_id.

Definition bm_clear (bm : SlotBitmap) (slot_id : Z) : SlotBitmap :=
  let word_idx := Z.to_nat (slot_id / 64) in
  let bit_idx := slot_id mod 64 in
  if decide (word_idx < length (words bm))%nat
  then mkBitmap (alter (fun w => Z.land w (not64 (1 ≪ bit_idx))) word_idx (words bm))
  else bm.

Definition bm_test (bm : SlotBitmap) (slot_id : Z) : bool :=
  let word_idx := Z.to_nat (slot_id / 64) in
  let bit_idx := slot_id mod 64 in
  match words bm !! word_idx with
  | None => false
  | Some w => bool_decide (Z.land w (1 ≪ bit_idx) ≠ 0)
  end.

(** The loop over [0..min_len]. *)
Definition bm_overlaps (a b : SlotBitmap) : bool :=
  existsb (fun p => negb (Z.land p.1 p.2 =? 0)) (zip (words a) (words b)).

Definition bm_overlaps_slot (bm : SlotBitmap) (slot_id : Z) : bool := bm_test bm slot_id.

Definition bm_is_empty (bm : SlotBitmap) : bool := forallb (fun w => w =? 0) (words bm).

Definition bm_clear_all (bm : SlotBitmap) : SlotBitmap := mkBitmap ((fun _ => 0) <$> words bm).

Definition bm_count (bm : SlotBitmap) : Z :=
  foldr Z.add 0 (count_ones64 <$> words bm).

(** The scan of [first_set_bit], with [word_idx] the index of the head word. *)
Fixpoint first_set_from (word_idx : Z) (ws : list Z) : option Z :=
  match ws with
  | [] => None
  | w :: ws' =>
      if w =? 0 then first_set_from (word_idx + 1) ws'
      else Some (wrap16 (wrap16 word_idx * 64 + trailing_zeros64 w))
  end.
Definition bm_first_set_bit (bm : SlotBitmap) : option Z := first_set_from 0 (words bm).

(** Well-formed bitmaps: 64-bit words, at most the 1024 that [u16] slots need. *)
Definition bm_wf (bm : SlotBitmap) : Prop :=
  Forall in_u64 (words bm) /\ (length (words bm) <= 1024)%nat.

(** The abstract set of slots. *)
Definition slots (bm : SlotBitmap) : gset Z :=
  list_to_set (filter (fun s => bm_test bm s = true) (seqZ 0 (64 * zlen (words bm)))).

(** ** One bit at a time *)

Lemma bm_test_testbit bm s w :
  0 <= s -> words bm !! Z.to_nat (s / 64) = Some w -> bm_test bm s = Z.testbit w (s mod 64).
Proof.
  intros Hs Hw. unfold bm_test. rewrite Hw.
  apply land_bit_nonzero. apply Z.mod_pos_bound. lia.
Qed.

Lemma slot_split s s' :
  0 <= s -> 0 <= s' -> s = s' <-> (Z.to_nat (s / 64) = Z.to_nat (s' / 64) /\ s mod 64 = s' mod 64).
Proof.
  intros Hs Hs'. split; [by intros ->|]. intros [Hd Hm].
  pose proof (Z.div_pos s 64). pose proof (Z.div_pos s' 64).
  rewrite (Z.div_mod s 64), (Z.div_mod s' 64) by lia. lia.
Qed.

Lemma bm_test_grow ws n s :
  (length ws <= n)%nat ->
  bm_test (mkBitmap (resize n 0 ws)) s = bm_test (mkBitmap ws) s.
Proof.
  intros Hn. unfold bm_test. simpl.
  destruct (decide (Z.to_nat (s / 64) < length ws)%nat).
  - by rewrite lookup_resize by lia.
  - rewrite (lookup_ge_None_2 ws) by lia.
    destruct (decide (Z.to_nat (s / 64) < n)%nat).
    + rewrite lookup_resize_new by lia. by rewrite Z.land_0_l, bool_decide_eq_false_2 by auto.
    + by rewrite lookup_resize_old by lia.
Qed.

Lemma bm_test_alter ws f s s' :
  0 <= s -> 0 <= s' ->
  bm_test (mkBitmap (alter f (Z.to_nat (s / 64)) ws)) s' =
  match ws !! Z.to_nat (s' / 64) with
  | None => false
  | Some w => if decide (Z.to_nat (s / 64) = Z.to_nat (s' / 64))
              then Z.testbit (f w) (s' mod 64) else Z.testbit w (s' mod 64)
  end.
Proof.
  intros Hs Hs'. unfold bm_test. simpl.
  rewrite list_lookup_alter.
  pose proof (Z.mod_pos_bound s' 64).
  destruct (ws !! Z.to_nat (s' / 64)) as [w|] eqn:E; simpl;
    case_decide as Hd; rewrite ?Hd, ?E; simpl; try done;
    rewrite land_bit_nonzero by lia; done.
Qed.

Lemma bm_test_set bm s s' :
  0 <= s -> 0 <= s' -> bm_test (bm_set bm s) s' = bool_decide (s' = s) || bm_test bm s'.
Proof.
  intros Hs Hs'. unfold bm_set.
  set (ws := if decide _ then _ else _).
  assert (Htest : forall t, bm_test (mkBitmap ws) t = bm_test bm t).
  { intros t. unfold ws. destruct bm as [b]. simpl. case_decide; [|done].
    apply bm_test_grow. lia. }
  assert (Hlen : (Z.to_nat (s / 64) < length ws)%nat).
  { unfold ws. case_decide; [rewrite length_resize|]; lia. }
  rewrite bm_test_alter by done. rewrite <-Htest. unfold bm_test at 1. simpl.
  pose proof (Z.mod_pos_bound s 64). pose proof (Z.mod_pos_bound s' 64).
  destruct (ws !! Z.to_nat (s' / 64)) as [w|] eqn:E.
  - case_decide as Hd.
    + rewrite testbit_set_bit, land_bit_nonzero by lia. f_equal.
      apply bool_decide_ext. rewrite (slot_split s' s) by done. intuition.
    + rewrite bool_decide_eq_false_2; [by rewrite land_bit_nonzero by lia|].
      intros ->. done.
  - rewrite bool_decide_eq_false_2; [done|]. intros ->.
    apply lookup_ge_None in E. lia.
Qed.

Lemma bm_test_clear bm s s' :
  0 <= s -> 0 <= s' ->
  bm_test (bm_clear bm s) s' = negb (bool_decide (s' = s)) && bm_test bm s'.
Proof.
  intros Hs Hs'. unfold bm_clear. case_decide as Hlt.
  - rewrite bm_test_alter by done. unfold bm_test.
    pose proof (Z.mod_pos_bound s 64). pose proof (Z.mod_pos_bound s' 64).
    destruct (words bm !! Z.to_nat (s' / 64)) as [w|] eqn:E.
    + case_decide as Hd.
      * rewrite testbit_clear_bit, land_bit_nonzero by lia. do 2 f_equal.
        apply bool_decide_ext. rewrite (slot_split s' s) by done. intuition.
      * rewrite bool_decide_eq_false_2; [by rewrite land_bit_nonzero by lia|].
        intros ->. done.
    + by rewrite andb_false_r.
  - case_bool_decide as Hd; [|done]. subst. unfold bm_test.
    by rewrite lookup_ge_None_2 by lia.
Qed.

Lemma bm_test_new s : bm_test bm_new s = false.
Proof. done. Qed.

Lemma bm_test_with_slot s s' :
  0 <= s -> 0 <= s' -> bm_test (bm_with_slot s) s' = bool_decide (s' = s).
Proof. intros. unfold bm_with_slot. rewrite bm_test_set by done. apply orb_false_r. Qed.

(** ** Well-formedness *)

Lemma slot_word_idx s : in_u16 s -> (Z.to_nat (s / 64) < 1024)%nat.
Proof. intros Hs. pose proof (Z.div_lt_upper_bound s 64 1024). widths. Qed.

Lemma Forall_alter_in {A} (P : A -> Prop) f i (l : list A) :
  Forall P l -> (forall x, P x -> P (f x)) -> Forall P (alter f i l).
Proof.
  intros Hl Hf. apply Forall_lookup. intros j x. rewrite list_lookup_alter.
  rewrite Forall_lookup in Hl.
  case_decide as Hd; [destruct (l !! i) eqn:E|]; simpl; intros; simplify_eq; eauto.
Qed.

Lemma bm_wf_new : bm_wf bm_new.
Proof. split; [constructor|simpl; lia]. Qed.

Lemma bm_wf_set bm s : bm_wf bm -> in_u16 s -> bm_wf (bm_set bm s).
Proof.
  intros [Hw Hl] Hs. pose proof (slot_word_idx s Hs).
  pose proof (Z.mod_pos_bound s 64).
  unfold bm_set, bm_wf; cbn [words]. rewrite length_alter. split.
  - apply Forall_alter_in; [|auto with axiomdb lia].
    case_decide; [|done]. apply Forall_resize; auto with axiomdb.
  - case_decide; [rewrite length_resize|]; lia.
Qed.

Lemma bm_wf_clear bm s : bm_wf bm -> in_u16 s -> bm_wf (bm_clear bm s).
Proof.
  intros [Hw Hl] Hs. pose proof (Z.mod_pos_bound s 64).
  unfold bm_clear. case_decide; [|done]. unfold bm_wf; cbn [words].
  rewrite length_alter. split; [|done]. apply Forall_alter_in; [done|].
  intros w Hw'. apply in_u64_land; [done|]. apply in_u64_not64, in_u64_bit. lia.
Qed.

Lemma bm_wf_with_slot s : in_u16 s -> bm_wf (bm_with_slot s).
Proof. intros. by apply bm_wf_set; [apply bm_wf_new|]. Qed.

#[export] Hint Resolve bm_wf_new bm_wf_set bm_wf_clear bm_wf_with_slot : axiomdb.

(** ** The set of slots *)

Lemma bm_test_range bm s : 0 <= s -> bm_test bm s = true -> s < 64 * zlen (words bm).
Proof.
  intros Hs. unfold bm_test. destruct (words bm !! _) as [w|] eqn:E; [|done].
  intros _. apply lookup_lt_Some in E.
  pose proof (Z.div_mod s 64). pose proof (Z.mod_pos_bound s 64). lia.
Qed.

Lemma elem_of_slots bm s : s ∈ slots bm <-> 0 <= s /\ bm_test bm s = true.
Proof.
  unfold slots. rewrite elem_of_list_to_set, list_elem_of_filter, elem_of_seqZ.
  split; [intros; split; [lia|tauto]|]. intros [Hs Ht].
  split; [done|]. pose proof (bm_test_range bm s Hs Ht). lia.
Qed.

Lemma slots_new : slots bm_new = ∅.
Proof. apply set_eq. intros s. rewrite elem_of_slots. split; [by intros []|by intros ?%not_elem_of_empty]. Qed.

Lemma slots_set bm s : 0 <= s -> slots (bm_set bm s) = {[s]} ∪ slots bm.
Proof.
  intros Hs. apply set_eq. intros t. rewrite elem_of_union, elem_of_singleton, !elem_of_slots.
  split.
  - intros [Ht H]. rewrite bm_test_set in H by done.
    apply orb_true_iff in H as [H|H]; [left; by apply bool_decide_eq_true in H|by right].
  - intros [->|[Ht H]]; (split; [done|]); rewrite bm_test_set by done.
    + by rewrite bool_decide_eq_true_2.
    + by rewrite H, orb_true_r.
Qed.

Lemma slots_with_slot s : 0 <= s -> slots (bm_with_slot s) = {[s]}.
Proof. intros. unfold bm_with_slot. rewrite slots_set, slots_new by done. apply (right_id_L ∅ (∪)). Qed.

Lemma slots_clear bm s : 0 <= s -> slots (bm_clear bm s) = slots bm ∖ {[s]}.
Proof.
  intros Hs. apply set_eq. intros t.
  rewrite elem_of_difference, elem_of_singleton, !elem_of_slots. split.
  - intros [Ht H]. rewrite bm_test_clear in H by done.
    apply andb_true_iff in H as [H1 H2]. apply negb_true_iff, bool_decide_eq_false in H1. done.
  - intros [[Ht H] Hne]. split; [done|]. rewrite bm_test_clear, H by done.
    by rewrite bool_decide_eq_false_2.
Qed.

(** Words and slots: bit [b] of word [i] is slot [64 * i + b]. *)
Lemma slot_of_bit (i b : Z) :
  0 <= i -> 0 <= b < 64 ->
  (64 * i + b) / 64 = i /\ (64 * i + b) mod 64 = b.
Proof.
  intros Hi Hb. split.
  - symmetry. apply (Z.div_unique _ _ _ b); lia.
  - symmetry. apply (Z.mod_unique _ _ i); lia.
Qed.

Lemma bm_test_bit bm (i : nat) b w :
  words bm !! i = Some w -> 0 <= b < 64 -> bm_test bm (64 * Z.of_nat i + b) = Z.testbit w b.
Proof.
  intros Hw Hb. destruct (slot_of_bit (Z.of_nat i) b) as [Hd Hm]; [lia|done|].
  rewrite (bm_test_testbit _ _ w); [by rewrite Hm|lia|]. rewrite Hd, Nat2Z.id. done.
Qed.

Lemma bm_overlaps_spec a b :
  bm_wf a -> bm_wf b ->
  bm_overlaps a b = true <-> exists s, 0 <= s /\ bm_test a s = true /\ bm_test b s = true.
Proof.
  intros [Ha _] [Hb _]. unfold bm_overlaps. rewrite existsb_exists. split.
  - intros ([wa wb] & Hin & Hne). apply list_elem_of_In, list_elem_of_lookup in Hin as [i Hi].
    apply lookup_zip_with_Some in Hi as (wa' & wb' & [= <- <-] & Hwa & Hwb). simpl in Hne.
    apply negb_true_iff, Z.eqb_neq in Hne.
    rewrite Forall_lookup in Ha, Hb.
    destruct (u64_nonzero_bit (Z.land wa wb)) as (bit & Hbit & Ht); [|done|].
    { apply in_u64_land; [eauto|]. specialize (Hb _ _ Hwb). widths. }
    rewrite Z.land_spec in Ht. apply andb_true_iff in Ht as [H1 H2].
    exists (64 * Z.of_nat i + bit). rewrite (bm_test_bit _ _ _ _ Hwa), (bm_test_bit _ _ _ _ Hwb) by done.
    split; [lia|done].
  - intros (s & Hs & Hta & Htb).
    unfold bm_test in Hta, Htb. pose proof (Z.mod_pos_bound s 64).
    destruct (words a !! _) as [wa|] eqn:Ea; [|done].
    destruct (words b !! _) as [wb|] eqn:Eb; [|done].
    rewrite land_bit_nonzero in Hta, Htb by lia.
    exists (wa, wb). split.
    + apply list_elem_of_In, list_elem_of_lookup. eexists.
      apply lookup_zip_with_Some. eauto 6.
    + simpl. apply negb_true_iff, Z.eqb_neq. intros Hz.
      apply (f_equal (fun z => Z.testbit z (s mod 64))) in Hz.
      by rewrite Z.land_spec, Z.bits_0, Hta, Htb in Hz.
Qed.

Lemma bm_is_empty_spec bm : bm_wf bm -> bm_is_empty bm = true <-> slots bm = ∅.
Proof.
  intros [Hw _]. unfold bm_is_empty. rewrite forallb_forall. split.
  - intros H. apply set_eq. intros s. rewrite elem_of_slots.
    split; [|set_solver]. intros [Hs Ht]. unfold bm_test in Ht.
    destruct (words bm !! _) as [w|] eqn:E; [|done].
    assert (w = 0) as ->.
    { apply Z.eqb_eq, H, list_elem_of_In, list_elem_of_lookup. eauto. }
    by rewrite Z.land_0_l, bool_decide_eq_false_2 in Ht by auto.
  - intros He w Hin. apply Z.eqb_eq. apply list_elem_of_In, list_elem_of_lookup in Hin as [i Hi].
    destruct (decide (w = 0)); [done|exfalso].
    rewrite Forall_lookup in Hw.
    destruct (u64_nonzero_bit w (Hw _ _ Hi) ltac:(done)) as (b & Hb & Ht).
    assert (64 * Z.of_nat i + b ∈ slots bm) as Hel; [|rewrite He in Hel; set_solver].
    apply elem_of_slots. rewrite (bm_test_bit _ _ _ _ Hi) by done. split; [lia|done].
Qed.

Lemma first_set_from_spec ws : forall (k : nat),
  Forall in_u64 ws -> (k + length ws <= 1024)%nat ->
  match first_set_from (Z.of_nat k) ws with
  | None => Forall (fun w => w = 0) ws
  | Some s => exists (i : nat) w,
      ws !! i = Some w /\ w ≠ 0 /\
      s = 64 * Z.of_nat (k + i) + trailing_zeros64 w /\
      (forall j w', (j < i)%nat -> ws !! j = Some w' -> w' = 0)
  end.
Proof.
  induction ws as [|w ws IH]; intros k Hws Hk; simpl; [constructor|].
  inv Hws. simpl in Hk. destruct (Z.eqb_spec w 0) as [->|Hne].
  - specialize (IH (S k)). rewrite Nat2Z.inj_succ in IH.
    destruct (first_set_from (Z.of_nat k + 1) ws) as [s|] eqn:E;
      replace (Z.of_nat k + 1) with (Z.succ (Z.of_nat k)) in E by lia; rewrite E in IH.
    + destruct IH as (i & w & Hi & Hne & -> & Hlow); [done|lia|].
      exists (S i), w. split_and!; [done|done|lia|].
      intros [|j] w' Hj Hw'; [by simplify_eq/=|]. apply (Hlow j); [lia|done].
    + constructor; [done|]. apply IH; [done|lia].
  - exists 0%nat, w. destruct (trailing_zeros64_spec w) as (Hr & _); [done|done|].
    split_and!; [done|done| |intros; lia].
    unfold wrap16. rewrite (Z.mod_small (Z.of_nat k)) by lia.
    rewrite Z.mod_small by lia. rewrite Nat.add_0_r. lia.
Qed.

(** [first_set_bit] is the least slot of the set, [None] exactly on the empty set. *)
Lemma bm_first_set_bit_Some bm s :
  bm_wf bm -> bm_first_set_bit bm = Some s ->
  s ∈ slots bm /\ (forall t, t ∈ slots bm -> s <= t).
Proof.
  intros Hwf Hs. pose proof Hwf as [Hw Hl].
  pose proof (first_set_from_spec (words bm) 0 Hw ltac:(lia)) as H.
  unfold bm_first_set_bit in Hs. change (Z.of_nat 0) with 0 in H. rewrite Hs in H.
  destruct H as (i & w & Hi & Hne & -> & Hlow). simpl.
  rewrite Forall_lookup in Hw.
  destruct (trailing_zeros64_spec w (Hw _ _ Hi) Hne) as (Hr & Hb & Hk).
  split.
  - apply elem_of_slots. rewrite (bm_test_bit _ _ _ _ Hi) by lia. split; [lia|done].
  - intros t [Ht0 Ht]%elem_of_slots. unfold bm_test in Ht.
    destruct (words bm !! Z.to_nat (t / 64)) as [w'|] eqn:E; [|done].
    pose proof (Z.mod_pos_bound t 64). pose proof (Z.div_mod t 64).
    pose proof (Z.div_pos t 64).
    rewrite land_bit_nonzero in Ht by lia.
    destruct (decide (Z.to_nat (t / 64) < i)%nat) as [Hlt|Hge].
    + rewrite (Hlow _ _ Hlt E), Z.bits_0 in Ht. done.
    + destruct (decide (Z.to_nat (t / 64) = i)) as [Heq|Hne'].
      * assert (w' = w) as -> by congruence.
        destruct (decide (t mod 64 < trailing_zeros64 w)); [|lia].
        rewrite Hk in Ht; [done|lia].
      * lia.
Qed.

Lemma bm_first_set_bit_None bm :
  bm_wf bm -> bm_first_set_bit bm = None <-> slots bm = ∅.
Proof.
  intros Hwf. rewrite <-bm_is_empty_spec by done. pose proof Hwf as [Hw Hl].
  pose proof (first_set_from_spec (words bm) 0 Hw ltac:(lia)) as H.
  unfold bm_first_set_bit, bm_is_empty. change (Z.of_nat 0) with 0 in H.
  rewrite forallb_forall. destruct (first_set_from 0 (words bm)) as [s|]; split; try done.
  - intros Hall. destruct H as (i & w & Hi & Hne & _). exfalso. apply Hne, Z.eqb_eq, Hall.
    apply list_elem_of_In, list_elem_of_lookup. eauto.
  - intros _ w Hin. apply Z.eqb_eq. rewrite Forall_forall in H. by apply H, list_elem_of_In.
Qed.

Lemma bm_first_set_bit_with_slot s :
  in_u16 s -> bm_first_set_bit (bm_with_slot s) = Some s.
Proof.
  intros Hs. pose proof (bm_wf_with_slot s Hs) as Hwf.
  assert (0 <= s) by widths.
  destruct (bm_first_set_bit (bm_with_slot s)) as [t|] eqn:E.
  - apply bm_first_set_bit_Some in E as [Ht _]; [|done].
    rewrite slots_with_slot in Ht by done. set_solver.
  - apply bm_first_set_bit_None in E; [|done].
    rewrite slots_with_slot in E by done. set_solver.
Qed.

(** ** Counting *)

Lemma filter_seqZ_shift (P Q : Z -> Prop) `{forall x, Decision (P x), forall x, Decision (Q x)} a b n :
  (forall i, 0 <= i < n -> P (a + i) <-> Q (b + i)) ->
  length (filter P (seqZ a n)) = length (filter Q (seqZ b n)).
Proof.
  intros HPQ. destruct (decide (0 <= n)) as [Hn|Hn]; [|by rewrite !seqZ_nil by lia].
  revert n Hn a b HPQ. apply (natlike_ind (fun n => forall a b, _ -> _)).
  - intros. done.
  - intros m Hm IH a b HPQ. rewrite (seqZ_cons a), (seqZ_cons b) by lia. rewrite !Z.pred_succ.
    rewrite !filter_cons.
    specialize (IH (Z.succ a) (Z.succ b)).
    assert (P a <-> Q b) as Hab by (specialize (HPQ 0); rewrite !Z.add_0_r in HPQ; apply HPQ; lia).
    assert (length (filter P (seqZ (Z.succ a) m)) = length (filter Q (seqZ (Z.succ b) m))) as Heq.
    { apply IH. intros i Hi. specialize (HPQ (1 + i)).
      replace (Z.succ a + i) with (a + (1 + i)) by lia.
      replace (Z.succ b + i) with (b + (1 + i)) by lia. apply HPQ. lia. }
    destruct (decide (P a)), (decide (Q b)); cbn [length]; rewrite ?Heq; (done || tauto).
Qed.

(** [count] is the number of slots in the set. *)
Lemma bm_count_size bm : bm_count bm = Z.of_nat (size (slots bm)).
Proof.
  unfold slots. rewrite size_list_to_set by (apply NoDup_filter, NoDup_seqZ).
  assert (Hgen : forall ws' ws (k : nat),
    words bm = ws' ++ ws -> k = length ws' ->
    foldr Z.add 0 (count_ones64 <$> ws) =
    zlen (filter (fun s => bm_test bm s = true) (seqZ (64 * Z.of_nat k) (64 * zlen ws)))).
  { intros ws' ws. revert ws'.
    induction ws as [|w ws IH]; intros ws' k Hbm Hk.
    { done. }
    rewrite fmap_cons. cbn [foldr length].
    rewrite (IH (ws' ++ [w]) (S k)); [|by rewrite <-app_assoc|rewrite length_app; simpl; lia].
    replace (64 * Z.of_nat (S (length ws))) with (64 + 64 * zlen ws) by lia.
    rewrite seqZ_app, filter_app, length_app by lia. rewrite Nat2Z.inj_add. f_equal.
    - unfold count_ones64. f_equal. symmetry. apply filter_seqZ_shift.
      intros i Hi. rewrite (bm_test_bit bm k i w); [done| |done].
      rewrite Hbm, lookup_app_r by lia. by rewrite Hk, Nat.sub_diag.
    - by replace (64 * Z.of_nat (S k)) with (64 * Z.of_nat k + 64) by lia. }
  unfold bm_count. rewrite (Hgen [] (words bm) 0%nat) by done. done.
Qed.

Lemma slots_clear_all bm : slots (bm_clear_all bm) = ∅.
Proof.
  apply set_eq. intros t. rewrite elem_of_slots. split; [|by intros ?%not_elem_of_empty].
  intros [_ Htest]. unfold bm_test, bm_clear_all in Htest. simpl in Htest.
  rewrite list_lookup_fmap in Htest. by destruct (words bm !! _).
Qed.

Lemma bm_test_elem bm s : 0 <= s -> bm_test bm s = true <-> s ∈ slots bm.
Proof. intros. rewrite elem_of_slots. tauto. Qed.

Lemma bm_overlaps_disjoint a b :
  bm_wf a -> bm_wf b -> bm_overlaps a b = true <-> ~ (slots a ## slots b).
Proof.
  intros Ha Hb. rewrite bm_overlaps_spec by done. split.
  - intros (t & Ht & H1 & H2) Hd. apply (Hd t); by apply elem_of_slots.
  - intros Hnd. destruct (set_choose_or_empty (slots a ∩ slots b)) as [[t Ht]|He].
    + apply elem_of_intersection in Ht as [[??]%elem_of_slots [_ ?]%elem_of_slots]. eauto.
    + exfalso. apply Hnd. set_solver.
Qed.

(** the bitmap implements a finite set of slots: every operation is the set
    operation of its name, [first_set_bit] is the minimum, [count] the cardinality,
    and the well-formedness invariant is preserved. *)
Theorem slot_bitmap_refines_set a b s :
  bm_wf a -> bm_wf b -> in_u16 s ->
  (slots bm_new = ∅) /\
  (slots (bm_with_slot s) = {[s]}) /\
  (slots (bm_set a s) = {[s]} ∪ slots a) /\
  (slots (bm_clear a s) = slots a ∖ {[s]}) /\
  (slots (bm_clear_all a) = ∅) /\
  (bm_test a s = true <-> s ∈ slots a) /\
  (bm_overlaps a b = true <-> ~ (slots a ## slots b)) /\
  (bm_is_empty a = true <-> slots a = ∅) /\
  (bm_count a = Z.of_nat (size (slots a))) /\
  (forall t, bm_first_set_bit a = Some t ->
     t ∈ slots a /\ forall t', t' ∈ slots a -> t <= t') /\
  (bm_first_set_bit a = None <-> slots a = ∅) /\
  bm_wf (bm_set a s) /\ bm_wf (bm_clear a s).
Proof.
  intros Ha Hb Hs. assert (0 <= s) by widths.
  refine (conj slots_new (conj (slots_with_slot s _) (conj (slots_set a s _)
    (conj (slots_clear a s _) (conj (slots_clear_all a) (conj (bm_test_elem a s _)
    (conj (bm_overlaps_disjoint a b Ha Hb) (conj (bm_is_empty_spec a Ha)
    (conj (bm_count_size a) (conj (fun t => bm_first_set_bit_Some a t Ha)
    (conj (bm_first_set_bit_None a Ha) (conj _ _)))))))))))); auto with axiomdb.
Qed.

Lemma slot_bitmap_refines_set_witness :
  bm_wf (bm_with_slot 200) /\ bm_wf (bm_with_slot 5) /\ in_u16 63 /\
  slots (bm_set (bm_with_slot 200) 63) = {[63]} ∪ slots (bm_with_slot 200).
Proof.
  assert (H1 : bm_wf (bm_with_slot 200)) by (apply bm_wf_with_slot; widths).
  assert (H2 : bm_wf (bm_with_slot 5)) by (apply bm_wf_with_slot; widths).
  assert (H3 : in_u16 63) by widths.
  split_and!; [exact H1|exact H2|exact H3|].
  exact (proj1 (proj2 (proj2 (slot_bitmap_refines_set _ _ 63 H1 H2 H3)))).
Defined.
