(* ===== verification/LockQueue.v ===== *)
(** * Lock queues

    crates/axiomdb-lock/src/entry.rs: the granted list and the FIFO of waiters of one
    lockable object (a page for record locks, a table for table locks). *)

From S2P Require Import Prelude LockMode SlotBitmap.

(** [requested_at] is an [Instant]: nanoseconds of the monotonic clock. *)
Record LockEntry : Type := mkEntry {
  e_txn_id : Z;
  e_mode : LockMode;
  e_flags : Z;
  e_requested_at : Z;
  e_bitmap : option SlotBitmap
}.

Inductive WaitAbortReason : Type := AbortDeadlock | AbortTimeout.

#[export] Instance WaitAbortReason_eq_dec : EqDecision WaitAbortReason.
Proof. solve_decision. Defined.

(** A notification handle; the argument is the identity of the shared [Arc]. *)
Inductive WaiterSignal : Type :=
| SigAsync (handle : Z)
| SigSync (handle : Z).

Record LockWaiter : Type := mkWaiter {
  w_entry : LockEntry;
  w_signal : WaiterSignal;
  w_abort_reason : option WaitAbortReason
}.

Record LockQueue : Type := mkQueue {
  granted : list LockEntry;
  waiting : list LockWaiter
}.

Definition q_new : LockQueue := mkQueue [] [].

(** The [for entry in &self.granted] loop of [find_conflict]. *)
Fixpoint find_conflict_in (g : list LockEntry) (request_txn : Z) (request_mode : LockMode)
    (slot_id : option Z) : option Z :=
  match g with
  | [] => None
  | entry :: g' =>
      if e_txn_id entry =? request_txn then
        find_conflict_in g' request_txn request_mode slot_id
      else if negb (conflicts (e_mode entry) request_mode) then
        find_conflict_in g' request_txn request_mode slot_id
      else
        match slot_id, e_bitmap entry with
        | Some sid, Some bm =>
            if negb (bm_overlaps_slot bm sid)
            then find_conflict_in g' request_txn request_mode slot_id
            else Some (e_txn_id entry)
        | _, _ => Some (e_txn_id entry)
        end
  end.

Definition find_conflict (q : LockQueue) (request_txn : Z) (request_mode : LockMode)
    (slot_id : option Z) : option Z :=
  find_conflict_in (granted q) request_txn request_mode slot_id.

Definition find_granted_idx (q : LockQueue) (txn_id : Z) (mode : LockMode) : option nat :=
  fst <$> list_find (fun e => e_txn_id e = txn_id /\ e_mode e = mode) (granted q).

Definition find_any_granted_idx (q : LockQueue) (txn_id : Z) : option nat :=
  fst <$> list_find (fun e => e_txn_id e = txn_id) (granted q).

(** The slot a waiter asks for. *)
Definition waiter_slot (w : LockWaiter) : option Z :=
  match e_bitmap (w_entry w) with
  | Some bm => bm_first_set_bit bm
  | None => None
  end.

(** [waiter.entry.flags = waiter.entry.flags.difference(WAITING)]. *)
Definition grant_entry (w : LockWaiter) : LockEntry :=
  let e := w_entry w in
  mkEntry (e_txn_id e) (e_mode e) (LockFlags.difference (e_flags e) LockFlags.WAITING)
    (e_requested_at e) (e_bitmap e).

Definition waiter_conflicts (g : list LockEntry) (w : LockWaiter) : bool :=
  match find_conflict_in g (e_txn_id (w_entry w)) (e_mode (w_entry w)) (waiter_slot w) with
  | Some _ => true
  | None => false
  end.

(** The [while i < self.waiting.len()] loop; [None] means the fuel ran out. *)
Fixpoint grant_loop (fuel i : nat) (q : LockQueue) (signals : list WaiterSignal)
    : option (LockQueue * list WaiterSignal) :=
  match waiting q !! i with
  | None => Some (q, signals)
  | Some w =>
      match fuel with
      | O => None
      | S f =>
          if waiter_conflicts (granted q) w
          then grant_loop f (i + 1) q signals
          else grant_loop f i
                 (mkQueue (granted q ++ [grant_entry w]) (delete i (waiting q)))
                 (signals ++ [w_signal w])
      end
  end.

Definition try_grant_waiters (q : LockQueue) : LockQueue * list WaiterSignal :=
  match grant_loop (length (waiting q)) 0 q [] with
  | Some r => r
  | None => (q, [])
  end.

(** [granted.retain(|e| e.txn_id != txn_id)], with the removed entries. *)
Definition remove_granted_by_txn (q : LockQueue) (txn_id : Z) : LockQueue * list LockEntry :=
  (mkQueue (filter (fun e => e_txn_id e ≠ txn_id) (granted q)) (waiting q),
   filter (fun e => e_txn_id e = txn_id) (granted q)).

Definition remove_waiter_by_txn (q : LockQueue) (txn_id : Z) : LockQueue * option LockWaiter :=
  match list_find (fun w => e_txn_id (w_entry w) = txn_id) (waiting q) with
  | Some (pos, w) => (mkQueue (granted q) (delete pos (waiting q)), Some w)
  | None => (q, None)
  end.

Definition q_is_empty (q : LockQueue) : bool :=
  bool_decide (granted q = []) && bool_decide (waiting q = []).

(** ** Specifications *)

(** Two granted entries may coexist: same transaction, compatible modes, or (record
    locks) disjoint slots. *)
Definition entries_compat (e1 e2 : LockEntry) : Prop :=
  e_txn_id e1 = e_txn_id e2 \/
  conflicts (e_mode e1) (e_mode e2) = false \/
  exists b1 b2, e_bitmap e1 = Some b1 /\ e_bitmap e2 = Some b2 /\ slots b1 ## slots b2.

(** Mutual exclusion: all granted entries of a queue may coexist. *)
Definition granted_safe (g : list LockEntry) : Prop :=
  forall e1 e2, e1 ∈ g -> e2 ∈ g -> entries_compat e1 e2.
Definition queue_safe (q : LockQueue) : Prop := granted_safe (granted q).

(** Record queues hold bitmaps (a waiter asks for exactly one slot), table queues
    hold none. *)
Inductive QueueKind : Type := RecordQueue | TableQueue.

Definition granted_ok (k : QueueKind) (e : LockEntry) : Prop :=
  match k with
  | RecordQueue => exists bm, e_bitmap e = Some bm /\ bm_wf bm
  | TableQueue => e_bitmap e = None
  end.
Definition waiting_ok (k : QueueKind) (e : LockEntry) : Prop :=
  match k with
  | RecordQueue => exists s, in_u16 s /\ e_bitmap e = Some (bm_with_slot s)
  | TableQueue => e_bitmap e = None
  end.

Record queue_wf (k : QueueKind) (q : LockQueue) : Prop := {
  qwf_granted : Forall (granted_ok k) (granted q);
  qwf_waiting : Forall (fun w => waiting_ok k (w_entry w)) (waiting q)
}.

(** One front-to-back pass over the waiters, as a function of the granted list. *)
Fixpoint grant_pass (g : list LockEntry) (ws : list LockWaiter)
    : list LockEntry * list LockWaiter * list LockWaiter :=
  match ws with
  | [] => (g, [], [])
  | w :: ws' =>
      if waiter_conflicts g w then
        let '(g', kept, promoted) := grant_pass g ws' in (g', w :: kept, promoted)
      else
        let '(g', kept, promoted) := grant_pass (g ++ [grant_entry w]) ws' in
        (g', kept, w :: promoted)
  end.

(** ** Conflicts *)

Definition no_conflict_with (t : Z) (m : LockMode) (slot : option Z) (e : LockEntry) : Prop :=
  e_txn_id e = t \/ conflicts (e_mode e) m = false \/
  exists s bm, slot = Some s /\ e_bitmap e = Some bm /\ bm_test bm s = false.

Lemma find_conflict_None g t m slot :
  find_conflict_in g t m slot = None <-> Forall (no_conflict_with t m slot) g.
Proof.
  induction g as [|e g IH]; simpl; [split; [constructor|done]|].
  rewrite Forall_cons. unfold no_conflict_with at 1, bm_overlaps_slot.
  destruct (Z.eqb_spec (e_txn_id e) t) as [Ht|Ht]; [tauto|].
  destruct (conflicts (e_mode e) m) eqn:Hc; simpl; [|tauto].
  destruct slot as [s|], (e_bitmap e) as [bm|] eqn:Hb; simpl.
  2-4: split; [done|]; intros [[?|[?|(?&?&?&?&?)]] _]; congruence.
  destruct (bm_test bm s) eqn:Hs; simpl.
  - split; [done|]. intros [[?|[?|(?&?&?&?&?)]] _]; congruence.
  - rewrite IH. split; [|tauto]. intros; split; [|done]. right; right. eauto.
Qed.

(** The reported blocker is a conflicting holder. *)
Lemma find_conflict_Some g t m slot b :
  find_conflict_in g t m slot = Some b ->
  exists e, e ∈ g /\ e_txn_id e = b /\ b ≠ t /\ conflicts (e_mode e) m = true /\
    ~ no_conflict_with t m slot e.
Proof.
  induction g as [|e g IH]; [done|].
  assert (forall P, (exists e', e' ∈ g /\ P e') -> exists e', e' ∈ e :: g /\ P e') as Hcons.
  { intros P (e' & ? & ?). exists e'. split; [by right|done]. }
  pose proof (find_conflict_None [e] t m slot) as Hone.
  rewrite Forall_singleton in Hone. cbn in Hone |- *.
  destruct (Z.eqb_spec (e_txn_id e) t) as [Ht|Ht]; [eauto|].
  destruct (conflicts (e_mode e) m) eqn:Hc; cbn in Hone |- *; [|eauto].
  assert (~ no_conflict_with t m slot e -> Some (e_txn_id e) = Some b ->
    exists e', e' ∈ e :: g /\ e_txn_id e' = b /\ b ≠ t /\ conflicts (e_mode e') m = true /\
      ~ no_conflict_with t m slot e').
  { intros Hn [= <-]. exists e. split_and!; [by left|done|done|done|done]. }
  destruct slot, (e_bitmap e); cbn in Hone |- *; try (apply H; by rewrite <-Hone).
  destruct (negb _); [eauto|]. apply H; by rewrite <-Hone.
Qed.

Lemma find_conflict_app g g' t m slot :
  find_conflict_in g t m slot ≠ None -> find_conflict_in (g ++ g') t m slot ≠ None.
Proof. rewrite !find_conflict_None, Forall_app. tauto. Qed.

Lemma waiter_conflicts_false g w :
  waiter_conflicts g w = false <->
  Forall (no_conflict_with (e_txn_id (w_entry w)) (e_mode (w_entry w)) (waiter_slot w)) g.
Proof.
  rewrite <-find_conflict_None. unfold waiter_conflicts. by destruct (find_conflict_in _ _ _ _).
Qed.

Lemma waiter_conflicts_app g g' w :
  waiter_conflicts g w = true -> waiter_conflicts (g ++ g') w = true.
Proof.
  rewrite <-!not_false_iff_true, !waiter_conflicts_false, Forall_app. tauto.
Qed.

(** ** Compatibility *)

Lemma entries_compat_sym e1 e2 : entries_compat e1 e2 -> entries_compat e2 e1.
Proof.
  intros [H|[H|(b1&b2&H1&H2&H3)]]; unfold entries_compat.
  - auto.
  - right; left. by rewrite conflicts_comm.
  - right; right. exists b2, b1. split_and!; [done|done|set_solver].
Qed.

Lemma entries_compat_refl e : entries_compat e e.
Proof. by left. Qed.

(** An entry for the single slot [s] may join holders with no conflict on [s]. *)
Lemma no_conflict_compat e t m s f r :
  0 <= s -> no_conflict_with t m (Some s) e ->
  entries_compat (mkEntry t m f r (Some (bm_with_slot s))) e.
Proof.
  intros Hs [H|[H|(s'&bm&[= <-]&Hb&Ht)]]; unfold entries_compat; cbn.
  - auto.
  - right; left. by rewrite conflicts_comm.
  - right; right. exists (bm_with_slot s), bm. split_and!; [done|done|].
    rewrite slots_with_slot by done. intros x ->%elem_of_singleton [_ ?]%elem_of_slots.
    congruence.
Qed.

Lemma no_conflict_compat_table e t m f r :
  no_conflict_with t m None e -> entries_compat (mkEntry t m f r None) e.
Proof.
  intros [H|[H|(s'&bm&?&_)]]; unfold entries_compat; cbn; [auto| |done].
  right; left. by rewrite conflicts_comm.
Qed.

Lemma granted_safe_snoc g e :
  granted_safe g -> Forall (entries_compat e) g -> granted_safe (g ++ [e]).
Proof.
  intros Hg He e1 e2 H1 H2. rewrite Forall_forall in He.
  apply elem_of_app in H1 as [H1|H1%list_elem_of_singleton];
  apply elem_of_app in H2 as [H2|H2%list_elem_of_singleton]; subst.
  - by apply Hg.
  - by apply entries_compat_sym, He.
  - by apply He.
  - apply entries_compat_refl.
Qed.

Lemma granted_safe_submset g g' : g' ⊆ g -> granted_safe g -> granted_safe g'.
Proof. intros Hs H e1 e2 H1 H2. apply H; by apply Hs. Qed.

(** A waiter with no conflict is compatible with every holder. *)
Lemma waiter_compat k g w :
  waiting_ok k (w_entry w) -> waiter_conflicts g w = false ->
  Forall (entries_compat (grant_entry w)) g.
Proof.
  rewrite waiter_conflicts_false. intros Hk Hf. eapply Forall_impl; [exact Hf|]. intros e He.
  destruct w as [[t m f r b] sg ar]. unfold grant_entry, waiter_slot in *. cbn in *.
  destruct k.
  - destruct Hk as (s & Hs & Hb). cbn in Hb. subst b. rewrite bm_first_set_bit_with_slot in He by done.
    apply no_conflict_compat; [widths|done].
  - cbn in Hk. subst b. by apply no_conflict_compat_table.
Qed.

Lemma grant_entry_ok k w : waiting_ok k (w_entry w) -> granted_ok k (grant_entry w).
Proof.
  destruct w as [[t m f r b] sg ar]; destruct k; cbn; [|done].
  intros (s & Hs & ->). exists (bm_with_slot s). auto with axiomdb.
Qed.

(** ** Promotion of waiters *)

Lemma Forall_sublist {A} (P : A -> Prop) (l k : list A) :
  l `sublist_of` k -> Forall P k -> Forall P l.
Proof. induction 1; rewrite ?Forall_cons; tauto. Qed.

(** The index loop is the front-to-back pass. *)
Lemma grant_loop_pass rest : forall fuel skipped g signals,
  (length rest <= fuel)%nat ->
  grant_loop fuel (length skipped) (mkQueue g (skipped ++ rest)) signals =
  let '(g', kept, promoted) := grant_pass g rest in
  Some (mkQueue g' (skipped ++ kept), signals ++ (w_signal <$> promoted)).
Proof.
  induction rest as [|w rest IH]; intros fuel skipped g signals Hfuel.
  - rewrite app_nil_r. destruct fuel; cbn [grant_loop waiting];
      rewrite lookup_ge_None_2 by lia; cbn; by rewrite !app_nil_r.
  - destruct fuel as [|fuel]; [cbn in Hfuel; lia|]. cbn in Hfuel.
    cbn [grant_loop waiting granted grant_pass].
    rewrite lookup_app_r, Nat.sub_diag by lia. cbn [lookup list_lookup].
    destruct (waiter_conflicts g w).
    + specialize (IH fuel (skipped ++ [w]) g signals). rewrite length_app in IH. cbn in IH.
      rewrite <-app_assoc in IH. cbn in IH. rewrite IH by lia.
      destruct (grant_pass g rest) as [[g' kept] promoted].
      by rewrite <-app_assoc.
    + rewrite delete_middle. rewrite IH by lia.
      destruct (grant_pass (g ++ [grant_entry w]) rest) as [[g' kept] promoted].
      by rewrite fmap_cons, <-app_assoc.
Qed.

Lemma try_grant_waiters_pass q :
  try_grant_waiters q =
  let '(g', kept, promoted) := grant_pass (granted q) (waiting q) in
  (mkQueue g' kept, w_signal <$> promoted).
Proof.
  unfold try_grant_waiters. destruct q as [g ws].
  change 0%nat with (length (@nil LockWaiter)).
  change (mkQueue g ws) with (mkQueue g ([] ++ ws)).
  rewrite grant_loop_pass by done. cbn.
  by destruct (grant_pass g ws) as [[g' kept] promoted].
Qed.

(** What one pass does: promoted waiters are appended in order with [WAITING]
    cleared, and kept waiters still conflict with the final granted list. *)
Lemma grant_pass_spec ws : forall g g' kept promoted,
  grant_pass g ws = (g', kept, promoted) ->
  g' = g ++ (grant_entry <$> promoted) /\
  ws ≡ₚ kept ++ promoted /\
  kept `sublist_of` ws /\ promoted `sublist_of` ws /\
  Forall (fun w => waiter_conflicts g' w = true) kept.
Proof.
  induction ws as [|w ws IH]; intros g g' kept promoted H; simpl in H.
  - injection H as <- <- <-. rewrite app_nil_r. split_and!; auto; constructor.
  - destruct (waiter_conflicts g w) eqn:Hc.
    + destruct (grant_pass g ws) as [[g1 k1] p1] eqn:E. injection H as <- <- <-.
      destruct (IH _ _ _ _ E) as (-> & Hp & Hk & Hpr & Hf).
      split_and!; [done|by rewrite <-app_comm_cons, <-Hp|by constructor|by constructor|].
      constructor; [by apply waiter_conflicts_app|done].
    + destruct (grant_pass (g ++ [grant_entry w]) ws) as [[g1 k1] p1] eqn:E.
      injection H as <- <- <-.
      destruct (IH _ _ _ _ E) as (-> & Hp & Hk & Hpr & Hf).
      rewrite fmap_cons, <-app_assoc in *.
      split_and!; [done| |by constructor|by constructor|done].
      rewrite Hp at 1. by rewrite Permutation_middle.
Qed.

Lemma grant_pass_safe k ws : forall g g' kept promoted,
  Forall (fun w => waiting_ok k (w_entry w)) ws ->
  granted_safe g -> Forall (granted_ok k) g ->
  grant_pass g ws = (g', kept, promoted) ->
  granted_safe g' /\ Forall (granted_ok k) g'.
Proof.
  induction ws as [|w ws IH]; intros g g' kept promoted Hws Hg Hgok H; simpl in H.
  - by injection H as <- <- <-.
  - apply Forall_cons in Hws as [Hw Hws].
    destruct (waiter_conflicts g w) eqn:Hc.
    + destruct (grant_pass g ws) as [[g1 k1] p1] eqn:E. injection H as <- <- <-. eauto.
    + destruct (grant_pass (g ++ [grant_entry w]) ws) as [[g1 k1] p1] eqn:E.
      injection H as <- <- <-. eapply (IH (g ++ [grant_entry w])); eauto.
      * apply granted_safe_snoc; [done|]. by eapply waiter_compat.
      * apply Forall_app. split; [done|]. constructor; [by apply grant_entry_ok|done].
Qed.

Lemma try_grant_waiters_safe k q :
  queue_wf k q -> queue_safe q ->
  queue_safe (try_grant_waiters q).1 /\ queue_wf k (try_grant_waiters q).1.
Proof.
  intros [Hg Hw] Hs. rewrite try_grant_waiters_pass.
  destruct (grant_pass (granted q) (waiting q)) as [[g' kept] promoted] eqn:E.
  destruct (grant_pass_safe k _ _ _ _ _ Hw Hs Hg E) as [Hs' Hg'].
  apply grant_pass_spec in E as (_ & _ & Hsub & _ & _).
  split; [done|]. split; [done|]. cbn.
  by eapply Forall_sublist.
Qed.

Lemma try_grant_waiters_wf k q :
  queue_wf k q -> queue_wf k (try_grant_waiters q).1.
Proof.
  intros [Hg Hw]. rewrite try_grant_waiters_pass.
  destruct (grant_pass (granted q) (waiting q)) as [[g' kept] promoted] eqn:E.
  apply grant_pass_spec in E as (-> & _ & Hsub & Hsub' & _).
  split; cbn; [|by eapply Forall_sublist].
  apply Forall_app. split; [done|]. apply Forall_fmap.
  assert (Forall (fun w => waiting_ok k (w_entry w)) promoted) as Hpr
    by by eapply Forall_sublist.
  eapply Forall_impl; [exact Hpr|]. intros w Hw'. by apply grant_entry_ok.
Qed.

(** ** Removal *)

Lemma remove_granted_safe q t : queue_safe q -> queue_safe (remove_granted_by_txn q t).1.
Proof. apply granted_safe_submset. cbn. intros e. rewrite list_elem_of_filter. tauto. Qed.

Lemma remove_granted_wf k q t : queue_wf k q -> queue_wf k (remove_granted_by_txn q t).1.
Proof. intros [Hg Hw]. split; [|done]. eapply Forall_sublist; [apply sublist_filter|done]. Qed.

Lemma remove_granted_gone q t e :
  e ∈ granted (remove_granted_by_txn q t).1 -> e_txn_id e ≠ t.
Proof. cbn. rewrite list_elem_of_filter. tauto. Qed.

Lemma Forall_delete {A} (P : A -> Prop) (l : list A) i : Forall P l -> Forall P (delete i l).
Proof. intros H. rewrite delete_take_drop. apply Forall_app. split; [by apply Forall_take|by apply Forall_drop]. Qed.

Lemma remove_waiter_safe q t : queue_safe q -> queue_safe (remove_waiter_by_txn q t).1.
Proof. unfold remove_waiter_by_txn. by destruct (list_find _ _) as [[??]|]. Qed.

Lemma remove_waiter_wf k q t : queue_wf k q -> queue_wf k (remove_waiter_by_txn q t).1.
Proof.
  intros [Hg Hw]. unfold remove_waiter_by_txn.
  destruct (list_find _ _) as [[??]|]; [|done]. split; [done|]. by apply Forall_delete.
Qed.

#[export] Hint Resolve try_grant_waiters_wf remove_granted_wf remove_waiter_wf
  remove_granted_safe remove_waiter_safe : axiomdb.

(** ** Properties *)

(** [find_conflict] reports [None] exactly when every holder is the requester
    itself, holds a compatible mode, or (record locks) does not cover the slot; a
    reported blocker is another transaction holding a conflicting mode. *)
Theorem find_conflict_correct q t m slot :
  (find_conflict q t m slot = None <-> Forall (no_conflict_with t m slot) (granted q)) /\
  (forall b, find_conflict q t m slot = Some b ->
     exists e, e ∈ granted q /\ e_txn_id e = b /\ b ≠ t /\ conflicts (e_mode e) m = true /\
       ~ no_conflict_with t m slot e).
Proof.
  split; [apply find_conflict_None|]. intros b Hb. by apply find_conflict_Some.
Qed.

(** C28: a promotion pass over a queue whose holders are mutually compatible keeps them
    so: promoted waiters join the holders in FIFO order with [WAITING] cleared, their
    signals are returned in that order, the waiters are split into kept and promoted,
    and no kept waiter could have been granted. *)
Theorem try_grant_waiters_correct k q :
  queue_wf k q -> queue_safe q ->
  let '(q', signals) := try_grant_waiters q in
  queue_safe q' /\ queue_wf k q' /\
  exists promoted,
    granted q' = granted q ++ (grant_entry <$> promoted) /\
    signals = w_signal <$> promoted /\
    waiting q ≡ₚ waiting q' ++ promoted /\
    promoted `sublist_of` waiting q /\ waiting q' `sublist_of` waiting q /\
    Forall (fun w => waiter_conflicts (granted q') w = true) (waiting q').
Proof.
  intros Hwf Hs. pose proof (try_grant_waiters_safe k q Hwf Hs) as [Hs' Hwf'].
  rewrite try_grant_waiters_pass in *.
  destruct (grant_pass (granted q) (waiting q)) as [[g' kept] promoted] eqn:E.
  apply grant_pass_spec in E as (? & ? & ? & ? & ?).
  split; [done|]. split; [done|]. exists promoted. split_and!; auto.
Qed.

Lemma try_grant_waiters_correct_witness :
  let w t s m := mkWaiter (mkEntry t m LockFlags.WAITING 0 (Some (bm_with_slot s))) (SigSync t) None in
  let q := mkQueue [mkEntry 1 Exclusive LockFlags.NONE 0 (Some (bm_with_slot 3))]
             [w 2 3 Shared; w 3 5 Exclusive; w 4 5 Shared] in
  queue_wf RecordQueue q /\ queue_safe q /\
  (try_grant_waiters q).2 = [SigSync 3] /\ queue_safe (try_grant_waiters q).1.
Proof.
  intros w q.
  assert (Hwf : queue_wf RecordQueue q).
  { split; repeat constructor.
    - exists (bm_with_slot 3). split; [done|]. apply bm_wf_with_slot. by split.
    - by exists 3.
    - by exists 5.
    - by exists 5. }
  assert (Hs : queue_safe q).
  { intros e1 e2 ->%list_elem_of_singleton ->%list_elem_of_singleton. by left. }
  split; [done|]. split; [done|]. split; [vm_compute; reflexivity|].
  pose proof (try_grant_waiters_correct RecordQueue q Hwf Hs) as H.
  destruct (try_grant_waiters q) as [q' signals]. apply H.
Defined.
