(* ===== verification/Deadlock.v ===== *)
(** * Deadlock detection

    crates/axiomdb-lock/src/deadlock.rs and txn_locks.rs: the wait-for map, Brent's
    cycle search over it, the choice of a victim, and the per-transaction list of held
    locks. *)

From S2P Require Import Prelude.

(** ** Lock references (txn_locks.rs) *)

Inductive LockRef : Type :=
| RefRecord (page_id slot_id : Z)
| RefTable (table_id : Z).

#[export] Instance LockRef_eq_dec : EqDecision LockRef.
Proof. solve_decision. Defined.

Record TxnLockTracker : Type := mkTracker { tr_txn_id : Z; tr_held : list LockRef }.

Definition tracker_new (txn_id : Z) : TxnLockTracker := mkTracker txn_id [].
Definition tracker_track (t : TxnLockTracker) (r : LockRef) : TxnLockTracker :=
  mkTracker (tr_txn_id t) (tr_held t ++ [r]).
Definition tracker_drain (t : TxnLockTracker) : TxnLockTracker * list LockRef :=
  (mkTracker (tr_txn_id t) [], tr_held t).

(** ** The wait-for graph *)

(** [wait_started] is an instant in nanoseconds of the monotonic clock. *)
Record WaitEdge : Type := mkEdge {
  blocking_txn : Z;
  we_lock_ref : LockRef;
  wait_started : Z;
  undo_count : Z
}.

Abbreviation WaitForMap := (gmap Z WaitEdge).

(** ** Brent's algorithm *)

Record BrentState : Type := mkBrent {
  tortoise : Z;
  hare : Z;
  power : Z;
  lambda : Z
}.

(** One iteration of the first [loop]: [inr (Some hare)] is its [break],
    [inr None] a [return None]. *)
Definition brent_step (start : Z) (wait_for : WaitForMap) (s : BrentState)
    : BrentState + option Z :=
  match wait_for !! hare s with
  | None => inr None
  | Some edge =>
      let hare := blocking_txn edge in
      if hare =? tortoise s then inr (Some hare)
      else if bool_decide (wait_for !! hare = None) && negb (hare =? start) then inr None
      else
        let lambda := lambda s + 1 in
        let s' := if lambda =? power s
                  then mkBrent hare hare (wrap64 (power s ≪ 1)) 0
                  else mkBrent (tortoise s) hare (power s) lambda in
        if 1 ≪ 20 <? power s' then inr None else inl s'
  end.

(** One iteration of the second [loop], collecting the members. *)
Definition collect_step (hare : Z) (wait_for : WaitForMap) (s : list Z * Z)
    : (list Z * Z) + option (list Z) :=
  let '(cycle, current) := s in
  let cycle := cycle ++ [current] in
  match wait_for !! current with
  | None => inr None
  | Some edge =>
      let current := blocking_txn edge in
      if current =? hare then inr (Some cycle)
      else if 10000 <? zlen cycle then inr None
      else inl (cycle, current)
  end.

(** [None] if the code returns [None]; the loops are run with fuel [2 ^ 22] and
    [2 ^ 14], which [detect_cycle_terminates] shows to be enough. *)
Definition detect_cycle (start : Z) (wait_for : WaitForMap) : option (list Z) :=
  match loop_pow 22 (brent_step start wait_for) (mkBrent start start 1 0) with
  | inr (Some hare) =>
      match loop_pow 14 (collect_step hare wait_for) ([], hare) with
      | inr r => r
      | inl _ => None
      end
  | inr None => None
  | inl _ => None
  end.

(** ** Victim selection *)

Definition victim_score (now : Z) (wait_for : WaitForMap) (txn_id : Z) : Z :=
  match wait_for !! txn_id with
  | Some edge =>
      let undo_weight := saturating_mul64 (undo_count edge) 1000 in
      let wait_ms := wrap64 (Z.max 0 (now - wait_started edge) / 1000000) in
      saturating_add64 undo_weight wait_ms
  | None => U64_MAX
  end.

Fixpoint victim_loop (now : Z) (wait_for : WaitForMap) (cycle : list Z)
    (best_victim best_score : Z) : Z :=
  match cycle with
  | [] => best_victim
  | txn_id :: cycle' =>
      let score := victim_score now wait_for txn_id in
      if (score <? best_score) || ((score =? best_score) && (best_victim <? txn_id))
      then victim_loop now wait_for cycle' txn_id score
      else victim_loop now wait_for cycle' best_victim best_score
  end.

(** [cycle[0]] panics on an empty slice. *)
Definition select_victim (now : Z) (cycle : list Z) (wait_for : WaitForMap) : option Z :=
  match cycle with
  | [] => None
  | first :: _ => Some (victim_loop now wait_for cycle first U64_MAX)
  end.

(** ** Specifications *)

(** The transaction [n] blocking edges away, if the chain is that long. *)
Fixpoint hop (wf : WaitForMap) (n : nat) (t : Z) : option Z :=
  match n with
  | O => Some t
  | S n' => match wf !! t with Some e => hop wf n' (blocking_txn e) | None => None end
  end.

(** A simple cycle: distinct transactions, each blocked by the next, the last by the
    first. *)
Definition is_cycle (wf : WaitForMap) (c : list Z) : Prop :=
  c ≠ [] /\ NoDup c /\
  forall i x, c !! i = Some x ->
    blocking_txn <$> wf !! x = c !! (Nat.modulo (i + 1) (length c)).

(** The chain from [start] reaches a transaction that is not waiting. *)
Definition chain_ends (wf : WaitForMap) (start : Z) : Prop :=
  exists n t, hop wf n start = Some t /\ wf !! t = None.

(** ** Chains *)

Lemma hop_app wf a b t : hop wf (a + b) t = hop wf a t ≫= hop wf b.
Proof.
  revert t. induction a as [|a IH]; intros t; simpl; [done|].
  destruct (wf !! t); [apply IH|done].
Qed.

Lemma hop_S wf n t : hop wf (S n) t = hop wf n t ≫= fun x => blocking_txn <$> wf !! x.
Proof.
  rewrite <-Nat.add_1_r, hop_app. destruct (hop wf n t) as [x|]; simpl; [|done].
  by destruct (wf !! x).
Qed.

Lemma hop_prefix wf a b t x : hop wf b t = Some x -> (a <= b)%nat -> is_Some (hop wf a t).
Proof.
  intros Hb Hab. replace b with (a + (b - a))%nat in Hb by lia.
  rewrite hop_app in Hb. by destruct (hop wf a t).
Qed.

(** A chain either stops or repeats a transaction within [size wf + 1] steps. *)
Lemma hop_pigeonhole wf t x :
  hop wf (size wf + 1) t = Some x ->
  exists i j y, (i < j <= size wf)%nat /\ hop wf i t = Some y /\ hop wf j t = Some y.
Proof.
  intros Hx.
  set (f i := default 0 (hop wf i t)).
  assert (Hf : forall i, (i <= size wf + 1)%nat -> hop wf i t = Some (f i)).
  { intros i Hi. destruct (hop_prefix wf i _ t x Hx Hi) as [y Hy]. unfold f. by rewrite Hy. }
  destruct (decide (NoDup (f <$> seq 0 (size wf + 1)))) as [Hnd|Hnd].
  - exfalso.
    assert (list_to_set (f <$> seq 0 (size wf + 1)) ⊆@{gset Z} dom wf) as Hsub.
    { intros y. rewrite elem_of_list_to_set, list_elem_of_fmap.
      intros (i & -> & Hi%elem_of_seq). apply elem_of_dom.
      pose proof (Hf (S i) ltac:(lia)) as H1. rewrite hop_S, Hf in H1 by lia. simpl in H1.
      destruct (wf !! f i); [by eexists|done]. }
    apply subseteq_size in Hsub. rewrite size_list_to_set, size_dom in Hsub by done.
    rewrite length_fmap, length_seq in Hsub. lia.
  - assert (exists i j, (i < j <= size wf)%nat /\ f i = f j) as (i & j & Hij & Hfij).
    { assert (forall n, (~ NoDup (f <$> seq 0 n)) -> exists i j, (i < j < n)%nat /\ f i = f j) as H.
      { intros n. induction n as [|n IH]; intros Hn; [destruct Hn; constructor|].
        rewrite seq_S, fmap_app in Hn. simpl in Hn.
        destruct (decide (NoDup (f <$> seq 0 n))) as [Hd|Hd].
        - destruct (decide (f n ∈ f <$> seq 0 n)) as [Hin|Hin].
          + apply list_elem_of_fmap in Hin as (i & Hi & Hi'%elem_of_seq).
            exists i, n. split; [lia|done].
          + destruct Hn. apply NoDup_app. split_and!; [done| |apply NoDup_singleton].
            intros y Hy ->%list_elem_of_singleton. done.
        - destruct (IH Hd) as (i & j & ? & ?). exists i, j. split; [lia|done]. }
      destruct (H _ Hnd) as (i & j & ? & ?). exists i, j. split; [lia|done]. }
    exists i, j, (f i). split; [lia|]. rewrite !Hf by lia. by rewrite Hfij.
Qed.

Section Repeat.
Context (wf : WaitForMap) (t y : Z) (i j : nat).
Hypothesis Hij : (i < j)%nat.
Hypothesis Hi : hop wf i t = Some y.
Hypothesis Hj : hop wf j t = Some y.

Lemma hop_periodic n : (i <= n)%nat -> hop wf (n + (j - i)) t = hop wf n t.
Proof.
  intros Hn. replace (n + (j - i))%nat with (j + (n - i))%nat by lia.
  replace n with (i + (n - i))%nat at 2 by lia. by rewrite !hop_app, Hi, Hj.
Qed.

Lemma hop_total n : is_Some (hop wf n t).
Proof.
  induction n as [n IH] using lt_wf_ind.
  destruct (decide (n <= j)%nat); [by eapply hop_prefix|].
  replace n with ((n - (j - i)) + (j - i))%nat by lia.
  rewrite hop_periodic by lia. apply IH. lia.
Qed.

Lemma hop_total_waits n x : hop wf n t = Some x -> is_Some (wf !! x).
Proof.
  intros Hx. destruct (hop_total (S n)) as [z Hz]. rewrite hop_S, Hx in Hz. simpl in Hz.
  by destruct (wf !! x).
Qed.
End Repeat.

Lemma repeat_not_ends wf t y i j :
  (i < j)%nat -> hop wf i t = Some y -> hop wf j t = Some y -> ~ chain_ends wf t.
Proof.
  intros Hij Hi Hj (n & x & Hx & Hnone).
  destruct (hop_total_waits wf t y i j Hij Hi Hj n x Hx). congruence.
Qed.

Lemma ends_or_repeats wf t :
  chain_ends wf t \/
  exists i j y, (i < j <= size wf)%nat /\ hop wf i t = Some y /\ hop wf j t = Some y.
Proof.
  destruct (hop wf (size wf + 1) t) as [x|] eqn:Hx; [right; by eapply hop_pigeonhole|].
  left. generalize dependent (size wf + 1)%nat. intros n.
  induction n as [|n IH]; [done|]. rewrite hop_S.
  destruct (hop wf n t) as [y|] eqn:Hy; simpl; [|auto].
  destruct (wf !! y) eqn:Hw; [done|]. intros _. by exists n, y.
Qed.

(** ** Phase 1 *)

Section Phase1.
Context (start : Z) (wf : WaitForMap).

(** The tortoise is [power - 1] edges from the start, the hare [lambda] further, and
    they have not met since the tortoise last moved. *)
Record brent_inv (s : BrentState) : Prop := {
  bi_power : 1 <= power s <= 2 ^ 20;
  bi_lambda : 0 <= lambda s < power s;
  bi_tortoise : hop wf (Z.to_nat (power s - 1)) start = Some (tortoise s);
  bi_hare : hop wf (Z.to_nat (power s - 1 + lambda s)) start = Some (hare s);
  bi_unmet : forall l, 1 <= l <= lambda s ->
    hop wf (Z.to_nat (power s - 1 + l)) start ≠ Some (tortoise s)
}.

Lemma brent_inv_init : brent_inv (mkBrent start start 1 0).
Proof. split; cbn; try done; lia. Qed.

Lemma brent_hare_next s e :
  brent_inv s -> wf !! hare s = Some e ->
  hop wf (Z.to_nat (power s - 1 + (lambda s + 1))) start = Some (blocking_txn e).
Proof.
  intros [Hp Hl _ Hh _] He.
  replace (Z.to_nat _) with (S (Z.to_nat (power s - 1 + lambda s))) by lia.
  by rewrite hop_S, Hh; cbn; rewrite He.
Qed.

(** A step advances the total distance [power + lambda] of the hare by one. *)
Lemma brent_step_inv s s' :
  brent_inv s -> brent_step start wf s = inl s' ->
  brent_inv s' /\ power s' + lambda s' = power s + lambda s + 1 /\
  (power s' = power s \/
   power s' = 2 * power s /\
   forall l, 1 <= l <= power s ->
     hop wf (Z.to_nat (power s - 1 + l)) start ≠ Some (tortoise s)).
Proof.
  intros Hs. pose proof Hs as [Hp Hl Ht Hh Hu]. unfold brent_step.
  destruct (wf !! hare s) as [e|] eqn:He; [|done].
  pose proof (brent_hare_next s e Hs He) as Hn.
  destruct (Z.eqb_spec (blocking_txn e) (tortoise s)) as [|Hne]; [done|].
  destruct (_ && _); [done|]. change (1 ≪ 20) with (2 ^ 20).
  assert (Hu' : forall l, 1 <= l <= lambda s + 1 ->
    hop wf (Z.to_nat (power s - 1 + l)) start ≠ Some (tortoise s)).
  { intros l Hl'. destruct (decide (l = lambda s + 1)) as [->|]; [congruence|]. apply Hu. lia. }
  destruct (Z.eqb_spec (lambda s + 1) (power s)) as [Heq|Hlt].
  - assert (Hw : wrap64 (power s ≪ 1) = 2 * power s).
    { unfold wrap64. rewrite Z.shiftl_mul_pow2, Z.mod_small by lia. lia. }
    cbn [power]. rewrite Hw. destruct (Z.ltb_spec (2 ^ 20) (2 * power s)); [done|].
    intros [= <-]. cbn [power lambda]. split; [|split; [lia|right; split; [done|]]].
    + split; cbn [tortoise hare power lambda]; [lia|lia| | |lia].
      * rewrite <-Hn. f_equal. lia.
      * rewrite <-Hn. f_equal. lia.
    + intros l Hlp. apply Hu'. lia.
  - cbn [power]. destruct (Z.ltb_spec (2 ^ 20) (power s)); [done|].
    intros [= <-]. cbn [power lambda]. split; [|split; [lia|by left]].
    split; cbn [tortoise hare power lambda]; auto; lia.
Qed.

Lemma brent_terminates :
  exists r, loop_pow 22 (brent_step start wf) (mkBrent start start 1 0) = inr r.
Proof.
  apply (loop_pow_term _ brent_inv (fun s => 2 ^ 21 - (power s + lambda s)));
    [|apply brent_inv_init|cbn; lia].
  intros s s' Hs E. destruct (brent_step_inv s s' Hs E) as (Hs' & Hm & _).
  split; [done|]. pose proof (bi_power _ Hs'). pose proof (bi_lambda _ Hs'). lia.
Qed.

(** Meeting means a repetition. *)
Lemma brent_meets h :
  loop_pow 22 (brent_step start wf) (mkBrent start start 1 0) = inr (Some h) ->
  exists i j, (i < j)%nat /\ hop wf i start = Some h /\ hop wf j start = Some h.
Proof.
  set (Q := fun r : option Z => forall h, r = Some h ->
    exists i j, (i < j)%nat /\ hop wf i start = Some h /\ hop wf j start = Some h).
  intros Hr. eapply (loop_pow_inv _ brent_inv Q); [| |apply brent_inv_init|exact Hr|done].
  - intros s s' Hs E. by destruct (brent_step_inv s s' Hs E).
  - intros s r Hs E h' ->. unfold brent_step in E.
    destruct (wf !! hare s) as [e|] eqn:He; [|done].
    pose proof (brent_hare_next s e Hs He) as Hn. destruct Hs as [Hp Hl Ht Hh Hu].
    destruct (Z.eqb_spec (blocking_txn e) (tortoise s)) as [Heq|Hne].
    + injection E as <-. eexists _, _. split; [|split; [|exact Hn]]; [|by rewrite Heq]. lia.
    + destruct (_ && _); [done|]. by destruct (Z.ltb (1 ≪ 20) _).
Qed.

(** On a repeating chain of a map of moderate size the safety bound is not reached. *)
Lemma brent_finds i j y :
  (i < j <= size wf)%nat -> hop wf i start = Some y -> hop wf j start = Some y ->
  Z.of_nat (size wf) <= 2 ^ 18 ->
  loop_pow 22 (brent_step start wf) (mkBrent start start 1 0) ≠ inr None.
Proof.
  intros Hij Hi Hj Hsize.
  set (I := fun s => brent_inv s /\ power s <= 2 * Z.of_nat (size wf)).
  intros Hr. refine (loop_pow_inv _ I (fun r => r ≠ None) _ _ _ _ _ _ Hr eq_refl).
  - intros s s' [Hs Hb] E. unfold I. destruct (brent_step_inv s s' Hs E) as (Hs' & _ & [->|[-> Hu]]);
      [done|]. split; [done|]. pose proof (bi_power _ Hs).
    destruct (decide (power s <= Z.of_nat (size wf))); [lia|]. exfalso.
    apply (Hu (Z.of_nat (j - i))); [lia|]. rewrite <-(bi_tortoise _ Hs).
    rewrite <-(hop_periodic wf start y i j ltac:(lia) Hi Hj (Z.to_nat (power s - 1))) by lia.
    f_equal. lia.
  - intros s r [Hs Hb] E ->. unfold brent_step in E.
    destruct (hop_total_waits wf start y i j ltac:(lia) Hi Hj _ _ (bi_hare _ Hs)) as [e He].
    rewrite He in E. pose proof (brent_hare_next s e Hs He) as Hn.
    destruct (hop_total_waits wf start y i j ltac:(lia) Hi Hj _ _ Hn) as [e' He'].
    destruct (Z.eqb_spec (blocking_txn e) (tortoise s)); [done|].
    rewrite He', bool_decide_eq_false_2 in E by done. cbn [andb] in E.
    change (1 ≪ 20) with (2 ^ 20) in E. pose proof (bi_power _ Hs). pose proof (bi_lambda _ Hs).
    destruct (Z.eqb_spec (lambda s + 1) (power s)); cbn [power] in E.
    + assert (Hw : wrap64 (power s ≪ 1) = 2 * power s).
      { unfold wrap64. rewrite Z.shiftl_mul_pow2, Z.mod_small by lia. lia. }
      rewrite Hw in E. destruct (Z.ltb_spec (2 ^ 20) (2 * power s)); [|done]. lia.
    + destruct (Z.ltb_spec (2 ^ 20) (power s)); [|done]. lia.
  - split; [apply brent_inv_init|]. cbn. lia.
Qed.
End Phase1.

(** ** Phase 2 *)

(** A point that recurs does so within [size wf] steps. *)
Lemma period_bound wf h m :
  (0 < m)%nat -> hop wf m h = Some h ->
  exists d, (1 <= d <= size wf)%nat /\ hop wf d h = Some h.
Proof.
  intros Hm Hh.
  assert (Hmul : forall n, hop wf (n * m) h = Some h).
  { intros n. induction n as [|n IH]; [done|]. simpl. by rewrite hop_app, Hh. }
  destruct (hop_total wf h h 0 m Hm eq_refl Hh (size wf + 1)) as [x Hx].
  destruct (hop_pigeonhole wf h x Hx) as (a & b & y & Hab & Ha & Hb).
  exists (b - a)%nat. split; [lia|].
  pose proof (hop_periodic wf h y a b ltac:(lia) Ha Hb (a * m)) as Hp.
  rewrite hop_app, Hmul in Hp. apply Hp. nia.
Qed.

Section Phase2.
Context (h : Z) (wf : WaitForMap).

Record collect_inv (s : list Z * Z) : Prop := {
  ci_len : zlen s.1 <= 10000;
  ci_members : forall i, (i < length s.1)%nat -> s.1 !! i = hop wf i h;
  ci_current : hop wf (length s.1) h = Some s.2;
  ci_simple : forall i, (1 <= i <= length s.1)%nat -> hop wf i h ≠ Some h
}.

Record collect_post (c : list Z) : Prop := {
  cp_nonempty : (1 <= length c)%nat;
  cp_members : forall i, (i < length c)%nat -> c !! i = hop wf i h;
  cp_closes : hop wf (length c) h = Some h;
  cp_simple : forall i, (1 <= i < length c)%nat -> hop wf i h ≠ Some h
}.

Lemma collect_inv_init : collect_inv ([], h).
Proof. split; cbn; try done; intros; lia. Qed.

Lemma collect_push s e :
  collect_inv s -> wf !! s.2 = Some e ->
  (forall i, (i < length (s.1 ++ [s.2]))%nat -> (s.1 ++ [s.2]) !! i = hop wf i h) /\
  hop wf (length (s.1 ++ [s.2])) h = Some (blocking_txn e).
Proof.
  intros [_ Hm Hc _] He. rewrite length_app, Nat.add_1_r. split.
  - intros i Hi. destruct (decide (i = length s.1)) as [->|].
    + by rewrite Hc, list_lookup_middle.
    + rewrite lookup_app_l by (cbn in Hi; lia). apply Hm. cbn in Hi. lia.
  - rewrite hop_S, Hc. cbn. by rewrite He.
Qed.

Lemma collect_step_inv s s' :
  collect_inv s -> collect_step h wf s = inl s' ->
  collect_inv s' /\ length s'.1 = S (length s.1).
Proof.
  intros Hs. pose proof (collect_push s) as Hpush.
  destruct s as [c x]. cbn [collect_step fst snd] in *.
  destruct (wf !! x) as [e|] eqn:He; [|done]. destruct (Hpush e Hs eq_refl) as [Hm Hn].
  destruct (Z.eqb_spec (blocking_txn e) h) as [|Hne]; [done|].
  destruct (Z.ltb_spec 10000 (zlen (c ++ [x]))); [done|]. intros [= <-].
  rewrite length_app in *. cbn [length fst snd] in *. split; [|rewrite length_app; cbn; lia].
  destruct Hs as [Hl _ _ Hu].
  split; cbn [fst snd]; rewrite ?length_app; cbn [length].
  - lia.
  - done.
  - done.
  - intros i Hi. destruct (decide (i = length c + 1)%nat) as [->|]; [congruence|].
    apply Hu. cbn. lia.
Qed.

Lemma collect_terminates : exists r, loop_pow 14 (collect_step h wf) ([], h) = inr r.
Proof.
  apply (loop_pow_term _ collect_inv (fun s => 10001 - zlen s.1));
    [|apply collect_inv_init|cbn; lia].
  intros s s' Hs E. destruct (collect_step_inv s s' Hs E) as [Hs' Hl].
  split; [done|]. pose proof (ci_len _ Hs'). lia.
Qed.

Lemma collect_sound c :
  loop_pow 14 (collect_step h wf) ([], h) = inr (Some c) -> collect_post c.
Proof.
  intros Hr.
  refine (loop_pow_inv _ collect_inv (fun r => forall c, r = Some c -> collect_post c)
            _ _ _ _ _ collect_inv_init Hr _ eq_refl).
  - intros s s' Hs E. by destruct (collect_step_inv s s' Hs E).
  - clear Hr c. intros s r Hs E c ->. pose proof (collect_push s) as Hpush.
    destruct s as [c' x]. cbn [collect_step fst snd] in *.
    destruct (wf !! x) as [e|] eqn:He; [|done]. destruct (Hpush e Hs eq_refl) as [Hm Hn].
    destruct (Z.eqb_spec (blocking_txn e) h) as [Heq|Hne]; [|by destruct (Z.ltb _ _)].
    injection E as <-. destruct Hs as [Hl _ _ Hu]. rewrite Heq in Hn.
    split; [rewrite length_app; cbn; lia|done|done|].
    intros i Hi. rewrite length_app in Hi. apply Hu. cbn in *. lia.
Qed.

Lemma collect_finds d :
  1 <= Z.of_nat d <= 10000 -> hop wf d h = Some h ->
  loop_pow 14 (collect_step h wf) ([], h) ≠ inr None.
Proof.
  intros Hd Hh Hr.
  refine (loop_pow_inv _ collect_inv (fun r => r ≠ None) _ _ _ _ _ collect_inv_init Hr eq_refl).
  - intros s s' Hs E. by destruct (collect_step_inv s s' Hs E).
  - intros [c x] r Hs E ->. cbn [collect_step] in E.
    destruct (hop_total_waits wf h h 0 d ltac:(lia) eq_refl Hh _ _ (ci_current _ Hs)) as [e He].
    cbn in He. rewrite He in E. destruct (Z.eqb_spec (blocking_txn e) h); [done|].
    destruct (Z.ltb_spec 10000 (zlen (c ++ [x]))) as [Hlt|]; [|done].
    rewrite length_app in Hlt. cbn in Hlt.
    apply (ci_simple _ Hs d); [cbn; lia|done].
Qed.

Lemma collect_post_cycle c : collect_post c -> is_cycle wf c.
Proof.
  intros [Hne Hm Hc Hu]. split; [by destruct c; [cbn in Hne; lia|]|]. split.
  - apply NoDup_alt. intros i j x Hi Hj.
    pose proof (lookup_lt_Some _ _ _ Hi). pose proof (lookup_lt_Some _ _ _ Hj).
    rewrite Hm in Hi, Hj by done.
    assert (forall a b, (a < b < length c)%nat -> hop wf a h = Some x ->
      hop wf b h = Some x -> False) as Hdist.
    { intros a b Hab Ha Hb. apply (Hu (a + (length c - b))%nat); [lia|].
      rewrite hop_app, Ha. cbn. replace (length c) with (b + (length c - b))%nat in Hc by lia.
      rewrite hop_app, Hb in Hc. done. }
    destruct (lt_eq_lt_dec i j) as [[?| ->]|?]; [|done|]; exfalso;
      [apply (Hdist i j)|apply (Hdist j i)]; auto; lia.
  - intros i x Hi. pose proof (lookup_lt_Some _ _ _ Hi) as Hlt.
    rewrite Hm in Hi by done.
    assert (Hnext : hop wf (i + 1) h = blocking_txn <$> wf !! x).
    { by rewrite Nat.add_1_r, hop_S, Hi. }
    rewrite <-Hnext. destruct (decide (i + 1 = length c)%nat) as [Heq|].
    + rewrite Heq, Nat.Div0.mod_same, Hm, Hc by lia. done.
    + rewrite Nat.mod_small, Hm by lia. done.
Qed.
End Phase2.

(** ** Properties of the search *)

Lemma detect_cycle_unfold start wf c :
  detect_cycle start wf = Some c ->
  exists h, loop_pow 22 (brent_step start wf) (mkBrent start start 1 0) = inr (Some h) /\
            loop_pow 14 (collect_step h wf) ([], h) = inr (Some c).
Proof.
  unfold detect_cycle.
  destruct (loop_pow 22 _ _) as [?|[h|]]; [done| |done].
  destruct (loop_pow 14 _ _) as [?|r] eqn:E; [done|]. intros ->. eauto.
Qed.

Lemma detect_cycle_none start wf :
  detect_cycle start wf = None ->
  loop_pow 22 (brent_step start wf) (mkBrent start start 1 0) = inr None \/
  exists h, loop_pow 22 (brent_step start wf) (mkBrent start start 1 0) = inr (Some h) /\
            loop_pow 14 (collect_step h wf) ([], h) = inr None.
Proof.
  unfold detect_cycle. destruct (brent_terminates start wf) as [[h|] Hr]; [|by left].
  destruct (collect_terminates h wf) as [c Hc]. intros Hd. right. exists h. split; [done|].
  destruct (loop_pow 22 _ _) as [|r]; [done|]. injection Hr as ->.
  destruct (loop_pow 14 _ _) as [|r]; [done|]. congruence.
Qed.

(** C31: neither loop runs out of fuel, so [detect_cycle] always returns, on any map. *)
Theorem detect_cycle_terminates start wf :
  (exists r, loop_pow 22 (brent_step start wf) (mkBrent start start 1 0) = inr r) /\
  (forall h, exists r, loop_pow 14 (collect_step h wf) ([], h) = inr r).
Proof. split; [apply brent_terminates|intros; apply collect_terminates]. Qed.

(** A reported cycle is a real one: distinct transactions, each blocked by the
    next and the last by the first, reachable along the wait chain of [start]; and
    then the chain of [start] never reaches a transaction that can run. *)
Theorem detect_cycle_sound start wf c :
  detect_cycle start wf = Some c ->
  is_cycle wf c /\ (exists n x, hop wf n start = Some x /\ x ∈ c) /\ ~ chain_ends wf start.
Proof.
  intros (h & H1 & H2)%detect_cycle_unfold.
  apply brent_meets in H1 as (i & j & Hij & Hi & Hj).
  apply collect_sound in H2. split_and!.
  - by eapply collect_post_cycle.
  - exists i, h. split; [done|]. apply list_elem_of_lookup. exists 0%nat.
    rewrite (cp_members h wf c H2); [done|]. pose proof (cp_nonempty h wf c H2). lia.
  - by eapply repeat_not_ends.
Qed.

Lemma detect_cycle_sound_witness :
  let e b := mkEdge b (RefTable 0) 0 0 in
  let wf := <[1 := e 2]> (<[2 := e 3]> (<[3 := e 2]> ∅)) in
  detect_cycle 1 wf = Some [2; 3] /\ is_cycle wf [2; 3].
Proof.
  intros e wf. assert (H : detect_cycle 1 wf = Some [2; 3]) by (vm_compute; reflexivity).
  split; [exact H|]. apply (detect_cycle_sound 1 wf [2; 3] H).
Defined.

(** C30: with at most 10000 waiting transactions no deadlock is missed: [None] is
    returned exactly when the wait chain ends at a transaction that is not waiting. *)
Theorem detect_cycle_complete start wf :
  Z.of_nat (size wf) <= 10000 ->
  (detect_cycle start wf = None <-> chain_ends wf start).
Proof.
  intros Hsize. split.
  - intros Hnone. destruct (ends_or_repeats wf start) as [|(i & j & y & Hij & Hi & Hj)]; [done|].
    exfalso. pose proof (brent_finds start wf i j y Hij Hi Hj ltac:(lia)) as Hf.
    apply detect_cycle_none in Hnone as [Hr|(h & Hr & Hc)]; [done|].
    apply brent_meets in Hr as (i' & j' & Hij' & Hi' & Hj').
    destruct (period_bound wf h (j' - i')) as (d & Hd & Hp); [lia| |].
    { replace j' with (i' + (j' - i'))%nat in Hj' by lia. by rewrite hop_app, Hi' in Hj'. }
    eapply (collect_finds h wf d); eauto. lia.
  - intros Hend. destruct (detect_cycle start wf) as [c|] eqn:E; [|done]. exfalso.
    apply detect_cycle_unfold in E as (h & H1 & _).
    apply brent_meets in H1 as (i & j & Hij & Hi & Hj).
    by eapply repeat_not_ends.
Qed.

Lemma detect_cycle_complete_witness :
  let e b := mkEdge b (RefTable 0) 0 0 in
  let wf := <[1 := e 2]> (<[2 := e 3]> ∅) in
  Z.of_nat (size wf) <= 10000 /\ detect_cycle 1 wf = None.
Proof.
  intros e wf. assert (H : Z.of_nat (size wf) <= 10000) by (vm_compute; congruence).
  split; [exact H|]. apply (detect_cycle_complete 1 wf H). by exists 2%nat, 3.
Defined.

(** ** Properties of the victim *)

Lemma victim_score_le now wf t : victim_score now wf t <= U64_MAX.
Proof. unfold victim_score. destruct (wf !! t); [unfold saturating_add64|]; lia. Qed.

(** [b] beats [t]: smaller score, and among equal scores the larger id. *)
Definition beats (now : Z) (wf : WaitForMap) (v t : Z) : Prop :=
  victim_score now wf v < victim_score now wf t \/
  victim_score now wf v = victim_score now wf t /\ t <= v.

Lemma victim_loop_spec now wf cycle : forall best,
  let v := victim_loop now wf cycle best (victim_score now wf best) in
  (v = best \/ v ∈ cycle) /\ beats now wf v best /\ Forall (beats now wf v) cycle.
Proof.
  induction cycle as [|t cycle IH]; intros best; cbn [victim_loop].
  - split_and!; [by left| |constructor]. right. lia.
  - destruct (_ || _) eqn:E.
    + destruct (IH t) as (Hin & Hb & Hall). set (v := victim_loop _ _ _ _ _) in *.
      split_and!; [right; destruct Hin as [->|]; [by left|by right]| |by constructor].
      unfold beats in *. lia.
    + destruct (IH best) as (Hin & Hb & Hall). set (v := victim_loop _ _ _ _ _) in *.
      split_and!; [destruct Hin; [by left|right; by right]|done|].
      constructor; [|done]. unfold beats in *. lia.
Qed.

(** For a non-empty cycle [select_victim] does not panic and returns a member with
    the least score [1000 * undo_count + wait_ms] (saturating), the largest transaction
    id among those. *)
Theorem select_victim_correct now cycle wf :
  cycle ≠ [] ->
  exists v, select_victim now cycle wf = Some v /\ v ∈ cycle /\ Forall (beats now wf v) cycle.
Proof.
  destruct cycle as [|t cycle]; [done|]. intros _. cbn [select_victim].
  eexists; split; [reflexivity|]. cbn [victim_loop].
  pose proof (victim_score_le now wf t).
  destruct (_ || _) eqn:E.
  - destruct (victim_loop_spec now wf cycle t) as (Hin & Hb & Hall).
    split; [destruct Hin as [->|]; [by left|by right]|by constructor].
  - replace U64_MAX with (victim_score now wf t) in * by lia.
    destruct (victim_loop_spec now wf cycle t) as (Hin & Hb & Hall).
    split; [destruct Hin as [->|]; [by left|by right]|by constructor].
Qed.

Lemma select_victim_correct_witness :
  let wf := <[1 := mkEdge 2 (RefTable 0) 0 5]> (<[2 := mkEdge 1 (RefTable 0) 0 2]> ∅) in
  [1; 2] ≠ [] /\ exists v, select_victim 0 [1; 2] wf = Some v /\ v ∈ [1; 2].
Proof.
  intros wf. assert (H : [1; 2] ≠ []) by discriminate. split; [exact H|].
  destruct (select_victim_correct 0 [1; 2] wf H) as (v & Hv & Hin & _). by exists v.
Defined.

(** The documented order (fewest undo operations first, then the newest
    transaction, then the least wait) is not the one computed: waiting time is mixed
    into the score, so a transaction with one undo operation is chosen over one with
    none that has waited two seconds, and between equal undo counts the older
    transaction that waited less is chosen over the newer one. *)
Theorem select_victim_ignores_documented_order :
  select_victim (2 * 10 ^ 9) [1; 2]
    (<[1 := mkEdge 2 (RefTable 0) 0 0]> (<[2 := mkEdge 1 (RefTable 0) (2 * 10 ^ 9) 1]> ∅)) = Some 2 /\
  select_victim (2 * 10 ^ 9) [1; 2]
    (<[1 := mkEdge 2 (RefTable 0) (2 * 10 ^ 9) 0]> (<[2 := mkEdge 1 (RefTable 0) 0 0]> ∅)) = Some 1.
Proof. split; vm_compute; reflexivity. Qed.
