(* ===== verification/LockManager.v ===== *)
(** * The lock manager

    crates/axiomdb-lock/src/manager.rs: sharded record and table locks.  Every mutex
    section of the code is one function on the manager state; calls interleave at the
    boundaries of those sections, and the [World] runs any number of transactions, each
    in the middle of at most one call. *)

From S2P Require Import Prelude LockMode SlotBitmap LockQueue Deadlock.

Inductive LockResult : Type := LockGranted | LockWaitGranted.

Definition RECORD_SHARDS : Z := 64.
Definition TABLE_SHARDS : Z := 16.
(** Nanoseconds. *)
Definition DEFAULT_LOCK_WAIT_TIMEOUT : Z := 50 * 10 ^ 9.

Abbreviation Shard := (gmap Z LockQueue).

Record LockManager : Type := mkManager {
  record_shards : list Shard;
  table_shards : list Shard;
  wait_for : WaitForMap;
  lock_wait_timeout : Z
}.

Definition lm_with_timeout (timeout : Z) : LockManager :=
  mkManager (replicate (Z.to_nat RECORD_SHARDS) ∅) (replicate (Z.to_nat TABLE_SHARDS) ∅)
    ∅ timeout.
Definition lm_new : LockManager := lm_with_timeout DEFAULT_LOCK_WAIT_TIMEOUT.

(** ** Shards *)

(** [key as usize % n]; in range of an [n]-element shard array. *)
Definition shard_idx (n key : Z) : nat := Z.to_nat (key mod n).

Definition shard_get (n : Z) (shards : list Shard) (key : Z) : option LockQueue :=
  shards !! shard_idx n key ≫= fun shard => shard !! key.

Definition shard_set (n : Z) (shards : list Shard) (key : Z) (q : LockQueue) : list Shard :=
  alter (fun shard : Shard => <[key := q]> shard) (shard_idx n key) shards.

(** Store the queue, or drop its key when [is_empty]. *)
Definition shard_put (n : Z) (shards : list Shard) (key : Z) (q : LockQueue) : list Shard :=
  if q_is_empty q
  then alter (fun shard : Shard => delete key shard) (shard_idx n key) shards
  else shard_set n shards key q.

Definition get_record (m : LockManager) (page_id : Z) : option LockQueue :=
  shard_get RECORD_SHARDS (record_shards m) page_id.
Definition get_table (m : LockManager) (table_id : Z) : option LockQueue :=
  shard_get TABLE_SHARDS (table_shards m) table_id.
Definition put_record (m : LockManager) (page_id : Z) (q : LockQueue) : LockManager :=
  mkManager (shard_put RECORD_SHARDS (record_shards m) page_id q) (table_shards m)
    (wait_for m) (lock_wait_timeout m).
Definition put_table (m : LockManager) (table_id : Z) (q : LockQueue) : LockManager :=
  mkManager (record_shards m) (shard_put TABLE_SHARDS (table_shards m) table_id q)
    (wait_for m) (lock_wait_timeout m).
Definition set_record (m : LockManager) (page_id : Z) (q : LockQueue) : LockManager :=
  mkManager (shard_set RECORD_SHARDS (record_shards m) page_id q) (table_shards m)
    (wait_for m) (lock_wait_timeout m).
Definition set_table (m : LockManager) (table_id : Z) (q : LockQueue) : LockManager :=
  mkManager (record_shards m) (shard_set TABLE_SHARDS (table_shards m) table_id q)
    (wait_for m) (lock_wait_timeout m).
Definition set_wait_for (m : LockManager) (wf : WaitForMap) : LockManager :=
  mkManager (record_shards m) (table_shards m) wf (lock_wait_timeout m).

(** ** Requests on one queue *)

Definition extend_slot (slot_id : Z) (e : LockEntry) : LockEntry :=
  mkEntry (e_txn_id e) (e_mode e) (e_flags e) (e_requested_at e)
    ((fun bm => bm_set bm slot_id) <$> e_bitmap e).
Definition upgrade_slot (slot_id : Z) (e : LockEntry) : LockEntry :=
  mkEntry (e_txn_id e) Exclusive (e_flags e) (e_requested_at e)
    ((fun bm => bm_set bm slot_id) <$> e_bitmap e).

Definition push_granted (q : LockQueue) (e : LockEntry) : LockQueue :=
  mkQueue (granted q ++ [e]) (waiting q).
Definition push_waiting (q : LockQueue) (w : LockWaiter) : LockQueue :=
  mkQueue (granted q) (waiting q ++ [w]).
Definition alter_granted (f : LockEntry -> LockEntry) (idx : nat) (q : LockQueue) : LockQueue :=
  mkQueue (alter f idx (granted q)) (waiting q).

(** The S to X upgrade in place: the index of the entry to upgrade. *)
Definition upgrade_idx (q : LockQueue) (txn_id : Z) (mode : LockMode) (slot_id : Z)
    : option nat :=
  if decide (mode = Exclusive) then
    match find_granted_idx q txn_id Shared with
    | Some idx =>
        if bool_decide (find_conflict q txn_id mode (Some slot_id) = None)
           && bool_decide (waiting q = [])
        then Some idx else None
    | None => None
    end
  else None.

(** The first mutex section of [acquire_record_lock] and [acquire_record_lock_sync]
    on the page's queue: [inl] when granted at once, [inr blocker] when enqueued. *)
Definition record_request (q : LockQueue) (txn_id slot_id : Z) (mode : LockMode)
    (flags now : Z) (signal : WaiterSignal) : LockQueue * (LockResult + Z) :=
  match find_granted_idx q txn_id mode with
  | Some idx => (alter_granted (extend_slot slot_id) idx q, inl LockGranted)
  | None =>
      match upgrade_idx q txn_id mode slot_id with
      | Some idx => (alter_granted (upgrade_slot slot_id) idx q, inl LockGranted)
      | None =>
          let blocking := find_conflict q txn_id mode (Some slot_id) in
          if bool_decide (blocking = None) && bool_decide (waiting q = []) then
            (push_granted q (mkEntry txn_id mode
               (LockFlags.difference flags LockFlags.WAITING) now
               (Some (bm_with_slot slot_id))), inl LockGranted)
          else
            let q' := push_waiting q (mkWaiter
              (mkEntry txn_id mode (LockFlags.union flags LockFlags.WAITING) now
                 (Some (bm_with_slot slot_id))) signal None) in
            let front := match waiting q' with
                         | w :: _ => e_txn_id (w_entry w) | [] => 0 end in
            (q', inr (default front blocking))
      end
  end.

(** [try_acquire_record_lock_sync] on the page's queue. *)
Definition try_request (q : LockQueue) (txn_id slot_id : Z) (mode : LockMode) (now : Z)
    : LockQueue * bool :=
  if bool_decide (find_conflict q txn_id mode (Some slot_id) ≠ None)
     || negb (bool_decide (waiting q = []))
  then (q, false)
  else match find_granted_idx q txn_id mode with
       | Some idx => (alter_granted (extend_slot slot_id) idx q, true)
       | None => (push_granted q (mkEntry txn_id mode LockFlags.NONE now
                    (Some (bm_with_slot slot_id))), true)
       end.

(** The first mutex section of the two [acquire_table_lock] variants. *)
Definition table_request (q : LockQueue) (txn_id : Z) (mode : LockMode) (now : Z)
    (signal : WaiterSignal) : LockQueue * option LockResult :=
  if existsb (fun e => (e_txn_id e =? txn_id) && bool_decide (e_mode e = mode)) (granted q)
  then (q, Some LockGranted)
  else if bool_decide (find_conflict q txn_id mode None = None)
          && bool_decide (waiting q = [])
  then (push_granted q (mkEntry txn_id mode LockFlags.TABLE_LOCK now None), Some LockGranted)
  else (push_waiting q (mkWaiter
          (mkEntry txn_id mode (LockFlags.union LockFlags.TABLE_LOCK LockFlags.WAITING) now None)
          signal None), None).

(** One iteration of the [release_all_locks] loop on the queue it finds. *)
Definition release_queue (q : LockQueue) (txn_id : Z) : LockQueue * list WaiterSignal :=
  try_grant_waiters (remove_granted_by_txn q txn_id).1.

(** One queue of the shard scan of [release_all_for_txn]. *)
Definition release_all_queue (q : LockQueue) (txn_id : Z) : LockQueue * list WaiterSignal :=
  let '(q1, removed) := remove_granted_by_txn q txn_id in
  if bool_decide (removed = []) then (q1, []) else try_grant_waiters q1.

(** ** Mutex sections of the manager *)

Definition acquire_record_section (m : LockManager) (txn_id page_id slot_id : Z)
    (mode : LockMode) (flags now : Z) (signal : WaiterSignal)
    : LockManager * (LockResult + Z) :=
  let q := default q_new (get_record m page_id) in
  let '(q', r) := record_request q txn_id slot_id mode flags now signal in
  (set_record m page_id q', r).

Definition try_acquire_record_lock_sync (m : LockManager) (txn_id page_id slot_id : Z)
    (mode : LockMode) (now : Z) : LockManager * bool :=
  let q := default q_new (get_record m page_id) in
  match try_request q txn_id slot_id mode now with
  | (q', true) => (set_record m page_id q', true)
  | (q', false) => (put_record m page_id q', false)
  end.

Definition acquire_table_section (m : LockManager) (txn_id table_id : Z)
    (mode : LockMode) (now : Z) (signal : WaiterSignal) : LockManager * option LockResult :=
  let q := default q_new (get_table m table_id) in
  let '(q', r) := table_request q txn_id mode now signal in
  (set_table m table_id q', r).

(** [queue.remove_waiter_by_txn(txn_id)] and dropping an empty queue: the timeout,
    NOWAIT and self-victim paths. *)
Definition remove_record_waiter (m : LockManager) (txn_id page_id : Z) : LockManager :=
  match get_record m page_id with
  | Some q => put_record m page_id (remove_waiter_by_txn q txn_id).1
  | None => m
  end.
Definition remove_table_waiter (m : LockManager) (txn_id table_id : Z) : LockManager :=
  match get_table m table_id with
  | Some q => put_table m table_id (remove_waiter_by_txn q txn_id).1
  | None => m
  end.

(** [waiting.iter_mut().find(..)] and marking the waiter found. *)
Definition mark_aborted (q : LockQueue) (txn_id : Z) : LockQueue * option WaiterSignal :=
  match list_find (fun w => e_txn_id (w_entry w) = txn_id) (waiting q) with
  | Some (pos, w) =>
      (mkQueue (granted q)
         (<[pos := mkWaiter (w_entry w) (w_signal w) (Some AbortDeadlock)]> (waiting q)),
       Some (w_signal w))
  | None => (q, None)
  end.

(** The signal to notify is returned with the new state. *)
Definition abort_waiter (m : LockManager) (txn_id : Z) (lock_ref : LockRef)
    : LockManager * option WaiterSignal :=
  match lock_ref with
  | RefRecord page_id _ =>
      match get_record m page_id with
      | Some q => let '(q', s) := mark_aborted q txn_id in (set_record m page_id q', s)
      | None => (m, None)
      end
  | RefTable table_id =>
      match get_table m table_id with
      | Some q => let '(q', s) := mark_aborted q txn_id in (set_table m table_id q', s)
      | None => (m, None)
      end
  end.

(** One iteration of the [release_all_locks] loop. *)
Definition release_ref (m : LockManager) (txn_id : Z) (lock_ref : LockRef)
    : LockManager * list WaiterSignal :=
  match lock_ref with
  | RefRecord page_id _ =>
      match get_record m page_id with
      | Some q => let '(q', s) := release_queue q txn_id in (put_record m page_id q', s)
      | None => (m, [])
      end
  | RefTable table_id =>
      match get_table m table_id with
      | Some q => let '(q', s) := release_queue q txn_id in (put_table m table_id q', s)
      | None => (m, [])
      end
  end.

(** One shard of [release_all_for_txn].  The iteration order of the hash map is not
    specified; it only permutes the signals. *)
Definition release_shard (shard : Shard) (txn_id : Z) : Shard * list WaiterSignal :=
  (omap (fun q => let q' := (release_all_queue q txn_id).1 in
                  if q_is_empty q' then None else Some q') shard,
   '(_, q) ← map_to_list shard; (release_all_queue q txn_id).2).

(** Shard [i] of the 64 record shards followed by the 16 table shards. *)
Definition release_nth_shard (m : LockManager) (txn_id : Z) (i : nat)
    : LockManager * list WaiterSignal :=
  let n := length (record_shards m) in
  if decide (i < n)%nat then
    match record_shards m !! i with
    | Some shard =>
        let '(shard', s) := release_shard shard txn_id in
        (mkManager (<[i := shard']> (record_shards m)) (table_shards m) (wait_for m)
           (lock_wait_timeout m), s)
    | None => (m, [])
    end
  else
    match table_shards m !! (i - n)%nat with
    | Some shard =>
        let '(shard', s) := release_shard shard txn_id in
        (mkManager (record_shards m) (<[(i - n)%nat := shard']> (table_shards m)) (wait_for m)
           (lock_wait_timeout m), s)
    | None => (m, [])
    end.

(** The [wait_for] section: insert the edge, look for a cycle, pick and unlink the
    victim.  The outer [option] is the panic of [select_victim] on an empty cycle. *)
Definition deadlock_section (m : LockManager) (txn_id blocker : Z) (lock_ref : LockRef)
    (now : Z) : option (LockManager * option (Z * option LockRef)) :=
  let wf := <[txn_id := mkEdge blocker lock_ref now 0]> (wait_for m) in
  match detect_cycle txn_id wf with
  | None => Some (set_wait_for m wf, None)
  | Some cycle =>
      match select_victim now cycle wf with
      | None => None
      | Some victim =>
          Some (set_wait_for m (delete victim wf), Some (victim, we_lock_ref <$> wf !! victim))
      end
  end.

(** What a woken record waiter returns. *)
Definition wake_check (m : LockManager) (txn_id page_id : Z) (mode : LockMode)
    : Result LockResult :=
  match get_record m page_id with
  | Some q =>
      if existsb (fun e => (e_txn_id e =? txn_id) && bool_decide (e_mode e = mode)) (granted q)
      then Ok LockWaitGranted
      else if existsb (fun w => (e_txn_id (w_entry w) =? txn_id)
                && bool_decide (w_abort_reason w = Some AbortDeadlock)) (waiting q)
      then Err DeadlockDetected
      else Ok LockWaitGranted
  | None => Ok LockWaitGranted
  end.

(** ** Interleaved calls *)

Inductive Ret : Type :=
| RetLock (r : Result LockResult)
| RetTry (b : bool)
| RetReleased (total : Z).

(** Where a transaction is inside its current call. *)
Inductive Pc : Type :=
| Idle (last : option Ret)
(** enqueued by the first section of a record acquisition *)
| AcqEnqueued (sync : bool) (page_id slot_id : Z) (mode : LockMode) (flags h blocker : Z)
(** a cycle was found and its victim unlinked; [abort_waiter] is next *)
| AcqAbort (page_id : Z) (mode : LockMode) (h victim : Z) (vr : option LockRef)
(** this transaction is the victim; removing its waiter is next *)
| AcqRemoveSelf (page_id : Z)
(** blocked on the notification handle [h] *)
| AcqWaiting (page_id : Z) (mode : LockMode) (h : Z)
(** removing the wait-for edge is next *)
| AcqCleanup (r : Result LockResult)
| TblWaiting (table_id h : Z)
| Releasing (refs : list LockRef) (signals : list WaiterSignal) (total : Z)
| ReleasingAll (i : nat) (signals : list WaiterSignal) (total : Z)
| Notifying (signals : list WaiterSignal) (cleanup : bool) (total : Z).

(** [notified] holds the handles that were signalled: the [true] flag of a
    [SyncNotify], the stored permit of a [tokio] [Notify].  A handle is fresh for each
    enqueued request and awaited once. *)
Record World : Type := mkWorld {
  mgr : LockManager;
  next_handle : Z;
  notified : gset Z;
  threads : gmap Z Pc
}.

Definition init_world : World := mkWorld lm_new 0 ∅ ∅.

Definition pc_of (w : World) (t : Z) : Pc := default (Idle None) (threads w !! t).

Definition handle_of (s : WaiterSignal) : Z :=
  match s with SigAsync h => h | SigSync h => h end.

Definition set_pc (w : World) (m : LockManager) (t : Z) (pc : Pc) : World :=
  mkWorld m (next_handle w) (notified w) (<[t := pc]> (threads w)).
Definition set_pc_fresh (w : World) (m : LockManager) (t : Z) (pc : Pc) : World :=
  mkWorld m (next_handle w + 1) (notified w) (<[t := pc]> (threads w)).
Definition set_pc_notify (w : World) (m : LockManager) (s : option WaiterSignal) (t : Z)
    (pc : Pc) : World :=
  mkWorld m (next_handle w)
    (match s with Some s => {[handle_of s]} ∪ notified w | None => notified w end)
    (<[t := pc]> (threads w)).

Definition mk_signal (sync : bool) (h : Z) : WaiterSignal :=
  if sync then SigSync h else SigAsync h.

Inductive Event : Type :=
| EvAcquireRecord (sync : bool) (t page_id slot_id : Z) (mode : LockMode) (flags now : Z)
| EvTryAcquire (t page_id slot_id : Z) (mode : LockMode) (now : Z)
| EvAcquireTable (sync : bool) (t table_id : Z) (mode : LockMode) (now : Z)
| EvRelease (t : Z) (refs : list LockRef)
| EvReleaseAll (t : Z)
(** the next mutex section of the current call *)
| EvStep (t now : Z)
(** the awaited handle is signalled, or the wait times out *)
| EvNotified (t : Z)
| EvTimeout (t : Z).

(** Entering a call. *)
Definition acquire_record_lock (w : World) (sync : bool) (t page_id slot_id : Z)
    (mode : LockMode) (flags now : Z) : World :=
  let h := next_handle w in
  let '(m, r) := acquire_record_section (mgr w) t page_id slot_id mode flags now
                   (mk_signal sync h) in
  match r with
  | inl g => set_pc w m t (Idle (Some (RetLock (Ok g))))
  | inr blocker => set_pc_fresh w m t (AcqEnqueued sync page_id slot_id mode flags h blocker)
  end.

Definition acquire_table_lock (w : World) (sync : bool) (t table_id : Z)
    (mode : LockMode) (now : Z) : World :=
  let h := next_handle w in
  let '(m, r) := acquire_table_section (mgr w) t table_id mode now (mk_signal sync h) in
  match r with
  | Some g => set_pc w m t (Idle (Some (RetLock (Ok g))))
  | None => set_pc_fresh w m t (TblWaiting table_id h)
  end.

(** The sections after the first one; [None] is a panic or a call that is blocked. *)
Definition step_call (w : World) (t now : Z) : option World :=
  let m := mgr w in
  match pc_of w t with
  | AcqEnqueued sync page_id slot_id mode flags h blocker =>
      if sync && LockFlags.contains flags LockFlags.NOWAIT then
        Some (set_pc w (remove_record_waiter m t page_id) t
                (Idle (Some (RetLock (Err LockTimeout)))))
      else
        match deadlock_section m t blocker (RefRecord page_id slot_id) now with
        | None => None
        | Some (m', None) => Some (set_pc w m' t (AcqWaiting page_id mode h))
        | Some (m', Some (victim, vr)) =>
            Some (set_pc w m' t (AcqAbort page_id mode h victim vr))
        end
  | AcqAbort page_id mode h victim vr =>
      let '(m', s) := match vr with
                      | Some r => abort_waiter m victim r
                      | None => (m, None)
                      end in
      Some (set_pc_notify w m' s t
              (if victim =? t then AcqRemoveSelf page_id else AcqWaiting page_id mode h))
  | AcqRemoveSelf page_id =>
      Some (set_pc w (remove_record_waiter m t page_id) t
              (Idle (Some (RetLock (Err DeadlockDetected)))))
  | AcqCleanup r =>
      Some (set_pc w (set_wait_for m (delete t (wait_for m))) t (Idle (Some (RetLock r))))
  | Releasing [] signals total => Some (set_pc w m t (Notifying signals false total))
  | Releasing (r :: refs) signals total =>
      let '(m', s) := release_ref m t r in
      Some (set_pc w m' t (Releasing refs (signals ++ s) (total + zlen s)))
  | ReleasingAll i signals total =>
      if decide (i < length (record_shards m) + length (table_shards m))%nat then
        let '(m', s) := release_nth_shard m t i in
        Some (set_pc w m' t (ReleasingAll (i + 1) (signals ++ s) (total + zlen s)))
      else Some (set_pc w m t (Notifying signals true total))
  | Notifying (s :: signals) cleanup total =>
      Some (set_pc_notify w m (Some s) t (Notifying signals cleanup total))
  | Notifying [] cleanup total =>
      let m' := if cleanup then set_wait_for m (delete t (wait_for m)) else m in
      Some (set_pc w m' t (Idle (Some (RetReleased total))))
  | Idle _ | AcqWaiting _ _ _ | TblWaiting _ _ => None
  end.

(** The wait ended: [Some true] signalled, [Some false] timed out. *)
Definition wake_call (w : World) (t : Z) (signalled : bool) : option World :=
  let m := mgr w in
  match pc_of w t with
  | AcqWaiting page_id mode h =>
      if bool_decide (h ∈ notified w) then
        if signalled then Some (set_pc w m t (AcqCleanup (wake_check m t page_id mode)))
        else None
      else if signalled then None
      else Some (set_pc w (remove_record_waiter m t page_id) t (AcqCleanup (Err LockTimeout)))
  | TblWaiting table_id h =>
      if bool_decide (h ∈ notified w) then
        if signalled then Some (set_pc w m t (Idle (Some (RetLock (Ok LockWaitGranted)))))
        else None
      else if signalled then None
      else Some (set_pc w (remove_table_waiter m t table_id) t
                   (Idle (Some (RetLock (Err LockTimeout)))))
  | _ => None
  end.

Definition is_idle (w : World) (t : Z) : bool :=
  match pc_of w t with Idle _ => true | _ => false end.

Definition exec (w : World) (ev : Event) : option World :=
  match ev with
  | EvAcquireRecord sync t page_id slot_id mode flags now =>
      if is_idle w t then Some (acquire_record_lock w sync t page_id slot_id mode flags now)
      else None
  | EvTryAcquire t page_id slot_id mode now =>
      if is_idle w t then
        let '(m, b) := try_acquire_record_lock_sync (mgr w) t page_id slot_id mode now in
        Some (set_pc w m t (Idle (Some (RetTry b))))
      else None
  | EvAcquireTable sync t table_id mode now =>
      if is_idle w t then Some (acquire_table_lock w sync t table_id mode now) else None
  | EvRelease t refs =>
      if is_idle w t then Some (set_pc w (mgr w) t (Releasing refs [] 0)) else None
  | EvReleaseAll t =>
      if is_idle w t then Some (set_pc w (mgr w) t (ReleasingAll 0 [] 0)) else None
  | EvStep t now => step_call w t now
  | EvNotified t => wake_call w t true
  | EvTimeout t => wake_call w t false
  end.

Fixpoint run (w : World) (evs : list Event) : option World :=
  match evs with
  | [] => Some w
  | ev :: evs' => let! w' := exec w ev in run w' evs'
  end.
