(* ===== verification/LockSafety.v ===== *)
(** * Correctness of the lock manager

    Invariants of every reachable state of the interleaved lock manager of
    LockManager.v, what each kind of request guarantees, and the executions in which
    record locks lose mutual exclusion. *)

From S2P Require Import Prelude LockMode SlotBitmap LockQueue Deadlock LockManager.

(** ** Specifications *)

(** Granted entries do not carry [WAITING], waiters do. *)
Definition flags_ok (q : LockQueue) : Prop :=
  Forall (fun e => LockFlags.contains (e_flags e) LockFlags.WAITING = false) (granted q) /\
  Forall (fun w => LockFlags.contains (e_flags (w_entry w)) LockFlags.WAITING = true) (waiting q).

(** The invariant of one queue; table queues are also mutually exclusive. *)
Record qinv (k : QueueKind) (q : LockQueue) : Prop := {
  qi_wf : queue_wf k q;
  qi_flags : flags_ok q;
  qi_safe : k = TableQueue -> queue_safe q
}.

(** An array of [n] shards: each key is in its own shard, no queue is empty. *)
Record shards_ok (n : Z) (k : QueueKind) (shards : list Shard) : Prop := {
  so_len : zlen shards = n;
  so_queue : forall i shard key q,
    shards !! i = Some shard -> shard !! key = Some q ->
    i = shard_idx n key /\ qinv k q /\ q_is_empty q = false
}.

Definition mgr_inv (m : LockManager) : Prop :=
  shards_ok RECORD_SHARDS RecordQueue (record_shards m) /\
  shards_ok TABLE_SHARDS TableQueue (table_shards m).

(** Slots are [u16]. *)
Definition event_ok (ev : Event) : Prop :=
  match ev with
  | EvAcquireRecord _ _ _ slot_id _ _ _ | EvTryAcquire _ _ slot_id _ _ => in_u16 slot_id
  | _ => True
  end.

Inductive reach : World -> Prop :=
| reach_init : reach init_world
| reach_step w ev w' : reach w -> event_ok ev -> exec w ev = Some w' -> reach w'.

(** A request that takes the bitmap-extension path does so on a slot no other
    transaction conflicts on, and one that upgrades S to X conflicts with nobody on
    the slots it already holds. *)
Definition request_guarded (q : LockQueue) (txn_id slot_id : Z) (mode : LockMode) : Prop :=
  match find_granted_idx q txn_id mode with
  | Some _ => find_conflict q txn_id mode (Some slot_id) = None
  | None =>
      match upgrade_idx q txn_id mode slot_id with
      | Some idx => forall e bm s, granted q !! idx = Some e -> e_bitmap e = Some bm ->
          s ∈ slots bm -> find_conflict q txn_id mode (Some s) = None
      | None => True
      end
  end.

(** ** Queue invariants *)

Lemma qinv_new k : qinv k q_new.
Proof.
  split; [split; constructor|split; constructor|].
  intros _ e1 e2 H. by apply not_elem_of_nil in H.
Qed.

Lemma q_is_empty_false q : granted q ≠ [] \/ waiting q ≠ [] -> q_is_empty q = false.
Proof.
  unfold q_is_empty. intros H. apply andb_false_iff.
  rewrite !bool_decide_eq_false. tauto.
Qed.

Lemma find_granted_idx_Some q t m idx :
  find_granted_idx q t m = Some idx ->
  exists e, granted q !! idx = Some e /\ e_txn_id e = t /\ e_mode e = m.
Proof.
  unfold find_granted_idx. destruct (list_find _ _) as [[i e]|] eqn:E; [|done].
  intros [= <-]. apply list_find_Some in E as (? & [??] & _). eauto.
Qed.

Lemma alter_granted_nonempty f idx q e :
  granted q !! idx = Some e -> q_is_empty (alter_granted f idx q) = false.
Proof.
  intros He. apply q_is_empty_false. left. cbn. intros Hnil.
  apply (f_equal length) in Hnil. rewrite length_alter in Hnil.
  apply lookup_lt_Some in He. cbn in Hnil. lia.
Qed.

Lemma push_granted_nonempty q e : q_is_empty (push_granted q e) = false.
Proof. apply q_is_empty_false. left. cbn. by destruct (granted q). Qed.

Lemma push_waiting_nonempty q w : q_is_empty (push_waiting q w) = false.
Proof. apply q_is_empty_false. right. cbn. by destruct (waiting q). Qed.

#[export] Hint Resolve push_granted_nonempty push_waiting_nonempty qinv_new : axiomdb.

(** Altering a record entry's bitmap keeps the shape of the queue. *)
Lemma alter_granted_qinv f idx q :
  qinv RecordQueue q ->
  (forall e, granted_ok RecordQueue e -> granted_ok RecordQueue (f e)) ->
  (forall e, e_flags (f e) = e_flags e) ->
  qinv RecordQueue (alter_granted f idx q).
Proof.
  intros [[Hg Hw] [Hfg Hfw] _] Hf Hfl. split; [| |done].
  - split; [|done]. by apply Forall_alter_in.
  - split; [|done]. apply Forall_alter_in; [done|]. intros e. by rewrite Hfl.
Qed.

Lemma extend_slot_ok s e :
  in_u16 s -> granted_ok RecordQueue e -> granted_ok RecordQueue (extend_slot s e).
Proof. intros Hs (bm & Hb & Hwf). exists (bm_set bm s). cbn. rewrite Hb. auto with axiomdb. Qed.

Lemma upgrade_slot_ok s e :
  in_u16 s -> granted_ok RecordQueue e -> granted_ok RecordQueue (upgrade_slot s e).
Proof. intros Hs (bm & Hb & Hwf). exists (bm_set bm s). cbn. rewrite Hb. auto with axiomdb. Qed.

Lemma push_granted_qinv k q e :
  qinv k q -> granted_ok k e -> LockFlags.contains (e_flags e) LockFlags.WAITING = false ->
  (k = TableQueue -> Forall (entries_compat e) (granted q)) -> qinv k (push_granted q e).
Proof.
  intros [[Hg Hw] [Hfg Hfw] Hs] He Hf Hc.
  split; [split; [|done]|split; [|done]|]; try (apply Forall_app; split; [done|by constructor]).
  intros Hk. apply granted_safe_snoc; [by apply Hs|by apply Hc].
Qed.

Lemma push_waiting_qinv k q w :
  qinv k q -> waiting_ok k (w_entry w) ->
  LockFlags.contains (e_flags (w_entry w)) LockFlags.WAITING = true -> qinv k (push_waiting q w).
Proof.
  intros [[Hg Hw] [Hfg Hfw] Hs] He Hf.
  split; [split; [done|]|split; [done|]|done]; apply Forall_app; split; [done|by constructor|done|by constructor].
Qed.

Lemma record_request_qinv q t s m f now sg :
  qinv RecordQueue q -> in_u16 s ->
  qinv RecordQueue (record_request q t s m f now sg).1 /\
  q_is_empty (record_request q t s m f now sg).1 = false.
Proof.
  intros Hq Hs. unfold record_request.
  assert (Hbm : granted_ok RecordQueue (mkEntry t m (LockFlags.difference f LockFlags.WAITING) now
    (Some (bm_with_slot s)))) by (exists (bm_with_slot s); auto with axiomdb).
  destruct (find_granted_idx q t m) as [idx|] eqn:Hidx.
  { apply find_granted_idx_Some in Hidx as (e & He & _). cbn [fst].
    split; [|by eapply alter_granted_nonempty].
    apply alter_granted_qinv; auto using extend_slot_ok. }
  unfold upgrade_idx. destruct (decide (m = Exclusive)).
  - destruct (find_granted_idx q t Shared) as [idx|] eqn:Hsh.
    + destruct (_ && _) eqn:E.
      * apply find_granted_idx_Some in Hsh as (e' & He & _). cbn [fst].
        split; [|by eapply alter_granted_nonempty].
        apply alter_granted_qinv; auto using upgrade_slot_ok.
      * cbn [fst]. split; [|auto with axiomdb].
        apply push_waiting_qinv; [done|by exists s|apply waiting_union].
    + destruct (_ && _); cbn [fst]; (split; [|auto with axiomdb]).
      * apply push_granted_qinv; auto. apply waiting_difference. done.
      * apply push_waiting_qinv; [done|by exists s|apply waiting_union].
  - destruct (_ && _); cbn [fst]; (split; [|auto with axiomdb]).
    + apply push_granted_qinv; auto. apply waiting_difference. done.
    + apply push_waiting_qinv; [done|by exists s|apply waiting_union].
Qed.

Lemma try_request_qinv q t s m now :
  qinv RecordQueue q -> in_u16 s ->
  qinv RecordQueue (try_request q t s m now).1 /\
  ((try_request q t s m now).2 = true -> q_is_empty (try_request q t s m now).1 = false).
Proof.
  intros Hq Hs. unfold try_request. destruct (_ || _); [done|].
  destruct (find_granted_idx q t m) as [idx|] eqn:Hidx; cbn [fst snd].
  - apply find_granted_idx_Some in Hidx as (e & He & _).
    split; [|intros _; by eapply alter_granted_nonempty].
    apply alter_granted_qinv; auto using extend_slot_ok.
  - split; [|auto with axiomdb]. apply push_granted_qinv; [done| |done|done].
    exists (bm_with_slot s); auto with axiomdb.
Qed.

Lemma table_request_qinv q t m now sg :
  qinv TableQueue q ->
  qinv TableQueue (table_request q t m now sg).1 /\
  q_is_empty (table_request q t m now sg).1 = false.
Proof.
  intros Hq. unfold table_request. destruct (existsb _ _) eqn:Hex.
  - cbn [fst]. split; [done|]. apply q_is_empty_false. left. by destruct (granted q).
  - destruct (_ && _) eqn:E; cbn [fst]; (split; [|auto with axiomdb]).
    + apply andb_true_iff in E as [Hc _]. apply bool_decide_eq_true in Hc.
      apply push_granted_qinv; [done|done|done|]. intros _.
      apply find_conflict_None in Hc. eapply Forall_impl; [exact Hc|].
      intros e. apply no_conflict_compat_table.
    + apply push_waiting_qinv; [done|done|apply waiting_union].
Qed.

Lemma try_grant_qinv k q : qinv k q -> qinv k (try_grant_waiters q).1.
Proof.
  intros [Hwf [Hfg Hfw] Hs]. split; [by apply try_grant_waiters_wf| |].
  - rewrite try_grant_waiters_pass.
    destruct (grant_pass (granted q) (waiting q)) as [[g' kept] promoted] eqn:E.
    apply grant_pass_spec in E as (-> & _ & Hk & Hp & _). cbn [fst].
    split; cbn; [|by eapply Forall_sublist].
    apply Forall_app. split; [done|]. apply Forall_fmap, Forall_true.
    intros w. apply waiting_difference.
  - intros Hk. by apply (try_grant_waiters_safe k q Hwf (Hs Hk)).
Qed.

Lemma remove_granted_qinv k q t : qinv k q -> qinv k (remove_granted_by_txn q t).1.
Proof.
  intros [Hwf [Hfg Hfw] Hs]. split; [by apply remove_granted_wf| |].
  - split; [|done]. eapply Forall_sublist; [apply sublist_filter|done].
  - intros Hk. by apply remove_granted_safe, Hs.
Qed.

Lemma release_queue_qinv k q t : qinv k q -> qinv k (release_queue q t).1.
Proof. intros. by apply try_grant_qinv, remove_granted_qinv. Qed.

Lemma release_all_queue_qinv k q t : qinv k q -> qinv k (release_all_queue q t).1.
Proof.
  intros. unfold release_all_queue.
  pose proof (remove_granted_qinv k q t ltac:(done)).
  destruct (remove_granted_by_txn q t) as [q1 rem]. case_bool_decide; [done|by apply try_grant_qinv].
Qed.

Lemma remove_waiter_qinv k q t : qinv k q -> qinv k (remove_waiter_by_txn q t).1.
Proof.
  intros [Hwf [Hfg Hfw] Hs]. split; [by apply remove_waiter_wf| |].
  - unfold remove_waiter_by_txn. destruct (list_find _ _) as [[??]|]; [|done].
    split; [done|]. by apply Forall_delete.
  - intros Hk. by apply remove_waiter_safe, Hs.
Qed.

Lemma mark_aborted_qinv k q t :
  qinv k q -> qinv k (mark_aborted q t).1 /\ (q_is_empty q = false -> q_is_empty (mark_aborted q t).1 = false).
Proof.
  intros Hq. unfold mark_aborted. destruct (list_find _ _) as [[pos w]|] eqn:E; [|done].
  apply list_find_Some in E as (Hpos & _). destruct Hq as [[Hg Hw] [Hfg Hfw] Hs]. cbn [fst].
  split.
  - split; [split; [done|]|split; [done|]|done]; cbn.
    + apply Forall_insert; [done|]. exact (Forall_lookup_1 _ _ _ _ Hw Hpos).
    + apply Forall_insert; [done|]. exact (Forall_lookup_1 _ _ _ _ Hfw Hpos).
  - intros _. apply q_is_empty_false. right. cbn. intros Hnil.
    apply (f_equal length) in Hnil. rewrite length_insert in Hnil.
    apply lookup_lt_Some in Hpos. cbn in Hnil. lia.
Qed.

(** ** Shards *)

Lemma shard_idx_lt n key shards : 0 < n -> zlen shards = n -> (shard_idx n key < length (A:=Shard) shards)%nat.
Proof. intros Hn Hl. unfold shard_idx. pose proof (Z.mod_pos_bound key n). lia. Qed.

Section Shards.
Context (n : Z) (k : QueueKind) (shards : list Shard).
Hypothesis Hn : 0 < n.
Hypothesis Hok : shards_ok n k shards.

Lemma shard_get_alter f key key' :
  shard_get n (alter f (shard_idx n key) shards) key' =
  if decide (shard_idx n key = shard_idx n key')
  then (f <$> shards !! shard_idx n key) ≫= (fun s => s !! key')
  else shard_get n shards key'.
Proof.
  unfold shard_get. rewrite list_lookup_alter. by destruct (decide _).
Qed.

Lemma shard_get_set key q key' :
  shard_get n (shard_set n shards key q) key' =
  if decide (key = key') then Some q else shard_get n shards key'.
Proof.
  unfold shard_set. rewrite shard_get_alter.
  destruct (lookup_lt_is_Some_2 shards (shard_idx n key)) as [shard Hs].
  { apply shard_idx_lt; [done|apply Hok]. }
  destruct (decide (key = key')) as [<-|Hne].
  - rewrite decide_True by done. rewrite Hs. cbn. by rewrite lookup_insert_eq.
  - case_decide as Hi; [|done]. unfold shard_get. rewrite <-Hi, Hs. cbn.
    by rewrite lookup_insert_ne.
Qed.

Lemma shard_get_put key q key' :
  shard_get n (shard_put n shards key q) key' =
  if decide (key = key') then (if q_is_empty q then None else Some q)
  else shard_get n shards key'.
Proof.
  unfold shard_put. destruct (q_is_empty q); [|apply shard_get_set].
  rewrite shard_get_alter.
  destruct (lookup_lt_is_Some_2 shards (shard_idx n key)) as [shard Hs].
  { apply shard_idx_lt; [done|apply Hok]. }
  destruct (decide (key = key')) as [<-|Hne].
  - rewrite decide_True by done. rewrite Hs. cbn. by rewrite lookup_delete_eq.
  - case_decide as Hi; [|done]. unfold shard_get. rewrite <-Hi, Hs. cbn.
    by rewrite lookup_delete_ne.
Qed.

Lemma shard_get_ok key q :
  shard_get n shards key = Some q -> qinv k q /\ q_is_empty q = false.
Proof.
  unfold shard_get. intros (shard & Hs & Hq)%bind_Some.
  by destruct (so_queue _ _ _ Hok _ _ _ _ Hs Hq) as (_ & ? & ?).
Qed.

Lemma shard_alter_ok f key :
  (forall shard key' q, shards !! shard_idx n key = Some shard -> f shard !! key' = Some q ->
     shard_idx n key = shard_idx n key' /\ qinv k q /\ q_is_empty q = false) ->
  shards_ok n k (alter f (shard_idx n key) shards).
Proof.
  intros Hf. split; [rewrite length_alter; apply Hok|].
  intros i shard key' q Hi Hq. rewrite list_lookup_alter in Hi. case_decide as He.
  - subst i. apply fmap_Some in Hi as (shard' & Hs & ->). by eapply Hf.
  - by eapply (so_queue _ _ _ Hok).
Qed.

Lemma shard_set_ok key q :
  qinv k q -> q_is_empty q = false -> shards_ok n k (shard_set n shards key q).
Proof.
  intros Hq He. apply shard_alter_ok. intros shard key' q' Hs.
  destruct (decide (key = key')) as [<-|Hne].
  - rewrite lookup_insert_eq. by intros [= <-].
  - rewrite lookup_insert_ne by done. apply (so_queue _ _ _ Hok _ _ _ _ Hs).
Qed.

Lemma shard_put_ok key q : qinv k q -> shards_ok n k (shard_put n shards key q).
Proof.
  intros Hq. unfold shard_put. destruct (q_is_empty q) eqn:E; [|by apply shard_set_ok].
  apply shard_alter_ok. intros shard key' q' Hs.
  destruct (decide (key = key')) as [<-|Hne].
  - by rewrite lookup_delete_eq.
  - rewrite lookup_delete_ne by done. apply (so_queue _ _ _ Hok _ _ _ _ Hs).
Qed.

Lemma default_qinv key : qinv k (default q_new (shard_get n shards key)).
Proof.
  destruct (shard_get n shards key) eqn:E; cbn; [by eapply shard_get_ok|apply qinv_new].
Qed.

Lemma release_shard_ok i shard t :
  shards !! i = Some shard -> shards_ok n k (<[i := (release_shard shard t).1]> shards).
Proof.
  intros Hi. split; [rewrite length_insert; apply Hok|].
  intros j shard' key q Hj Hq. rewrite list_lookup_insert in Hj. case_decide as He.
  - destruct He as [<- _]. injection Hj as <-. unfold release_shard in Hq. cbn in Hq.
    rewrite lookup_omap in Hq. apply bind_Some in Hq as (q0 & Hq0 & Hq).
    destruct (so_queue _ _ _ Hok _ _ _ _ Hi Hq0) as (-> & Hinv & _).
    cbn in Hq. destruct (q_is_empty _) eqn:E; [done|]. injection Hq as <-.
    split; [done|]. split; [by apply release_all_queue_qinv|done].
  - by eapply (so_queue _ _ _ Hok).
Qed.
End Shards.

(** ** Manager sections keep the invariant *)

Lemma get_record_inv m p q : mgr_inv m -> get_record m p = Some q -> qinv RecordQueue q /\ q_is_empty q = false.
Proof. intros [H _]. by apply shard_get_ok. Qed.
Lemma get_table_inv m p q : mgr_inv m -> get_table m p = Some q -> qinv TableQueue q /\ q_is_empty q = false.
Proof. intros [_ H]. by apply shard_get_ok. Qed.
Lemma set_record_inv m p q :
  mgr_inv m -> qinv RecordQueue q /\ q_is_empty q = false -> mgr_inv (set_record m p q).
Proof. intros [Hr Ht] [Hq He]. split; [by apply shard_set_ok|done]. Qed.
Lemma put_record_inv m p q : mgr_inv m -> qinv RecordQueue q -> mgr_inv (put_record m p q).
Proof. intros [Hr Ht] Hq. split; [by apply shard_put_ok|done]. Qed.
Lemma set_table_inv m p q :
  mgr_inv m -> qinv TableQueue q /\ q_is_empty q = false -> mgr_inv (set_table m p q).
Proof. intros [Hr Ht] [Hq He]. split; [done|by apply shard_set_ok]. Qed.
Lemma put_table_inv m p q : mgr_inv m -> qinv TableQueue q -> mgr_inv (put_table m p q).
Proof. intros [Hr Ht] Hq. split; [done|by apply shard_put_ok]. Qed.
Lemma set_wait_for_inv m wf : mgr_inv m -> mgr_inv (set_wait_for m wf).
Proof. done. Qed.

#[export] Hint Resolve set_record_inv put_record_inv set_table_inv put_table_inv
  set_wait_for_inv release_queue_qinv remove_waiter_qinv : axiomdb.

Lemma acquire_record_section_inv m t p s mode f now sg :
  mgr_inv m -> in_u16 s -> mgr_inv (acquire_record_section m t p s mode f now sg).1.
Proof.
  intros Hm Hs. unfold acquire_record_section.
  pose proof (record_request_qinv (default q_new (get_record m p)) t s mode f now sg
    (default_qinv _ _ _ (proj1 Hm) p) Hs).
  destruct (record_request _ _ _ _ _ _ _). by apply set_record_inv.
Qed.

Lemma try_acquire_inv m t p s mode now :
  mgr_inv m -> in_u16 s -> mgr_inv (try_acquire_record_lock_sync m t p s mode now).1.
Proof.
  intros Hm Hs. unfold try_acquire_record_lock_sync.
  destruct (try_request_qinv (default q_new (get_record m p)) t s mode now
    (default_qinv _ _ _ (proj1 Hm) p) Hs) as [Hq He].
  destruct (try_request _ _ _ _ _) as [q' []]; cbn in *; auto with axiomdb.
Qed.

Lemma acquire_table_section_inv m t p mode now sg :
  mgr_inv m -> mgr_inv (acquire_table_section m t p mode now sg).1.
Proof.
  intros Hm. unfold acquire_table_section.
  pose proof (table_request_qinv (default q_new (get_table m p)) t mode now sg
    (default_qinv _ _ _ (proj2 Hm) p)).
  destruct (table_request _ _ _ _ _). by apply set_table_inv.
Qed.

Lemma remove_record_waiter_inv m t p : mgr_inv m -> mgr_inv (remove_record_waiter m t p).
Proof.
  intros Hm. unfold remove_record_waiter. destruct (get_record m p) eqn:E; [|done].
  apply get_record_inv in E as [? _]; auto with axiomdb.
Qed.
Lemma remove_table_waiter_inv m t p : mgr_inv m -> mgr_inv (remove_table_waiter m t p).
Proof.
  intros Hm. unfold remove_table_waiter. destruct (get_table m p) eqn:E; [|done].
  apply get_table_inv in E as [? _]; auto with axiomdb.
Qed.

Lemma abort_waiter_inv m t r : mgr_inv m -> mgr_inv (abort_waiter m t r).1.
Proof.
  intros Hm. destruct r as [p s|p]; cbn.
  - destruct (get_record m p) as [q|] eqn:E; [|done]. apply get_record_inv in E as [Hq He]; [|done].
    destruct (mark_aborted_qinv _ q t Hq) as [Hq' He'].
    destruct (mark_aborted q t). cbn in *. auto with axiomdb.
  - destruct (get_table m p) as [q|] eqn:E; [|done]. apply get_table_inv in E as [Hq He]; [|done].
    destruct (mark_aborted_qinv _ q t Hq) as [Hq' He'].
    destruct (mark_aborted q t). cbn in *. auto with axiomdb.
Qed.

Lemma release_ref_inv m t r : mgr_inv m -> mgr_inv (release_ref m t r).1.
Proof.
  intros Hm. destruct r as [p s|p]; cbn.
  - destruct (get_record m p) as [q|] eqn:E; [|done]. apply get_record_inv in E as [Hq _]; [|done].
    apply (release_queue_qinv _ _ t) in Hq. destruct (release_queue q t). cbn in *. auto with axiomdb.
  - destruct (get_table m p) as [q|] eqn:E; [|done]. apply get_table_inv in E as [Hq _]; [|done].
    apply (release_queue_qinv _ _ t) in Hq. destruct (release_queue q t). cbn in *. auto with axiomdb.
Qed.

Lemma release_nth_shard_inv m t i : mgr_inv m -> mgr_inv (release_nth_shard m t i).1.
Proof.
  intros Hm. unfold release_nth_shard. case_decide.
  - destruct (record_shards m !! i) as [shard|] eqn:E; [|done].
    pose proof (release_shard_ok _ _ _ (proj1 Hm) i shard t E).
    destruct (release_shard shard t). by split; [|apply Hm].
  - destruct (table_shards m !! _) as [shard|] eqn:E; [|done].
    pose proof (release_shard_ok _ _ _ (proj2 Hm) _ shard t E).
    destruct (release_shard shard t). by split; [apply Hm|].
Qed.

Lemma deadlock_section_shards m t b r now m' v :
  deadlock_section m t b r now = Some (m', v) ->
  record_shards m' = record_shards m /\ table_shards m' = table_shards m.
Proof.
  unfold deadlock_section. destruct (detect_cycle _ _); [|by intros [= <- _]].
  destruct (select_victim _ _ _); [|done]. by intros [= <- _].
Qed.

Lemma mgr_inv_shards m m' :
  record_shards m' = record_shards m -> table_shards m' = table_shards m ->
  mgr_inv m -> mgr_inv m'.
Proof. unfold mgr_inv. by intros -> ->. Qed.

Lemma init_inv : mgr_inv (mgr init_world).
Proof.
  assert (forall n k, 0 <= n -> shards_ok n k (replicate (Z.to_nat n) ∅)) as H.
  { intros n k Hn. split; [rewrite length_replicate; lia|].
    intros i shard key q (-> & _)%lookup_replicate. by rewrite lookup_empty. }
  split; apply H; done.
Qed.

Lemma step_call_inv w t now w' :
  mgr_inv (mgr w) -> step_call w t now = Some w' -> mgr_inv (mgr w').
Proof.
  intros Hm. unfold step_call.
  destruct (pc_of w t) as [|sync p s mode f h b|p mode h v vr|p|p mode h|r|tb h|[|r refs] sg tot|i sg tot|[|s sg] c tot].
  - done.
  - destruct (_ && _); [intros [= <-]; by apply remove_record_waiter_inv|].
    destruct (deadlock_section _ _ _ _ _) as [[m' [[v vr]|]]|] eqn:E; [| |done];
      apply deadlock_section_shards in E as [??]; intros [= <-]; by eapply mgr_inv_shards.
  - destruct vr as [r|]; [|by intros [= <-]].
    pose proof (abort_waiter_inv (mgr w) v r Hm). destruct (abort_waiter _ _ _). by intros [= <-].
  - intros [= <-]. by apply remove_record_waiter_inv.
  - done.
  - by intros [= <-].
  - done.
  - by intros [= <-].
  - pose proof (release_ref_inv (mgr w) t r Hm). destruct (release_ref _ _ _). by intros [= <-].
  - case_decide; [|by intros [= <-]].
    pose proof (release_nth_shard_inv (mgr w) t i Hm). destruct (release_nth_shard _ _ _).
    by intros [= <-].
  - intros [= <-]. by destruct c.
  - by intros [= <-].
Qed.

Lemma wake_call_inv w t b w' :
  mgr_inv (mgr w) -> wake_call w t b = Some w' -> mgr_inv (mgr w').
Proof.
  intros Hm. unfold wake_call.
  destruct (pc_of w t); try done; case_bool_decide; destruct b; try done; intros [= <-]; cbn;
    auto using remove_record_waiter_inv, remove_table_waiter_inv.
Qed.

Lemma exec_inv w ev w' :
  mgr_inv (mgr w) -> event_ok ev -> exec w ev = Some w' -> mgr_inv (mgr w').
Proof.
  intros Hm Hev.
  destruct ev as [sync t p s mode f now|t p s mode now|sync t p mode now|t rs|t|t now|t|t];
    cbn [exec event_ok] in *; [| | | | |eauto using step_call_inv|eauto using wake_call_inv..];
    (destruct (is_idle w t); [|done]).
  - intros [= <-]. unfold acquire_record_lock.
    pose proof (acquire_record_section_inv (mgr w) t p s mode f now (mk_signal sync (next_handle w)) Hm Hev).
    destruct (acquire_record_section _ _ _ _ _ _ _ _) as [m' []]; done.
  - pose proof (try_acquire_inv (mgr w) t p s mode now Hm Hev).
    destruct (try_acquire_record_lock_sync _ _ _ _ _ _). by intros [= <-].
  - intros [= <-]. unfold acquire_table_lock.
    pose proof (acquire_table_section_inv (mgr w) t p mode now (mk_signal sync (next_handle w)) Hm).
    destruct (acquire_table_section _ _ _ _ _ _) as [m' []]; done.
  - by intros [= <-].
  - by intros [= <-].
Qed.

Lemma reach_inv w : reach w -> mgr_inv (mgr w).
Proof. induction 1; [apply init_inv|by eapply exec_inv]. Qed.

(** ** Waiters are not lost *)

Definition get_queue (m : LockManager) (r : LockRef) : option LockQueue :=
  match r with RefRecord p _ => get_record m p | RefTable t => get_table m t end.

(** Transaction [t] has a waiter with handle [h] on [r]. *)
Definition waiter_at (m : LockManager) (r : LockRef) (t h : Z) : Prop :=
  exists q w, get_queue m r = Some q /\ w ∈ waiting q /\
    e_txn_id (w_entry w) = t /\ handle_of (w_signal w) = h.

(** The lock and handle a call is waiting for. *)
Definition pc_waits (pc : Pc) : option (LockRef * Z) :=
  match pc with
  | AcqEnqueued _ p s _ _ h _ => Some (RefRecord p 0, h)
  | AcqAbort p _ h v _ => Some (RefRecord p 0, h)
  | AcqWaiting p _ h => Some (RefRecord p 0, h)
  | TblWaiting t h => Some (RefTable t, h)
  | _ => None
  end.

(** Signals collected but not delivered yet. *)
Definition pc_pending (pc : Pc) : list WaiterSignal :=
  match pc with
  | Releasing _ signals _ | ReleasingAll _ signals _ | Notifying signals _ _ => signals
  | _ => []
  end.

(** A waiting call is still queued, or signalled, or about to be signalled by a call
    that is releasing locks. *)
Definition no_lost_wakeup (w : World) : Prop :=
  forall t r h, pc_waits (pc_of w t) = Some (r, h) ->
    waiter_at (mgr w) r t h \/ h ∈ notified w \/
    exists t' s, s ∈ pc_pending (pc_of w t') /\ handle_of s = h.

(** From [q] to [q'] the waiters of the transactions in [P] stay or are signalled. *)
Definition qkeeps (P : Z -> Prop) (q q' : LockQueue) (sigs : list WaiterSignal) : Prop :=
  forall w, w ∈ waiting q -> P (e_txn_id (w_entry w)) ->
    (exists w', w' ∈ waiting q' /\ w_entry w' = w_entry w /\ w_signal w' = w_signal w) \/
    w_signal w ∈ sigs.

Definition keeps (P : Z -> Prop) (m m' : LockManager) (sigs : list WaiterSignal) : Prop :=
  forall r t h, P t -> waiter_at m r t h ->
    waiter_at m' r t h \/ exists s, s ∈ sigs /\ handle_of s = h.

Lemma qkeeps_incl P q q' sigs : waiting q ⊆ waiting q' -> qkeeps P q q' sigs.
Proof. intros H w Hw _. left. exists w. split; [by apply H|done]. Qed.

Lemma record_request_keeps P q t s m f now sg :
  qkeeps P q (record_request q t s m f now sg).1 [].
Proof.
  apply qkeeps_incl. unfold record_request.
  destruct (find_granted_idx q t m); [done|]. destruct (upgrade_idx q t m s); [done|].
  destruct (_ && _); cbn; [done|]. set_solver.
Qed.

Lemma try_request_keeps P q t s m now : qkeeps P q (try_request q t s m now).1 [].
Proof.
  apply qkeeps_incl. unfold try_request. destruct (_ || _); [done|].
  by destruct (find_granted_idx q t m).
Qed.

Lemma table_request_keeps P q t m now sg : qkeeps P q (table_request q t m now sg).1 [].
Proof.
  apply qkeeps_incl. unfold table_request. destruct (existsb _ _); [done|].
  destruct (_ && _); cbn; [done|]. set_solver.
Qed.

Lemma remove_waiter_keeps q t : qkeeps (fun t' => t' ≠ t) q (remove_waiter_by_txn q t).1 [].
Proof.
  intros w Hw Ht. left. exists w. split; [|done]. unfold remove_waiter_by_txn.
  destruct (list_find _ _) as [[pos w0]|] eqn:E; [|done]. cbn.
  apply list_find_Some in E as (Hpos & Ht0 & _).
  apply list_elem_of_lookup in Hw as [i Hi].
  assert (i ≠ pos) by congruence.
  apply list_elem_of_lookup. rewrite delete_take_drop.
  destruct (decide (i < pos)%nat).
  - exists i. rewrite lookup_app_l; [by rewrite lookup_take_lt|].
    rewrite length_take. apply lookup_lt_Some in Hpos. lia.
  - exists (i - 1)%nat. pose proof (lookup_lt_Some _ _ _ Hpos).
    rewrite lookup_app_r; rewrite length_take; [|lia].
    rewrite lookup_drop. rewrite <-Hi. f_equal. lia.
Qed.

Lemma mark_aborted_keeps P q t : qkeeps P q (mark_aborted q t).1 [].
Proof.
  intros w Hw _. left. unfold mark_aborted.
  destruct (list_find _ _) as [[pos w0]|] eqn:E; [|by exists w]. cbn.
  apply list_find_Some in E as (Hpos & _ & _).
  apply list_elem_of_lookup in Hw as [i Hi]. destruct (decide (i = pos)) as [->|Hne].
  - assert (w0 = w) as -> by congruence.
    exists (mkWaiter (w_entry w) (w_signal w) (Some AbortDeadlock)). split; [|done].
    apply list_elem_of_lookup. exists pos. apply list_lookup_insert_eq. by eapply lookup_lt_Some.
  - exists w. split; [|done]. apply list_elem_of_lookup. exists i.
    by rewrite list_lookup_insert_ne.
Qed.

Lemma try_grant_keeps P q : qkeeps P q (try_grant_waiters q).1 (try_grant_waiters q).2.
Proof.
  intros w Hw _. rewrite try_grant_waiters_pass.
  destruct (grant_pass (granted q) (waiting q)) as [[g' kept] promoted] eqn:E.
  apply grant_pass_spec in E as (_ & Hp & _). cbn. rewrite Hp in Hw.
  apply elem_of_app in Hw as [Hw|Hw]; [left; by exists w|right].
  apply list_elem_of_fmap. by exists w.
Qed.

Lemma release_queue_keeps P q t : qkeeps P q (release_queue q t).1 (release_queue q t).2.
Proof. intros w Hw HP. by apply (try_grant_keeps P (remove_granted_by_txn q t).1). Qed.

Lemma release_all_queue_keeps P q t :
  qkeeps P q (release_all_queue q t).1 (release_all_queue q t).2.
Proof.
  unfold release_all_queue. cbn. case_bool_decide; [by apply qkeeps_incl|].
  intros w Hw HP. by apply (try_grant_keeps P (remove_granted_by_txn q t).1).
Qed.

(** *** Lifting to the manager *)

Lemma keeps_shards P m m' sigs :
  record_shards m' = record_shards m -> table_shards m' = table_shards m -> keeps P m m' sigs.
Proof.
  intros Hr Ht r t h _ H. left. unfold waiter_at, get_queue, get_record, get_table in *.
  by rewrite Hr, Ht.
Qed.

Lemma waiter_moves P q q' sigs w :
  qkeeps P q q' sigs -> w ∈ waiting q -> P (e_txn_id (w_entry w)) ->
  (exists w', w' ∈ waiting q' /\ q_is_empty q' = false /\
     e_txn_id (w_entry w') = e_txn_id (w_entry w) /\
     handle_of (w_signal w') = handle_of (w_signal w)) \/
  exists s, s ∈ sigs /\ handle_of s = handle_of (w_signal w).
Proof.
  intros Hk Hw HP. destruct (Hk w Hw HP) as [(w' & Hw' & He & Hs)|Hs]; [left|right; by eexists].
  exists w'. rewrite He, Hs. split_and!; try done. apply q_is_empty_false. right.
  intros Hnil. rewrite Hnil in Hw'. by apply not_elem_of_nil in Hw'.
Qed.

Section Keeps.
Context (P : Z -> Prop) (m : LockManager) (sigs : list WaiterSignal).
Hypothesis Hm : mgr_inv m.

(** [m'] differs from [m] in the queue of [r0] only, which becomes [q']. *)
Lemma keeps_update m' r0 q' :
  (forall q, get_queue m r0 = Some q -> qkeeps P q q' sigs) ->
  (forall r, get_queue m' r = get_queue m r \/
     get_queue m r = get_queue m r0 /\
     get_queue m' r = (if q_is_empty q' then None else Some q')) ->
  keeps P m m' sigs.
Proof.
  intros Hk Hother r t h HP (q & w & Hq & Hw & Ht & Hh).
  destruct (Hother r) as [Hr|[H0 Hr]]; [left; exists q, w; by rewrite Hr|].
  rewrite H0 in Hq. subst t.
  destruct (waiter_moves P q q' sigs w (Hk q Hq) Hw HP) as [(w' & Hw' & He & Ht' & Hh')|(s & Hs & Hh')];
    [left|right; exists s; by rewrite Hh'].
  exists q', w'. rewrite Hr, He. split_and!; congruence.
Qed.

Lemma keeps_put_record p q' :
  (forall q, get_record m p = Some q -> qkeeps P q q' sigs) -> keeps P m (put_record m p q') sigs.
Proof.
  intros Hk. apply (keeps_update _ (RefRecord p 0) q'); [done|].
  intros [p' s|t]; [|by left]. cbn. unfold get_record. cbn.
  rewrite (shard_get_put _ RecordQueue) by (done || apply Hm).
  case_decide; [subst; by right|by left].
Qed.

Lemma keeps_put_table p q' :
  (forall q, get_table m p = Some q -> qkeeps P q q' sigs) -> keeps P m (put_table m p q') sigs.
Proof.
  intros Hk. apply (keeps_update _ (RefTable p) q'); [done|].
  intros [p' s|t]; [by left|]. cbn. unfold get_table. cbn.
  rewrite (shard_get_put _ TableQueue) by (done || apply Hm).
  case_decide; [subst; by right|by left].
Qed.

Lemma set_put_record p q' : q_is_empty q' = false -> set_record m p q' = put_record m p q'.
Proof. unfold set_record, put_record, shard_put. by intros ->. Qed.

Lemma set_put_table p q' : q_is_empty q' = false -> set_table m p q' = put_table m p q'.
Proof. unfold set_table, put_table, shard_put. by intros ->. Qed.
End Keeps.

(** *** Sections *)

Definition everyone (t : Z) : Prop := True.

Lemma acquire_record_section_keeps P m t p s mode f now sg :
  mgr_inv m -> in_u16 s -> keeps P m (acquire_record_section m t p s mode f now sg).1 [].
Proof.
  intros Hm Hs. unfold acquire_record_section.
  set (q := default q_new (get_record m p)).
  destruct (record_request_qinv q t s mode f now sg (default_qinv _ _ _ (proj1 Hm) p) Hs) as [_ He].
  pose proof (record_request_keeps P q t s mode f now sg) as Hk.
  destruct (record_request q t s mode f now sg) as [q' r]. cbn in *.
  rewrite set_put_record by done. apply keeps_put_record; [done|].
  intros q0 Hq0. unfold q in Hk. by rewrite Hq0 in Hk.
Qed.

Lemma acquire_record_section_waits m t p s mode f now sg b :
  mgr_inv m -> (acquire_record_section m t p s mode f now sg).2 = inr b ->
  waiter_at (acquire_record_section m t p s mode f now sg).1 (RefRecord p 0) t (handle_of sg).
Proof.
  intros Hm. unfold acquire_record_section, record_request.
  destruct (find_granted_idx _ _ _); [done|]. destruct (upgrade_idx _ _ _ _); [done|].
  destruct (_ && _); [done|]. cbn. intros _. eexists _, _. cbn. unfold get_record. cbn.
  rewrite (shard_get_set _ RecordQueue) by (done || apply Hm). rewrite decide_True by done.
  split; [reflexivity|]. cbn. split; [apply elem_of_app; right; by apply list_elem_of_singleton|done].
Qed.

Lemma try_acquire_keeps P m t p s mode now :
  mgr_inv m -> in_u16 s -> keeps P m (try_acquire_record_lock_sync m t p s mode now).1 [].
Proof.
  intros Hm Hs. unfold try_acquire_record_lock_sync.
  set (q := default q_new (get_record m p)).
  destruct (try_request_qinv q t s mode now (default_qinv _ _ _ (proj1 Hm) p) Hs) as [_ He].
  pose proof (try_request_keeps P q t s mode now) as Hk.
  destruct (try_request q t s mode now) as [q' []]; cbn in *; [rewrite set_put_record by auto|];
    (apply keeps_put_record; [done|]; intros q0 Hq0; unfold q in Hk; by rewrite Hq0 in Hk).
Qed.

Lemma acquire_table_section_keeps P m t p mode now sg :
  mgr_inv m -> keeps P m (acquire_table_section m t p mode now sg).1 [].
Proof.
  intros Hm. unfold acquire_table_section.
  set (q := default q_new (get_table m p)).
  destruct (table_request_qinv q t mode now sg (default_qinv _ _ _ (proj2 Hm) p)) as [_ He].
  pose proof (table_request_keeps P q t mode now sg) as Hk.
  destruct (table_request q t mode now sg) as [q' r]. cbn in *.
  rewrite set_put_table by done. apply keeps_put_table; [done|].
  intros q0 Hq0. unfold q in Hk. by rewrite Hq0 in Hk.
Qed.

Lemma acquire_table_section_waits m t p mode now sg :
  mgr_inv m -> (acquire_table_section m t p mode now sg).2 = None ->
  waiter_at (acquire_table_section m t p mode now sg).1 (RefTable p) t (handle_of sg).
Proof.
  intros Hm. unfold acquire_table_section, table_request.
  destruct (existsb _ _); [done|].
  destruct (_ && _); [done|]. cbn. intros _. eexists _, _. cbn. unfold get_table. cbn.
  rewrite (shard_get_set _ TableQueue) by (done || apply Hm). rewrite decide_True by done.
  split; [reflexivity|]. cbn. split; [apply elem_of_app; right; by apply list_elem_of_singleton|done].
Qed.

Lemma remove_record_waiter_keeps m t p :
  mgr_inv m -> keeps (fun t' => t' ≠ t) m (remove_record_waiter m t p) [].
Proof.
  intros Hm. unfold remove_record_waiter. destruct (get_record m p) as [q|] eqn:E.
  - apply keeps_put_record; [done|]. intros q0 Hq0. rewrite E in Hq0. injection Hq0 as <-.
    apply remove_waiter_keeps.
  - by apply keeps_shards.
Qed.

Lemma remove_table_waiter_keeps m t p :
  mgr_inv m -> keeps (fun t' => t' ≠ t) m (remove_table_waiter m t p) [].
Proof.
  intros Hm. unfold remove_table_waiter. destruct (get_table m p) as [q|] eqn:E.
  - apply keeps_put_table; [done|]. intros q0 Hq0. rewrite E in Hq0. injection Hq0 as <-.
    apply remove_waiter_keeps.
  - by apply keeps_shards.
Qed.

Lemma abort_waiter_keeps P m t r : mgr_inv m -> keeps P m (abort_waiter m t r).1 [].
Proof.
  intros Hm. destruct r as [p s|p]; cbn.
  - destruct (get_record m p) as [q|] eqn:E; [|by apply keeps_shards].
    destruct (get_record_inv m p q Hm E) as [Hq He].
    destruct (mark_aborted_qinv _ q t Hq) as [_ He'].
    pose proof (mark_aborted_keeps P q t). destruct (mark_aborted q t) as [q' sg]. cbn in *.
    rewrite set_put_record by auto. apply keeps_put_record; [done|]. intros q0 Hq0. by simplify_eq.
  - destruct (get_table m p) as [q|] eqn:E; [|by apply keeps_shards].
    destruct (get_table_inv m p q Hm E) as [Hq He].
    destruct (mark_aborted_qinv _ q t Hq) as [_ He'].
    pose proof (mark_aborted_keeps P q t). destruct (mark_aborted q t) as [q' sg]. cbn in *.
    rewrite set_put_table by auto. apply keeps_put_table; [done|]. intros q0 Hq0. by simplify_eq.
Qed.

Lemma release_ref_keeps P m t r :
  mgr_inv m -> keeps P m (release_ref m t r).1 (release_ref m t r).2.
Proof.
  intros Hm. destruct r as [p s|p]; cbn.
  - destruct (get_record m p) as [q|] eqn:E; [|by apply keeps_shards].
    pose proof (release_queue_keeps P q t). destruct (release_queue q t) as [q' sg]. cbn in *.
    apply keeps_put_record; [done|]. intros q0 Hq0. by simplify_eq.
  - destruct (get_table m p) as [q|] eqn:E; [|by apply keeps_shards].
    pose proof (release_queue_keeps P q t). destruct (release_queue q t) as [q' sg]. cbn in *.
    apply keeps_put_table; [done|]. intros q0 Hq0. by simplify_eq.
Qed.

#[local] Arguments release_all_queue : simpl never.

(** One shard of the scan: every waiter of the shard stays or is signalled. *)
Lemma release_shard_waiters shard t key q w :
  shard !! key = Some q -> w ∈ waiting q ->
  (exists q' w', (release_shard shard t).1 !! key = Some q' /\ w' ∈ waiting q' /\
     e_txn_id (w_entry w') = e_txn_id (w_entry w) /\
     handle_of (w_signal w') = handle_of (w_signal w)) \/
  exists s, s ∈ (release_shard shard t).2 /\ handle_of s = handle_of (w_signal w).
Proof.
  intros Hq Hw. pose proof (release_all_queue_keeps everyone q t) as Hk.
  destruct (waiter_moves everyone q _ _ w Hk Hw I) as [(w' & Hw' & He & Ht & Hh)|(s & Hs & Hh)].
  - left. exists (release_all_queue q t).1, w'. split_and!; [|done..].
    cbn. rewrite lookup_omap, Hq. cbn. by rewrite He.
  - right. exists s. split; [|done]. cbn. apply list_elem_of_bind.
    exists (key, q). split; [done|]. by apply elem_of_map_to_list.
Qed.

Lemma shard_release_waiters n shards i shard t key q w :
  shards !! i = Some shard -> shard_get n shards key = Some q -> w ∈ waiting q ->
  (exists q' w', shard_get n (<[i := (release_shard shard t).1]> shards) key = Some q' /\
     w' ∈ waiting q' /\ e_txn_id (w_entry w') = e_txn_id (w_entry w) /\
     handle_of (w_signal w') = handle_of (w_signal w)) \/
  exists s, s ∈ (release_shard shard t).2 /\ handle_of s = handle_of (w_signal w).
Proof.
  intros Hi Hq Hw. unfold shard_get in *. apply bind_Some in Hq as (shard0 & Hs0 & Hq).
  destruct (decide (i = shard_idx n key)) as [->|Hne].
  - assert (shard0 = shard) as -> by congruence.
    rewrite list_lookup_insert_eq by (by eapply lookup_lt_Some).
    by apply (release_shard_waiters shard t key q w).
  - left. exists q, w. rewrite list_lookup_insert_ne by done. by rewrite Hs0.
Qed.

Lemma release_nth_shard_keeps P m t i :
  keeps P m (release_nth_shard m t i).1 (release_nth_shard m t i).2.
Proof.
  intros r t' h _ (q & w & Hq & Hw & <- & <-). unfold release_nth_shard.
  case_decide as Hi.
  - destruct (record_shards m !! i) as [shard|] eqn:E; [|left; by exists q, w].
    destruct r as [p s|p]; cbn in Hq; [|left; exists q, w; by destruct (release_shard shard t)].
    pose proof (shard_release_waiters _ _ i shard t p q w E Hq Hw) as Hrel.
    by destruct (release_shard shard t).
  - destruct (table_shards m !! _) as [shard|] eqn:E; [|left; by exists q, w].
    destruct r as [p s|p]; cbn in Hq; [left; exists q, w; by destruct (release_shard shard t)|].
    pose proof (shard_release_waiters _ _ _ shard t p q w E Hq Hw) as Hrel.
    by destruct (release_shard shard t).
Qed.

(** *** The world *)

Lemma pc_of_insert w m n nt t pc t' :
  pc_of (mkWorld m n nt (<[t := pc]> (threads w))) t' = if decide (t = t') then pc else pc_of w t'.
Proof.
  unfold pc_of. cbn. destruct (decide (t = t')) as [<-|];
    [by rewrite lookup_insert_eq|by rewrite lookup_insert_ne].
Qed.

(** A step of transaction [t] that keeps the others' waiters or their signals. *)
Lemma wakeup_step w m' n' nt' t pc' sigs :
  no_lost_wakeup w -> keeps (fun t' => t' ≠ t) (mgr w) m' sigs -> notified w ⊆ nt' ->
  (forall s, s ∈ pc_pending (pc_of w t) \/ s ∈ sigs ->
     s ∈ pc_pending pc' \/ handle_of s ∈ nt') ->
  (forall r h, pc_waits pc' = Some (r, h) ->
     waiter_at m' r t h \/
     pc_waits (pc_of w t) = Some (r, h) /\ keeps everyone (mgr w) m' sigs) ->
  no_lost_wakeup (mkWorld m' n' nt' (<[t := pc']> (threads w))).
Proof.
  intros Hw Hk Hnt Hpend Hown t0 r h.
  assert (Hold : pc_waits (pc_of w t0) = Some (r, h) ->
    (waiter_at (mgr w) r t0 h -> waiter_at m' r t0 h \/ exists s, s ∈ sigs /\ handle_of s = h) ->
    waiter_at m' r t0 h \/ h ∈ nt' \/
    exists t' s, s ∈ pc_pending (if decide (t = t') then pc' else pc_of w t') /\ handle_of s = h).
  { intros Hold Hmove. specialize (Hw t0 r h Hold).
    assert (Hs : forall s, s ∈ pc_pending (pc_of w t) \/ s ∈ sigs -> handle_of s = h ->
      h ∈ nt' \/ exists t' s, s ∈ pc_pending (if decide (t = t') then pc' else pc_of w t') /\ handle_of s = h).
    { intros s Hs <-. destruct (Hpend s Hs); [right|by left]. exists t, s. by rewrite decide_True. }
    destruct Hw as [Hat|[Hn|(t' & s & Hs' & Hh)]].
    - destruct (Hmove Hat) as [|(s & ? & ?)]; [by left|right]. eauto.
    - right; left. by apply Hnt.
    - right. destruct (decide (t = t')) as [<-|Hne]; [eauto|].
      right. exists t', s. by rewrite decide_False. }
  rewrite pc_of_insert. setoid_rewrite pc_of_insert.
  destruct (decide (t = t0)) as [<-|Hne]; intros Hpc.
  - destruct (Hown r h Hpc) as [?|[Ho Hall]]; [by left|]. apply Hold; [done|]. by apply Hall.
  - apply Hold; [done|]. apply Hk. done.
Qed.

Lemma keeps_weaken P m m' sigs : keeps everyone m m' sigs -> keeps P m m' sigs.
Proof. intros H r t h _. by apply H. Qed.

(** A step of [t] that delivers nothing and collects [sigs]. *)
Lemma wakeup_set_pc w m' n' t pc' sigs :
  no_lost_wakeup w -> keeps (fun t' => t' ≠ t) (mgr w) m' sigs ->
  pc_pending pc' = pc_pending (pc_of w t) ++ sigs ->
  (forall r h, pc_waits pc' = Some (r, h) ->
     waiter_at m' r t h \/
     pc_waits (pc_of w t) = Some (r, h) /\ keeps everyone (mgr w) m' sigs) ->
  no_lost_wakeup (mkWorld m' n' (notified w) (<[t := pc']> (threads w))).
Proof.
  intros Hw Hk Hp Hown. eapply wakeup_step; try done.
  intros s Hs. left. rewrite Hp. by apply elem_of_app.
Qed.

Lemma step_call_wakeup w t now w' :
  mgr_inv (mgr w) -> no_lost_wakeup w -> step_call w t now = Some w' -> no_lost_wakeup w'.
Proof.
  intros Hm Hw. unfold step_call. pose proof (keeps_shards everyone (mgr w)) as Hsh.
  destruct (pc_of w t) as [|sync p s mode f h b|p mode h v vr|p|p mode h|r|tb h|[|r refs] sg tot|i sg tot|[|s sg] c tot] eqn:Hpc.
  - done.
  - destruct (_ && _).
    { intros [= <-]. apply (wakeup_set_pc w _ _ _ _ []); rewrite ?Hpc; try done.
      by apply remove_record_waiter_keeps. }
    destruct (deadlock_section _ _ _ _ _) as [[m' [[v vr]|]]|] eqn:E; [| |done];
      apply deadlock_section_shards in E as [E1 E2]; intros [= <-];
      (apply (wakeup_set_pc w _ _ _ _ []); rewrite ?Hpc; [done|by apply keeps_weaken, Hsh|done|]);
      intros r0 h0 [= <- <-]; right; auto.
  - assert (Hab : keeps everyone (mgr w) (match vr with Some r => abort_waiter (mgr w) v r | None => (mgr w, None) end).1 []).
    { destruct vr; [by apply abort_waiter_keeps|by apply Hsh]. }
    destruct (match vr with Some _ => _ | None => _ end) as [m' sg]. intros [= <-].
    apply (wakeup_step w _ _ _ _ _ []); [done|by apply keeps_weaken| | |]; rewrite ?Hpc.
    + destruct sg; set_solver.
    + intros s [H|H]; by apply not_elem_of_nil in H.
    + destruct (v =? t); [done|]. intros r0 h0 [= <- <-]. by right.
  - intros [= <-]. apply (wakeup_set_pc w _ _ _ _ []); rewrite ?Hpc; try done.
    by apply remove_record_waiter_keeps.
  - done.
  - intros [= <-]. apply (wakeup_set_pc w _ _ _ _ []); rewrite ?Hpc; try done.
    by apply keeps_weaken, Hsh.
  - done.
  - intros [= <-]. apply (wakeup_set_pc w _ _ _ _ []); rewrite ?Hpc, ?app_nil_r; try done.
    by apply keeps_weaken, Hsh.
  - pose proof (release_ref_keeps (fun t' => t' ≠ t) (mgr w) t r Hm).
    destruct (release_ref _ _ _) as [m' sg']. intros [= <-].
    by apply (wakeup_set_pc w _ _ _ _ sg'); rewrite ?Hpc.
  - case_decide.
    + pose proof (release_nth_shard_keeps (fun t' => t' ≠ t) (mgr w) t i).
      destruct (release_nth_shard _ _ _) as [m' sg']. intros [= <-].
      by apply (wakeup_set_pc w _ _ _ _ sg'); rewrite ?Hpc.
    + intros [= <-]. apply (wakeup_set_pc w _ _ _ _ []); rewrite ?Hpc, ?app_nil_r; try done.
      by apply keeps_weaken, Hsh.
  - intros [= <-]. apply (wakeup_set_pc w _ _ _ _ []); rewrite ?Hpc; try done.
    apply keeps_weaken. by destruct c; apply Hsh.
  - intros [= <-]. apply (wakeup_step w _ _ _ _ _ []); rewrite ?Hpc; [done|by apply keeps_weaken, Hsh|set_solver| |done].
    intros s' [[->|H]%elem_of_cons|H%not_elem_of_nil]; [right|by left|done].
    apply elem_of_union_l. by apply elem_of_singleton.
Qed.

Lemma wake_call_wakeup w t b w' :
  mgr_inv (mgr w) -> no_lost_wakeup w -> wake_call w t b = Some w' -> no_lost_wakeup w'.
Proof.
  intros Hm Hw. unfold wake_call. pose proof (keeps_shards everyone (mgr w)) as Hsh.
  destruct (pc_of w t) eqn:Hpc; try done; case_bool_decide; destruct b; try done; intros [= <-];
    apply (wakeup_set_pc w _ _ _ _ []); rewrite ?Hpc; try done;
    auto using remove_record_waiter_keeps, remove_table_waiter_keeps, keeps_weaken.
Qed.

Lemma idle_pc w t : is_idle w t = true -> pc_pending (pc_of w t) = [] /\ pc_waits (pc_of w t) = None.
Proof. unfold is_idle. by destruct (pc_of w t). Qed.

Lemma exec_wakeup w ev w' :
  mgr_inv (mgr w) -> event_ok ev -> no_lost_wakeup w -> exec w ev = Some w' -> no_lost_wakeup w'.
Proof.
  intros Hm Hev Hw.
  destruct ev as [sync t p s mode f now|t p s mode now|sync t p mode now|t rs|t|t now|t|t];
    cbn [exec event_ok] in *; [| | | | |eauto using step_call_wakeup|eauto using wake_call_wakeup..];
    (destruct (is_idle w t) eqn:Hid; [|done]); apply idle_pc in Hid as [Hp0 Hw0].
  - intros [= <-]. unfold acquire_record_lock. set (sg := mk_signal sync (next_handle w)).
    pose proof (acquire_record_section_keeps (fun t' => t' ≠ t) (mgr w) t p s mode f now sg Hm Hev) as Hk.
    pose proof (acquire_record_section_waits (mgr w) t p s mode f now sg) as Hat.
    destruct (acquire_record_section _ _ _ _ _ _ _ _) as [m' [g|b]]; cbn in *;
      (apply (wakeup_set_pc w _ _ _ _ []); rewrite ?Hp0; [done|done|done|]); [done|].
    intros r h [= <- <-]. left. replace (next_handle w) with (handle_of sg) by by destruct sync.
    by eapply Hat.
  - pose proof (try_acquire_keeps (fun t' => t' ≠ t) (mgr w) t p s mode now Hm Hev).
    destruct (try_acquire_record_lock_sync _ _ _ _ _ _). intros [= <-].
    by apply (wakeup_set_pc w _ _ _ _ []); rewrite ?Hp0.
  - intros [= <-]. unfold acquire_table_lock. set (sg := mk_signal sync (next_handle w)).
    pose proof (acquire_table_section_keeps (fun t' => t' ≠ t) (mgr w) t p mode now sg Hm) as Hk.
    pose proof (acquire_table_section_waits (mgr w) t p mode now sg) as Hat.
    destruct (acquire_table_section _ _ _ _ _ _) as [m' [g|]]; cbn in *;
      (apply (wakeup_set_pc w _ _ _ _ []); rewrite ?Hp0; [done|done|done|]); [done|].
    intros r h [= <- <-]. left. replace (next_handle w) with (handle_of sg) by by destruct sync.
    by eapply Hat.
  - intros [= <-]. apply (wakeup_set_pc w _ _ _ _ []); rewrite ?Hp0; try done. by apply keeps_shards.
  - intros [= <-]. apply (wakeup_set_pc w _ _ _ _ []); rewrite ?Hp0; try done. by apply keeps_shards.
Qed.

Lemma reach_wakeup w : reach w -> no_lost_wakeup w.
Proof.
  induction 1 as [|w ev w' Hr IH Hev Hex].
  - intros t r h. unfold pc_of. cbn. by rewrite lookup_empty.
  - eapply exec_wakeup; eauto using reach_inv.
Qed.

(** ** Mutual exclusion of record locks *)

(** Replacing one granted entry by one that is compatible with the rest. *)
Lemma alter_granted_safe f idx q e :
  queue_safe q -> granted q !! idx = Some e ->
  (forall e', e' ∈ granted q -> e_txn_id e' ≠ e_txn_id e -> entries_compat e e' ->
     entries_compat (f e) e') ->
  e_txn_id (f e) = e_txn_id e ->
  queue_safe (alter_granted f idx q).
Proof.
  intros Hs He Hf Ht e1 e2 H1 H2. unfold alter_granted in *. cbn in *.
  assert (Hin : forall e', e' ∈ alter f idx (granted q) -> e' = f e \/ e' ∈ granted q).
  { intros e' [i Hi]%list_elem_of_lookup. rewrite list_lookup_alter in Hi.
    case_decide; [subst; rewrite He in Hi; injection Hi as <-; by left|].
    right. apply list_elem_of_lookup. by exists i. }
  assert (Hne : forall e', e' ∈ granted q -> entries_compat (f e) e').
  { intros e' He'. destruct (decide (e_txn_id e' = e_txn_id e)); [left; congruence|].
    apply Hf; [done|done|]. apply Hs; [|done]. apply list_elem_of_lookup. by exists idx. }
  destruct (Hin e1 H1) as [->|]; destruct (Hin e2 H2) as [->|].
  - apply entries_compat_refl.
  - by apply Hne.
  - by apply entries_compat_sym, Hne.
  - by apply Hs.
Qed.

(** Adding slot [s] to an entry that conflicts with nobody on [s]. *)
Lemma extend_compat e e' bm s :
  e_bitmap e = Some bm -> 0 <= s -> no_conflict_with (e_txn_id e) (e_mode e) (Some s) e' ->
  entries_compat e e' -> entries_compat (extend_slot s e) e'.
Proof.
  intros Hb Hs Hn [H|[H|(b1 & b2 & H1 & H2 & Hd)]]; [by left|right; by left|].
  destruct Hn as [Hn|[Hn|(s' & b & [= <-] & Hb' & Ht)]]; [by left|right; left; by rewrite conflicts_comm|].
  right; right. exists (bm_set bm s), b2. cbn. rewrite Hb. split_and!; [done|done|].
  rewrite slots_set by done. assert (b = b2) as -> by congruence. assert (b1 = bm) as -> by congruence.
  apply disjoint_union_l. split; [|done]. intros x ->%elem_of_singleton [_ ?]%elem_of_slots. congruence.
Qed.

(** Upgrading an entry that conflicts with nobody on any of its slots or on [s]. *)
Lemma upgrade_compat e e' bm s :
  e_bitmap e = Some bm -> 0 <= s -> (exists bm', e_bitmap e' = Some bm') ->
  (forall x, x = s \/ x ∈ slots bm -> no_conflict_with (e_txn_id e) Exclusive (Some x) e') ->
  entries_compat (upgrade_slot s e) e'.
Proof.
  intros Hb Hs [bm' Hb'] Hn. destruct (decide (e_txn_id e' = e_txn_id e)); [by left|].
  right; right. exists (bm_set bm s), bm'. cbn. rewrite Hb. split_and!; [done|done|].
  rewrite slots_set by done. intros x Hx [_ Ht]%elem_of_slots.
  destruct (Hn x) as [?|[Hc|(x' & b & [= <-] & ? & ?)]]; [set_solver|done| |congruence].
  by rewrite conflicts_comm, exclusive_conflicts in Hc.
Qed.

Lemma record_request_safe q t s m f now sg :
  qinv RecordQueue q -> queue_safe q -> in_u16 s -> request_guarded q t s m ->
  queue_safe (record_request q t s m f now sg).1.
Proof.
  intros Hq Hs Hu Hg. assert (0 <= s) by widths. unfold record_request, request_guarded in *.
  pose proof (qwf_granted _ _ (qi_wf _ _ Hq)) as Hwf. rewrite Forall_lookup in Hwf.
  destruct (find_granted_idx q t m) as [idx|] eqn:Hidx.
  - apply find_granted_idx_Some in Hidx as (e & He & <- & <-). cbn [fst].
    destruct (Hwf _ _ He) as (bm & Hb & _).
    apply find_conflict_None in Hg. rewrite Forall_forall in Hg.
    eapply alter_granted_safe; [done|done| |done].
    intros e' He' _. eapply extend_compat; eauto.
  - destruct (upgrade_idx q t m s) as [idx|] eqn:Hup.
    + unfold upgrade_idx in Hup. destruct (decide (m = Exclusive)) as [->|]; [|done].
      destruct (find_granted_idx q t Shared) as [idx'|] eqn:Hsh; [|done].
      destruct (_ && _) eqn:E; [|done]. injection Hup as ->.
      apply andb_true_iff in E as [Ec _]. apply bool_decide_eq_true, find_conflict_None in Ec.
      apply find_granted_idx_Some in Hsh as (e & He & <- & Hmode). cbn [fst].
      destruct (Hwf _ _ He) as (bm & Hb & _).
      eapply alter_granted_safe; [done|done| |done].
      intros e' He' _ _. eapply upgrade_compat; [done|done| |].
      { apply list_elem_of_lookup in He' as [i Hi]. destruct (Hwf _ _ Hi) as (b & ? & _). eauto. }
      intros x [->|Hx]; [by rewrite Forall_forall in Ec; apply Ec|].
      specialize (Hg e bm x He Hb Hx). apply find_conflict_None in Hg.
      rewrite Forall_forall in Hg. by apply Hg.
    + destruct (_ && _) eqn:E; cbn [fst]; [|done].
      apply andb_true_iff in E as [Ec _]. apply bool_decide_eq_true, find_conflict_None in Ec.
      apply granted_safe_snoc; [done|]. eapply Forall_impl; [exact Ec|].
      intros e. by apply no_conflict_compat.
Qed.

Lemma try_request_safe q t s m now :
  qinv RecordQueue q -> queue_safe q -> in_u16 s -> queue_safe (try_request q t s m now).1.
Proof.
  intros Hq Hs Hu. assert (0 <= s) by widths. unfold try_request.
  destruct (_ || _) eqn:E; [done|]. apply orb_false_iff in E as [Ec _].
  apply bool_decide_eq_false in Ec. apply dec_stable, find_conflict_None in Ec.
  destruct (find_granted_idx q t m) as [idx|] eqn:Hidx; cbn [fst].
  - apply find_granted_idx_Some in Hidx as (e & He & <- & <-).
    destruct (Forall_lookup_1 _ _ _ _ (qwf_granted _ _ (qi_wf _ _ Hq)) He) as (bm & Hb & _).
    rewrite Forall_forall in Ec. eapply alter_granted_safe; [done|done| |done].
    intros e' He' _. eapply extend_compat; eauto.
  - apply granted_safe_snoc; [done|]. eapply Forall_impl; [exact Ec|].
    intros e. by apply no_conflict_compat.
Qed.

Lemma release_queue_safe k q t : qinv k q -> queue_safe q -> queue_safe (release_queue q t).1.
Proof.
  intros Hq Hs. apply (try_grant_waiters_safe k); [|by apply remove_granted_safe].
  by apply remove_granted_wf, (qi_wf _ _ Hq).
Qed.

Lemma release_all_queue_safe k q t :
  qinv k q -> queue_safe q -> queue_safe (release_all_queue q t).1.
Proof.
  intros Hq Hs. pose proof (release_queue_safe k q t Hq Hs). unfold release_all_queue. cbn.
  case_bool_decide; [by apply remove_granted_safe|done].
Qed.

Lemma mark_aborted_safe q t : queue_safe q -> queue_safe (mark_aborted q t).1.
Proof. unfold mark_aborted. by destruct (list_find _ _) as [[??]|]. Qed.

Definition records_safe (m : LockManager) : Prop :=
  forall p q, get_record m p = Some q -> queue_safe q.

Definition event_guarded (w : World) (ev : Event) : Prop :=
  match ev with
  | EvAcquireRecord _ t p s mode _ _ =>
      request_guarded (default q_new (get_record (mgr w) p)) t s mode
  | _ => True
  end.

(** Executions in which every record acquisition is guarded. *)
Inductive reach_guarded : World -> Prop :=
| rg_init : reach_guarded init_world
| rg_step w ev w' :
    reach_guarded w -> event_ok ev -> event_guarded w ev -> exec w ev = Some w' ->
    reach_guarded w'.

Lemma reach_guarded_reach w : reach_guarded w -> reach w.
Proof. induction 1; [constructor|by econstructor]. Qed.

Lemma records_safe_put m p q :
  mgr_inv m -> records_safe m -> queue_safe q -> records_safe (put_record m p q).
Proof.
  intros Hm Hs Hq p' q'. unfold get_record. cbn.
  rewrite (shard_get_put _ RecordQueue) by (done || apply Hm).
  case_decide; [|apply Hs]. destruct (q_is_empty q); [done|]. by intros [= <-].
Qed.

Lemma records_safe_set m p q :
  mgr_inv m -> records_safe m -> queue_safe q -> records_safe (set_record m p q).
Proof.
  intros Hm Hs Hq p' q'. unfold get_record. cbn.
  rewrite (shard_get_set _ RecordQueue) by (done || apply Hm).
  case_decide; [by intros [= <-]|apply Hs].
Qed.

Lemma records_safe_same m m' :
  record_shards m' = record_shards m -> records_safe m -> records_safe m'.
Proof. intros H Hs p q. unfold get_record. rewrite H. apply Hs. Qed.

Lemma default_safe m p : records_safe m -> queue_safe (default q_new (get_record m p)).
Proof.
  intros Hs. destruct (get_record m p) eqn:E; cbn; [by eapply Hs|].
  intros e1 e2 H. by apply not_elem_of_nil in H.
Qed.

Lemma remove_record_waiter_records m t p :
  mgr_inv m -> records_safe m -> records_safe (remove_record_waiter m t p).
Proof.
  intros Hm Hs. unfold remove_record_waiter. destruct (get_record m p) eqn:E; [|done].
  apply records_safe_put; [done|done|]. apply remove_waiter_safe. by eapply Hs.
Qed.

Lemma abort_waiter_records m t r :
  mgr_inv m -> records_safe m -> records_safe (abort_waiter m t r).1.
Proof.
  intros Hm Hs. destruct r as [p s|p]; cbn.
  - destruct (get_record m p) as [q|] eqn:E; [|done].
    pose proof (mark_aborted_safe q t (Hs _ _ E)). destruct (mark_aborted q t).
    by apply records_safe_set.
  - destruct (get_table m p) as [q|]; [|done]. by destruct (mark_aborted q t).
Qed.

Lemma release_ref_records m t r :
  mgr_inv m -> records_safe m -> records_safe (release_ref m t r).1.
Proof.
  intros Hm Hs. destruct r as [p s|p]; cbn.
  - destruct (get_record m p) as [q|] eqn:E; [|done].
    destruct (get_record_inv m p q Hm E) as [Hq _].
    pose proof (release_queue_safe _ q t Hq (Hs _ _ E)). destruct (release_queue q t).
    by apply records_safe_put.
  - destruct (get_table m p) as [q|]; [|done]. by destruct (release_queue q t).
Qed.

Lemma release_nth_shard_records m t i :
  mgr_inv m -> records_safe m -> records_safe (release_nth_shard m t i).1.
Proof.
  intros Hm Hs. unfold release_nth_shard. case_decide.
  - destruct (record_shards m !! i) as [shard|] eqn:E; [|done].
    intros p q. destruct (release_shard shard t) as [sh' sg] eqn:Er. cbn.
    unfold get_record, shard_get. cbn. rewrite list_lookup_insert.
    case_decide as Hi; [|apply Hs]. cbn. destruct Hi as [-> _].
    injection Er as <- _. rewrite lookup_omap. intros (q0 & Hq0 & Hq)%bind_Some.
    cbn in Hq. destruct (q_is_empty _); [done|]. injection Hq as <-.
    assert (Hg : get_record m p = Some q0) by (unfold get_record, shard_get; by rewrite E).
    destruct (get_record_inv m p q0 Hm Hg) as [Hq _].
    apply (release_all_queue_safe _ _ t Hq). by eapply Hs.
  - destruct (table_shards m !! _) as [shard|] eqn:E; [|done]. by destruct (release_shard shard t).
Qed.

Lemma exec_records w ev w' :
  mgr_inv (mgr w) -> event_ok ev -> event_guarded w ev -> records_safe (mgr w) ->
  exec w ev = Some w' -> records_safe (mgr w').
Proof.
  intros Hm Hev Hg Hs. pose proof (records_safe_same (mgr w)) as Hsame.
  destruct ev as [sync t p s mode f now|t p s mode now|sync t p mode now|t rs|t|t now|t|t];
    cbn [exec event_ok event_guarded] in *;
    [destruct (is_idle w t); [|done]..| | |].
  - intros [= <-]. unfold acquire_record_lock, acquire_record_section.
    set (q := default _ _) in *. set (sg := mk_signal _ _).
    pose proof (record_request_safe q t s mode f now sg (default_qinv _ _ _ (proj1 Hm) p)
      (default_safe _ _ Hs) Hev Hg) as Hq.
    destruct (record_request _ _ _ _ _ _ _) as [q' [g|b]]; by apply records_safe_set.
  - unfold try_acquire_record_lock_sync. set (q := default _ _) in *.
    pose proof (try_request_safe q t s mode now (default_qinv _ _ _ (proj1 Hm) p)
      (default_safe _ _ Hs) Hev) as Hq.
    destruct (try_request _ _ _ _ _) as [q' []]; intros [= <-];
      [by apply records_safe_set|by apply records_safe_put].
  - intros [= <-]. unfold acquire_table_lock, acquire_table_section.
    by destruct (table_request _ _ _ _ _) as [q' []].
  - by intros [= <-].
  - by intros [= <-].
  - unfold step_call.
    destruct (pc_of w t) as [|sync p s mode f h b|p mode h v vr|p|p mode h|r|tb h|[|r refs] sg tot|i sg tot|[|s sg] c tot];
      try done; try (by intros [= <-]).
    + destruct (_ && _); [intros [= <-]; by apply remove_record_waiter_records|].
      destruct (deadlock_section _ _ _ _ _) as [[m' [[v vr]|]]|] eqn:E; [| |done];
        apply deadlock_section_shards in E as [E _]; intros [= <-]; by apply Hsame.
    + destruct vr as [r|]; [|by intros [= <-]].
      pose proof (abort_waiter_records (mgr w) v r Hm Hs). destruct (abort_waiter _ _ _). by intros [= <-].
    + intros [= <-]. by apply remove_record_waiter_records.
    + pose proof (release_ref_records (mgr w) t r Hm Hs). destruct (release_ref _ _ _). by intros [= <-].
    + case_decide; [|by intros [= <-]].
      pose proof (release_nth_shard_records (mgr w) t i Hm Hs). destruct (release_nth_shard _ _ _).
      by intros [= <-].
    + intros [= <-]. by destruct c.
  - unfold wake_call. destruct (pc_of w t); try done; case_bool_decide; try done; by intros [= <-].
  - unfold wake_call. destruct (pc_of w t); try done; case_bool_decide; try done; intros [= <-].
    + by apply remove_record_waiter_records.
    + cbn. unfold remove_table_waiter. by destruct (get_table _ _).
Qed.

Lemma reach_guarded_records w : reach_guarded w -> records_safe (mgr w).
Proof.
  induction 1 as [|w ev w' Hr IH Hev Hg Hex].
  - intros p q. unfold get_record, shard_get. intros (shard & Hsh & Hq)%bind_Some.
    cbn in Hsh. apply lookup_replicate in Hsh as [-> _]. by rewrite lookup_empty in Hq.
  - eapply exec_records; eauto using reach_inv, reach_guarded_reach.
Qed.

(** ** Wait-for edges *)

(** The points of a call at which its wait-for edge may exist. *)
Definition has_edge (t : Z) (pc : Pc) : Prop :=
  match pc with
  | AcqAbort _ _ _ victim _ => victim ≠ t
  | AcqWaiting _ _ _ | AcqCleanup _ => True
  | _ => False
  end.

Definition edges_live (w : World) : Prop :=
  forall t, is_Some (wait_for (mgr w) !! t) -> has_edge t (pc_of w t).

Lemma edges_step w m' n' nt' t pc' :
  edges_live w ->
  (forall t', t' ≠ t -> is_Some (wait_for m' !! t') -> is_Some (wait_for (mgr w) !! t')) ->
  (is_Some (wait_for m' !! t) -> has_edge t pc') ->
  edges_live (mkWorld m' n' nt' (<[t := pc']> (threads w))).
Proof.
  intros Hw Hother Hown t' Ht'. rewrite pc_of_insert. cbn in Ht'.
  destruct (decide (t = t')) as [<-|Hne]; [by apply Hown|]. apply Hw, Hother; [congruence|done].
Qed.

(** A section that does not touch the wait-for map. *)
Lemma edges_same w m' n' nt' t pc' :
  edges_live w -> wait_for m' = wait_for (mgr w) ->
  (has_edge t (pc_of w t) -> has_edge t pc') ->
  edges_live (mkWorld m' n' nt' (<[t := pc']> (threads w))).
Proof.
  intros Hw Hm Hpc. apply edges_step; [done|by rewrite Hm|]. rewrite Hm.
  intros Hs. by apply Hpc, Hw.
Qed.

Lemma remove_record_waiter_wf m t p : wait_for (remove_record_waiter m t p) = wait_for m.
Proof. unfold remove_record_waiter. by destruct (get_record m p). Qed.
Lemma remove_table_waiter_wf m t p : wait_for (remove_table_waiter m t p) = wait_for m.
Proof. unfold remove_table_waiter. by destruct (get_table m p). Qed.
Lemma abort_waiter_wf m t r : wait_for (abort_waiter m t r).1 = wait_for m.
Proof.
  destruct r as [p s|p]; cbn.
  - destruct (get_record m p) as [q|]; [|done]. by destruct (mark_aborted q t).
  - destruct (get_table m p) as [q|]; [|done]. by destruct (mark_aborted q t).
Qed.
Lemma release_ref_wf m t r : wait_for (release_ref m t r).1 = wait_for m.
Proof.
  destruct r as [p s|p]; cbn.
  - destruct (get_record m p) as [q|]; [|done]. by destruct (release_queue q t).
  - destruct (get_table m p) as [q|]; [|done]. by destruct (release_queue q t).
Qed.
Lemma release_nth_shard_wf m t i : wait_for (release_nth_shard m t i).1 = wait_for m.
Proof.
  unfold release_nth_shard. case_decide.
  - destruct (record_shards m !! i); [|done]. by destruct (release_shard _ _).
  - destruct (table_shards m !! _); [|done]. by destruct (release_shard _ _).
Qed.

Lemma step_call_edges w t now w' :
  edges_live w -> step_call w t now = Some w' -> edges_live w'.
Proof.
  intros Hw. unfold step_call.
  destruct (pc_of w t) as [|sync p s mode f h b|p mode h v vr|p|p mode h|r|tb h|[|r refs] sg tot|i sg tot|[|s sg] c tot] eqn:Hpc;
    try done; try (intros [= <-]; apply edges_same; rewrite ?Hpc; by rewrite ?remove_record_waiter_wf).
  - destruct (_ && _).
    { intros [= <-]. apply edges_same; rewrite ?Hpc; by rewrite ?remove_record_waiter_wf. }
    unfold deadlock_section. set (e := mkEdge _ _ _ _). destruct (detect_cycle _ _) as [cycle|].
    + destruct (select_victim _ _ _) as [v|]; [|done]. intros [= <-].
      apply edges_step; [done| |]; cbn.
      * intros t' Ht'. rewrite lookup_delete, lookup_insert_ne by done.
        case_decide; [|done]. intros Hs. by apply is_Some_None in Hs.
      * intros Hs ->. rewrite lookup_delete_eq in Hs. by apply is_Some_None in Hs.
    + intros [= <-]. apply edges_step; [done| |done]. cbn. intros t' Ht'.
      by rewrite lookup_insert_ne.
  - pose proof (fun r => abort_waiter_wf (mgr w) v r) as Hab.
    destruct vr as [r|].
    + specialize (Hab r). destruct (abort_waiter _ _ _) as [m' sg]. intros [= <-].
      apply edges_same; rewrite ?Hpc; [done|done|]. cbn. intros Hv.
      by destruct (Z.eqb_spec v t).
    + intros [= <-]. apply edges_same; rewrite ?Hpc; [done|done|]. cbn. intros Hv.
      by destruct (Z.eqb_spec v t).
  - intros [= <-]. apply edges_step; [done| |]; cbn.
    + intros t' Ht'. by rewrite lookup_delete_ne.
    + rewrite lookup_delete_eq. by intros []%is_Some_None.
  - pose proof (release_ref_wf (mgr w) t r). destruct (release_ref _ _ _). intros [= <-].
    by apply edges_same; rewrite ?Hpc.
  - case_decide; [|intros [= <-]; by apply edges_same; rewrite ?Hpc].
    pose proof (release_nth_shard_wf (mgr w) t i). destruct (release_nth_shard _ _ _).
    intros [= <-]. by apply edges_same; rewrite ?Hpc.
  - intros [= <-]. destruct c; [|by apply edges_same; rewrite ?Hpc].
    apply edges_step; [done| |]; cbn.
    + intros t' Ht'. by rewrite lookup_delete_ne.
    + rewrite lookup_delete_eq. by intros []%is_Some_None.
Qed.

Lemma wake_call_edges w t b w' : edges_live w -> wake_call w t b = Some w' -> edges_live w'.
Proof.
  intros Hw. unfold wake_call.
  destruct (pc_of w t) eqn:Hpc; try done; case_bool_decide; destruct b; try done; intros [= <-];
    apply edges_same; rewrite ?Hpc; by rewrite ?remove_record_waiter_wf, ?remove_table_waiter_wf.
Qed.

Lemma exec_edges w ev w' : edges_live w -> exec w ev = Some w' -> edges_live w'.
Proof.
  intros Hw.
  destruct ev as [sync t p s mode f now|t p s mode now|sync t p mode now|t rs|t|t now|t|t];
    cbn [exec]; [| | | | |eauto using step_call_edges|eauto using wake_call_edges..];
    unfold is_idle; destruct (pc_of w t) eqn:Hpc; try done.
  - intros [= <-]. unfold acquire_record_lock, acquire_record_section.
    destruct (record_request _ _ _ _ _ _ _) as [q' [g|b]]; by apply edges_same; rewrite ?Hpc.
  - unfold try_acquire_record_lock_sync.
    destruct (try_request _ _ _ _ _) as [q' []]; intros [= <-]; by apply edges_same; rewrite ?Hpc.
  - intros [= <-]. unfold acquire_table_lock, acquire_table_section.
    destruct (table_request _ _ _ _ _) as [q' [g|]]; by apply edges_same; rewrite ?Hpc.
  - intros [= <-]. by apply edges_same; rewrite ?Hpc.
  - intros [= <-]. by apply edges_same; rewrite ?Hpc.
Qed.

Lemma reach_edges w : reach w -> edges_live w.
Proof.
  induction 1 as [|w ev w' Hr IH Hev Hex]; [|by eapply exec_edges].
  intros t. cbn. rewrite lookup_empty. by intros []%is_Some_None.
Qed.

(** ** Properties *)

Lemma run_reach evs : forall w w',
  reach w -> Forall event_ok evs -> run w evs = Some w' -> reach w'.
Proof.
  induction evs as [|ev evs IH]; intros w w' Hr Hev Hrun; cbn in Hrun; [by injection Hrun as <-|].
  apply Forall_cons in Hev as [He Hev]. destruct (exec w ev) as [w1|] eqn:E; [|done].
  eapply IH; [by econstructor|done|done].
Qed.

(** Solves [Forall event_ok] of a concrete list of events. *)
Ltac events_ok := repeat constructor; cbn; widths.

(** Transaction [t] holds [mode] on a slot of a page. *)
Definition holds (m : LockManager) (t page_id slot_id : Z) (mode : LockMode) : bool :=
  match get_record m page_id with
  | Some q => existsb (fun e => (e_txn_id e =? t) && bool_decide (e_mode e = mode) &&
                match e_bitmap e with Some bm => bm_test bm slot_id | None => false end) (granted q)
  | None => false
  end.

Definition covers (e : LockEntry) (s : Z) : Prop :=
  exists bm, e_bitmap e = Some bm /\ s ∈ slots bm.

(** C7: in every reachable state of the interleaved lock manager two transactions that
    hold locks on the same table hold compatible modes, whatever the order of
    acquisitions, timeouts, deadlock aborts and releases. *)
Theorem table_mutual_exclusion w tid q e1 e2 :
  reach w -> get_table (mgr w) tid = Some q -> e1 ∈ granted q -> e2 ∈ granted q ->
  e_txn_id e1 ≠ e_txn_id e2 -> conflicts (e_mode e1) (e_mode e2) = false.
Proof.
  intros Hr Hq H1 H2 Hne. destruct (get_table_inv _ _ _ (reach_inv w Hr) Hq) as [[Hwf _ Hs] _].
  destruct (Hs eq_refl e1 e2 H1 H2) as [?|[?|(b & _ & Hb & _)]]; [done|done|].
  pose proof (qwf_granted _ _ Hwf) as Hg. rewrite Forall_forall in Hg.
  specialize (Hg e1 H1). cbn in Hg. congruence.
Qed.

Lemma table_mutual_exclusion_witness :
  exists w q e1 e2, reach w /\ get_table (mgr w) 7 = Some q /\ e1 ∈ granted q /\ e2 ∈ granted q /\
    e_txn_id e1 ≠ e_txn_id e2 /\ conflicts (e_mode e1) (e_mode e2) = false.
Proof.
  set (evs := [EvAcquireTable true 1 7 IntentionShared 0; EvAcquireTable false 2 7 IntentionExclusive 0]).
  destruct (run init_world evs) as [w|] eqn:E; [|vm_compute in E; discriminate].
  set (e1 := mkEntry 1 IntentionShared LockFlags.TABLE_LOCK 0 None).
  set (e2 := mkEntry 2 IntentionExclusive LockFlags.TABLE_LOCK 0 None).
  set (q := mkQueue [e1; e2] []).
  assert (Hr : reach w) by (eapply run_reach; [constructor| |exact E]; events_ok).
  assert (Hq : get_table (mgr w) 7 = Some q).
  { assert ((fun w => get_table (mgr w) 7) <$> run init_world evs = Some (Some q)) as H by (vm_compute; reflexivity).
    rewrite E in H. by injection H. }
  assert (H1 : e1 ∈ granted q) by (left).
  assert (H2 : e2 ∈ granted q) by (right; left).
  assert (Hne : e_txn_id e1 ≠ e_txn_id e2) by discriminate.
  exists w, q, e1, e2. refine (conj Hr (conj Hq (conj H1 (conj H2 (conj Hne _))))).
  exact (table_mutual_exclusion w 7 q e1 e2 Hr Hq H1 H2 Hne).
Defined.

(** C20: as long as every record acquisition that takes the bitmap-extension or the
    upgrade path is free of conflicts on the slots it covers ([request_guarded]), no
    two transactions ever hold conflicting modes on the same slot; in particular this
    covers first-time acquisitions, SKIP LOCKED, promotions, aborts and releases. *)
Theorem record_mutual_exclusion w p q e1 e2 s :
  reach_guarded w -> get_record (mgr w) p = Some q -> e1 ∈ granted q -> e2 ∈ granted q ->
  e_txn_id e1 ≠ e_txn_id e2 -> covers e1 s -> covers e2 s ->
  conflicts (e_mode e1) (e_mode e2) = false.
Proof.
  intros Hr Hq H1 H2 Hne (b1 & Hb1 & Hs1) (b2 & Hb2 & Hs2).
  destruct (reach_guarded_records w Hr p q Hq e1 e2 H1 H2) as [?|[?|(c1 & c2 & ? & ? & Hd)]];
    [done|done|]. exfalso. simplify_eq. by apply (Hd s).
Qed.

Lemma record_mutual_exclusion_witness :
  exists w q e1 e2, reach_guarded w /\ get_record (mgr w) 3 = Some q /\
    e1 ∈ granted q /\ e2 ∈ granted q /\ e_txn_id e1 ≠ e_txn_id e2 /\
    conflicts (e_mode e1) (e_mode e2) = false.
Proof.
  set (ev1 := EvAcquireRecord true 1 3 5 Shared 0 0).
  set (ev2 := EvAcquireRecord true 2 3 5 Shared 0 0).
  destruct (exec init_world ev1) as [w1|] eqn:E1; [|vm_compute in E1; discriminate].
  destruct (exec w1 ev2) as [w|] eqn:E; [|vm_compute in E1; injection E1 as <-; vm_compute in E; discriminate].
  set (e1 := mkEntry 1 Shared 0 0 (Some (bm_with_slot 5))).
  set (e2 := mkEntry 2 Shared 0 0 (Some (bm_with_slot 5))).
  set (q := mkQueue [e1; e2] []).
  assert (Hr1 : reach_guarded w1).
  { apply (rg_step init_world ev1); [constructor|cbn; widths| |exact E1]. vm_compute. exact I. }
  assert (Hr : reach_guarded w).
  { apply (rg_step w1 ev2); [exact Hr1|cbn; widths| |exact E].
    vm_compute in E1; injection E1 as <-. vm_compute. exact I. }
  assert (Hq : get_record (mgr w) 3 = Some q).
  { vm_compute in E1; injection E1 as <-. vm_compute in E; injection E as <-. vm_compute. reflexivity. }
  assert (H1 : e1 ∈ granted q) by (left).
  assert (H2 : e2 ∈ granted q) by (right; left).
  assert (Hne : e_txn_id e1 ≠ e_txn_id e2) by discriminate.
  assert (Hc : covers e1 5 /\ covers e2 5).
  { split; exists (bm_with_slot 5); (split; [reflexivity|]); rewrite slots_with_slot by done;
      by apply elem_of_singleton. }
  exists w, q, e1, e2. refine (conj Hr (conj Hq (conj H1 (conj H2 (conj Hne _))))).
  exact (record_mutual_exclusion w 3 q e1 e2 5 Hr Hq H1 H2 Hne (proj1 Hc) (proj2 Hc)).
Defined.

(** C29: every reachable state keeps each key in the shard of its hash, drops queues
    that became empty, keeps record queues with bitmaps and table queues without, and
    marks exactly the waiters with [WAITING]. *)
Theorem lock_manager_invariant w : reach w -> mgr_inv (mgr w).
Proof. apply reach_inv. Qed.

(** Transaction 1 holds slot 5 of page 3 exclusively, and 2 waits for it. *)
Lemma lock_manager_invariant_witness :
  exists w q, reach w /\ get_record (mgr w) 3 = Some q /\ e_txn_id <$> granted q = [1] /\
    e_bitmap <$> granted q = [Some (bm_with_slot 5)] /\ length (waiting q) = 1%nat /\ mgr_inv (mgr w).
Proof.
  set (evs := [EvAcquireRecord true 1 3 5 Exclusive 0 0; EvAcquireRecord true 2 3 5 Exclusive 0 0;
               EvStep 2 0]).
  destruct (run init_world evs) as [w|] eqn:E; [|vm_compute in E; discriminate].
  assert (Hr : reach w) by (eapply run_reach; [constructor| |exact E]; events_ok).
  destruct (get_record (mgr w) 3) as [q|] eqn:Hq; [|vm_compute in E; injection E as <-; vm_compute in Hq; discriminate].
  exists w, q. split; [exact Hr|]. split; [exact Hq|].
  assert (Hs : e_txn_id <$> granted q = [1] /\ e_bitmap <$> granted q = [Some (bm_with_slot 5)] /\ length (waiting q) = 1%nat).
  { vm_compute in E. injection E as <-. vm_compute in Hq. injection Hq as <-. vm_compute. split_and!; reflexivity. }
  destruct Hs as (H1 & H2 & H3). split; [exact H1|]. split; [exact H2|]. split; [exact H3|].
  exact (lock_manager_invariant w Hr).
Defined.

(** C21: no wake-up is lost: a call blocked on a handle is still queued under its own
    transaction, or its handle was signalled, or a releasing call is about to signal
    it. *)
Theorem lock_manager_no_lost_wakeup w : reach w -> no_lost_wakeup w.
Proof. apply reach_wakeup. Qed.

Lemma lock_manager_no_lost_wakeup_witness :
  exists w, reach w /\ pc_waits (pc_of w 2) = Some (RefRecord 3 0, 0) /\ no_lost_wakeup w.
Proof.
  set (evs := [EvAcquireRecord true 1 3 5 Exclusive 0 0; EvAcquireRecord true 2 3 5 Exclusive 0 0;
               EvStep 2 0]).
  destruct (run init_world evs) as [w|] eqn:E; [|vm_compute in E; discriminate].
  assert (Hr : reach w) by (eapply run_reach; [constructor| |exact E]; events_ok).
  exists w. split; [exact Hr|]. split; [|exact (lock_manager_no_lost_wakeup w Hr)].
  vm_compute in E. injection E as <-. vm_compute. reflexivity.
Defined.

(** The wait-for map never holds a stale edge: a transaction with an edge is inside
    a record acquisition that has been enqueued and has not returned. *)
Theorem lock_manager_edges_live w : reach w -> edges_live w.
Proof. apply reach_edges. Qed.

Lemma lock_manager_edges_live_witness : reach init_world /\ edges_live init_world.
Proof. split; [constructor|]. apply (lock_manager_edges_live init_world). constructor. Defined.

(** Record locks are not mutually exclusive on the bitmap-extension path, which
    does not look at other holders: after 1 locks slot 1 and 2 locks slot 2 of a page
    exclusively, a request of 1 for slot 2 is granted. *)
Theorem extension_breaks_exclusion : exists w,
  reach w /\ holds (mgr w) 1 9 2 Exclusive = true /\ holds (mgr w) 2 9 2 Exclusive = true.
Proof.
  set (evs := [EvAcquireRecord true 1 9 1 Exclusive 0 0; EvAcquireRecord true 2 9 2 Exclusive 0 0;
               EvAcquireRecord true 1 9 2 Exclusive 0 0]).
  destruct (run init_world evs) as [w|] eqn:E; [|vm_compute in E; discriminate].
  exists w. split; [eapply run_reach; [constructor| |exact E]; events_ok|].
  vm_compute in E. injection E as <-. split; vm_compute; reflexivity.
Qed.

(** The S to X upgrade checks one slot and upgrades all: 1 and 2 share slot 1, then
    1 asks for X on slot 2 and becomes exclusive holder of slot 1 as well. *)
Theorem upgrade_breaks_exclusion : exists w,
  reach w /\ holds (mgr w) 1 9 1 Exclusive = true /\ holds (mgr w) 2 9 1 Shared = true.
Proof.
  set (evs := [EvAcquireRecord true 1 9 1 Shared 0 0; EvAcquireRecord true 2 9 1 Shared 0 0;
               EvAcquireRecord true 1 9 2 Exclusive 0 0]).
  destruct (run init_world evs) as [w|] eqn:E; [|vm_compute in E; discriminate].
  exists w. split; [eapply run_reach; [constructor| |exact E]; events_ok|].
  vm_compute in E. injection E as <-. split; vm_compute; reflexivity.
Qed.

(** A deadlock victim that was woken returns an error but leaves its waiter in the
    queue; after it has rolled back, releasing the lock grants it to that finished
    transaction, and every other transaction has nothing left to release.  Here 2 is
    the victim, has returned [DeadlockDetected] and released everything, 1 has finished
    too, and 2 holds the page's slot. *)
Theorem deadlock_victim_leaves_orphan_lock : exists w,
  reach w /\ pc_of w 2 = Idle (Some (RetReleased 1)) /\ pc_of w 1 = Idle (Some (RetReleased 1)) /\
  holds (mgr w) 2 1 0 Exclusive = true /\ dom (threads w) = {[1; 2]}.
Proof.
  set (evs :=
    [EvAcquireRecord true 1 1 0 Exclusive 0 0; EvAcquireRecord true 2 2 0 Exclusive 0 0;
     (* 2 waits for 1, then 1 for 2: 2 is the victim *)
     EvAcquireRecord true 2 1 0 Exclusive 0 0; EvStep 2 0;
     EvAcquireRecord true 1 2 0 Exclusive 0 0; EvStep 1 0; EvStep 1 0;
     EvNotified 2; EvStep 2 0;
     (* 2 rolls back, waking 1 *)
     EvReleaseAll 2] ++ replicate 83 (EvStep 2 0) ++ [EvNotified 1; EvStep 1 0;
     (* 1 commits *)
     EvReleaseAll 1] ++ replicate 83 (EvStep 1 0)).
  destruct (run init_world evs) as [w|] eqn:E; [|vm_compute in E; discriminate].
  exists w. split; [eapply run_reach; [constructor| |exact E]; unfold evs; events_ok|].
  vm_compute in E. injection E as <-. split; [vm_compute; reflexivity|].
  split; [vm_compute; reflexivity|]. split; vm_compute; reflexivity.
Qed.

(** A waiter removed by a timeout does not trigger a promotion pass: 3 queued behind
    2 only for FIFO order, 2 times out, and 3 stays blocked although it conflicts with
    no holder, nobody is ahead of it and nobody is about to wake it. *)
Theorem timeout_strands_grantable_waiter : exists w q waiter,
  reach w /\ get_record (mgr w) 1 = Some q /\ waiting q = [waiter] /\
  waiter_conflicts (granted q) waiter = false /\
  pc_of w 3 = AcqWaiting 1 Shared 1 /\ notified w = ∅ /\
  pc_of w 1 = Idle (Some (RetLock (Ok LockGranted))) /\
  pc_of w 2 = Idle (Some (RetLock (Err LockTimeout))).
Proof.
  set (evs :=
    [EvAcquireRecord true 1 1 0 Shared 0 0;
     EvAcquireRecord true 2 1 0 Exclusive 0 0; EvStep 2 0;
     EvAcquireRecord true 3 1 0 Shared 0 0; EvStep 3 0;
     EvTimeout 2; EvStep 2 0]).
  destruct (run init_world evs) as [w|] eqn:E; [|vm_compute in E; discriminate].
  exists w. eexists _, _.
  split; [eapply run_reach; [constructor| |exact E]; unfold evs; events_ok|].
  vm_compute in E. injection E as <-.
  split; [vm_compute; reflexivity|]. split; [vm_compute; reflexivity|].
  split_and!; vm_compute; reflexivity.
Qed.
