(* ===== verification/Page.v ===== *)
(** * Pages

    crates/axiomdb-storage/src/page.rs: the 16 KB page buffer, its 64-byte header and
    its body checksum.  A page is the list of its bytes; the header fields are read and
    written at their [repr(C)] offsets.  The CRC-32C function of the crc32c crate is a
    parameter, [Crc32c]. *)

From S2P Require Import Prelude.

Definition PAGE_SIZE : Z := 16384.
Definition HEADER_SIZE : Z := 64.
Definition PAGE_MAGIC : Z := 0x4158494F4D444200.
Definition PAGE_FLAG_ALL_VISIBLE : Z := 0x01.

(** ** The checksum function *)

Class Crc32c : Type := crc32c : bytes -> Z.

(** The crate returns a [u32]. *)
Class Crc32cRange (C : Crc32c) : Prop := crc32c_range : forall bs, 0 <= crc32c bs < 2 ^ 32.

(** ** Page types *)

Inductive PageType : Type :=
| PtMeta | PtData | PtIndex | PtOverflow | PtFree | PtClusteredLeaf | PtClusteredInternal.

Definition page_type_code (t : PageType) : Z :=
  match t with
  | PtMeta => 0 | PtData => 1 | PtIndex => 2 | PtOverflow => 3 | PtFree => 4
  | PtClusteredLeaf => 5 | PtClusteredInternal => 6
  end.

Definition page_type_try_from (v : Z) : Result PageType :=
  if v =? 0 then Ok PtMeta
  else if v =? 1 then Ok PtData
  else if v =? 2 then Ok PtIndex
  else if v =? 3 then Ok PtOverflow
  else if v =? 4 then Ok PtFree
  else if v =? 5 then Ok PtClusteredLeaf
  else if v =? 6 then Ok PtClusteredInternal
  else Err (ParseErrorPageType v).

(** ** Header fields *)

Abbreviation Page := bytes.

(** A little-endian integer of [n] bytes at a fixed offset of the buffer. *)
Definition get_le (off n : Z) (p : bytes) : Z :=
  le_val (take (Z.to_nat n) (drop (Z.to_nat off) p)).
Definition set_le (off n v : Z) (p : bytes) : bytes :=
  take (Z.to_nat off) p ++ le_bytes n v ++ drop (Z.to_nat (off + n)) p.

Definition hdr_magic (p : Page) : Z := get_le 0 8 p.
Definition hdr_page_type (p : Page) : Z := get_le 8 1 p.
Definition hdr_flags (p : Page) : Z := get_le 9 1 p.
Definition hdr_item_count (p : Page) : Z := get_le 10 2 p.
Definition hdr_checksum (p : Page) : Z := get_le 12 4 p.
Definition hdr_page_id (p : Page) : Z := get_le 16 8 p.
Definition hdr_lsn (p : Page) : Z := get_le 24 8 p.
Definition hdr_free_start (p : Page) : Z := get_le 32 2 p.
Definition hdr_free_end (p : Page) : Z := get_le 34 2 p.

Definition set_magic (v : Z) (p : Page) : Page := set_le 0 8 v p.
Definition set_page_type (v : Z) (p : Page) : Page := set_le 8 1 v p.
Definition set_flags (v : Z) (p : Page) : Page := set_le 9 1 v p.
Definition set_item_count (v : Z) (p : Page) : Page := set_le 10 2 v p.
Definition set_checksum (v : Z) (p : Page) : Page := set_le 12 4 v p.
Definition set_page_id (v : Z) (p : Page) : Page := set_le 16 8 v p.
Definition set_lsn (v : Z) (p : Page) : Page := set_le 24 8 v p.
Definition set_free_start (v : Z) (p : Page) : Page := set_le 32 2 v p.
Definition set_free_end (v : Z) (p : Page) : Page := set_le 34 2 v p.
Definition set_reserved (bs : bytes) (p : Page) : Page :=
  take 36 p ++ bs ++ drop (36 + length bs) p.

Definition body (p : Page) : bytes := drop (Z.to_nat HEADER_SIZE) p.

(** ** Operations *)

Section Checksummed.
Context {C : Crc32c}.

Definition update_checksum (p : Page) : Page := set_checksum (crc32c (body p)) p.

Definition verify_checksum (p : Page) : Result unit :=
  let expected := hdr_checksum p in
  let got := crc32c (body p) in
  if negb (expected =? got) then Err (ChecksumMismatch (hdr_page_id p) expected got)
  else Ok tt.

(** The zeroed buffer with its header fields set. *)
Definition page_init (page_type : PageType) (page_id : Z) : Page :=
  let p := replicate (Z.to_nat PAGE_SIZE) 0 in
  let p := set_magic PAGE_MAGIC p in
  let p := set_page_type (page_type_code page_type) p in
  let p := set_flags 0 p in
  let p := set_item_count 0 p in
  let p := set_page_id page_id p in
  let p := set_lsn 0 p in
  let p := set_free_start HEADER_SIZE p in
  let p := set_free_end PAGE_SIZE p in
  set_reserved (replicate 28 0) p.

Definition page_new (page_type : PageType) (page_id : Z) : Page :=
  update_checksum (page_init page_type page_id).

(** The argument has [PAGE_SIZE] bytes by its Rust type. *)
Definition page_from_bytes (bs : bytes) : Result Page :=
  let magic := hdr_magic bs in
  if negb (magic =? PAGE_MAGIC)
  then Err (ChecksumMismatch (hdr_page_id bs) (wrap32 PAGE_MAGIC) (wrap32 magic))
  else match verify_checksum bs with
       | Ok _ => Ok bs
       | Err e => Err e
       end.
End Checksummed.

Definition is_all_visible (p : Page) : bool :=
  negb (Z.land (hdr_flags p) PAGE_FLAG_ALL_VISIBLE =? 0).
Definition set_all_visible (p : Page) : Page :=
  set_flags (Z.lor (hdr_flags p) PAGE_FLAG_ALL_VISIBLE) p.
(** [!PAGE_FLAG_ALL_VISIBLE] at width 8. *)
Definition clear_all_visible (p : Page) : Page :=
  set_flags (Z.land (hdr_flags p) (Z.lxor PAGE_FLAG_ALL_VISIBLE 0xFF)) p.

(** ** A concrete CRC-32C *)

(** The bitwise reflected algorithm with the Castagnoli polynomial. *)
Definition crc_bit (c : Z) : Z :=
  if Z.odd c then Z.lxor (c ≫ 1) 0x82F63B78 else c ≫ 1.
Definition crc_byte (c b : Z) : Z := Nat.iter 8 crc_bit (Z.lxor c (Z.land b 0xFF)).
Definition crc32c_ref : Crc32c :=
  fun bs => Z.lxor (foldl crc_byte 0xFFFFFFFF bs) 0xFFFFFFFF.

(** ** Well-formed buffers *)

Record page_ok (p : Page) : Prop := {
  po_len : zlen p = PAGE_SIZE;
  po_bytes : bytes_ok p
}.

(** ** Fields of a buffer *)

Lemma length_set_le off n v p :
  0 <= off -> 0 <= n -> off + n <= zlen p -> length (set_le off n v p) = length p.
Proof.
  intros. unfold set_le. rewrite !length_app, length_take, length_drop, length_le_bytes by lia. lia.
Qed.

Lemma set_le_lookup off n v p (i : nat) :
  0 <= off -> 0 <= n -> off + n <= zlen p ->
  set_le off n v p !! i =
  if decide (off <= Z.of_nat i < off + n) then le_bytes n v !! (i - Z.to_nat off)%nat else p !! i.
Proof.
  intros Ho Hn Hl. pose proof (length_le_bytes n v Hn) as Hb. unfold set_le.
  case_decide.
  - rewrite lookup_app_r by (rewrite length_take; lia). rewrite length_take.
    rewrite lookup_app_l by lia. f_equal. lia.
  - destruct (decide (Z.of_nat i < off)).
    + rewrite lookup_app_l by (rewrite length_take; lia). by rewrite lookup_take_lt by lia.
    + rewrite lookup_app_r by (rewrite length_take; lia). rewrite length_take.
      rewrite lookup_app_r by lia. rewrite lookup_drop. f_equal. lia.
Qed.

Lemma set_le_blit off n v p :
  0 <= off -> 0 <= n -> off + n <= zlen p -> blit off (le_bytes n v) p = Some (set_le off n v p).
Proof.
  intros Ho Hn Hl. unfold blit. rewrite len_le_bytes by done. rewrite decide_True by lia.
  unfold set_le. do 3 f_equal. rewrite length_le_bytes by done. f_equal. lia.
Qed.

Lemma get_le_slice off n p bs : slice off n p = Some bs -> get_le off n p = le_val bs.
Proof. unfold slice, get_le. case_decide; [|done]. by intros [= <-]. Qed.

Lemma slice_get_le off n p :
  0 <= off -> 0 <= n -> off + n <= zlen p -> le_val <$> slice off n p = Some (get_le off n p).
Proof. intros. by rewrite slice_ok by done. Qed.

Lemma get_set_eq off n v p :
  0 <= off -> 0 <= n -> off + n <= zlen p -> 0 <= v < 2 ^ (n * 8) ->
  get_le off n (set_le off n v p) = v.
Proof.
  intros Ho Hn Hl Hv. pose proof (set_le_blit off n v p Ho Hn Hl) as Hb.
  apply slice_blit_eq in Hb. rewrite len_le_bytes in Hb by done.
  rewrite (get_le_slice _ _ _ _ Hb). by apply le_val_le_bytes.
Qed.

Lemma slice_set_ne off n v p o l :
  0 <= off -> 0 <= n -> off + n <= zlen p -> o + l <= off \/ off + n <= o ->
  slice o l (set_le off n v p) = slice o l p.
Proof.
  intros Ho Hn Hl Hd. apply (slice_blit_ne off (le_bytes n v)); [by apply set_le_blit|].
  rewrite len_le_bytes by done. lia.
Qed.

Lemma get_set_ne off n v p o l :
  0 <= off -> 0 <= n -> off + n <= zlen p -> 0 <= o -> 0 <= l -> o + l <= zlen p ->
  o + l <= off \/ off + n <= o ->
  get_le o l (set_le off n v p) = get_le o l p.
Proof.
  intros. pose proof (length_set_le off n v p).
  assert (Some (get_le o l (set_le off n v p)) = Some (get_le o l p)) as [=]; [|done].
  rewrite <-!slice_get_le by lia. by rewrite slice_set_ne.
Qed.

Lemma get_le_blit_ne off src p p' o l :
  blit off src p = Some p' -> 0 <= o -> 0 <= l -> o + l <= zlen p ->
  o + l <= off \/ off + zlen src <= o -> get_le o l p' = get_le o l p.
Proof.
  intros Hb Ho Hl Hlen Hd. pose proof (blit_inv _ _ _ _ Hb) as (_ & _ & Hlp).
  assert (Some (get_le o l p') = Some (get_le o l p)) as [=]; [|done].
  rewrite <-!slice_get_le by lia. by rewrite (slice_blit_ne _ _ _ _ _ _ Hb).
Qed.

Lemma bytes_ok_set_le off n v p : 0 <= n -> bytes_ok p -> bytes_ok (set_le off n v p).
Proof.
  intros Hn Hp. apply Forall_app. split; [by apply Forall_take|]. apply Forall_app.
  split; [by apply bytes_ok_le_bytes|by apply Forall_drop].
Qed.

Lemma get_le_range off n p :
  0 <= off -> 0 <= n -> off + n <= zlen p -> bytes_ok p -> 0 <= get_le off n p < 2 ^ (n * 8).
Proof.
  intros Ho Hn Hl Hp. destruct (slice_is_Some off n p Ho Hn Hl) as [bs Hs].
  rewrite (get_le_slice _ _ _ _ Hs). pose proof (slice_bytes_ok _ _ _ _ Hp Hs) as Hb.
  apply slice_inv in Hs as (_ & _ & _ & <-). by apply le_val_range.
Qed.

Lemma page_ok_set_le off n v p :
  0 <= off -> 0 <= n -> off + n <= PAGE_SIZE -> page_ok p -> page_ok (set_le off n v p).
Proof.
  intros Ho Hn Hl [Hlen Hb]. split; [rewrite length_set_le by lia; done|by apply bytes_ok_set_le].
Qed.

Lemma page_ok_blit off src p p' :
  bytes_ok src -> page_ok p -> blit off src p = Some p' -> page_ok p'.
Proof.
  intros Hs [Hl Hb] H. split; [|exact (blit_bytes_ok _ _ _ _ Hs Hb H)].
  apply blit_inv in H as (_ & _ & H). lia.
Qed.

(** Header fields live below the body. *)
Lemma body_set_le off n v p :
  0 <= off -> 0 <= n -> off + n <= HEADER_SIZE -> HEADER_SIZE <= zlen p ->
  body (set_le off n v p) = body p.
Proof.
  unfold HEADER_SIZE. intros Ho Hn Hh Hl. apply list_eq. intros i. unfold body.
  rewrite !lookup_drop, set_le_lookup by lia. apply decide_False. unfold HEADER_SIZE. lia.
Qed.

(** Solves the range side conditions of field lemmas on a page. *)
Ltac page_range :=
  unfold HEADER_SIZE, PAGE_SIZE in *; rewrite ?length_set_le; lia.

Section PageLemmas.
Context {C : Crc32c} {CR : Crc32cRange C}.

Lemma update_checksum_ok p : page_ok p -> page_ok (update_checksum p).
Proof. intros. by apply page_ok_set_le. Qed.

Lemma update_checksum_body p : page_ok p -> body (update_checksum p) = body p.
Proof. intros [Hl _]. apply body_set_le; page_range. Qed.

Lemma update_checksum_valid p :
  page_ok p -> hdr_checksum (update_checksum p) = crc32c (body (update_checksum p)).
Proof.
  intros Hp. rewrite update_checksum_body by done. destruct Hp as [Hl _].
  apply get_set_eq; [lia|lia|page_range|]. apply crc32c_range.
Qed.

Lemma update_checksum_get p o l :
  page_ok p -> 0 <= o -> 0 <= l -> o + l <= PAGE_SIZE -> o + l <= 12 \/ 16 <= o ->
  get_le o l (update_checksum p) = get_le o l p.
Proof. intros [Hl _] Ho Hle Hsz Hd. apply get_set_ne; page_range. Qed.

Lemma update_checksum_slice p o l :
  page_ok p -> o + l <= 12 \/ 16 <= o -> slice o l (update_checksum p) = slice o l p.
Proof. intros [Hl _] Hd. apply slice_set_ne; page_range. Qed.

Lemma page_ok_zero : page_ok (replicate (Z.to_nat PAGE_SIZE) 0).
Proof. split; [by rewrite length_replicate|]. apply Forall_replicate. unfold byte_ok. lia. Qed.
End PageLemmas.

Lemma set_reserved_blit bs p : 36 + zlen bs <= zlen p -> blit 36 bs p = Some (set_reserved bs p).
Proof. intros H. unfold blit. by rewrite decide_True by lia. Qed.

Lemma page_ok_set_reserved bs p : bytes_ok bs -> zlen bs <= 28 -> page_ok p -> page_ok (set_reserved bs p).
Proof.
  intros Hb Hl Hp. eapply page_ok_blit; [done|done|]. apply set_reserved_blit.
  destruct Hp as [-> _]. page_range.
Qed.

(** Reading one field of a page after writing another, or the same. *)
Lemma field_ne off n v p o l :
  page_ok p -> 0 <= off -> 0 <= n -> off + n <= PAGE_SIZE -> 0 <= o -> 0 <= l -> o + l <= PAGE_SIZE ->
  o + l <= off \/ off + n <= o -> get_le o l (set_le off n v p) = get_le o l p.
Proof. intros [Hl _]. intros. apply get_set_ne; lia. Qed.

Lemma field_eq off n v p :
  page_ok p -> 0 <= off -> 0 <= n -> off + n <= PAGE_SIZE -> 0 <= v < 2 ^ (n * 8) ->
  get_le off n (set_le off n v p) = v.
Proof. intros [Hl _]. intros. apply get_set_eq; lia. Qed.

Lemma field_reserved bs p o l :
  page_ok p -> zlen bs <= 28 -> 0 <= o -> 0 <= l -> o + l <= 36 ->
  get_le o l (set_reserved bs p) = get_le o l p.
Proof.
  intros [Hl _] Hb Ho Hle Hd. eapply get_le_blit_ne; [apply set_reserved_blit|..]; page_range.
Qed.

Create HintDb page.
#[export] Hint Resolve page_ok_set_le page_ok_zero page_ok_set_reserved update_checksum_ok : page.
#[export] Hint Extern 1 (_ <= _) => unfold PAGE_SIZE, HEADER_SIZE in *; lia : page.
#[export] Hint Extern 1 (_ <= _ < _) => unfold PAGE_SIZE, HEADER_SIZE in *; lia : page.
#[export] Hint Extern 1 (_ \/ _) => unfold PAGE_SIZE, HEADER_SIZE in *; lia : page.

Ltac fields :=
  unfold hdr_magic, hdr_page_type, hdr_flags, hdr_item_count, hdr_checksum, hdr_page_id, hdr_lsn,
    hdr_free_start, hdr_free_end, set_magic, set_page_type, set_flags, set_item_count,
    set_checksum, set_page_id, set_lsn, set_free_start, set_free_end in *;
  repeat first
    [ rewrite field_reserved by (auto 20 with page)
    | rewrite field_ne by (auto 20 with page)
    | rewrite field_eq by (auto 20 with page) ].

(** The header of a fresh page. *)
Lemma page_init_fields t id :
  in_u64 id ->
  page_ok (page_init t id) /\
  hdr_magic (page_init t id) = PAGE_MAGIC /\ hdr_page_type (page_init t id) = page_type_code t /\
  hdr_flags (page_init t id) = 0 /\ hdr_item_count (page_init t id) = 0 /\
  hdr_page_id (page_init t id) = id /\ hdr_lsn (page_init t id) = 0 /\
  hdr_free_start (page_init t id) = HEADER_SIZE /\ hdr_free_end (page_init t id) = PAGE_SIZE.
Proof.
  intros Hid. unfold in_u64 in Hid. unfold page_init.
  set (z := replicate (Z.to_nat PAGE_SIZE) 0).
  assert (Hz : page_ok z) by apply page_ok_zero. clearbody z.
  assert (Hr : bytes_ok (replicate 28 0)) by (apply Forall_replicate; unfold byte_ok; lia).
  assert (Hr' : zlen (replicate 28 0) <= 28) by (rewrite length_replicate; lia).
  set (r := replicate 28 0) in *. clearbody r.
  assert (Ht : 0 <= page_type_code t < 2 ^ 8) by (by destruct t).
  unfold PAGE_MAGIC. split_and!; [|fields; try done..].
  fields. auto 20 with page.
Qed.

Lemma page_new_fields {C : Crc32c} t id :
  in_u64 id ->
  page_ok (page_new t id) /\
  hdr_magic (page_new t id) = PAGE_MAGIC /\ hdr_page_type (page_new t id) = page_type_code t /\
  hdr_flags (page_new t id) = 0 /\ hdr_item_count (page_new t id) = 0 /\
  hdr_page_id (page_new t id) = id /\ hdr_lsn (page_new t id) = 0 /\
  hdr_free_start (page_new t id) = HEADER_SIZE /\ hdr_free_end (page_new t id) = PAGE_SIZE.
Proof.
  intros Hid. destruct (page_init_fields t id Hid) as (Hok & H). unfold page_new.
  split; [by apply update_checksum_ok|].
  unfold hdr_magic, hdr_page_type, hdr_flags, hdr_item_count, hdr_page_id, hdr_lsn, hdr_free_start,
    hdr_free_end in *.
  rewrite !update_checksum_get by (auto with page). done.
Qed.

(** ** The concrete CRC-32C returns 32 bits *)

Lemma u32_bits c : 0 <= c < 2 ^ 32 <-> 0 <= c /\ forall i, 32 <= i -> Z.testbit c i = false.
Proof.
  split.
  - intros Hc. split; [lia|]. intros i Hi. apply (Z.bounded_iff_bits_nonneg' 32 c); lia.
  - intros [H0 Hb]. apply (Z.bounded_iff_bits_nonneg' 32 c); [lia|lia|auto].
Qed.

Lemma u32_lxor a b : 0 <= a < 2 ^ 32 -> 0 <= b < 2 ^ 32 -> 0 <= Z.lxor a b < 2 ^ 32.
Proof.
  rewrite !u32_bits. intros [Ha Ha'] [Hb Hb']. split; [apply Z.lxor_nonneg; lia|].
  intros i Hi. by rewrite Z.lxor_spec, Ha', Hb'.
Qed.

Lemma crc_bit_range c : 0 <= c < 2 ^ 32 -> 0 <= crc_bit c < 2 ^ 32.
Proof.
  intros Hc. assert (0 <= c ≫ 1 < 2 ^ 32).
  { rewrite Z.shiftr_div_pow2 by lia. change (2 ^ 1) with 2.
    split; [apply Z.div_pos; lia|apply Z.div_lt_upper_bound; lia]. }
  unfold crc_bit. destruct (Z.odd c); [apply u32_lxor; lia|done].
Qed.

Lemma crc_byte_range c b : 0 <= c < 2 ^ 32 -> 0 <= crc_byte c b < 2 ^ 32.
Proof.
  intros Hc. unfold crc_byte.
  assert (H8 : 0 <= Z.land b 0xFF < 2 ^ 32).
  { change 0xFF with (Z.ones 8). rewrite Z.land_ones by lia. pose proof (Z.mod_pos_bound b (2 ^ 8)). lia. }
  assert (Hx : 0 <= Z.lxor c (Z.land b 0xFF) < 2 ^ 32) by (apply u32_lxor; done).
  generalize dependent (Z.lxor c (Z.land b 0xFF)). intros x Hx. cbn.
  do 8 apply crc_bit_range. done.
Qed.

#[export] Instance crc32c_ref_range : Crc32cRange crc32c_ref.
Proof.
  intros bs. unfold crc32c, crc32c_ref. apply u32_lxor; [|lia].
  assert (H : forall c, 0 <= c < 2 ^ 32 -> 0 <= foldl crc_byte c bs < 2 ^ 32); [|apply H; lia].
  induction bs as [|b bs IH]; intros c Hc; cbn [foldl]; [done|]. by apply IH, crc_byte_range.
Qed.

(** ** Properties *)

Lemma verify_updated {C : Crc32c} {CR : Crc32cRange C} p : page_ok p -> verify_checksum (update_checksum p) = Ok tt.
Proof. intros Hp. unfold verify_checksum. by rewrite <-update_checksum_valid, Z.eqb_refl. Qed.

Lemma updated_magic {C : Crc32c} p : page_ok p -> hdr_magic (update_checksum p) = hdr_magic p.
Proof. intros Hp. unfold hdr_magic. by rewrite update_checksum_get by (done || page_range). Qed.

Lemma page_from_bytes_ok {C : Crc32c} p : hdr_magic p = PAGE_MAGIC -> verify_checksum p = Ok tt -> page_from_bytes p = Ok p.
Proof. intros Hm Hv. unfold page_from_bytes. by rewrite Hm, Z.eqb_refl, Hv. Qed.

Lemma page_from_bytes_new {C : Crc32c} {CR : Crc32cRange C} p :
  page_ok p -> hdr_magic p = PAGE_MAGIC -> page_from_bytes (update_checksum p) = Ok (update_checksum p).
Proof.
  intros Hp Hm. unfold page_from_bytes, hdr_magic, verify_checksum.
  rewrite update_checksum_get by (done || page_range). fold (hdr_magic p). rewrite Hm, Z.eqb_refl. cbn [negb].
  by rewrite <-update_checksum_valid, Z.eqb_refl.
Qed.

(** reading back a page whose checksum was just updated accepts it unchanged, a
    fresh page among them with the header it was given; a buffer is rejected exactly
    when its magic number or the checksum of its body is wrong, with the values found. *)
Theorem page_checksum_roundtrip {C : Crc32c} {CR : Crc32cRange C} p t id :
  page_ok p -> in_u64 id ->
  (hdr_magic p = PAGE_MAGIC -> page_from_bytes (update_checksum p) = Ok (update_checksum p)) /\
  page_from_bytes (page_new t id) = Ok (page_new t id) /\
  hdr_page_id (page_new t id) = id /\ page_type_try_from (hdr_page_type (page_new t id)) = Ok t /\
  page_from_bytes p =
    if decide (hdr_magic p = PAGE_MAGIC) then
      if decide (hdr_checksum p = crc32c (body p)) then Ok p
      else Err (ChecksumMismatch (hdr_page_id p) (hdr_checksum p) (crc32c (body p)))
    else Err (ChecksumMismatch (hdr_page_id p) (wrap32 PAGE_MAGIC) (wrap32 (hdr_magic p))).
Proof.
  intros Hp Hid. split_and!; [by apply page_from_bytes_new| | | |].
  - destruct (page_init_fields t id Hid) as (Hok & Hm & _). by apply page_from_bytes_new.
  - by apply page_new_fields.
  - destruct (page_new_fields t id Hid) as (_ & _ & -> & _). by destruct t.
  - unfold page_from_bytes, verify_checksum.
    destruct (Z.eqb_spec (hdr_magic p) PAGE_MAGIC); [rewrite decide_True by done|by rewrite decide_False].
    destruct (Z.eqb_spec (hdr_checksum p) (crc32c (body p)));
      [by rewrite decide_True|by rewrite decide_False].
Qed.

Lemma page_checksum_roundtrip_witness :
  let p := @page_init PtData 7 in
  page_ok p /\ in_u64 7 /\
  @page_from_bytes crc32c_ref (@page_new crc32c_ref PtData 7) = Ok (@page_new crc32c_ref PtData 7).
Proof.
  intros p. assert (H7 : in_u64 7) by widths.
  assert (Hp : page_ok p) by apply (page_init_fields PtData 7 H7).
  split; [exact Hp|]. split; [exact H7|].
  exact (proj1 (proj2 (@page_checksum_roundtrip crc32c_ref crc32c_ref_range p PtData 7 Hp H7))).
Defined.

(** The flag byte: setting and clearing all-visible touches that bit only. *)
Lemma all_visible_flag p :
  page_ok p ->
  is_all_visible (set_all_visible p) = true /\ is_all_visible (clear_all_visible p) = false /\
  page_ok (set_all_visible p) /\ page_ok (clear_all_visible p).
Proof.
  intros Hp. assert (Hf : 0 <= hdr_flags p < 2 ^ 8).
  { destruct Hp as [Hl Hb]. apply (get_le_range 9 1 p); page_range || done. }
  assert (Hlow : forall z, negb (Z.land z PAGE_FLAG_ALL_VISIBLE =? 0) = Z.testbit z 0).
  { intros z. unfold PAGE_FLAG_ALL_VISIBLE. change 1 with (1 ≪ 0).
    pose proof (land_bit_zero z 0 ltac:(lia)) as Hz.
    destruct (Z.eqb_spec (Z.land z (1 ≪ 0)) 0) as [E|E]; destruct (Z.testbit z 0); try done; cbn; exfalso; intuition congruence. }
  assert (Hbits : forall z, 0 <= z < 2 ^ 8 <-> 0 <= z /\ forall i, 8 <= i -> Z.testbit z i = false).
  { intros z. split.
    - intros Hz. split; [lia|]. intros i Hi. apply (Z.bounded_iff_bits_nonneg' 8 z); lia.
    - intros [H0 Hb]. apply (Z.bounded_iff_bits_nonneg' 8 z); [lia|lia|auto]. }
  assert (Hs : 0 <= Z.lor (hdr_flags p) PAGE_FLAG_ALL_VISIBLE < 2 ^ 8).
  { apply Hbits. split; [apply Z.lor_nonneg; split; [lia|done]|]. intros i Hi.
    rewrite Z.lor_spec. apply Hbits in Hf as [_ Hf]. rewrite Hf by lia.
    unfold PAGE_FLAG_ALL_VISIBLE. change 1 with (1 ≪ 0). rewrite testbit_bit by lia. apply bool_decide_eq_false_2. lia. }
  assert (Hc : 0 <= Z.land (hdr_flags p) (Z.lxor PAGE_FLAG_ALL_VISIBLE 0xFF) < 2 ^ 8).
  { apply Hbits. split; [apply Z.land_nonneg; lia|]. intros i Hi.
    rewrite Z.land_spec. apply Hbits in Hf as [_ Hf]. by rewrite Hf by lia. }
  unfold is_all_visible, set_all_visible, clear_all_visible.
  split_and!; [| |by apply page_ok_set_le..]; rewrite Hlow; unfold hdr_flags at 1, set_flags; rewrite field_eq by auto with page.
  - rewrite Z.lor_spec. apply orb_true_r.
  - rewrite Z.land_spec. apply andb_false_r.
Qed.
