(* ===== verification/FreeList.v ===== *)
(** * The free-page bitmap

    crates/axiomdb-storage/src/freelist.rs: one bit per page, 1 for free.  The state is
    the word vector and the number of pages; [None] in an option-valued operation is a
    panic (a failed [assert!] or an index out of bounds). *)

From S2P Require Import Prelude SlotBitmap Page.

Definition BITMAP_BODY_BYTES : Z := PAGE_SIZE - HEADER_SIZE.
Definition BITMAP_CAPACITY : Z := BITMAP_BODY_BYTES * 8.

Record FreeList : Type := mkFreeList {
  fl_words : list Z;
  total_pages : Z
}.

(** ** Private helpers *)

Definition words_needed (n_pages : Z) : Z := (n_pages + 63) / 64.
Definition bit_pos (page_id : Z) : nat * Z := (Z.to_nat (page_id / 64), page_id mod 64).

Definition mask_tail (words : list Z) (total : Z) : list Z :=
  let remainder := total mod 64 in
  if negb (remainder =? 0) && negb (bool_decide (words = [])) then
    let valid_mask := (1 ≪ remainder) - 1 in
    alter (fun w => Z.land w valid_mask) (length words - 1)%nat words
  else words.

(** ** Operations *)

Definition mark_used (fl : FreeList) (page_id : Z) : option FreeList :=
  if total_pages fl <=? page_id then Some fl
  else
    let '(word_idx, bit) := bit_pos page_id in
    match fl_words fl !! word_idx with
    | None => None
    | Some w =>
        Some (mkFreeList (<[word_idx := Z.land w (not64 (1 ≪ bit))]> (fl_words fl))
                (total_pages fl))
    end.

Fixpoint mark_all_used (fl : FreeList) (ids : list Z) : option FreeList :=
  match ids with
  | [] => Some fl
  | id :: ids' => let! fl' := mark_used fl id in mark_all_used fl' ids'
  end.

(** [FreeList::new]; fails the assertion above the capacity. *)
Definition fl_new (total : Z) (reserved : list Z) : option FreeList :=
  if total <=? BITMAP_CAPACITY then
    let words := replicate (Z.to_nat (words_needed total)) U64_MAX in
    mark_all_used (mkFreeList (mask_tail words total) total) reserved
  else None.

Definition fl_from_bytes (bs : bytes) (total : Z) : option FreeList :=
  if (BITMAP_BODY_BYTES <=? zlen bs) && (total <=? BITMAP_CAPACITY) then
    let! words := mapM (fun i => le_val <$> slice (i * 8) 8 bs) (seqZ 0 (words_needed total)) in
    Some (mkFreeList (mask_tail words total) total)
  else None.

(** The [copy_from_slice] loop of [to_bytes], word [i] first. *)
Fixpoint write_words (i : Z) (words : list Z) (buf : bytes) : option bytes :=
  match words with
  | [] => Some buf
  | w :: words' =>
      let! buf' := blit (i * 8) (le_bytes 8 w) buf in
      write_words (i + 1) words' buf'
  end.

Definition fl_to_bytes (fl : FreeList) (buf : bytes) : option bytes :=
  if BITMAP_BODY_BYTES <=? zlen buf then
    let! buf' := blit 0 (replicate (Z.to_nat BITMAP_BODY_BYTES) 0) buf in
    write_words 0 (fl_words fl) buf'
  else None.

(** The scan of [alloc] from word [i] on: the page taken and the updated words. *)
Fixpoint alloc_from (total i : Z) (words : list Z) : option (Z * list Z) :=
  match words with
  | [] => None
  | w :: words' =>
      let skip := match alloc_from total (i + 1) words' with
                  | Some (p, ws) => Some (p, w :: ws)
                  | None => None
                  end in
      if w =? 0 then skip
      else
        let bit := trailing_zeros64 w in
        let page_id := i * 64 + bit in
        if page_id <? total
        then Some (page_id, Z.land w (not64 (1 ≪ bit)) :: words')
        else skip
  end.

Definition fl_alloc (fl : FreeList) : option Z * FreeList :=
  match alloc_from (total_pages fl) 0 (fl_words fl) with
  | Some (p, ws) => (Some p, mkFreeList ws (total_pages fl))
  | None => (None, fl)
  end.

Definition fl_free (fl : FreeList) (page_id : Z) : option (Result unit * FreeList) :=
  if total_pages fl <=? page_id then Some (Err (PageNotFound page_id), fl)
  else
    let '(word_idx, bit) := bit_pos page_id in
    let mask := 1 ≪ bit in
    match fl_words fl !! word_idx with
    | None => None
    | Some w =>
        if negb (Z.land w mask =? 0) then Some (Err (DoubleFree page_id), fl)
        else Some (Ok tt, mkFreeList (<[word_idx := Z.lor w mask]> (fl_words fl))
                            (total_pages fl))
    end.

Definition grow (fl : FreeList) (new_total : Z) : option FreeList :=
  if (total_pages fl <? new_total) && (new_total <=? BITMAP_CAPACITY) then
    let old_total := total_pages fl in
    let words := resize (Z.to_nat (words_needed new_total)) U64_MAX (fl_words fl) in
    let old_n_words := words_needed old_total in
    let bits_in_last := old_total mod 64 in
    let! words' :=
      if (0 <? old_n_words) && negb (bits_in_last =? 0) then
        let last_old_idx := Z.to_nat (old_n_words - 1) in
        match words !! last_old_idx with
        | None => None
        | Some w => Some (<[last_old_idx := Z.lor w (wrap64 (U64_MAX ≪ bits_in_last))]> words)
        end
      else Some words in
    Some (mkFreeList (mask_tail words' new_total) new_total)
  else None.

Definition is_free (fl : FreeList) (page_id : Z) : option bool :=
  if total_pages fl <=? page_id then Some false
  else
    let '(word_idx, bit) := bit_pos page_id in
    match fl_words fl !! word_idx with
    | None => None
    | Some w => Some (Z.land (w ≫ bit) 1 =? 1)
    end.

Definition free_count (fl : FreeList) : Z := foldr Z.add 0 (count_ones64 <$> fl_words fl).

(** The bits of one partially free word, from [bit] on: [inr] returns a run,
    [inl] is the run length and start carried to the next word. *)
Fixpoint run_bits (fuel : nat) (n total base word bit run_start run_len : Z) : (Z * Z) + Z :=
  match fuel with
  | O => inl (run_start, run_len)
  | S f =>
      let page_id := base + bit in
      if total <=? page_id then inl (run_start, run_len)
      else if Z.land (word ≫ bit) 1 =? 1 then
        let run_start := if run_len =? 0 then page_id else run_start in
        let run_len := run_len + 1 in
        if n <=? run_len then inr run_start
        else run_bits f n total base word (bit + 1) run_start run_len
      else run_bits f n total base word (bit + 1) run_start 0
  end.

Fixpoint run_words (n total i : Z) (words : list Z) (run_start run_len : Z) : option Z :=
  match words with
  | [] => None
  | word :: words' =>
      let base := i * 64 in
      if word =? U64_MAX then
        let run_start := if run_len =? 0 then base else run_start in
        let run_len := run_len + 64 in
        let run_end := Z.min (run_start + run_len) total in
        if n <=? run_end - run_start then Some run_start
        else run_words n total (i + 1) words' run_start run_len
      else if word =? 0 then run_words n total (i + 1) words' run_start 0
      else
        match run_bits 64 n total base word 0 run_start run_len with
        | inr s => Some s
        | inl (run_start, run_len) => run_words n total (i + 1) words' run_start run_len
        end
  end.

Definition find_contiguous_run (fl : FreeList) (n : Z) : option Z :=
  if n =? 0 then Some 0 else run_words n (total_pages fl) 0 (fl_words fl) 0 0.

(** The [while out.len() < n] loop; each iteration allocates one page. *)
Fixpoint alloc_loop (n : nat) (fl : FreeList) : list Z * FreeList :=
  match n with
  | O => ([], fl)
  | S n' =>
      match fl_alloc fl with
      | (Some id, fl') => let '(out, fl'') := alloc_loop n' fl' in (id :: out, fl'')
      | (None, fl') => ([], fl')
      end
  end.

Definition alloc_batch_sequential (fl : FreeList) (n : Z) : option (list Z * FreeList) :=
  if n =? 0 then Some ([], fl)
  else match find_contiguous_run fl n with
       | Some start =>
           let! fl' := mark_all_used fl (seqZ start n) in Some (seqZ start n, fl')
       | None => Some (alloc_loop (Z.to_nat n) fl)
       end.

Fixpoint free_batch_loop (fl : FreeList) (ids : list Z) (first_err : option DbError)
    : option (Result unit * FreeList) :=
  match ids with
  | [] => Some (match first_err with Some e => Err e | None => Ok tt end, fl)
  | id :: ids' =>
      match fl_free fl id with
      | None => None
      | Some (Ok _, fl') => free_batch_loop fl' ids' first_err
      | Some (Err e, fl') =>
          free_batch_loop fl' ids' (match first_err with None => Some e | some => some end)
      end
  end.

Definition free_batch (fl : FreeList) (ids : list Z) : option (Result unit * FreeList) :=
  free_batch_loop fl ids None.

(** ** Specification: the set of free pages *)

Definition fl_bit (fl : FreeList) (p : Z) : bool := bm_test (mkBitmap (fl_words fl)) p.

(** The vector covers the pages and no bit beyond them is set. *)
Record fl_wf (fl : FreeList) : Prop := {
  fw_total : 0 <= total_pages fl <= BITMAP_CAPACITY;
  fw_words : Forall in_u64 (fl_words fl);
  fw_len : zlen (fl_words fl) = words_needed (total_pages fl);
  fw_tail : forall p, total_pages fl <= p -> fl_bit fl p = false
}.

Definition free_set (fl : FreeList) : gset Z := slots (mkBitmap (fl_words fl)).

(** A set as the set of the pages in [lo, hi). *)
Definition page_range (lo hi : Z) : gset Z := list_to_set (seqZ lo (hi - lo)).

(** ** Bits *)

Lemma insert_alter_at {A} (f : A -> A) (l : list A) i x :
  l !! i = Some x -> <[i := f x]> l = alter f i l.
Proof.
  intros Hi. apply list_eq. intros j. rewrite list_lookup_alter.
  destruct (decide (i = j)) as [<-|Hne].
  - rewrite list_lookup_insert_eq, Hi; [done|]. by eapply lookup_lt_Some.
  - by rewrite list_lookup_insert_ne.
Qed.

Lemma words_needed_bounds n : 0 <= n -> 64 * words_needed n - 63 <= n <= 64 * words_needed n /\ 0 <= words_needed n.
Proof.
  intros Hn. unfold words_needed. pose proof (Z.div_mod (n + 63) 64). pose proof (Z.mod_pos_bound (n + 63) 64).
  lia.
Qed.

Lemma shr_bit w b : 0 <= b -> (Z.land (w ≫ b) 1 =? 1) = Z.testbit w b.
Proof.
  intros Hb. change 1 with (Z.ones 1) at 1. rewrite Z.land_ones by lia.
  change (2 ^ 1) with 2. rewrite Zmod_odd, <-Z.bit0_odd, Z.shiftr_spec by lia.
  rewrite Z.add_0_l. by destruct (Z.testbit w b).
Qed.

Lemma page_split p : 0 <= p -> 0 <= p mod 64 < 64 /\ p = 64 * Z.of_nat (Z.to_nat (p / 64)) + p mod 64.
Proof.
  intros Hp. pose proof (Z.mod_pos_bound p 64). pose proof (Z.div_mod p 64). pose proof (Z.div_pos p 64). lia.
Qed.

Lemma elem_of_free_set fl p : p ∈ free_set fl <-> 0 <= p /\ fl_bit fl p = true.
Proof. apply elem_of_slots. Qed.

Lemma free_set_bound fl p : fl_wf fl -> p ∈ free_set fl -> 0 <= p < total_pages fl.
Proof.
  intros Hwf [Hp Hb]%elem_of_free_set. destruct (decide (p < total_pages fl)); [lia|].
  rewrite fw_tail in Hb; [done|done|lia].
Qed.

Lemma fl_word_lookup fl p :
  fl_wf fl -> 0 <= p < total_pages fl ->
  exists w, fl_words fl !! Z.to_nat (p / 64) = Some w /\ in_u64 w /\
            fl_bit fl p = Z.testbit w (p mod 64).
Proof.
  intros [Ht Hw Hl _] Hp. destruct (lookup_lt_is_Some_2 (fl_words fl) (Z.to_nat (p / 64))) as [w Hlk].
  { pose proof (words_needed_bounds (total_pages fl)). pose proof (page_split p). lia. }
  exists w. split_and!; [done|by eapply Forall_lookup_1 in Hw|].
  apply bm_test_testbit; [lia|done].
Qed.

Lemma mask_tail_bit ws total p :
  0 <= total -> Forall in_u64 ws -> zlen ws = words_needed total -> 0 <= p ->
  bm_test (mkBitmap (mask_tail ws total)) p = bm_test (mkBitmap ws) p && (p <? total).
Proof.
  intros Ht Hw Hl Hp. pose proof (words_needed_bounds total Ht) as Hn.
  pose proof (page_split p Hp) as Hsp. unfold mask_tail.
  assert (Hrange : bm_test (mkBitmap ws) p = true -> p < 64 * zlen ws).
  { intros Hb. by apply (bm_test_range (mkBitmap ws)). }
  pose proof (Z.mod_pos_bound total 64 ltac:(lia)) as Hr. pose proof (Z.div_mod total 64 ltac:(lia)) as Hd.
  destruct (Z.eqb_spec (total mod 64) 0) as [Hz|Hz]; cbn [negb andb].
  { destruct (bm_test _ p); [|done]. cbn. symmetry. apply Z.ltb_lt.
    unfold words_needed in *. pose proof (Z.div_mod (total + 63) 64). pose proof (Z.mod_pos_bound (total + 63) 64). lia. }
  case_bool_decide as Hnil; cbn [negb].
  { subst ws. unfold bm_test. cbn. rewrite lookup_nil. done. }
  set (last := 64 * (zlen ws - 1)).
  assert (Hlen : (0 < length ws)%nat) by (destruct ws; [done|cbn; lia]).
  replace (length ws - 1)%nat with (Z.to_nat (last / 64))
    by (unfold last; rewrite Z.mul_comm, Z.div_mul by lia; lia).
  rewrite bm_test_alter by lia.
  unfold bm_test. cbn [words]. destruct (ws !! Z.to_nat (p / 64)) as [w|] eqn:E; [|done].
  rewrite !land_bit_nonzero by lia.
  replace (Z.to_nat (last / 64)) with (length ws - 1)%nat
    by (unfold last; rewrite Z.mul_comm, Z.div_mul by lia; lia).
  assert (Hlt := lookup_lt_Some _ _ _ E). cbn in Hlt.
  destruct (decide _) as [Heq|Hne].
  - rewrite Z.land_spec. f_equal. replace (1 ≪ (total mod 64) - 1) with (Z.ones (total mod 64)).
    2: { rewrite Z.ones_equiv, Z.shiftl_1_l. lia. }
    rewrite Z.ones_spec by lia. destruct (Z.ltb_spec p total);
      [apply bool_decide_eq_true_2|apply bool_decide_eq_false_2]; lia.
  - rewrite (proj2 (Z.ltb_lt p total)) by lia. by rewrite andb_true_r.
Qed.

(** Any vector of words, masked, is a well-formed free list. *)
Lemma mask_tail_words ws total : 0 <= total -> Forall in_u64 ws -> Forall in_u64 (mask_tail ws total).
Proof.
  intros Ht Hw. unfold mask_tail. destruct (_ && _) eqn:E; [|done].
  apply Forall_alter_in; [done|]. intros w Hu. apply in_u64_land; [done|].
  pose proof (Z.mod_pos_bound total 64). rewrite Z.shiftl_1_l.
  pose proof (Z.pow_pos_nonneg 2 (total mod 64)). lia.
Qed.

Lemma mask_tail_length ws total : length (mask_tail ws total) = length ws.
Proof. unfold mask_tail. destruct (_ && _); [apply length_alter|done]. Qed.

Lemma mask_tail_wf ws total :
  0 <= total <= BITMAP_CAPACITY -> Forall in_u64 ws -> zlen ws = words_needed total ->
  fl_wf (mkFreeList (mask_tail ws total) total).
Proof.
  intros Ht Hw Hl. split; cbn; [done|apply mask_tail_words; [lia|done]|by rewrite mask_tail_length|].
  intros p Hp. unfold fl_bit. cbn [fl_words].
  rewrite mask_tail_bit by (done || lia). rewrite (proj2 (Z.ltb_ge p total)) by lia. apply andb_false_r.
Qed.

(** *** Single pages *)

Lemma bitmap_words bm : mkBitmap (words bm) = bm.
Proof. by destruct bm. Qed.

Section OnePage.
Context (fl : FreeList) (p : Z).
Hypothesis Hwf : fl_wf fl.
Hypothesis Hp : 0 <= p < total_pages fl.

Definition fl_clear : FreeList :=
  mkFreeList (words (bm_clear (mkBitmap (fl_words fl)) p)) (total_pages fl).
Definition fl_set : FreeList :=
  mkFreeList (words (bm_set (mkBitmap (fl_words fl)) p)) (total_pages fl).

Lemma page_word_idx : (Z.to_nat (p / 64) < length (fl_words fl))%nat.
Proof. destruct (fl_word_lookup fl p Hwf Hp) as (w & Hw & _). by eapply lookup_lt_Some. Qed.

Lemma mark_used_clear : mark_used fl p = Some fl_clear.
Proof.
  unfold mark_used, fl_clear, bm_clear. rewrite (proj2 (Z.leb_gt _ p)) by lia. cbn [bit_pos words].
  rewrite decide_True by apply page_word_idx.
  destruct (fl_word_lookup fl p Hwf Hp) as (w & Hw & _). rewrite Hw.
  cbn [words]. f_equal. f_equal. by apply (insert_alter_at (fun w => Z.land w _)).
Qed.

Lemma free_set_clear : free_set fl_clear = free_set fl ∖ {[p]}.
Proof. unfold free_set, fl_clear. cbn [fl_words]. by rewrite bitmap_words, slots_clear by lia. Qed.

Lemma free_set_set : free_set fl_set = {[p]} ∪ free_set fl.
Proof. unfold free_set, fl_set. cbn [fl_words]. by rewrite bitmap_words, slots_set by lia. Qed.

Lemma fl_clear_wf : fl_wf fl_clear.
Proof.
  destruct Hwf as [Ht Hw Hl Htail]. unfold fl_clear, bm_clear. cbn [words fl_words].
  rewrite decide_True by apply page_word_idx. cbn [words].
  split; cbn [total_pages fl_words]; [done| |by rewrite length_alter|].
  - apply Forall_alter_in; [done|]. intros w Hu. apply in_u64_land; [done|].
    pose proof (page_split p). apply in_u64_not64, in_u64_bit. lia.
  - intros p' Hp'. specialize (Htail p' Hp'). unfold fl_bit in *. cbn [fl_words].
    pose proof (bm_test_clear (mkBitmap (fl_words fl)) p p' ltac:(lia) ltac:(lia)) as Hc.
    unfold bm_clear in Hc. cbn [words] in Hc. rewrite decide_True in Hc by apply page_word_idx.
    rewrite Hc, Htail. apply andb_false_r.
Qed.

Lemma fl_set_wf : fl_wf fl_set.
Proof.
  destruct Hwf as [Ht Hw Hl Htail]. pose proof page_word_idx as Hidx.
  unfold fl_set, bm_set. cbn [words fl_words].
  rewrite decide_False by lia. cbn [words].
  split; cbn [total_pages fl_words]; [done| |by rewrite length_alter|].
  - apply Forall_alter_in; [done|]. intros w Hu. pose proof (page_split p).
    apply in_u64_lor; [done|]. apply in_u64_bit. lia.
  - intros p' Hp'. specialize (Htail p' Hp'). unfold fl_bit in *. cbn [fl_words].
    pose proof (bm_test_set (mkBitmap (fl_words fl)) p p' ltac:(lia) ltac:(lia)) as Hc.
    unfold bm_set in Hc. cbn [words] in Hc. rewrite decide_False in Hc by lia.
    rewrite Hc, Htail. rewrite bool_decide_eq_false_2 by lia. done.
Qed.

Lemma fl_free_cases :
  fl_free fl p = if fl_bit fl p then Some (Err (DoubleFree p), fl) else Some (Ok tt, fl_set).
Proof.
  destruct (fl_word_lookup fl p Hwf Hp) as (w & Hw & Hu & Hb). pose proof page_word_idx as Hidx.
  unfold fl_free, fl_set, bm_set. rewrite (proj2 (Z.leb_gt _ p)) by lia. cbn [bit_pos words].
  rewrite Hw, decide_False by lia. rewrite Hb. pose proof (page_split p).
  pose proof (land_bit_zero w (p mod 64) ltac:(lia)) as Hz.
  destruct (Z.testbit w (p mod 64)) eqn:E; destruct (Z.eqb_spec (Z.land w (1 ≪ (p mod 64))) 0) as [H0|H0]; cbn [negb].
  - by apply Hz in H0.
  - done.
  - cbn [words]. f_equal. f_equal. f_equal. by apply (insert_alter_at (fun w => Z.lor w _)).
  - destruct H0. by apply Hz.
Qed.

Lemma is_free_bit : is_free fl p = Some (fl_bit fl p).
Proof.
  destruct (fl_word_lookup fl p Hwf Hp) as (w & Hw & Hu & Hb).
  unfold is_free. rewrite (proj2 (Z.leb_gt _ p)) by lia. cbn [bit_pos]. rewrite Hw, Hb.
  f_equal. apply shr_bit. pose proof (page_split p). lia.
Qed.
End OnePage.

#[export] Hint Resolve fl_clear_wf fl_set_wf mask_tail_wf : axiomdb.

(** *** Allocation *)

Lemma alloc_from_spec total ws : forall i,
  Forall in_u64 ws ->
  (forall k w b, ws !! k = Some w -> 0 <= b < 64 -> Z.testbit w b = true ->
     (i + Z.of_nat k) * 64 + b < total) ->
  match alloc_from total i ws with
  | None => Forall (fun w => w = 0) ws
  | Some (p, ws') => exists k w, ws !! k = Some w /\ w ≠ 0 /\
      p = (i + Z.of_nat k) * 64 + trailing_zeros64 w /\
      (forall j, (j < k)%nat -> ws !! j = Some 0) /\
      ws' = <[k := Z.land w (not64 (1 ≪ trailing_zeros64 w))]> ws
  end.
Proof.
  induction ws as [|w ws IH]; intros i Hu Hb; cbn [alloc_from]; [constructor|].
  apply Forall_cons in Hu as [Hw Hu].
  specialize (IH (i + 1) Hu). destruct (Z.eqb_spec w 0) as [->|Hnz].
  - destruct (alloc_from total (i + 1) ws) as [[p ws']|].
    + destruct IH as (k & w & Hk & Hnz & -> & Hz & ->).
      { intros k w b Hk Hb' Ht. specialize (Hb (S k) w b Hk Hb' Ht). lia. }
      exists (S k), w. split_and!; [done|done|lia| |done].
      intros [|j] Hj; [done|]. cbn. apply Hz. lia.
    + constructor; [done|]. apply IH.
      intros k w b Hk Hb' Ht. specialize (Hb (S k) w b Hk Hb' Ht). lia.
  - destruct (trailing_zeros64_spec w Hw Hnz) as (Htz & Hbit & _).
    specialize (Hb 0%nat w _ eq_refl Htz Hbit).
    rewrite (proj2 (Z.ltb_lt _ total)) by lia.
    exists 0%nat, w. split_and!; [done|done|lia|lia|done].
Qed.

(** Allocation takes the least free page. *)
Lemma fl_alloc_spec fl :
  fl_wf fl ->
  match fl_alloc fl with
  | (None, fl') => fl' = fl /\ free_set fl = ∅
  | (Some p, fl') => p ∈ free_set fl /\ (forall p', p' ∈ free_set fl -> p <= p') /\
      fl' = fl_clear fl p
  end.
Proof.
  intros Hwf. unfold fl_alloc.
  assert (Hbits : forall k w b, fl_words fl !! k = Some w -> 0 <= b < 64 ->
    fl_bit fl (64 * Z.of_nat k + b) = Z.testbit w b).
  { intros k w b Hk Hb. by apply (bm_test_bit (mkBitmap (fl_words fl))). }
  pose proof (alloc_from_spec (total_pages fl) (fl_words fl) 0 (fw_words _ Hwf)) as Hspec.
  assert (Hin : forall k w b, fl_words fl !! k = Some w -> 0 <= b < 64 -> Z.testbit w b = true ->
    (0 + Z.of_nat k) * 64 + b < total_pages fl).
  { intros k w b Hk Hb Ht. rewrite <-(Hbits k w b Hk Hb) in Ht.
    destruct (decide (64 * Z.of_nat k + b < total_pages fl)); [lia|].
    rewrite fw_tail in Ht; [done|done|lia]. }
  specialize (Hspec Hin).
  destruct (alloc_from (total_pages fl) 0 (fl_words fl)) as [[p ws']|].
  - destruct Hspec as (k & w & Hk & Hnz & -> & Hz & ->).
    pose proof (Forall_lookup_1 _ _ _ _ (fw_words _ Hwf) Hk) as Hu. cbn in Hu.
    destruct (trailing_zeros64_spec w Hu Hnz) as (Htz & Hbit & Hlow).
    set (tz := trailing_zeros64 w) in *. replace ((0 + Z.of_nat k) * 64 + tz) with (64 * Z.of_nat k + tz) by lia.
    split_and!.
    + apply elem_of_free_set. split; [lia|]. by rewrite (Hbits k w).
    + intros p' [Hp' Hb']%elem_of_free_set. destruct (page_split p' Hp') as [Hm Heq].
      set (k' := Z.to_nat (p' / 64)) in *.
      destruct (decide (k' < k)%nat) as [Hlt|]; [|destruct (decide (k' = k)) as [Hkk|]; [|lia]].
      * rewrite Heq, (Hbits k' 0 _ (Hz k' Hlt) Hm), Z.bits_0 in Hb'. done.
      * rewrite Heq, Hkk, (Hbits k w _ Hk Hm) in Hb'.
        destruct (decide (tz <= p' mod 64)); [lia|]. rewrite Hlow in Hb'; [done|lia].
    + unfold fl_clear, bm_clear. cbn [words].
      destruct (slot_of_bit (Z.of_nat k) tz ltac:(lia) Htz) as [Hd Hmod].
      rewrite Hd, Hmod, Nat2Z.id, decide_True by by eapply lookup_lt_Some.
      cbn [words]. f_equal. by apply (insert_alter_at (fun w => Z.land w _)).
  - split; [done|]. apply set_eq. intros p. rewrite elem_of_free_set. split; [|set_solver].
    intros [Hp Hb]. destruct (page_split p Hp) as [Hm Heq]. exfalso.
    unfold fl_bit, bm_test in Hb. cbn in Hb. destruct (fl_words fl !! _) as [w|] eqn:E; [|done].
    pose proof (Forall_lookup_1 _ _ _ _ Hspec E) as Hw0. cbn in Hw0. subst w.
    by rewrite Z.land_0_l in Hb.
Qed.

(** *** Construction and growth *)

Lemma high_mask_bit b i : 0 <= b < 64 -> 0 <= i < 64 ->
  Z.testbit (wrap64 (U64_MAX ≪ b)) i = bool_decide (b <= i).
Proof.
  intros Hb Hi. unfold wrap64. rewrite Z.mod_pow2_bits_low, Z.shiftl_spec by lia.
  case_bool_decide.
  - rewrite testbit_U64_MAX by lia. apply bool_decide_eq_true_2. lia.
  - apply Z.testbit_neg_r. lia.
Qed.

Lemma in_u64_high_mask b : in_u64 (wrap64 (U64_MAX ≪ b)).
Proof. unfold wrap64, in_u64. apply Z.mod_pos_bound. lia. Qed.

Lemma mark_all_used_spec ids : forall fl,
  fl_wf fl -> Forall (fun p => 0 <= p) ids ->
  exists fl', mark_all_used fl ids = Some fl' /\ fl_wf fl' /\
    total_pages fl' = total_pages fl /\ free_set fl' = free_set fl ∖ list_to_set ids.
Proof.
  induction ids as [|p ids IH]; intros fl Hwf Hids; cbn [mark_all_used].
  { exists fl. split_and!; [done|done|done|set_solver]. }
  apply Forall_cons in Hids as [Hp Hids].
  destruct (decide (p < total_pages fl)).
  - rewrite mark_used_clear by (done || lia).
    destruct (IH (fl_clear fl p)) as (fl' & -> & Hwf' & Ht & Hset); [apply fl_clear_wf; [done|lia]|done|].
    exists fl'. split_and!; [done|done|done|]. rewrite Hset, free_set_clear by lia. set_solver.
  - unfold mark_used. rewrite (proj2 (Z.leb_le _ p)) by lia.
    destruct (IH fl Hwf Hids) as (fl' & -> & Hwf' & Ht & Hset).
    exists fl'. split_and!; [done|done|done|]. rewrite Hset. apply set_eq. intros x.
    rewrite !elem_of_difference, !elem_of_list_to_set, elem_of_cons. split; [|tauto].
    intros [Hx Hni]. split; [done|]. intros [->|]; [|done].
    apply free_set_bound in Hx; [lia|done].
Qed.

Lemma elem_of_page_range lo hi p : p ∈ page_range lo hi <-> lo <= p < hi.
Proof. unfold page_range. rewrite elem_of_list_to_set, elem_of_seqZ. lia. Qed.

(** A free list is determined by which pages of its range are free. *)
Lemma free_set_of_bits ws total (S : gset Z) :
  0 <= total -> Forall in_u64 ws -> zlen ws = words_needed total ->
  (forall p, 0 <= p < total -> bm_test (mkBitmap ws) p = true <-> p ∈ S) ->
  (forall p, p ∈ S -> 0 <= p < total) ->
  free_set (mkFreeList (mask_tail ws total) total) = S.
Proof.
  intros Ht Hw Hl Hin HS. apply set_eq. intros p. rewrite elem_of_free_set.
  unfold fl_bit. cbn [fl_words]. split.
  - intros [Hp Hb]. rewrite mask_tail_bit in Hb by done.
    apply andb_true_iff in Hb as [Hb Hlt]. apply Hin; [lia|done].
  - intros Hp. pose proof (HS p Hp). split; [lia|].
    rewrite mask_tail_bit, (proj2 (Hin p ltac:(lia)) Hp) by (done || lia).
    cbn. apply Z.ltb_lt. lia.
Qed.

Lemma fl_new_spec total reserved :
  0 <= total <= BITMAP_CAPACITY -> Forall (fun p => 0 <= p) reserved ->
  exists fl, fl_new total reserved = Some fl /\ fl_wf fl /\ total_pages fl = total /\
    free_set fl = page_range 0 total ∖ list_to_set reserved.
Proof.
  intros Ht Hres. unfold fl_new. rewrite (proj2 (Z.leb_le _ _)) by lia.
  set (ws := replicate _ _). pose proof (words_needed_bounds total ltac:(lia)) as Hn.
  assert (Hw : Forall in_u64 ws) by (apply Forall_replicate, in_u64_MAX).
  assert (Hl : zlen ws = words_needed total) by (unfold ws; rewrite length_replicate; lia).
  destruct (mark_all_used_spec reserved (mkFreeList (mask_tail ws total) total)) as (fl & -> & Hwf & Htot & Hset);
    [by apply mask_tail_wf|done|].
  exists fl. split_and!; [done|done|done|]. rewrite Hset. f_equal.
  apply free_set_of_bits; [lia|done|done| |intros p; rewrite elem_of_page_range; lia].
  intros p Hp. rewrite elem_of_page_range. split; [done|]. intros _.
  pose proof (page_split p ltac:(lia)).
  rewrite (bm_test_testbit _ _ U64_MAX); [|lia|].
  - rewrite testbit_U64_MAX by lia. apply bool_decide_eq_true_2. lia.
  - cbn. unfold ws. apply lookup_replicate. split; [done|]. lia.
Qed.

Lemma words_needed_cases n :
  0 <= n ->
  words_needed n = n / 64 /\ n mod 64 = 0 \/ words_needed n = n / 64 + 1 /\ n mod 64 ≠ 0.
Proof.
  intros Hn. unfold words_needed. pose proof (Z.mod_pos_bound n 64). pose proof (Z.div_mod n 64).
  destruct (decide (n mod 64 = 0)); [left|right]; (split; [symmetry|done]);
    [apply (Z.div_unique _ _ _ 63)|apply (Z.div_unique _ _ _ (n mod 64 - 1))]; lia.
Qed.

(** Bits of a vector extended with all-ones words. *)
Lemma resize_bit ws n p :
  (length ws <= n)%nat -> 0 <= p -> (Z.to_nat (p / 64) < n)%nat ->
  bm_test (mkBitmap (resize n U64_MAX ws)) p =
  if decide (Z.to_nat (p / 64) < length ws)%nat then bm_test (mkBitmap ws) p else true.
Proof.
  intros Hn Hp Hi. pose proof (page_split p Hp). case_decide.
  - unfold bm_test. cbn [words]. by rewrite lookup_resize by lia.
  - rewrite (bm_test_testbit _ _ U64_MAX); [|lia|by cbn; rewrite lookup_resize_new by lia].
    rewrite testbit_U64_MAX by lia. apply bool_decide_eq_true_2. lia.
Qed.

(** Bits of a vector in which the high bits of word [i] have been set. *)
Lemma alter_high_bit ws i b p :
  0 <= i -> 0 <= b < 64 -> 0 <= p -> (Z.to_nat (p / 64) < length ws)%nat ->
  bm_test (mkBitmap (alter (fun w => Z.lor w (wrap64 (U64_MAX ≪ b))) (Z.to_nat i) ws)) p =
  bm_test (mkBitmap ws) p || bool_decide (p / 64 = i /\ b <= p mod 64).
Proof.
  intros Hi Hb Hp Hlt. pose proof (page_split p Hp) as Hs. pose proof (Z.div_pos p 64 Hp ltac:(lia)).
  replace (Z.to_nat i) with (Z.to_nat (i * 64 / 64)) by (by rewrite Z.div_mul by lia).
  rewrite bm_test_alter by lia. rewrite Z.div_mul by lia. unfold bm_test. cbn [words].
  destruct (lookup_lt_is_Some_2 ws _ Hlt) as [w ->].
  rewrite land_bit_nonzero, Z.lor_spec, high_mask_bit by lia. case_decide.
  - f_equal. apply bool_decide_ext. lia.
  - rewrite bool_decide_eq_false_2 by lia. by rewrite orb_false_r.
Qed.

(** The vector of [grow] before masking: old bits below the old total, ones above. *)
Lemma grow_words fl new_total :
  fl_wf fl -> total_pages fl < new_total <= BITMAP_CAPACITY ->
  exists ws, grow fl new_total = Some (mkFreeList (mask_tail ws new_total) new_total) /\
    Forall in_u64 ws /\ zlen ws = words_needed new_total /\
    forall p, 0 <= p < new_total ->
      bm_test (mkBitmap ws) p = if p <? total_pages fl then fl_bit fl p else true.
Proof.
  intros Hwf Hnew. pose proof Hwf as [Ht Hw Hl Htail]. unfold grow.
  rewrite (proj2 (Z.ltb_lt _ _)), (proj2 (Z.leb_le new_total _)) by lia. cbn [andb].
  set (old := total_pages fl) in *. set (n := Z.to_nat (words_needed new_total)).
  pose proof (words_needed_bounds old ltac:(lia)) as Hno.
  pose proof (words_needed_bounds new_total ltac:(lia)) as Hnn.
  pose proof (Z.mod_pos_bound old 64 ltac:(lia)) as Hr. pose proof (Z.div_mod old 64 ltac:(lia)) as Hd.
  assert (Hu1 : Forall in_u64 (resize n U64_MAX (fl_words fl))) by (apply Forall_resize; [apply in_u64_MAX|done]).
  assert (Hbit : forall p, 0 <= p < new_total -> bm_test (mkBitmap (resize n U64_MAX (fl_words fl))) p =
    if decide (p / 64 < words_needed old) then fl_bit fl p else true).
  { intros p Hp. pose proof (page_split p ltac:(lia)). pose proof (Z.div_pos p 64).
    rewrite resize_bit by lia. do 2 case_decide; try done; lia. }
  destruct (words_needed_cases old ltac:(lia)) as [[Hwn Hz]|[Hwn Hz]].
  - rewrite (proj2 (Z.eqb_eq _ 0) Hz), andb_false_r. eexists.
    split_and!; [reflexivity|done|rewrite length_resize; lia|].
    intros p Hp. rewrite Hbit by done. pose proof (page_split p ltac:(lia)). pose proof (Z.div_pos p 64).
    case_decide; destruct (Z.ltb_spec p old); try done; lia.
  - rewrite (proj2 (Z.eqb_neq _ 0) Hz), (proj2 (Z.ltb_lt 0 (words_needed old))) by lia. cbn [andb negb].
    destruct (lookup_lt_is_Some_2 (resize n U64_MAX (fl_words fl)) (Z.to_nat (words_needed old - 1))) as [w Hwl].
    { rewrite length_resize. lia. }
    rewrite Hwl. eexists. split; [reflexivity|].
    rewrite (insert_alter_at (fun w => Z.lor w _)) by done.
    split_and!; [|rewrite length_alter, length_resize; lia|].
    + apply Forall_alter_in; [done|]. intros x Hx. apply in_u64_lor; [done|apply in_u64_high_mask].
    + intros p Hp. pose proof (page_split p ltac:(lia)). pose proof (Z.div_pos p 64).
      rewrite alter_high_bit, Hbit by (rewrite ?length_resize; lia).
      case_decide; destruct (Z.ltb_spec p old).
      * rewrite bool_decide_eq_false_2 by lia. apply orb_false_r.
      * rewrite bool_decide_eq_true_2 by lia. apply orb_true_r.
      * lia.
      * done.
Qed.

Lemma grow_spec fl new_total :
  fl_wf fl -> total_pages fl < new_total <= BITMAP_CAPACITY ->
  exists fl', grow fl new_total = Some fl' /\ fl_wf fl' /\ total_pages fl' = new_total /\
    free_set fl' = free_set fl ∪ page_range (total_pages fl) new_total.
Proof.
  intros Hwf Hnew. destruct (grow_words fl new_total Hwf Hnew) as (ws & -> & Hw & Hl & Hb).
  pose proof (fw_total _ Hwf). eexists. split; [reflexivity|].
  split; [apply mask_tail_wf; [lia|done|done]|]. split; [done|].
  apply free_set_of_bits; [lia|done|done| |].
  - intros p Hp. rewrite Hb, elem_of_union, elem_of_page_range, elem_of_free_set by done.
    destruct (Z.ltb_spec p (total_pages fl)); split; try tauto; try lia.
    intros [[_ ?]|?]; [done|lia].
  - intros p. rewrite elem_of_union, elem_of_page_range. intros [Hp|?]; [|lia].
    apply free_set_bound in Hp; [lia|done].
Qed.

(** *** Serialization *)

Lemma words_ext ws1 ws2 :
  Forall in_u64 ws1 -> Forall in_u64 ws2 -> length ws1 = length ws2 ->
  (forall p, 0 <= p -> bm_test (mkBitmap ws1) p = bm_test (mkBitmap ws2) p) -> ws1 = ws2.
Proof.
  intros H1 H2 Hl Hb. apply list_eq_same_length with (n := length ws2); [done|done|].
  intros i x y Hi Hx Hy. apply u64_bit_ext; [by eapply Forall_lookup_1 in H1|by eapply Forall_lookup_1 in H2|].
  intros b Hbr. specialize (Hb (64 * Z.of_nat i + b) ltac:(lia)).
  by rewrite (bm_test_bit (mkBitmap ws1) i b x), (bm_test_bit (mkBitmap ws2) i b y) in Hb.
Qed.

Lemma mask_tail_id fl : fl_wf fl -> mask_tail (fl_words fl) (total_pages fl) = fl_words fl.
Proof.
  intros [Ht Hw Hl Htail]. apply words_ext; [apply mask_tail_words; [lia|done]|done|apply mask_tail_length|].
  intros p Hp. rewrite mask_tail_bit by (done || lia).
  destruct (Z.ltb_spec p (total_pages fl)); [by rewrite andb_true_r|].
  rewrite andb_false_r. symmetry. apply Htail. lia.
Qed.

Lemma write_words_spec ws : forall i buf,
  0 <= i -> 8 * (i + zlen ws) <= zlen buf ->
  exists buf', write_words i ws buf = Some buf' /\ length buf' = length buf /\
    (forall k w, ws !! k = Some w -> slice ((i + Z.of_nat k) * 8) 8 buf' = Some (le_bytes 8 w)) /\
    (forall o l, o + l <= i * 8 -> slice o l buf' = slice o l buf).
Proof.
  induction ws as [|w ws IH]; intros i buf Hi Hl; cbn [write_words length] in *.
  { exists buf. split_and!; done. }
  pose proof (len_le_bytes 8 w ltac:(lia)) as Hle.
  destruct (blit_is_Some (i * 8) (le_bytes 8 w) buf) as [b1 Hb1]; [lia|lia|]. rewrite Hb1.
  pose proof (blit_inv _ _ _ _ Hb1) as (_ & _ & Hlen1).
  destruct (IH (i + 1) b1) as (b2 & Hw2 & Hlen2 & Hget & Hold); [lia|lia|].
  exists b2. split_and!; [done|lia| |].
  - intros [|k] x Hk.
    + injection Hk as <-. rewrite Hold by lia. rewrite <-(slice_blit_eq _ _ _ _ Hb1). f_equal; lia.
    + rewrite <-(Hget k x Hk). f_equal. lia.
  - intros o l Ho. rewrite Hold by lia. apply (slice_blit_ne _ _ _ _ _ _ Hb1). lia.
Qed.

Lemma mapM_lookup {A B} (f : A -> option B) (l : list A) (k : list B) :
  length l = length k ->
  (forall i x y, l !! i = Some x -> k !! i = Some y -> f x = Some y) -> mapM f l = Some k.
Proof.
  intros Hl H. apply mapM_Some. apply Forall2_same_length_lookup. split; [done|]. intros i x y. apply H.
Qed.

(** *** Contiguous runs *)

Section Runs.
Context (fl : FreeList) (n : Z).
Hypothesis Hwf : fl_wf fl.
Hypothesis Hn : 0 < n.

(** After scanning the pages below [p] without returning: the current run is the
    maximal free stretch ending at [p], shorter than [n], and no longer one exists. *)
Record run_inv (p run_start run_len : Z) : Prop := {
  ri_len : 0 <= run_len < n /\ run_len <= p;
  ri_start : run_len ≠ 0 -> run_start = p - run_len;
  ri_free : forall x, p - run_len <= x < p -> fl_bit fl x = true;
  ri_edge : 0 < p - run_len -> fl_bit fl (p - run_len - 1) = false;
  ri_none : forall a, 0 <= a -> a + n <= p -> exists x, a <= x < a + n /\ fl_bit fl x = false
}.

Definition is_run (s : Z) : Prop := 0 <= s /\ forall x, s <= x < s + n -> fl_bit fl x = true.

(** Extending the run by [k] free pages. *)
Lemma run_inv_free p rs rl k :
  run_inv p rs rl -> 0 < k -> (forall x, p <= x < p + k -> fl_bit fl x = true) ->
  let rs' := if rl =? 0 then p else rs in
  rs' = p - rl /\ (if n <=? rl + k then is_run rs' else run_inv (p + k) rs' (rl + k)).
Proof.
  intros [[Hl Hp] Hs Hf He Hnone] Hk Hfree rs'.
  assert (Hrs : rs' = p - rl) by (unfold rs'; destruct (Z.eqb_spec rl 0); [lia|auto]).
  split; [done|]. rewrite Hrs. destruct (Z.leb_spec n (rl + k)).
  - split; [lia|]. intros x Hx. destruct (decide (x < p)); [apply Hf|apply Hfree]; lia.
  - split; [lia|lia| | |].
    + intros x Hx. destruct (decide (x < p)); [apply Hf|apply Hfree]; lia.
    + intros Hpos. replace (p + k - (rl + k) - 1) with (p - rl - 1) by lia. apply He. lia.
    + intros a Ha Han. destruct (decide (a + n <= p)); [by apply Hnone|].
      exists (p - rl - 1). split; [lia|]. apply He. lia.
Qed.

(** [k] used pages end the run. *)
Lemma run_inv_used p rs rl rs' k :
  run_inv p rs rl -> 0 < k -> (forall x, p <= x < p + k -> fl_bit fl x = false) ->
  run_inv (p + k) rs' 0.
Proof.
  intros [[Hl Hp] Hs Hf He Hnone] Hk Hused. split; [lia|lia|lia| |].
  - intros _. apply Hused. lia.
  - intros a Ha Han. destruct (decide (a + n <= p)); [by apply Hnone|].
    exists (a + n - 1). split; [lia|]. apply Hused. lia.
Qed.

(** The bit loop over one word. *)
Lemma run_bits_spec k w : forall fuel b rs rl,
  fl_words fl !! k = Some w -> 0 <= b -> b + Z.of_nat fuel = 64 ->
  run_inv (64 * Z.of_nat k + b) rs rl ->
  match run_bits fuel n (total_pages fl) (Z.of_nat k * 64) w b rs rl with
  | inr s => is_run s
  | inl (rs', rl') => exists p, run_inv p rs' rl' /\
      (p = 64 * Z.of_nat k + 64 \/ p = total_pages fl /\ total_pages fl <= 64 * Z.of_nat k + 64)
  end.
Proof.
  intros fuel. induction fuel as [|f IH]; intros b rs rl Hk Hb Hfuel Hinv; cbn [run_bits].
  { exists (64 * Z.of_nat k + b). split; [done|]. left. lia. }
  assert (Hbit : fl_bit fl (64 * Z.of_nat k + b) = Z.testbit w b).
  { apply (bm_test_bit (mkBitmap (fl_words fl))); [done|lia]. }
  destruct (Z.leb_spec (total_pages fl) (Z.of_nat k * 64 + b)) as [Hle|Hlt].
  - destruct (decide (64 * Z.of_nat k + b = total_pages fl)) as [Heq|Hne].
    + exists (64 * Z.of_nat k + b). split; [done|]. right. lia.
    + destruct (decide (rl = 0)) as [->|Hrl].
      * exists (64 * Z.of_nat k + 64). split; [|by left].
        replace (64 * Z.of_nat k + 64) with (64 * Z.of_nat k + b + (64 - b)) by lia.
        eapply run_inv_used; [done|lia|]. intros x Hx. apply (fw_tail _ Hwf). lia.
      * exfalso. pose proof (ri_len _ _ _ Hinv).
        pose proof (ri_free _ _ _ Hinv (64 * Z.of_nat k + b - 1) ltac:(lia)) as Hf.
        rewrite (fw_tail _ Hwf) in Hf; [done|lia].
  - rewrite shr_bit by lia. destruct (Z.testbit w b) eqn:Ht.
    + replace (Z.of_nat k * 64 + b) with (64 * Z.of_nat k + b) by lia.
      destruct (run_inv_free _ _ _ 1 Hinv ltac:(lia)) as [Hrs Hnext].
      { intros x Hx. by replace x with (64 * Z.of_nat k + b) by lia. }
      destruct (Z.leb_spec n (rl + 1)); [done|].
      apply IH; [done|lia|lia|]. by rewrite Z.add_assoc.
    + apply IH; [done|lia|lia|]. rewrite Z.add_assoc.
      eapply run_inv_used; [done|lia|]. intros x Hx. by replace x with (64 * Z.of_nat k + b) by lia.
Qed.

Lemma run_words_spec ws : forall k rs rl,
  drop k (fl_words fl) = ws -> run_inv (64 * Z.of_nat k) rs rl ->
  match run_words n (total_pages fl) (Z.of_nat k) ws rs rl with
  | Some s => is_run s
  | None => forall a, 0 <= a -> a + n <= total_pages fl -> exists x, a <= x < a + n /\ fl_bit fl x = false
  end.
Proof.
  pose proof Hwf as [Ht Hw Hl Htail]. pose proof (words_needed_bounds (total_pages fl) ltac:(lia)) as Hwn.
  induction ws as [|w ws IH]; intros k rs rl Hdrop Hinv; cbn [run_words].
  { intros a Ha Han. apply (ri_none _ _ _ Hinv); [done|].
    assert (length (fl_words fl) <= k)%nat by (apply drop_nil_inv in Hdrop; done). lia. }
  assert (Hk : fl_words fl !! k = Some w).
  { rewrite <-(Nat.add_0_r k), <-lookup_drop, Hdrop. done. }
  assert (Hrest : drop (S k) (fl_words fl) = ws).
  { by rewrite <-Nat.add_1_r, <-drop_drop, Hdrop. }
  assert (Hlt := lookup_lt_Some _ _ _ Hk).
  assert (Hb : forall x, 64 * Z.of_nat k <= x < 64 * Z.of_nat k + 64 -> fl_bit fl x = Z.testbit w (x - 64 * Z.of_nat k)).
  { intros x Hx. rewrite <-(bm_test_bit (mkBitmap (fl_words fl)) k (x - 64 * Z.of_nat k) w Hk ltac:(lia)).
    unfold fl_bit. f_equal. lia. }
  specialize (IH (S k)). replace (Z.of_nat k + 1) with (Z.of_nat (S k)) by lia.
  destruct (Z.eqb_spec w U64_MAX) as [->|Hmax]; [|destruct (Z.eqb_spec w 0) as [->|Hz]].
  - assert (Hall : forall x, 64 * Z.of_nat k <= x < 64 * Z.of_nat k + 64 -> fl_bit fl x = true).
    { intros x Hx. rewrite Hb, testbit_U64_MAX by lia. apply bool_decide_eq_true_2. lia. }
    replace (Z.of_nat k * 64) with (64 * Z.of_nat k) by lia.
    destruct (run_inv_free _ _ _ 64 Hinv ltac:(lia) Hall) as [Hrs Hnext].
    rewrite Hrs in *. destruct (decide (64 * Z.of_nat k + 64 <= total_pages fl)).
    + rewrite Z.min_l by lia. replace (64 * Z.of_nat k - rl + (rl + 64) - (64 * Z.of_nat k - rl)) with (rl + 64) by lia.
      destruct (Z.leb_spec n (rl + 64)); [done|]. apply IH; [done|].
      replace (64 * Z.of_nat (S k)) with (64 * Z.of_nat k + 64) by lia. done.
    + exfalso. specialize (Hall (64 * Z.of_nat k + 63) ltac:(lia)). rewrite Htail in Hall; [done|lia].
  - apply IH; [done|]. replace (64 * Z.of_nat (S k)) with (64 * Z.of_nat k + 64) by lia.
    eapply run_inv_used; [done|lia|]. intros x Hx. by rewrite Hb, Z.bits_0 by lia.
  - pose proof (run_bits_spec k w 64 0 rs rl Hk ltac:(lia) ltac:(lia)) as Hbits.
    rewrite Z.add_0_r in Hbits. specialize (Hbits Hinv).
    destruct (run_bits _ _ _ _ _ _ _ _) as [[rs' rl']|s]; [|done].
    destruct Hbits as (p & Hp & [->|[-> Hend]]).
    + apply IH; [done|]. by replace (64 * Z.of_nat (S k)) with (64 * Z.of_nat k + 64) by lia.
    + assert (ws = []) as ->.
      { apply length_zero_iff_nil. rewrite <-Hrest, length_drop. lia. }
      cbn [run_words]. apply (ri_none _ _ _ Hp).
Qed.

Lemma find_run_spec :
  match find_contiguous_run fl n with
  | Some s => is_run s
  | None => forall a, 0 <= a -> a + n <= total_pages fl -> exists x, a <= x < a + n /\ fl_bit fl x = false
  end.
Proof.
  unfold find_contiguous_run. rewrite (proj2 (Z.eqb_neq n 0)) by lia.
  apply (run_words_spec _ 0); [done|]. split; lia.
Qed.
End Runs.

(** *** Batches *)

Lemma fl_alloc_wf fl : fl_wf fl -> fl_wf (fl_alloc fl).2 /\ total_pages (fl_alloc fl).2 = total_pages fl.
Proof.
  intros Hwf. pose proof (fl_alloc_spec fl Hwf) as H.
  destruct (fl_alloc fl) as [[p|] fl']; [|by destruct H as [-> _]].
  destruct H as (Hp & _ & ->). split; [|done]. apply fl_clear_wf; [done|].
  by apply free_set_bound.
Qed.

Lemma alloc_loop_spec n : forall fl,
  fl_wf fl ->
  let '(out, fl') := alloc_loop n fl in
  fl_wf fl' /\ NoDup out /\ list_to_set out ⊆ free_set fl /\
  free_set fl' = free_set fl ∖ list_to_set out /\ length out = Nat.min n (size (free_set fl)).
Proof.
  induction n as [|n IH]; intros fl Hwf; cbn [alloc_loop].
  { split_and!; [done|constructor|set_solver|set_solver|done]. }
  pose proof (fl_alloc_wf fl Hwf) as [Hwf' _]. pose proof (fl_alloc_spec fl Hwf) as Hsp.
  destruct (fl_alloc fl) as [[p|] fl1]; cbn [snd] in *.
  - destruct Hsp as (Hp & _ & ->). specialize (IH _ Hwf').
    destruct (alloc_loop n (fl_clear fl p)) as [out fl2].
    pose proof (free_set_bound fl p Hwf Hp).
    destruct IH as (H1 & H2 & H3 & H4 & H5). rewrite free_set_clear in * by lia.
    split_and!; [done| | | |].
    + constructor; [|done]. intros Hin. assert (p ∈ free_set fl ∖ {[p]}); set_solver.
    + set_solver.
    + rewrite H4. set_solver.
    + cbn [length]. rewrite H5, size_difference by set_solver. rewrite size_singleton.
      assert (size (free_set fl) ≠ 0)%nat; [|lia]. rewrite size_empty_iff. set_solver.
  - destruct Hsp as [-> Hempty]. rewrite Hempty.
    split_and!; [done|constructor|set_solver|set_solver|]. rewrite size_empty. cbn. lia.
Qed.

Definition run_free (fl : FreeList) (s n : Z) : Prop :=
  0 <= s /\ forall x, s <= x < s + n -> x ∈ free_set fl.

Lemma find_run_set fl n :
  fl_wf fl -> 0 < n ->
  match find_contiguous_run fl n with
  | Some s => run_free fl s n
  | None => ~ exists s, run_free fl s n
  end.
Proof.
  intros Hwf Hn. pose proof (find_run_spec fl n Hwf Hn) as H.
  destruct (find_contiguous_run fl n) as [s|].
  - destruct H as [Hs Hb]. split; [done|]. intros x Hx. apply elem_of_free_set. split; [lia|auto].
  - intros (s & Hs & Hall). pose proof (free_set_bound fl _ Hwf (Hall (s + n - 1) ltac:(lia))).
    destruct (H s Hs ltac:(lia)) as (x & Hx & Hb). specialize (Hall x Hx).
    apply elem_of_free_set in Hall as [_ ?]. congruence.
Qed.

(** ** Properties *)

(** The bitmap implements a set of free pages.  [alloc] takes the least free page,
    or reports that there is none and changes nothing; [free] adds a page, or reports a
    double free or an unknown page and changes nothing; [is_free] and [free_count] are
    membership and cardinality.  None of them panics on a well-formed list. *)
Theorem free_list_refines_set fl :
  fl_wf fl ->
  (match fl_alloc fl with
   | (Some p, fl') => p ∈ free_set fl /\ (forall p', p' ∈ free_set fl -> p <= p') /\
       free_set fl' = free_set fl ∖ {[p]} /\ fl_wf fl'
   | (None, fl') => free_set fl = ∅ /\ fl' = fl
   end) /\
  (forall p, 0 <= p ->
     if decide (total_pages fl <= p) then fl_free fl p = Some (Err (PageNotFound p), fl)
     else if decide (p ∈ free_set fl) then fl_free fl p = Some (Err (DoubleFree p), fl)
     else exists fl', fl_free fl p = Some (Ok tt, fl') /\ fl_wf fl' /\
            free_set fl' = {[p]} ∪ free_set fl) /\
  (forall p, 0 <= p -> is_free fl p = Some (bool_decide (p ∈ free_set fl))) /\
  free_count fl = Z.of_nat (size (free_set fl)).
Proof.
  intros Hwf. refine (conj _ (conj _ (conj _ _))).
  - pose proof (fl_alloc_spec fl Hwf) as H. destruct (fl_alloc fl) as [[p|] fl']; [|tauto].
    destruct H as (Hp & Hmin & ->). pose proof (free_set_bound fl p Hwf Hp).
    split_and!; [done|done|apply free_set_clear; lia|apply fl_clear_wf; [done|lia]].
  - intros p Hp. case_decide as Hle.
    + unfold fl_free. by rewrite (proj2 (Z.leb_le _ _) Hle).
    + rewrite fl_free_cases by (done || lia). case_decide as Hin; rewrite elem_of_free_set in Hin.
      * by destruct Hin as [_ ->].
      * destruct (fl_bit fl p); [tauto|]. exists (fl_set fl p).
        split_and!; [done|apply fl_set_wf; [done|lia]|apply free_set_set; lia].
  - intros p Hp. destruct (decide (p < total_pages fl)).
    + rewrite is_free_bit by (done || lia). f_equal.
      destruct (fl_bit fl p) eqn:Hb; symmetry;
        [apply bool_decide_eq_true_2|apply bool_decide_eq_false_2]; rewrite elem_of_free_set;
        [done|intros [_ ?]; congruence].
    + unfold is_free. rewrite (proj2 (Z.leb_le _ _)) by lia. f_equal. symmetry.
      apply bool_decide_eq_false_2. intros Hin%free_set_bound; [lia|done].
  - apply (bm_count_size (mkBitmap (fl_words fl))).
Qed.

Lemma free_list_refines_set_witness :
  exists fl, fl_new 100 [0; 1] = Some fl /\ fl_wf fl /\
    (fl_alloc fl).1 = Some 2 /\ fl_free fl 1 ≠ None.
Proof.
  destruct (fl_new_spec 100 [0; 1]) as (fl & Hfl & Hwf & _); [vm_compute; split; congruence|repeat constructor; lia|].
  exists fl. split; [exact Hfl|]. split; [exact Hwf|].
  destruct (free_list_refines_set fl Hwf) as (_ & Hf & _). specialize (Hf 1 ltac:(lia)).
  vm_compute in Hfl. injection Hfl as <-. split; [vm_compute; reflexivity|].
  destruct (decide _); [by rewrite Hf|]. destruct (decide _); [by rewrite Hf|].
  destruct Hf as (fl' & -> & _). discriminate.
Defined.

(** A new free list has every page of its range free but the reserved ones, and
    [grow] adds exactly the new pages, keeping the state of the old ones; outside their
    preconditions both fail their assertion. *)
Theorem free_list_new_grow total reserved :
  0 <= total -> Forall (fun p => 0 <= p) reserved ->
  if decide (total <= BITMAP_CAPACITY) then
    exists fl, fl_new total reserved = Some fl /\ fl_wf fl /\ total_pages fl = total /\
      free_set fl = page_range 0 total ∖ list_to_set reserved /\
      forall new_total,
        if decide (total < new_total <= BITMAP_CAPACITY) then
          exists fl', grow fl new_total = Some fl' /\ fl_wf fl' /\ total_pages fl' = new_total /\
            free_set fl' = free_set fl ∪ page_range total new_total
        else grow fl new_total = None
  else fl_new total reserved = None.
Proof.
  intros Ht Hres. case_decide.
  - destruct (fl_new_spec total reserved) as (fl & Hfl & Hwf & Htot & Hset); [lia|done|].
    exists fl. split_and!; try done. intros new_total. case_decide.
    + rewrite <-Htot. apply grow_spec; [done|]. by rewrite Htot.
    + unfold grow. rewrite Htot.
      destruct (Z.ltb_spec total new_total), (Z.leb_spec new_total BITMAP_CAPACITY); try done. lia.
  - unfold fl_new. by rewrite (proj2 (Z.leb_gt _ _)) by lia.
Qed.

Lemma free_list_new_grow_witness :
  0 <= 10 /\ Forall (fun p => 0 <= p) [0] /\ exists fl, fl_new 10 [0] = Some fl /\ fl_wf fl.
Proof.
  assert (H0 : 0 <= 10) by lia. assert (H1 : Forall (fun p => 0 <= p) [0]) by (repeat constructor; lia).
  split; [exact H0|]. split; [exact H1|].
  pose proof (free_list_new_grow 10 [0] H0 H1) as H.
  destruct (decide (10 <= BITMAP_CAPACITY)) as [|Hn]; [|exfalso; apply Hn; vm_compute; congruence].
  destruct H as (fl & Hfl & Hwf & _). by exists fl.
Defined.

(** writing the bitmap into a page body and reading it back gives the same free
    list, whatever the body held before. *)
Theorem free_list_roundtrip fl buf :
  fl_wf fl -> BITMAP_BODY_BYTES <= zlen buf ->
  exists buf', fl_to_bytes fl buf = Some buf' /\ length buf' = length buf /\
    fl_from_bytes buf' (total_pages fl) = Some fl.
Proof.
  intros Hwf Hbuf. pose proof Hwf as [Ht Hw Hl _].
  pose proof (words_needed_bounds (total_pages fl) ltac:(lia)) as Hn.
  unfold fl_to_bytes. rewrite (proj2 (Z.leb_le _ _) Hbuf).
  assert (Hz : zlen (replicate (Z.to_nat BITMAP_BODY_BYTES) 0) = BITMAP_BODY_BYTES)
    by (rewrite length_replicate; done).
  destruct (blit_is_Some 0 (replicate (Z.to_nat BITMAP_BODY_BYTES) 0) buf) as [b1 Hb1]; [lia|lia|].
  rewrite Hb1. destruct (blit_inv _ _ _ _ Hb1) as (_ & _ & Hl1).
  unfold BITMAP_CAPACITY, BITMAP_BODY_BYTES, PAGE_SIZE, HEADER_SIZE in *.
  destruct (write_words_spec (fl_words fl) 0 b1) as (b2 & Hw2 & Hl2 & Hget & _); [lia|lia|].
  exists b2. split; [done|]. split; [lia|].
  unfold fl_from_bytes, BITMAP_CAPACITY, BITMAP_BODY_BYTES, PAGE_SIZE, HEADER_SIZE.
  rewrite (proj2 (Z.leb_le (16384 - 64) _)), (proj2 (Z.leb_le (total_pages fl) _)) by lia. cbn [andb].
  rewrite (mapM_lookup _ _ (fl_words fl)).
  - by rewrite mask_tail_id; [destruct fl|].
  - rewrite length_seqZ. lia.
  - intros i x w Hi Hx. apply lookup_seqZ in Hi as [-> Hi]. rewrite (Hget i w Hx). cbn.
    f_equal. apply le_val_le_bytes; [lia|]. by eapply Forall_lookup_1 in Hw.
Qed.

Lemma free_list_roundtrip_witness :
  exists fl, fl_new 100 [0; 1] = Some fl /\ exists buf',
    fl_to_bytes fl (replicate (Z.to_nat BITMAP_BODY_BYTES) 7) = Some buf' /\
    fl_from_bytes buf' (total_pages fl) = Some fl.
Proof.
  destruct (fl_new_spec 100 [0; 1]) as (fl & Hfl & Hwf & _); [vm_compute; split; congruence|repeat constructor; lia|].
  exists fl. split; [exact Hfl|].
  destruct (free_list_roundtrip fl (replicate (Z.to_nat BITMAP_BODY_BYTES) 7) Hwf) as (buf' & H1 & _ & H2).
  { rewrite length_replicate. vm_compute. congruence. }
  by exists buf'.
Defined.

(** the word-at-a-time search for a run of [n] free pages is exact: a reported run
    is free, and none is reported only if none exists. *)
Theorem find_contiguous_run_correct fl n :
  fl_wf fl -> 0 < n ->
  match find_contiguous_run fl n with
  | Some s => run_free fl s n
  | None => ~ exists s, run_free fl s n
  end.
Proof. apply find_run_set. Qed.

Lemma find_contiguous_run_correct_witness :
  exists fl, fl_wf fl /\ find_contiguous_run fl 70 = Some 12 /\ run_free fl 12 70.
Proof.
  destruct (fl_new_spec 200 [0; 11]) as (fl & Hfl & Hwf & _); [vm_compute; split; congruence|repeat constructor; lia|].
  exists fl. split; [exact Hwf|]. pose proof (find_contiguous_run_correct fl 70 Hwf ltac:(lia)) as H.
  assert (Hr : find_contiguous_run fl 70 = Some 12) by (vm_compute in Hfl; injection Hfl as <-; vm_compute; reflexivity).
  rewrite Hr in H. by split.
Defined.

(** a batch allocation returns distinct free pages, as many as were asked for or
    all there are, consecutive whenever such a run exists, and removes exactly those
    from the free set. *)
Theorem alloc_batch_correct fl n :
  fl_wf fl -> 0 <= n ->
  exists out fl', alloc_batch_sequential fl n = Some (out, fl') /\ fl_wf fl' /\
    NoDup out /\ list_to_set out ⊆ free_set fl /\
    free_set fl' = free_set fl ∖ list_to_set out /\
    zlen out = Z.min n (Z.of_nat (size (free_set fl))) /\
    ((exists s, run_free fl s n) -> exists s, out = seqZ s n).
Proof.
  intros Hwf Hn. unfold alloc_batch_sequential. destruct (Z.eqb_spec n 0) as [->|Hnz].
  { exists [], fl. split_and!; [done|done|constructor|set_solver|set_solver|cbn; lia|].
    intros _. by exists 0. }
  pose proof (find_run_set fl n Hwf ltac:(lia)) as Hrun.
  destruct (find_contiguous_run fl n) as [s|].
  - destruct Hrun as [Hs Hall].
    destruct (mark_all_used_spec (seqZ s n) fl Hwf) as (fl' & -> & Hwf' & Ht & Hset).
    { apply Forall_seqZ. intros. lia. }
    assert (Hsub : list_to_set (seqZ s n) ⊆ free_set fl).
    { intros x. rewrite elem_of_list_to_set, elem_of_seqZ. auto. }
    exists (seqZ s n), fl'. split_and!; [done|done|apply NoDup_seqZ|done|done| |by eexists].
    apply subseteq_size in Hsub. rewrite size_list_to_set in Hsub by apply NoDup_seqZ.
    rewrite length_seqZ in *. lia.
  - pose proof (alloc_loop_spec (Z.to_nat n) fl Hwf) as H.
    destruct (alloc_loop (Z.to_nat n) fl) as [out fl']. destruct H as (H1 & H2 & H3 & H4 & H5).
    exists out, fl'. split_and!; try done. lia.
Qed.

Lemma alloc_batch_correct_witness :
  exists fl, fl_wf fl /\ 0 <= 5 /\ exists out fl', alloc_batch_sequential fl 5 = Some (out, fl') /\ NoDup out.
Proof.
  destruct (fl_new_spec 200 [0; 3]) as (fl & Hfl & Hwf & _); [vm_compute; split; congruence|repeat constructor; lia|].
  exists fl. split; [exact Hwf|]. assert (H0 : 0 <= 5) by lia. split; [exact H0|].
  destruct (alloc_batch_correct fl 5 Hwf H0) as (out & fl' & H1 & _ & H2 & _). by exists out, fl'.
Defined.
