(* ===== verification/Heap.v ===== *)
(** * Heap pages

    crates/axiomdb-storage/src/heap.rs (and the snapshot type of
    crates/axiomdb-core/src/traits.rs): slotted pages with MVCC row headers.  Every
    operation acts on the bytes of the page; [None] is a panic (slice out of bounds or a
    misaligned [bytemuck] cast), and operations taking [&mut Page] return the page of
    the error paths as well. *)

From Stdlib Require Import Sorted.
From S2P Require Import Prelude Page.

(** ** Snapshots and row headers *)

Record TransactionSnapshot : Type := mkSnap {
  snapshot_id : Z;
  current_txn_id : Z;
  active_ids : gset Z
}.

Definition snap_committed (max_committed : Z) : TransactionSnapshot :=
  mkSnap (saturating_add64 max_committed 1) 0 ∅.
Definition snap_active (txn_id max_committed_at_start : Z) : TransactionSnapshot :=
  mkSnap (saturating_add64 max_committed_at_start 1) txn_id ∅.

Record RowHeader : Type := mkRow {
  txn_id_created : Z;
  txn_id_deleted : Z;
  row_version : Z;
  rh_flags : Z
}.

Definition is_visible (h : RowHeader) (snap : TransactionSnapshot) : bool :=
  let created_by_self :=
    negb (current_txn_id snap =? 0) && (txn_id_created h =? current_txn_id snap) in
  let created_committed :=
    (txn_id_created h <? snapshot_id snap)
    && negb (bool_decide (txn_id_created h ∈ active_ids snap)) in
  if negb created_by_self && negb created_committed then false
  else if txn_id_deleted h =? 0 then true
  else if negb (current_txn_id snap =? 0) && (txn_id_deleted h =? current_txn_id snap) then false
  else (snapshot_id snap <=? txn_id_deleted h)
       || bool_decide (txn_id_deleted h ∈ active_ids snap).

(** The [repr(C)] layout, 24 bytes. *)
Definition ROW_HEADER_SIZE : Z := 24.
Definition row_header_bytes (h : RowHeader) : bytes :=
  le_bytes 8 (txn_id_created h) ++ le_bytes 8 (txn_id_deleted h)
  ++ le_bytes 4 (row_version h) ++ le_bytes 4 (rh_flags h).
Definition row_header_of (bs : bytes) : RowHeader :=
  mkRow (get_le 0 8 bs) (get_le 8 8 bs) (get_le 16 4 bs) (get_le 20 4 bs).

(** ** Slots *)

Record SlotEntry : Type := mkSlot { s_offset : Z; s_length : Z }.
Definition SLOT_SIZE : Z := 4.

Definition is_dead (e : SlotEntry) : bool := (s_offset e =? 0) && (s_length e =? 0).

Definition num_slots (p : Page) : Z := hdr_item_count p.
Definition slot_abs_offset (i : Z) : Z := HEADER_SIZE + i * SLOT_SIZE.

Definition read_slot (p : Page) (i : Z) : option SlotEntry :=
  let! bs := slice (slot_abs_offset i) SLOT_SIZE p in
  Some (mkSlot (get_le 0 2 bs) (get_le 2 2 bs)).

Definition write_slot (p : Page) (i : Z) (e : SlotEntry) : option Page :=
  blit (slot_abs_offset i) (le_bytes 2 (s_offset e) ++ le_bytes 2 (s_length e)) p.

(** [(n + 7) & !7] *)
Definition align8 (n : Z) : Z := Z.land (n + 7) (not64 7).

(** The difference is not negative on a well-formed page. *)
Definition free_space (p : Page) : Z := hdr_free_end p - hdr_free_start p.

Definition invalid_slot (p : Page) (slot_id : Z) : DbError :=
  InvalidSlot (hdr_page_id p) slot_id (num_slots p).

(** ** Reading *)

(** [bytemuck::from_bytes::<RowHeader>] of the first 24 bytes, which panics on a slice
    that is too short or, the buffer being 64-byte aligned, at an offset that is not a
    multiple of 8; and the data after it. *)
Definition split_tuple (off : Z) (bs : bytes) : option (RowHeader * bytes) :=
  let! hb := slice 0 ROW_HEADER_SIZE bs in
  if negb (off mod 8 =? 0) then None
  else Some (row_header_of hb, drop (Z.to_nat ROW_HEADER_SIZE) bs).

Definition read_tuple (p : Page) (slot_id : Z) : option (Result (option (RowHeader * bytes))) :=
  if num_slots p <=? slot_id then Some (Err (invalid_slot p slot_id))
  else
    let! entry := read_slot p slot_id in
    if is_dead entry then Some (Ok None)
    else
      let! bs := slice (s_offset entry) (s_length entry) p in
      let! t := split_tuple (s_offset entry) bs in
      Some (Ok (Some t)).

Definition read_tuple_image (p : Page) (slot_id : Z) : option (Result (option bytes)) :=
  if num_slots p <=? slot_id then Some (Err (invalid_slot p slot_id))
  else
    let! entry := read_slot p slot_id in
    if is_dead entry then Some (Ok None)
    else
      let! bs := slice (s_offset entry) (s_length entry) p in
      Some (Ok (Some bs)).

(** The loop of [slot_capacity] over the other slots. *)
Fixpoint capacity_loop (p : Page) (slot_id start : Z) (others : list Z) (end_ : Z) : option Z :=
  match others with
  | [] => Some end_
  | other_slot :: others' =>
      if other_slot =? slot_id then capacity_loop p slot_id start others' end_
      else
        let! other := read_slot p other_slot in
        if is_dead other then capacity_loop p slot_id start others' end_
        else
          let other_off := s_offset other in
          capacity_loop p slot_id start others'
            (if (start <? other_off) && (other_off <? end_) then other_off else end_)
  end.

Definition slot_capacity (p : Page) (slot_id : Z) : option (Result Z) :=
  let n := num_slots p in
  if n <=? slot_id then Some (Err (invalid_slot p slot_id))
  else
    let! entry := read_slot p slot_id in
    if is_dead entry then Some (Err (AlreadyDeleted (hdr_page_id p) slot_id))
    else
      let start := s_offset entry in
      let! end_ := capacity_loop p slot_id start (seqZ 0 n) PAGE_SIZE in
      Some (Ok (end_ - start)).

Definition TXN_DELETED_OFFSET_IN_HEADER : Z := 8.

Definition read_tuple_header (p : Page) (slot_id : Z) : option (Result (option Z)) :=
  if num_slots p <=? slot_id then Some (Err (invalid_slot p slot_id))
  else
    let! entry := read_slot p slot_id in
    if is_dead entry then Some (Ok None)
    else
      let field_abs := s_offset entry + TXN_DELETED_OFFSET_IN_HEADER in
      let! bs := slice field_abs 8 p in
      Some (Ok (Some (le_val bs))).

(** [scan_visible] collected into a list. *)
Fixpoint scan_slots (p : Page) (snap : TransactionSnapshot) (slots : list Z)
    : option (list (Z * bytes)) :=
  match slots with
  | [] => Some []
  | slot_id :: slots' =>
      let! entry := read_slot p slot_id in
      if is_dead entry then scan_slots p snap slots'
      else
        let! bs := slice (s_offset entry) (s_length entry) p in
        let! t := split_tuple (s_offset entry) bs in
        if negb (is_visible t.1 snap) then scan_slots p snap slots'
        else let! rest := scan_slots p snap slots' in Some ((slot_id, t.2) :: rest)
  end.
Definition scan_visible (p : Page) (snap : TransactionSnapshot) : option (list (Z * bytes)) :=
  scan_slots p snap (seqZ 0 (num_slots p)).

(** ** Writing *)

Section Checksummed.
Context {C : Crc32c}.

Definition insert_tuple (p : Page) (data : bytes) (txn_id : Z) : option (Result Z * Page) :=
  let tuple_len_actual := ROW_HEADER_SIZE + zlen data in
  let tuple_len_alloc := align8 tuple_len_actual in
  let need := SLOT_SIZE + tuple_len_alloc in
  let avail := free_space p in
  if avail <? need then Some (Err (HeapPageFull (hdr_page_id p) need avail), p)
  else
    let new_free_end := hdr_free_end p - wrap16 tuple_len_alloc in
    let! p1 := blit new_free_end (row_header_bytes (mkRow txn_id 0 0 0)) p in
    let! p2 := blit (new_free_end + ROW_HEADER_SIZE) data p1 in
    let slot_id := hdr_item_count p2 in
    let! p3 := write_slot p2 slot_id (mkSlot new_free_end (wrap16 tuple_len_actual)) in
    let p4 := set_item_count (hdr_item_count p3 + 1) p3 in
    let p5 := set_free_start (hdr_free_start p4 + SLOT_SIZE) p4 in
    let p6 := set_free_end new_free_end p5 in
    Some (Ok slot_id, update_checksum p6).

Definition mark_deleted (p : Page) (slot_id txn_id : Z) : option (Result unit * Page) :=
  let p := clear_all_visible p in
  if num_slots p <=? slot_id then Some (Err (invalid_slot p slot_id), p)
  else
    let! entry := read_slot p slot_id in
    if is_dead entry then Some (Err (AlreadyDeleted (hdr_page_id p) slot_id), p)
    else
      let field_abs := s_offset entry + TXN_DELETED_OFFSET_IN_HEADER in
      let! p' := blit field_abs (le_bytes 8 txn_id) p in
      Some (Ok tt, p').

Definition delete_tuple (p : Page) (slot_id txn_id : Z) : option (Result unit * Page) :=
  let! r := mark_deleted p slot_id txn_id in
  match r with
  | (Ok _, p') => Some (Ok tt, update_checksum p')
  | (Err e, p') => Some (Err e, p')
  end.

Definition update_tuple (p : Page) (slot_id : Z) (new_data : bytes) (txn_id : Z)
    : option (Result Z * Page) :=
  let! r := delete_tuple p slot_id txn_id in
  match r with
  | (Ok _, p') => insert_tuple p' new_data txn_id
  | (Err e, p') => Some (Err e, p')
  end.

Definition mark_slot_dead (p : Page) (slot_id : Z) : option (Result unit * Page) :=
  if num_slots p <=? slot_id then Some (Err (invalid_slot p slot_id), p)
  else
    let! p' := write_slot p slot_id (mkSlot 0 0) in
    Some (Ok tt, update_checksum p').

Definition clear_deletion (p : Page) (slot_id : Z) : option (Result unit * Page) :=
  if num_slots p <=? slot_id then Some (Err (invalid_slot p slot_id), p)
  else
    let! entry := read_slot p slot_id in
    if is_dead entry then Some (Err (AlreadyDeleted (hdr_page_id p) slot_id), p)
    else
      let field_abs := s_offset entry + TXN_DELETED_OFFSET_IN_HEADER in
      let! bs := slice field_abs 8 p in
      if le_val bs =? 0 then Some (Ok tt, p)
      else
        let! p' := blit field_abs (le_bytes 8 0) p in
        Some (Ok tt, update_checksum p').

(** [raw[a..b].fill(0)], which panics when [b < a]. *)
Definition fill_zero (a b : Z) (p : Page) : option Page :=
  if a <=? b then blit a (replicate (Z.to_nat (b - a)) 0) p else None.

Definition try_rewrite_tuple_same_slot_no_checksum (p : Page) (slot_id : Z)
    (new_data : bytes) (txn_id : Z) : option (Result (option bytes) * Page) :=
  let p := clear_all_visible p in
  if num_slots p <=? slot_id then Some (Err (invalid_slot p slot_id), p)
  else
    let! entry := read_slot p slot_id in
    if is_dead entry then Some (Err (AlreadyDeleted (hdr_page_id p) slot_id), p)
    else
      let tuple_len_actual := ROW_HEADER_SIZE + zlen new_data in
      let tuple_len_alloc := align8 tuple_len_actual in
      let! rc := slot_capacity p slot_id in
      match rc with
      | Err e => Some (Err e, p)
      | Ok capacity =>
          if capacity <? tuple_len_alloc then Some (Ok None, p)
          else
            let off := s_offset entry in
            let! old_image := slice off (s_length entry) p in
            let! hb := slice 0 ROW_HEADER_SIZE old_image in
            let old_header := row_header_of hb in
            let new_header :=
              mkRow txn_id 0 (saturating_add32 (row_version old_header) 1) (rh_flags old_header) in
            let! p1 := blit off (row_header_bytes new_header) p in
            let! p2 := blit (off + ROW_HEADER_SIZE) new_data p1 in
            let! p3 := fill_zero (off + tuple_len_actual) (off + capacity) p2 in
            let! p4 := write_slot p3 slot_id (mkSlot off (wrap16 tuple_len_actual)) in
            Some (Ok (Some old_image), p4)
      end.

Definition rewrite_tuple_same_slot (p : Page) (slot_id : Z) (new_data : bytes) (txn_id : Z)
    : option (Result (option bytes) * Page) :=
  let! r := try_rewrite_tuple_same_slot_no_checksum p slot_id new_data txn_id in
  match r with
  | (Ok (Some image), p') => Some (Ok (Some image), update_checksum p')
  | r => Some r
  end.

Definition restore_tuple_image_no_checksum (p : Page) (slot_id : Z) (tuple_image : bytes)
    : option (Result unit * Page) :=
  if num_slots p <=? slot_id then Some (Err (invalid_slot p slot_id), p)
  else
    let! entry := read_slot p slot_id in
    if is_dead entry then Some (Err (AlreadyDeleted (hdr_page_id p) slot_id), p)
    else
      let! rc := slot_capacity p slot_id in
      match rc with
      | Err e => Some (Err e, p)
      | Ok capacity =>
          let needed := align8 (zlen tuple_image) in
          if capacity <? needed
          then Some (Err (RestoreDoesNotFit (hdr_page_id p) slot_id (zlen tuple_image) capacity), p)
          else
            let off := s_offset entry in
            let! p1 := blit off tuple_image p in
            let! p2 := fill_zero (off + zlen tuple_image) (off + capacity) p1 in
            let! p3 := write_slot p2 slot_id (mkSlot off (wrap16 (zlen tuple_image))) in
            Some (Ok tt, p3)
      end.

Definition restore_tuple_image (p : Page) (slot_id : Z) (tuple_image : bytes)
    : option (Result unit * Page) :=
  let! r := restore_tuple_image_no_checksum p slot_id tuple_image in
  match r with
  | (Ok _, p') => Some (Ok tt, update_checksum p')
  | (Err e, p') => Some (Err e, p')
  end.
End Checksummed.

(** ** Specifications *)

(** A tuple: live slots show their header and data, dead slots nothing. *)
Abbreviation Tuple := (option (RowHeader * bytes)).

(** What the bytes at a slot entry spell out. *)
Definition tuple_of (p : Page) (e : SlotEntry) : Tuple :=
  if is_dead e then None
  else
    let off := s_offset e in
    Some (mkRow (get_le off 8 p) (get_le (off + 8) 8 p) (get_le (off + 16) 4 p)
            (get_le (off + 20) 4 p),
          take (Z.to_nat (s_length e - 24)) (drop (Z.to_nat (off + 24)) p)).

Definition slot_at (p : Page) (i : Z) : SlotEntry :=
  mkSlot (get_le (64 + 4 * i) 2 p) (get_le (66 + 4 * i) 2 p).

(** The logical content of a heap page: the tuple of every slot. *)
Definition tuple_at (p : Page) (i : Z) : Tuple := tuple_of p (slot_at p i).

(** A live entry points to an aligned tuple in the tuple area. *)
Record live_ok (free_end : Z) (e : SlotEntry) : Prop := {
  lo_low : free_end <= s_offset e;
  lo_align : s_offset e mod 8 = 0;
  lo_len : 24 <= s_length e;
  lo_high : s_offset e + s_length e <= PAGE_SIZE
}.

(** The bytes of two tuples, padding included, do not overlap. *)
Definition apart (e1 e2 : SlotEntry) : Prop :=
  s_offset e1 + 8 * ((s_length e1 + 7) / 8) <= s_offset e2 \/
  s_offset e2 + 8 * ((s_length e2 + 7) / 8) <= s_offset e1.

Definition live (p : Page) (i : Z) : Prop :=
  0 <= i < num_slots p /\ is_dead (slot_at p i) = false.

Record heap_wf (p : Page) : Prop := {
  hw_page : page_ok p;
  hw_start : hdr_free_start p = 64 + 4 * num_slots p;
  hw_end : hdr_free_start p <= hdr_free_end p <= PAGE_SIZE /\ hdr_free_end p mod 8 = 0;
  hw_live : forall i, live p i -> live_ok (hdr_free_end p) (slot_at p i);
  hw_apart : forall i j, live p i -> live p j -> i ≠ j -> apart (slot_at p i) (slot_at p j)
}.

(** A heap page that [Page::from_bytes] accepts, its checksum aside. *)
Definition heap_page (p : Page) : Prop := heap_wf p /\ hdr_magic p = PAGE_MAGIC.

(** ** Small facts *)

Lemma align8_spec n : 0 <= n < 2 ^ 63 -> align8 n = 8 * ((n + 7) / 8).
Proof.
  intros Hn. unfold align8. replace (not64 7) with (U64_MAX - 7) by done.
  assert (Hdiv : 8 * ((n + 7) / 8) = ((n + 7) ≫ 3) ≪ 3).
  { rewrite Z.shiftl_mul_pow2, Z.shiftr_div_pow2 by lia. change (2 ^ 3) with 8. lia. }
  rewrite Hdiv. apply Z.bits_inj_iff'. intros i Hi.
  rewrite Z.land_spec, Z.shiftl_spec by lia.
  assert (Hm : 0 <= i < 64 -> Z.testbit (U64_MAX - 7) i = negb (i <? 3)).
  { intros H64. change (U64_MAX - 7) with (not64 7). rewrite testbit_not64 by done. f_equal.
    change 7 with (Z.ones 3). rewrite Z.testbit_ones_nonneg by lia. done. }
  destruct (decide (i < 64)).
  - rewrite Hm by lia. destruct (Z.ltb_spec i 3).
    + rewrite andb_false_r. symmetry. apply Z.testbit_neg_r. lia.
    + rewrite andb_true_r, Z.shiftr_spec by lia. f_equal. lia.
  - rewrite Z.shiftr_spec by lia. replace (i - 3 + 3) with i by lia.
    rewrite (u64_bits_high (n + 7)) by (widths || lia). done.
Qed.

Lemma align8_bounds n : n <= 8 * ((n + 7) / 8) < n + 8 /\ 8 * ((n + 7) / 8) mod 8 = 0.
Proof.
  pose proof (Z.div_mod (n + 7) 8 ltac:(lia)). pose proof (Z.mod_pos_bound (n + 7) 8 ltac:(lia)).
  split; [lia|]. by rewrite Z.mul_comm, Z.mod_mul.
Qed.

Lemma get_le_of_slice off len p bs o l :
  slice off len p = Some bs -> 0 <= o -> 0 <= l -> o + l <= len ->
  get_le o l bs = get_le (off + o) l p.
Proof.
  intros Hs Ho Hl Hle. pose proof (slice_inv _ _ _ _ Hs) as (H0 & H1 & H2 & H3).
  assert (Some (get_le o l bs) = Some (get_le (off + o) l p)) as [=]; [|done].
  rewrite <-!slice_get_le by lia. by rewrite (slice_slice _ _ _ _ o l Hs).
Qed.

Lemma read_slot_at p i : page_ok p -> 0 <= i -> 68 + 4 * i <= PAGE_SIZE -> read_slot p i = Some (slot_at p i).
Proof.
  intros [Hl _] Hi Hb. unfold read_slot, slot_abs_offset, HEADER_SIZE, SLOT_SIZE.
  destruct (slice_is_Some (64 + i * 4) 4 p) as [bs Hs]; [lia|lia|lia|]. rewrite Hs.
  rewrite !(get_le_of_slice _ _ _ _ _ _ Hs) by lia. unfold slot_at. do 3 f_equal; lia.
Qed.

Section Slots.
Context (p : Page).
Hypothesis Hwf : heap_wf p.

Lemma slot_in_page i : 0 <= i < num_slots p -> 68 + 4 * i <= PAGE_SIZE.
Proof. intros Hi. destruct Hwf as [_ Hs He _ _]. lia. Qed.

Lemma read_slot_wf i : 0 <= i < num_slots p -> read_slot p i = Some (slot_at p i).
Proof. intros Hi. apply read_slot_at; [apply Hwf|lia|by apply slot_in_page]. Qed.

Lemma num_slots_range : 0 <= num_slots p < 2 ^ 16.
Proof. destruct (hw_page _ Hwf) as [Hl Hb]. apply (get_le_range 10 2 p); page_range || done. Qed.

(** A live tuple reads as [tuple_of] says. *)
Lemma split_tuple_wf i bs :
  live p i -> slice (s_offset (slot_at p i)) (s_length (slot_at p i)) p = Some bs ->
  split_tuple (s_offset (slot_at p i)) bs = tuple_at p i.
Proof.
  intros Hi Hs. destruct (hw_live _ Hwf i Hi) as [Hlow Hal Hlen Hhigh].
  unfold tuple_at, tuple_of. rewrite (proj2 Hi).
  set (e := slot_at p i) in *. pose proof (slice_inv _ _ _ _ Hs) as (H0 & H1 & H2 & H3).
  unfold split_tuple, ROW_HEADER_SIZE. destruct (slice_is_Some 0 24 bs) as [hb Hhb]; [lia|lia|lia|].
  rewrite Hhb, (proj2 (Z.eqb_eq _ _) Hal). cbn [negb]. f_equal. f_equal.
  - unfold row_header_of. rewrite !(get_le_of_slice _ _ _ _ _ _ Hhb) by lia.
    rewrite !(get_le_of_slice _ _ _ _ _ _ Hs) by lia. f_equal; f_equal; lia.
  - rewrite slice_ok in Hs by lia. apply (inj Some) in Hs. subst bs.
    rewrite skipn_firstn_comm, drop_drop. f_equal; [lia|]. f_equal. lia.
Qed.

Lemma live_slice i :
  live p i -> exists bs, slice (s_offset (slot_at p i)) (s_length (slot_at p i)) p = Some bs.
Proof.
  intros Hi. destruct (hw_live _ Hwf i Hi) as [Hlow Hal Hlen Hhigh]. destruct (hw_page _ Hwf) as [Hl _].
  pose proof num_slots_range. destruct (hw_end _ Hwf). pose proof (hw_start _ Hwf).
  apply slice_is_Some; lia.
Qed.

Lemma read_tuple_wf i :
  0 <= i ->
  read_tuple p i = Some (if num_slots p <=? i then Err (invalid_slot p i) else Ok (tuple_at p i)).
Proof.
  intros Hi. unfold read_tuple. destruct (Z.leb_spec (num_slots p) i); [done|].
  rewrite read_slot_wf by lia. destruct (is_dead (slot_at p i)) eqn:Hd.
  - unfold tuple_at, tuple_of. by rewrite Hd.
  - assert (Hlive : live p i) by (split; [lia|done]).
    destruct (live_slice i Hlive) as [bs Hs]. rewrite Hs, (split_tuple_wf i bs Hlive Hs).
    unfold tuple_at, tuple_of. by rewrite Hd.
Qed.
End Slots.

(** ** Frames *)

Lemma tuple_of_slice p e bs :
  is_dead e = false -> 24 <= s_length e -> slice (s_offset e) (s_length e) p = Some bs ->
  tuple_of p e = Some (row_header_of bs, drop 24 bs).
Proof.
  intros Hd Hl Hs. pose proof (slice_inv _ _ _ _ Hs) as (H0 & H1 & H2 & H3).
  unfold tuple_of. rewrite Hd. f_equal. f_equal.
  - unfold row_header_of. rewrite !(get_le_of_slice _ _ _ _ _ _ Hs) by lia. f_equal; f_equal; lia.
  - rewrite slice_ok in Hs by lia. apply (inj Some) in Hs. subst bs.
    rewrite skipn_firstn_comm, drop_drop. f_equal; [lia|]. f_equal. lia.
Qed.

(** [p'] differs from [p] at most in the flag and checksum bytes, in the directory
    entry of slot [i] and in the bytes from [a] to [b]. *)
Definition outside (i a b k : Z) : Prop :=
  k < 9 \/ 10 <= k < 12 \/ 16 <= k < 64 + 4 * i \/ (68 + 4 * i <= k /\ (k < a \/ b <= k)).

Record confined (i a b : Z) (p p' : Page) : Prop := {
  cf_len : length p' = length p;
  cf_bytes : bytes_ok p -> bytes_ok p';
  cf_same : forall k : nat, outside i a b (Z.of_nat k) -> p' !! k = p !! k
}.

Lemma confined_refl i a b p : confined i a b p p.
Proof. by split. Qed.

Lemma confined_trans i a b p1 p2 p3 :
  confined i a b p1 p2 -> confined i a b p2 p3 -> confined i a b p1 p3.
Proof.
  intros [L1 B1 S1] [L2 B2 S2]. split; [congruence|auto|].
  intros k Hk. by rewrite S2, S1.
Qed.

Lemma confined_blit i a b off src p p' :
  0 <= i -> 68 + 4 * i <= a -> bytes_ok src -> blit off src p = Some p' ->
  a <= off /\ off + zlen src <= b \/ off = slot_abs_offset i /\ zlen src = 4 ->
  confined i a b p p'.
Proof.
  intros Hi Ha Hsrc Hb Hr. pose proof (blit_inv _ _ _ _ Hb) as (H0 & H1 & H2).
  split; [done|intros Hp; exact (blit_bytes_ok _ _ _ _ Hsrc Hp Hb)|].
  unfold outside, slot_abs_offset, HEADER_SIZE, SLOT_SIZE in *. intros k Hk.
  rewrite (blit_lookup _ _ _ _ _ Hb). apply decide_False. lia.
Qed.

Lemma confined_set_le i a b off n v p :
  0 <= i -> zlen p = PAGE_SIZE -> off = 9 /\ n = 1 \/ off = 12 /\ n = 4 ->
  confined i a b p (set_le off n v p).
Proof.
  intros Hi Hl Hr. split; [apply length_set_le; unfold PAGE_SIZE in *; lia|apply bytes_ok_set_le; lia|].
  intros k Hk. unfold outside, PAGE_SIZE in *. rewrite set_le_lookup by lia. apply decide_False. lia.
Qed.

Lemma confined_slice i a b p p' o l :
  confined i a b p p' -> 0 <= o -> (forall k, o <= k < o + l -> outside i a b k) ->
  slice o l p' = slice o l p.
Proof. intros [Hl _ Hs] Ho Hk. apply slice_ext; [done|]. intros k Hr. by apply Hs, Hk. Qed.

Lemma confined_get i a b p p' o l :
  confined i a b p p' -> 0 <= o -> 0 <= l -> o + l <= zlen p ->
  (forall k, o <= k < o + l -> outside i a b k) -> get_le o l p' = get_le o l p.
Proof.
  intros Hc Ho Hl Hlen Hk. assert (Some (get_le o l p') = Some (get_le o l p)) as [=]; [|done].
  rewrite <-!slice_get_le by (rewrite ?(cf_len _ _ _ _ _ Hc); lia).
  f_equal. by eapply confined_slice.
Qed.

(** No other tuple has bytes between the start of slot [i]'s tuple and [b]. *)
Record room (p : Page) (i b : Z) : Prop := {
  rm_b : s_offset (slot_at p i) <= b <= PAGE_SIZE;
  rm_other : forall j, live p j -> j ≠ i ->
    b <= s_offset (slot_at p j) \/
    s_offset (slot_at p j) + 8 * ((s_length (slot_at p j) + 7) / 8) <= s_offset (slot_at p i)
}.

Lemma confined_magic i a b p p' : page_ok p -> 0 <= i -> confined i a b p p' -> hdr_magic p' = hdr_magic p.
Proof.
  intros [Hl _] Hi Hc. eapply confined_get; [exact Hc|lia|lia|page_range|unfold outside; lia].
Qed.

(** The [_reserved] bytes of the header. *)
Definition reserved (p : Page) : option bytes := slice 36 28 p.

Lemma confined_reserved i a b p p' : 0 <= i -> confined i a b p p' -> reserved p' = reserved p.
Proof. intros Hi Hc. eapply confined_slice; [exact Hc|lia|unfold outside; lia]. Qed.

Section Update.
Context (p p' : Page) (i b : Z).
Hypothesis Hwf : heap_wf p.
Hypothesis Hi : live p i.
Hypothesis Hroom : room p i b.
Hypothesis Hconf : confined i (s_offset (slot_at p i)) b p p'.

Lemma confined_header :
  num_slots p' = num_slots p /\ hdr_free_start p' = hdr_free_start p /\
  hdr_free_end p' = hdr_free_end p /\ hdr_page_id p' = hdr_page_id p.
Proof.
  destruct (hw_page _ Hwf) as [Hl _]. destruct Hi as [Hi0 _].
  unfold num_slots, hdr_item_count, hdr_free_start, hdr_free_end, hdr_page_id.
  split_and!; (eapply confined_get; [exact Hconf|lia|lia|page_range|unfold outside; lia]).
Qed.

Lemma confined_slot_at j : 0 <= j < num_slots p -> j ≠ i -> slot_at p' j = slot_at p j.
Proof.
  intros Hj Hne. destruct (hw_page _ Hwf) as [Hl _]. destruct (hw_live _ Hwf i Hi) as [Hlow _ _ _].
  pose proof (hw_start _ Hwf). pose proof (hw_end _ Hwf). pose proof (slot_in_page p Hwf j Hj).
  unfold slot_at at 1 2. destruct Hi as [Hi0 _].
  f_equal; (eapply confined_get; [exact Hconf|lia|lia|unfold PAGE_SIZE in *; lia|unfold outside; lia]).
Qed.

Lemma confined_tuple_at j : 0 <= j < num_slots p -> j ≠ i -> tuple_at p' j = tuple_at p j.
Proof.
  intros Hj Hne. unfold tuple_at. rewrite confined_slot_at by done.
  destruct (is_dead (slot_at p j)) eqn:Hd; [unfold tuple_of; by rewrite Hd|].
  assert (Hlj : live p j) by done. destruct (live_slice p Hwf j Hlj) as [bs Hs].
  pose proof (hw_live _ Hwf j Hlj) as [Hlow _ Hlen _]. pose proof (hw_live _ Hwf i Hi) as [Hlowi _ _ _].
  pose proof (hw_start _ Hwf). pose proof (hw_end _ Hwf).
  assert (Hs' : slice (s_offset (slot_at p j)) (s_length (slot_at p j)) p' = Some bs).
  { rewrite <-Hs. eapply confined_slice; [exact Hconf|lia|]. intros k Hk.
    pose proof (align8_bounds (s_length (slot_at p j))).
    destruct (rm_other _ _ _ Hroom j Hlj Hne); unfold outside; destruct Hi as [Hi0 _]; lia. }
  by rewrite !(tuple_of_slice _ _ bs).
Qed.

Lemma confined_wf :
  is_dead (slot_at p' i) = true \/
  (s_offset (slot_at p' i) = s_offset (slot_at p i) /\ 24 <= s_length (slot_at p' i) /\
   s_offset (slot_at p i) + 8 * ((s_length (slot_at p' i) + 7) / 8) <= b) ->
  heap_wf p'.
Proof.
  intros He. destruct confined_header as (Hn & Hfs & Hfe & _). destruct Hwf as [Hp Hs Hend Hlive Hap].
  assert (Hcase : forall j, live p' j -> j = i \/ live p j /\ slot_at p' j = slot_at p j).
  { intros j [Hj Hd]. destruct (decide (j = i)); [by left|right]. rewrite Hn in Hj.
    rewrite confined_slot_at in * by done. done. }
  pose proof (hw_live _ Hwf i Hi) as [Hlowi Hali Hleni Hhighi].
  assert (Hme : live p' i -> s_offset (slot_at p' i) = s_offset (slot_at p i) /\ 24 <= s_length (slot_at p' i) /\
    s_offset (slot_at p i) + 8 * ((s_length (slot_at p' i) + 7) / 8) <= b).
  { intros [_ Hd]. destruct He; [congruence|done]. }
  assert (Hnew : forall j, live p j -> j ≠ i -> live p' i -> apart (slot_at p' i) (slot_at p j)).
  { intros j Hj Hne Hi'. destruct (Hme Hi') as (Ho & Hl & Hb). unfold apart. rewrite Ho.
    destruct (rm_other _ _ _ Hroom j Hj Hne); [left|right]; lia. }
  split; rewrite ?Hfs, ?Hfe, ?Hn; [|done|done| |].
  - destruct Hp as [Hl Hb]. split; [rewrite (cf_len _ _ _ _ _ Hconf); done|by apply (cf_bytes _ _ _ _ _ Hconf)].
  - intros j Hj. destruct (Hcase j Hj) as [->|[Hj' ->]]; [|by apply Hlive].
    destruct (Hme Hj) as (Ho & Hl & Hb). pose proof (rm_b _ _ _ Hroom).
    pose proof (align8_bounds (s_length (slot_at p' i))). split; rewrite ?Ho; lia.
  - intros j k Hj Hk Hne. destruct (Hcase j Hj) as [->|[Hj' ->]], (Hcase k Hk) as [->|[Hk' ->]].
    + done.
    + by apply Hnew.
    + destruct (Hnew j Hj' ltac:(done) Hk); [by right|by left].
    + by apply Hap.
Qed.
End Update.

(** The tuple's own padded extent is always room. *)
Lemma own_room p i :
  heap_wf p -> live p i ->
  room p i (s_offset (slot_at p i) + 8 * ((s_length (slot_at p i) + 7) / 8)).
Proof.
  intros Hwf Hi. destruct (hw_live _ Hwf i Hi) as [Hlow Hal Hlen Hhigh].
  pose proof (align8_bounds (s_length (slot_at p i))).
  split.
  - unfold PAGE_SIZE in *.
    assert (exists k, s_offset (slot_at p i) = 8 * k) as [k Hk].
    { exists (s_offset (slot_at p i) / 8). by apply Z.div_exact. }
    lia.
  - intros j Hj Hne. by apply (hw_apart _ Hwf i j).
Qed.

(** ** Capacity *)

Lemma capacity_loop_spec p i others :
  heap_wf p -> forall e0,
  Forall (fun j => 0 <= j < num_slots p) others ->
  exists e1, capacity_loop p i (s_offset (slot_at p i)) others e0 = Some e1 /\ e1 <= e0 /\
    (forall j, j ∈ others -> live p j -> j ≠ i ->
       s_offset (slot_at p j) <= s_offset (slot_at p i) \/ e1 <= s_offset (slot_at p j)) /\
    (e1 = e0 \/ exists j, live p j /\ j ≠ i /\ s_offset (slot_at p i) < s_offset (slot_at p j) /\
       e1 = s_offset (slot_at p j)).
Proof.
  intros Hwf. induction others as [|k others IH]; intros e0 Hr; cbn [capacity_loop].
  { exists e0. split_and!; [done|lia| |by left]. intros j Hj. by apply not_elem_of_nil in Hj. }
  apply Forall_cons in Hr as [Hk Hr].
  assert (Hskip : forall e, (forall j, j = k -> live p j -> j ≠ i ->
      s_offset (slot_at p j) <= s_offset (slot_at p i) \/ e <= s_offset (slot_at p j)) ->
    e <= e0 -> (e = e0 \/ live p k /\ k ≠ i /\ s_offset (slot_at p i) < s_offset (slot_at p k) /\ e = s_offset (slot_at p k)) ->
    exists e1, capacity_loop p i (s_offset (slot_at p i)) others e = Some e1 /\ e1 <= e0 /\
    (forall j, j ∈ k :: others -> live p j -> j ≠ i ->
       s_offset (slot_at p j) <= s_offset (slot_at p i) \/ e1 <= s_offset (slot_at p j)) /\
    (e1 = e0 \/ exists j, live p j /\ j ≠ i /\ s_offset (slot_at p i) < s_offset (slot_at p j) /\
       e1 = s_offset (slot_at p j))).
  { intros e Hhd Hle Hor. destruct (IH e Hr) as (e1 & -> & H1 & H2 & H3). exists e1.
    split_and!; [done|lia| |].
    - intros j [->|Hj]%elem_of_cons Hlj Hne; [|by apply H2].
      destruct (Hhd k eq_refl Hlj Hne); [by left|right; lia].
    - destruct H3 as [->|H3]; [|by right]. destruct Hor as [->|?]; [by left|right; by exists k]. }
  destruct (Z.eqb_spec k i) as [->|Hne]; [apply Hskip; [done|lia|by left]|].
  rewrite read_slot_wf by done. destruct (is_dead (slot_at p k)) eqn:Hd.
  - apply Hskip; [|lia|by left]. intros j -> [_ ?]. congruence.
  - destruct (Z.ltb_spec (s_offset (slot_at p i)) (s_offset (slot_at p k)));
      destruct (Z.ltb_spec (s_offset (slot_at p k)) e0); cbn [andb];
      (apply Hskip; [intros j ->; lia|lia|]); try (by left).
    right. split_and!; [by split|done|lia|done].
Qed.

Lemma slot_capacity_spec p i :
  heap_wf p -> live p i ->
  exists cap, slot_capacity p i = Some (Ok cap) /\ room p i (s_offset (slot_at p i) + cap) /\
    8 * ((s_length (slot_at p i) + 7) / 8) <= cap.
Proof.
  intros Hwf Hi. pose proof Hi as [Hr Hd]. unfold slot_capacity.
  rewrite (proj2 (Z.leb_gt _ _)) by lia. rewrite read_slot_wf, Hd by done.
  destruct (capacity_loop_spec p i (seqZ 0 (num_slots p)) Hwf PAGE_SIZE) as (e1 & -> & Hle & Hall & Hex).
  { apply Forall_seqZ. intros. lia. }
  pose proof (own_room p i Hwf Hi) as [Hown _]. destruct (hw_live _ Hwf i Hi) as [_ _ Hlen _].
  pose proof (align8_bounds (s_length (slot_at p i))) as Hal.
  assert (Hside : forall j, live p j -> j ≠ i -> s_offset (slot_at p i) < s_offset (slot_at p j) ->
    s_offset (slot_at p i) + 8 * ((s_length (slot_at p i) + 7) / 8) <= s_offset (slot_at p j)).
  { intros j Hj Hne Hlt. pose proof (align8_bounds (s_length (slot_at p j))). pose proof (lo_len _ _ (hw_live _ Hwf j Hj)).
    destruct (hw_apart _ Hwf i j Hi Hj ltac:(done)); lia. }
  eexists. split; [reflexivity|].
  assert (s_offset (slot_at p i) + 8 * ((s_length (slot_at p i) + 7) / 8) <= e1).
  { destruct Hex as [->|(j & Hj & Hne & Hlt & ->)]; [lia|auto]. }
  split; [|lia]. split; [lia|]. intros j Hj Hne.
  destruct (Hall j) as [Hle'|Hge]; [apply elem_of_seqZ; pose proof (proj1 Hj); lia|done|done| |left; lia].
  right. destruct (hw_apart _ Hwf i j Hi Hj ltac:(done)); [lia|done].
Qed.

(** ** Reading around writes *)

Lemma get_le_blit_eq off n v p p' :
  0 <= n -> 0 <= v < 2 ^ (n * 8) -> blit off (le_bytes n v) p = Some p' -> get_le off n p' = v.
Proof.
  intros Hn Hv Hb. apply slice_blit_eq in Hb. rewrite len_le_bytes in Hb by done.
  rewrite (get_le_slice _ _ _ _ Hb). by apply le_val_le_bytes.
Qed.

Lemma slot_at_blit off src p p' j :
  blit off src p = Some p' -> 0 <= j -> 68 + 4 * j <= zlen p ->
  68 + 4 * j <= off \/ off + zlen src <= 64 + 4 * j ->
  slot_at p' j = slot_at p j.
Proof.
  intros Hb Hj Hl Hd. unfold slot_at. f_equal; (eapply get_le_blit_ne; [exact Hb|lia|lia|lia|lia]).
Qed.

Lemma slot_at_field off n v p j :
  page_ok p -> 0 <= off -> 0 <= n -> off + n <= 64 -> 0 <= j -> 68 + 4 * j <= PAGE_SIZE ->
  slot_at (set_le off n v p) j = slot_at p j.
Proof. intros. unfold slot_at. f_equal; apply field_ne; done || (unfold PAGE_SIZE in *; lia). Qed.

(** Writing a directory entry and reading it back. *)
Lemma write_slot_spec p i e :
  page_ok p -> 0 <= i -> 68 + 4 * i <= PAGE_SIZE -> in_u16 (s_offset e) -> in_u16 (s_length e) ->
  exists p', write_slot p i e = Some p' /\ slot_at p' i = e.
Proof.
  intros [Hl _] Hi Hb Ho He. unfold write_slot, slot_abs_offset, HEADER_SIZE, SLOT_SIZE.
  assert (Hlen : zlen (le_bytes 2 (s_offset e) ++ le_bytes 2 (s_length e)) = 4).
  { rewrite length_app, !length_le_bytes by lia. done. }
  destruct (blit_is_Some (64 + i * 4) (le_bytes 2 (s_offset e) ++ le_bytes 2 (s_length e)) p) as [p' Hp'];
    [lia|lia|]. exists p'. split; [done|].
  pose proof (slice_blit_eq _ _ _ _ Hp') as Hs. rewrite Hlen in Hs.
  unfold slot_at. replace (64 + 4 * i) with (64 + i * 4 + 0) by lia. replace (66 + 4 * i) with (64 + i * 4 + 2) by lia.
  rewrite <-!(get_le_of_slice _ _ _ _ _ _ Hs) by lia.
  destruct e as [o l]. cbn in *. f_equal.
  - rewrite (get_le_slice _ _ _ (le_bytes 2 o)); [by apply le_val_le_bytes|].
    apply slice_app_head. by rewrite len_le_bytes.
  - rewrite (get_le_slice _ _ _ (le_bytes 2 l)); [by apply le_val_le_bytes|].
    rewrite slice_app_r by (rewrite len_le_bytes; lia). rewrite len_le_bytes by lia.
    change (2 - 2) with 0. replace 2 with (zlen (le_bytes 2 l)) at 1 by (by rewrite len_le_bytes). apply slice_full.
Qed.

(** A header and data written one after the other read back as that tuple. *)
Definition row_header_ok (h : RowHeader) : Prop :=
  in_u64 (txn_id_created h) /\ in_u64 (txn_id_deleted h) /\ in_u32 (row_version h) /\ in_u32 (rh_flags h).

Lemma row_header_roundtrip h rest :
  row_header_ok h -> row_header_of (row_header_bytes h ++ rest) = h /\
  zlen (row_header_bytes h) = 24 /\ bytes_ok (row_header_bytes h).
Proof.
  intros (H1 & H2 & H3 & H4). unfold row_header_of, row_header_bytes.
  split_and!.
  - destruct h as [c d v f]. cbn in *. rewrite <-!app_assoc.
    pose proof (len_le_bytes 8 c ltac:(lia)). pose proof (len_le_bytes 8 d ltac:(lia)).
    pose proof (len_le_bytes 4 v ltac:(lia)). pose proof (len_le_bytes 4 f ltac:(lia)).
    f_equal.
    + rewrite (get_le_slice _ _ _ (le_bytes 8 c)); [by apply le_val_le_bytes|]. by apply slice_app_head.
    + rewrite (get_le_slice _ _ _ (le_bytes 8 d)); [by apply le_val_le_bytes|].
      rewrite slice_app_r by lia. rewrite H. by apply slice_app_head.
    + rewrite (get_le_slice _ _ _ (le_bytes 4 v)); [by apply le_val_le_bytes|].
      rewrite slice_app_r, H, slice_app_r, H0 by lia. by apply slice_app_head.
    + rewrite (get_le_slice _ _ _ (le_bytes 4 f)); [by apply le_val_le_bytes|].
      rewrite slice_app_r, H, slice_app_r, H0, slice_app_r, H5 by lia. by apply slice_app_head.
  - rewrite !length_app, !length_le_bytes by lia. done.
  - unfold bytes_ok. rewrite !Forall_app. split_and!; apply bytes_ok_le_bytes; lia.
Qed.

Lemma tuple_written p' off image h data len :
  slice off len p' = Some image -> image = row_header_bytes h ++ data -> row_header_ok h ->
  is_dead (mkSlot off len) = false ->
  tuple_of p' (mkSlot off len) = Some (h, data).
Proof.
  intros Hs -> Hh Hd. destruct (row_header_roundtrip h data Hh) as (Hr & Hl & _).
  pose proof (slice_inv _ _ _ _ Hs) as (_ & _ & _ & Hlen). rewrite length_app in Hlen.
  rewrite (tuple_of_slice _ _ (row_header_bytes h ++ data)); [|done|cbn; lia|done].
  rewrite Hr. by rewrite drop_app_length' by lia.
Qed.

(** Two adjacent blits write the concatenation. *)
Lemma slice_two_blits off a b p p1 p2 :
  blit off a p = Some p1 -> blit (off + zlen a) b p1 = Some p2 ->
  slice off (zlen a + zlen b) p2 = Some (a ++ b).
Proof.
  intros H1 H2. pose proof (blit_inv _ _ _ _ H1) as (Ha & Hb & Hl1). pose proof (blit_inv _ _ _ _ H2) as (Hc & Hd & Hl2).
  rewrite slice_ok by lia. f_equal.
  assert (E1 : slice off (zlen a) p2 = Some a).
  { rewrite (slice_blit_ne _ _ _ _ _ _ H2) by lia. by apply slice_blit_eq in H1. }
  assert (E2 : slice (off + zlen a) (zlen b) p2 = Some b) by by apply slice_blit_eq in H2.
  rewrite slice_ok in E1, E2 by lia. apply (inj Some) in E1, E2.
  replace (Z.to_nat (zlen a + zlen b)) with (length a + length b)%nat by lia.
  rewrite <-(take_drop (length a) (take _ _)). f_equal.
  - rewrite take_take. etransitivity; [|exact E1]. f_equal. lia.
  - rewrite skipn_firstn_comm, drop_drop. etransitivity; [|exact E2]. f_equal; [lia|]. f_equal. lia.
Qed.

(** ** Updates of one slot *)

(** [p'] is a well-formed page in which slot [i] shows [T] and nothing else changed. *)
Record updated (p p' : Page) (i : Z) (T : Tuple) : Prop := {
  up_wf : heap_wf p';
  up_n : num_slots p' = num_slots p;
  up_space : free_space p' = free_space p;
  up_self : tuple_at p' i = T;
  up_slots : forall j, 0 <= j < num_slots p -> j ≠ i -> slot_at p' j = slot_at p j;
  up_other : forall j, 0 <= j < num_slots p -> j ≠ i -> tuple_at p' j = tuple_at p j;
  up_off : is_dead (slot_at p' i) = false ->
    is_dead (slot_at p i) = false /\ s_offset (slot_at p' i) = s_offset (slot_at p i);
  up_magic : hdr_magic p' = hdr_magic p;
  up_reserved : reserved p' = reserved p
}.

(** Only the flag and checksum bytes differ. *)
Definition quiet (p p' : Page) : Prop := forall i a b, 0 <= i -> confined i a b p p'.

(** Only the flag, checksum and reserved bytes differ. *)
Record requiet (p p' : Page) : Prop := {
  rq_len : length p' = length p;
  rq_bytes : bytes_ok p -> bytes_ok p';
  rq_same : forall k : nat, Z.of_nat k < 9 \/ 10 <= Z.of_nat k < 12 \/ 16 <= Z.of_nat k < 36 \/ 64 <= Z.of_nat k ->
    p' !! k = p !! k
}.

Lemma quiet_requiet p p' : quiet p p' -> requiet p p'.
Proof.
  intros Hq. destruct (Hq 0 0 0 ltac:(lia)) as [Hl Hb _]. split; [done|done|].
  intros k Hk. apply (cf_same _ _ _ _ _ (Hq (Z.of_nat k) 0 0 ltac:(lia))). unfold outside. lia.
Qed.

Lemma requiet_set_le off n v p :
  zlen p = PAGE_SIZE -> 36 <= off -> 0 <= n -> off + n <= 64 -> requiet p (set_le off n v p).
Proof.
  intros Hl Ho Hn Hh. unfold PAGE_SIZE in *. split; [apply length_set_le; lia|apply bytes_ok_set_le; lia|].
  intros k Hk. rewrite set_le_lookup by lia. apply decide_False. lia.
Qed.

Lemma requiet_trans p1 p2 p3 : requiet p1 p2 -> requiet p2 p3 -> requiet p1 p3.
Proof. intros [L1 B1 S1] [L2 B2 S2]. split; [congruence|auto|]. intros k Hk. by rewrite S2, S1. Qed.

Lemma requiet_same p p' :
  heap_wf p -> requiet p p' ->
  heap_wf p' /\ num_slots p' = num_slots p /\ hdr_page_id p' = hdr_page_id p /\
  free_space p' = free_space p /\
  forall j, 0 <= j < num_slots p -> slot_at p' j = slot_at p j /\ tuple_at p' j = tuple_at p j.
Proof.
  intros Hwf Hq. pose proof (hw_page _ Hwf) as [Hl Hb].
  assert (Hget : forall o l, 0 <= o -> 0 <= l -> o + l <= PAGE_SIZE -> 64 <= o \/ 16 <= o /\ o + l <= 36 \/ 10 <= o /\ o + l <= 12 ->
    get_le o l p' = get_le o l p).
  { intros o l Ho Hle Hsz Hr. assert (Some (get_le o l p') = Some (get_le o l p)) as [=]; [|done].
    rewrite <-!slice_get_le by (rewrite ?(rq_len _ _ Hq); lia).
    f_equal. apply slice_ext; [apply Hq|]. intros k Hk. apply Hq. lia. }
  assert (Hsl : forall o l, 64 <= o -> o + l <= PAGE_SIZE -> slice o l p' = slice o l p).
  { intros o l Ho Hle. apply slice_ext; [apply Hq|]. intros k Hk. apply Hq. lia. }
  assert (Hslot : forall j, 0 <= j < num_slots p -> slot_at p' j = slot_at p j).
  { intros j Hj. pose proof (slot_in_page p Hwf j Hj). unfold slot_at. f_equal; apply Hget; lia. }
  assert (Hn : num_slots p' = num_slots p) by (apply Hget; unfold PAGE_SIZE; lia).
  assert (Hid : hdr_page_id p' = hdr_page_id p) by (apply Hget; unfold PAGE_SIZE; lia).
  assert (Hfs : hdr_free_start p' = hdr_free_start p) by (apply Hget; unfold PAGE_SIZE; lia).
  assert (Hfe : hdr_free_end p' = hdr_free_end p) by (apply Hget; unfold PAGE_SIZE; lia).
  assert (Hlive : forall j, live p' j -> live p j /\ slot_at p' j = slot_at p j).
  { intros j [Hj Hd]. rewrite Hn in Hj. rewrite Hslot in * by done. done. }
  split_and!; [|done|done|unfold free_space; congruence|].
  - destruct Hq as [Hl' Hb' _].
    split; rewrite ?Hfs, ?Hfe, ?Hn; [split; [by rewrite Hl'|auto]|apply Hwf|apply Hwf| |].
    + intros j [Hj ->]%Hlive. by apply Hwf.
    + intros j k [Hj ->]%Hlive [Hk ->]%Hlive. by apply Hwf.
  - intros j Hj. split; [by apply Hslot|]. unfold tuple_at. rewrite Hslot by done.
    destruct (is_dead (slot_at p j)) eqn:Hd; [unfold tuple_of; by rewrite Hd|].
    assert (Hlj : live p j) by done. destruct (live_slice p Hwf j Hlj) as [bs Hs].
    destruct (hw_live _ Hwf j Hlj) as [Hlow _ Hlen Hhigh]. pose proof (hw_start _ Hwf). pose proof (hw_end _ Hwf).
    by rewrite !(tuple_of_slice _ _ bs) by (done || rewrite Hsl; done || lia).
Qed.

Lemma quiet_same p p' :
  heap_wf p -> quiet p p' ->
  heap_wf p' /\ num_slots p' = num_slots p /\ hdr_page_id p' = hdr_page_id p /\
  free_space p' = free_space p /\
  forall j, 0 <= j < num_slots p -> slot_at p' j = slot_at p j /\ tuple_at p' j = tuple_at p j.
Proof. intros Hwf Hq. by apply requiet_same, quiet_requiet. Qed.

Lemma quiet_refl p : quiet p p.
Proof. intros i a b _. apply confined_refl. Qed.
Lemma quiet_trans p1 p2 p3 : quiet p1 p2 -> quiet p2 p3 -> quiet p1 p3.
Proof. intros H1 H2 i a b Hi. eapply confined_trans; [by apply H1|by apply H2]. Qed.
Lemma quiet_clear p : page_ok p -> quiet p (clear_all_visible p).
Proof. intros [Hl _] i a b Hi. apply confined_set_le; [done|done|by left]. Qed.
Lemma quiet_set p : page_ok p -> quiet p (set_all_visible p).
Proof. intros [Hl _] i a b Hi. apply confined_set_le; [done|done|by left]. Qed.
Lemma quiet_checksum {C : Crc32c} p : page_ok p -> quiet p (update_checksum p).
Proof. intros [Hl _] i a b Hi. apply confined_set_le; [done|done|by right]. Qed.

#[export] Hint Resolve quiet_refl quiet_clear quiet_set quiet_checksum hw_page : page.

Lemma confined_updated p p' i b T :
  heap_wf p -> live p i -> room p i b -> confined i (s_offset (slot_at p i)) b p p' ->
  is_dead (slot_at p' i) = true \/
  (s_offset (slot_at p' i) = s_offset (slot_at p i) /\ 24 <= s_length (slot_at p' i) /\
   s_offset (slot_at p i) + 8 * ((s_length (slot_at p' i) + 7) / 8) <= b) ->
  tuple_at p' i = T -> updated p p' i T.
Proof.
  intros Hwf Hi Hr Hc He HT. destruct (confined_header p p' i b Hwf Hi Hc) as (Hn & Hfs & Hfe & _).
  split; [by eapply confined_wf|done|unfold free_space; congruence|done|..].
  - intros j Hj Hne. by eapply confined_slot_at.
  - intros j Hj Hne. by eapply confined_tuple_at.
  - intros Hd. destruct He as [?|[? _]]; [congruence|]. split; [apply Hi|done].
  - eapply confined_magic; [apply Hwf|apply Hi|exact Hc].
  - eapply confined_reserved; [apply Hi|exact Hc].
Qed.

Lemma updated_quiet p p' p'' i T : 0 <= i < num_slots p -> updated p p' i T -> quiet p' p'' -> updated p p'' i T.
Proof.
  intros Hi [Hwf Hn Hsp Hs Hsl Ho Hoff Hm Hres] Hq. destruct (quiet_same p' p'' Hwf Hq) as (Hwf' & Hn' & _ & Hsp' & Hall).
  split; [done|congruence|congruence| | | |by rewrite (proj1 (Hall i ltac:(lia)))|
    rewrite <-Hm; by apply (confined_magic 0 0 0), Hq; [apply Hwf|..]|
    rewrite <-Hres; by apply (confined_reserved 0 0 0), Hq].
  - rewrite (proj2 (Hall i ltac:(lia))). done.
  - intros j Hj Hne. rewrite (proj1 (Hall j ltac:(lia))). by apply Hsl.
  - intros j Hj Hne. rewrite (proj2 (Hall j ltac:(lia))). by apply Ho.
Qed.

Definition set_deleted (t : Z) (r : RowHeader * bytes) : RowHeader * bytes :=
  (mkRow (txn_id_created r.1) t (row_version r.1) (rh_flags r.1), r.2).

(** Overwriting the deletion stamp of a live tuple. *)
Lemma stamp_updated p i t :
  heap_wf p -> live p i -> in_u64 t ->
  exists p', blit (s_offset (slot_at p i) + TXN_DELETED_OFFSET_IN_HEADER) (le_bytes 8 t) p = Some p' /\
    updated p p' i (set_deleted t <$> tuple_at p i).
Proof.
  intros Hwf Hi Ht. pose proof (hw_page _ Hwf) as [Hl Hb]. destruct (hw_live _ Hwf i Hi) as [Hlow Hal Hlen Hhigh].
  pose proof (hw_start _ Hwf). pose proof (hw_end _ Hwf). pose proof (len_le_bytes 8 t ltac:(lia)) as H8.
  pose proof (proj1 Hi) as Hi0. pose proof (slot_in_page p Hwf i Hi0) as Hip.
  unfold TXN_DELETED_OFFSET_IN_HEADER.
  destruct (blit_is_Some (s_offset (slot_at p i) + 8) (le_bytes 8 t) p) as [p' Hp']; [lia|lia|].
  exists p'. split; [done|]. pose proof (align8_bounds (s_length (slot_at p i))) as Hpad.
  assert (Hslot : slot_at p' i = slot_at p i) by (eapply slot_at_blit; [exact Hp'|lia|lia|lia]).
  eapply confined_updated; [done|done|by apply own_room| | |].
  - eapply confined_blit; [lia|lia|exact (bytes_ok_le_bytes 8 t ltac:(lia))|exact Hp'|]. lia.
  - right. rewrite Hslot. split_and!; [done|done|lia].
  - unfold tuple_at. rewrite Hslot. unfold tuple_of. rewrite (proj2 Hi).
    cbn [fmap option_fmap option_map set_deleted fst snd txn_id_created txn_id_deleted row_version rh_flags].
    set (off := s_offset (slot_at p i)) in *. set (len := s_length (slot_at p i)) in *.
    rewrite (get_le_blit_eq (off + 8) 8 t p p') by done.
    rewrite !(get_le_blit_ne _ _ _ _ _ _ Hp') by lia. do 2 f_equal.
    pose proof (slice_blit_ne _ _ _ _ (off + 24) (len - 24) Hp' ltac:(lia)) as Hd.
    pose proof (blit_inv _ _ _ _ Hp') as (_ & _ & Hl').
    rewrite !slice_ok in Hd by lia. apply (inj Some) in Hd. unfold set_deleted. cbn [fst snd].
    by rewrite Hd.
Qed.

Lemma live_tuple p i : heap_wf p -> 0 <= i < num_slots p -> tuple_at p i ≠ None <-> live p i.
Proof.
  intros Hwf Hi. unfold live, tuple_at, tuple_of. destruct (is_dead _); split; try done; try tauto.
  intros [_ ?]. done.
Qed.

Lemma live_Some p i : heap_wf p -> live p i -> exists u, tuple_at p i = Some u.
Proof.
  intros Hwf Hi. destruct (tuple_at p i) eqn:Hu; [by eexists|]. by apply live_tuple in Hi; [|done|apply Hi].
Qed.

(** Finishing a write of a whole tuple image: zero the rest, set the entry. *)
Lemma image_updated p p2 i cap image :
  heap_wf p -> live p i -> room p i (s_offset (slot_at p i) + cap) ->
  24 <= zlen image -> 8 * ((zlen image + 7) / 8) <= cap ->
  confined i (s_offset (slot_at p i)) (s_offset (slot_at p i) + cap) p p2 ->
  slice (s_offset (slot_at p i)) (zlen image) p2 = Some image ->
  exists p3 p4,
    fill_zero (s_offset (slot_at p i) + zlen image) (s_offset (slot_at p i) + cap) p2 = Some p3 /\
    write_slot p3 i (mkSlot (s_offset (slot_at p i)) (wrap16 (zlen image))) = Some p4 /\
    slot_at p4 i = mkSlot (s_offset (slot_at p i)) (zlen image) /\
    updated p p4 i (Some (row_header_of image, drop 24 image)).
Proof.
  intros Hwf Hi Hroom Hlen Hpad Hc Himg. destruct (hw_live _ Hwf i Hi) as [Hlow Hal Hleni Hhigh].
  pose proof (hw_start _ Hwf) as Hst. pose proof (hw_end _ Hwf) as Hen. pose proof (rm_b _ _ _ Hroom) as Hb.
  pose proof (proj1 Hi) as Hi0. pose proof (slot_in_page p Hwf i Hi0) as Hip.
  destruct (hw_page _ Hwf) as [Hl Hbytes]. pose proof (cf_len _ _ _ _ _ Hc) as Hl2.
  set (off := s_offset (slot_at p i)) in *. pose proof (align8_bounds (zlen image)) as Hal8.
  assert (Hw : wrap16 (zlen image) = zlen image).
  { unfold wrap16. apply Z.mod_small. unfold PAGE_SIZE in *. lia. }
  set (zs := replicate (Z.to_nat (off + cap - (off + zlen image))) 0).
  assert (Hzl : zlen zs = cap - zlen image) by (unfold zs; rewrite length_replicate; lia).
  assert (Hzs : bytes_ok zs) by (apply Forall_replicate; unfold byte_ok; lia).
  unfold fill_zero. rewrite (proj2 (Z.leb_le _ _)) by lia. fold zs.
  destruct (blit_is_Some (off + zlen image) zs p2) as [p3 Hp3]; [lia|lia|].
  assert (Hc3 : confined i off (off + cap) p p3).
  { eapply confined_trans; [exact Hc|]. eapply confined_blit; [lia|lia|exact Hzs|exact Hp3|lia]. }
  assert (Hok3 : page_ok p3).
  { split; [rewrite (cf_len _ _ _ _ _ Hc3); done|by apply (cf_bytes _ _ _ _ _ Hc3)]. }
  destruct (write_slot_spec p3 i (mkSlot off (zlen image))) as (p4 & Hp4 & Hslot);
    [done|lia|done|unfold PAGE_SIZE in *; cbn [s_offset s_length]; widths|unfold PAGE_SIZE in *; cbn [s_offset s_length]; widths|].
  exists p3, p4. rewrite Hw. split_and!; [done|done|done|].
  assert (Hsl : zlen (le_bytes 2 off ++ le_bytes 2 (zlen image)) = 4) by (rewrite length_app, !length_le_bytes by lia; done).
  assert (Himg4 : slice off (zlen image) p4 = Some image).
  { unfold write_slot, slot_abs_offset, HEADER_SIZE, SLOT_SIZE in Hp4. cbn [s_offset s_length] in Hp4.
    rewrite (slice_blit_ne _ _ _ _ _ _ Hp4) by lia. by rewrite (slice_blit_ne _ _ _ _ _ _ Hp3) by lia. }
  assert (Hlive : is_dead (mkSlot off (zlen image)) = false).
  { unfold is_dead. cbn. rewrite (proj2 (Z.eqb_neq (zlen image) 0)) by lia. apply andb_false_r. }
  eapply confined_updated; [done|done|exact Hroom| | |].
  - eapply confined_trans; [exact Hc3|].
    eapply confined_blit; [lia|lia| |exact Hp4|right; split; [done|exact Hsl]].
    apply Forall_app. split; apply bytes_ok_le_bytes; lia.
  - right. rewrite Hslot. cbn. fold off. split_and!; [done|done|lia].
  - unfold tuple_at. rewrite Hslot. by apply tuple_of_slice.
Qed.

(** Capacity only depends on where the live tuples start. *)
Lemma capacity_loop_ext p p' i start others : forall e0,
  Forall (fun j => read_slot p j ≠ None /\ read_slot p' j ≠ None /\
    (j ≠ i -> read_slot p' j = read_slot p j)) others ->
  capacity_loop p' i start others e0 = capacity_loop p i start others e0.
Proof.
  induction others as [|k others IH]; intros e0 Hf; cbn [capacity_loop]; [done|].
  apply Forall_cons in Hf as [(Hk1 & Hk2 & Hk) Hf].
  destruct (Z.eqb_spec k i); [by apply IH|]. rewrite Hk by done.
  destruct (read_slot p k) as [e|]; [|done]. destruct (is_dead e); by apply IH.
Qed.

Lemma slot_capacity_ext p p' i T :
  heap_wf p -> updated p p' i T -> live p i -> live p' i ->
  s_offset (slot_at p' i) = s_offset (slot_at p i) -> slot_capacity p' i = slot_capacity p i.
Proof.
  intros Hwf [Hwf' Hn _ _ Hsl _] [Hi Hd] [_ Hd'] Ho. unfold slot_capacity.
  rewrite Hn. destruct (Z.leb_spec (num_slots p) i); [lia|].
  rewrite !read_slot_wf, Hd, Hd', Ho by (done || lia). rewrite (capacity_loop_ext p p'); [done|].
  apply Forall_seqZ. intros j Hj. rewrite !read_slot_wf by (done || lia).
  split_and!; [done|done|]. intros Hne. f_equal. apply Hsl; [lia|done].
Qed.

(** A slot whose entry becomes dead, nothing else changing. *)
Lemma dead_updated p p' i :
  heap_wf p -> 0 <= i < num_slots p -> confined i PAGE_SIZE PAGE_SIZE p p' ->
  is_dead (slot_at p' i) = true -> updated p p' i None.
Proof.
  intros Hwf Hi Hc Hd. destruct (hw_page _ Hwf) as [Hl Hb]. pose proof (hw_start _ Hwf) as Hst.
  destruct (hw_end _ Hwf) as [Hen Hen8].
  assert (Hget : forall o l, 16 <= o /\ o + l <= 64 + 4 * i \/ 10 <= o /\ o + l <= 12 \/ 68 + 4 * i <= o /\ o + l <= PAGE_SIZE ->
    0 <= l -> get_le o l p' = get_le o l p).
  { intros o l Hr Hl0. eapply confined_get; [exact Hc|lia|lia|unfold PAGE_SIZE in *; lia|].
    intros k Hk. unfold outside, PAGE_SIZE in *. lia. }
  assert (Hn : num_slots p' = num_slots p) by (apply Hget; unfold PAGE_SIZE; lia).
  assert (Hfs : hdr_free_start p' = hdr_free_start p) by (apply Hget; unfold PAGE_SIZE; lia).
  assert (Hfe : hdr_free_end p' = hdr_free_end p) by (apply Hget; unfold PAGE_SIZE; lia).
  assert (Hslot : forall j, 0 <= j < num_slots p -> j ≠ i -> slot_at p' j = slot_at p j).
  { intros j Hj Hne. pose proof (slot_in_page p Hwf j Hj). unfold slot_at. f_equal; apply Hget; lia. }
  assert (Hlive : forall j, live p' j -> live p j /\ slot_at p' j = slot_at p j).
  { intros j [Hj Hdj]. rewrite Hn in Hj. assert (j ≠ i) by (intros ->; congruence).
    rewrite Hslot in * by done. done. }
  split; [|done|unfold free_space; congruence|unfold tuple_at, tuple_of; by rewrite Hd|done| |congruence|
    eapply confined_magic; [apply Hwf|apply Hi|exact Hc]|eapply confined_reserved; [apply Hi|exact Hc]].
  - split; rewrite ?Hfs, ?Hfe, ?Hn; [split; [by rewrite (cf_len _ _ _ _ _ Hc)|by apply (cf_bytes _ _ _ _ _ Hc)]|done|done| |].
    + intros j [Hj ->]%Hlive. by apply Hwf.
    + intros j k [Hj ->]%Hlive [Hk ->]%Hlive. by apply Hwf.
  - intros j Hj Hne. unfold tuple_at. rewrite Hslot by done.
    destruct (is_dead (slot_at p j)) eqn:Hdj; [unfold tuple_of; by rewrite Hdj|].
    assert (Hlj : live p j) by done. destruct (live_slice p Hwf j Hlj) as [bs Hs].
    destruct (hw_live _ Hwf j Hlj) as [Hlow _ Hlen Hhigh].
    assert (Hs' : slice (s_offset (slot_at p j)) (s_length (slot_at p j)) p' = Some bs).
    { rewrite <-Hs. eapply confined_slice; [exact Hc|lia|]. intros k Hk. unfold outside, PAGE_SIZE in *. lia. }
    by rewrite !(tuple_of_slice _ _ bs).
Qed.

(** ** Appending a tuple *)

(** The bytes of [insert_tuple] before the header bookkeeping. *)
Lemma insert_bytes p data t :
  heap_wf p -> bytes_ok data -> in_u64 t ->
  let L := 24 + zlen data in let A := 8 * ((L + 7) / 8) in
  4 + A <= free_space p ->
  let nfe := hdr_free_end p - A in
  exists p1 p2 p3,
    blit nfe (row_header_bytes (mkRow t 0 0 0)) p = Some p1 /\ blit (nfe + 24) data p1 = Some p2 /\
    hdr_item_count p2 = num_slots p /\ write_slot p2 (num_slots p) (mkSlot nfe L) = Some p3 /\
    page_ok p3 /\
    slot_at p3 (num_slots p) = mkSlot nfe L /\
    slice nfe L p3 = Some (row_header_bytes (mkRow t 0 0 0) ++ data) /\
    (forall o l, 0 <= o -> o + l <= 64 + 4 * num_slots p \/ hdr_free_end p <= o -> slice o l p3 = slice o l p).
Proof.
  intros Hwf Hd Ht L A Hfit nfe. destruct (hw_page _ Hwf) as [Hl Hb]. destruct (hw_end _ Hwf) as [He He8].
  pose proof (hw_start _ Hwf) as Hs. pose proof (num_slots_range p Hwf) as Hn. unfold free_space in Hfit.
  pose proof (align8_bounds L) as HA. fold A in HA. unfold PAGE_SIZE in He.
  assert (Hh : row_header_ok (mkRow t 0 0 0)) by (repeat split; cbn; widths).
  destruct (row_header_roundtrip _ data Hh) as (_ & Hhl & Hhb).
  destruct (blit_is_Some nfe (row_header_bytes (mkRow t 0 0 0)) p) as [p1 Hp1]; [lia|unfold PAGE_SIZE in *; lia|].
  pose proof (blit_inv _ _ _ _ Hp1) as (_ & _ & Hl1).
  destruct (blit_is_Some (nfe + 24) data p1) as [p2 Hp2]; [lia|unfold PAGE_SIZE in *; lia|].
  pose proof (blit_inv _ _ _ _ Hp2) as (_ & _ & Hl2).
  assert (Hok2 : page_ok p2).
  { eapply page_ok_blit; [exact Hd|eapply page_ok_blit; [exact Hhb|by split|exact Hp1]|exact Hp2]. }
  assert (Hn2 : hdr_item_count p2 = num_slots p).
  { unfold hdr_item_count. rewrite (get_le_blit_ne _ _ _ _ _ _ Hp2), (get_le_blit_ne _ _ _ _ _ _ Hp1) by (unfold PAGE_SIZE in *; lia). done. }
  destruct (write_slot_spec p2 (num_slots p) (mkSlot nfe L)) as (p3 & Hp3 & Hslot);
    [done|lia|unfold PAGE_SIZE; lia|cbn [s_offset]; widths|cbn [s_length]; widths|].
  exists p1, p2, p3. unfold write_slot, slot_abs_offset, HEADER_SIZE, SLOT_SIZE in *. cbn [s_offset s_length] in *.
  assert (Hsl : zlen (le_bytes 2 nfe ++ le_bytes 2 L) = 4) by (rewrite length_app, !length_le_bytes by lia; done).
  split_and!; [done|done|done|done| |done| |].
  - eapply page_ok_blit; [|exact Hok2|exact Hp3]. apply Forall_app. split; apply bytes_ok_le_bytes; lia.
  - rewrite (slice_blit_ne _ _ _ _ _ _ Hp3) by lia.
    pose proof (slice_two_blits nfe (row_header_bytes (mkRow t 0 0 0)) data p p1 p2 Hp1) as H2.
    rewrite Hhl in H2. by apply H2.
  - intros o l Ho Hd'. rewrite (slice_blit_ne _ _ _ _ _ _ Hp3) by lia.
    rewrite (slice_blit_ne _ _ _ _ _ _ Hp2), (slice_blit_ne _ _ _ _ _ _ Hp1) by lia. done.
Qed.

(** [p'] is [p] with one more slot showing [T]. *)
Record appended (p p' : Page) (T : Tuple) : Prop := {
  ap_wf : heap_wf p';
  ap_n : num_slots p' = num_slots p + 1;
  ap_new : tuple_at p' (num_slots p) = T;
  ap_old : forall j, 0 <= j < num_slots p -> tuple_at p' j = tuple_at p j;
  ap_slots : forall j, 0 <= j < num_slots p -> slot_at p' j = slot_at p j;
  ap_low : forall j, live p j -> s_offset (slot_at p' (num_slots p)) < s_offset (slot_at p j);
  ap_magic : hdr_magic p' = hdr_magic p;
  ap_reserved : reserved p' = reserved p
}.

Lemma get_le_ext off len p p' o l :
  slice off len p' = slice off len p -> 0 <= off -> 0 <= len -> off + len <= zlen p ->
  off <= o -> 0 <= l -> o + l <= off + len -> get_le o l p' = get_le o l p.
Proof.
  intros Hs Ho Hlen Hb H1 H2 H3. destruct (slice_is_Some off len p) as [bs Hbs]; [done|done|done|].
  rewrite Hbs in Hs. replace o with (off + (o - off)) by lia.
  by rewrite <-(get_le_of_slice _ _ _ _ (o - off) l Hs), <-(get_le_of_slice _ _ _ _ (o - off) l Hbs) by lia.
Qed.

Lemma slot_at_ext p p' j :
  zlen p = PAGE_SIZE -> 0 <= j -> 68 + 4 * j <= PAGE_SIZE ->
  slice (64 + 4 * j) 4 p' = slice (64 + 4 * j) 4 p -> slot_at p' j = slot_at p j.
Proof.
  intros Hl Hj Hb Hs. unfold slot_at. f_equal; apply (get_le_ext (64 + 4 * j) 4); done || lia.
Qed.

Section Append.
Context (p p' : Page) (nfe L : Z) (h : RowHeader) (data : bytes).
Hypothesis Hwf : heap_wf p.
Hypothesis Hok : page_ok p'.
Hypothesis Hn' : num_slots p' = num_slots p + 1.
Hypothesis Hfs' : hdr_free_start p' = 64 + 4 * num_slots p'.
Hypothesis Hfe' : hdr_free_end p' = nfe.
Hypothesis Hslot : slot_at p' (num_slots p) = mkSlot nfe L.
Hypothesis Himg : slice nfe L p' = Some (row_header_bytes h ++ data).
Hypothesis Hh : row_header_ok h.
Hypothesis Hframe : forall o l, 64 <= o -> o + l <= 64 + 4 * num_slots p \/ hdr_free_end p <= o ->
  slice o l p' = slice o l p.
Hypothesis Hroom : 64 + 4 * num_slots p' <= nfe.
Hypothesis Hmagic : hdr_magic p' = hdr_magic p.
Hypothesis Hres : reserved p' = reserved p.
Hypothesis Hnfe : nfe + 8 * ((L + 7) / 8) <= hdr_free_end p /\ nfe mod 8 = 0.

Lemma append_old_slot j : 0 <= j < num_slots p -> slot_at p' j = slot_at p j.
Proof.
  intros Hj. pose proof (slot_in_page p Hwf j Hj). apply slot_at_ext; [apply Hwf|lia|lia|].
  apply Hframe; lia.
Qed.

Lemma append_len : L = 24 + zlen data.
Proof.
  destruct (row_header_roundtrip h data Hh) as (_ & Hhl & _).
  pose proof (slice_inv _ _ _ _ Himg) as (_ & _ & _ & Hlen). rewrite length_app in Hlen. lia.
Qed.

Lemma append_live : is_dead (mkSlot nfe L) = false.
Proof.
  pose proof append_len. unfold is_dead. cbn. rewrite (proj2 (Z.eqb_neq L 0)) by lia. apply andb_false_r.
Qed.

Lemma append_appended : appended p p' (Some (h, data)).
Proof.
  pose proof append_len as HL. pose proof append_live as Hd. pose proof (align8_bounds L) as HA.
  destruct (hw_end _ Hwf) as [He He8]. pose proof (hw_start _ Hwf) as Hs.
  pose proof (num_slots_range p Hwf) as Hn.
  assert (Hcase : forall j, live p' j -> j = num_slots p \/ live p j /\ slot_at p' j = slot_at p j).
  { intros j [Hj Hdj]. destruct (decide (j = num_slots p)); [by left|right].
    rewrite append_old_slot in * by lia. split; [split; [lia|done]|done]. }
  assert (Hnew : forall j, live p j -> apart (mkSlot nfe L) (slot_at p j)).
  { intros j Hj. pose proof (lo_low _ _ (hw_live _ Hwf j Hj)). left. cbn [s_offset s_length]. lia. }
  split; [|done| | |exact append_old_slot|
    intros j Hj; rewrite Hslot; pose proof (lo_low _ _ (hw_live _ Hwf j Hj)); cbn [s_offset]; lia|done|done].
  - split; [done|done|rewrite Hfs', Hfe'; split; [lia|apply Hnfe]| |]; rewrite ?Hfe'.
    + intros j Hj. destruct (Hcase j Hj) as [->|[Hj' ->]].
      * rewrite Hslot. split; cbn [s_offset s_length]; lia.
      * destruct (hw_live _ Hwf j Hj'). split; try done. lia.
    + intros j k Hj Hk Hne. destruct (Hcase j Hj) as [->|[Hj' ->]], (Hcase k Hk) as [->|[Hk' ->]]; [done| | |].
      * rewrite Hslot. by apply Hnew.
      * rewrite Hslot. destruct (Hnew j Hj'); [by right|by left].
      * by apply Hwf.
  - unfold tuple_at. rewrite Hslot. by eapply tuple_written.
  - intros j Hj. unfold tuple_at. rewrite append_old_slot by done.
    destruct (is_dead (slot_at p j)) eqn:Hdj; [unfold tuple_of; by rewrite Hdj|].
    assert (Hlj : live p j) by done. destruct (live_slice p Hwf j Hlj) as [bs Hbs].
    destruct (hw_live _ Hwf j Hlj) as [Hlow _ Hlen _].
    by rewrite !(tuple_of_slice _ _ bs) by (done || rewrite Hframe; done || lia).
Qed.
End Append.

(** ** Operations *)

Lemma body_slice off n v p o l :
  page_ok p -> 0 <= off -> 0 <= n -> off + n <= 64 -> 64 <= o ->
  slice o l (set_le off n v p) = slice o l p.
Proof. intros [Hl _]. intros. apply slice_set_ne; unfold PAGE_SIZE in *; lia. Qed.

Lemma reserved_set_le off n v p : page_ok p -> 0 <= off -> 0 <= n -> off + n <= 36 -> reserved (set_le off n v p) = reserved p.
Proof. intros [Hl _]. intros. apply slice_set_ne; unfold PAGE_SIZE in *; lia. Qed.

Definition checksum_valid {C : Crc32c} (p : Page) : Prop := hdr_checksum p = crc32c (body p).

Lemma checksum_valid_verify {C : Crc32c} p : checksum_valid p -> verify_checksum p = Ok tt.
Proof. intros Hc. unfold verify_checksum. by rewrite Hc, Z.eqb_refl. Qed.

Section Operations.
Context {C : Crc32c} {CR : Crc32cRange C}.

Lemma insert_tuple_spec p data t :
  heap_wf p -> bytes_ok data -> in_u64 t -> zlen data < 2 ^ 62 ->
  let need := 4 + 8 * ((24 + zlen data + 7) / 8) in
  if free_space p <? need then
    insert_tuple p data t = Some (Err (HeapPageFull (hdr_page_id p) need (free_space p)), p)
  else exists p', insert_tuple p data t = Some (Ok (num_slots p), p') /\
    appended p p' (Some (mkRow t 0 0 0, data)) /\ checksum_valid p' /\
    free_space p' = free_space p - need.
Proof.
  intros Hwf Hd Ht Hlen need. unfold insert_tuple, ROW_HEADER_SIZE, SLOT_SIZE.
  rewrite align8_spec by lia. set (L := 24 + zlen data) in *. set (A := 8 * ((L + 7) / 8)) in *.
  change (4 + A) with need. destruct (Z.ltb_spec (free_space p) need) as [|Hfit]; [done|].
  pose proof (align8_bounds L) as HA. fold A in HA.
  destruct (hw_end _ Hwf) as [He He8]. pose proof (hw_start _ Hwf) as Hs. pose proof (num_slots_range p Hwf) as Hn.
  unfold free_space in Hfit. assert (HwA : wrap16 A = A) by (apply Z.mod_small; unfold PAGE_SIZE in *; lia).
  assert (HwL : wrap16 L = L) by (apply Z.mod_small; unfold PAGE_SIZE in *; lia). rewrite HwA, HwL.
  destruct (insert_bytes p data t Hwf Hd Ht) as (p1 & p2 & p3 & Hp1 & Hp2 & Hn2 & Hp3 & Hok3 & Hslot & Himg & Hfr).
  { unfold free_space. fold L A. lia. }
  fold L A in Hp1, Hp2, Hp3, Hslot, Himg. rewrite Hp1, Hp2, Hn2, Hp3. set (nfe := hdr_free_end p - A) in *.
  assert (Hn3 : hdr_item_count p3 = num_slots p).
  { apply (get_le_ext 0 64); [apply Hfr; lia|lia|lia|rewrite (po_len _ (hw_page _ Hwf)); page_range|lia..]. }
  assert (Hfs3 : hdr_free_start p3 = hdr_free_start p).
  { apply (get_le_ext 0 64); [apply Hfr; lia|lia|lia|rewrite (po_len _ (hw_page _ Hwf)); page_range|lia..]. }
  set (p4 := set_item_count (hdr_item_count p3 + 1) p3). set (p5 := set_free_start (hdr_free_start p4 + 4) p4).
  set (p6 := set_free_end nfe p5).
  assert (Hfs4 : hdr_free_start p4 = hdr_free_start p) by (rewrite <-Hfs3; unfold p4; fields; done).
  unfold PAGE_SIZE in He. unfold nfe in *.
  assert (Hok6 : page_ok p6) by (unfold p6, p5, p4; fields; auto 20 with page).
  exists (update_checksum p6). split; [done|].
  assert (Hn6 : num_slots (update_checksum p6) = num_slots p + 1).
  { unfold num_slots at 1. unfold hdr_item_count. rewrite update_checksum_get by (auto with page).
    unfold p6, p5, p4. rewrite Hn3. fields. done. }
  assert (Hfs6 : hdr_free_start (update_checksum p6) = 64 + 4 * (num_slots p + 1)).
  { unfold hdr_free_start at 1. rewrite update_checksum_get by (auto with page).
    unfold p6, p5. rewrite Hfs4, Hs. unfold p4. fields. lia. }
  assert (Hfe6 : hdr_free_end (update_checksum p6) = hdr_free_end p - A).
  { unfold hdr_free_end at 1. rewrite update_checksum_get by (auto with page).
    unfold p6, p5, p4. fields. done. }
  assert (Hsl6 : forall o l, 64 <= o -> slice o l (update_checksum p6) = slice o l p3).
  { intros o l Ho. rewrite update_checksum_slice by (done || lia).
    unfold p6, p5, p4, set_free_end, set_free_start, set_item_count.
    rewrite !body_slice by (auto 20 with page). done. }
  split_and!; [|by apply update_checksum_valid|unfold free_space; rewrite Hfs6, Hfe6, Hs; lia].
  assert (Hm6 : hdr_magic (update_checksum p6) = hdr_magic p).
  { unfold hdr_magic at 1. rewrite update_checksum_get by (auto with page).
    transitivity (hdr_magic p3); [unfold p6, p5, p4; by fields|].
    apply (get_le_ext 0 64); [apply Hfr; lia|lia|lia|rewrite (po_len _ (hw_page _ Hwf)); page_range|lia..]. }
  assert (Hr6 : reserved (update_checksum p6) = reserved p).
  { unfold reserved. rewrite update_checksum_slice by (done || lia).
    transitivity (reserved p3); [|apply Hfr; lia]. change (reserved p6 = reserved p3).
    unfold p6, p5, p4, set_free_end, set_free_start, set_item_count. by rewrite !reserved_set_le by (auto 20 with page). }
  eapply (append_appended p _ (hdr_free_end p - A) L); [done|by apply update_checksum_ok|done|by rewrite Hn6|done| | | | | |exact Hm6|exact Hr6|].
  - rewrite <-Hslot. apply slot_at_ext; [apply Hok3|lia|unfold PAGE_SIZE; lia|]. apply Hsl6. lia.
  - rewrite Hsl6 by lia. exact Himg.
  - repeat split; cbn; widths.
  - intros o l Ho Hor. rewrite Hsl6 by done. apply Hfr; [lia|]. lia.
  - rewrite Hn6. lia.
  - split; [fold A; lia|]. rewrite Zminus_mod, He8, (proj2 HA). done.
Qed.

(** The flag is cleared first, on every path. *)
Lemma clear_same p :
  heap_wf p ->
  let p0 := clear_all_visible p in
  heap_wf p0 /\ num_slots p0 = num_slots p /\ hdr_page_id p0 = hdr_page_id p /\ is_all_visible p0 = false /\
  quiet p p0 /\
  forall j, 0 <= j < num_slots p -> slot_at p0 j = slot_at p j /\ tuple_at p0 j = tuple_at p j.
Proof.
  intros Hwf p0. pose proof (hw_page _ Hwf) as Hok.
  destruct (quiet_same p p0 Hwf (quiet_clear p Hok)) as (H1 & H2 & H3 & _ & H5).
  split_and!; try done; [by apply all_visible_flag|by apply quiet_clear].
Qed.

Lemma all_visible_quiet_checksum p : page_ok p -> is_all_visible (update_checksum p) = is_all_visible p.
Proof.
  intros Hp. unfold is_all_visible, hdr_flags. by rewrite update_checksum_get by (auto with page).
Qed.

Lemma all_visible_blit off src p p' :
  blit off src p = Some p' -> 64 <= off -> zlen p = PAGE_SIZE -> is_all_visible p' = is_all_visible p.
Proof.
  intros Hb Ho Hl. unfold is_all_visible, hdr_flags.
  by rewrite (get_le_blit_ne _ _ _ _ _ _ Hb) by (unfold PAGE_SIZE in *; lia).
Qed.

Lemma all_visible_image a b p2 p3 i e p4 o :
  fill_zero a b p2 = Some p3 -> write_slot p3 i (mkSlot o e) = Some p4 ->
  64 <= a -> 0 <= i -> zlen p2 = PAGE_SIZE -> is_all_visible p4 = is_all_visible p2.
Proof.
  unfold fill_zero, write_slot, slot_abs_offset, HEADER_SIZE, SLOT_SIZE. destruct (a <=? b); [|done].
  intros H3 H4 Ha Hi Hl. pose proof (blit_inv _ _ _ _ H3) as (_ & _ & Hl3).
  by rewrite (all_visible_blit _ _ _ _ H4), (all_visible_blit _ _ _ _ H3) by lia.
Qed.

(** An update relative to the page whose flag was cleared is one of the page. *)
Lemma updated_from_quiet p p0 p' i T :
  heap_wf p -> 0 <= i < num_slots p -> quiet p p0 -> updated p0 p' i T -> updated p p' i T.
Proof.
  intros Hwf Hi Hq [H1 H2 H3 H4 H5 H6 H7 H8 H9]. destruct (quiet_same p p0 Hwf Hq) as (_ & Hn & _ & Hsp & Hall).
  split; [done|congruence|congruence|done| | |by rewrite <-(proj1 (Hall i Hi))|
    rewrite H8; by apply (confined_magic 0 0 0), Hq; [apply Hwf|..]|
    rewrite H9; by apply (confined_reserved 0 0 0), Hq].
  - intros j Hj Hne. rewrite H5 by (done || lia). by apply Hall.
  - intros j Hj Hne. rewrite H6 by (done || lia). by apply Hall.
Qed.

Lemma delete_tuple_spec p i t :
  heap_wf p -> 0 <= i -> in_u64 t ->
  exists r p', delete_tuple p i t = Some (r, p') /\ is_all_visible p' = false /\
    if num_slots p <=? i then r = Err (invalid_slot p i) /\ quiet p p'
    else match tuple_at p i with
         | None => r = Err (AlreadyDeleted (hdr_page_id p) i) /\ quiet p p'
         | Some u => r = Ok tt /\ updated p p' i (Some (set_deleted t u)) /\ checksum_valid p'
         end.
Proof.
  intros Hwf Hi Ht. destruct (clear_same p Hwf) as (Hwf0 & Hn & Hid & Hav & Hq & Hall).
  set (p0 := clear_all_visible p) in *. unfold delete_tuple, mark_deleted. fold p0.
  unfold invalid_slot. rewrite Hn, Hid. destruct (Z.leb_spec (num_slots p) i); [by eexists _, _|].
  destruct (Hall i ltac:(lia)) as [Hs Htup]. rewrite read_slot_wf by (done || lia).
  assert (Hnone : tuple_at p i = None <-> is_dead (slot_at p0 i) = true).
  { rewrite <-Htup. unfold tuple_at, tuple_of. by destruct (is_dead _). }
  destruct (is_dead (slot_at p0 i)) eqn:Hd.
  - rewrite (proj2 Hnone eq_refl). by eexists _, _.
  - assert (Hlive : live p0 i) by (split; [lia|done]).
    destruct (stamp_updated p0 i t Hwf0 Hlive Ht) as (p1 & Hp1 & Hup). rewrite Hp1.
    destruct (tuple_at p i) as [u|] eqn:Hu; [|exfalso; naive_solver].
    rewrite Htup in Hup. cbn [fmap option_fmap option_map] in Hup. pose proof (hw_page _ (up_wf _ _ _ _ Hup)) as Hok1.
    destruct (hw_live _ Hwf0 i Hlive). pose proof (hw_start _ Hwf0). pose proof (hw_end _ Hwf0).
    eexists _, _. split; [reflexivity|]. split_and!; [|done| |by apply update_checksum_valid].
    + rewrite all_visible_quiet_checksum by done.
      rewrite (all_visible_blit _ _ _ _ Hp1); [done|unfold TXN_DELETED_OFFSET_IN_HEADER; lia|apply Hwf0].
    + eapply updated_quiet; [done| |by apply quiet_checksum]. by eapply updated_from_quiet.
Qed.

Lemma clear_deletion_spec p i :
  heap_wf p -> 0 <= i ->
  exists r p', clear_deletion p i = Some (r, p') /\
    if num_slots p <=? i then r = Err (invalid_slot p i) /\ p' = p
    else match tuple_at p i with
         | None => r = Err (AlreadyDeleted (hdr_page_id p) i) /\ p' = p
         | Some u => r = Ok tt /\ updated p p' i (Some (set_deleted 0 u)) /\
             (txn_id_deleted u.1 = 0 -> p' = p) /\ (txn_id_deleted u.1 ≠ 0 -> checksum_valid p')
         end.
Proof.
  intros Hwf Hi. unfold clear_deletion. destruct (Z.leb_spec (num_slots p) i); [by eexists _, _|].
  rewrite read_slot_wf by (done || lia). unfold TXN_DELETED_OFFSET_IN_HEADER.
  destruct (is_dead (slot_at p i)) eqn:Hd.
  - unfold tuple_at, tuple_of. rewrite Hd. by eexists _, _.
  - assert (Hlive : live p i) by (split; [lia|done]).
    destruct (hw_live _ Hwf i Hlive). pose proof (hw_start _ Hwf). pose proof (hw_end _ Hwf).
    pose proof (po_len _ (hw_page _ Hwf)) as Hl.
    destruct (slice_is_Some (s_offset (slot_at p i) + 8) 8 p) as [bs Hbs]; [lia|lia|lia|]. rewrite Hbs.
    rewrite <-(get_le_slice _ _ _ _ Hbs).
    destruct (stamp_updated p i 0 Hwf Hlive in_u64_0) as (p1 & Hp1 & Hup). unfold TXN_DELETED_OFFSET_IN_HEADER in Hp1.
    assert (Htup : exists u, tuple_at p i = Some u /\ txn_id_deleted u.1 = get_le (s_offset (slot_at p i) + 8) 8 p).
    { unfold tuple_at, tuple_of. rewrite Hd. by eexists. }
    destruct Htup as (u & Hu & Hdel). rewrite Hu in *. cbn [fmap option_fmap option_map] in Hup. rewrite <-Hdel.
    destruct (Z.eqb_spec (txn_id_deleted u.1) 0) as [Hz|Hz].
    + eexists _, _. split; [reflexivity|]. split_and!; [done| |done|done].
      split; try done. rewrite Hu. destruct u as [[c d v f] dat]. unfold set_deleted. cbn in *. by rewrite Hz.
    + rewrite Hp1. eexists _, _. split; [reflexivity|].
      split_and!; [done| |done|intros _; apply update_checksum_valid, (up_wf _ _ _ _ Hup)].
      eapply updated_quiet; [lia|done|]. apply quiet_checksum, (up_wf _ _ _ _ Hup).
Qed.

Lemma mark_slot_dead_spec p i :
  heap_wf p -> 0 <= i ->
  exists r p', mark_slot_dead p i = Some (r, p') /\
    if num_slots p <=? i then r = Err (invalid_slot p i) /\ p' = p
    else r = Ok tt /\ updated p p' i None /\ checksum_valid p'.
Proof.
  intros Hwf Hi. unfold mark_slot_dead. destruct (Z.leb_spec (num_slots p) i); [by eexists _, _|].
  pose proof (slot_in_page p Hwf i ltac:(lia)) as Hip. pose proof (hw_page _ Hwf) as Hok.
  destruct (write_slot_spec p i (mkSlot 0 0)) as (p1 & Hp1 & Hslot); [done|lia|done|cbn [s_offset]; widths|cbn [s_length]; widths|].
  rewrite Hp1. eexists _, _. split; [reflexivity|].
  assert (Hup : updated p p1 i None).
  { apply dead_updated; [done|lia| |by rewrite Hslot].
    eapply confined_blit; [lia|lia| |exact Hp1|right; split; [done|by rewrite length_app, !length_le_bytes by lia]].
    apply Forall_app. split; apply bytes_ok_le_bytes; lia. }
  split_and!; [done| |apply update_checksum_valid, (up_wf _ _ _ _ Hup)].
  eapply updated_quiet; [lia|done|]. apply quiet_checksum, (up_wf _ _ _ _ Hup).
Qed.

Lemma slot_capacity_quiet p p0 i :
  heap_wf p -> quiet p p0 -> 0 <= i < num_slots p -> is_dead (slot_at p i) = false ->
  slot_capacity p0 i = slot_capacity p i.
Proof.
  intros Hwf Hq Hi Hd. destruct (quiet_same p p0 Hwf Hq) as (Hwf0 & Hn & _ & _ & Hall).
  unfold slot_capacity. rewrite Hn. destruct (Z.leb_spec (num_slots p) i); [lia|].
  rewrite !read_slot_wf by (done || lia). rewrite (proj1 (Hall i Hi)), Hd.
  rewrite (capacity_loop_ext p p0); [done|]. apply Forall_seqZ. intros j Hj.
  rewrite !read_slot_wf by (done || lia). split_and!; [done|done|]. intros _. f_equal. apply Hall. lia.
Qed.

Lemma row_header_of_ok bs : bytes_ok bs -> 24 <= zlen bs -> row_header_ok (row_header_of bs).
Proof.
  intros Hb Hl.
  split_and!; [apply (get_le_range 0 8 bs)|apply (get_le_range 8 8 bs)|
               apply (get_le_range 16 4 bs)|apply (get_le_range 20 4 bs)]; done || lia.
Qed.

Lemma rewritten_ok h t :
  in_u64 t -> row_header_ok h ->
  row_header_ok (mkRow t 0 (saturating_add32 (row_version h) 1) (rh_flags h)).
Proof.
  intros Ht (_ & _ & Hv & Hf).
  unfold row_header_ok. cbn [txn_id_created txn_id_deleted row_version rh_flags].
  split_and!; [done|apply in_u64_0| |done]. unfold saturating_add32. widths.
Qed.

(** Rewriting a live tuple whose new image fits. *)
Lemma rewrite_fits p i data t cap :
  heap_wf p -> live p i -> bytes_ok data -> in_u64 t -> zlen data < 2 ^ 62 ->
  slot_capacity p i = Some (Ok cap) -> 8 * ((24 + zlen data + 7) / 8) <= cap ->
  exists old p' h d,
    try_rewrite_tuple_same_slot_no_checksum p i data t = Some (Ok (Some old), p') /\
    slice (s_offset (slot_at p i)) (s_length (slot_at p i)) p = Some old /\
    tuple_at p i = Some (h, d) /\
    updated p p' i (Some (mkRow t 0 (saturating_add32 (row_version h) 1) (rh_flags h), data)) /\
    slot_at p' i = mkSlot (s_offset (slot_at p i)) (24 + zlen data) /\
    is_all_visible p' = false.
Proof.
  intros Hwf Hi Hd Ht Hlen Hcap Hfit.
  destruct (clear_same p Hwf) as (Hwf0 & Hn & Hid & Hav & Hq & Hall).
  unfold try_rewrite_tuple_same_slot_no_checksum. set (p0 := clear_all_visible p) in *.
  pose proof Hi as [Hi0 Hdead]. destruct (Hall i Hi0) as [Hs0 Ht0].
  rewrite Hn, (proj2 (Z.leb_gt _ _)) by lia. rewrite read_slot_wf by (done || lia).
  rewrite Hs0, Hdead, (slot_capacity_quiet p p0), Hcap by done. unfold ROW_HEADER_SIZE.
  rewrite align8_spec by lia. rewrite (proj2 (Z.ltb_ge _ _)) by lia.
  assert (Hi0' : live p0 i) by (split; [lia|by rewrite Hs0]).
  destruct (live_slice p0 Hwf0 i Hi0') as [old Hold]. rewrite Hs0 in Hold. rewrite Hold.
  destruct (hw_live _ Hwf i Hi) as [Hlow Hal Hleni Hhigh].
  pose proof (slice_inv _ _ _ _ Hold) as (_ & _ & Hb & Hol).
  destruct (slice_is_Some 0 24 old) as [hb Hhb]; [lia|lia|lia|]. rewrite Hhb.
  assert (Hrow : row_header_of hb = row_header_of old).
  { unfold row_header_of. by rewrite !(get_le_of_slice _ _ _ _ _ _ Hhb) by lia. }
  rewrite Hrow. set (h := row_header_of old) in *.
  assert (Htup : tuple_at p0 i = Some (h, drop 24 old)).
  { unfold tuple_at. apply tuple_of_slice; [by rewrite Hs0|by rewrite Hs0|by rewrite Hs0]. }
  set (nh := mkRow t 0 (saturating_add32 (row_version h) 1) (rh_flags h)).
  assert (Hobytes : bytes_ok old) by (eapply slice_bytes_ok; [apply Hwf0|exact Hold]).
  assert (Hnh : row_header_ok nh).
  { apply rewritten_ok; [done|]. apply row_header_of_ok; [done|lia]. }
  destruct (row_header_roundtrip nh data Hnh) as (Hnr & Hnl & Hnb).
  destruct (slot_capacity_spec p i Hwf Hi) as (cap' & Hcap' & Hroom & Hpadi).
  assert (cap' = cap) as -> by congruence. pose proof (rm_b _ _ _ Hroom) as Hbb.
  assert (Hroom0 : room p0 i (s_offset (slot_at p0 i) + cap)).
  { rewrite Hs0. destruct Hroom as [Hr1 Hr2]. split; [by rewrite Hs0|]. intros j [Hj1 Hj2] Hne.
    rewrite Hn in Hj1. destruct (Hall j Hj1) as [Hsj _]. rewrite Hsj, Hs0 in *. by apply Hr2. }
  pose proof (align8_bounds (24 + zlen data)) as Ha8.
  pose proof (po_len _ (hw_page _ Hwf0)) as Hl0. pose proof (hw_start _ Hwf). pose proof (hw_end _ Hwf).
  destruct (blit_is_Some (s_offset (slot_at p i)) (row_header_bytes nh) p0) as [p1 Hp1]; [lia|lia|]. rewrite Hp1.
  pose proof (blit_inv _ _ _ _ Hp1) as (_ & _ & Hl1).
  destruct (blit_is_Some (s_offset (slot_at p i) + 24) data p1) as [p2 Hp2]; [lia|lia|]. rewrite Hp2.
  destruct (image_updated p0 p2 i cap (row_header_bytes nh ++ data)) as (p3 & p4 & H3 & H4 & Hslot & Hup);
    [done|done|done|rewrite length_app; lia|rewrite length_app, Nat2Z.inj_add, Hnl; lia| | |].
  - rewrite Hs0. eapply confined_trans; (eapply confined_blit; [lia|lia| |eassumption|]); [done| |done|]; lia.
  - rewrite Hs0, length_app, Nat2Z.inj_add. apply (slice_two_blits _ _ _ _ _ _ Hp1). by rewrite Hnl.
  - rewrite Hs0, length_app, Nat2Z.inj_add, Hnl in H3, H4, Hslot. rewrite H3, H4.
    exists old, p4, h, (drop 24 old). split_and!; [done| |congruence| |done|].
    + rewrite <-Hold. symmetry. apply (confined_slice PAGE_SIZE 0 0); [by apply Hq|lia|].
      intros k Hk. unfold outside, PAGE_SIZE in *. lia.
    + rewrite Hnr in Hup. rewrite drop_app_length' in Hup by lia. by eapply updated_from_quiet.
    + pose proof (blit_inv _ _ _ _ Hp2) as (_ & _ & Hl2).
      rewrite (all_visible_image _ _ _ _ _ _ _ _ H3 H4) by lia.
      by rewrite (all_visible_blit _ _ _ _ Hp2), (all_visible_blit _ _ _ _ Hp1) by lia.
Qed.

(** Writing an old image back over a live tuple. *)
Lemma restore_fits p i image cap :
  heap_wf p -> live p i -> bytes_ok image -> 24 <= zlen image < 2 ^ 62 ->
  slot_capacity p i = Some (Ok cap) -> 8 * ((zlen image + 7) / 8) <= cap ->
  exists p',
    restore_tuple_image_no_checksum p i image = Some (Ok tt, p') /\
    updated p p' i (Some (row_header_of image, drop 24 image)) /\
    slot_at p' i = mkSlot (s_offset (slot_at p i)) (zlen image).
Proof.
  intros Hwf Hi Hb Hlen Hcap Hfit. pose proof Hi as [Hi0 Hdead].
  unfold restore_tuple_image_no_checksum. rewrite (proj2 (Z.leb_gt _ _)) by lia.
  rewrite read_slot_wf, Hdead, Hcap by (done || lia).
  rewrite align8_spec by lia. rewrite (proj2 (Z.ltb_ge _ _)) by lia.
  destruct (slot_capacity_spec p i Hwf Hi) as (cap' & Hcap' & Hroom & Hpadi).
  assert (cap' = cap) as -> by congruence. pose proof (rm_b _ _ _ Hroom) as Hbb.
  destruct (hw_live _ Hwf i Hi) as [Hlow Hal Hleni Hhigh].
  pose proof (po_len _ (hw_page _ Hwf)) as Hl0. pose proof (hw_start _ Hwf). pose proof (hw_end _ Hwf).
  pose proof (align8_bounds (zlen image)) as Ha8.
  destruct (blit_is_Some (s_offset (slot_at p i)) image p) as [p1 Hp1]; [lia|lia|]. rewrite Hp1.
  destruct (image_updated p p1 i cap image) as (p3 & p4 & H3 & H4 & Hslot & Hup);
    [done|done|done|lia|lia| | |].
  - eapply confined_blit; [lia|lia|done|eassumption|lia].
  - by apply slice_blit_eq in Hp1.
  - rewrite H3, H4. by exists p4.
Qed.
End Operations.

(** ** Visibility *)

(** A snapshot sees a transaction: its own, or one that committed before it. *)
Definition sees (snap : TransactionSnapshot) (t : Z) : Prop :=
  (current_txn_id snap ≠ 0 /\ t = current_txn_id snap) \/
  (t < snapshot_id snap /\ t ∉ active_ids snap).

#[export] Instance sees_dec snap t : Decision (sees snap t).
Proof. unfold sees. apply _. Defined.

Lemma is_visible_spec h snap :
  is_visible h snap = true <->
  sees snap (txn_id_created h) /\ (txn_id_deleted h = 0 \/ ~ sees snap (txn_id_deleted h)).
Proof.
  unfold is_visible, sees. destruct h as [c d v f], snap as [sid cur act]. cbn.
  destruct (Z.eqb_spec cur 0), (Z.eqb_spec c cur), (Z.ltb_spec c sid), (bool_decide_reflect (c ∈ act)),
    (Z.eqb_spec d 0), (Z.eqb_spec d cur), (Z.leb_spec sid d), (bool_decide_reflect (d ∈ act));
    cbn; split; intros; first [lia | tauto | naive_solver lia].
Qed.

(** The rows of a page a snapshot sees, in slot order. *)
Definition visible_row (snap : TransactionSnapshot) (p : Page) (i : Z) : option (Z * bytes) :=
  match tuple_at p i with
  | Some (h, d) => if is_visible h snap then Some (i, d) else None
  | None => None
  end.
Definition visible_rows (snap : TransactionSnapshot) (p : Page) : list (Z * bytes) :=
  omap (visible_row snap p) (seqZ 0 (num_slots p)).

Lemma scan_slots_spec p snap slots :
  heap_wf p -> Forall (fun i => 0 <= i < num_slots p) slots ->
  scan_slots p snap slots = Some (omap (visible_row snap p) slots).
Proof.
  intros Hwf. induction slots as [|i slots IH]; cbn [scan_slots]; [done|]. intros [Hi Hr]%Forall_cons.
  rewrite read_slot_wf, IH by done. cbn [omap list_omap].
  destruct (is_dead (slot_at p i)) eqn:Hd.
  - assert (visible_row snap p i = None) as -> by (unfold visible_row, tuple_at, tuple_of; by rewrite Hd). done.
  - destruct (live_slice p Hwf i (conj Hi Hd)) as [bs Hbs]. rewrite Hbs.
    rewrite (split_tuple_wf p Hwf i bs (conj Hi Hd) Hbs).
    destruct (tuple_at p i) as [[h d]|] eqn:Ht; [|by apply (live_tuple p i Hwf Hi) in Ht].
    assert (visible_row snap p i = if is_visible h snap then Some (i, d) else None) as ->
      by (unfold visible_row; by rewrite Ht).
    cbn [fst snd]. by destruct (is_visible h snap).
Qed.

Lemma scan_visible_spec p snap : heap_wf p -> scan_visible p snap = Some (visible_rows snap p).
Proof. intros Hwf. apply scan_slots_spec; [done|]. apply Forall_seqZ. intros. lia. Qed.

(** ** Whole operations *)

(** Two well-formed pages with the same slots: only the checksum, the all-visible flag
    and bytes outside every tuple may differ. *)
Definition same_heap (p p' : Page) : Prop :=
  heap_wf p' /\ num_slots p' = num_slots p /\ hdr_page_id p' = hdr_page_id p /\
  free_space p' = free_space p /\
  forall j, 0 <= j < num_slots p -> slot_at p' j = slot_at p j /\ tuple_at p' j = tuple_at p j.

Lemma updated_trans p p1 p2 i T1 T2 : updated p p1 i T1 -> updated p1 p2 i T2 -> updated p p2 i T2.
Proof.
  intros [_ n1 s1 _ a1 b1 o1 m1 r1] [w2 n2 s2 t2 a2 b2 o2 m2 r2].
  split; [done|congruence|congruence|done| | | |congruence|congruence].
  - intros j Hj Hne. rewrite a2 by (done || lia). by apply a1.
  - intros j Hj Hne. rewrite b2 by (done || lia). by apply b1.
  - intros [Hd Ho]%o2. rewrite Ho. by apply o1.
Qed.

Lemma updated_live p p' i u : 0 <= i < num_slots p -> updated p p' i (Some u) -> live p' i.
Proof.
  intros Hi Hup. rewrite <-live_tuple; [by rewrite (up_self _ _ _ _ Hup)|apply Hup|].
  by rewrite (up_n _ _ _ _ Hup).
Qed.

(** An empty page is a well-formed heap page. *)
Lemma page_new_heap_wf {C : Crc32c} t id :
  in_u64 id -> heap_wf (page_new t id) /\ num_slots (page_new t id) = 0 /\
  free_space (page_new t id) = PAGE_SIZE - HEADER_SIZE.
Proof.
  intros Hid. destruct (page_new_fields t id Hid) as (Hok & _ & _ & _ & Hn & _ & _ & Hfs & Hfe).
  unfold free_space. rewrite Hfs, Hfe. split_and!; [|done|done].
  assert (Hno : forall i, ~ live (page_new t id) i).
  { intros i [Hi _]. unfold num_slots in Hi. lia. }
  split; [done|unfold num_slots; by rewrite Hn, Hfs|rewrite Hfs, Hfe; done| |].
  - intros i Hi. by apply Hno in Hi.
  - intros i j Hi. by apply Hno in Hi.
Qed.

Section Whole.
Context {C : Crc32c} {CR : Crc32cRange C}.

Lemma rewrite_tuple_spec p i data t :
  heap_wf p -> 0 <= i -> bytes_ok data -> in_u64 t -> zlen data < 2 ^ 62 ->
  exists r p', rewrite_tuple_same_slot p i data t = Some (r, p') /\ is_all_visible p' = false /\
    if num_slots p <=? i then r = Err (invalid_slot p i) /\ quiet p p'
    else match tuple_at p i with
         | None => r = Err (AlreadyDeleted (hdr_page_id p) i) /\ quiet p p'
         | Some (h, d) => exists cap, slot_capacity p i = Some (Ok cap) /\
             if cap <? 8 * ((24 + zlen data + 7) / 8) then r = Ok None /\ quiet p p'
             else exists old, r = Ok (Some old) /\
               slice (s_offset (slot_at p i)) (s_length (slot_at p i)) p = Some old /\
               updated p p' i (Some (mkRow t 0 (saturating_add32 (row_version h) 1) (rh_flags h), data)) /\
               s_offset (slot_at p' i) = s_offset (slot_at p i) /\ checksum_valid p'
         end.
Proof.
  intros Hwf Hi Hd Ht Hlen. destruct (clear_same p Hwf) as (Hwf0 & Hn & Hid & Hav & Hq & Hall).
  unfold rewrite_tuple_same_slot.
  destruct (Z.leb_spec (num_slots p) i) as [Hge|Hlt].
  { unfold try_rewrite_tuple_same_slot_no_checksum. rewrite Hn, (proj2 (Z.leb_le _ _)) by lia.
    eexists _, _. split; [reflexivity|]. unfold invalid_slot. by rewrite Hn, Hid. }
  destruct (Hall i ltac:(lia)) as [Hs _].
  destruct (tuple_at p i) as [[h d]|] eqn:Hu.
  2:{ unfold try_rewrite_tuple_same_slot_no_checksum. rewrite Hn, (proj2 (Z.leb_gt _ _)) by lia.
      rewrite read_slot_wf, Hs by (done || lia). unfold tuple_at, tuple_of in Hu.
      destruct (is_dead (slot_at p i)); [|done]. rewrite Hid. eexists _, _. split; [reflexivity|]. done. }
  assert (Hlive : live p i) by (rewrite <-live_tuple by (done || lia); by rewrite Hu).
  destruct (slot_capacity_spec p i Hwf Hlive) as (cap & Hcap & _ & _).
  destruct (Z.ltb_spec cap (8 * ((24 + zlen data + 7) / 8))) as [Hsmall|Hfit].
  - unfold try_rewrite_tuple_same_slot_no_checksum. rewrite Hn, (proj2 (Z.leb_gt _ _)) by lia.
    rewrite read_slot_wf, Hs, (proj2 Hlive) by (done || lia). unfold ROW_HEADER_SIZE.
    rewrite (slot_capacity_quiet p), Hcap, align8_spec by (done || lia || apply Hlive).
    rewrite (proj2 (Z.ltb_lt _ _)) by lia. eexists _, _. split; [reflexivity|]. split; [done|].
    exists cap. by rewrite (proj2 (Z.ltb_lt _ _)) by lia.
  - destruct (rewrite_fits p i data t cap) as (old & p' & h' & d' & -> & Hold & Hu' & Hup & Hslot & Hav'); [done..|].
    assert (h' = h) as -> by congruence. pose proof (hw_page _ (up_wf _ _ _ _ Hup)) as Hok'.
    eexists _, _. split; [reflexivity|]. split; [by rewrite all_visible_quiet_checksum|].
    exists cap. rewrite (proj2 (Z.ltb_ge _ _)) by lia. split; [done|]. exists old.
    destruct (quiet_same p' (update_checksum p')) as (_ & _ & _ & _ & Hsame); [apply Hup|by apply quiet_checksum|].
    split_and!; [done|done| | |by apply update_checksum_valid].
    + eapply updated_quiet; [lia|done|by apply quiet_checksum].
    + rewrite (proj1 (Hsame i ltac:(rewrite (up_n _ _ _ _ Hup); lia))), Hslot. done.
Qed.

(** The image a rewrite returned can be written back, whatever the new data was. *)
Lemma restore_after p p' i u old :
  heap_wf p -> live p i -> updated p p' i (Some u) ->
  s_offset (slot_at p' i) = s_offset (slot_at p i) ->
  slice (s_offset (slot_at p i)) (s_length (slot_at p i)) p = Some old ->
  exists p'', restore_tuple_image p' i old = Some (Ok tt, p'') /\ checksum_valid p'' /\
    heap_wf p'' /\ num_slots p'' = num_slots p /\
    forall j, 0 <= j < num_slots p -> slot_at p'' j = slot_at p j /\ tuple_at p'' j = tuple_at p j.
Proof.
  intros Hwf Hi Hup Hoff Hold. pose proof (proj1 Hi) as Hi0.
  assert (Hi' : live p' i) by (by eapply updated_live).
  pose proof (slice_inv _ _ _ _ Hold) as (_ & _ & _ & Hlen).
  destruct (hw_live _ Hwf i Hi) as [Hlow Hal Hleni Hhigh].
  pose proof (hw_start _ Hwf). pose proof (hw_end _ Hwf).
  destruct (slot_capacity_spec p i Hwf Hi) as (cap & Hcap & Hroom & Hpad).
  destruct (restore_fits p' i old cap) as (p2 & Hr & Hup2 & Hslot); [apply Hup|done| | | |rewrite Hlen; exact Hpad|].
  - eapply slice_bytes_ok; [apply Hwf|exact Hold].
  - unfold PAGE_SIZE in *. lia.
  - by rewrite <-Hcap; eapply slot_capacity_ext.
  - unfold restore_tuple_image. rewrite Hr.
    assert (Hback : updated p (update_checksum p2) i (tuple_at p i)).
    { eapply updated_quiet; [done| |apply quiet_checksum, (hw_page _ (up_wf _ _ _ _ Hup2))].
      unfold tuple_at at 1. rewrite (tuple_of_slice _ _ old) by (done || lia || apply Hi).
      by eapply updated_trans. }
    pose proof (up_wf _ _ _ _ Hup2) as Hwf2.
    destruct (quiet_same p2 (update_checksum p2)) as (_ & _ & _ & _ & Hsame); [done|by apply quiet_checksum, Hwf2|].
    eexists. split; [reflexivity|]. split_and!; [by apply update_checksum_valid, Hwf2|apply Hback|apply Hback|].
    intros j Hj. destruct (decide (j = i)) as [->|Hne]; [|split; by apply Hback].
    split; [|apply Hback]. pose proof (up_n _ _ _ _ Hup). pose proof (up_n _ _ _ _ Hup2).
    rewrite (proj1 (Hsame i ltac:(lia))), Hslot, Hoff, Hlen. by destruct (slot_at p i).
Qed.
End Whole.

(** ** Properties *)

Lemma read_tuple_ext p p' j :
  heap_wf p -> heap_wf p' -> 0 <= j < num_slots p -> num_slots p <= num_slots p' ->
  tuple_at p' j = tuple_at p j -> read_tuple p' j = read_tuple p j.
Proof.
  intros Hwf Hwf' Hj Hn Ht. rewrite !read_tuple_wf, Ht by (done || lia).
  by rewrite !(proj2 (Z.leb_gt _ _)) by lia.
Qed.

Lemma read_tuple_at p i T :
  heap_wf p -> 0 <= i < num_slots p -> tuple_at p i = T -> read_tuple p i = Some (Ok T).
Proof. intros Hwf Hi <-. rewrite read_tuple_wf by (done || lia). by rewrite (proj2 (Z.leb_gt _ _)) by lia. Qed.

Lemma seqZ_sorted m n : StronglySorted Z.lt (seqZ m n).
Proof.
  destruct (decide (0 <= n)); [|rewrite seqZ_nil by lia; constructor].
  revert m. apply (natlike_ind (fun n => forall m, StronglySorted Z.lt (seqZ m n))); [|clear|done].
  - intros m. rewrite seqZ_nil by lia. constructor.
  - intros k Hk IH m. rewrite seqZ_cons by lia. replace (Z.pred (Z.succ k)) with k by lia.
    constructor; [apply IH|]. apply Forall_seqZ. intros. lia.
Qed.

Lemma visible_rows_sorted snap p : StronglySorted Z.lt (visible_rows snap p).*1.
Proof.
  unfold visible_rows. pose proof (seqZ_sorted 0 (num_slots p)) as Hs.
  induction Hs as [|i l Hs IH Hall]; cbn [omap list_omap]; [constructor|].
  assert (Hv : forall k r, visible_row snap p k = Some r -> r.1 = k).
  { intros k r. unfold visible_row. destruct (tuple_at p k) as [[h d]|]; [|done].
    destruct (is_visible h snap); [|done]. by intros [= <-]. }
  destruct (visible_row snap p i) as [r|] eqn:Hr; [|done]. rewrite fmap_cons. constructor; [done|].
  rewrite (Hv _ _ Hr). apply Forall_fmap, Forall_forall. intros r' (k & Hk & Hr')%list_elem_of_omap.
  cbn. rewrite (Hv _ _ Hr'). by eapply Forall_forall in Hall.
Qed.

(** Pages whose tuples show a snapshot the same rows scan the same. *)
Lemma visible_rows_ext snap p p' n :
  (forall j, 0 <= j < n -> visible_row snap p' j = visible_row snap p j) ->
  omap (visible_row snap p') (seqZ 0 n) = omap (visible_row snap p) (seqZ 0 n).
Proof.
  intros Hall.
  assert (Hf : Forall (fun j => visible_row snap p' j = visible_row snap p j) (seqZ 0 n)).
  { apply Forall_seqZ. intros j Hj. apply Hall. lia. }
  induction Hf as [|j l Hj _ IH]; cbn [omap list_omap]; [done|]. rewrite Hj. by rewrite IH.
Qed.

Lemma unseen_creator snap t d v f : ~ sees snap t -> is_visible (mkRow t d v f) snap = false.
Proof. intros Hs. apply not_true_is_false. rewrite is_visible_spec. by intros [? _]. Qed.

Lemma unseen_deleter snap c t v f :
  ~ sees snap t -> is_visible (mkRow c t v f) snap = is_visible (mkRow c 0 v f) snap.
Proof. intros Hs. apply eq_true_iff_eq. rewrite !is_visible_spec. cbn. tauto. Qed.

Section Properties.
Context {C : Crc32c} {CR : Crc32cRange C}.

Lemma insert_isolated p data t snap :
  heap_wf p -> bytes_ok data -> in_u64 t -> zlen data < 2 ^ 62 -> ~ sees snap t ->
  exists r p', insert_tuple p data t = Some (r, p') /\ heap_wf p' /\
    scan_visible p' snap = scan_visible p snap.
Proof.
  intros Hwf Hd Ht Hlen Hs. pose proof (insert_tuple_spec p data t Hwf Hd Ht Hlen) as H. cbv zeta in H.
  destruct (free_space p <? _); [by eexists _, _|].
  destruct H as (p' & Hins & [Hwf' Hn Hnew Hold] & _). exists (Ok (num_slots p)), p'. split_and!; [done|done|].
  rewrite !scan_visible_spec by done. f_equal. unfold visible_rows. rewrite Hn.
  pose proof (num_slots_range p Hwf). rewrite seqZ_app by lia. rewrite omap_app. cbn [Z.add].
  change (seqZ _ 1) with [num_slots p]. cbn [omap list_omap]. unfold visible_row at 2. rewrite Hnew, unseen_creator by done.
  rewrite app_nil_r. apply visible_rows_ext. intros j Hj. unfold visible_row. by rewrite Hold.
Qed.

Lemma read_live p i h d :
  heap_wf p -> 0 <= i -> read_tuple p i = Some (Ok (Some (h, d))) -> live p i.
Proof.
  intros Hwf Hi Hr. rewrite read_tuple_wf in Hr by done. destruct (Z.leb_spec (num_slots p) i); [done|].
  apply live_tuple; [done|lia|]. congruence.
Qed.

(** When one tuple of a page changes, a scan changes at that slot only. *)
Lemma visible_rows_split snap p p' i T :
  heap_wf p -> 0 <= i < num_slots p -> updated p p' i T ->
  exists l r, (forall x, x ∈ l ++ r -> x.1 ≠ i) /\
    visible_rows snap p = l ++ option_list (visible_row snap p i) ++ r /\
    visible_rows snap p' = l ++ option_list (visible_row snap p' i) ++ r.
Proof.
  intros Hwf Hi Hup.
  exists (omap (visible_row snap p) (seqZ 0 i)), (omap (visible_row snap p) (seqZ (i + 1) (num_slots p - i - 1))).
  assert (Hrow : forall j x, visible_row snap p j = Some x -> x.1 = j).
  { intros j x. unfold visible_row. destruct (tuple_at p j) as [[h d]|]; [|done]. destruct (is_visible h snap); [|done].
    by intros [= <-]. }
  assert (Hcut : seqZ 0 (num_slots p) = seqZ 0 i ++ i :: seqZ (i + 1) (num_slots p - i - 1)).
  { replace (num_slots p) with (i + (1 + (num_slots p - i - 1))) at 1 by lia. rewrite !seqZ_app by lia. done. }
  assert (Hsame : forall m n, 0 <= m -> m + n <= num_slots p -> i < m \/ m + n <= i ->
    omap (visible_row snap p') (seqZ m n) = omap (visible_row snap p) (seqZ m n)).
  { intros m n Hm Hn Hout. apply list_omap_ext, Forall_Forall2_diag, Forall_seqZ. intros j Hj. unfold visible_row.
    by rewrite (up_other _ _ _ _ Hup) by lia. }
  split_and!.
  - intros x [(j & Hj%elem_of_seqZ & Hx%Hrow)%list_elem_of_omap|(j & Hj%elem_of_seqZ & Hx%Hrow)%list_elem_of_omap]%elem_of_app; lia.
  - unfold visible_rows. rewrite Hcut, omap_app. cbn [omap list_omap]. by destruct (visible_row snap p i).
  - unfold visible_rows. rewrite (up_n _ _ _ _ Hup), Hcut, omap_app. cbn [omap list_omap].
    rewrite !Hsame by lia. by destruct (visible_row snap p' i).
Qed.

(** A row the snapshot does not see any more because of a deletion it sees. *)
Definition gone (snap : TransactionSnapshot) (h : RowHeader) : Prop :=
  sees snap (txn_id_created h) /\ txn_id_deleted h ≠ 0 /\ sees snap (txn_id_deleted h).

Lemma restamp_visible snap h d t :
  ~ sees snap t -> is_visible (set_deleted t (h, d)).1 snap = is_visible h snap \/
    (gone snap h /\ is_visible h snap = false /\ is_visible (set_deleted t (h, d)).1 snap = true).
Proof.
  intros Hs. unfold gone. destruct (is_visible h snap) eqn:Hv; destruct (is_visible (set_deleted t (h, d)).1 snap) eqn:Hv'; [by left| | |by left].
  - exfalso. apply is_visible_spec in Hv as [Hc _]. apply not_true_iff_false in Hv'. apply Hv', is_visible_spec. cbn. tauto.
  - right. apply is_visible_spec in Hv' as [Hc _]. apply not_true_iff_false in Hv.
    split; [|split; [|done]].
    + cbn in Hc. split; [done|]. destruct (decide (txn_id_deleted h = 0)) as [H0|H0].
      * destruct Hv. apply is_visible_spec. tauto.
      * split; [done|]. destruct (decide (sees snap (txn_id_deleted h))) as [?|Hn]; [done|].
        destruct Hv. apply is_visible_spec. tauto.
    + by apply not_true_iff_false.
Qed.

(** Deleting for a transaction the snapshot does not see: the scan stays as it is, except
    that a row the snapshot knew to be deleted comes back, since its stamp is overwritten. *)
Lemma delete_scan p i h d t snap :
  heap_wf p -> 0 <= i -> in_u64 t -> read_tuple p i = Some (Ok (Some (h, d))) -> ~ sees snap t ->
  exists p' rows rows', delete_tuple p i t = Some (Ok tt, p') /\ scan_visible p snap = Some rows /\
    scan_visible p' snap = Some rows' /\
    (~ gone snap h -> rows' = rows) /\ (gone snap h -> ~ (i, d) ∈ rows /\ rows' ≡ₚ ((i, d) :: rows)).
Proof.
  intros Hwf Hi Ht Hr Hs. destruct (delete_tuple_spec p i t Hwf Hi Ht) as (r & p' & Hdel & _ & H).
  rewrite read_tuple_wf in Hr by done. destruct (Z.leb_spec (num_slots p) i) as [|Hlt]; [done|].
  assert (Hu : tuple_at p i = Some (h, d)) by congruence. rewrite Hu in H. destruct H as (-> & Hup & _).
  pose proof (up_wf _ _ _ _ Hup) as Hwf'. pose proof (up_self _ _ _ _ Hup) as Hu'.
  destruct (visible_rows_split snap p p' i _ Hwf (conj Hi Hlt) Hup) as (l & r & Hout & Hv & Hv').
  exists p', (visible_rows snap p), (visible_rows snap p').
  split_and!; [done|by apply scan_visible_spec|by apply scan_visible_spec| |]; rewrite Hv, Hv'; unfold visible_row; rewrite Hu, Hu';
    destruct (restamp_visible snap h d t Hs) as [He|(Hg & Hf & Ht')].
  - intros _. cbn in He |- *. by rewrite He.
  - done.
  - intros Hg. assert (Hf : is_visible h snap = false).
    { apply not_true_iff_false. rewrite is_visible_spec. intros [_ [?|?]]; by destruct Hg as (_ & ? & ?). }
    assert (Ht' : is_visible (set_deleted t (h, d)).1 snap = true).
    { apply is_visible_spec. split; [apply Hg|]. by right. }
    congruence.
  - intros _. cbn in Ht' |- *. rewrite Hf, Ht'. cbn. split; [intros Hin; by apply (Hout _ Hin)|].
    by rewrite Permutation_middle.
Qed.

(** Rewriting a row in place for a transaction the snapshot does not see takes the row out
    of its scan; a row that does not fit in its slot stays. *)
Lemma rewrite_scan p i data t snap :
  heap_wf p -> live p i -> bytes_ok data -> in_u64 t -> zlen data < 2 ^ 62 -> ~ sees snap t ->
  exists r p' rows, try_rewrite_tuple_same_slot_no_checksum p i data t = Some (Ok r, p') /\
    scan_visible p snap = Some rows /\
    scan_visible p' snap = Some (if r is Some _ then filter (fun x => x.1 ≠ i) rows else rows).
Proof.
  intros Hwf Hl Hd Ht Hlen Hs. destruct (slot_capacity_spec p i Hwf Hl) as (cap & Hcap & _ & _).
  destruct (Z.ltb_spec cap (8 * ((24 + zlen data + 7) / 8))) as [Hsmall|Hfit].
  - destruct (clear_same p Hwf) as (Hw0 & Hn & _ & _ & Hq & Hall). destruct (Hall i (proj1 Hl)) as [Hsl _].
    exists None, (clear_all_visible p), (visible_rows snap p). split_and!; [|by apply scan_visible_spec|].
    + unfold try_rewrite_tuple_same_slot_no_checksum. rewrite Hn, (proj2 (Z.leb_gt _ _)) by apply Hl.
      rewrite read_slot_wf, Hsl, (proj2 Hl) by (done || rewrite Hn; apply Hl). unfold ROW_HEADER_SIZE.
      rewrite (slot_capacity_quiet p), Hcap, align8_spec by (done || lia || apply Hl).
      by rewrite (proj2 (Z.ltb_lt _ _)) by lia.
    + rewrite scan_visible_spec by done. f_equal. unfold visible_rows. rewrite Hn. apply visible_rows_ext.
      intros j Hj. unfold visible_row. by rewrite (proj2 (Hall j Hj)).
  - destruct (rewrite_fits p i data t cap) as (old & p' & h & d & Hr & _ & Hu & Hup & _); [done..|].
    destruct (visible_rows_split snap p p' i _ Hwf (proj1 Hl) Hup) as (l & r & Hout & Hv & Hv').
    exists (Some old), p', (visible_rows snap p). split_and!; [done|by apply scan_visible_spec|].
    rewrite scan_visible_spec by apply Hup. f_equal. rewrite Hv, Hv'. unfold visible_row at 1.
    rewrite (up_self _ _ _ _ Hup), unseen_creator by done. rewrite !filter_app. cbn [option_list app].
    assert (Hk : forall k : list (Z * bytes), (forall x, x ∈ k -> x.1 ≠ i) -> filter (fun x : Z * bytes => x.1 ≠ i) k = k).
    { induction k as [|x k IH]; intros Hx; [done|]. rewrite filter_cons_True by (apply Hx; set_solver). f_equal.
      apply IH. set_solver. }
    rewrite (Hk l), (Hk r) by (intros x Hx; apply Hout; set_solver). f_equal. unfold visible_row. rewrite Hu.
    destruct (is_visible h snap); [|done]. cbn. by rewrite decide_False by naive_solver.
Qed.

(** inserting into a well-formed heap page either reports HeapPageFull and leaves
    every byte alone, exactly when slot entry and aligned tuple do not fit, or
    returns the next slot id, at which the new row (created by the transaction, not
    deleted, version 0) reads back while every older row reads as before; the
    result is well formed with a valid checksum, and undoing the insert with
    mark_slot_dead makes that slot read as dead and again leaves the others. *)
Theorem heap_insert_correct p data t :
  heap_wf p -> bytes_ok data -> in_u64 t -> zlen data < 2 ^ 62 ->
  let need := 4 + 8 * ((24 + zlen data + 7) / 8) in
  let new := num_slots p in
  if free_space p <? need then
    insert_tuple p data t = Some (Err (HeapPageFull (hdr_page_id p) need (free_space p)), p)
  else exists p' p'',
    insert_tuple p data t = Some (Ok new, p') /\
    heap_wf p' /\ checksum_valid p' /\ num_slots p' = new + 1 /\ free_space p' = free_space p - need /\
    read_tuple p' new = Some (Ok (Some (mkRow t 0 0 0, data))) /\
    mark_slot_dead p' new = Some (Ok tt, p'') /\ heap_wf p'' /\ checksum_valid p'' /\
    read_tuple p'' new = Some (Ok None) /\
    forall j, 0 <= j < new -> read_tuple p' j = read_tuple p j /\ read_tuple p'' j = read_tuple p j.
Proof.
  intros Hwf Hd Ht Hlen need new. pose proof (insert_tuple_spec p data t Hwf Hd Ht Hlen) as H.
  cbv zeta in H. fold need in H. destruct (free_space p <? need); [done|].
  destruct H as (p' & Hins & [Hwf' Hn' Hnew Hold] & Hck & Hsp). fold new in Hins, Hn', Hnew, Hold.
  pose proof (num_slots_range p Hwf) as Hr.
  destruct (mark_slot_dead_spec p' new Hwf') as (r & p'' & Hdead & Hspec); [lia|].
  rewrite (proj2 (Z.leb_gt _ _)) in Hspec by lia. destruct Hspec as (-> & Hup & Hck').
  exists p', p''. split_and!; try done; try apply Hup.
  - by apply read_tuple_at; [|lia|].
  - apply read_tuple_at; [apply Hup|rewrite (up_n _ _ _ _ Hup); lia|apply Hup].
  - intros j Hj. pose proof (up_n _ _ _ _ Hup). split; (apply read_tuple_ext; [done| |done|lia|]).
    + done.
    + by apply Hold.
    + apply Hup.
    + rewrite (up_other _ _ _ _ Hup) by lia. by apply Hold.
Qed.

(** Deleting a row stamps the deleting transaction into its header and changes no
    other row; invalid and dead slots are refused with their errors. Every path clears
    the all-visible flag and keeps the page well formed, and clear_deletion undoes
    the stamp of a row that was not deleted before. *)
Theorem heap_delete_correct p i t :
  heap_wf p -> 0 <= i -> in_u64 t ->
  exists r p', delete_tuple p i t = Some (r, p') /\ is_all_visible p' = false /\ heap_wf p' /\
    match read_tuple p i with
    | Some (Err e) => r = Err e /\ same_heap p p'
    | Some (Ok None) => r = Err (AlreadyDeleted (hdr_page_id p) i) /\ same_heap p p'
    | Some (Ok (Some (mkRow c d v f, data))) =>
        r = Ok tt /\ checksum_valid p' /\ num_slots p' = num_slots p /\ free_space p' = free_space p /\
        read_tuple p' i = Some (Ok (Some (mkRow c t v f, data))) /\
        (forall j, 0 <= j < num_slots p -> j ≠ i -> read_tuple p' j = read_tuple p j) /\
        exists p'', clear_deletion p' i = Some (Ok tt, p'') /\ heap_wf p'' /\
          read_tuple p'' i = Some (Ok (Some (mkRow c 0 v f, data))) /\
          forall j, 0 <= j < num_slots p -> j ≠ i -> read_tuple p'' j = read_tuple p j
    | None => False
    end.
Proof.
  intros Hwf Hi Ht. destruct (delete_tuple_spec p i t Hwf Hi Ht) as (r & p' & Hdel & Hav & H).
  exists r, p'. rewrite read_tuple_wf by done.
  destruct (Z.leb_spec (num_slots p) i).
  { destruct H as [-> Hq]. pose proof (quiet_same p p' Hwf Hq) as Hs. split_and!; try done. apply Hs. }
  destruct (tuple_at p i) as [[[c d v f] data]|] eqn:Hu.
  2:{ destruct H as [-> Hq]. pose proof (quiet_same p p' Hwf Hq) as Hs. split_and!; try done. apply Hs. }
  destruct H as (-> & Hup & Hck). pose proof (up_n _ _ _ _ Hup) as Hn.
  destruct (clear_deletion_spec p' i (up_wf _ _ _ _ Hup) Hi) as (r' & p'' & Hclr & H).
  rewrite Hn, (proj2 (Z.leb_gt _ _)), (up_self _ _ _ _ Hup) in H by lia. destruct H as (-> & Hup2 & _).
  pose proof (updated_trans _ _ _ _ _ _ Hup Hup2) as Hup3.
  pose proof (up_n _ _ _ _ Hup3) as Hn3.
  split_and!; try done; try apply Hup.
  - apply read_tuple_at; [apply Hup|lia|apply Hup].
  - intros j Hj Hne. apply read_tuple_ext; [done|apply Hup|done|lia|by apply Hup].
  - exists p''. split_and!; [done|apply Hup3| |].
    + apply read_tuple_at; [apply Hup3|lia|apply Hup3].
    + intros j Hj Hne. apply read_tuple_ext; [done|apply Hup3|done|lia|by apply Hup3].
Qed.

(** Rewriting a row in place succeeds exactly when the aligned new tuple fits in the
    slot's capacity (up to the next tuple). Then the row reads as the new data, created by
    the transaction, with its version incremented and its flags kept, no other row
    changes, and restore_tuple_image with the returned image brings every slot entry
    and every row back. Otherwise the rows are as before, with None or the error. *)
Theorem heap_rewrite_correct p i data t :
  heap_wf p -> 0 <= i -> bytes_ok data -> in_u64 t -> zlen data < 2 ^ 62 ->
  exists r p', rewrite_tuple_same_slot p i data t = Some (r, p') /\ is_all_visible p' = false /\
    match read_tuple p i with
    | Some (Err e) => r = Err e /\ same_heap p p'
    | Some (Ok None) => r = Err (AlreadyDeleted (hdr_page_id p) i) /\ same_heap p p'
    | Some (Ok (Some (h, d))) => exists cap, slot_capacity p i = Some (Ok cap) /\
        if cap <? 8 * ((24 + zlen data + 7) / 8) then r = Ok None /\ same_heap p p'
        else exists old p'', r = Ok (Some old) /\ checksum_valid p' /\
          read_tuple_image p i = Some (Ok (Some old)) /\
          read_tuple p' i = Some (Ok (Some (mkRow t 0 (saturating_add32 (row_version h) 1) (rh_flags h), data))) /\
          (forall j, 0 <= j < num_slots p -> j ≠ i -> read_tuple p' j = read_tuple p j) /\
          restore_tuple_image p' i old = Some (Ok tt, p'') /\ heap_wf p'' /\ checksum_valid p'' /\
          num_slots p'' = num_slots p /\
          forall j, 0 <= j < num_slots p -> slot_at p'' j = slot_at p j /\ read_tuple p'' j = read_tuple p j
    | None => False
    end.
Proof.
  intros Hwf Hi Hd Ht Hlen. destruct (rewrite_tuple_spec p i data t Hwf Hi Hd Ht Hlen) as (r & p' & Hrw & Hav & H).
  exists r, p'. rewrite read_tuple_wf by done. split; [done|]. split; [done|].
  destruct (Z.leb_spec (num_slots p) i).
  { destruct H as [-> Hq]. split; [done|by apply quiet_same]. }
  destruct (tuple_at p i) as [[h d]|] eqn:Hu.
  2:{ destruct H as [-> Hq]. split; [done|by apply quiet_same]. }
  destruct H as (cap & Hcap & H). exists cap. split; [done|].
  destruct (cap <? _); [destruct H as [-> Hq]; split; [done|by apply quiet_same]|].
  destruct H as (old & -> & Hold & Hup & Hoff & Hck).
  assert (Hlive : live p i) by (rewrite <-live_tuple by (done || lia); by rewrite Hu).
  destruct (restore_after p p' i _ old Hwf Hlive Hup Hoff Hold) as (p'' & Hres & Hck2 & Hwf2 & Hn2 & Hall).
  pose proof (up_n _ _ _ _ Hup) as Hn. exists old, p''. split_and!; try done.
  - unfold read_tuple_image. rewrite (proj2 (Z.leb_gt _ _)) by lia.
    by rewrite read_slot_wf, (proj2 Hlive), Hold by (done || lia).
  - apply read_tuple_at; [apply Hup|lia|apply Hup].
  - intros j Hj Hne. apply read_tuple_ext; [done|apply Hup|done|lia|by apply Hup].
  - intros j Hj. split; [by apply Hall|]. apply read_tuple_ext; [done..|lia|by apply Hall].
Qed.

(** scanning a page under a snapshot never panics and returns exactly, in slot
    order, the rows whose creator the snapshot sees (its own transaction, or one that
    committed before it and was not active) and whose deleter, if any, it does not. *)
Theorem heap_scan_correct p snap :
  heap_wf p ->
  exists rows, scan_visible p snap = Some rows /\ StronglySorted Z.lt rows.*1 /\
    forall i d, (i, d) ∈ rows <-> 0 <= i < num_slots p /\ exists h, read_tuple p i = Some (Ok (Some (h, d))) /\
      sees snap (txn_id_created h) /\ (txn_id_deleted h = 0 \/ ~ sees snap (txn_id_deleted h)).
Proof.
  intros Hwf. exists (visible_rows snap p). split_and!; [by apply scan_visible_spec| |].
  - apply visible_rows_sorted.
  - intros i d. unfold visible_rows. rewrite list_elem_of_omap. setoid_rewrite elem_of_seqZ. split.
    + intros (k & Hk & Hv). unfold visible_row in Hv. destruct (tuple_at p k) as [[h d']|] eqn:Hu; [|done].
      destruct (is_visible h snap) eqn:Hvis; [|done]. simplify_eq. split; [lia|]. exists h.
      split; [apply read_tuple_at; [done|lia|done]|]. by apply is_visible_spec.
    + intros (Hi & h & Hr & Hvis%is_visible_spec). exists i. split; [lia|].
      rewrite read_tuple_wf, (proj2 (Z.leb_gt _ _)) in Hr by (done || lia). unfold visible_row.
      simplify_eq. rewrite Hr, Hvis. done.
Qed.

(** C11: what transaction t does to a page as a snapshot that does not see t scans it, for
    any row of the page with a live slot. An insert leaves the scan as it is. A delete
    always succeeds; it leaves the scan as it is unless the snapshot saw the row's creator
    and an earlier deleter, whose stamp the delete overwrites: then the row comes back
    into the scan. The in-place rewrite of an UPDATE takes the row out of the scan when
    the new tuple fits in the slot, and leaves the scan as it is when it does not. *)
Theorem heap_snapshot_isolation p i h d data t snap :
  heap_wf p -> bytes_ok data -> in_u64 t -> zlen data < 2 ^ 62 -> 0 <= i ->
  read_tuple p i = Some (Ok (Some (h, d))) -> ~ sees snap t ->
  exists rows, scan_visible p snap = Some rows /\
    (exists r p', insert_tuple p data t = Some (r, p') /\ scan_visible p' snap = Some rows) /\
    (exists p' rows', delete_tuple p i t = Some (Ok tt, p') /\ scan_visible p' snap = Some rows' /\
      (~ gone snap h -> rows' = rows) /\ (gone snap h -> ~ (i, d) ∈ rows /\ rows' ≡ₚ ((i, d) :: rows))) /\
    (exists r p', try_rewrite_tuple_same_slot_no_checksum p i data t = Some (Ok r, p') /\
      scan_visible p' snap = Some (if r is Some _ then filter (fun x => x.1 ≠ i) rows else rows)).
Proof.
  intros Hwf Hd Ht Hlen Hi Hr Hsees.
  destruct (insert_isolated p data t snap Hwf Hd Ht Hlen Hsees) as (ri & pi & Hins & _ & Hsi).
  destruct (delete_scan p i h d t snap Hwf Hi Ht Hr Hsees) as (pd & rows & rows' & Hdel & Hrows & Hd1 & Hd2).
  destruct (rewrite_scan p i data t snap Hwf (read_live p i h d Hwf Hi Hr) Hd Ht Hlen Hsees) as (ru & pu & rows1 & Hrw & Hrows1 & Hu).
  assert (rows1 = rows) as -> by congruence. exists rows. split_and!; [done| | |by exists ru, pu].
  - exists ri, pi. by rewrite Hsi.
  - by exists pd, rows'.
Qed.
End Properties.

(** ** Concrete instances: a data page with one row, inserted by transaction 5 *)

Definition sample_empty : Page := @page_new crc32c_ref PtData 7.
Definition sample_page : Page :=
  match @insert_tuple crc32c_ref sample_empty [1; 2; 3] 5 with Some (_, p) => p | None => [] end.

Lemma sample_data : bytes_ok [1; 2; 3] /\ in_u64 5 /\ zlen [1; 2; 3] < 2 ^ 62.
Proof. split_and!; [repeat constructor; widths|widths|done]. Qed.

Lemma sample_empty_wf :
  heap_wf sample_empty /\ num_slots sample_empty = 0 /\ free_space sample_empty = PAGE_SIZE - HEADER_SIZE.
Proof. unfold sample_empty. exact (@page_new_heap_wf crc32c_ref PtData 7 ltac:(widths)). Qed.

Lemma sample_page_wf :
  heap_wf sample_page /\ num_slots sample_page = 1 /\
  read_tuple sample_page 0 = Some (Ok (Some (mkRow 5 0 0 0, [1; 2; 3]))).
Proof.
  destruct sample_empty_wf as (Hwf & Hn & Hsp). destruct sample_data as (Hd & Ht & Hl).
  pose proof (@insert_tuple_spec crc32c_ref crc32c_ref_range sample_empty [1; 2; 3] 5 Hwf Hd Ht Hl) as H.
  cbv zeta in H. rewrite Hsp, Hn in H. change (_ <? _) with false in H. destruct H as (p' & Hins & Hap & _).
  assert (sample_page = p') as -> by (unfold sample_page; by rewrite Hins).
  destruct Hap as [Hwf' Hn' Hnew _]. rewrite Hn in *. split_and!; [done|done|].
  apply read_tuple_at; [done|lia|done].
Qed.

Lemma heap_insert_correct_witness :
  exists p', @insert_tuple crc32c_ref sample_empty [1; 2; 3] 5 = Some (Ok 0, p') /\
    read_tuple p' 0 = Some (Ok (Some (mkRow 5 0 0 0, [1; 2; 3]))).
Proof.
  destruct sample_empty_wf as (Hwf & Hn & Hsp). destruct sample_data as (Hd & Ht & Hl).
  pose proof (@heap_insert_correct crc32c_ref crc32c_ref_range sample_empty [1; 2; 3] 5 Hwf Hd Ht Hl) as H.
  cbv zeta in H. rewrite Hsp, Hn in H. change (_ <? _) with false in H.
  destruct H as (p' & p'' & H1 & _ & _ & _ & _ & H2 & _). exists p'. split; [exact H1|exact H2].
Defined.

Lemma heap_delete_correct_witness :
  exists p', @delete_tuple crc32c_ref sample_page 0 9 = Some (Ok tt, p') /\
    read_tuple p' 0 = Some (Ok (Some (mkRow 5 9 0 0, [1; 2; 3]))).
Proof.
  destruct sample_page_wf as (Hwf & Hn & Hr). assert (H9 : in_u64 9) by widths.
  destruct (@heap_delete_correct crc32c_ref crc32c_ref_range sample_page 0 9 Hwf (Z.le_refl 0) H9)
    as (r & p' & Hdel & _ & _ & H).
  rewrite Hr in H. destruct H as (-> & _ & _ & _ & H & _). exists p'. split; [exact Hdel|exact H].
Defined.

Lemma heap_rewrite_correct_witness :
  exists r p', @rewrite_tuple_same_slot crc32c_ref sample_page 0 [1; 2; 3] 5 = Some (r, p') /\
    is_all_visible p' = false.
Proof.
  destruct sample_page_wf as (Hwf & Hn & Hr). destruct sample_data as (Hd & Ht & Hl).
  destruct (@heap_rewrite_correct crc32c_ref crc32c_ref_range sample_page 0 [1; 2; 3] 5 Hwf (Z.le_refl 0) Hd Ht Hl)
    as (r & p' & Hrw & Hav & _).
  exists r, p'. split; [exact Hrw|exact Hav].
Defined.

Lemma heap_scan_correct_witness :
  exists rows, scan_visible sample_page (snap_committed 5) = Some rows /\ (0, [1; 2; 3]) ∈ rows.
Proof.
  destruct sample_page_wf as (Hwf & Hn & Hr).
  destruct (heap_scan_correct sample_page (snap_committed 5) Hwf) as (rows & Hs & _ & Hin).
  exists rows. split; [exact Hs|]. apply Hin. split; [lia|]. eexists. split; [exact Hr|]. split; [|by left].
  right. split; [done|apply not_elem_of_empty].
Defined.

(** Transaction 9 on the sample page, whose row a snapshot of the state committed up to 5
    scans; then 9 on the same page after 6 deleted the row, for a snapshot up to 6. *)
Definition sample_deleted : Page :=
  match @delete_tuple crc32c_ref sample_page 0 6 with Some (_, p) => p | None => [] end.

Lemma sample_deleted_wf :
  heap_wf sample_deleted /\ read_tuple sample_deleted 0 = Some (Ok (Some (mkRow 5 6 0 0, [1; 2; 3]))).
Proof.
  destruct sample_page_wf as (Hwf & Hn & Hr). assert (H6 : in_u64 6) by widths.
  destruct (@delete_tuple_spec crc32c_ref crc32c_ref_range sample_page 0 6 Hwf (Z.le_refl 0) H6) as (r & p' & Hdel & _ & H).
  rewrite Hn in H. rewrite read_tuple_wf, Hn in Hr by (done || lia). cbn in Hr, H.
  assert (Hu : tuple_at sample_page 0 = Some (mkRow 5 0 0 0, [1; 2; 3])) by congruence. rewrite Hu in H.
  destruct H as (-> & Hup & _). assert (sample_deleted = p') as -> by (unfold sample_deleted; by rewrite Hdel).
  split; [apply Hup|]. apply read_tuple_at; [apply Hup| |exact (up_self _ _ _ _ Hup)].
  rewrite (up_n _ _ _ _ Hup), Hn. lia.
Qed.

Lemma heap_snapshot_isolation_witness :
  (exists p', @delete_tuple crc32c_ref sample_page 0 9 = Some (Ok tt, p') /\
    scan_visible p' (snap_committed 5) = scan_visible sample_page (snap_committed 5)) /\
  exists p' rows, @delete_tuple crc32c_ref sample_deleted 0 9 = Some (Ok tt, p') /\
    scan_visible p' (snap_committed 6) = Some rows /\ (0, [1; 2; 3]) ∈ rows.
Proof.
  destruct sample_page_wf as (Hwf & Hn & Hr). destruct sample_deleted_wf as (Hwf6 & Hr6).
  destruct sample_data as (Hd & _ & Hl). assert (H9 : in_u64 9) by widths.
  assert (Hs : forall k, k = 5 \/ k = 6 -> ~ sees (snap_committed k) 9).
  { intros k [-> | ->] [[H _]|[H _]]; try (by apply H); done. }
  split.
  - destruct (@heap_snapshot_isolation crc32c_ref crc32c_ref_range sample_page 0 _ _ [1; 2; 3] 9
      (snap_committed 5) Hwf Hd H9 Hl (Z.le_refl 0) Hr (Hs 5 (or_introl eq_refl))) as (rows & Hrows & _ & (p' & rows' & Hdel & Hs' & He & _) & _).
    exists p'. split; [exact Hdel|]. rewrite Hs', Hrows, He; [reflexivity|]. intros (_ & H & _). by apply H.
  - destruct (@heap_snapshot_isolation crc32c_ref crc32c_ref_range sample_deleted 0 _ _ [1; 2; 3] 9
      (snap_committed 6) Hwf6 Hd H9 Hl (Z.le_refl 0) Hr6 (Hs 6 (or_intror eq_refl))) as (rows & Hrows & _ & (p' & rows' & Hdel & Hs' & _ & Hg) & _).
    exists p', rows'. split; [exact Hdel|]. split; [exact Hs'|].
    assert (Hgone : gone (snap_committed 6) (mkRow 5 6 0 0)).
    { split_and!; [|done|]; right; (split; [done|apply not_elem_of_empty]). }
    destruct (Hg Hgone) as [_ ->]. apply list_elem_of_here.
Defined.

Lemma rewrite_too_big {C : Crc32c} {CR : Crc32cRange C} p i u :
  heap_wf p -> 0 <= i < num_slots p -> tuple_at p i = Some u ->
  exists p', rewrite_tuple_same_slot p i (replicate (Z.to_nat PAGE_SIZE) 0) 9 = Some (Ok None, p') /\
    is_all_visible p' = false.
Proof.
  intros Hwf Hi Hu. set (bs := replicate (Z.to_nat PAGE_SIZE) 0).
  assert (Hlb : zlen bs = PAGE_SIZE) by (unfold bs; rewrite length_replicate; apply Z2Nat.id; done).
  assert (Hlive : live p i) by (rewrite <-live_tuple by done; by rewrite Hu).
  destruct (rewrite_tuple_spec p i bs 9) as (r & p' & Hrw & Hav & H);
    [done|lia|apply Forall_replicate; widths|widths|by rewrite Hlb|].
  exists p'. rewrite (proj2 (Z.leb_gt _ _)), Hu in H by lia. destruct u as [h d]. destruct H as (cap & Hcap & H).
  destruct (slot_capacity_spec p i Hwf Hlive) as (cap' & Hcap' & [Hb _] & _).
  assert (cap' = cap) as -> by congruence.
  pose proof (lo_low _ _ (hw_live _ Hwf i Hlive)). pose proof (hw_start _ Hwf). pose proof (hw_end _ Hwf).
  assert (Hc : cap < 8 * ((24 + zlen bs + 7) / 8)).
  { pose proof (align8_bounds (24 + zlen bs)). lia. }
  rewrite (proj2 (Z.ltb_lt _ _) Hc) in H. by destruct H as [-> _].
Qed.

(** A rewrite that does not fit returns [None] but has cleared the all-visible flag of
    the page, which the documentation says is left untouched. *)
Theorem rewrite_none_clears_flag :
  exists p p' bs, @rewrite_tuple_same_slot crc32c_ref p 0 bs 9 = Some (Ok None, p') /\
    heap_wf p /\ is_all_visible p = true /\ is_all_visible p' = false.
Proof.
  destruct sample_page_wf as (Hwf & Hn & Hr). generalize dependent sample_page. intros q Hwf Hn Hr.
  pose proof (quiet_set q (hw_page _ Hwf)) as Hq.
  destruct (quiet_same q (set_all_visible q) Hwf Hq) as (Hwf' & Hn' & _ & _ & Hall).
  rewrite read_tuple_wf, Hn in Hr by done. cbn [Z.leb Z.compare] in Hr.
  destruct (@rewrite_too_big crc32c_ref crc32c_ref_range (set_all_visible q) 0 (mkRow 5 0 0 0, [1; 2; 3]))
    as (p' & Hrw & Hav); [done|lia|rewrite (proj2 (Hall 0 ltac:(lia))); congruence|].
  eexists (set_all_visible q), p', _. split_and!; [exact Hrw|done| |done].
  apply (all_visible_flag q (hw_page _ Hwf)).
Qed.
