(* ===== verification/PageRows.v ===== *)
(** * Rows of a page that stay where they are

    The changes of heap.rs never move a live tuple: rows are appended below all others and
    changed in place.  That is what makes an old image restorable later: the room of a
    slot is still there.  [touched] is a change of one slot, [kept] any number of changes
    that kill no row. *)

From S2P Require Import Prelude SlotBitmap Page FreeList Heap.

(** ** Pages under single-row changes *)

(** [p'] is [p] with slot [i], an old one or the next one, changed; no tuple moved. *)
Record touched (p p' : Page) (i : Z) : Prop := {
  td_heap : heap_page p';
  td_range : 0 <= i <= num_slots p;
  td_n : num_slots p' = Z.max (num_slots p) (i + 1);
  td_slots : forall j, 0 <= j < num_slots p -> j ≠ i -> slot_at p' j = slot_at p j /\ tuple_at p' j = tuple_at p j;
  td_off : i < num_slots p -> is_dead (slot_at p' i) = false ->
    is_dead (slot_at p i) = false /\ s_offset (slot_at p' i) = s_offset (slot_at p i);
  td_new : i = num_slots p -> forall j, live p j -> s_offset (slot_at p' i) < s_offset (slot_at p j);
  td_reserved : reserved p' = reserved p
}.

Lemma updated_touched p p' i T : heap_page p -> 0 <= i < num_slots p -> updated p p' i T -> touched p p' i.
Proof.
  intros [Hwf Hm] Hi Hup. split; [split; [apply Hup|by rewrite (up_magic _ _ _ _ Hup)]|lia| | | |lia|apply Hup].
  - rewrite (up_n _ _ _ _ Hup). lia.
  - intros j Hj Hne. split; [by apply (up_slots _ _ _ _ Hup)|by apply (up_other _ _ _ _ Hup)].
  - intros _. apply Hup.
Qed.

Lemma appended_touched p p' T : heap_page p -> appended p p' T -> touched p p' (num_slots p).
Proof.
  intros [Hwf Hm] Hap. pose proof (num_slots_range p Hwf).
  split; [split; [apply Hap|by rewrite (ap_magic _ _ _ Hap)]|lia| | |lia| |apply Hap].
  - rewrite (ap_n _ _ _ Hap). lia.
  - intros j Hj Hne. split; [by apply (ap_slots _ _ _ Hap)|by apply (ap_old _ _ _ Hap)].
  - intros _. apply Hap.
Qed.

(** A tuple that starts lower ends before the other starts. *)
Lemma apart_lower p i j :
  heap_wf p -> live p i -> live p j -> j ≠ i -> s_offset (slot_at p j) < s_offset (slot_at p i) ->
  s_offset (slot_at p j) + 8 * ((s_length (slot_at p j) + 7) / 8) <= s_offset (slot_at p i).
Proof.
  intros Hwf Hi Hj Hne Hlt. pose proof (align8_bounds (s_length (slot_at p i))).
  pose proof (lo_len _ _ (hw_live _ Hwf i Hi)). destruct (hw_apart _ Hwf j i Hj Hi Hne); lia.
Qed.

Lemma touched_live p p' k i : touched p p' k -> live p i -> i ≠ k -> live p' i /\ slot_at p' i = slot_at p i.
Proof.
  intros Ht [Hi Hd] Hne. destruct (td_slots _ _ _ Ht i Hi Hne) as [Hs _]. pose proof (td_n _ _ _ Ht).
  split; [|done]. split; [lia|by rewrite Hs].
Qed.

(** Live tuples stay at their places, and new ones are below. *)
Definition settled (p p' : Page) : Prop :=
  (forall j, 0 <= j < num_slots p -> live p' j -> live p j /\ s_offset (slot_at p' j) = s_offset (slot_at p j)) /\
  (forall k j, num_slots p <= k -> live p' k -> live p j -> s_offset (slot_at p' k) < s_offset (slot_at p j)).

Lemma touched_settled p p' i : touched p p' i -> settled p p'.
Proof.
  intros Ht. pose proof (td_n _ _ _ Ht). pose proof (td_range _ _ _ Ht). split.
  - intros j Hj [Hlj Hd]. destruct (decide (j = i)) as [->|Hne].
    + destruct (td_off _ _ _ Ht (proj2 Hj) Hd) as [Hd' Ho]. done.
    + destruct (td_slots _ _ _ Ht j Hj Hne) as [Hs _]. rewrite Hs in Hd |- *. done.
  - intros k j Hk [Hkr _] Hj. assert (k = i) as -> by lia. apply (td_new _ _ _ Ht); [lia|done].
Qed.

(** The room of a slot that stays live does not shrink. *)
Lemma room_settled p p' i b :
  heap_wf p -> heap_wf p' -> settled p p' -> live p i -> live p' i -> room p i b ->
  s_offset (slot_at p' i) = s_offset (slot_at p i) /\ room p' i b.
Proof.
  intros Hwf Hwf' [Ho Hnew] Hi Hi' [Hb Hother]. destruct (Ho i (proj1 Hi) Hi') as [_ Hoi].
  split; [done|]. split; [by rewrite Hoi|]. intros j Hj Hji. rewrite Hoi.
  assert (Hlow : s_offset (slot_at p' j) < s_offset (slot_at p i) ->
    s_offset (slot_at p' j) + 8 * ((s_length (slot_at p' j) + 7) / 8) <= s_offset (slot_at p i)).
  { rewrite <-Hoi. by apply apart_lower. }
  destruct (decide (j < num_slots p)) as [Hjn|Hjn]; [|right; apply Hlow, Hnew; [lia|done|done]].
  destruct (Ho j) as [Hjp Hoj]; [destruct Hj; lia|done|]. rewrite Hoj in *.
  destruct (Hother j Hjp Hji) as [?|Hle]; [by left|right]. apply Hlow.
  pose proof (align8_bounds (s_length (slot_at p j))). pose proof (lo_len _ _ (hw_live _ Hwf j Hjp)). lia.
Qed.

(** [slot_capacity] is all the room there is. *)
Lemma room_capacity p i c :
  heap_wf p -> live p i -> room p i (s_offset (slot_at p i) + c) ->
  exists cap, slot_capacity p i = Some (Ok cap) /\ c <= cap.
Proof.
  intros Hwf Hi Hr. pose proof Hi as [Hr0 Hd]. unfold slot_capacity.
  rewrite (proj2 (Z.leb_gt _ _)) by lia. rewrite read_slot_wf, Hd by done.
  destruct (capacity_loop_spec p i (seqZ 0 (num_slots p)) Hwf PAGE_SIZE) as (e1 & -> & Hle & Hall & Hex).
  { apply Forall_seqZ. intros. lia. }
  eexists. split; [reflexivity|]. destruct Hr as [Hb Hother].
  destruct Hex as [->|(j & Hj & Hne & Hlt & ->)]; [lia|].
  pose proof (align8_bounds (s_length (slot_at p j))). pose proof (lo_len _ _ (hw_live _ Hwf j Hj)).
  destruct (Hother j Hj Hne); lia.
Qed.

Lemma settled_trans p1 p2 p3 :
  num_slots p2 = num_slots p1 -> num_slots p3 = num_slots p2 -> settled p1 p2 -> settled p2 p3 -> settled p1 p3.
Proof.
  intros N1 N2 [O1 _] [O2 _]. split.
  - intros j Hj Hl. destruct (O2 j) as [Hl2 Ho2]; [lia|done|]. destruct (O1 j Hj Hl2). split; [done|congruence].
  - intros k j Hk [Hl _]. lia.
Qed.

(** ** Changes that kill no row *)

(** Every live tuple of [p] is live at its place in [p']. *)
Record kept (p p' : Page) : Prop := {
  kp_heap : heap_page p';
  kp_n : num_slots p <= num_slots p';
  kp_live : forall j, live p j -> live p' j;
  kp_settled : settled p p'
}.

Lemma kept_refl p : heap_page p -> kept p p.
Proof. intros Hh. split; [done|lia|done|]. split; [done|]. intros k j Hk [Hl _]. lia. Qed.

Lemma kept_trans p1 p2 p3 : kept p1 p2 -> kept p2 p3 -> kept p1 p3.
Proof.
  intros [H1 N1 L1 [O1 W1]] [H2 N2 L2 [O2 W2]]. split; [done|lia|by auto|]. split.
  - intros j Hj Hl. destruct (O2 j) as [Hl2 Ho2]; [lia|done|]. destruct (O1 j Hj Hl2). split; [done|congruence].
  - intros k j Hk Hl Hj. destruct (decide (k < num_slots p2)) as [Hk2|Hk2].
    + pose proof (proj1 Hl). destruct (O2 k) as [Hl2 ->]; [lia|done|]. by apply W1.
    + destruct (O1 j (proj1 Hj) (L1 j Hj)) as [_ <-]. apply W2; [lia|done|by apply L1].
Qed.

Lemma same_slots_kept p p' :
  heap_page p' -> num_slots p' = num_slots p -> (forall j, 0 <= j < num_slots p -> slot_at p' j = slot_at p j) -> kept p p'.
Proof.
  intros Hh Hn Hs. split; [done|lia| |split].
  - intros j [Hj Hd]. split; [lia|by rewrite Hs].
  - intros j Hj [_ Hd]. rewrite Hs in Hd |- * by done. done.
  - intros k j Hk [Hl _]. lia.
Qed.

Lemma requiet_kept p p' : heap_page p -> requiet p p' -> heap_page p' -> kept p p'.
Proof.
  intros Hh Hq Hh'. destruct (requiet_same p p' (proj1 Hh) Hq) as (_ & Hn & _ & _ & Hall).
  apply same_slots_kept; [done|done|]. intros j Hj. by apply Hall.
Qed.

(** A change of one slot that leaves it live. *)
Lemma touched_kept p p' i : touched p p' i -> live p' i -> kept p p'.
Proof.
  intros Ht Hl. pose proof (td_n _ _ _ Ht). split; [apply Ht|lia| |by eapply touched_settled].
  intros j Hj. destruct (decide (j = i)) as [->|Hne]; [done|by eapply touched_live].
Qed.

Lemma appended_kept p p' T : heap_page p -> appended p p' T -> T ≠ None -> kept p p'.
Proof.
  intros Hh Hap HT. pose proof (num_slots_range p (proj1 Hh)). apply (touched_kept p p' (num_slots p)); [by eapply appended_touched|].
  apply live_tuple; [apply Hap|rewrite (ap_n _ _ _ Hap); lia|by rewrite (ap_new _ _ _ Hap)].
Qed.

Lemma updated_kept p p' i T : heap_page p -> 0 <= i < num_slots p -> updated p p' i T -> T ≠ None -> kept p p'.
Proof.
  intros Hh Hi Hup HT. apply (touched_kept p p' i); [by eapply updated_touched|].
  apply live_tuple; [apply Hup|by rewrite (up_n _ _ _ _ Hup)|by rewrite (up_self _ _ _ _ Hup)].
Qed.
