(* ===== verification/Storage.v ===== *)
(** * The storage engine

    crates/axiomdb-storage/src/engine.rs, memory.rs and local_page_batch.rs.  The trait
    [StorageEngine] is a class of operations; [StorageLaws] is what its clients (the page
    batches below, the undo log) rely on; [MemoryStorage] implements it over the free
    list.  An operation takes the engine and returns its result and the engine after it,
    or [None] when it panics. *)

From S2P Require Import Prelude SlotBitmap Page FreeList.

(** ** The trait *)

Class StorageEngine (St : Type) : Type := {
  read_page : St -> Z -> option (Result Page);
  write_page : St -> Z -> Page -> option (Result unit * St);
  alloc_page : St -> PageType -> option (Result Z * St);
  free_page : St -> Z -> option (Result unit * St);
  page_count : St -> Z;
  alloc_page_batch : St -> Z -> PageType -> option (Result (list Z) * St);
  free_page_batch : St -> list Z -> option (Result unit * St);
  extension_waiters : St -> Z
}.

(** The default methods. *)
Section Defaults.
Context {St : Type} (alloc : St -> PageType -> option (Result Z * St))
  (free : St -> Z -> option (Result unit * St)).

Fixpoint default_alloc_loop (n : nat) (ids : list Z) (s : St) (ty : PageType)
    : option (Result (list Z) * St) :=
  match n with
  | O => Some (Ok ids, s)
  | S n' =>
      match alloc s ty with
      | None => None
      | Some (Err e, s') => Some (Err e, s')
      | Some (Ok id, s') => default_alloc_loop n' (ids ++ [id]) s' ty
      end
  end.
Definition default_alloc_page_batch (s : St) (n : Z) (ty : PageType) : option (Result (list Z) * St) :=
  default_alloc_loop (Z.to_nat n) [] s ty.

Fixpoint default_free_page_batch (s : St) (ids : list Z) : option (Result unit * St) :=
  match ids with
  | [] => Some (Ok tt, s)
  | id :: ids' =>
      match free s id with
      | None => None
      | Some (Err e, s') => Some (Err e, s')
      | Some (Ok _, s') => default_free_page_batch s' ids'
      end
  end.
End Defaults.

(** ** What clients rely on *)

(** The engine holds a map from page numbers to pages with valid checksums.  An
    allocation takes a page that is not in the map and puts a fresh one there, never one
    of the two reserved pages; a free takes it out, and succeeds on a batch of different
    pages that are in use and not reserved; other pages are untouched, whatever the
    result. *)
Class StorageLaws (St : Type) {C : Crc32c} {E : StorageEngine St} : Type := {
  st_wf : St -> Prop;
  st_page : St -> Z -> option Page;
  law_valid s i p : st_wf s -> st_page s i = Some p -> 0 <= i /\ page_ok p /\ verify_checksum p = Ok tt;
  law_read s i : st_wf s -> 0 <= i ->
    read_page s i = Some (match st_page s i with Some p => Ok p | None => Err (PageNotFound i) end);
  law_write s i p : st_wf s -> is_Some (st_page s i) -> page_ok p -> verify_checksum p = Ok tt ->
    exists s', write_page s i p = Some (Ok tt, s') /\ st_wf s' /\
      forall j, st_page s' j = if decide (j = i) then Some p else st_page s j;
  law_alloc s ty r s' : st_wf s -> alloc_page s ty = Some (r, s') -> st_wf s' /\
    match r with
    | Ok i => 2 <= i < U64_MAX /\ st_page s i = None /\
        forall j, st_page s' j = if decide (j = i) then Some (page_new ty i) else st_page s j
    | Err _ => forall j, st_page s' j = st_page s j
    end;
  law_free s i r s' : st_wf s -> 0 <= i -> free_page s i = Some (r, s') -> st_wf s' /\
    match r with
    | Ok _ => forall j, st_page s' j = if decide (j = i) then None else st_page s j
    | Err _ => forall j, st_page s' j = st_page s j
    end;
  law_alloc_batch s n ty r s' : st_wf s -> alloc_page_batch s n ty = Some (r, s') -> st_wf s' /\
    (forall j, is_Some (st_page s j) -> st_page s' j = st_page s j) /\
    match r with
    | Ok ids => NoDup ids /\ (forall i, i ∈ ids -> st_page s i = None /\ is_Some (st_page s' i)) /\
        Forall (fun i => 2 <= i < U64_MAX) ids /\ forall j, ~ j ∈ ids -> st_page s' j = st_page s j
    | Err _ => True
    end;
  law_free_batch s ids r s' : st_wf s -> Forall (fun i => 0 <= i) ids ->
    free_page_batch s ids = Some (r, s') -> st_wf s' /\
    (forall j, ~ j ∈ ids -> st_page s' j = st_page s j) /\
    match r with Ok _ => forall i, i ∈ ids -> st_page s' i = None | Err _ => True end;
  law_free_batch_ok s ids : st_wf s -> NoDup ids -> Forall (fun i => 2 <= i /\ is_Some (st_page s i)) ids ->
    exists s', free_page_batch s ids = Some (Ok tt, s')
}.

(** How many pages can still be allocated, for clients that must not fail: an engine with
    room allocates, a page in use that is not reserved can be freed, and only allocations
    use room up. *)
Class StorageRoom (St : Type) {C : Crc32c} {E : StorageEngine St} {L : StorageLaws St} : Type := {
  st_room : St -> Z;
  law_room_alloc s ty : st_wf s -> 0 < st_room s ->
    exists i s', alloc_page s ty = Some (Ok i, s') /\ st_room s - 1 <= st_room s';
  law_room_write s i p r s' : st_wf s -> write_page s i p = Some (r, s') -> st_room s <= st_room s';
  law_room_free s i : st_wf s -> is_Some (st_page s i) -> 2 <= i ->
    exists s', free_page s i = Some (Ok tt, s') /\ st_room s <= st_room s'
}.

(** ** The in-memory engine *)

Record MemoryStorage : Type := mkMem {
  ms_pages : list Page;
  ms_allocated : list bool;
  ms_freelist : FreeList
}.

Section Memory.
Context {C : Crc32c}.

Definition grow_arrays (inner : MemoryStorage) (new_len : Z) : MemoryStorage :=
  if zlen (ms_pages inner) <? new_len then
    mkMem (resize (Z.to_nat new_len) (page_new PtFree 0) (ms_pages inner))
      (resize (Z.to_nat new_len) false (ms_allocated inner)) (ms_freelist inner)
  else inner.

Definition mem_ensure_capacity (inner : MemoryStorage) (page_id : Z) : MemoryStorage :=
  if zlen (ms_pages inner) <=? page_id then grow_arrays inner (page_id + 1) else inner.

Definition mem_new : option MemoryStorage :=
  let pages := <[0%nat := page_new PtMeta 0]> (replicate 64 (page_new PtFree 0)) in
  let allocated := <[0%nat := true]> (replicate 64 false) in
  let! fl := fl_new 64 [0; 1] in
  Some (mkMem pages allocated fl).

Definition mem_read_page (inner : MemoryStorage) (page_id : Z) : option (Result Page) :=
  if zlen (ms_pages inner) <=? page_id then Some (Err (PageNotFound page_id))
  else
    match ms_allocated inner !! Z.to_nat page_id with
    | None => None
    | Some false => Some (Err (PageNotFound page_id))
    | Some true => let! p := ms_pages inner !! Z.to_nat page_id in Some (Ok p)
    end.

(** Storing a page at an index that has to exist. *)
Definition mem_put (inner : MemoryStorage) (page_id : Z) (p : Page) : option MemoryStorage :=
  let i := Z.to_nat page_id in
  match ms_pages inner !! i, ms_allocated inner !! i with
  | Some _, Some _ =>
      Some (mkMem (<[i := p]> (ms_pages inner)) (<[i := true]> (ms_allocated inner)) (ms_freelist inner))
  | _, _ => None
  end.

Definition mem_write_page (inner : MemoryStorage) (page_id : Z) (p : Page)
    : option (Result unit * MemoryStorage) :=
  match verify_checksum p with
  | Err e => Some (Err e, inner)
  | Ok _ =>
      if zlen (ms_pages inner) <=? page_id then Some (Err (PageNotFound page_id), inner)
      else let! inner' := mem_put inner page_id p in Some (Ok tt, inner')
  end.

Definition set_freelist (inner : MemoryStorage) (fl : FreeList) : MemoryStorage :=
  mkMem (ms_pages inner) (ms_allocated inner) fl.

Definition mem_alloc_page (inner : MemoryStorage) (page_type : PageType)
    : option (Result Z * MemoryStorage) :=
  match fl_alloc (ms_freelist inner) with
  | (Some page_id, fl) =>
      let inner := mem_ensure_capacity (set_freelist inner fl) page_id in
      let! inner' := mem_put inner page_id (page_new page_type page_id) in
      Some (Ok page_id, inner')
  | (None, fl) =>
      let new_total := total_pages fl + 64 in
      let! fl1 := grow fl new_total in
      let inner := grow_arrays (set_freelist inner fl1) new_total in
      match fl_alloc fl1 with
      | (None, fl2) => Some (Err FreelistEmptyAfterGrow, set_freelist inner fl2)
      | (Some page_id, fl2) =>
          let! inner' := mem_put (set_freelist inner fl2) page_id (page_new page_type page_id) in
          Some (Ok page_id, inner')
      end
  end.

Definition mem_free_page (inner : MemoryStorage) (page_id : Z) : option (Result unit * MemoryStorage) :=
  if (page_id =? 0) || (page_id =? 1) then Some (Err (CannotFreeReserved page_id), inner)
  else
    let allocated :=
      if page_id <? zlen (ms_allocated inner)
      then <[Z.to_nat page_id := false]> (ms_allocated inner) else ms_allocated inner in
    let! r := fl_free (ms_freelist inner) page_id in
    Some (r.1, mkMem (ms_pages inner) allocated r.2).

#[export] Instance memory_engine : StorageEngine MemoryStorage := {|
  read_page := mem_read_page;
  write_page := mem_write_page;
  alloc_page := mem_alloc_page;
  free_page := mem_free_page;
  page_count inner := total_pages (ms_freelist inner);
  alloc_page_batch := default_alloc_page_batch mem_alloc_page;
  free_page_batch := default_free_page_batch mem_free_page;
  extension_waiters _ := 0
|}.
End Memory.

(** ** Page batches of a transaction *)

Definition BATCH_ALLOC_SIZE : Z := 64.
Definition MAX_BATCH_SIZE : Z := 256.

#[export] Instance PageType_eq_dec : EqDecision PageType.
Proof. solve_decision. Defined.

Record LocalPageBatch : Type := mkBatch {
  available : list Z;
  current_type : option PageType;
  freed : list Z;
  last_refill_size : Z
}.

Definition batch_new : LocalPageBatch := mkBatch [] None [] BATCH_ALLOC_SIZE.

Section Batches.
Context {St : Type} {E : StorageEngine St}.

(** The part after the batch has the right type. *)
Definition pop_or_alloc (b : LocalPageBatch) (s : St) (ty : PageType)
    : option (Result Z * LocalPageBatch * St) :=
  match available b with
  | id :: rest => Some (Ok id, mkBatch rest (current_type b) (freed b) (last_refill_size b), s)
  | [] =>
      let waiters := extension_waiters s in
      let n := Z.min (Z.max (last_refill_size b * (waiters + 1)) BATCH_ALLOC_SIZE) MAX_BATCH_SIZE in
      match alloc_page_batch s n ty with
      | None => None
      | Some (Err e, s') => Some (Err e, b, s')
      | Some (Ok [], s') => Some (Err StorageFull, b, s')
      | Some (Ok (first :: rest), s') =>
          Some (Ok first, mkBatch (available b ++ rest) (current_type b) (freed b) n, s')
      end
  end.

Definition pop_or_refill (b : LocalPageBatch) (s : St) (ty : PageType)
    : option (Result Z * LocalPageBatch * St) :=
  if decide (current_type b = Some ty) then pop_or_alloc b s ty
  else
    match available b with
    | [] => pop_or_alloc (mkBatch [] (Some ty) (freed b) BATCH_ALLOC_SIZE) s ty
    | drained =>
        match free_page_batch s drained with
        | None => None
        | Some (Err e, s') => Some (Err e, mkBatch [] (current_type b) (freed b) (last_refill_size b), s')
        | Some (Ok _, s') => pop_or_alloc (mkBatch [] (Some ty) (freed b) BATCH_ALLOC_SIZE) s' ty
        end
    end.

Definition push_freed (b : LocalPageBatch) (page_id : Z) : LocalPageBatch :=
  mkBatch (available b) (current_type b) (freed b ++ [page_id]) (last_refill_size b).

Definition take_for_commit (b : LocalPageBatch) : (list Z * list Z) * LocalPageBatch :=
  ((available b, freed b), batch_new).

Definition take_for_rollback (b : LocalPageBatch) : list Z * LocalPageBatch := (available b, batch_new).

Definition freed_len (b : LocalPageBatch) : Z := zlen (freed b).
Definition truncate_freed (b : LocalPageBatch) (len : Z) : LocalPageBatch :=
  mkBatch (available b) (current_type b) (take (Z.to_nat len) (freed b)) (last_refill_size b).

Definition batch_alloc_page (s : St) (batch : option LocalPageBatch) (ty : PageType)
    : option (Result Z * option LocalPageBatch * St) :=
  match batch with
  | Some b => let! r := pop_or_refill b s ty in Some (r.1.1, Some r.1.2, r.2)
  | None => let! r := alloc_page s ty in Some (r.1, None, r.2)
  end.
End Batches.

(** ** The in-memory engine implements the map *)

(** The page a slot of the arrays holds. *)
Definition mem_page (s : MemoryStorage) (i : Z) : option Page :=
  if decide (0 <= i) then
    match ms_allocated s !! Z.to_nat i with
    | Some true => ms_pages s !! Z.to_nat i
    | _ => None
    end
  else None.

Record mem_wf {C : Crc32c} (s : MemoryStorage) : Prop := {
  mw_fl : fl_wf (ms_freelist s);
  mw_pages : zlen (ms_pages s) = total_pages (ms_freelist s);
  mw_alloc : zlen (ms_allocated s) = total_pages (ms_freelist s);
  mw_used i p : mem_page s i = Some p -> ~ i ∈ free_set (ms_freelist s);
  mw_two : 2 <= total_pages (ms_freelist s);
  mw_reserved : ~ 0 ∈ free_set (ms_freelist s) /\ ~ 1 ∈ free_set (ms_freelist s);
  mw_valid i p : mem_page s i = Some p -> page_ok p /\ verify_checksum p = Ok tt
}.

Lemma mem_page_Some s i p : mem_page s i = Some p <->
  0 <= i /\ ms_allocated s !! Z.to_nat i = Some true /\ ms_pages s !! Z.to_nat i = Some p.
Proof.
  unfold mem_page. case_decide as H0; [|split; [done|intros [? _]; done]].
  destruct (ms_allocated s !! Z.to_nat i) as [[]|]; naive_solver.
Qed.

Lemma mem_page_put s fl i p j :
  0 <= i < zlen (ms_pages s) -> zlen (ms_pages s) = zlen (ms_allocated s) ->
  mem_page (mkMem (<[Z.to_nat i := p]> (ms_pages s)) (<[Z.to_nat i := true]> (ms_allocated s)) fl) j =
  if decide (j = i) then Some p else mem_page s j.
Proof.
  intros Hi Hl. unfold mem_page. cbn [ms_pages ms_allocated]. case_decide as Hj.
  - case_decide as Hji; [subst j|].
    + by rewrite !list_lookup_insert_eq by lia.
    + by rewrite !list_lookup_insert_ne by lia.
  - rewrite decide_False; [done|]. lia.
Qed.

Lemma mem_page_clear s fl i j :
  0 <= i < zlen (ms_allocated s) ->
  mem_page (mkMem (ms_pages s) (<[Z.to_nat i := false]> (ms_allocated s)) fl) j =
  if decide (j = i) then None else mem_page s j.
Proof.
  intros Hi. unfold mem_page. cbn [ms_pages ms_allocated]. case_decide as Hj.
  - case_decide as Hji; [subst j|].
    + by rewrite !list_lookup_insert_eq by lia.
    + by rewrite !list_lookup_insert_ne by lia.
  - by case_decide.
Qed.

(** Growing the arrays adds no page. *)
Lemma mem_page_grow {C : Crc32c} s n j :
  zlen (ms_pages s) = zlen (ms_allocated s) -> mem_page (grow_arrays s n) j = mem_page s j.
Proof.
  intros Hl. unfold grow_arrays. destruct (Z.ltb_spec (zlen (ms_pages s)) n); [|done].
  unfold mem_page. cbn [ms_pages ms_allocated]. case_decide; [|done].
  destruct (decide (j < zlen (ms_pages s))).
  - by rewrite !lookup_resize by lia.
  - rewrite (lookup_ge_None_2 (ms_allocated s)) by lia.
    destruct (decide (j < n)); [|by rewrite lookup_resize_old by lia].
    by rewrite lookup_resize_new by lia.
Qed.

Lemma page_new_valid {C : Crc32c} {CR : Crc32cRange C} ty i : in_u64 i -> page_ok (page_new ty i) /\ verify_checksum (page_new ty i) = Ok tt.
Proof.
  intros Hi. destruct (page_new_fields ty i Hi) as (Hok & _). split; [done|].
  destruct (page_init_fields ty i Hi) as (Hok0 & _). unfold verify_checksum, page_new.
  by rewrite <-update_checksum_valid, Z.eqb_refl.
Qed.

Section MemoryLaws.
Context {C : Crc32c} {CR : Crc32cRange C}.

Lemma mem_new_spec : exists s, mem_new = Some s /\ mem_wf s /\
  forall i, mem_page s i = if decide (i = 0) then Some (page_new PtMeta 0) else None.
Proof.
  destruct (fl_new_spec 64 [0; 1]) as (fl & Hfl & Hwf & Ht & Hs); [vm_compute; split; congruence|repeat constructor; lia|].
  unfold mem_new. rewrite Hfl. eexists. split; [reflexivity|].
  set (s := mkMem _ _ _).
  assert (Hp : forall i, mem_page s i = if decide (i = 0) then Some (page_new PtMeta 0) else None).
  { intros i. unfold mem_page, s. cbn [ms_pages ms_allocated]. case_decide.
    - case_decide; [by subst|]. rewrite list_lookup_insert_ne by lia.
      destruct (replicate 64 false !! Z.to_nat i) as [b|] eqn:Hr; [|done]. by apply lookup_replicate in Hr as [-> _].
    - by rewrite decide_False by lia. }
  split; [|done]. unfold s. split; cbn [ms_freelist ms_pages ms_allocated]; rewrite ?length_insert, ?length_replicate, ?Ht; try done.
  - intros i p. fold s. rewrite Hp. case_decide; [|done]. subst. intros _. rewrite Hs. set_solver.
  - rewrite Hs. set_solver.
  - intros i p. fold s. rewrite Hp. case_decide; [|done]. intros [= <-]. apply page_new_valid. widths.
Qed.

(** Storing a valid page in an allocated slot, or in one just taken off the free list. *)
Lemma mem_put_spec s fl i p :
  mem_wf s -> fl_wf fl -> total_pages fl = total_pages (ms_freelist s) ->
  (forall j, j ∈ free_set fl -> j ∈ free_set (ms_freelist s)) -> ~ i ∈ free_set fl ->
  0 <= i < total_pages fl -> page_ok p -> verify_checksum p = Ok tt ->
  exists s', mem_put (set_freelist s fl) i p = Some s' /\ mem_wf s' /\ ms_freelist s' = fl /\
    forall j, mem_page s' j = if decide (j = i) then Some p else mem_page s j.
Proof.
  intros [Hfl Hpg Hal Hused H2 Hres Hval] Hfl' Ht Hsub Hi Hr Hok Hv. unfold mem_put, set_freelist.
  cbn [ms_pages ms_allocated ms_freelist].
  destruct (lookup_lt_is_Some_2 (ms_pages s) (Z.to_nat i)) as [p0 ->]; [lia|].
  destruct (lookup_lt_is_Some_2 (ms_allocated s) (Z.to_nat i)) as [b0 ->]; [lia|].
  eexists. split; [reflexivity|].
  pose proof (mem_page_put s fl i p) as Hput. split; [|split; [done|intros j; apply Hput; lia]].
  split; cbn [ms_freelist ms_pages ms_allocated]; rewrite ?length_insert; try (done || lia).
  - intros j q. rewrite Hput by lia. case_decide; [by subst|]. intros Hj Hin. by eapply Hused; [done|apply Hsub].
  - split; intros Hin%Hsub; tauto.
  - intros j q. rewrite Hput by lia. case_decide; [by intros [= <-]|apply Hval].
Qed.

Lemma mem_grow_wf s fl n :
  mem_wf s -> fl_wf fl -> total_pages fl = n -> total_pages (ms_freelist s) < n ->
  (forall j, j ∈ free_set fl -> j ∈ free_set (ms_freelist s) \/ total_pages (ms_freelist s) <= j) ->
  mem_wf (grow_arrays (set_freelist s fl) n) /\ ms_freelist (grow_arrays (set_freelist s fl) n) = fl /\
  forall j, mem_page (grow_arrays (set_freelist s fl) n) j = mem_page s j.
Proof.
  intros [Hfl Hpg Hal Hused H2 Hres Hval] Hfl' Ht Hlt Hsub.
  assert (Hp : forall j, mem_page (grow_arrays (set_freelist s fl) n) j = mem_page s j).
  { intros j. rewrite mem_page_grow; [done|]. cbn. lia. }
  assert (Hf : ms_freelist (grow_arrays (set_freelist s fl) n) = fl).
  { unfold grow_arrays. by destruct (_ <? _). }
  split; [|done]. split; rewrite ?Hf; try done.
  - unfold grow_arrays. cbn [set_freelist ms_pages]. rewrite (proj2 (Z.ltb_lt _ _)) by lia.
    cbn [ms_pages]. rewrite length_resize. pose proof (fw_total _ Hfl'). lia.
  - unfold grow_arrays. cbn [set_freelist ms_pages]. rewrite (proj2 (Z.ltb_lt _ _)) by lia.
    cbn [ms_allocated]. rewrite length_resize. pose proof (fw_total _ Hfl'). lia.
  - intros i p. rewrite Hp. intros Hi Hin. destruct (Hsub i Hin); [by eapply Hused|].
    apply mem_page_Some in Hi as (? & Ha & _). apply lookup_lt_Some in Ha. lia.
  - lia.
  - split; intros Hin; destruct (Hsub _ Hin); tauto || lia.
  - intros i p. rewrite Hp. apply Hval.
Qed.

(** The pages of the free list's range fit a page number. *)
Lemma fl_page_u64 fl i : fl_wf fl -> 0 <= i < total_pages fl -> in_u64 i.
Proof.
  intros Hwf Hi. pose proof (fw_total _ Hwf) as Ht. unfold BITMAP_CAPACITY, BITMAP_BODY_BYTES, PAGE_SIZE, HEADER_SIZE in Ht.
  widths.
Qed.

(** Taking the least free page and storing a fresh page there. *)
Lemma mem_take_spec s i fl ty :
  mem_wf s -> fl_alloc (ms_freelist s) = (Some i, fl) ->
  mem_page s i = None /\ i ∈ free_set (ms_freelist s) /\ 2 <= i < U64_MAX /\
  exists s', mem_put (set_freelist s fl) i (page_new ty i) = Some s' /\ mem_wf s' /\ ms_freelist s' = fl /\
    total_pages fl = total_pages (ms_freelist s) /\ free_set fl = free_set (ms_freelist s) ∖ {[i]} /\
    forall j, mem_page s' j = if decide (j = i) then Some (page_new ty i) else mem_page s j.
Proof.
  intros Hwf Ha. pose proof (mw_fl _ Hwf) as Hfl. pose proof (fl_alloc_spec _ Hfl) as Hs.
  pose proof (fl_alloc_wf _ Hfl) as [Hfl' Ht]. rewrite Ha in Hs, Hfl', Ht. cbn [snd] in Hfl', Ht.
  destruct Hs as (Hin & _ & ->). pose proof (free_set_bound _ _ Hfl Hin) as Hb.
  pose proof (free_set_clear _ _ Hb) as Hc.
  split; [|split; [done|split]].
  - destruct (mem_page s i) eqn:Hp; [|done]. exfalso. by eapply (mw_used _ Hwf).
  - destruct (mw_reserved _ Hwf) as [H0 H1]. assert (i ≠ 0 /\ i ≠ 1) by (split; intros ->; done).
    pose proof (fw_total _ Hfl) as Hcap. unfold BITMAP_CAPACITY, BITMAP_BODY_BYTES, PAGE_SIZE, HEADER_SIZE in Hcap. widths.
  - destruct (page_new_valid ty i (fl_page_u64 _ _ Hfl Hb)) as [Hok Hv].
    destruct (mem_put_spec s _ i (page_new ty i) Hwf Hfl' Ht) as (s' & ? & ? & ? & ?); try done.
    + intros j. rewrite Hc. set_solver.
    + rewrite Hc. set_solver.
    + exists s'. done.
Qed.

Lemma mem_alloc_spec s ty :
  mem_wf s ->
  (mem_alloc_page s ty = None -> BITMAP_CAPACITY < total_pages (ms_freelist s) + 64 /\ free_set (ms_freelist s) = ∅) /\
  forall r s', mem_alloc_page s ty = Some (r, s') -> exists i, r = Ok i /\ mem_wf s' /\ mem_page s i = None /\
    ~ i ∈ free_set (ms_freelist s') /\ 2 <= i < U64_MAX /\
    forall j, mem_page s' j = if decide (j = i) then Some (page_new ty i) else mem_page s j.
Proof.
  intros Hwf. pose proof (mw_fl _ Hwf) as Hfl. unfold mem_alloc_page.
  destruct (fl_alloc (ms_freelist s)) as [[i|] fl] eqn:Ha.
  - destruct (mem_take_spec s i fl ty Hwf Ha) as (Hnone & Hin & Hrange & s1 & Hput & Hwf1 & Hf1 & Ht & Hset & Hpg).
    pose proof (free_set_bound _ _ Hfl Hin). unfold mem_ensure_capacity.
    rewrite (proj2 (Z.leb_gt _ _)) by (cbn; rewrite (mw_pages _ Hwf); lia). rewrite Hput.
    split; [done|]. intros r s' [= <- <-]. exists i. rewrite Hf1, Hset. split_and!; try done; lia || set_solver.
  - pose proof (fl_alloc_spec _ Hfl) as Hs. rewrite Ha in Hs. destruct Hs as [-> Hempty].
    set (fl := ms_freelist s) in *.
    destruct (decide (total_pages fl + 64 <= BITMAP_CAPACITY)) as [Hcap|Hcap].
    2:{ assert (Hg : grow fl (total_pages fl + 64) = None).
        { unfold grow. rewrite (proj2 (Z.leb_gt _ BITMAP_CAPACITY)) by lia. by rewrite andb_false_r. }
        rewrite Hg. split; [intros _; split; [lia|done]|done]. }
    destruct (grow_spec fl (total_pages fl + 64) Hfl ltac:(lia)) as (fl1 & Hg & Hfl1 & Ht1 & Hset1). rewrite Hg.
    destruct (mem_grow_wf s fl1 (total_pages fl + 64)) as (Hwf1 & Hf1 & Hp1); try done.
    { fold fl. lia. }
    { intros j. rewrite Hset1, Hempty, elem_of_union, elem_of_page_range. fold fl. intros [?|?]; [set_solver|lia]. }
    set (s1 := grow_arrays _ _) in *. destruct (fl_alloc fl1) as [[i|] fl2] eqn:Ha1.
    + rewrite <-Hf1 in Ha1. destruct (mem_take_spec s1 i fl2 ty Hwf1 Ha1) as (Hnone & Hin & Hrange & s2 & Hput & Hwf2 & Hf2 & _ & Hset & Hpg).
      rewrite Hput. split; [done|]. intros r s' [= <- <-]. exists i. rewrite <-Hp1, Hf2, Hset.
      split_and!; try done; [set_solver|lia..|]. intros j. by rewrite Hpg, Hp1.
    + exfalso. pose proof (fl_alloc_spec _ Hfl1) as Hs. rewrite Ha1 in Hs. destruct Hs as [_ He].
      rewrite Hset1, Hempty in He. pose proof (mw_two _ Hwf) as H2. fold fl in H2.
      assert (total_pages fl ∈ page_range (total_pages fl) (total_pages fl + 64)) by (apply elem_of_page_range; lia).
      set_solver.
Qed.

Lemma mem_free_spec s i :
  mem_wf s -> 0 <= i ->
  if decide (i = 0 \/ i = 1) then mem_free_page s i = Some (Err (CannotFreeReserved i), s)
  else if decide (total_pages (ms_freelist s) <= i) then mem_free_page s i = Some (Err (PageNotFound i), s)
  else exists r s', mem_free_page s i = Some (r, s') /\ mem_wf s' /\
    if decide (i ∈ free_set (ms_freelist s)) then r = Err (DoubleFree i) /\ forall j, mem_page s' j = mem_page s j
    else r = Ok tt /\ i ∈ free_set (ms_freelist s') /\
      forall j, mem_page s' j = if decide (j = i) then None else mem_page s j.
Proof.
  intros Hwf Hi. pose proof Hwf as [Hfl Hpg Hal Hused H2 Hres Hval]. unfold mem_free_page.
  case_decide as Hr; [destruct Hr as [->| ->]; done|].
  rewrite (proj2 (Z.eqb_neq i 0)), (proj2 (Z.eqb_neq i 1)) by tauto. cbn [orb].
  case_decide as Hle.
  - rewrite (proj2 (Z.ltb_ge _ _)) by lia. unfold fl_free. rewrite (proj2 (Z.leb_le _ _) Hle). by destruct s.
  - rewrite (proj2 (Z.ltb_lt _ _)) by lia. rewrite (fl_free_cases _ _ Hfl) by lia.
    pose proof (fun fl j => mem_page_clear s fl i j ltac:(lia)) as Hclr.
    assert (Hbit : i ∈ free_set (ms_freelist s) <-> fl_bit (ms_freelist s) i = true) by (rewrite elem_of_free_set; tauto).
    destruct (fl_bit (ms_freelist s) i); cbn [fst snd].
    + eexists _, _. split; [reflexivity|]. rewrite decide_True by tauto.
      assert (Hp : mem_page s i = None).
      { destruct (mem_page s i) eqn:Hp; [|done]. exfalso. eapply Hused; [done|tauto]. }
      assert (Hsame : forall j, mem_page (mkMem (ms_pages s) (<[Z.to_nat i:=false]> (ms_allocated s)) (ms_freelist s)) j = mem_page s j).
      { intros j. rewrite Hclr. case_decide; [by subst|done]. }
      split; [|done]. split; cbn [ms_freelist ms_pages ms_allocated]; rewrite ?length_insert; try done;
        intros j p; rewrite Hsame; [apply Hused|apply Hval].
    + eexists _, _. split; [reflexivity|]. rewrite decide_False by (intros ?; intuition congruence).
      pose proof (free_set_set (ms_freelist s) i ltac:(lia)) as Hset.
      split; [|cbn; rewrite Hset; split_and!; [done|set_solver|apply Hclr]].
      split; cbn [ms_freelist ms_pages ms_allocated]; rewrite ?length_insert; try done.
      * apply fl_set_wf; [done|lia].
      * intros j p. rewrite Hclr, Hset. case_decide; [done|]. intros Hj [->%elem_of_singleton|?]%elem_of_union; [done|by eapply Hused].
      * rewrite Hset. set_solver.
      * intros j p. rewrite Hclr. case_decide; [done|apply Hval].
Qed.

(** A write in range, to a page in use or not: the page becomes readable, and stays on the
    free list when it was there. *)
Lemma mem_write_range s i p :
  mem_wf s -> 0 <= i < total_pages (ms_freelist s) -> page_ok p -> verify_checksum p = Ok tt ->
  exists s', mem_write_page s i p = Some (Ok tt, s') /\ ms_freelist s' = ms_freelist s /\
    (forall j, mem_page s' j = if decide (j = i) then Some p else mem_page s j) /\
    (mem_wf s' <-> ~ i ∈ free_set (ms_freelist s)).
Proof.
  intros Hwf Hi Hok Hv. pose proof Hwf as [Hfl Hl Hla Hu H2 Hres Hval].
  assert (Hpg : forall j, mem_page (mkMem (<[Z.to_nat i := p]> (ms_pages s)) (<[Z.to_nat i := true]> (ms_allocated s)) (ms_freelist s)) j
    = if decide (j = i) then Some p else mem_page s j) by (intros j; apply mem_page_put; lia).
  unfold mem_write_page. rewrite Hv, (proj2 (Z.leb_gt _ _)) by lia. unfold mem_put.
  destruct (lookup_lt_is_Some_2 (ms_pages s) (Z.to_nat i)) as [q Hq]; [lia|].
  destruct (lookup_lt_is_Some_2 (ms_allocated s) (Z.to_nat i)) as [a Ha]; [lia|].
  rewrite Hq, Ha. eexists. split; [reflexivity|]. split; [done|]. split; [exact Hpg|]. split.
  - intros Hwf'. apply (mw_used _ Hwf' i p). by rewrite Hpg, decide_True.
  - intros Hnf. split; cbn [ms_pages ms_allocated ms_freelist]; try done.
    + by rewrite length_insert.
    + by rewrite length_insert.
    + intros j r. rewrite Hpg. case_decide as Heq; [by subst|by apply Hu].
    + intros j r. rewrite Hpg. case_decide; [|by apply Hval]. intros [= <-]. done.
Qed.

Lemma mem_write_spec s i p :
  mem_wf s -> is_Some (mem_page s i) -> page_ok p -> verify_checksum p = Ok tt ->
  exists s', mem_write_page s i p = Some (Ok tt, s') /\ mem_wf s' /\
    forall j, mem_page s' j = if decide (j = i) then Some p else mem_page s j.
Proof.
  intros Hwf [q Hq] Hok Hv. pose proof (mw_used _ Hwf _ _ Hq) as Hnf. apply mem_page_Some in Hq as (H0 & _ & Hp).
  apply lookup_lt_Some in Hp. pose proof (mw_pages _ Hwf) as Hl.
  destruct (mem_write_range s i p Hwf ltac:(lia) Hok Hv) as (s' & Hw & _ & Hpg & Hiff). exists s'.
  split_and!; [done|by apply Hiff|done].
Qed.

Lemma mem_read_spec s i :
  mem_wf s -> 0 <= i ->
  mem_read_page s i = Some (match mem_page s i with Some p => Ok p | None => Err (PageNotFound i) end).
Proof.
  intros Hwf Hi. pose proof (mw_pages _ Hwf) as Hl. pose proof (mw_alloc _ Hwf) as Hl'. unfold mem_read_page, mem_page.
  rewrite decide_True by done. destruct (Z.leb_spec (zlen (ms_pages s)) i).
  - by rewrite (lookup_ge_None_2 (ms_allocated s)) by lia.
  - destruct (lookup_lt_is_Some_2 (ms_allocated s) (Z.to_nat i)) as [[] ->]; [lia| |done].
    by destruct (lookup_lt_is_Some_2 (ms_pages s) (Z.to_nat i)) as [p ->]; [lia|].
Qed.

Lemma mem_alloc_loop_spec n ty : forall ids s r s',
  mem_wf s -> default_alloc_loop mem_alloc_page n ids s ty = Some (r, s') ->
  mem_wf s' /\ (forall j, is_Some (mem_page s j) -> mem_page s' j = mem_page s j) /\
  exists new, r = Ok (ids ++ new) /\ length new = n /\ NoDup new /\
    (forall i, i ∈ new -> mem_page s i = None /\ is_Some (mem_page s' i)) /\
    Forall (fun i => 2 <= i < U64_MAX) new /\ forall j, ~ j ∈ new -> mem_page s' j = mem_page s j.
Proof.
  induction n as [|n IH]; intros ids s r s' Hwf; cbn [default_alloc_loop].
  - intros [= <- <-]. split_and!; [done|done|]. exists []. rewrite app_nil_r.
    split_and!; [done|done|constructor|set_solver|constructor|done].
  - destruct (mem_alloc_page s ty) as [[r1 s1]|] eqn:Ha; [|done].
    destruct (proj2 (mem_alloc_spec s ty Hwf) _ _ Ha) as (i & -> & Hwf1 & Hnone & _ & Hrange & Hpg). intros Hloop.
    destruct (IH _ _ _ _ Hwf1 Hloop) as (Hwf' & Hkeep & new & -> & Hlen & Hnd & Hnew & Hr & Hother).
    assert (Hi : mem_page s1 i = Some (page_new ty i)) by by rewrite Hpg, decide_True.
    split; [done|]. split.
    + intros j Hj. assert (j ≠ i) by (intros ->; rewrite Hnone in Hj; by destruct Hj).
      rewrite Hkeep by by rewrite Hpg, decide_False. by rewrite Hpg, decide_False.
    + exists (i :: new). rewrite <-app_assoc. split_and!; [done|cbn; lia| | |by constructor|].
      * constructor; [|done]. intros [Hn _]%Hnew. congruence.
      * intros j [->|Hj]%elem_of_cons.
        -- split; [done|]. by rewrite Hkeep, Hi.
        -- destruct (Hnew _ Hj) as [Hn Hs]. rewrite Hpg in Hn. case_decide; [done|]. done.
      * intros j Hj. rewrite Hother by set_solver. rewrite Hpg, decide_False by set_solver. done.
Qed.

Lemma mem_free_loop_spec ids : forall s r s',
  mem_wf s -> Forall (fun i => 0 <= i) ids -> default_free_page_batch mem_free_page s ids = Some (r, s') ->
  mem_wf s' /\ (forall j, mem_page s' j = mem_page s j \/ j ∈ ids /\ mem_page s' j = None) /\
  match r with Ok _ => forall i, i ∈ ids -> mem_page s' i = None | Err _ => True end.
Proof.
  induction ids as [|i ids IH]; intros s r s' Hwf Hids; cbn [default_free_page_batch].
  { intros [= <- <-]. split_and!; [done|by left|set_solver]. }
  apply Forall_cons in Hids as [Hi Hids].
  assert (Hstep : forall r1 s1, mem_free_page s i = Some (r1, s1) -> mem_wf s1 /\
    match r1 with Ok _ => forall j, mem_page s1 j = if decide (j = i) then None else mem_page s j
             | Err _ => forall j, mem_page s1 j = mem_page s j end).
  { pose proof (mem_free_spec s i Hwf Hi) as Hf. do 2 (case_decide; [rewrite Hf; by intros ? ? [= <- <-]|]).
    destruct Hf as (r1 & s1 & -> & Hwf1 & Hf). intros ? ? [= <- <-]. split; [done|].
    case_decide; [by destruct Hf as [-> ?]|by destruct Hf as (-> & _ & ?)]. }
  destruct (mem_free_page s i) as [[[[]|e] s1]|]; [| |done]; destruct (Hstep _ _ eq_refl) as [Hwf1 Hpg].
  - intros Hl. destruct (IH _ _ _ Hwf1 Hids Hl) as (Hwf' & Hj & Hr). split_and!; [done| |].
    + intros j. destruct (Hj j) as [Hs|[? ?]]; [|right; split; [set_solver|done]].
      rewrite Hs, Hpg. case_decide; [right; split; [set_solver|done]|by left].
    + destruct r; [|done]. intros j [->|?]%elem_of_cons; [|by apply Hr].
      destruct (Hj i) as [Hs|[_ ?]]; [|done]. by rewrite Hs, Hpg, decide_True.
  - intros [= <- <-]. split_and!; [done|by left|done].
Qed.

(** The free pages, and those that growing by 64 at a time can still add. *)
Definition mem_room (s : MemoryStorage) : Z :=
  Z.of_nat (size (free_set (ms_freelist s))) + 64 * ((BITMAP_CAPACITY - total_pages (ms_freelist s)) / 64).

Lemma size_take_one (X : gset Z) i : i ∈ X -> Z.of_nat (size (X ∖ {[i]})) = Z.of_nat (size X) - 1.
Proof.
  intros Hi. rewrite size_difference by set_solver. rewrite size_singleton.
  assert (size X ≠ 0%nat) by (apply size_non_empty_iff; set_solver). lia.
Qed.

Lemma size_page_range lo hi : lo <= hi -> Z.of_nat (size (page_range lo hi)) = hi - lo.
Proof.
  intros. unfold page_range. rewrite size_list_to_set by apply NoDup_seqZ. rewrite length_seqZ. lia.
Qed.

Lemma mem_alloc_room s ty :
  mem_wf s -> 0 < mem_room s -> exists i s', mem_alloc_page s ty = Some (Ok i, s') /\ mem_room s - 1 <= mem_room s'.
Proof.
  intros Hwf Hroom. pose proof (mw_fl _ Hwf) as Hfl. pose proof (fw_total _ Hfl) as Hcapt. unfold mem_room in *.
  unfold mem_alloc_page. destruct (fl_alloc (ms_freelist s)) as [[i|] fl] eqn:Ha.
  - destruct (mem_take_spec s i fl ty Hwf Ha) as (_ & Hin & _ & s1 & Hput & _ & Hf1 & Ht & Hset & _).
    pose proof (free_set_bound _ _ Hfl Hin). unfold mem_ensure_capacity.
    rewrite (proj2 (Z.leb_gt _ _)) by (cbn; rewrite (mw_pages _ Hwf); lia). rewrite Hput.
    exists i, s1. split; [done|]. rewrite Hf1, Ht, Hset, size_take_one by done. lia.
  - pose proof (fl_alloc_spec _ Hfl) as Hs. rewrite Ha in Hs. destruct Hs as [-> Hempty].
    set (fl := ms_freelist s) in *. rewrite Hempty, size_empty in *.
    assert (total_pages fl + 64 <= BITMAP_CAPACITY).
    { destruct (decide (BITMAP_CAPACITY - total_pages fl < 64)); [|lia]. rewrite (Z.div_small (_ - _)) in Hroom by lia. lia. }
    destruct (grow_spec fl (total_pages fl + 64) Hfl ltac:(lia)) as (fl1 & Hg & Hfl1 & Ht1 & Hset1). rewrite Hg.
    destruct (mem_grow_wf s fl1 (total_pages fl + 64)) as (Hwf1 & Hf1 & _); try done.
    { fold fl. lia. }
    { intros j. rewrite Hset1, Hempty, elem_of_union, elem_of_page_range. fold fl. intros [?|?]; [set_solver|lia]. }
    set (s1 := grow_arrays _ _) in *. rewrite Hempty, (left_id_L ∅ (∪)) in Hset1. destruct (fl_alloc fl1) as [[i|] fl2] eqn:Ha1.
    + rewrite <-Hf1 in Ha1. destruct (mem_take_spec s1 i fl2 ty Hwf1 Ha1) as (_ & Hin & _ & s2 & Hput & _ & Hf2 & Ht2 & Hset & _).
      rewrite Hput. exists i, s2. split; [done|]. rewrite Hf2, Hset, Ht2, size_take_one by done.
      rewrite Hf1, Hset1, Ht1, size_page_range by lia.
      replace (BITMAP_CAPACITY - (total_pages fl + 64)) with (BITMAP_CAPACITY - total_pages fl + (-1) * 64) by lia.
      rewrite Z.div_add by lia. lia.
    + exfalso. pose proof (fl_alloc_spec _ Hfl1) as Hs. rewrite Ha1 in Hs. destruct Hs as [_ He].
      pose proof (size_page_range (total_pages fl) (total_pages fl + 64) ltac:(lia)) as Hsz.
      rewrite <-Hset1, He, size_empty in Hsz. lia.
Qed.

Lemma mem_free_room s i :
  mem_wf s -> is_Some (mem_page s i) -> 2 <= i ->
  exists s', mem_free_page s i = Some (Ok tt, s') /\ mem_room s <= mem_room s'.
Proof.
  intros Hwf [p Hp] Hi. pose proof (mw_fl _ Hwf) as Hfl. pose proof (mw_used _ Hwf _ _ Hp) as Hnf.
  apply mem_page_Some in Hp as (_ & Ha & _). apply lookup_lt_Some in Ha. pose proof (mw_alloc _ Hwf).
  unfold mem_free_page. rewrite (proj2 (Z.eqb_neq i 0)), (proj2 (Z.eqb_neq i 1)) by lia. cbn [orb].
  rewrite (proj2 (Z.ltb_lt _ _)) by lia. rewrite (fl_free_cases _ _ Hfl) by lia.
  destruct (fl_bit (ms_freelist s) i) eqn:Hb; [exfalso; apply Hnf, elem_of_free_set; split; [lia|done]|].
  cbn [fst snd]. eexists. split; [reflexivity|]. unfold mem_room. cbn [ms_freelist].
  rewrite (free_set_set (ms_freelist s) i) by lia. cbn.
  assert (size (free_set (ms_freelist s)) <= size ({[i]} ∪ free_set (ms_freelist s)))%nat by (apply subseteq_size; set_solver). lia.
Qed.

Lemma mem_free_batch_ok ids : forall s,
  mem_wf s -> NoDup ids -> Forall (fun i => 2 <= i /\ is_Some (mem_page s i)) ids ->
  exists s', default_free_page_batch mem_free_page s ids = Some (Ok tt, s').
Proof.
  induction ids as [|i ids IH]; intros s Hwf Hnd Hall; [by eexists|]. apply NoDup_cons in Hnd as [Hni Hnd].
  apply Forall_cons in Hall as [[Hi Hs] Hall]. destruct (mem_free_room s i Hwf Hs Hi) as (s1 & Hf & _).
  destruct (mem_free_loop_spec [i] s (Ok tt) s1) as (Hwf1 & Hj & _); [done|by constructor; [lia|]| |].
  { cbn. by rewrite Hf. }
  cbn [default_free_page_batch]. rewrite Hf. apply IH; [done|done|]. rewrite Forall_forall in Hall |- *.
  intros j Hjin. destruct (Hall j Hjin) as [Hj2 Hjs]. split; [done|].
  destruct (Hj j) as [->|[->%list_elem_of_singleton _]]; done.
Qed.

#[export] Instance memory_laws : StorageLaws MemoryStorage.
Proof.
  refine (Build_StorageLaws _ _ _ mem_wf mem_page _ _ _ _ _ _ _ _).
  - intros s i p Hwf Hp. split; [by apply mem_page_Some in Hp as [? _]|by eapply mw_valid].
  - exact mem_read_spec.
  - exact mem_write_spec.
  - intros s ty r s' Hwf Ha. destruct (proj2 (mem_alloc_spec s ty Hwf) _ _ Ha) as (i & -> & ? & ? & _ & ? & ?). done.
  - intros s i r s' Hwf Hi Hf.
    destruct (mem_free_loop_spec [i] s r s') as (Hwf' & Hj & Hr); [done|by constructor| |].
    { cbn. change (mem_free_page s i = Some (r, s')) in Hf. rewrite Hf. by destruct r as [[]|]. }
    split; [done|]. destruct r.
    + intros j. case_decide; [subst; apply Hr; set_solver|]. destruct (Hj j) as [?|[?%list_elem_of_singleton _]]; done.
    + intros j. pose proof (mem_free_spec s i Hwf Hi) as H. change (mem_free_page s i = Some (Err e, s')) in Hf.
      rewrite Hf in H. do 2 (case_decide; [by simplify_eq|]). destruct H as (? & ? & [= <- <-] & _ & H).
      case_decide; [by apply H|by destruct H as [? _]].
  - intros s n ty r s' Hwf Ha. destruct (mem_alloc_loop_spec _ _ _ _ _ _ Hwf Ha) as (? & ? & new & -> & _ & ? & ? & ? & ?). done.
  - intros s ids r s' Hwf Hids Hf. destruct (mem_free_loop_spec _ _ _ _ Hwf Hids Hf) as (? & Hj & ?).
    split_and!; [done| |done]. intros j Hn. destruct (Hj j) as [?|[? _]]; done.
  - intros s ids. apply mem_free_batch_ok.
Defined.

#[export] Instance memory_room : StorageRoom MemoryStorage.
Proof.
  refine (Build_StorageRoom _ _ _ _ mem_room _ _ _).
  - intros s ty. apply mem_alloc_room.
  - intros s i p r s' Hwf Hw. change (mem_write_page s i p = Some (r, s')) in Hw. unfold mem_write_page in Hw.
    destruct (verify_checksum p); [|by simplify_eq]. destruct (_ <=? _); [by simplify_eq|].
    unfold mem_put in Hw. repeat case_match; simplify_eq. unfold mem_room. cbn. lia.
  - intros s i. apply mem_free_room.
Defined.
End MemoryLaws.

(** ** Page batches never hand out a page in use *)

Section BatchLaws.
Context {St : Type} {C : Crc32c} {E : StorageEngine St} {L : StorageLaws St}.

(** The pages a batch keeps are distinct and allocated. *)
Definition batch_ok (b : LocalPageBatch) (s : St) : Prop :=
  NoDup (available b) /\ forall i, i ∈ available b -> is_Some (st_page s i).

(** What an allocation through a batch may do to the engine and to the batch. *)
Definition batch_step (b : LocalPageBatch) (s : St) (r : Result Z) (b' : LocalPageBatch) (s' : St) : Prop :=
  st_wf s' /\ batch_ok b' s' /\ freed b' = freed b /\
  (forall j, is_Some (st_page s j) -> ~ j ∈ available b -> st_page s' j = st_page s j /\ ~ j ∈ available b') /\
  match r with
  | Ok id => is_Some (st_page s' id) /\ ~ id ∈ available b' /\ (id ∈ available b \/ st_page s id = None)
  | Err _ => True
  end.

Lemma pop_or_alloc_step b s ty r b' s' :
  st_wf s -> batch_ok b s -> pop_or_alloc b s ty = Some (r, b', s') -> batch_step b s r b' s'.
Proof.
  intros Hwf [Hnd Hav]. unfold pop_or_alloc. destruct (available b) as [|id rest] eqn:Hb.
  - set (n := Z.min _ _). destruct (alloc_page_batch s n ty) as [[r1 s1]|] eqn:Ha; [|done].
    destruct (law_alloc_batch _ _ _ _ _ Hwf Ha) as (Hwf1 & Hkeep & Hr).
    assert (Herr : forall e, batch_step b s (Err e) b s1).
    { intros e. split_and!; [done|split; rewrite Hb; [constructor|set_solver]|done| |done].
      intros j Hj _. rewrite Hb. split; [by apply Hkeep|set_solver]. }
    destruct r1 as [[|first rest]|e]; [by intros [= <- <- <-]| |by intros [= <- <- <-]].
    intros [= <- <- <-]. destruct Hr as ([Hni Hnd']%NoDup_cons & Hin & _ & _).
    unfold batch_step, batch_ok. cbn [available freed app]. rewrite Hb.
    split_and!; [done|done|intros i Hi; apply Hin; set_solver|done| |apply Hin; set_solver|done|right; apply Hin; set_solver].
    intros j Hj _. split; [by apply Hkeep|]. intros Hjr.
    destruct (Hin j) as [Hn _]; [set_solver|]. rewrite Hn in Hj. by destruct Hj.
  - intros [= <- <- <-]. apply NoDup_cons in Hnd as [Hni Hnd].
    unfold batch_step, batch_ok. cbn [available freed]. rewrite Hb.
    split_and!; [done|done|intros i Hi; apply Hav; set_solver|done|set_solver|apply Hav; set_solver|done|set_solver].
Qed.

Lemma pop_or_refill_step b s ty r b' s' :
  st_wf s -> batch_ok b s -> pop_or_refill b s ty = Some (r, b', s') -> batch_step b s r b' s'.
Proof.
  intros Hwf Hok. unfold pop_or_refill. case_decide; [by apply pop_or_alloc_step|].
  destruct (available b) as [|id rest] eqn:Hb.
  { intros Hp. apply pop_or_alloc_step in Hp as (? & ? & ? & Hj & Hr); [|done|split; [constructor|set_solver]].
    cbn [available freed] in *. unfold batch_step. rewrite Hb. done. }
  destruct (free_page_batch s (id :: rest)) as [[r1 s1]|] eqn:Hf; [|done].
  pose proof Hok as [Hnd Hav]. rewrite Hb in Hnd, Hav.
  assert (Hpos : Forall (fun i => 0 <= i) (id :: rest)).
  { apply Forall_forall. intros i Hi. destruct (Hav i Hi) as [p Hp]. by apply (law_valid _ _ _ Hwf Hp). }
  destruct (law_free_batch _ _ _ _ Hwf Hpos Hf) as (Hwf1 & Hkeep & Hr).
  destruct r1 as [u|e].
  - intros Hp. apply pop_or_alloc_step in Hp as (? & ? & ? & Hj & Hr'); [|done|split; [constructor|set_solver]].
    cbn [available freed] in *. unfold batch_step. rewrite Hb. split_and!; try done.
    + intros j Hjs Hjn. rewrite <-(Hkeep j Hjn). apply Hj; [by rewrite Hkeep|set_solver].
    + destruct r as [id'|]; [|done]. destruct Hr' as (? & ? & [Hi|Hi]); [set_solver|]. split_and!; [done|done|].
      destruct (decide (id' ∈ id :: rest)); [by left|right]. by rewrite <-Hkeep.
  - intros [= <- <- <-]. unfold batch_step, batch_ok. cbn [available freed]. rewrite Hb.
    split_and!; [done|constructor|set_solver|done| |done]. intros j Hj Hn. split; [by apply Hkeep|set_solver].
Qed.

(** C23: a page handed out by a transaction's page batch is not in use by anyone else. On
    any engine that keeps the storage laws the page returned is allocated, was free or in
    this batch before, and leaves the batch; every allocated page outside the batch keeps
    its contents and never enters it; the remaining pages of the batch stay distinct and
    allocated; all this also when the engine reports an error half way. *)
Theorem page_batch_exclusive b s ty r b' s' :
  st_wf s -> batch_ok b s -> pop_or_refill b s ty = Some (r, b', s') ->
  st_wf s' /\ batch_ok b' s' /\ freed b' = freed b /\
  (forall j, is_Some (st_page s j) -> ~ j ∈ available b -> st_page s' j = st_page s j /\ ~ j ∈ available b') /\
  match r with
  | Ok id => is_Some (st_page s' id) /\ ~ id ∈ available b' /\ (id ∈ available b \/ st_page s id = None)
  | Err _ => True
  end.
Proof. apply pop_or_refill_step. Qed.
End BatchLaws.

Section MemoryProperties.
Context {C : Crc32c} {CR : Crc32cRange C}.

(** C22: the in-memory engine, well-formed when a stored page has a valid checksum and is
    never on the free list, implements a map from page numbers to pages. A read returns
    the page or PageNotFound. A write of a page with a wrong checksum, or out of range,
    changes nothing; any other write replaces just that page and leaves the free list as
    it is. So it keeps the engine well-formed exactly when the page number is not on the
    free list: writing a free page makes it readable while it can still be allocated. An
    allocation, growing the arrays by 64 pages when the free list is empty, returns a page
    that was not in use, fresh, and panics only when the bitmap page is exhausted; a free
    removes just that page and rejects the reserved pages, unknown pages and double frees;
    both keep the engine well-formed. *)
Theorem memory_storage_refines_map s i p ty :
  mem_wf s -> 0 <= i -> page_ok p ->
  mem_read_page s i = Some (match mem_page s i with Some q => Ok q | None => Err (PageNotFound i) end) /\
  (match verify_checksum p with
   | Err e => mem_write_page s i p = Some (Err e, s)
   | Ok _ => (total_pages (ms_freelist s) <= i -> mem_write_page s i p = Some (Err (PageNotFound i), s)) /\
       (i < total_pages (ms_freelist s) -> exists s', mem_write_page s i p = Some (Ok tt, s') /\
          ms_freelist s' = ms_freelist s /\ (forall j, mem_page s' j = if decide (j = i) then Some p else mem_page s j) /\
          (mem_wf s' <-> ~ i ∈ free_set (ms_freelist s)) /\ (is_Some (mem_page s i) -> mem_wf s'))
   end) /\
  (match mem_alloc_page s ty with
   | Some (Ok k, s') => mem_page s k = None /\ mem_wf s' /\ ~ k ∈ free_set (ms_freelist s') /\
       forall j, mem_page s' j = if decide (j = k) then Some (page_new ty k) else mem_page s j
   | Some (Err _, _) => False
   | None => BITMAP_CAPACITY < total_pages (ms_freelist s) + 64 /\ free_set (ms_freelist s) = ∅
   end) /\
  (exists r s', mem_free_page s i = Some (r, s') /\ mem_wf s' /\
     if decide (i = 0 \/ i = 1) then r = Err (CannotFreeReserved i) /\ s' = s
     else if decide (total_pages (ms_freelist s) <= i) then r = Err (PageNotFound i) /\ s' = s
     else if decide (i ∈ free_set (ms_freelist s)) then r = Err (DoubleFree i) /\ forall j, mem_page s' j = mem_page s j
     else r = Ok tt /\ i ∈ free_set (ms_freelist s') /\
       forall j, mem_page s' j = if decide (j = i) then None else mem_page s j).
Proof.
  intros Hwf Hi Hok. split_and!.
  - by apply mem_read_spec.
  - destruct (verify_checksum p) as [[]|e] eqn:Hv; [|unfold mem_write_page; by rewrite Hv]. split.
    + intros Hle. unfold mem_write_page. by rewrite Hv, (proj2 (Z.leb_le _ _)) by (rewrite (mw_pages _ Hwf); lia).
    + intros Hlt. destruct (mem_write_range s i p Hwf (conj Hi Hlt) Hok Hv) as (s' & ? & ? & ? & Hiff). exists s'.
      split_and!; [done|done|done|done|]. intros [q Hq]. by apply Hiff, (mw_used _ Hwf _ _ Hq).
  - destruct (mem_alloc_spec s ty Hwf) as [Hnone Hsome].
    destruct (mem_alloc_page s ty) as [[r s']|]; [|by apply Hnone].
    destruct (Hsome r s' eq_refl) as (k & -> & ? & ? & ? & ? & ?). done.
  - pose proof (mem_free_spec s i Hwf Hi) as Hf. case_decide; [by eexists _, _|].
    case_decide; [by eexists _, _|]. destruct Hf as (r & s' & ? & ? & ?). by exists r, s'.
Qed.
End MemoryProperties.

#[local] Existing Instance crc32c_ref.
#[local] Existing Instance crc32c_ref_range.

Lemma mem_new_free s : mem_new = Some s ->
  total_pages (ms_freelist s) = 64 /\ 9 ∈ free_set (ms_freelist s).
Proof.
  assert (H9 : 9 ∈ page_range 0 64 ∖ list_to_set [0; 1]).
  { apply elem_of_difference. split; [|set_solver]. unfold page_range. apply elem_of_list_to_set, elem_of_seqZ. lia. }
  unfold mem_new. destruct (fl_new_spec 64 [0; 1]) as (fl & Hfl & _ & Ht & Hs);
    [vm_compute; split; congruence|repeat constructor; lia|]. rewrite Hfl. intros [= <-]. by rewrite <-Hs in H9.
Qed.

(** A new engine, in which page 9 is free: it cannot be read, but writing it succeeds. *)
Lemma memory_storage_refines_map_witness :
  exists s s', mem_new = Some s /\ mem_read_page s 0 = Some (Ok (page_new PtMeta 0)) /\
    mem_read_page s 9 = Some (Err (PageNotFound 9)) /\
    mem_write_page s 9 (page_new PtData 9) = Some (Ok tt, s') /\ mem_page s' 9 = Some (page_new PtData 9) /\ ~ mem_wf s'.
Proof.
  destruct mem_new_spec as (s & Hs & Hwf & Hp). destruct (page_new_valid PtData 9) as [Hok Hv]; [widths|].
  destruct (mem_new_free s Hs) as [Ht Hfree].
  destruct (memory_storage_refines_map s 0 (page_new PtData 9) PtData Hwf ltac:(lia) Hok) as [Hr0 _].
  destruct (memory_storage_refines_map s 9 (page_new PtData 9) PtData Hwf ltac:(lia) Hok) as (Hr9 & Hw & _).
  rewrite Hv in Hw. destruct (proj2 Hw ltac:(rewrite Ht; lia)) as (s' & Hw' & _ & Hpg & Hiff & _).
  exists s, s'. split; [exact Hs|]. split; [rewrite Hr0, Hp; reflexivity|]. split; [rewrite Hr9, Hp; reflexivity|].
  split; [exact Hw'|]. split; [rewrite Hpg; apply decide_True; reflexivity|].
  intros Hn. apply Hiff in Hn. exact (Hn Hfree).
Defined.

Lemma page_batch_exclusive_witness :
  exists (s : MemoryStorage) (i : Z) b', pop_or_refill (mkBatch [i] (Some PtData) [] 64) s PtData = Some (Ok i, b', s) /\
    is_Some (st_page s i) /\ ~ i ∈ available b'.
Proof.
  destruct mem_new_spec as (s0 & Hs0 & Hwf0 & _). destruct (mem_alloc_spec s0 PtData Hwf0) as [Hnone Hsome].
  destruct (mem_alloc_page s0 PtData) as [[r s]|] eqn:Ha.
  2:{ exfalso. unfold mem_new in Hs0. destruct (fl_new_spec 64 [0; 1]) as (fl & Hfl & _ & Ht & _);
        [vm_compute; split; congruence|repeat constructor; lia|]. rewrite Hfl in Hs0.
      apply (inj Some) in Hs0. subst s0. destruct (Hnone eq_refl) as [Hc _]. cbn [ms_freelist] in Hc.
      rewrite Ht in Hc. by vm_compute in Hc. }
  destruct (Hsome r s eq_refl) as (i & _ & Hwf & _ & _ & _ & Hp).
  assert (Hi : is_Some (st_page s i)) by (cbn; rewrite Hp, decide_True by done; by eexists).
  assert (Hok : batch_ok (mkBatch [i] (Some PtData) [] 64) s).
  { split; [apply NoDup_singleton|]. cbn [available]. intros j ->%list_elem_of_singleton. exact Hi. }
  assert (Hpop : pop_or_refill (mkBatch [i] (Some PtData) [] 64) s PtData = Some (Ok i, mkBatch [] (Some PtData) [] 64, s))
    by reflexivity.
  destruct (page_batch_exclusive (L := memory_laws) (mkBatch [i] (Some PtData) [] 64) s PtData _ _ s Hwf Hok Hpop) as (_ & _ & _ & _ & H1 & H2 & _).
  exists s, i, (mkBatch [] (Some PtData) [] 64). split; [exact Hpop|]. split; [exact H1|exact H2].
Defined.
