(* ===== verification/ByteOrder.v ===== *)
(** * Byte strings in lexicographic order, and fixed-size arrays

    The order of [\[u8\]] slices in Rust ([Ord for \[T\]]), with a decision tactic, sorted
    lists of keys, and the array accesses, copies and shifting loops that the index node
    code is made of.  An array access out of range is [None], a panic. *)

From Stdlib Require Import Orders OrdersTac.
From stdpp Require Export sorting.
From S2P Require Import Prelude.

#[global] Open Scope Z_scope.
#[global] Open Scope rust_scope.

(** ** The order *)

Fixpoint lex_cmp (a b : bytes) : comparison :=
  match a, b with
  | [], [] => Eq
  | [], _ :: _ => Lt
  | _ :: _, [] => Gt
  | x :: a', y :: b' => match x ?= y with Eq => lex_cmp a' b' | c => c end
  end.

Definition blt (a b : bytes) : Prop := lex_cmp a b = Lt.
Definition ble (a b : bytes) : Prop := lex_cmp a b ≠ Gt.

#[export] Instance blt_dec a b : Decision (blt a b).
Proof. unfold blt. solve_decision. Defined.
#[export] Instance ble_dec a b : Decision (ble a b).
Proof. unfold ble. solve_decision. Defined.

Lemma lex_cmp_refl a : lex_cmp a a = Eq.
Proof. induction a as [|x a IH]; [done|]. cbn. by rewrite Z.compare_refl. Qed.

Lemma lex_cmp_eq a b : lex_cmp a b = Eq <-> a = b.
Proof.
  split; [|intros ->; apply lex_cmp_refl].
  revert b. induction a as [|x a IH]; intros [|y b]; cbn; try done.
  destruct (Z.compare_spec x y) as [->|H|H]; try done. intros Hc. f_equal. by apply IH.
Qed.

Lemma lex_cmp_opp a b : lex_cmp b a = CompOpp (lex_cmp a b).
Proof.
  revert b. induction a as [|x a IH]; intros [|y b]; cbn; try done.
  rewrite Z.compare_antisym. destruct (x ?= y); cbn; auto.
Qed.

Lemma blt_trans a b c : blt a b -> blt b c -> blt a c.
Proof.
  unfold blt. revert b c. induction a as [|x a IH]; intros [|y b] [|z c]; cbn; try done.
  destruct (Z.compare_spec x y) as [Hxy|Hxy|Hxy], (Z.compare_spec y z) as [Hyz|Hyz|Hyz]; try done;
    intros H1 H2; destruct (Z.compare_spec x z); try done; try lia. by apply (IH b).
Qed.

(** The order as an instance of the Standard Library's decision tactic. *)
Module BytesOrder.
Definition t : Type := bytes.
Definition eq : bytes -> bytes -> Prop := Logic.eq.
Definition lt : bytes -> bytes -> Prop := blt.
Definition le : bytes -> bytes -> Prop := ble.
End BytesOrder.

Module BytesTotal.
Lemma eq_equiv : Equivalence BytesOrder.eq.
Proof. unfold BytesOrder.eq. apply _. Qed.
Lemma lt_strorder : StrictOrder BytesOrder.lt.
Proof.
  unfold BytesOrder.lt. split; [intros a H; unfold blt in H; by rewrite lex_cmp_refl in H|].
  intros a b c. apply blt_trans.
Qed.
Lemma lt_compat : Proper (BytesOrder.eq ==> BytesOrder.eq ==> iff) BytesOrder.lt.
Proof. unfold BytesOrder.eq. intros a b -> c d ->. done. Qed.
Lemma le_lteq : forall x y, BytesOrder.le x y <-> BytesOrder.lt x y \/ BytesOrder.eq x y.
Proof.
  unfold BytesOrder.le, BytesOrder.lt, BytesOrder.eq, ble, blt. intros x y.
  rewrite <-lex_cmp_eq. destruct (lex_cmp x y); naive_solver.
Qed.
Lemma lt_total : forall x y, BytesOrder.lt x y \/ BytesOrder.eq x y \/ BytesOrder.lt y x.
Proof.
  unfold BytesOrder.lt, BytesOrder.eq, blt. intros x y. rewrite <-lex_cmp_eq, (lex_cmp_opp x y).
  destruct (lex_cmp x y); naive_solver.
Qed.
End BytesTotal.

Module BytesTac := MakeOrderTac BytesOrder BytesTotal.

(** Goals and hypotheses about [blt], [ble] and equality of byte strings. *)
Ltac border :=
  repeat match goal with
  | H : lex_cmp ?a ?b = Eq |- _ => apply lex_cmp_eq in H
  | H : lex_cmp ?a ?b = Lt |- _ => change (blt a b) in H
  | H : lex_cmp ?a ?b = Gt |- _ => rewrite <-(CompOpp_involutive (lex_cmp a b)), <-lex_cmp_opp in H;
      change (CompOpp (lex_cmp b a) = CompOpp Lt) in H; apply (f_equal CompOpp) in H;
      rewrite !CompOpp_involutive in H; change (blt b a) in H
  end;
  repeat match goal with
  | H : blt _ _ |- _ => progress change blt with BytesOrder.lt in H
  | H : ble _ _ |- _ => progress change ble with BytesOrder.le in H
  | H : ~ blt _ _ |- _ => progress change blt with BytesOrder.lt in H
  | H : ~ ble _ _ |- _ => progress change ble with BytesOrder.le in H
  | |- blt _ _ => progress change blt with BytesOrder.lt
  | |- ble _ _ => progress change ble with BytesOrder.le
  end; BytesTac.order.

Lemma blt_irrefl a : ~ blt a a.
Proof. unfold blt. by rewrite lex_cmp_refl. Qed.
Lemma ble_not_blt a b : ble a b <-> ~ blt b a.
Proof. unfold ble, blt. rewrite (lex_cmp_opp a b). by destruct (lex_cmp a b). Qed.
Lemma blt_le_trans a b c : blt a b -> ble b c -> blt a c.
Proof. intros. border. Qed.

(** Keys in strictly ascending order. *)
Abbreviation bsorted := (StronglySorted blt).

Lemma bsorted_lookup ks (i j : nat) a b :
  bsorted ks -> (i < j)%nat -> ks !! i = Some a -> ks !! j = Some b -> blt a b.
Proof.
  intros Hs Hij Ha Hb. rewrite <-(take_drop j ks) in Hs. eapply StronglySorted_app_1_elem_of; [exact Hs|..].
  - apply list_elem_of_lookup. exists i. by rewrite lookup_take_lt.
  - apply list_elem_of_lookup. exists O. by rewrite lookup_drop, Nat.add_0_r.
Qed.

(** ** Arrays *)

Definition arr_get {A} (l : list A) (i : Z) : option A := if 0 <=? i then l !! Z.to_nat i else None.

Definition arr_set {A} (l : list A) (i : Z) (x : A) : option (list A) :=
  if (0 <=? i) && (i <? zlen l) then Some (<[Z.to_nat i := x]> l) else None.

(** [dst\[off..off+n\].copy_from_slice(&src\[soff..soff+n\])]; [copy_within] when [src] is
    [dst]. *)
Definition arr_copy {A} (dst : list A) (off : Z) (src : list A) (soff n : Z) : option (list A) :=
  if (0 <=? off) && (0 <=? n) && (off + n <=? zlen dst) && (0 <=? soff) && (soff + n <=? zlen src)
  then Some (take (Z.to_nat off) dst ++ take (Z.to_nat n) (drop (Z.to_nat soff) src)
               ++ drop (Z.to_nat (off + n)) dst)
  else None.

(** [for i in (pos..pos+cnt).rev() { l\[i+1\] = l\[i\] }] *)
Fixpoint shift_right {A} (l : list A) (pos : Z) (cnt : nat) : option (list A) :=
  match cnt with
  | O => Some l
  | S c => let! x := arr_get l (pos + Z.of_nat c) in
           let! l' := arr_set l (pos + Z.of_nat c + 1) x in shift_right l' pos c
  end.

(** [for i in pos..pos+cnt { l\[i\] = l\[i+1\] }] *)
Fixpoint shift_left {A} (l : list A) (pos : Z) (cnt : nat) : option (list A) :=
  match cnt with
  | O => Some l
  | S c => let! x := arr_get l (pos + 1) in
           let! l' := arr_set l pos x in shift_left l' (pos + 1) c
  end.

Lemma arr_get_ok {A} (l : list A) i : 0 <= i -> arr_get l i = l !! Z.to_nat i.
Proof. intros. unfold arr_get. by rewrite (proj2 (Z.leb_le 0 i)) by done. Qed.

Lemma arr_get_is_Some {A} (l : list A) i : 0 <= i < zlen l -> is_Some (arr_get l i).
Proof. intros. rewrite arr_get_ok by lia. apply lookup_lt_is_Some. lia. Qed.

Lemma arr_get_inv {A} (l : list A) i x : arr_get l i = Some x -> 0 <= i < zlen l /\ l !! Z.to_nat i = Some x.
Proof.
  unfold arr_get. case_tests; [|done]. intros Hx. split; [|done]. apply lookup_lt_Some in Hx. lia.
Qed.

Lemma arr_set_ok {A} (l : list A) i x : 0 <= i < zlen l -> arr_set l i x = Some (<[Z.to_nat i := x]> l).
Proof. intros. unfold arr_set. by rewrite (proj2 (Z.leb_le 0 i)), (proj2 (Z.ltb_lt i _)) by lia. Qed.

Lemma arr_copy_ok {A} (dst : list A) off src soff n :
  0 <= off -> 0 <= n -> off + n <= zlen dst -> 0 <= soff -> soff + n <= zlen src ->
  arr_copy dst off src soff n =
  Some (take (Z.to_nat off) dst ++ take (Z.to_nat n) (drop (Z.to_nat soff) src) ++ drop (Z.to_nat (off + n)) dst).
Proof.
  intros. unfold arr_copy.
  by rewrite (proj2 (Z.leb_le 0 off)), (proj2 (Z.leb_le 0 n)), (proj2 (Z.leb_le (off + n) _)),
    (proj2 (Z.leb_le 0 soff)), (proj2 (Z.leb_le (soff + n) _)) by lia.
Qed.

Lemma arr_copy_lookup {A} (dst : list A) off src soff n l (j : nat) :
  arr_copy dst off src soff n = Some l ->
  l !! j = if decide (off <= Z.of_nat j < off + n) then src !! (j - Z.to_nat off + Z.to_nat soff)%nat else dst !! j.
Proof.
  unfold arr_copy. destruct (_ && _) eqn:E; [|done]. rewrite !andb_true_iff, !Z.leb_le in E. intros [= <-].
  assert (length (take (Z.to_nat off) dst) = Z.to_nat off) by (rewrite length_take; lia).
  assert (length (take (Z.to_nat n) (drop (Z.to_nat soff) src)) = Z.to_nat n)
    by (rewrite length_take, length_drop; lia).
  case_decide.
  - rewrite lookup_app_r, lookup_app_l, lookup_take_lt, lookup_drop by lia. f_equal. lia.
  - destruct (decide (Z.of_nat j < off)).
    + rewrite lookup_app_l, lookup_take_lt by lia. done.
    + rewrite !lookup_app_r, lookup_drop by lia. f_equal. lia.
Qed.

Lemma arr_copy_length {A} (dst : list A) off src soff n l :
  arr_copy dst off src soff n = Some l -> length l = length dst.
Proof.
  unfold arr_copy. destruct (_ && _) eqn:E; [|done]. rewrite !andb_true_iff, !Z.leb_le in E. intros [= <-].
  rewrite !length_app, !length_take, !length_drop. lia.
Qed.

Lemma shift_right_spec {A} cnt : forall (l : list A) pos, 0 <= pos -> pos + Z.of_nat cnt < zlen l ->
  exists l', shift_right l pos cnt = Some l' /\ length l' = length l /\
    forall j : nat, l' !! j = if decide (pos < Z.of_nat j <= pos + Z.of_nat cnt) then l !! (j - 1)%nat else l !! j.
Proof.
  induction cnt as [|c IH]; intros l pos Hp Hl; cbn [shift_right].
  - exists l. split; [done|]. split; [done|]. intros j. rewrite decide_False by lia. done.
  - destruct (arr_get_is_Some l (pos + Z.of_nat c)) as [x Hx]; [lia|]. rewrite Hx. cbn.
    rewrite arr_set_ok by lia. cbn. apply arr_get_inv in Hx as [_ Hx].
    destruct (IH (<[Z.to_nat (pos + Z.of_nat c + 1) := x]> l) pos) as (l' & -> & Hlen & Hj); [done|rewrite length_insert; lia|].
    rewrite length_insert in Hlen. exists l'. split; [done|]. split; [done|]. intros j. rewrite Hj.
    repeat case_decide; try lia.
    + by rewrite list_lookup_insert_ne by lia.
    + replace j with (Z.to_nat (pos + Z.of_nat c + 1)) by lia.
      rewrite list_lookup_insert_eq by lia. rewrite <-Hx. f_equal. lia.
    + by rewrite list_lookup_insert_ne by lia.
Qed.

Lemma shift_left_spec {A} cnt : forall (l : list A) pos, 0 <= pos -> pos + Z.of_nat cnt < zlen l ->
  exists l', shift_left l pos cnt = Some l' /\ length l' = length l /\
    forall j : nat, l' !! j = if decide (pos <= Z.of_nat j < pos + Z.of_nat cnt) then l !! (j + 1)%nat else l !! j.
Proof.
  induction cnt as [|c IH]; intros l pos Hp Hl; cbn [shift_left].
  - exists l. split; [done|]. split; [done|]. intros j. rewrite decide_False by lia. done.
  - destruct (arr_get_is_Some l (pos + 1)) as [x Hx]; [lia|]. rewrite Hx. cbn.
    rewrite arr_set_ok by lia. cbn. apply arr_get_inv in Hx as [_ Hx].
    destruct (IH (<[Z.to_nat pos := x]> l) (pos + 1)) as (l' & -> & Hlen & Hj); [lia|rewrite length_insert; lia|].
    rewrite length_insert in Hlen. exists l'. split; [done|]. split; [done|]. intros j. rewrite Hj.
    repeat case_decide; try lia.
    + by rewrite list_lookup_insert_ne by lia.
    + replace j with (Z.to_nat pos) by lia. rewrite list_lookup_insert_eq by lia. rewrite <-Hx. f_equal. lia.
    + by rewrite list_lookup_insert_ne by lia.
Qed.

(** What the shifts do to the first [n] elements, the ones in use. *)
Lemma shift_insert_take {A} (l : list A) pos n x :
  0 <= pos <= n -> n < zlen l ->
  exists l1, shift_right l pos (Z.to_nat (n - pos)) = Some l1 /\ length l1 = length l /\
    take (Z.to_nat (n + 1)) (<[Z.to_nat pos := x]> l1) =
    take (Z.to_nat pos) l ++ x :: drop (Z.to_nat pos) (take (Z.to_nat n) l).
Proof.
  intros Hp Hn. destruct (shift_right_spec (Z.to_nat (n - pos)) l pos) as (l1 & Hs & Hlen & Hj); [lia..|].
  exists l1. split; [done|]. split; [done|]. apply list_eq. intros j.
  assert (length (take (Z.to_nat pos) l) = Z.to_nat pos) as Hlt by (rewrite length_take; lia).
  destruct (decide (j < Z.to_nat (n + 1))%nat).
  - rewrite lookup_take_lt by lia. destruct (decide (j = Z.to_nat pos)) as [->|].
    + rewrite list_lookup_insert_eq by lia. by rewrite list_lookup_middle by lia.
    + rewrite list_lookup_insert_ne, Hj by lia. case_decide.
      * rewrite lookup_app_r, Hlt by lia. rewrite lookup_cons_ne_0 by lia.
        rewrite lookup_drop, lookup_take_lt by lia. f_equal. lia.
      * rewrite lookup_app_l, lookup_take_lt by lia. done.
  - rewrite lookup_take_ge by lia. symmetry. apply lookup_ge_None.
    rewrite length_app. cbn [length]. rewrite length_drop, !length_take. lia.
Qed.

Lemma shift_insert_after_take {A} (l : list A) pos n x :
  0 <= pos <= n -> n + 1 < zlen l ->
  exists l1, shift_right l pos (Z.to_nat (n + 1 - pos)) = Some l1 /\ length l1 = length l /\
    take (Z.to_nat (n + 2)) (<[Z.to_nat (pos + 1) := x]> l1) =
    take (Z.to_nat (pos + 1)) l ++ x :: drop (Z.to_nat (pos + 1)) (take (Z.to_nat (n + 1)) l).
Proof.
  intros Hp Hn. destruct (shift_right_spec (Z.to_nat (n + 1 - pos)) l pos) as (l1 & Hs & Hlen & Hj); [lia..|].
  exists l1. split; [done|]. split; [done|]. apply list_eq. intros j.
  assert (length (take (Z.to_nat (pos + 1)) l) = Z.to_nat (pos + 1)) as Hlt by (rewrite length_take; lia).
  destruct (decide (j < Z.to_nat (n + 2))%nat).
  - rewrite lookup_take_lt by lia. destruct (decide (j = Z.to_nat (pos + 1))) as [->|].
    + rewrite list_lookup_insert_eq by lia. by rewrite list_lookup_middle by lia.
    + rewrite list_lookup_insert_ne, Hj by lia. case_decide.
      * rewrite lookup_app_r, Hlt by lia. rewrite lookup_cons_ne_0 by lia.
        rewrite lookup_drop, lookup_take_lt by lia. f_equal. lia.
      * rewrite lookup_app_l, lookup_take_lt by lia. done.
  - rewrite lookup_take_ge by lia. symmetry. apply lookup_ge_None.
    rewrite length_app. cbn [length]. rewrite length_drop, !length_take. lia.
Qed.

Lemma shift_remove_take {A} (l : list A) pos n :
  0 <= pos < n -> n <= zlen l ->
  exists l1, shift_left l pos (Z.to_nat (n - 1 - pos)) = Some l1 /\ length l1 = length l /\
    take (Z.to_nat (n - 1)) l1 = take (Z.to_nat pos) l ++ drop (Z.to_nat (pos + 1)) (take (Z.to_nat n) l).
Proof.
  intros Hp Hn. destruct (shift_left_spec (Z.to_nat (n - 1 - pos)) l pos) as (l1 & Hs & Hlen & Hj); [lia..|].
  exists l1. split; [done|]. split; [done|]. apply list_eq. intros j.
  assert (length (take (Z.to_nat pos) l) = Z.to_nat pos) as Hlt by (rewrite length_take; lia).
  destruct (decide (j < Z.to_nat (n - 1))%nat).
  - rewrite lookup_take_lt, Hj by lia. case_decide.
    + rewrite lookup_app_r, lookup_drop, lookup_take_lt by lia. f_equal. lia.
    + rewrite lookup_app_l, lookup_take_lt by lia. done.
  - rewrite lookup_take_ge by lia. symmetry. apply lookup_ge_None. rewrite length_app, length_drop, !length_take. lia.
Qed.

(** An element past those in use does not matter. *)
Lemma take_insert_past {A} (l : list A) (n i : nat) x : (n <= i)%nat -> take n (<[i := x]> l) = take n l.
Proof. intros. by rewrite take_insert_ge by lia. Qed.

Lemma shift_right_Forall {A} (P : A -> Prop) (l l' : list A) pos cnt :
  0 <= pos -> pos + Z.of_nat cnt < zlen l -> shift_right l pos cnt = Some l' -> Forall P l -> Forall P l'.
Proof.
  intros Hp Hl Hs HP. destruct (shift_right_spec cnt l pos Hp Hl) as (l1 & Hs1 & _ & Hj).
  rewrite Hs in Hs1. injection Hs1 as <-. apply Forall_lookup. intros j x. rewrite Hj.
  case_decide; by apply Forall_lookup_1.
Qed.

Lemma shift_left_Forall {A} (P : A -> Prop) (l l' : list A) pos cnt :
  0 <= pos -> pos + Z.of_nat cnt < zlen l -> shift_left l pos cnt = Some l' -> Forall P l -> Forall P l'.
Proof.
  intros Hp Hl Hs HP. destruct (shift_left_spec cnt l pos Hp Hl) as (l1 & Hs1 & _ & Hj).
  rewrite Hs in Hs1. injection Hs1 as <-. apply Forall_lookup. intros j x. rewrite Hj.
  case_decide; by apply Forall_lookup_1.
Qed.

Lemma arr_copy_Forall {A} (P : A -> Prop) (dst : list A) off src soff n l :
  arr_copy dst off src soff n = Some l -> Forall P dst -> Forall P src -> Forall P l.
Proof.
  intros Hc Hd Hs. apply Forall_lookup. intros j x. rewrite (arr_copy_lookup _ _ _ _ _ _ j Hc).
  case_decide; by apply Forall_lookup_1.
Qed.
