(* ===== verification/BTreeNode.v ===== *)
(** * Nodes of the secondary B+tree

    crates/axiomdb-index/src/page_layout.rs: internal nodes and leaves as fixed-size arrays
    in the body of a page, with their searches and shifting inserts and removals.  A node
    is a record of its arrays; the casts between page bodies and nodes read and write the
    [repr(C)] layout byte by byte.  Integers stored as byte arrays are kept as their
    values; the raw arrays of record identifiers and of zero-padded keys are kept. *)

From S2P Require Import Prelude Page ByteOrder.

Definition MAX_KEY_LEN : Z := 64.
Definition ORDER_INTERNAL : Z := 223.
Definition ORDER_LEAF : Z := 217.
Definition PAGE_BODY_SIZE : Z := PAGE_SIZE - HEADER_SIZE.
Definition NULL_PAGE : Z := U64_MAX.
Definition MIN_KEYS_INTERNAL : Z := ORDER_INTERNAL / 2.
Definition MIN_KEYS_LEAF : Z := ORDER_LEAF / 2.

(** ** Record identifiers *)

Record RecordId : Type := mkRid { rid_page_id : Z; rid_slot_id : Z }.

#[export] Instance RecordId_eq_dec : EqDecision RecordId.
Proof. solve_decision. Defined.

Definition encode_rid (rid : RecordId) : bytes := le_bytes 8 (rid_page_id rid) ++ le_bytes 2 (rid_slot_id rid).
Definition decode_rid (buf : bytes) : RecordId :=
  mkRid (le_val (take 8 buf)) (le_val (take 2 (drop 8 buf))).

(** ** Keys in their slots *)

(** [&keys\[i\]\[..key_lens\[i\]\]] *)
Definition slot_key (key_lens : list Z) (keys : list bytes) (i : Z) : option bytes :=
  let! len := arr_get key_lens i in
  let! k := arr_get keys i in
  if len <=? zlen k then Some (take (Z.to_nat len) k) else None.

(** [set_key_at] of both kinds of node: the rest of the slot is cleared. *)
Definition put_key (key_lens : list Z) (keys : list bytes) (i : Z) (k : bytes) : option (list Z * list bytes) :=
  if MAX_KEY_LEN <? zlen k then None
  else let! lens := arr_set key_lens i (wrap8 (zlen k)) in
       let! ks := arr_set keys i (k ++ replicate (Z.to_nat (MAX_KEY_LEN - zlen k)) 0) in
       Some (lens, ks).

(** The loop of [find_child_idx]: the first of the keys [lo..hi] above [key]. *)
Fixpoint upper_bound (fuel : nat) (key_lens : list Z) (keys : list bytes) (key : bytes) (lo hi : Z) : option Z :=
  if lo <? hi then
    match fuel with
    | O => None
    | S f =>
        let mid := lo + (hi - lo) / 2 in
        let! k := slot_key key_lens keys mid in
        match lex_cmp k key with
        | Gt => upper_bound f key_lens keys key lo mid
        | _ => upper_bound f key_lens keys key (mid + 1) hi
        end
    end
  else Some lo.

(** The loop of [search]: [inl] is [Ok], [inr] is [Err]. *)
Fixpoint bin_search (fuel : nat) (key_lens : list Z) (keys : list bytes) (key : bytes) (lo hi : Z) : option (Z + Z) :=
  if lo <? hi then
    match fuel with
    | O => None
    | S f =>
        let mid := lo + (hi - lo) / 2 in
        let! k := slot_key key_lens keys mid in
        match lex_cmp k key with
        | Lt => bin_search f key_lens keys key (mid + 1) hi
        | Gt => bin_search f key_lens keys key lo mid
        | Eq => Some (inl mid)
        end
    end
  else Some (inr lo).

(** ** Internal nodes *)

Record InternalNodePage : Type := mkInternal {
  in_is_leaf : Z;
  in_pad0 : Z;
  in_num_keys : Z;
  in_pad1 : bytes;
  in_key_lens : list Z;
  in_children : list Z;
  in_keys : list bytes
}.

Definition internal_set_num_keys (n : InternalNodePage) (k : Z) : InternalNodePage :=
  mkInternal (in_is_leaf n) (in_pad0 n) (wrap16 k) (in_pad1 n) (in_key_lens n) (in_children n) (in_keys n).
Definition internal_set_arrays (n : InternalNodePage) (lens : list Z) (children : list Z) (keys : list bytes)
    : InternalNodePage :=
  mkInternal (in_is_leaf n) (in_pad0 n) (in_num_keys n) (in_pad1 n) lens children keys.

Definition internal_key_at (n : InternalNodePage) (i : Z) : option bytes := slot_key (in_key_lens n) (in_keys n) i.
Definition internal_set_key_at (n : InternalNodePage) (i : Z) (k : bytes) : option InternalNodePage :=
  let! r := put_key (in_key_lens n) (in_keys n) i k in
  Some (internal_set_arrays n r.1 (in_children n) r.2).
Definition child_at (n : InternalNodePage) (i : Z) : option Z := arr_get (in_children n) i.
Definition set_child_at (n : InternalNodePage) (i pid : Z) : option InternalNodePage :=
  let! c := arr_set (in_children n) i pid in
  Some (internal_set_arrays n (in_key_lens n) c (in_keys n)).

Definition find_child_idx (n : InternalNodePage) (key : bytes) : option Z :=
  upper_bound (Z.to_nat (in_num_keys n)) (in_key_lens n) (in_keys n) key 0 (in_num_keys n).

Definition internal_insert_at (n : InternalNodePage) (pos : Z) (sep_key : bytes) (right_pid : Z)
    : option InternalNodePage :=
  let cnt := in_num_keys n in
  let! keys := shift_right (in_keys n) pos (Z.to_nat (cnt - pos)) in
  let! lens := shift_right (in_key_lens n) pos (Z.to_nat (cnt - pos)) in
  let! children := shift_right (in_children n) pos (Z.to_nat (cnt + 1 - pos)) in
  let! n1 := internal_set_key_at (internal_set_arrays n lens children keys) pos sep_key in
  let! n2 := set_child_at n1 (pos + 1) right_pid in
  Some (internal_set_num_keys n2 (cnt + 1)).

(** [n - 1] panics, or indexes far outside, when the node is empty. *)
Definition internal_remove_at (n : InternalNodePage) (key_pos child_pos : Z) : option InternalNodePage :=
  let cnt := in_num_keys n in
  if cnt <=? 0 then None
  else
    let! keys := shift_left (in_keys n) key_pos (Z.to_nat (cnt - 1 - key_pos)) in
    let! lens := shift_left (in_key_lens n) key_pos (Z.to_nat (cnt - 1 - key_pos)) in
    let! lens' := arr_set lens (cnt - 1) 0 in
    let! keys' := arr_set keys (cnt - 1) (replicate (Z.to_nat MAX_KEY_LEN) 0) in
    let! children := shift_left (in_children n) child_pos (Z.to_nat (cnt - child_pos)) in
    let! children' := arr_set children cnt 0 in
    Some (internal_set_num_keys (internal_set_arrays n lens' children' keys') (cnt - 1)).

(** ** Leaves *)

Record LeafNodePage : Type := mkLeaf {
  lf_is_leaf : Z;
  lf_pad0 : Z;
  lf_num_keys : Z;
  lf_pad1 : bytes;
  lf_next_leaf : Z;
  lf_key_lens : list Z;
  lf_rids : list bytes;
  lf_keys : list bytes
}.

Definition leaf_set_num_keys (n : LeafNodePage) (k : Z) : LeafNodePage :=
  mkLeaf (lf_is_leaf n) (lf_pad0 n) (wrap16 k) (lf_pad1 n) (lf_next_leaf n) (lf_key_lens n) (lf_rids n) (lf_keys n).
Definition leaf_set_is_leaf (n : LeafNodePage) : LeafNodePage :=
  mkLeaf 1 (lf_pad0 n) (lf_num_keys n) (lf_pad1 n) (lf_next_leaf n) (lf_key_lens n) (lf_rids n) (lf_keys n).
Definition set_next_leaf (n : LeafNodePage) (pid : Z) : LeafNodePage :=
  mkLeaf (lf_is_leaf n) (lf_pad0 n) (lf_num_keys n) (lf_pad1 n) pid (lf_key_lens n) (lf_rids n) (lf_keys n).
Definition leaf_set_arrays (n : LeafNodePage) (lens : list Z) (rids keys : list bytes) : LeafNodePage :=
  mkLeaf (lf_is_leaf n) (lf_pad0 n) (lf_num_keys n) (lf_pad1 n) (lf_next_leaf n) lens rids keys.

Definition leaf_key_at (n : LeafNodePage) (i : Z) : option bytes := slot_key (lf_key_lens n) (lf_keys n) i.
Definition leaf_set_key_at (n : LeafNodePage) (i : Z) (k : bytes) : option LeafNodePage :=
  let! r := put_key (lf_key_lens n) (lf_keys n) i k in
  Some (leaf_set_arrays n r.1 (lf_rids n) r.2).
Definition rid_at (n : LeafNodePage) (i : Z) : option RecordId :=
  let! b := arr_get (lf_rids n) i in Some (decode_rid b).
Definition set_rid_at (n : LeafNodePage) (i : Z) (rid : RecordId) : option LeafNodePage :=
  let! r := arr_set (lf_rids n) i (encode_rid rid) in
  Some (leaf_set_arrays n (lf_key_lens n) r (lf_keys n)).

Definition search (n : LeafNodePage) (key : bytes) : option (Z + Z) :=
  bin_search (Z.to_nat (lf_num_keys n)) (lf_key_lens n) (lf_keys n) key 0 (lf_num_keys n).

Definition leaf_insert_at (n : LeafNodePage) (pos : Z) (key : bytes) (rid : RecordId) : option LeafNodePage :=
  let cnt := lf_num_keys n in
  let! keys := shift_right (lf_keys n) pos (Z.to_nat (cnt - pos)) in
  let! lens := shift_right (lf_key_lens n) pos (Z.to_nat (cnt - pos)) in
  let! rids := shift_right (lf_rids n) pos (Z.to_nat (cnt - pos)) in
  let! n1 := leaf_set_key_at (leaf_set_arrays n lens rids keys) pos key in
  let! n2 := set_rid_at n1 pos rid in
  Some (leaf_set_num_keys n2 (cnt + 1)).

Definition leaf_remove_at (n : LeafNodePage) (pos : Z) : option LeafNodePage :=
  let cnt := lf_num_keys n in
  if cnt <=? 0 then None
  else
    let! keys := shift_left (lf_keys n) pos (Z.to_nat (cnt - 1 - pos)) in
    let! lens := shift_left (lf_key_lens n) pos (Z.to_nat (cnt - 1 - pos)) in
    let! rids := shift_left (lf_rids n) pos (Z.to_nat (cnt - 1 - pos)) in
    let! lens' := arr_set lens (cnt - 1) 0 in
    let! keys' := arr_set keys (cnt - 1) (replicate (Z.to_nat MAX_KEY_LEN) 0) in
    let! rids' := arr_set rids (cnt - 1) (replicate 10 0) in
    Some (leaf_set_num_keys (leaf_set_arrays n lens' rids' keys') (cnt - 1)).

(** ** Casts *)

(** [n] consecutive arrays of [w] bytes. *)
Fixpoint chunks (w n : nat) (bs : bytes) : list bytes :=
  match n with
  | O => []
  | S n' => take w bs :: chunks w n' (drop w bs)
  end.

Definition INTERNAL_SIZE : Z := 8 + ORDER_INTERNAL + (ORDER_INTERNAL + 1) * 8 + ORDER_INTERNAL * MAX_KEY_LEN.
Definition LEAF_SIZE : Z := 16 + ORDER_LEAF + ORDER_LEAF * 10 + ORDER_LEAF * MAX_KEY_LEN.

Definition cast_internal (p : Page) : InternalNodePage :=
  let b := body p in
  mkInternal (get_le 0 1 b) (get_le 1 1 b) (get_le 2 2 b) (take 4 (drop 4 b))
    (take 223 (drop 8 b)) (le_val <$> chunks 8 224 (drop 231 b)) (chunks 64 223 (drop 2023 b)).
Definition internal_bytes (n : InternalNodePage) : bytes :=
  le_bytes 1 (in_is_leaf n) ++ le_bytes 1 (in_pad0 n) ++ le_bytes 2 (in_num_keys n) ++ in_pad1 n
  ++ in_key_lens n ++ concat (le_bytes 8 <$> in_children n) ++ concat (in_keys n).

Definition cast_leaf (p : Page) : LeafNodePage :=
  let b := body p in
  mkLeaf (get_le 0 1 b) (get_le 1 1 b) (get_le 2 2 b) (take 4 (drop 4 b)) (get_le 8 8 b)
    (take 217 (drop 16 b)) (chunks 10 217 (drop 233 b)) (chunks 64 217 (drop 2403 b)).
Definition leaf_bytes (n : LeafNodePage) : bytes :=
  le_bytes 1 (lf_is_leaf n) ++ le_bytes 1 (lf_pad0 n) ++ le_bytes 2 (lf_num_keys n) ++ lf_pad1 n
  ++ le_bytes 8 (lf_next_leaf n) ++ lf_key_lens n ++ concat (lf_rids n) ++ concat (lf_keys n).

(** Writing through [cast_internal_mut] and [cast_leaf_mut]. *)
Definition put_node (bs : bytes) (p : Page) : Page :=
  take (Z.to_nat HEADER_SIZE) p ++ bs ++ drop (Z.to_nat HEADER_SIZE + length bs) p.
Definition put_internal (p : Page) (n : InternalNodePage) : Page := put_node (internal_bytes n) p.
Definition put_leaf (p : Page) (n : LeafNodePage) : Page := put_node (leaf_bytes n) p.

(** [page.body()\[0\] == 1] *)
Definition is_leaf_page (p : Page) : bool := get_le 0 1 (body p) =? 1.

Definition leaf_zeroed : LeafNodePage :=
  mkLeaf 0 0 0 (replicate 4 0) 0 (replicate 217 0) (replicate 217 (replicate 10 0)) (replicate 217 (replicate 64 0)).
Definition internal_zeroed : InternalNodePage :=
  mkInternal 0 0 0 (replicate 4 0) (replicate 223 0) (replicate 224 0) (replicate 223 (replicate 64 0)).

(** ** Sizes *)

Definition array_of (w : Z) (bs : bytes) : Prop := zlen bs = w /\ bytes_ok bs.

Record internal_sized (n : InternalNodePage) : Prop := {
  is_leaf_byte : in_u8 (in_is_leaf n);
  is_pad0 : in_u8 (in_pad0 n);
  is_num : in_u16 (in_num_keys n);
  is_pad1 : array_of 4 (in_pad1 n);
  is_lens : array_of ORDER_INTERNAL (in_key_lens n);
  is_children_len : zlen (in_children n) = ORDER_INTERNAL + 1;
  is_children : Forall in_u64 (in_children n);
  is_keys_len : zlen (in_keys n) = ORDER_INTERNAL;
  is_keys : Forall (array_of MAX_KEY_LEN) (in_keys n)
}.

Record leaf_sized (n : LeafNodePage) : Prop := {
  ls_leaf_byte : in_u8 (lf_is_leaf n);
  ls_pad0 : in_u8 (lf_pad0 n);
  ls_num : in_u16 (lf_num_keys n);
  ls_pad1 : array_of 4 (lf_pad1 n);
  ls_next : in_u64 (lf_next_leaf n);
  ls_lens : array_of ORDER_LEAF (lf_key_lens n);
  ls_rids_len : zlen (lf_rids n) = ORDER_LEAF;
  ls_rids : Forall (array_of 10) (lf_rids n);
  ls_keys_len : zlen (lf_keys n) = ORDER_LEAF;
  ls_keys : Forall (array_of MAX_KEY_LEN) (lf_keys n)
}.

Ltac sizes := unfold ORDER_LEAF, ORDER_INTERNAL, MAX_KEY_LEN, PAGE_BODY_SIZE, PAGE_SIZE, HEADER_SIZE,
  MIN_KEYS_LEAF, MIN_KEYS_INTERNAL in *; first [lia | cbn -[Z.of_nat length] in *; lia].

(** ** Casts are inverse to writes *)

Lemma take_drop_mid {A} (pre f post : list A) (off n : nat) :
  length pre = off -> length f = n -> take n (drop off (pre ++ f ++ post)) = f.
Proof. intros <- <-. by rewrite drop_app_length, take_app_length. Qed.

Lemma drop_mid {A} (pre post : list A) (off : nat) : length pre = off -> drop off (pre ++ post) = post.
Proof. intros <-. by rewrite drop_app_length. Qed.

Lemma get_le_mid pre v post off n :
  zlen pre = off -> 0 <= n -> 0 <= v < 2 ^ (n * 8) -> get_le off n (pre ++ le_bytes n v ++ post) = v.
Proof.
  intros Ho Hn Hv. unfold get_le. rewrite take_drop_mid; [by apply le_val_le_bytes|lia|].
  rewrite length_le_bytes by done. lia.
Qed.

Lemma chunks_concat w n (l : list bytes) rest :
  length l = n -> Forall (fun c => length c = w) l -> chunks w n (concat l ++ rest) = l.
Proof.
  intros <-. induction 1 as [|c l Hc _ IH]; [done|]. cbn [length chunks concat]. rewrite <-app_assoc.
  rewrite take_app_length', drop_app_length' by done. by f_equal.
Qed.

Lemma length_concat_const (w : nat) (l : list bytes) :
  Forall (fun c => length c = w) l -> length (concat l) = (w * length l)%nat.
Proof. induction 1 as [|c l Hc _ IH]; [cbn; lia|]. cbn. rewrite length_app. lia. Qed.

Lemma array_lengths w (l : list bytes) : Forall (array_of w) l -> Forall (fun c => length c = Z.to_nat w) l.
Proof. intros Hl. apply (Forall_impl _ _ _ Hl). intros c [H _]. lia. Qed.

Lemma children_bytes_ok (l : list Z) : Forall (fun c => length c = 8%nat) (le_bytes 8 <$> l).
Proof. apply Forall_fmap, Forall_true. intros. cbn. by rewrite length_le_bytes. Qed.

Lemma length_leaf_bytes n : leaf_sized n -> zlen (leaf_bytes n) = LEAF_SIZE.
Proof.
  intros Hs. unfold leaf_bytes. rewrite !length_app, !length_le_bytes by lia.
  pose proof (length_concat_const _ _ (array_lengths _ _ (ls_rids n Hs))).
  pose proof (length_concat_const _ _ (array_lengths _ _ (ls_keys n Hs))).
  pose proof (ls_rids_len n Hs). pose proof (ls_keys_len n Hs). destruct (ls_pad1 n Hs), (ls_lens n Hs).
  unfold LEAF_SIZE. sizes.
Qed.

Lemma length_internal_bytes n : internal_sized n -> zlen (internal_bytes n) = INTERNAL_SIZE.
Proof.
  intros Hs. unfold internal_bytes. rewrite !length_app, !length_le_bytes by lia.
  pose proof (length_concat_const _ _ (children_bytes_ok (in_children n))) as Hc. rewrite length_fmap in Hc.
  pose proof (length_concat_const _ _ (array_lengths _ _ (is_keys n Hs))).
  pose proof (is_children_len n Hs). pose proof (is_keys_len n Hs). destruct (is_pad1 n Hs), (is_lens n Hs).
  unfold INTERNAL_SIZE. sizes.
Qed.

Lemma body_put_node bs p :
  page_ok p -> zlen bs <= PAGE_BODY_SIZE ->
  body (put_node bs p) = bs ++ drop (length bs) (body p).
Proof.
  intros [Hp _] Hl. unfold body, put_node. rewrite drop_mid by (rewrite length_take; sizes).
  rewrite drop_drop. done.
Qed.

Lemma cast_put_leaf p n : page_ok p -> leaf_sized n -> cast_leaf (put_leaf p n) = n.
Proof.
  intros Hp Hs. pose proof (length_leaf_bytes n Hs) as Hl. unfold cast_leaf, put_leaf.
  rewrite body_put_node; [|done|rewrite Hl; unfold LEAF_SIZE; sizes].
  set (rest := drop _ _). clearbody rest. clear Hl.
  destruct Hs as [H1 H2 H3 [H4 H4'] H5 [H6 H6'] H7 H8 H9 H10].
  destruct n as [a b c d e lens rids keys]. cbn [lf_is_leaf lf_pad0 lf_num_keys lf_pad1 lf_next_leaf lf_key_lens lf_rids lf_keys] in *.
  unfold leaf_bytes. cbn [lf_is_leaf lf_pad0 lf_num_keys lf_pad1 lf_next_leaf lf_key_lens lf_rids lf_keys].
  pose proof (array_lengths _ _ H8) as H8'. pose proof (array_lengths _ _ H10) as H10'.
  pose proof (length_concat_const _ _ H8') as Hr.
  assert (length (le_bytes 1 a) = 1 /\ length (le_bytes 1 b) = 1 /\ length (le_bytes 2 c) = 2 /\ length (le_bytes 8 e) = 8)%nat
    as (La & Lb & Lc & Le) by (rewrite !length_le_bytes by lia; lia).
  rewrite <-!app_assoc. f_equal.
  - apply (get_le_mid []); [done|lia|widths].
  - apply get_le_mid; [lia|lia|widths].
  - rewrite (app_assoc (le_bytes 1 a)). apply get_le_mid; [rewrite length_app; lia|lia|widths].
  - rewrite (app_assoc (le_bytes 1 a)), (app_assoc (_ ++ le_bytes 1 b)).
    apply take_drop_mid; [rewrite !length_app; lia|lia].
  - rewrite (app_assoc (le_bytes 1 a)), (app_assoc (_ ++ le_bytes 1 b)), (app_assoc (_ ++ le_bytes 2 c)).
    apply get_le_mid; [rewrite !length_app; lia|lia|widths].
  - rewrite (app_assoc (le_bytes 1 a)), (app_assoc (_ ++ le_bytes 1 b)), (app_assoc (_ ++ le_bytes 2 c)), (app_assoc (_ ++ d)).
    apply take_drop_mid; [rewrite !length_app; lia|sizes].
  - rewrite (app_assoc (le_bytes 1 a)), (app_assoc (_ ++ le_bytes 1 b)), (app_assoc (_ ++ le_bytes 2 c)), (app_assoc (_ ++ d)),
      (app_assoc (_ ++ le_bytes 8 e)), drop_mid by (rewrite !length_app; sizes).
    apply chunks_concat; [sizes|done].
  - rewrite (app_assoc (le_bytes 1 a)), (app_assoc (_ ++ le_bytes 1 b)), (app_assoc (_ ++ le_bytes 2 c)), (app_assoc (_ ++ d)),
      (app_assoc (_ ++ le_bytes 8 e)), (app_assoc (_ ++ lens)), drop_mid by (rewrite !length_app; sizes).
    apply chunks_concat; [sizes|done].
Qed.

Lemma cast_put_internal p n : page_ok p -> internal_sized n -> cast_internal (put_internal p n) = n.
Proof.
  intros Hp Hs. pose proof (length_internal_bytes n Hs) as Hl. unfold cast_internal, put_internal.
  rewrite body_put_node; [|done|rewrite Hl; unfold INTERNAL_SIZE; sizes].
  set (rest := drop _ _). clearbody rest. clear Hl.
  destruct Hs as [H1 H2 H3 [H4 H4'] [H5 H5'] H6 H7 H8 H9].
  destruct n as [a b c d lens ch keys]. cbn [in_is_leaf in_pad0 in_num_keys in_pad1 in_key_lens in_children in_keys] in *.
  unfold internal_bytes. cbn [in_is_leaf in_pad0 in_num_keys in_pad1 in_key_lens in_children in_keys].
  pose proof (array_lengths _ _ H9) as H9'. pose proof (children_bytes_ok ch) as Hc.
  pose proof (length_concat_const _ _ Hc) as Hr. rewrite length_fmap in Hr.
  assert (length (le_bytes 1 a) = 1 /\ length (le_bytes 1 b) = 1 /\ length (le_bytes 2 c) = 2)%nat
    as (La & Lb & Lc) by (rewrite !length_le_bytes by lia; lia).
  rewrite <-!app_assoc. f_equal.
  - apply (get_le_mid []); [done|lia|widths].
  - apply get_le_mid; [lia|lia|widths].
  - rewrite (app_assoc (le_bytes 1 a)). apply get_le_mid; [rewrite length_app; lia|lia|widths].
  - rewrite (app_assoc (le_bytes 1 a)), (app_assoc (_ ++ le_bytes 1 b)).
    apply take_drop_mid; [rewrite !length_app; lia|lia].
  - rewrite (app_assoc (le_bytes 1 a)), (app_assoc (_ ++ le_bytes 1 b)), (app_assoc (_ ++ le_bytes 2 c)).
    apply take_drop_mid; [rewrite !length_app; lia|sizes].
  - rewrite (app_assoc (le_bytes 1 a)), (app_assoc (_ ++ le_bytes 1 b)), (app_assoc (_ ++ le_bytes 2 c)), (app_assoc (_ ++ d)),
      drop_mid by (rewrite !length_app; sizes).
    rewrite chunks_concat; [|rewrite length_fmap; sizes|done]. rewrite <-list_fmap_compose.
    rewrite <-(list_fmap_id ch) at 2. apply list_fmap_ext. intros i x Hx. cbn.
    apply le_val_le_bytes; [lia|]. eapply Forall_lookup in Hx; [|exact H7]. widths.
  - rewrite (app_assoc (le_bytes 1 a)), (app_assoc (_ ++ le_bytes 1 b)), (app_assoc (_ ++ le_bytes 2 c)), (app_assoc (_ ++ d)),
      (app_assoc (_ ++ lens)), drop_mid by (rewrite !length_app; sizes).
    apply chunks_concat; [sizes|done].
Qed.

Lemma bytes_ok_app a b : bytes_ok a -> bytes_ok b -> bytes_ok (a ++ b).
Proof. intros. by apply Forall_app. Qed.
Lemma bytes_ok_concat (l : list bytes) : Forall bytes_ok l -> bytes_ok (concat l).
Proof. induction 1; cbn; [constructor|by apply bytes_ok_app]. Qed.
Lemma arrays_ok w (l : list bytes) : Forall (array_of w) l -> Forall bytes_ok l.
Proof. intros Hl. apply (Forall_impl _ _ _ Hl). by intros c [_ H]. Qed.

Lemma leaf_bytes_ok n : leaf_sized n -> bytes_ok (leaf_bytes n).
Proof.
  intros Hs. unfold leaf_bytes. repeat apply bytes_ok_app; try (by apply bytes_ok_le_bytes); try apply Hs;
    apply bytes_ok_concat; eapply arrays_ok; apply Hs.
Qed.
Lemma internal_bytes_ok n : internal_sized n -> bytes_ok (internal_bytes n).
Proof.
  intros Hs. unfold internal_bytes. repeat apply bytes_ok_app; try (by apply bytes_ok_le_bytes); try apply Hs;
    apply bytes_ok_concat; [|eapply arrays_ok; apply Hs].
  apply Forall_fmap, Forall_true. intros. by apply bytes_ok_le_bytes.
Qed.

Lemma put_node_page_ok bs p : page_ok p -> bytes_ok bs -> zlen bs <= PAGE_BODY_SIZE -> page_ok (put_node bs p).
Proof.
  intros [Hl Hb] Hbs Hle. unfold put_node. split.
  - rewrite !length_app, length_take, length_drop. sizes.
  - apply bytes_ok_app; [by apply Forall_take|]. apply bytes_ok_app; [done|]. by apply Forall_drop.
Qed.

Lemma put_leaf_page_ok p n : page_ok p -> leaf_sized n -> page_ok (put_leaf p n).
Proof.
  intros Hp Hs. apply put_node_page_ok; [done|by apply leaf_bytes_ok|].
  rewrite length_leaf_bytes by done. unfold LEAF_SIZE. sizes.
Qed.
Lemma put_internal_page_ok p n : page_ok p -> internal_sized n -> page_ok (put_internal p n).
Proof.
  intros Hp Hs. apply put_node_page_ok; [done|by apply internal_bytes_ok|].
  rewrite length_internal_bytes by done. unfold INTERNAL_SIZE. sizes.
Qed.

(** The header is untouched. *)
Lemma put_node_magic bs p : page_ok p -> hdr_magic (put_node bs p) = hdr_magic p.
Proof.
  intros [Hl _]. unfold hdr_magic, get_le, put_node. cbn [Z.to_nat drop]. f_equal.
  rewrite !drop_0, take_app_le by (rewrite length_take; sizes). rewrite take_take. f_equal.
Qed.

Lemma is_leaf_page_leaf p : is_leaf_page p = (lf_is_leaf (cast_leaf p) =? 1).
Proof. done. Qed.
Lemma is_leaf_page_internal p : is_leaf_page p = (in_is_leaf (cast_internal p) =? 1).
Proof. done. Qed.

(** *** Any page body casts to a node of the right sizes *)

Lemma chunks_length w n bs : length (chunks w n bs) = n.
Proof. revert bs. induction n; intros; cbn; auto. Qed.

Lemma chunks_arrays (w n : nat) bs :
  (w * n <= length bs)%nat -> bytes_ok bs -> Forall (array_of (Z.of_nat w)) (chunks w n bs).
Proof.
  revert bs. induction n as [|n IH]; intros bs Hl Hb; [constructor|]. cbn. constructor.
  - split; [rewrite length_take; lia|by apply Forall_take].
  - apply IH; [rewrite length_drop; lia|by apply Forall_drop].
Qed.

Lemma body_length p : page_ok p -> zlen (body p) = 16320.
Proof. intros [Hl _]. unfold body. rewrite length_drop. sizes. Qed.
Lemma body_bytes p : page_ok p -> bytes_ok (body p).
Proof. intros [_ Hb]. by apply Forall_drop. Qed.

Lemma cast_leaf_sized p : page_ok p -> leaf_sized (cast_leaf p).
Proof.
  intros Hp. pose proof (body_length p Hp) as Hl. pose proof (body_bytes p Hp) as Hb.
  unfold cast_leaf. split; cbn [lf_is_leaf lf_pad0 lf_num_keys lf_pad1 lf_next_leaf lf_key_lens lf_rids lf_keys].
  - pose proof (get_le_range 0 1 (body p) ltac:(lia) ltac:(lia) ltac:(lia) Hb). widths.
  - pose proof (get_le_range 1 1 (body p) ltac:(lia) ltac:(lia) ltac:(lia) Hb). widths.
  - pose proof (get_le_range 2 2 (body p) ltac:(lia) ltac:(lia) ltac:(lia) Hb). widths.
  - split; [rewrite length_take, length_drop; lia|by apply Forall_take, Forall_drop].
  - pose proof (get_le_range 8 8 (body p) ltac:(lia) ltac:(lia) ltac:(lia) Hb). widths.
  - split; [rewrite length_take, length_drop; sizes|by apply Forall_take, Forall_drop].
  - by rewrite chunks_length.
  - apply (chunks_arrays 10); [rewrite length_drop; lia|by apply Forall_drop].
  - by rewrite chunks_length.
  - apply (chunks_arrays 64); [rewrite length_drop; lia|by apply Forall_drop].
Qed.

Lemma cast_internal_sized p : page_ok p -> internal_sized (cast_internal p).
Proof.
  intros Hp. pose proof (body_length p Hp) as Hl. pose proof (body_bytes p Hp) as Hb.
  unfold cast_internal. split; cbn [in_is_leaf in_pad0 in_num_keys in_pad1 in_key_lens in_children in_keys].
  - pose proof (get_le_range 0 1 (body p) ltac:(lia) ltac:(lia) ltac:(lia) Hb). widths.
  - pose proof (get_le_range 1 1 (body p) ltac:(lia) ltac:(lia) ltac:(lia) Hb). widths.
  - pose proof (get_le_range 2 2 (body p) ltac:(lia) ltac:(lia) ltac:(lia) Hb). widths.
  - split; [rewrite length_take, length_drop; lia|by apply Forall_take, Forall_drop].
  - split; [rewrite length_take, length_drop; sizes|by apply Forall_take, Forall_drop].
  - by rewrite length_fmap, chunks_length.
  - apply Forall_fmap. eapply Forall_impl; [apply (chunks_arrays 8); [rewrite length_drop; lia|by apply Forall_drop]|].
    intros c [Hc Hc']. cbn. apply le_val_u64; [done|lia].
  - by rewrite chunks_length.
  - apply (chunks_arrays 64); [rewrite length_drop; lia|by apply Forall_drop].
Qed.

(** *** Fresh pages *)

Lemma le_val_zeros n : le_val (replicate n 0) = 0.
Proof. unfold le_val. induction n as [|n IH]; [done|]. cbn [replicate little_endian_to_Z]. by rewrite IH. Qed.

Lemma chunks_zeros (w n m : nat) : (w * n <= m)%nat -> chunks w n (replicate m 0) = replicate n (replicate w 0).
Proof.
  revert m. induction n as [|n IH]; intros m Hm; [done|]. cbn [chunks]. rewrite take_replicate, drop_replicate.
  rewrite IH by lia. cbn. f_equal. f_equal. lia.
Qed.

Section Fresh.
Context {C : Crc32c} {CR : Crc32cRange C}.

Lemma body_field off n v p :
  page_ok p -> 0 <= off -> 0 <= n -> off + n <= HEADER_SIZE -> body (set_le off n v p) = body p.
Proof. intros [Hl _]. intros. apply body_set_le; [done..|sizes]. Qed.

Lemma body_reserved p : page_ok p -> body (set_reserved (replicate 28 0) p) = body p.
Proof.
  intros [Hl _]. unfold body, set_reserved. rewrite app_assoc. apply drop_mid.
  rewrite length_app, length_take, length_replicate. sizes.
Qed.

Lemma page_init_body ty i : body (page_init ty i) = replicate (Z.to_nat PAGE_BODY_SIZE) 0.
Proof.
  unfold page_init. transitivity (body (replicate (Z.to_nat PAGE_SIZE) 0)); [|unfold body; by rewrite drop_replicate].
  set (z := replicate (Z.to_nat PAGE_SIZE) 0). assert (Hz : page_ok z) by apply page_ok_zero. clearbody z.
  unfold set_free_end, set_free_start, set_lsn, set_page_id, set_item_count, set_flags, set_page_type, set_magic.
  rewrite body_reserved by auto 20 with page. by rewrite !body_field by auto 20 with page.
Qed.

Lemma page_new_body ty i : in_u64 i -> body (page_new ty i) = replicate (Z.to_nat PAGE_BODY_SIZE) 0.
Proof.
  intros Hi. unfold page_new. rewrite update_checksum_body by (by apply page_init_fields). apply page_init_body.
Qed.

Lemma cast_leaf_new ty i : in_u64 i -> cast_leaf (page_new ty i) = leaf_zeroed.
Proof.
  intros Hi. unfold cast_leaf. rewrite page_new_body by done. unfold get_le. rewrite !drop_replicate, !take_replicate, !le_val_zeros.
  rewrite !chunks_zeros by (vm_compute; lia). reflexivity.
Qed.

Lemma cast_internal_new ty i : in_u64 i -> cast_internal (page_new ty i) = internal_zeroed.
Proof.
  intros Hi. unfold cast_internal. rewrite page_new_body by done. unfold get_le. rewrite !drop_replicate, !take_replicate, !le_val_zeros.
  rewrite !chunks_zeros by (vm_compute; lia). rewrite fmap_replicate, le_val_zeros. reflexivity.
Qed.
End Fresh.

(** ** What a node holds *)

Definition pack (lens : list Z) (keys : list bytes) : list bytes :=
  zip_with (fun len k => take (Z.to_nat len) k) lens keys.

Definition internal_ks (n : InternalNodePage) : list bytes :=
  take (Z.to_nat (in_num_keys n)) (pack (in_key_lens n) (in_keys n)).
Definition internal_cs (n : InternalNodePage) : list Z := take (Z.to_nat (in_num_keys n + 1)) (in_children n).

Definition leaf_slots (n : LeafNodePage) : list (bytes * RecordId) :=
  zip (pack (lf_key_lens n) (lf_keys n)) (decode_rid <$> lf_rids n).
Definition leaf_es (n : LeafNodePage) : list (bytes * RecordId) := take (Z.to_nat (lf_num_keys n)) (leaf_slots n).

Record internal_wf (n : InternalNodePage) : Prop := {
  iw_sized : internal_sized n;
  iw_tag : in_is_leaf n = 0;
  iw_num : in_num_keys n <= ORDER_INTERNAL;
  iw_lens : Forall (fun l => l <= MAX_KEY_LEN) (take (Z.to_nat (in_num_keys n)) (in_key_lens n))
}.

Record leaf_wf (n : LeafNodePage) : Prop := {
  lw_sized : leaf_sized n;
  lw_tag : lf_is_leaf n = 1;
  lw_num : lf_num_keys n <= ORDER_LEAF;
  lw_lens : Forall (fun l => l <= MAX_KEY_LEN) (take (Z.to_nat (lf_num_keys n)) (lf_key_lens n))
}.

(** *** Keys of the slots in use *)

Section Keys.
Context (lens : list Z) (keys : list bytes) (cnt : Z).
Hypothesis (Hcnt : 0 <= cnt).
Hypothesis (Hlen : cnt <= zlen lens).
Hypothesis (Hsame : length keys = length lens).
Hypothesis (Hkeys : Forall (array_of MAX_KEY_LEN) keys).
Hypothesis (Hlens : Forall (fun l => 0 <= l <= MAX_KEY_LEN) (take (Z.to_nat cnt) lens)).
Let ks := take (Z.to_nat cnt) (pack lens keys).

Lemma pack_length : length (pack lens keys) = length lens.
Proof. unfold pack. rewrite length_zip_with. lia. Qed.
Lemma ks_length : length ks = Z.to_nat cnt.
Proof. unfold ks. rewrite length_take, pack_length. lia. Qed.

Lemma slot_key_ok i : 0 <= i < cnt -> exists k, slot_key lens keys i = Some k /\ ks !! Z.to_nat i = Some k /\ zlen k <= MAX_KEY_LEN.
Proof.
  intros Hi. unfold slot_key. destruct (arr_get_is_Some lens i) as [len Hl]; [lia|].
  destruct (arr_get_is_Some keys i) as [k Hk]; [lia|]. rewrite Hl, Hk. cbn.
  apply arr_get_inv in Hl as [_ Hl]. apply arr_get_inv in Hk as [_ Hk].
  pose proof (Forall_lookup_1 _ _ _ _ Hkeys Hk) as [Hz _].
  assert (0 <= len <= MAX_KEY_LEN) as Hlb.
  { apply (Forall_lookup_1 _ _ (Z.to_nat i) _ Hlens). by rewrite lookup_take_lt by lia. }
  rewrite (proj2 (Z.leb_le len (zlen k))) by lia. eexists. split; [done|]. split.
  - unfold ks. rewrite lookup_take_lt by lia. unfold pack. by rewrite lookup_zip_with, Hl, Hk.
  - rewrite length_take. lia.
Qed.

Hypothesis (Hsorted : bsorted ks).

Lemma upper_bound_spec key fuel : forall lo hi,
  0 <= lo <= hi -> hi <= cnt -> hi - lo <= Z.of_nat fuel ->
  (forall j k, Z.of_nat j < lo -> ks !! j = Some k -> ble k key) ->
  (forall j k, hi <= Z.of_nat j -> ks !! j = Some k -> blt key k) ->
  exists i, upper_bound fuel lens keys key lo hi = Some i /\ 0 <= i <= cnt /\
    (forall j k, Z.of_nat j < i -> ks !! j = Some k -> ble k key) /\
    (forall j k, i <= Z.of_nat j -> ks !! j = Some k -> blt key k).
Proof.
  induction fuel as [|f IH]; intros lo hi Hlo Hhi Hf Hbelow Habove; cbn [upper_bound];
    destruct (Z.ltb_spec lo hi) as [Hlt|Hge].
  - lia.
  - exists lo. split; [done|]. split; [lia|]. split; [done|]. intros j k Hj. apply Habove. lia.
  - pose proof (Z.div_pos (hi - lo) 2 ltac:(lia) ltac:(lia)). pose proof (Z.div_lt_upper_bound (hi - lo) 2 (hi - lo)).
    set (mid := lo + (hi - lo) / 2) in *. assert (lo <= mid < hi) as Hmid by lia.
    destruct (slot_key_ok mid) as (k & -> & Hk & _); [lia|]. cbn.
    destruct (lex_cmp k key) eqn:E.
    1, 2: apply IH; [lia..| |done]; intros j k' Hj Hk'; destruct (decide (j = Z.to_nat mid)) as [->|];
      [assert (k' = k) as -> by congruence; border|]; assert (blt k' k) by (apply (bsorted_lookup ks j (Z.to_nat mid)); [done|lia|done..]); border.
    apply IH; [lia..|done|]. intros j k' Hj Hk'. destruct (decide (j = Z.to_nat mid)) as [->|];
      [assert (k' = k) as -> by congruence; border|]. assert (blt k k') by (apply (bsorted_lookup ks (Z.to_nat mid) j); [done|lia|done..]). border.
  - exists lo. split; [done|]. split; [lia|]. split; [done|]. intros j k Hj. apply Habove. lia.
Qed.

Lemma bin_search_spec key fuel : forall lo hi,
  0 <= lo <= hi -> hi <= cnt -> hi - lo <= Z.of_nat fuel ->
  (forall j k, Z.of_nat j < lo -> ks !! j = Some k -> blt k key) ->
  (forall j k, hi <= Z.of_nat j -> ks !! j = Some k -> blt key k) ->
  exists r, bin_search fuel lens keys key lo hi = Some r /\
    match r with
    | inl i => 0 <= i < cnt /\ ks !! Z.to_nat i = Some key
    | inr i => 0 <= i <= cnt /\ (forall j k, Z.of_nat j < i -> ks !! j = Some k -> blt k key) /\
        (forall j k, i <= Z.of_nat j -> ks !! j = Some k -> blt key k)
    end.
Proof.
  induction fuel as [|f IH]; intros lo hi Hlo Hhi Hf Hbelow Habove; cbn [bin_search];
    destruct (Z.ltb_spec lo hi) as [Hlt|Hge].
  - lia.
  - exists (inr lo). split; [done|]. split; [lia|]. split; [done|]. intros j k Hj. apply Habove. lia.
  - pose proof (Z.div_pos (hi - lo) 2 ltac:(lia) ltac:(lia)). pose proof (Z.div_lt_upper_bound (hi - lo) 2 (hi - lo)).
    set (mid := lo + (hi - lo) / 2) in *. assert (lo <= mid < hi) as Hmid by lia.
    destruct (slot_key_ok mid) as (k & -> & Hk & _); [lia|]. cbn.
    destruct (lex_cmp k key) eqn:E.
    + apply lex_cmp_eq in E as ->. exists (inl mid). split; [done|]. split; [lia|done].
    + apply IH; [lia..| |done]; intros j k' Hj Hk'; destruct (decide (j = Z.to_nat mid)) as [->|];
      [assert (k' = k) as -> by congruence; border|]; assert (blt k' k) by (apply (bsorted_lookup ks j (Z.to_nat mid)); [done|lia|done..]); border.
    + apply IH; [lia..|done|]. intros j k' Hj Hk'. destruct (decide (j = Z.to_nat mid)) as [->|];
      [assert (k' = k) as -> by congruence; border|]. assert (blt k k') by (apply (bsorted_lookup ks (Z.to_nat mid) j); [done|lia|done..]). border.
  - exists (inr lo). split; [done|]. split; [lia|]. split; [done|]. intros j k Hj. apply Habove. lia.
Qed.
End Keys.

(** *** Shifting a key in and out *)

Definition slots_ok (cnt : Z) (lens : list Z) (keys : list bytes) : Prop :=
  length keys = length lens /\ bytes_ok lens /\ Forall (array_of MAX_KEY_LEN) keys /\
  Forall (fun l => l <= MAX_KEY_LEN) (take (Z.to_nat cnt) lens).

Lemma pack_take n lens keys : take n (pack lens keys) = pack (take n lens) (take n keys).
Proof. apply zip_with_take. Qed.

Lemma pack_split lens1 lens2 keys1 keys2 :
  length lens1 = length keys1 -> pack (lens1 ++ lens2) (keys1 ++ keys2) = pack lens1 keys1 ++ pack lens2 keys2.
Proof. apply zip_with_app. Qed.

Lemma insert_key_spec lens keys cnt pos k :
  slots_ok cnt lens keys -> 0 <= pos <= cnt -> cnt < zlen lens -> zlen k <= MAX_KEY_LEN -> bytes_ok k ->
  exists keys1 lens1 lens' keys',
    shift_right keys pos (Z.to_nat (cnt - pos)) = Some keys1 /\
    shift_right lens pos (Z.to_nat (cnt - pos)) = Some lens1 /\
    put_key lens1 keys1 pos k = Some (lens', keys') /\
    length lens' = length lens /\ slots_ok (cnt + 1) lens' keys' /\
    take (Z.to_nat (cnt + 1)) (pack lens' keys') =
      take (Z.to_nat pos) (take (Z.to_nat cnt) (pack lens keys)) ++ k ::
      drop (Z.to_nat pos) (take (Z.to_nat cnt) (pack lens keys)).
Proof.
  intros (Hs & Hlb & Hka & Hlm) Hp Hc Hk Hkb.
  set (len := wrap8 (zlen k)). set (kk := k ++ replicate (Z.to_nat (MAX_KEY_LEN - zlen k)) 0).
  assert (len = zlen k) as Hlen by (unfold len, wrap8; rewrite Z.mod_small; sizes).
  destruct (shift_insert_take lens pos cnt len Hp Hc) as (lens1 & Hl1 & Hll & Hlt).
  destruct (shift_insert_take keys pos cnt kk Hp ltac:(lia)) as (keys1 & Hk1 & Hkl & Hkt).
  exists keys1, lens1, (<[Z.to_nat pos := len]> lens1), (<[Z.to_nat pos := kk]> keys1).
  split; [done|]. split; [done|]. split.
  { unfold put_key. rewrite (proj2 (Z.ltb_ge _ _)) by lia. rewrite !arr_set_ok by lia. done. }
  split; [by rewrite length_insert|]. split.
  - split; [rewrite !length_insert; lia|]. split; [|split].
    + apply Forall_insert; [|unfold byte_ok; sizes]. eapply (shift_right_Forall byte_ok lens); [| |exact Hl1|done]; lia.
    + apply Forall_insert.
      * eapply (shift_right_Forall _ keys); [| |exact Hk1|done]; lia.
      * split; [unfold kk; rewrite length_app, length_replicate; lia|].
        apply bytes_ok_app; [done|]. apply Forall_replicate. unfold byte_ok. lia.
    + rewrite Hlt. apply Forall_app. split.
      * replace (take (Z.to_nat pos) lens) with (take (Z.to_nat pos) (take (Z.to_nat cnt) lens))
          by (rewrite take_take; f_equal; lia). by apply Forall_take.
      * constructor; [lia|by apply Forall_drop].
  - rewrite pack_take, Hlt, Hkt. rewrite pack_split by (rewrite !length_take; lia).
    rewrite take_take, Nat.min_l by lia. rewrite pack_take. f_equal. unfold pack at 1. cbn [zip_with]. f_equal.
    + rewrite Hlen. unfold kk. rewrite Nat2Z.id. apply take_app_length.
    + rewrite pack_take. symmetry. apply zip_with_drop.
Qed.

Lemma remove_key_spec lens keys cnt pos :
  slots_ok cnt lens keys -> 0 <= pos < cnt -> cnt <= zlen lens ->
  exists keys1 lens1 lens' keys',
    shift_left keys pos (Z.to_nat (cnt - 1 - pos)) = Some keys1 /\
    shift_left lens pos (Z.to_nat (cnt - 1 - pos)) = Some lens1 /\
    arr_set lens1 (cnt - 1) 0 = Some lens' /\
    arr_set keys1 (cnt - 1) (replicate (Z.to_nat MAX_KEY_LEN) 0) = Some keys' /\
    length lens' = length lens /\ slots_ok (cnt - 1) lens' keys' /\
    take (Z.to_nat (cnt - 1)) (pack lens' keys') =
      take (Z.to_nat pos) (take (Z.to_nat cnt) (pack lens keys)) ++
      drop (Z.to_nat (pos + 1)) (take (Z.to_nat cnt) (pack lens keys)).
Proof.
  intros (Hs & Hlb & Hka & Hlm) Hp Hc.
  destruct (shift_remove_take lens pos cnt Hp Hc) as (lens1 & Hl1 & Hll & Hlt).
  destruct (shift_remove_take keys pos cnt Hp ltac:(lia)) as (keys1 & Hk1 & Hkl & Hkt).
  exists keys1, lens1. eexists _, _. split; [done|]. split; [done|].
  split; [apply arr_set_ok; lia|]. split; [apply arr_set_ok; lia|].
  split; [by rewrite length_insert|]. split.
  - split; [rewrite !length_insert; lia|]. split; [|split].
    + apply Forall_insert; [|unfold byte_ok; lia]. eapply (shift_left_Forall byte_ok lens); [| |exact Hl1|done]; lia.
    + apply Forall_insert; [eapply (shift_left_Forall _ keys); [| |exact Hk1|done]; lia|].
      split; [by rewrite length_replicate|]. apply Forall_replicate. unfold byte_ok. lia.
    + rewrite take_insert_past, Hlt by lia. apply Forall_app. split; [|by apply Forall_drop].
      replace (take (Z.to_nat pos) lens) with (take (Z.to_nat pos) (take (Z.to_nat cnt) lens))
        by (rewrite take_take; f_equal; lia). by apply Forall_take.
  - rewrite pack_take, !take_insert_past, Hlt, Hkt by lia.
    rewrite pack_split by (rewrite !length_take; lia).
    rewrite take_take, Nat.min_l by lia. rewrite pack_take. f_equal.
    rewrite pack_take. symmetry. apply zip_with_drop.
Qed.

Lemma put_key_spec lens keys cnt i k :
  slots_ok cnt lens keys -> 0 <= i < zlen lens -> zlen k <= MAX_KEY_LEN -> bytes_ok k ->
  exists lens' keys', put_key lens keys i k = Some (lens', keys') /\ length lens' = length lens /\
    slots_ok cnt lens' keys' /\ pack lens' keys' = <[Z.to_nat i := k]> (pack lens keys).
Proof.
  intros (Hs & Hlb & Hka & Hlm) Hi Hk Hkb. set (kk := k ++ replicate (Z.to_nat (MAX_KEY_LEN - zlen k)) 0).
  assert (wrap8 (zlen k) = zlen k) as Hlen by (unfold wrap8; rewrite Z.mod_small; sizes).
  exists (<[Z.to_nat i := zlen k]> lens), (<[Z.to_nat i := kk]> keys). split.
  { unfold put_key. rewrite (proj2 (Z.ltb_ge _ _)), Hlen by lia. by rewrite !arr_set_ok by lia. }
  split; [by rewrite length_insert|]. split.
  - split; [by rewrite !length_insert|]. split; [|split].
    + apply Forall_insert; [done|unfold byte_ok; sizes].
    + apply Forall_insert; [done|]. split; [unfold kk; rewrite length_app, length_replicate; lia|].
      apply bytes_ok_app; [done|]. apply Forall_replicate. unfold byte_ok. lia.
    + destruct (decide (Z.to_nat i < Z.to_nat cnt)%nat).
      * rewrite take_insert_lt by done. by apply Forall_insert.
      * by rewrite take_insert_ge by lia.
  - unfold pack. rewrite <-insert_zip_with. f_equal. unfold kk. rewrite Nat2Z.id. apply take_app_length.
Qed.

(** *** Leaves *)

Definition key_ok (k : bytes) : Prop := 0 < zlen k <= MAX_KEY_LEN /\ bytes_ok k.
Definition rid_ok (r : RecordId) : Prop := in_u64 (rid_page_id r) /\ in_u16 (rid_slot_id r).

Lemma decode_encode_rid r : rid_ok r -> decode_rid (encode_rid r) = r.
Proof.
  intros [H1 H2]. unfold decode_rid, encode_rid. rewrite take_app_length', drop_app_length' by (by rewrite length_le_bytes).
  rewrite (take_ge (le_bytes 2 _)) by (by rewrite length_le_bytes).
  rewrite !le_val_le_bytes by widths. by destruct r.
Qed.
Lemma encode_rid_array r : array_of 10 (encode_rid r).
Proof.
  split; [unfold encode_rid; by rewrite length_app, !length_le_bytes|].
  apply bytes_ok_app; by apply bytes_ok_le_bytes.
Qed.
Lemma decode_rid_ok b : array_of 10 b -> rid_ok (decode_rid b).
Proof.
  intros [Hl Hb]. split; cbn.
  - apply le_val_u64; [by apply Forall_take|rewrite length_take; lia].
  - apply le_val_u16; [by apply Forall_take, Forall_drop|rewrite length_take, length_drop; lia].
Qed.

Lemma leaf_slots_ok n : leaf_wf n -> slots_ok (lf_num_keys n) (lf_key_lens n) (lf_keys n).
Proof.
  intros [Hs _ _ Hl]. destruct (ls_lens n Hs) as [Hll Hlb]. pose proof (ls_keys_len n Hs).
  split; [lia|]. split; [done|]. split; [apply Hs|done].
Qed.

Lemma lens_range cnt lens : bytes_ok lens -> Forall (fun l => l <= MAX_KEY_LEN) (take cnt lens) ->
  Forall (fun l => 0 <= l <= MAX_KEY_LEN) (take cnt lens).
Proof.
  intros Hb Hl. apply Forall_lookup. intros i l Hi. pose proof (Forall_lookup_1 _ _ _ _ Hl Hi). cbn in *.
  assert (byte_ok l) by (eapply Forall_lookup_1; [apply Forall_take, Hb|exact Hi]). widths.
Qed.

Lemma leaf_es_zip n :
  leaf_es n = zip (take (Z.to_nat (lf_num_keys n)) (pack (lf_key_lens n) (lf_keys n)))
                  (decode_rid <$> take (Z.to_nat (lf_num_keys n)) (lf_rids n)).
Proof. unfold leaf_es, leaf_slots. rewrite zip_with_take. by rewrite fmap_take. Qed.

Lemma leaf_es_length n : leaf_wf n -> zlen (leaf_es n) = lf_num_keys n.
Proof.
  intros [Hs _ Hn _]. rewrite leaf_es_zip, length_zip_with, length_fmap, !length_take.
  unfold pack. rewrite length_zip_with. destruct (ls_lens n Hs). pose proof (ls_keys_len n Hs). pose proof (ls_rids_len n Hs).
  destruct (ls_num n Hs). sizes.
Qed.

Lemma leaf_es_keys n : leaf_wf n -> (leaf_es n).*1 = take (Z.to_nat (lf_num_keys n)) (pack (lf_key_lens n) (lf_keys n)).
Proof.
  intros [Hs _ Hn _]. rewrite leaf_es_zip. apply fst_zip. rewrite length_fmap, !length_take.
  unfold pack. rewrite length_zip_with. destruct (ls_lens n Hs). pose proof (ls_keys_len n Hs). pose proof (ls_rids_len n Hs). sizes.
Qed.

(** The keys of a leaf have at most 64 bytes, and its record identifiers fit. *)
Lemma leaf_es_ok n i k r : leaf_wf n -> leaf_es n !! i = Some (k, r) -> zlen k <= MAX_KEY_LEN /\ bytes_ok k /\ rid_ok r.
Proof.
  intros Hw. pose proof Hw as [Hs _ _ Hl]. unfold leaf_es, leaf_slots. intros Hi.
  apply lookup_take_Some in Hi as [Hi Hlt]. apply lookup_zip_with_Some in Hi as (k' & r' & [= <- <-] & Hk & Hr).
  apply lookup_zip_with_Some in Hk as (len & kk & -> & Hlen & Hkk).
  pose proof (Forall_lookup_1 _ _ _ _ (ls_keys n Hs) Hkk) as [Hz Hb].
  split; [rewrite length_take; lia|]. split; [by apply Forall_take|].
  apply list_lookup_fmap_Some in Hr as (b & -> & Hb'). apply decode_rid_ok.
  apply (Forall_lookup_1 _ _ _ _ (ls_rids n Hs) Hb').
Qed.

Lemma search_spec n key :
  leaf_wf n -> bsorted (leaf_es n).*1 ->
  exists r, search n key = Some r /\
    match r with
    | inl i => 0 <= i < lf_num_keys n /\ (leaf_es n).*1 !! Z.to_nat i = Some key
    | inr i => 0 <= i <= lf_num_keys n /\
        (forall j k, Z.of_nat j < i -> (leaf_es n).*1 !! j = Some k -> blt k key) /\
        (forall j k, i <= Z.of_nat j -> (leaf_es n).*1 !! j = Some k -> blt key k)
    end.
Proof.
  intros Hw Hs. pose proof (leaf_slots_ok n Hw) as (H1 & H2 & H3 & H4). rewrite leaf_es_keys in * by done.
  pose proof Hw as [Hsz _ Hn _]. destruct (ls_num n Hsz). destruct (ls_lens n Hsz).
  apply bin_search_spec; try done; try lia; [by apply lens_range|..].
  intros j k Hj Hk. apply lookup_lt_Some in Hk. rewrite length_take in Hk. lia.
Qed.

Lemma zip_insert_mid {A B} (ks : list A) (rs : list B) k r (pos : nat) :
  length ks = length rs -> (pos <= length ks)%nat ->
  zip (take pos ks ++ k :: drop pos ks) (take pos rs ++ r :: drop pos rs) =
  take pos (zip ks rs) ++ (k, r) :: drop pos (zip ks rs).
Proof.
  intros Hl Hp. rewrite zip_with_app by (rewrite !length_take; lia). cbn.
  by rewrite <-zip_with_take, <-zip_with_drop.
Qed.

Lemma zip_remove_mid {A B} (ks : list A) (rs : list B) (pos : nat) :
  length ks = length rs ->
  zip (take pos ks ++ drop (S pos) ks) (take pos rs ++ drop (S pos) rs) =
  take pos (zip ks rs) ++ drop (S pos) (zip ks rs).
Proof.
  intros Hl. rewrite zip_with_app by (rewrite !length_take; lia).
  by rewrite <-zip_with_take, <-zip_with_drop.
Qed.

Lemma zeros_array (w : nat) : array_of (Z.of_nat w) (replicate w 0).
Proof. split; [by rewrite length_replicate|]. apply Forall_replicate. unfold byte_ok. lia. Qed.

Lemma take_take_le {A} (l : list A) (i j : nat) : (i <= j)%nat -> take i (take j l) = take i l.
Proof. intros. rewrite take_take. f_equal. lia. Qed.

Lemma leaf_insert_at_spec n pos key rid :
  leaf_wf n -> 0 <= pos <= lf_num_keys n -> lf_num_keys n < ORDER_LEAF ->
  zlen key <= MAX_KEY_LEN -> bytes_ok key -> rid_ok rid ->
  exists n', leaf_insert_at n pos key rid = Some n' /\ leaf_wf n' /\ lf_next_leaf n' = lf_next_leaf n /\
    leaf_es n' = take (Z.to_nat pos) (leaf_es n) ++ (key, rid) :: drop (Z.to_nat pos) (leaf_es n).
Proof.
  intros Hw Hp Hn Hk Hkb Hr. pose proof Hw as [Hs Ht _ _]. destruct (ls_lens n Hs) as [Hll _].
  pose proof (ls_rids_len n Hs) as Hrl. pose proof (ls_keys_len n Hs) as Hkl0. destruct (ls_num n Hs) as [Hn0 _].
  destruct (insert_key_spec _ _ _ pos key (leaf_slots_ok n Hw)) as
    (keys1 & lens1 & lens' & keys' & Hs1 & Hs2 & Hput & Hlen & (Hsl1 & Hsl2 & Hsl3 & Hsl4) & Hpk); [lia..|done|done|].
  destruct (shift_insert_take (lf_rids n) pos (lf_num_keys n) (encode_rid rid)) as (rids1 & Hr1 & Hrl1 & Hrt); [lia..|].
  unfold leaf_insert_at. rewrite Hs1, Hs2, Hr1. cbn [mbind option_bind].
  unfold leaf_set_key_at. cbn [leaf_set_arrays lf_key_lens lf_keys lf_rids]. rewrite Hput. cbn.
  unfold set_rid_at. cbn. rewrite arr_set_ok by lia. cbn. eexists. split; [done|].
  assert (wrap16 (lf_num_keys n + 1) = lf_num_keys n + 1) as Hw16 by (unfold wrap16; rewrite Z.mod_small; sizes).
  split; [|split; [done|]].
  - split; cbn; [|done|rewrite Hw16; lia|by rewrite Hw16]. split; cbn; try apply Hs.
    + unfold in_u16. rewrite Hw16. sizes.
    + split; [lia|done].
    + rewrite length_insert. lia.
    + apply Forall_insert; [|apply encode_rid_array]. eapply (shift_right_Forall _ (lf_rids n)); [| |exact Hr1|apply Hs]; lia.
    + lia.
    + done.
  - rewrite !leaf_es_zip. cbn [leaf_set_num_keys leaf_set_arrays lf_num_keys lf_key_lens lf_keys lf_rids].
    rewrite Hw16, Hpk, Hrt. rewrite fmap_app, fmap_cons, decode_encode_rid by done.
    rewrite <-(take_take_le (lf_rids n) (Z.to_nat pos) (Z.to_nat (lf_num_keys n))) by lia.
    rewrite fmap_take, fmap_drop. apply zip_insert_mid; rewrite ?length_fmap, !length_take; unfold pack;
      rewrite length_zip_with; lia.
Qed.

Lemma leaf_remove_at_spec n pos :
  leaf_wf n -> 0 <= pos < lf_num_keys n ->
  exists n', leaf_remove_at n pos = Some n' /\ leaf_wf n' /\ lf_next_leaf n' = lf_next_leaf n /\
    leaf_es n' = take (Z.to_nat pos) (leaf_es n) ++ drop (S (Z.to_nat pos)) (leaf_es n).
Proof.
  intros Hw Hp. pose proof Hw as [Hs Ht Hno _]. destruct (ls_lens n Hs) as [Hll _].
  pose proof (ls_rids_len n Hs) as Hrl. pose proof (ls_keys_len n Hs) as Hkl0.
  destruct (remove_key_spec _ _ _ pos (leaf_slots_ok n Hw)) as
    (keys1 & lens1 & lens' & keys' & Hs1 & Hs2 & Hset1 & Hset2 & Hlen & (Hsl1 & Hsl2 & Hsl3 & Hsl4) & Hpk); [lia..|].
  destruct (shift_remove_take (lf_rids n) pos (lf_num_keys n)) as (rids1 & Hr1 & Hrl1 & Hrt); [lia..|].
  unfold leaf_remove_at. rewrite (proj2 (Z.leb_gt _ 0)) by lia.
  rewrite Hs1, Hs2, Hr1. cbn [mbind option_bind]. rewrite Hset1, Hset2. cbn [mbind option_bind].
  rewrite arr_set_ok by lia. cbn [mbind option_bind]. eexists. split; [done|].
  assert (wrap16 (lf_num_keys n - 1) = lf_num_keys n - 1) as Hw16 by (unfold wrap16; rewrite Z.mod_small; sizes).
  split; [|split; [done|]].
  - split; cbn; [|done|rewrite Hw16; lia|by rewrite Hw16]. split; cbn; try apply Hs.
    + unfold in_u16. rewrite Hw16. sizes.
    + split; [lia|done].
    + rewrite length_insert. lia.
    + apply Forall_insert; [eapply (shift_left_Forall _ (lf_rids n)); [| |exact Hr1|apply Hs]; lia|].
      apply (zeros_array 10).
    + lia.
    + done.
  - rewrite !leaf_es_zip. cbn [leaf_set_num_keys leaf_set_arrays lf_num_keys lf_key_lens lf_keys lf_rids].
    rewrite Hw16, Hpk, take_insert_past, Hrt by lia. rewrite fmap_app.
    replace (Z.to_nat (pos + 1)) with (S (Z.to_nat pos)) by lia.
    rewrite <-(take_take_le (lf_rids n) (Z.to_nat pos) (Z.to_nat (lf_num_keys n))) by lia.
    rewrite fmap_take, fmap_drop. apply zip_remove_mid. rewrite ?length_fmap, !length_take; unfold pack;
      rewrite length_zip_with; lia.
Qed.

(** *** Internal nodes *)

Lemma internal_slots_ok n : internal_wf n -> slots_ok (in_num_keys n) (in_key_lens n) (in_keys n).
Proof.
  intros [Hs _ _ Hl]. destruct (is_lens n Hs) as [Hll Hlb]. pose proof (is_keys_len n Hs).
  split; [lia|]. split; [done|]. split; [apply Hs|done].
Qed.

Lemma internal_ks_length n : internal_wf n -> zlen (internal_ks n) = in_num_keys n.
Proof.
  intros [Hs _ Hn _]. unfold internal_ks, pack. rewrite length_take, length_zip_with.
  destruct (is_lens n Hs). pose proof (is_keys_len n Hs). destruct (is_num n Hs). sizes.
Qed.
Lemma internal_cs_length n : internal_wf n -> zlen (internal_cs n) = in_num_keys n + 1.
Proof.
  intros [Hs _ Hn _]. unfold internal_cs. rewrite length_take. pose proof (is_children_len n Hs). destruct (is_num n Hs). sizes.
Qed.

Lemma internal_ks_ok n i k : internal_wf n -> internal_ks n !! i = Some k -> zlen k <= MAX_KEY_LEN /\ bytes_ok k.
Proof.
  intros [Hs _ _ _] Hi. apply lookup_take_Some in Hi as [Hi _].
  apply lookup_zip_with_Some in Hi as (len & kk & -> & Hlen & Hkk).
  pose proof (Forall_lookup_1 _ _ _ _ (is_keys n Hs) Hkk) as [Hz Hb].
  split; [rewrite length_take; lia|by apply Forall_take].
Qed.

Lemma child_at_cs n i : internal_wf n -> 0 <= i <= in_num_keys n -> child_at n i = internal_cs n !! Z.to_nat i.
Proof.
  intros [Hs _ Hn _] Hi. unfold child_at, internal_cs. rewrite arr_get_ok by lia.
  by rewrite lookup_take_lt by lia.
Qed.

Lemma find_child_idx_spec n key :
  internal_wf n -> bsorted (internal_ks n) ->
  exists i, find_child_idx n key = Some i /\ 0 <= i <= in_num_keys n /\
    (forall j k, Z.of_nat j < i -> internal_ks n !! j = Some k -> ble k key) /\
    (forall j k, i <= Z.of_nat j -> internal_ks n !! j = Some k -> blt key k).
Proof.
  intros Hw Hs. pose proof (internal_slots_ok n Hw) as (H1 & H2 & H3 & H4).
  pose proof Hw as [Hsz _ Hn _]. destruct (is_num n Hsz). destruct (is_lens n Hsz).
  apply upper_bound_spec; try done; try lia; [by apply lens_range|..].
  intros j k Hj Hk. apply lookup_lt_Some in Hk. rewrite length_take in Hk. lia.
Qed.

Lemma set_child_at_spec n i pid :
  internal_wf n -> 0 <= i <= in_num_keys n -> in_u64 pid ->
  exists n', set_child_at n i pid = Some n' /\ internal_wf n' /\ in_num_keys n' = in_num_keys n /\
    internal_ks n' = internal_ks n /\ internal_cs n' = <[Z.to_nat i := pid]> (internal_cs n).
Proof.
  intros Hw Hi Hp. pose proof Hw as [Hs Ht Hn Hl]. pose proof (is_children_len n Hs).
  unfold set_child_at. rewrite arr_set_ok by lia. cbn [mbind option_bind]. eexists. split; [done|].
  split; [|split; [done|]; split; [done|]].
  - split; [|done..]. destruct Hs as [P1 P2 P3 P4 P5 P6 P7 P8 P9]. split; cbn; try done.
    + by rewrite length_insert.
    + by apply Forall_insert.
  - unfold internal_cs. cbn. by rewrite take_insert_lt by lia.
Qed.

Lemma internal_set_key_at_spec n i k :
  internal_wf n -> 0 <= i < in_num_keys n -> zlen k <= MAX_KEY_LEN -> bytes_ok k ->
  exists n', internal_set_key_at n i k = Some n' /\ internal_wf n' /\ in_num_keys n' = in_num_keys n /\
    internal_ks n' = <[Z.to_nat i := k]> (internal_ks n) /\ internal_cs n' = internal_cs n.
Proof.
  intros Hw Hi Hk Hkb. pose proof Hw as [Hs Ht Hn Hl]. destruct (is_lens n Hs) as [Hll _]. pose proof (is_keys_len n Hs).
  destruct (put_key_spec _ _ _ i k (internal_slots_ok n Hw)) as (lens' & keys' & Hput & Hlen & (H1 & H2 & H3 & H4) & Hpk); [lia|done..|].
  unfold internal_set_key_at. rewrite Hput. cbn [mbind option_bind]. eexists. split; [done|].
  split; [|split; [done|]; split; [|done]].
  - split; [|done..]. destruct Hs as [P1 P2 P3 P4 P5 P6 P7 P8 P9]. split; cbn; try done; [split; [lia|done]|lia].
  - unfold internal_ks. cbn [internal_set_arrays in_num_keys in_key_lens in_keys fst snd]. by rewrite Hpk, take_insert_lt by lia.
Qed.

Lemma internal_insert_at_spec n pos sep right :
  internal_wf n -> 0 <= pos <= in_num_keys n -> in_num_keys n < ORDER_INTERNAL ->
  zlen sep <= MAX_KEY_LEN -> bytes_ok sep -> in_u64 right ->
  exists n', internal_insert_at n pos sep right = Some n' /\ internal_wf n' /\
    in_num_keys n' = in_num_keys n + 1 /\
    internal_ks n' = take (Z.to_nat pos) (internal_ks n) ++ sep :: drop (Z.to_nat pos) (internal_ks n) /\
    internal_cs n' = take (S (Z.to_nat pos)) (internal_cs n) ++ right :: drop (S (Z.to_nat pos)) (internal_cs n).
Proof.
  intros Hw Hp Hn Hk Hkb Hr. pose proof Hw as [Hs Ht _ _]. destruct (is_lens n Hs) as [Hll _].
  pose proof (is_children_len n Hs) as Hcl. pose proof (is_keys_len n Hs) as Hkl0. destruct (is_num n Hs) as [Hn0 _].
  destruct (insert_key_spec _ _ _ pos sep (internal_slots_ok n Hw)) as
    (keys1 & lens1 & lens' & keys' & Hs1 & Hs2 & Hput & Hlen & (Hsl1 & Hsl2 & Hsl3 & Hsl4) & Hpk); [lia..|done|done|].
  destruct (shift_insert_after_take (in_children n) pos (in_num_keys n) right) as (ch1 & Hc1 & Hcl1 & Hct); [lia..|].
  unfold internal_insert_at. rewrite Hs1, Hs2, Hc1. cbn [mbind option_bind].
  unfold internal_set_key_at. cbn [internal_set_arrays in_key_lens in_keys in_children]. rewrite Hput. cbn.
  unfold set_child_at. cbn. rewrite arr_set_ok by lia. cbn. eexists. split; [done|].
  assert (wrap16 (in_num_keys n + 1) = in_num_keys n + 1) as Hw16 by (unfold wrap16; rewrite Z.mod_small; sizes).
  split; [|split; [done|]; split].
  - split; cbn; [|done|rewrite Hw16; lia|by rewrite Hw16]. split; cbn; try apply Hs.
    + unfold in_u16. rewrite Hw16. sizes.
    + split; [lia|done].
    + rewrite length_insert. lia.
    + apply Forall_insert; [|done]. eapply (shift_right_Forall _ (in_children n)); [| |exact Hc1|apply Hs]; lia.
    + lia.
    + done.
  - unfold internal_ks. cbn [internal_set_num_keys internal_set_arrays in_num_keys in_key_lens in_keys]. by rewrite Hw16, Hpk.
  - unfold internal_cs. cbn [internal_set_num_keys internal_set_arrays in_num_keys in_children]. rewrite Hw16.
    replace (in_num_keys n + 1 + 1) with (in_num_keys n + 2) by lia. rewrite Hct.
    replace (Z.to_nat (pos + 1)) with (S (Z.to_nat pos)) by lia. by rewrite take_take_le by lia.
Qed.

Lemma internal_remove_at_spec n key_pos child_pos :
  internal_wf n -> 0 <= key_pos < in_num_keys n -> 0 <= child_pos <= in_num_keys n ->
  exists n', internal_remove_at n key_pos child_pos = Some n' /\ internal_wf n' /\
    in_num_keys n' = in_num_keys n - 1 /\
    internal_ks n' = take (Z.to_nat key_pos) (internal_ks n) ++ drop (S (Z.to_nat key_pos)) (internal_ks n) /\
    internal_cs n' = take (Z.to_nat child_pos) (internal_cs n) ++ drop (S (Z.to_nat child_pos)) (internal_cs n).
Proof.
  intros Hw Hp Hc. pose proof Hw as [Hs Ht Hno _]. destruct (is_lens n Hs) as [Hll _].
  pose proof (is_children_len n Hs) as Hcl. pose proof (is_keys_len n Hs) as Hkl0.
  destruct (remove_key_spec _ _ _ key_pos (internal_slots_ok n Hw)) as
    (keys1 & lens1 & lens' & keys' & Hs1 & Hs2 & Hset1 & Hset2 & Hlen & (Hsl1 & Hsl2 & Hsl3 & Hsl4) & Hpk); [lia..|].
  destruct (shift_remove_take (in_children n) child_pos (in_num_keys n + 1)) as (ch1 & Hc1 & Hcl1 & Hct); [lia..|].
  replace (in_num_keys n + 1 - 1 - child_pos) with (in_num_keys n - child_pos) in Hc1 by lia.
  unfold internal_remove_at. rewrite (proj2 (Z.leb_gt _ 0)) by lia.
  rewrite Hs1, Hs2. cbn [mbind option_bind]. rewrite Hset1, Hset2, Hc1. cbn [mbind option_bind].
  rewrite arr_set_ok by lia. cbn [mbind option_bind]. eexists. split; [done|].
  assert (wrap16 (in_num_keys n - 1) = in_num_keys n - 1) as Hw16 by (unfold wrap16; rewrite Z.mod_small; sizes).
  split; [|split; [done|]; split].
  - split; cbn; [|done|rewrite Hw16; lia|by rewrite Hw16]. split; cbn; try apply Hs.
    + unfold in_u16. rewrite Hw16. sizes.
    + split; [lia|done].
    + rewrite length_insert. lia.
    + apply Forall_insert; [eapply (shift_left_Forall _ (in_children n)); [| |exact Hc1|apply Hs]; lia|widths].
    + lia.
    + done.
  - unfold internal_ks. cbn [internal_set_num_keys internal_set_arrays in_num_keys in_key_lens in_keys]. rewrite Hw16, Hpk.
    by replace (Z.to_nat (key_pos + 1)) with (S (Z.to_nat key_pos)) by lia.
  - unfold internal_cs. cbn [internal_set_num_keys internal_set_arrays in_num_keys in_children]. rewrite Hw16.
    replace (in_num_keys n - 1 + 1) with (in_num_keys n + 1 - 1) by lia.
    rewrite take_insert_past, Hct by lia. replace (Z.to_nat (child_pos + 1)) with (S (Z.to_nat child_pos)) by lia.
    by rewrite take_take_le by lia.
Qed.
