(* ===== verification/PageIo.v ===== *)
(** * Programs over a storage engine

    The index code takes a [&dyn StorageEngine] and an optional page batch and uses [?] on
    every storage call.  [Io] is the state those calls change, [M] the state-and-error
    monad they run in ([None] is a panic), and [wp] a weakest precondition with a budget:
    the number of pages the engine must still be able to allocate for the program not to
    fail.  Page latches are not part of the state: the programs modelled run under the
    tree's lock or its exclusive reference. *)

From S2P Require Import Prelude SlotBitmap Page FreeList Storage.

Record Io (St : Type) : Type := mkIo { io_batch : option LocalPageBatch; io_store : St }.
Arguments mkIo {_} _ _.
Arguments io_batch {_} _.
Arguments io_store {_} _.

Definition M (St A : Type) : Type := Io St -> option (Result A * Io St).

Definition io_ret {St A} (a : A) : M St A := fun x => Some (Ok a, x).
Definition io_fail {St A} (e : DbError) : M St A := fun x => Some (Err e, x).
Definition io_panic {St A} : M St A := fun _ => None.
(** Code without effects that may panic. *)
Definition io_pure {St A} (o : option A) : M St A := fun x => let! a := o in Some (Ok a, x).
Definition io_bind {St A B} (m : M St A) (k : A -> M St B) : M St B :=
  fun x => match m x with
           | None => None
           | Some (Err e, x') => Some (Err e, x')
           | Some (Ok a, x') => k a x'
           end.

Notation "'do!' x := m 'in' k" := (io_bind m (fun x => k))
  (at level 10, x name, m at level 100, k at level 200) : rust_scope.

Section Ops.
Context {St : Type} {E : StorageEngine St}.

Definition io_read (pid : Z) : M St Page :=
  fun x => match read_page (io_store x) pid with
           | None => None
           | Some r => Some (r, x)
           end.
Definition io_write (pid : Z) (p : Page) : M St unit :=
  fun x => match write_page (io_store x) pid p with
           | None => None
           | Some (r, s') => Some (r, mkIo (io_batch x) s')
           end.
(** [batch_alloc_page(storage, batch, ty)?] *)
Definition io_alloc (ty : PageType) : M St Z :=
  fun x => match batch_alloc_page (io_store x) (io_batch x) ty with
           | None => None
           | Some (r, b', s') => Some (r, mkIo b' s')
           end.
(** [storage.alloc_page(ty)?], past the batch. *)
Definition io_alloc_direct (ty : PageType) : M St Z :=
  fun x => match alloc_page (io_store x) ty with
           | None => None
           | Some (r, s') => Some (r, mkIo (io_batch x) s')
           end.
Definition io_free (pid : Z) : M St unit :=
  fun x => match free_page (io_store x) pid with
           | None => None
           | Some (r, s') => Some (r, mkIo (io_batch x) s')
           end.
End Ops.

(** ** What a program sees *)

Section View.
Context {St : Type} {C : Crc32c} {E : StorageEngine St} {L : StorageLaws St}.

Definition batch_pages (b : option LocalPageBatch) : list Z :=
  match b with Some b => available b | None => [] end.

(** The pages in use: those of the batch are set aside. *)
Definition vw (x : Io St) (i : Z) : option Page :=
  if decide (i ∈ batch_pages (io_batch x)) then None else st_page (io_store x) i.

Definition page_num (i : Z) : Prop := 2 <= i < U64_MAX.

Record io_wf (x : Io St) : Prop := {
  iw_store : st_wf (io_store x);
  iw_batch : forall b, io_batch x = Some b -> batch_ok b (io_store x) /\ Forall page_num (available b)
}.

Lemma vw_Some x i p : vw x i = Some p -> ~ i ∈ batch_pages (io_batch x) /\ st_page (io_store x) i = Some p.
Proof. unfold vw. by case_decide. Qed.

Lemma vw_valid x i p : io_wf x -> vw x i = Some p -> 0 <= i /\ page_ok p /\ verify_checksum p = Ok tt.
Proof. intros [Hs _] [_ Hp]%vw_Some. by eapply law_valid. Qed.

Lemma io_read_ok x i p : io_wf x -> vw x i = Some p -> io_read i x = Some (Ok p, x).
Proof.
  intros Hwf Hp. pose proof (vw_valid _ _ _ Hwf Hp) as (Hi & _). apply vw_Some in Hp as [_ Hp]. destruct Hwf as [Hs _].
  unfold io_read. by rewrite law_read, Hp.
Qed.

Lemma io_write_ok x i p :
  io_wf x -> is_Some (vw x i) -> page_ok p -> verify_checksum p = Ok tt ->
  exists x', io_write i p x = Some (Ok tt, x') /\ io_wf x' /\ io_batch x' = io_batch x /\
    write_page (io_store x) i p = Some (Ok tt, io_store x') /\
    forall j, vw x' j = if decide (j = i) then Some p else vw x j.
Proof.
  intros [Hs Hb] [q [Hni Hq]%vw_Some] Hok Hv.
  destruct (law_write _ i p Hs ltac:(by eexists) Hok Hv) as (s' & Hw & Hs' & Hpg).
  unfold io_write. rewrite Hw. eexists. split; [done|]. cbn. split; [|split; [done|split; [done|]]].
  - split; [done|]. cbn. intros b Hbb. destruct (Hb b Hbb) as [[Hnd Hin] Hr]. split; [|done]. split; [done|].
    intros k Hk. rewrite Hpg. case_decide; [by eexists|by apply Hin].
  - intros j. unfold vw. cbn. destruct (decide (j ∈ batch_pages (io_batch x))).
    + by rewrite decide_False by (intros ->; done).
    + apply Hpg.
Qed.

Definition fresh_at (x x' : Io St) (i : Z) : Prop :=
  page_num i /\ vw x i = None /\ is_Some (vw x' i) /\ forall j, j ≠ i -> vw x' j = vw x j.

Lemma pop_or_alloc_view b s ty i b' s' :
  io_wf (mkIo (Some b) s) -> pop_or_alloc b s ty = Some (Ok i, b', s') ->
  io_wf (mkIo (Some b') s') /\ fresh_at (mkIo (Some b) s) (mkIo (Some b') s') i.
Proof.
  intros [Hs Hb] Hp. cbn in *. destruct (Hb b eq_refl) as [Hok Hr].
  pose proof (pop_or_alloc_step _ _ _ _ _ _ Hs Hok Hp) as (Hs' & Hok' & _ & Hkeep & Hi & Hni & Hor).
  destruct Hok as [Hnd Hav]. unfold pop_or_alloc in Hp. destruct (available b) as [|id rest] eqn:Hb0.
  - set (n := Z.min _ _) in Hp. destruct (alloc_page_batch s n ty) as [[[[|first rest]|e] s1]|] eqn:Ha; simplify_eq.
    destruct (law_alloc_batch _ _ _ _ _ Hs Ha) as (_ & _ & Hndi & Hin & Hri & Hother).
    apply Forall_cons in Hri as [Hri1 Hri2]. cbn [available app] in *. split.
    { split; cbn; [done|]. intros b1 [= <-]. done. }
    split; [done|]. unfold vw. cbn [io_batch io_store batch_pages available].
    rewrite Hb0. split; [|split].
    + case_decide; [done|]. apply Hin. left.
    + rewrite decide_False by done. done.
    + intros j Hj. case_decide.
      * rewrite decide_False by set_solver. symmetry. apply Hin. by right.
      * rewrite decide_False by set_solver. apply Hother. set_solver.
  - simplify_eq. apply Forall_cons in Hr as [Hr1 Hr2]. split.
    { split; cbn; [done|]. intros b1 [= <-]. done. }
    split; [done|]. unfold vw. cbn [io_batch io_store batch_pages available]. rewrite Hb0.
    apply NoDup_cons in Hnd as [Hn _]. split; [by rewrite decide_True by left|]. split.
    + rewrite decide_False by done. apply Hav. left.
    + intros j Hj. destruct (decide (j ∈ rest)).
      * by rewrite decide_True by (by right).
      * by rewrite decide_False by set_solver.
Qed.

Lemma pop_or_refill_view b s ty i b' s' :
  io_wf (mkIo (Some b) s) -> pop_or_refill b s ty = Some (Ok i, b', s') ->
  io_wf (mkIo (Some b') s') /\ fresh_at (mkIo (Some b) s) (mkIo (Some b') s') i.
Proof.
  intros Hwf Hp. unfold pop_or_refill in Hp. case_decide; [by eapply pop_or_alloc_view|].
  pose proof Hwf as [Hs Hb]. cbn in Hs. destruct (Hb b eq_refl) as [[Hnd Hav] Hr]. cbn in Hav.
  set (b1 := mkBatch [] (Some ty) (freed b) BATCH_ALLOC_SIZE) in *.
  assert (Hempty : forall s1, st_wf s1 -> io_wf (mkIo (Some b1) s1)).
  { intros s1 Hs1. split; [done|]. cbn. intros b2 [= <-]. split; [split; [constructor|]|constructor].
    intros k Hk. by apply not_elem_of_nil in Hk. }
  destruct (available b) as [|id rest] eqn:Hb0.
  - destruct (pop_or_alloc_view _ _ _ _ _ _ (Hempty s Hs) Hp) as (Hwf' & Hf). split; [done|].
    assert (Heq : forall j, vw (mkIo (Some b1) s) j = vw (mkIo (Some b) s) j) by (intros j; unfold vw; cbn; by rewrite Hb0).
    destruct Hf as (Hn & Hv & Hv' & Hj). split; [done|]. rewrite <-Heq. split; [done|]. split; [done|].
    intros j Hne. rewrite <-Heq. by apply Hj.
  - destruct (free_page_batch s (id :: rest)) as [[[u|e] s1]|] eqn:Hf; simplify_eq.
    destruct (law_free_batch _ _ _ _ Hs ltac:(eapply Forall_impl; [exact Hr|unfold page_num; cbn; lia]) Hf) as (Hs1 & Hkeep & Hnone).
    destruct (pop_or_alloc_view _ _ _ _ _ _ (Hempty s1 Hs1) Hp) as (Hwf' & Hn & Hv & Hv' & Hj). split; [done|].
    assert (Heq : forall j, vw (mkIo (Some b1) s1) j = vw (mkIo (Some b) s) j).
    { intros j. unfold vw. cbn. rewrite Hb0, decide_False by apply not_elem_of_nil. case_decide; [by apply Hnone|by apply Hkeep]. }
    split; [done|]. rewrite <-Heq. split; [done|]. split; [done|]. intros j Hne. rewrite <-Heq. by apply Hj.
Qed.

Lemma io_alloc_view x ty i x' :
  io_wf x -> io_alloc ty x = Some (Ok i, x') -> io_wf x' /\ fresh_at x x' i.
Proof.
  intros Hwf. unfold io_alloc, batch_alloc_page. destruct x as [[b|] s]; cbn.
  - destruct (pop_or_refill b s ty) as [[[r b'] s']|] eqn:Hp; [|done]. cbn. intros [= -> <-]. by eapply pop_or_refill_view.
  - destruct (alloc_page s ty) as [[r s']|] eqn:Ha; [|done]. cbn. intros [= -> <-].
    destruct Hwf as [Hs Hb]. cbn in Hs. destruct (law_alloc _ _ _ _ Hs Ha) as (Hs' & Hr & Hn & Hpg). split.
    + split; [done|]. by cbn.
    + split; [done|]. unfold vw. cbn. rewrite !decide_False by apply not_elem_of_nil. split; [done|]. split.
      * rewrite Hpg, decide_True by done. by eexists.
      * intros j Hj. rewrite !decide_False by apply not_elem_of_nil. rewrite Hpg. by rewrite decide_False.
Qed.

Lemma io_free_view x i x' :
  io_wf x -> is_Some (vw x i) -> io_free i x = Some (Ok tt, x') ->
  io_wf x' /\ io_batch x' = io_batch x /\ forall j, vw x' j = if decide (j = i) then None else vw x j.
Proof.
  intros Hwf [p Hp]. pose proof (vw_valid _ _ _ Hwf Hp) as (Hi & _). apply vw_Some in Hp as [Hni Hp].
  destruct Hwf as [Hs Hb]. unfold io_free. destruct (free_page (io_store x) i) as [[r s']|] eqn:Hf; [|done].
  intros [= -> <-]. destruct (law_free _ _ _ _ Hs Hi Hf) as (Hs' & Hpg). cbn. split; [|split; [done|]].
  - split; [done|]. cbn. intros b Hbb. destruct (Hb b Hbb) as [[Hnd Hin] Hr]. rewrite Hbb in Hni. split; [|done]. split; [done|].
    intros k Hk. rewrite Hpg, decide_False; [by apply Hin|]. intros ->. done.
  - intros j. unfold vw. cbn. destruct (decide (j ∈ batch_pages (io_batch x))).
    + by rewrite decide_False by (intros ->; done).
    + apply Hpg.
Qed.
End View.

(** ** Programs with a budget of pages *)

Class PageRoom (St : Type) {C : Crc32c} {E : StorageEngine St} {L : StorageLaws St} : Type := {
  pr : Io St -> Z -> Prop;
  pr_mono x n m : pr x n -> m <= n -> pr x m;
  pr_alloc x ty n : io_wf x -> pr x n -> 0 < n -> exists i x', io_alloc ty x = Some (Ok i, x') /\ pr x' (n - 1);
  pr_write x i p x' n : io_wf x -> io_write i p x = Some (Ok tt, x') -> pr x n -> pr x' n;
  pr_free x i n : io_wf x -> is_Some (vw x i) -> 2 <= i -> pr x n -> exists x', io_free i x = Some (Ok tt, x') /\ pr x' n
}.

(** Without a promise about room: theorems then only say what a result means. *)
Definition no_room {St} {C : Crc32c} {E : StorageEngine St} {L : StorageLaws St} : PageRoom St.
Proof. by refine (Build_PageRoom _ _ _ _ (fun _ _ => False) _ _ _ _). Defined.

(** What could be allocated still can, in whatever sense of room. *)
Definition room_kept {St} {C : Crc32c} {E : StorageEngine St} {L : StorageLaws St} (x x' : Io St) : Prop :=
  forall (R : PageRoom St) m, pr x m -> pr x' m.

Lemma room_kept_refl {St} {C : Crc32c} {E : StorageEngine St} {L : StorageLaws St} (x : Io St) : room_kept x x.
Proof. by intros R m. Qed.

Lemma room_kept_trans {St} {C : Crc32c} {E : StorageEngine St} {L : StorageLaws St} (x y z : Io St) : room_kept x y -> room_kept y z -> room_kept x z.
Proof. intros H1 H2 R m Hx. by apply H2, H1. Qed.

Lemma room_kept_write {St} {C : Crc32c} {E : StorageEngine St} {L : StorageLaws St} (x x' : Io St) i p :
  io_wf x -> io_write i p x = Some (Ok tt, x') -> room_kept x x'.
Proof. intros Hwf Hw R m. by eapply pr_write. Qed.

(** The room of the engine, when there is no batch. *)
Definition engine_room {St} {C : Crc32c} {E : StorageEngine St} {L : StorageLaws St} {R : StorageRoom St} : PageRoom St.
Proof.
  refine (Build_PageRoom _ _ _ _ (fun x n => io_batch x = None /\ n <= st_room (io_store x)) _ _ _ _).
  - intros x n m [? ?] ?. split; [done|lia].
  - intros x ty n [Hs _] [Hb Hn] H0. assert (0 < st_room (io_store x)) as Hpos by lia.
    destruct (law_room_alloc (io_store x) ty Hs Hpos) as (i & s' & Ha & Hr).
    unfold io_alloc, batch_alloc_page. rewrite Hb, Ha. cbn. eexists _, _. split; [done|]. cbn. split; [done|lia].
  - intros x i p x' n [Hs _]. unfold io_write. destruct (write_page _ _ _) as [[r s']|] eqn:Hw; [|done].
    intros [= -> <-] [Hb Hn]. pose proof (law_room_write _ _ _ _ _ Hs Hw). cbn. split; [done|lia].
  - intros x i n [Hs _] [p [_ Hp]%vw_Some] Hi [Hb Hn].
    destruct (law_room_free (io_store x) i Hs ltac:(by eexists) Hi) as (s' & Hf & Hr). unfold io_free. rewrite Hf.
    eexists. split; [done|]. cbn. split; [done|lia].
Defined.

Section Wp.
Context {St : Type} {C : Crc32c} {E : StorageEngine St} {L : StorageLaws St} {R : PageRoom St}.

(** From [x], with room for [n] pages, [m] ends in [Q], or fails as [F] allows. *)
Definition wp {A} (m : M St A) (n : Z) (x : Io St) (Q : A -> Io St -> Prop) (F : DbError -> Io St -> Prop) : Prop :=
  match m x with
  | Some (Ok a, x') => Q a x'
  | Some (Err e, x') => F e x' \/ ~ pr x n
  | None => ~ pr x n
  end.

Lemma wp_ret {A} (a : A) n x (Q : A -> Io St -> Prop) F : Q a x -> wp (io_ret a) n x Q F.
Proof. done. Qed.

Lemma wp_fail {A} e n x (Q : A -> Io St -> Prop) (F : DbError -> Io St -> Prop) : F e x -> wp (io_fail e) n x Q F.
Proof. by left. Qed.

Lemma wp_mono {A} (m : M St A) n n' x (Q Q' : A -> Io St -> Prop) F :
  n' <= n -> wp m n' x Q' F -> (forall a x', Q' a x' -> Q a x') -> wp m n x Q F.
Proof.
  intros Hn Hwp HQ. assert (Hpr : ~ pr x n' -> ~ pr x n) by (intros H1 H2; apply H1; eapply pr_mono; [exact H2|lia]).
  unfold wp in *. destruct (m x) as [[[a|e] x']|]; [auto|tauto|tauto].
Qed.

Lemma wp_weaken {A} (m : M St A) n x (Q : A -> Io St -> Prop) (F F' : DbError -> Io St -> Prop) :
  wp m n x Q F' -> (forall e x', F' e x' -> F e x') -> wp m n x Q F.
Proof. unfold wp. destruct (m x) as [[[a|e] x']|]; [done| |done]. intros [?|?]; auto. Qed.

(** The rest of a program may rely on the room that the first part left. *)
Lemma wp_bind {A B} (m : M St A) (k : A -> M St B) n x n' Q F :
  wp m n x (fun a x' => (pr x n -> pr x' n') /\ wp (k a) n' x' Q F) F -> wp (io_bind m k) n x Q F.
Proof.
  unfold wp, io_bind. destruct (m x) as [[[a|e] x']|]; [|done|done].
  intros [Hpr Hk]. destruct (k a x') as [[[b|e] x'']|]; [done|tauto|tauto].
Qed.

Lemma wp_assoc {A B D} (m : M St A) (f : A -> M St B) (k : B -> M St D) n x Q F :
  wp (io_bind m (fun a => io_bind (f a) k)) n x Q F -> wp (io_bind (io_bind m f) k) n x Q F.
Proof. unfold wp, io_bind. by destruct (m x) as [[[a|e] x']|]. Qed.

(** A call, and the rest of the program with what is left of the budget. *)
Lemma wp_call {A B} (m : M St A) (k : A -> M St B) n n1 x P Q F :
  wp m n1 x P F -> n1 <= n ->
  (forall a x', P a x' -> (forall m, n1 <= m -> pr x m -> pr x' (m - n1)) /\ wp (k a) (n - n1) x' Q F) ->
  wp (io_bind m k) n x Q F.
Proof.
  intros Hm Hle Hk. apply (wp_bind _ _ _ _ (n - n1)). eapply wp_mono; [exact Hle|exact Hm|].
  intros a x' HP. destruct (Hk a x' HP) as [Hpr Hw]. split; [by apply Hpr|done].
Qed.

Lemma wp_pure {A B} (o : option A) a (k : A -> M St B) n x Q F :
  o = Some a -> wp (k a) n x Q F -> wp (io_bind (io_pure o) k) n x Q F.
Proof. intros ->. done. Qed.

Lemma wp_run {A B} (m : M St A) a (k : A -> M St B) n x Q F :
  m x = Some (Ok a, x) -> wp (k a) n x Q F -> wp (io_bind m k) n x Q F.
Proof. unfold wp, io_bind. by intros ->. Qed.

Lemma wp_bind_ret {A B} (a : A) (k : A -> M St B) n x Q F : wp (k a) n x Q F -> wp (io_bind (io_ret a) k) n x Q F.
Proof. done. Qed.

Lemma wp_read {B} i p (k : Page -> M St B) n x Q F :
  io_wf x -> vw x i = Some p -> wp (k p) n x Q F -> wp (io_bind (io_read i) k) n x Q F.
Proof. intros Hwf Hp Hk. unfold wp, io_bind. by rewrite (io_read_ok x i p Hwf Hp). Qed.

Lemma wp_write {B} i p (k : unit -> M St B) n x Q F :
  io_wf x -> is_Some (vw x i) -> page_ok p -> verify_checksum p = Ok tt ->
  (forall x', io_wf x' -> (forall j, vw x' j = if decide (j = i) then Some p else vw x j) ->
     (forall m, pr x m -> pr x' m) -> wp (k tt) n x' Q F) ->
  wp (io_bind (io_write i p) k) n x Q F.
Proof.
  intros Hwf Hi Hok Hv Hk. destruct (io_write_ok x i p Hwf Hi Hok Hv) as (x' & Hw & Hwf' & Hb & Hws & Hj).
  assert (Hpr : forall m, pr x m -> pr x' m) by (intros m; by apply (pr_write x i p x')).
  eapply (wp_bind _ _ _ _ n). unfold wp at 1. rewrite Hw. split; [apply Hpr|]. by apply Hk.
Qed.

Lemma wp_alloc {B} ty (k : Z -> M St B) n x Q F :
  io_wf x -> 0 < n ->
  (forall i x', io_wf x' -> fresh_at x x' i -> (forall m, 0 < m -> pr x m -> pr x' (m - 1)) -> wp (k i) (n - 1) x' Q F) ->
  wp (io_bind (io_alloc ty) k) n x Q F.
Proof.
  intros Hwf Hn Hk. eapply (wp_bind _ _ _ _ (n - 1)). unfold wp at 1.
  assert (Hpr : forall m, 0 < m -> pr x m -> exists i x', io_alloc ty x = Some (Ok i, x') /\ pr x' (m - 1))
    by (intros m; intros; by apply pr_alloc).
  destruct (io_alloc ty x) as [[[i|e] x']|] eqn:Ha.
  - destruct (io_alloc_view x ty i x' Hwf Ha) as (Hwf' & Hf).
    assert (Hm : forall m, 0 < m -> pr x m -> pr x' (m - 1)).
    { intros m Hm Hx. destruct (Hpr m Hm Hx) as (i' & x'' & [= <- <-] & ?). done. }
    split; [by apply Hm|]. by apply Hk.
  - right. intros Hx. by destruct (Hpr n Hn Hx) as (i' & x'' & ? & ?).
  - intros Hx. by destruct (Hpr n Hn Hx) as (i' & x'' & ? & ?).
Qed.

Lemma wp_free {B} i (k : unit -> M St B) n x Q F :
  io_wf x -> is_Some (vw x i) -> 2 <= i ->
  (forall x', io_wf x' -> (forall j, vw x' j = if decide (j = i) then None else vw x j) ->
     (forall m, pr x m -> pr x' m) -> wp (k tt) n x' Q F) ->
  wp (io_bind (io_free i) k) n x Q F.
Proof.
  intros Hwf Hi H2 Hk. eapply (wp_bind _ _ _ _ n). unfold wp at 1.
  assert (Hpr : forall m, pr x m -> exists x', io_free i x = Some (Ok tt, x') /\ pr x' m)
    by (intros m; intros; by apply pr_free).
  destruct (io_free i x) as [[[[]|e] x']|] eqn:Ha.
  - destruct (io_free_view x i x' Hwf Hi Ha) as (Hwf' & _ & Hj).
    assert (Hm : forall m, pr x m -> pr x' m).
    { intros m Hx. destruct (Hpr m Hx) as (x'' & [= <-] & ?). done. }
    split; [by apply Hm|]. by apply Hk.
  - right. intros Hx. by destruct (Hpr n Hx) as (x'' & ? & ?).
  - intros Hx. by destruct (Hpr n Hx) as (x'' & ? & ?).
Qed.
End Wp.

(** ** Footprints

    [moved v v' fp fp']: going from [v] to [v'], a structure that owned the pages [fp] now
    owns [fp']; nothing else changed, and pages it gave up are free. *)

Record moved (v v' : Z -> option Page) (fp fp' : list Z) : Prop := {
  mv_keep j : ~ j ∈ fp -> ~ j ∈ fp' -> v' j = v j;
  mv_new j : j ∈ fp' -> ~ j ∈ fp -> v j = None;
  mv_gone j : j ∈ fp -> ~ j ∈ fp' -> v' j = None;
  mv_in j : j ∈ fp' -> is_Some (v' j);
  mv_nodup : NoDup fp';
  mv_num : Forall page_num fp'
}.

#[export] Instance moved_proper v v' : Proper ((≡ₚ) ==> (≡ₚ) ==> iff) (moved v v').
Proof.
  assert (H : forall a b c d, a ≡ₚ b -> c ≡ₚ d -> moved v v' a c -> moved v v' b d).
  { intros a b c d Hab Hcd [K N G I D P]. split; try setoid_rewrite <-Hab; try setoid_rewrite <-Hcd; done. }
  intros a b Hab c d Hcd. split; apply H; done.
Qed.

Lemma moved_refl v fp : (forall j, j ∈ fp -> is_Some (v j)) -> NoDup fp -> Forall page_num fp -> moved v v fp fp.
Proof. intros. by split. Qed.

Lemma moved_trans v0 v1 v2 a b c : moved v0 v1 a b -> moved v1 v2 b c -> moved v0 v2 a c.
Proof.
  intros [K N G I _ _] [K' N' G' I' D' P']. split; [..|done|done|done].
  - intros j Ha Hc. destruct (decide (j ∈ b)) as [Hb|Hb]; [rewrite G', N by done; done|]. by rewrite K', K.
  - intros j Hc Ha. destruct (decide (j ∈ b)) as [Hb|Hb]; [by apply N|]. by rewrite <-K, N'.
  - intros j Ha Hc. destruct (decide (j ∈ b)) as [Hb|Hb]; [by apply G'|]. by rewrite K', G.
Qed.

(** The rest of the footprint is untouched by what happens to a part of it. *)
Lemma moved_frame v v' f a b :
  moved v v' a b -> (forall j, j ∈ f -> is_Some (v j)) -> NoDup (f ++ a) -> Forall page_num f ->
  moved v v' (f ++ a) (f ++ b) /\ forall j, j ∈ f -> v' j = v j.
Proof.
  intros [K N G I D P] Hf (Hd1 & Hd2 & Hd3)%NoDup_app Hp.
  assert (Hb : forall j, j ∈ f -> ~ j ∈ b).
  { intros j Hj Hjb. destruct (Hf j Hj) as [p Hp']. rewrite N in Hp'; [done|done|by apply Hd2]. }
  assert (Heq : forall j, j ∈ f -> v' j = v j) by (intros j Hj; apply K; [by apply Hd2|by apply Hb]).
  split; [|done]. split.
  - intros j. rewrite !elem_of_app. intros H1 H2. apply K; tauto.
  - intros j. rewrite !elem_of_app. intros [H1|H1] H2; [tauto|]. apply N; tauto.
  - intros j. rewrite !elem_of_app. intros [H1|H1] H2; [tauto|]. apply G; tauto.
  - intros j. rewrite !elem_of_app. intros [H1|H1]; [rewrite Heq by done; by apply Hf|by apply I].
  - apply NoDup_app. by repeat split.
  - by apply Forall_app.
Qed.

Lemma moved_sub v0 v v' fp f a b :
  moved v0 v fp (f ++ a) -> moved v v' a b -> moved v0 v' fp (f ++ b) /\ forall j, j ∈ f -> v' j = v j.
Proof.
  intros H1 H2. destruct H1 as [K N G I D P] eqn:E. clear E.
  destruct (moved_frame v v' f a b H2) as [H3 H4].
  - intros j Hj. apply I. set_solver.
  - done.
  - by apply Forall_app in P as [? _].
  - split; [|done]. by eapply moved_trans.
Qed.

Lemma moved_write v v' i p : page_num i -> (forall j, v' j = if decide (j = i) then Some p else v j) -> moved v v' [i] [i].
Proof.
  intros Hi Hv. split; [| | | |apply NoDup_singleton|by constructor].
  - intros j Hj _. rewrite Hv, decide_False; [done|]. set_solver.
  - set_solver.
  - set_solver.
  - intros j ->%list_elem_of_singleton. rewrite Hv, decide_True by done. by eexists.
Qed.

Lemma moved_write_in v0 v v' fp cur i p :
  moved v0 v fp cur -> i ∈ cur -> (forall j, v' j = if decide (j = i) then Some p else v j) -> moved v0 v' fp cur.
Proof.
  intros Hm [f Hf]%elem_of_Permutation Hv. rewrite Hf, Permutation_cons_append in Hm |- *.
  pose proof (mv_num _ _ _ _ Hm) as [_ [Hi _]%Forall_cons]%Forall_app.
  by destruct (moved_sub _ _ v' _ _ _ _ Hm (moved_write _ _ _ _ Hi Hv)) as [? _].
Qed.

Lemma moved_free v v' i : (forall j, v' j = if decide (j = i) then None else v j) -> moved v v' [i] [].
Proof.
  intros Hv. split; [|set_solver| |set_solver|constructor|constructor].
  - intros j Hj _. rewrite Hv, decide_False; [done|]. set_solver.
  - intros j ->%list_elem_of_singleton _. by rewrite Hv, decide_True.
Qed.

Lemma moved_alloc {St} {C : Crc32c} {E : StorageEngine St} {L : StorageLaws St} (x x' : Io St) i :
  fresh_at x x' i -> moved (vw x) (vw x') [] [i].
Proof.
  intros (Hn & Hv & Hv' & Hj). split; [|set_solver|set_solver| |apply NoDup_singleton|by constructor].
  - intros j _ Hne. apply Hj. set_solver.
  - by intros j ->%list_elem_of_singleton.
Qed.

(** ** A store to start from *)

#[local] Existing Instance crc32c_ref.
#[local] Existing Instance crc32c_ref_range.

Lemma sample_io : exists x : Io MemoryStorage, io_wf x /\ pr (PageRoom := engine_room) x 41.
Proof.
  destruct mem_new_spec as (s & Hs & Hwf & _). exists (mkIo None s). split; [split; [done|by cbn]|].
  split; [done|]. cbn. destruct (fl_new_spec 64 [0; 1]) as (fl & Hfl & _ & Ht & Hf); [vm_compute; split; congruence|repeat constructor; lia|].
  unfold mem_new in Hs. rewrite Hfl in Hs. cbn in Hs. injection Hs as <-. unfold mem_room. cbn [ms_freelist]. rewrite Ht, Hf.
  assert (page_range 2 64 ⊆ page_range 0 64 ∖ list_to_set [0; 1]) as Hsub.
  { intros i. rewrite elem_of_difference, !elem_of_page_range, elem_of_list_to_set. intros ?. split; [lia|]. rewrite !elem_of_cons. set_solver by lia. }
  apply subseteq_size in Hsub. pose proof (size_page_range 2 64 ltac:(lia)).
  assert (0 <= (BITMAP_CAPACITY - 64) / 64) by (vm_compute; congruence). lia.
Qed.
