(* ===== verification/BTree.v ===== *)
(** * The secondary B+tree

    crates/axiomdb-index/src/tree.rs, tree_insert.rs, tree_delete.rs, tree_range.rs
    and iter.rs: descent, insertion with leaf and node splits, deletion with rotations and
    merges, and range scans, over any storage engine.  The
    functions take and return page numbers and run in the monad of PageIo.  Writers hold
    the tree's lock, so the compare-and-exchange of the root always succeeds and the
    latches, whose only effect is to exclude other threads, are left out.  Loops and
    recursion along a path of the tree take fuel; running out of it counts as not
    returning.  A page that is read twice in a row is read once.  [debug_assert]s are left
    out, as in release builds. *)

From S2P Require Import Prelude SlotBitmap Page FreeList Storage PageIo ByteOrder BTreeNode.

Definition fill_threshold (order fillfactor : Z) : Z :=
  let t := (order * fillfactor + 99) / 100 in
  if t <? 1 then 1 else t.

Inductive InsertResult : Type :=
| InsOk (pid : Z)
| InsSplit (left_pid right_pid : Z) (sep : bytes) (leaf_split : bool).

Inductive DeleteResult : Type :=
| DelNotFound
| Deleted (new_pid : Z) (underfull : bool).

Inductive OptimisticLeafResult (A : Type) : Type :=
| OptDone (a : A)
| OptNeedPessimistic
| OptRetry.
Arguments OptDone {A} a.
Arguments OptNeedPessimistic {A}.
Arguments OptRetry {A}.

Inductive NodeCopy : Type :=
| NLeaf (n : LeafNodePage)
| NInternal (n : InternalNodePage).

(** Raw copies of a key slot. *)
Definition set_slot (n : InternalNodePage) (i len : Z) (k : bytes) : option InternalNodePage :=
  let! lens := arr_set (in_key_lens n) i len in
  let! keys := arr_set (in_keys n) i k in
  Some (internal_set_arrays n lens (in_children n) keys).

(** *** The arrays of a split *)

(** [kl], [ks] and [rs] of [insert_leaf_batched]: the entries of the leaf with the new one
    among them.  The slot of the new key is zeroed before, as [put_key] leaves it. *)
Definition spread_leaf (node : LeafNodePage) (ins_pos : Z) (key : bytes) (rid : RecordId)
    : option (list Z * list bytes * list bytes) :=
  let count := lf_num_keys node in
  let! kl := arr_copy (replicate 218 0) 0 (lf_key_lens node) 0 ins_pos in
  let! ks := arr_copy (replicate 218 (replicate 64 0)) 0 (lf_keys node) 0 ins_pos in
  let! rs := arr_copy (replicate 218 (replicate 10 0)) 0 (lf_rids node) 0 ins_pos in
  let! kk := put_key kl ks ins_pos key in
  let! rs := arr_set rs ins_pos (encode_rid rid) in
  let! kl := arr_copy kk.1 (ins_pos + 1) (lf_key_lens node) ins_pos (count - ins_pos) in
  let! ks := arr_copy kk.2 (ins_pos + 1) (lf_keys node) ins_pos (count - ins_pos) in
  let! rs := arr_copy rs (ins_pos + 1) (lf_rids node) ins_pos (count - ins_pos) in
  Some (kl, ks, rs).

(** A new leaf page with [cnt] of those entries, from [from] on. *)
Definition leaf_part (p : Page) (arrays : list Z * list bytes * list bytes) (from cnt next : Z) : option Page :=
  let n := set_next_leaf (leaf_set_num_keys (leaf_set_is_leaf (cast_leaf p)) cnt) next in
  let! lens := arr_copy (lf_key_lens n) 0 arrays.1.1 from cnt in
  let! keys := arr_copy (lf_keys n) 0 arrays.1.2 from cnt in
  let! rids := arr_copy (lf_rids n) 0 arrays.2 from cnt in
  Some (put_leaf p (leaf_set_arrays n lens rids keys)).

(** [kl], [ks] and [ch] of [split_internal_batched]. *)
Definition spread_internal (node : InternalNodePage) (child_idx : Z) (sep : bytes) (right_child : Z)
    : option (list Z * list bytes * list Z) :=
  let n := in_num_keys node in
  let! kl := arr_copy (replicate 224 0) 0 (in_key_lens node) 0 n in
  let! ks := arr_copy (replicate 224 (replicate 64 0)) 0 (in_keys node) 0 n in
  let! ch := arr_copy (replicate 225 0) 0 (in_children node) 0 (n + 1) in
  let! kl := arr_copy kl (child_idx + 1) kl child_idx (n - child_idx) in
  let! ks := arr_copy ks (child_idx + 1) ks child_idx (n - child_idx) in
  let! ch := arr_copy ch (child_idx + 2) ch (child_idx + 1) (n - child_idx) in
  let! kk := put_key kl ks child_idx sep in
  let! ch := arr_set ch (child_idx + 1) right_child in
  Some (kk.1, kk.2, ch).

(** A new internal page with [cnt] of the keys and the children around them. *)
Definition internal_part (p : Page) (arrays : list Z * list bytes * list Z) (from cnt : Z) : option Page :=
  let n := cast_internal p in
  let n := internal_set_num_keys
    (mkInternal 0 (in_pad0 n) (in_num_keys n) (in_pad1 n) (in_key_lens n) (in_children n) (in_keys n)) cnt in
  let! lens := arr_copy (in_key_lens n) 0 arrays.1.1 from cnt in
  let! keys := arr_copy (in_keys n) 0 arrays.1.2 from cnt in
  let! children := arr_copy (in_children n) 0 arrays.2 from (cnt + 1) in
  Some (put_internal p (internal_set_arrays n lens children keys)).

(** *** Moving entries between siblings *)

(** [rotate_right_batched] on leaves: the parent, the left sibling and the child after it. *)
Definition rotate_right_leaves (parent : InternalNodePage) (left child : LeafNodePage) (child_idx left_pid child_pid : Z)
    : option (InternalNodePage * LeafNodePage * LeafNodePage) :=
  let lk := lf_num_keys left - 1 in
  let! bk := slot_key (lf_key_lens left) (lf_keys left) lk in
  let! br := arr_get (lf_rids left) lk in
  let! left' := leaf_remove_at left lk in
  let! child' := leaf_insert_at child 0 bk (decode_rid br) in
  let! len0 := arr_get (lf_key_lens child') 0 in
  let! k0 := arr_get (lf_keys child') 0 in
  let! parent := set_slot parent (child_idx - 1) len0 k0 in
  let! parent := set_child_at parent (child_idx - 1) left_pid in
  let! parent := set_child_at parent child_idx child_pid in
  Some (parent, left', child').

(** On internal nodes, whose copies go to the pages [nl] and [nc]. *)
Definition rotate_right_internals (parent left child : InternalNodePage) (child_idx nl nc : Z)
    : option (InternalNodePage * InternalNodePage * InternalNodePage) :=
  let lk := in_num_keys left - 1 in
  let! sep_len := arr_get (in_key_lens parent) (child_idx - 1) in
  let! sep_key := arr_get (in_keys parent) (child_idx - 1) in
  let! last_ch := child_at left (lk + 1) in
  let cn := in_num_keys child in
  let! lens := shift_right (in_key_lens child) 0 (Z.to_nat cn) in
  let! keys := shift_right (in_keys child) 0 (Z.to_nat cn) in
  let! children := shift_right (in_children child) 0 (Z.to_nat (cn + 1)) in
  let! child1 := set_slot (internal_set_arrays child lens children keys) 0 sep_len sep_key in
  let! child2 := set_child_at child1 0 last_ch in
  let child' := internal_set_num_keys child2 (cn + 1) in
  let! len := arr_get (in_key_lens left) lk in
  let! k := arr_get (in_keys left) lk in
  let! parent := set_slot parent (child_idx - 1) len k in
  let! left1 := set_slot left lk 0 (replicate (Z.to_nat MAX_KEY_LEN) 0) in
  let left' := internal_set_num_keys left1 lk in
  let! parent := set_child_at parent (child_idx - 1) nl in
  let! parent := set_child_at parent child_idx nc in
  Some (parent, left', child').

(** [rotate_left_batched] on leaves: the parent, the child and the right sibling. *)
Definition rotate_left_leaves (parent : InternalNodePage) (child right : LeafNodePage) (child_idx child_pid right_pid : Z)
    : option (InternalNodePage * LeafNodePage * LeafNodePage) :=
  let! bk_len := arr_get (lf_key_lens right) 0 in
  let! bk := arr_get (lf_keys right) 0 in
  let! br := arr_get (lf_rids right) 0 in
  let! right' := leaf_remove_at right 0 in
  let cn := lf_num_keys child in
  let! lens := arr_set (lf_key_lens child) cn bk_len in
  let! keys := arr_set (lf_keys child) cn bk in
  let! rids := arr_set (lf_rids child) cn br in
  let child' := leaf_set_num_keys (leaf_set_arrays child lens rids keys) (cn + 1) in
  let! len0 := arr_get (lf_key_lens right') 0 in
  let! k0 := arr_get (lf_keys right') 0 in
  let! parent := set_slot parent child_idx len0 k0 in
  let! parent := set_child_at parent child_idx child_pid in
  let! parent := set_child_at parent (child_idx + 1) right_pid in
  Some (parent, child', right').

Definition rotate_left_internals (parent child right : InternalNodePage) (child_idx nc nr : Z)
    : option (InternalNodePage * InternalNodePage * InternalNodePage) :=
  let cn := in_num_keys child in
  let! sep_len := arr_get (in_key_lens parent) child_idx in
  let! sep_key := arr_get (in_keys parent) child_idx in
  let! child1 := set_slot child cn sep_len sep_key in
  let! rc := child_at right 0 in
  let! child2 := set_child_at child1 (cn + 1) rc in
  let child' := internal_set_num_keys child2 (cn + 1) in
  let! len0 := arr_get (in_key_lens right) 0 in
  let! k0 := arr_get (in_keys right) 0 in
  let! parent := set_slot parent child_idx len0 k0 in
  let! parent := set_child_at parent child_idx nc in
  let! parent := set_child_at parent (child_idx + 1) nr in
  let! right' := internal_remove_at right 0 0 in
  Some (parent, child', right').

Definition merge_leaves (left right : LeafNodePage) : option LeafNodePage :=
  let ln := lf_num_keys left in
  let rn := lf_num_keys right in
  let! lens := arr_copy (lf_key_lens left) ln (lf_key_lens right) 0 rn in
  let! keys := arr_copy (lf_keys left) ln (lf_keys right) 0 rn in
  let! rids := arr_copy (lf_rids left) ln (lf_rids right) 0 rn in
  Some (set_next_leaf (leaf_set_num_keys (leaf_set_arrays left lens rids keys) (ln + rn)) (lf_next_leaf right)).

(** The loop over the children of the right node copies them all at once. *)
Definition merge_internals (parent left right : InternalNodePage) (sep_idx : Z) : option InternalNodePage :=
  let ln := in_num_keys left in
  let rn := in_num_keys right in
  let! sep_len := arr_get (in_key_lens parent) sep_idx in
  let! sep_key := arr_get (in_keys parent) sep_idx in
  let! merged := set_slot left ln sep_len sep_key in
  let! lens := arr_copy (in_key_lens merged) (ln + 1) (in_key_lens right) 0 rn in
  let! keys := arr_copy (in_keys merged) (ln + 1) (in_keys right) 0 rn in
  let! children := arr_copy (in_children merged) (ln + 1) (in_children right) 0 (rn + 1) in
  Some (internal_set_num_keys (internal_set_arrays merged lens children keys) (ln + 1 + rn)).

Section Tree.
Context {St : Type} {C : Crc32c} {E : StorageEngine St}.

Definition node_read (pid : Z) : M St NodeCopy :=
  do! p := io_read pid in
  io_ret (if is_leaf_page p then NLeaf (cast_leaf p) else NInternal (cast_internal p)).

(** [let mut p = Page::new(..); *cast_mut(&mut p) = node; p.update_checksum(); write_page(pid, &p)] *)
Definition write_new_leaf (pid : Z) (n : LeafNodePage) : M St unit :=
  io_write pid (update_checksum (put_leaf (page_new PtIndex pid) n)).
Definition write_new_internal (pid : Z) (n : InternalNodePage) : M St unit :=
  io_write pid (update_checksum (put_internal (page_new PtIndex pid) n)).

Definition write_leaf_same_pid (pid : Z) (n : LeafNodePage) : M St Z :=
  do! p := io_read pid in
  do! _ := io_write pid (update_checksum (put_leaf p n)) in
  io_ret pid.
Definition write_internal_same_pid (pid : Z) (n : InternalNodePage) : M St Z :=
  do! p := io_read pid in
  do! _ := io_write pid (update_checksum (put_internal p n)) in
  io_ret pid.
Definition in_place_update_child (old_pid : Z) (n : InternalNodePage) (child_idx new_child : Z) : M St Z :=
  do! n' := io_pure (set_child_at n child_idx new_child) in
  write_internal_same_pid old_pid n'.

Definition check_key (key : bytes) : M St unit :=
  if (zlen key =? 0) || (MAX_KEY_LEN <? zlen key) then io_fail (KeyTooLong (zlen key) MAX_KEY_LEN) else io_ret tt.

(** [BTree::new] without a root. *)
Definition btree_new : M St Z :=
  do! pid := io_alloc_direct PtIndex in
  let p := page_new PtIndex pid in
  let n := set_next_leaf (leaf_set_num_keys (leaf_set_is_leaf (cast_leaf p)) 0) NULL_PAGE in
  do! _ := io_write pid (update_checksum (put_leaf p n)) in
  io_ret pid.

(** ** Descent *)

Fixpoint find_leaf_for_in (fuel : nat) (pid : Z) (key : bytes) : M St Z :=
  match fuel with
  | O => io_panic
  | S f =>
      do! p := io_read pid in
      if is_leaf_page p then io_ret pid
      else
        do! idx := io_pure (find_child_idx (cast_internal p) key) in
        do! child_pid := io_pure (child_at (cast_internal p) idx) in
        find_leaf_for_in f child_pid key
  end.

Fixpoint lookup_loop (fuel : nat) (pid : Z) (key : bytes) : M St (option RecordId) :=
  match fuel with
  | O => io_panic
  | S f =>
      do! p := io_read pid in
      if is_leaf_page p then
        do! r := io_pure (search (cast_leaf p) key) in
        match r with
        | inl i => do! rid := io_pure (rid_at (cast_leaf p) i) in io_ret (Some rid)
        | inr _ => io_ret None
        end
      else
        do! idx := io_pure (find_child_idx (cast_internal p) key) in
        do! child_pid := io_pure (child_at (cast_internal p) idx) in
        lookup_loop f child_pid key
  end.
Definition lookup_in (fuel : nat) (root_pid : Z) (key : bytes) : M St (option RecordId) :=
  do! _ := check_key key in lookup_loop fuel root_pid key.

Fixpoint leftmost_leaf_in (fuel : nat) (pid : Z) : M St Z :=
  match fuel with
  | O => io_panic
  | S f =>
      do! n := node_read pid in
      match n with
      | NLeaf _ => io_ret pid
      | NInternal n => do! child_pid := io_pure (child_at n 0) in leftmost_leaf_in f child_pid
      end
  end.

Fixpoint descend_rightmost_leaf (fuel : nat) (pid : Z) : M St Z :=
  match fuel with
  | O => io_panic
  | S f =>
      do! p := io_read pid in
      if is_leaf_page p then io_ret pid
      else
        do! child_pid := io_pure (child_at (cast_internal p) (in_num_keys (cast_internal p))) in
        descend_rightmost_leaf f child_pid
  end.

(** ** Insertion *)

Definition try_insert_leaf_optimistically (fuel : nat) (root_pid : Z) (key : bytes) (rid : RecordId) (fillfactor : Z)
    : M St (OptimisticLeafResult unit) :=
  do! leaf_pid := find_leaf_for_in fuel root_pid key in
  do! p := io_read leaf_pid in
  if negb (is_leaf_page p) then io_ret OptRetry
  else
    do! r := io_pure (search (cast_leaf p) key) in
    match r with
    | inl _ => io_fail DuplicateKey
    | inr insert_pos =>
        if negb (lf_num_keys (cast_leaf p) <? fill_threshold ORDER_LEAF fillfactor) then io_ret OptNeedPessimistic
        else
          do! n := io_pure (leaf_insert_at (cast_leaf p) insert_pos key rid) in
          do! _ := io_write leaf_pid (update_checksum (put_leaf p n)) in
          io_ret (OptDone tt)
    end.

Definition child_is_safe_for_insert (child_pid fillfactor : Z) : M St bool :=
  do! p := io_read child_pid in
  io_ret (if is_leaf_page p then lf_num_keys (cast_leaf p) <? fill_threshold ORDER_LEAF fillfactor
        else in_num_keys (cast_internal p) <? ORDER_INTERNAL).

Definition update_predecessor_next_leaf (fuel : nat) (parent : InternalNodePage) (child_idx new_left_pid : Z) : M St unit :=
  do! left_sibling_pid := io_pure (child_at parent (child_idx - 1)) in
  do! pred_pid := descend_rightmost_leaf fuel left_sibling_pid in
  do! raw := io_read pred_pid in
  match page_from_bytes raw with
  | Err e => io_fail e
  | Ok page => io_write pred_pid (update_checksum (put_leaf page (set_next_leaf (cast_leaf page) new_left_pid)))
  end.

Definition insert_leaf_batched (old_pid : Z) (node : LeafNodePage) (key : bytes) (rid : RecordId) : M St InsertResult :=
  do! r := io_pure (search node key) in
  match r with
  | inl _ => io_fail DuplicateKey
  | inr ins_pos =>
      do! arrays := io_pure (spread_leaf node ins_pos key rid) in
      let total := lf_num_keys node + 1 in
      let mid := total / 2 in
      do! sep := io_pure (slot_key arrays.1.1 arrays.1.2 mid) in
      do! left_pid := io_alloc PtIndex in
      do! right_pid := io_alloc PtIndex in
      do! lp := io_pure (leaf_part (page_new PtIndex left_pid) arrays 0 mid right_pid) in
      do! _ := io_write left_pid (update_checksum lp) in
      do! rp := io_pure (leaf_part (page_new PtIndex right_pid) arrays mid (total - mid) (lf_next_leaf node)) in
      do! _ := io_write right_pid (update_checksum rp) in
      do! _ := io_free old_pid in
      io_ret (InsSplit left_pid right_pid sep true)
  end.

Definition split_internal_batched (old_pid : Z) (node : InternalNodePage) (child_idx : Z) (sep : bytes) (right_child : Z)
    : M St InsertResult :=
  do! arrays := io_pure (spread_internal node child_idx sep right_child) in
  let total := in_num_keys node + 1 in
  let mid := total / 2 in
  do! new_sep := io_pure (slot_key arrays.1.1 arrays.1.2 mid) in
  do! left_pid := io_alloc PtIndex in
  do! right_pid := io_alloc PtIndex in
  do! lp := io_pure (internal_part (page_new PtIndex left_pid) arrays 0 mid) in
  do! _ := io_write left_pid (update_checksum lp) in
  do! rp := io_pure (internal_part (page_new PtIndex right_pid) arrays (mid + 1) (total - mid - 1)) in
  do! _ := io_write right_pid (update_checksum rp) in
  do! _ := io_free old_pid in
  io_ret (InsSplit left_pid right_pid new_sep false).

Definition alloc_root_batched (sep : bytes) (left_pid right_pid : Z) : M St Z :=
  do! pid := io_alloc PtIndex in
  let p := page_new PtIndex pid in
  let n := cast_internal p in
  let n := internal_set_num_keys
    (mkInternal 0 (in_pad0 n) (in_num_keys n) (in_pad1 n) (in_key_lens n) (in_children n) (in_keys n)) 1 in
  do! n := io_pure (set_child_at n 0 left_pid) in
  do! n := io_pure (set_child_at n 1 right_pid) in
  do! n := io_pure (internal_set_key_at n 0 sep) in
  do! _ := io_write pid (update_checksum (put_internal p n)) in
  io_ret pid.

(** The continuation after a split of the child at [child_idx]. *)
Definition absorb_split (fuel : nat) (pid : Z) (node : InternalNodePage) (child_idx left_pid right_pid : Z) (sep : bytes)
    (leaf_split : bool) : M St InsertResult :=
  do! _ := (if leaf_split && (0 <? child_idx) then update_predecessor_next_leaf fuel node child_idx left_pid else io_ret tt) in
  do! node2 := io_pure (set_child_at node child_idx left_pid) in
  if in_num_keys node <? ORDER_INTERNAL then
    do! node3 := io_pure (internal_insert_at node2 child_idx sep right_pid) in
    do! new_pid := write_internal_same_pid pid node3 in
    io_ret (InsOk new_pid)
  else split_internal_batched pid node2 child_idx sep right_pid.

Fixpoint insert_subtree_batched (fuel : nat) (pid : Z) (key : bytes) (rid : RecordId) (fillfactor : Z) : M St InsertResult :=
  match fuel with
  | O => io_panic
  | S f =>
      do! p := io_read pid in
      if is_leaf_page p then
        do! r := io_pure (search (cast_leaf p) key) in
        match r with
        | inl _ => io_fail DuplicateKey
        | inr ins_pos =>
            if lf_num_keys (cast_leaf p) <? fill_threshold ORDER_LEAF fillfactor then
              do! n := io_pure (leaf_insert_at (cast_leaf p) ins_pos key rid) in
              do! _ := io_write pid (update_checksum (put_leaf p n)) in
              io_ret (InsOk pid)
            else insert_leaf_batched pid (cast_leaf p) key rid
        end
      else
        let node := cast_internal p in
        do! child_idx := io_pure (find_child_idx node key) in
        do! child_pid := io_pure (child_at node child_idx) in
        do! safe := child_is_safe_for_insert child_pid fillfactor in
        if (safe : bool) then
          do! _ := insert_subtree_batched f child_pid key rid fillfactor in
          io_ret (InsOk pid)
        else
          do! r := insert_subtree_batched f child_pid key rid fillfactor in
          match r with
          | InsOk new_child_pid =>
              if new_child_pid =? child_pid then io_ret (InsOk pid)
              else do! new_pid := in_place_update_child pid node child_idx new_child_pid in io_ret (InsOk new_pid)
          | InsSplit left_pid right_pid sep leaf_split =>
              absorb_split f pid node child_idx left_pid right_pid sep leaf_split
          end
  end.

(** Returns the new root. *)
Fixpoint insert_in_with_batch (fuel : nat) (root_pid : Z) (key : bytes) (rid : RecordId) (fillfactor : Z) : M St Z :=
  do! _ := check_key key in
  do! o := try_insert_leaf_optimistically fuel root_pid key rid fillfactor in
  match o with
  | OptDone _ => io_ret root_pid
  | OptRetry => match fuel with O => io_panic | S f => insert_in_with_batch f root_pid key rid fillfactor end
  | OptNeedPessimistic =>
      do! r := insert_subtree_batched fuel root_pid key rid fillfactor in
      match r with
      | InsOk new_root => io_ret new_root
      | InsSplit left_pid right_pid sep _ => alloc_root_batched sep left_pid right_pid
      end
  end.

(** ** Deletion *)

Definition node_key_count (pid : Z) : M St Z :=
  do! n := node_read pid in
  io_ret (match n with NLeaf n => lf_num_keys n | NInternal n => in_num_keys n end).
Definition internal_underfull (pid : Z) : M St bool :=
  do! p := io_read pid in io_ret (in_num_keys (cast_internal p) <? MIN_KEYS_INTERNAL).

Definition child_is_safe_for_delete (child_pid : Z) : M St bool :=
  do! p := io_read child_pid in
  io_ret (if is_leaf_page p then MIN_KEYS_LEAF <? lf_num_keys (cast_leaf p) else false).

(** [match NodeCopy::read(storage, pid)? { Leaf(n) => n, Internal(_) => unreachable!() }] *)
Definition read_leaf (pid : Z) : M St LeafNodePage :=
  do! n := node_read pid in
  match n with NLeaf n => io_ret n | NInternal _ => io_panic end.
Definition read_internal (pid : Z) : M St InternalNodePage :=
  do! n := node_read pid in
  match n with NInternal n => io_ret n | NLeaf _ => io_panic end.

Definition delete_leaf (old_pid : Z) (node : LeafNodePage) (key : bytes) (is_root : bool) : M St DeleteResult :=
  do! r := io_pure (search node key) in
  match r with
  | inr _ => io_ret DelNotFound
  | inl idx =>
      do! node := io_pure (leaf_remove_at node idx) in
      let underfull := negb is_root && (lf_num_keys node <? MIN_KEYS_LEAF) in
      if negb underfull then
        do! new_pid := write_leaf_same_pid old_pid node in io_ret (Deleted new_pid false)
      else
        do! new_pid := write_leaf_same_pid old_pid node in io_ret (Deleted new_pid true)
  end.

Definition rotate_right_batched (parent_pid : Z) (parent : InternalNodePage) (child_idx child_pid left_pid : Z) (is_leaf : bool)
    : M St Z :=
  do! np := io_alloc PtIndex in
  do! parent' :=
    (if is_leaf then
       do! left := read_leaf left_pid in
       do! child := read_leaf child_pid in
       do! r := io_pure (rotate_right_leaves parent left child child_idx left_pid child_pid) in
       do! _ := write_new_leaf left_pid r.1.2 in
       do! _ := write_new_leaf child_pid r.2 in
       io_ret r.1.1
     else
       do! nc := io_alloc PtIndex in
       do! nl := io_alloc PtIndex in
       do! left := read_internal left_pid in
       do! child := read_internal child_pid in
       do! r := io_pure (rotate_right_internals parent left child child_idx nl nc) in
       do! _ := write_new_internal nl r.1.2 in
       do! _ := write_new_internal nc r.2 in
       do! _ := io_free child_pid in
       do! _ := io_free left_pid in
       io_ret r.1.1) in
  do! _ := write_new_internal np parent' in
  do! _ := io_free parent_pid in
  io_ret np.

Definition rotate_left_batched (parent_pid : Z) (parent : InternalNodePage) (child_idx child_pid right_pid : Z) (is_leaf : bool)
    : M St Z :=
  do! np := io_alloc PtIndex in
  do! parent' :=
    (if is_leaf then
       do! child := read_leaf child_pid in
       do! right := read_leaf right_pid in
       do! r := io_pure (rotate_left_leaves parent child right child_idx child_pid right_pid) in
       do! _ := write_new_leaf child_pid r.1.2 in
       do! _ := write_new_leaf right_pid r.2 in
       io_ret r.1.1
     else
       do! nc := io_alloc PtIndex in
       do! nr := io_alloc PtIndex in
       do! child := read_internal child_pid in
       do! right := read_internal right_pid in
       do! r := io_pure (rotate_left_internals parent child right child_idx nc nr) in
       do! _ := write_new_internal nc r.1.2 in
       do! _ := write_new_internal nr r.2 in
       do! _ := io_free child_pid in
       do! _ := io_free right_pid in
       io_ret r.1.1) in
  do! _ := write_new_internal np parent' in
  do! _ := io_free parent_pid in
  io_ret np.

Definition merge_children_batched (parent_pid : Z) (parent : InternalNodePage) (sep_idx left_pid right_pid : Z) (is_leaf : bool)
    : M St Z :=
  do! npp := io_alloc PtIndex in
  do! merged_pid :=
    (if is_leaf then
       do! left := read_leaf left_pid in
       do! right := read_leaf right_pid in
       do! merged := io_pure (merge_leaves left right) in
       do! _ := write_new_leaf left_pid merged in
       io_ret left_pid
     else
       do! mp := io_alloc PtIndex in
       do! left := read_internal left_pid in
       do! right := read_internal right_pid in
       do! merged := io_pure (merge_internals parent left right sep_idx) in
       do! _ := write_new_internal mp merged in
       do! _ := io_free left_pid in
       io_ret mp) in
  do! parent := io_pure (set_child_at parent sep_idx merged_pid) in
  do! parent := io_pure (internal_remove_at parent sep_idx (sep_idx + 1)) in
  do! _ := write_new_internal npp parent in
  do! _ := io_free parent_pid in
  do! _ := io_free right_pid in
  io_ret npp.

(** Merging, when neither sibling can spare an entry. *)
Definition rebalance_merge (parent_pid : Z) (parent : InternalNodePage) (child_idx child_pid : Z) (child_is_leaf : bool) : M St Z :=
  if 0 <? child_idx then
    do! left_pid := io_pure (child_at parent (child_idx - 1)) in
    merge_children_batched parent_pid parent (child_idx - 1) left_pid child_pid child_is_leaf
  else
    do! right_pid := io_pure (child_at parent (child_idx + 1)) in
    merge_children_batched parent_pid parent child_idx child_pid right_pid child_is_leaf.

(** From the right sibling on. *)
Definition rebalance_right (parent_pid : Z) (parent : InternalNodePage) (child_idx child_pid : Z) (child_is_leaf : bool) : M St Z :=
  let min_keys := if child_is_leaf then MIN_KEYS_LEAF else MIN_KEYS_INTERNAL in
  if child_idx <? in_num_keys parent then
    do! right_pid := io_pure (child_at parent (child_idx + 1)) in
    do! cnt := node_key_count right_pid in
    if min_keys <? cnt then rotate_left_batched parent_pid parent child_idx child_pid right_pid child_is_leaf
    else rebalance_merge parent_pid parent child_idx child_pid child_is_leaf
  else rebalance_merge parent_pid parent child_idx child_pid child_is_leaf.

Definition rebalance_batched (parent_pid : Z) (parent : InternalNodePage) (child_idx child_pid : Z) : M St Z :=
  do! p := io_read child_pid in
  let child_is_leaf := is_leaf_page p in
  let min_keys := if child_is_leaf then MIN_KEYS_LEAF else MIN_KEYS_INTERNAL in
  if 0 <? child_idx then
    do! left_pid := io_pure (child_at parent (child_idx - 1)) in
    do! cnt := node_key_count left_pid in
    if min_keys <? cnt then rotate_right_batched parent_pid parent child_idx child_pid left_pid child_is_leaf
    else rebalance_right parent_pid parent child_idx child_pid child_is_leaf
  else rebalance_right parent_pid parent child_idx child_pid child_is_leaf.

Fixpoint delete_subtree_batched (fuel : nat) (pid : Z) (key : bytes) (is_root : bool) : M St DeleteResult :=
  match fuel with
  | O => io_panic
  | S f =>
      do! n := node_read pid in
      match n with
      | NLeaf node => delete_leaf pid node key is_root
      | NInternal node =>
          do! child_idx := io_pure (find_child_idx node key) in
          do! child_pid := io_pure (child_at node child_idx) in
          do! safe := child_is_safe_for_delete child_pid in
          if (safe : bool) then
            do! result := delete_subtree_batched f child_pid key false in
            match result with
            | DelNotFound => io_ret DelNotFound
            | Deleted _ _ => io_ret (Deleted pid false)
            end
          else
            do! result := delete_subtree_batched f child_pid key false in
            match result with
            | DelNotFound => io_ret DelNotFound
            | Deleted new_child_pid underfull =>
                if negb underfull then
                  if new_child_pid =? child_pid then io_ret (Deleted pid false)
                  else do! new_pid := in_place_update_child pid node child_idx new_child_pid in io_ret (Deleted new_pid false)
                else
                  do! new_pid := rebalance_batched pid node child_idx new_child_pid in
                  do! underfull2 := (if is_root then io_ret false else internal_underfull new_pid) in
                  io_ret (Deleted new_pid underfull2)
            end
      end
  end.

Definition collapse_root (root_pid : Z) : M St Z :=
  do! p := io_read root_pid in
  if (get_le 0 1 (body p) =? 0) && (in_num_keys (cast_internal p) =? 0) then
    do! only_child := io_pure (child_at (cast_internal p) 0) in
    do! _ := io_free root_pid in
    io_ret only_child
  else io_ret root_pid.

Definition try_delete_leaf_optimistically (fuel : nat) (root_pid : Z) (key : bytes) : M St (OptimisticLeafResult bool) :=
  do! leaf_pid := find_leaf_for_in fuel root_pid key in
  do! p := io_read leaf_pid in
  if negb (is_leaf_page p) then io_ret OptRetry
  else
    do! r := io_pure (search (cast_leaf p) key) in
    match r with
    | inr _ => io_ret (OptDone false)
    | inl idx =>
        let remaining := Z.max 0 (lf_num_keys (cast_leaf p) - 1) in
        if negb (leaf_pid =? root_pid) && (remaining <? MIN_KEYS_LEAF) then io_ret OptNeedPessimistic
        else
          do! n := io_pure (leaf_remove_at (cast_leaf p) idx) in
          do! _ := io_write leaf_pid (update_checksum (put_leaf p n)) in
          io_ret (OptDone true)
    end.

(** Whether the key was there, and the new root. *)
Fixpoint delete_in_with_batch (fuel : nat) (root_pid : Z) (key : bytes) : M St (bool * Z) :=
  do! _ := check_key key in
  do! o := try_delete_leaf_optimistically fuel root_pid key in
  match o with
  | OptDone deleted => io_ret (deleted, root_pid)
  | OptRetry => match fuel with O => io_panic | S f => delete_in_with_batch f root_pid key end
  | OptNeedPessimistic =>
      do! r := delete_subtree_batched fuel root_pid key true in
      match r with
      | DelNotFound => io_ret (false, root_pid)
      | Deleted new_pid _ => do! final_root := collapse_root new_pid in io_ret (true, final_root)
      end
  end.

(** ** Range scans *)

Inductive Bound : Type :=
| Unbounded
| Included (k : bytes)
| Excluded (k : bytes).

(** The iterator without its latch. *)
Record RangeIter : Type := mkIter {
  it_current_pid : Z;
  it_next_leaf_cache : Z;
  it_slot_idx : Z;
  it_from : Bound;
  it_to : Bound;
  it_done : bool
}.

Definition range_iter_new (start_pid : Z) (from to : Bound) : RangeIter := mkIter start_pid NULL_PAGE 0 from to false.

Definition above_lower (it : RangeIter) (key : bytes) : bool :=
  match it_from it with
  | Unbounded => true
  | Included lo => match lex_cmp key lo with Lt => false | _ => true end
  | Excluded lo => match lex_cmp key lo with Gt => true | _ => false end
  end.
Definition below_upper (it : RangeIter) (key : bytes) : bool :=
  match it_to it with
  | Unbounded => true
  | Included hi => match lex_cmp key hi with Gt => false | _ => true end
  | Excluded hi => match lex_cmp key hi with Lt => true | _ => false end
  end.

Definition it_set_done (it : RangeIter) : RangeIter :=
  mkIter (it_current_pid it) (it_next_leaf_cache it) (it_slot_idx it) (it_from it) (it_to it) true.
Definition it_set_cache (it : RangeIter) (next : Z) : RangeIter :=
  mkIter (it_current_pid it) next (it_slot_idx it) (it_from it) (it_to it) (it_done it).
Definition it_advance (it : RangeIter) : RangeIter :=
  mkIter (it_current_pid it) (it_next_leaf_cache it) (it_slot_idx it + 1) (it_from it) (it_to it) (it_done it).
Definition it_jump (it : RangeIter) (next_pid : Z) : RangeIter :=
  mkIter next_pid NULL_PAGE 0 (it_from it) (it_to it) (it_done it).

(** [next]: each turn of its loop looks at one slot or goes to the next leaf.  A failed
    read leaves the iterator as it is. *)
Fixpoint range_next (fuel : nat) (it : RangeIter) : M St (option (bytes * RecordId) * RangeIter) :=
  if it_done it then io_ret (None, it)
  else if it_current_pid it =? NULL_PAGE then io_ret (None, it_set_done it)
  else
    match fuel with
    | O => io_panic
    | S f =>
        do! p := io_read (it_current_pid it) in
        let node := cast_leaf p in
        let it := if (it_next_leaf_cache it =? NULL_PAGE) && (it_slot_idx it =? 0)
                  then it_set_cache it (lf_next_leaf node) else it in
        if lf_num_keys node <=? it_slot_idx it then
          if it_next_leaf_cache it =? NULL_PAGE then io_ret (None, it_set_done it)
          else range_next f (it_jump it (it_next_leaf_cache it))
        else
          do! key := io_pure (leaf_key_at node (it_slot_idx it)) in
          do! rid := io_pure (rid_at node (it_slot_idx it)) in
          let it := it_advance it in
          if negb (above_lower it key) then range_next f it
          else if negb (below_upper it key) then io_ret (None, it_set_done it)
          else io_ret (Some (key, rid), it)
    end.

(** [iter.collect()], up to the first error. *)
Fixpoint range_collect (fuel : nat) (it : RangeIter) : M St (list (RecordId * bytes)) :=
  match fuel with
  | O => io_panic
  | S f =>
      do! r := range_next fuel it in
      match r.1 with
      | None => io_ret []
      | Some e => do! rest := range_collect f r.2 in io_ret ((e.2, e.1) :: rest)
      end
  end.

(** [BTree::range]: the iterator. *)
Definition range (fuel : nat) (root_pid : Z) (from to : Bound) : M St RangeIter :=
  do! start_pid := (match from with
                    | Unbounded => leftmost_leaf_in fuel root_pid
                    | Included k | Excluded k => find_leaf_for_in fuel root_pid k
                    end) in
  io_ret (range_iter_new start_pid from to).

Definition range_in (fuel scan : nat) (root_pid : Z) (lo hi : option bytes) : M St (list (RecordId * bytes)) :=
  let from := match lo with None => Unbounded | Some k => Included k end in
  let to := match hi with None => Unbounded | Some k => Included k end in
  do! start_pid := (match from with
                    | Unbounded => leftmost_leaf_in fuel root_pid
                    | Included k | Excluded k => find_leaf_for_in fuel root_pid k
                    end) in
  range_collect scan (range_iter_new start_pid from to).
End Tree.
