(* ===== verification/BTreeRep.v ===== *)
(** * What a B+tree in the pages means

    [rep v h lo hi pid fp ls]: in the pages [v], the page [pid] is the root of a tree of
    height [h] whose separators and keys lie in [\[lo, hi)], with the pages [fp] (the
    footprint) and the leaves [ls], from left to right.  The children of an internal node
    are a [forest]: a first child, and then separators and children in turn.  The file
    proves how trees are taken apart at a child and put together again, that they depend
    on their footprint only, and the theorem about lookups. *)

From S2P Require Import Prelude SlotBitmap Page FreeList Storage PageIo ByteOrder BTreeNode BTree.

Abbreviation entry := (bytes * RecordId)%type.

Record leafd : Type := mkLd { ld_pid : Z; ld_next : Z; ld_es : list entry }.

Definition ents (ls : list leafd) : list entry := concat (ld_es <$> ls).

(** ** Bounds *)

Definition lo_le (lo : option bytes) (k : bytes) : Prop := match lo with None => True | Some l => ble l k end.
Definition hi_lt (k : bytes) (hi : option bytes) : Prop := match hi with None => True | Some h => blt k h end.
Definition bnd (lo hi : option bytes) : Prop :=
  match lo, hi with Some l, Some h => blt l h | _, _ => True end.

Lemma bnd_trans lo k hi : bnd lo (Some k) -> bnd (Some k) hi -> bnd lo hi.
Proof. destruct lo, hi; cbn; try done. intros. border. Qed.

(** ** Forests *)

Section Forest.
Context (R : option bytes -> option bytes -> Z -> list Z -> list leafd -> Prop).

(** Children each followed by its separator, up to the bound [lo']. *)
Inductive lseg : option bytes -> option bytes -> list Z -> list bytes -> list Z -> list leafd -> Prop :=
| lseg_nil lo : lseg lo lo [] [] [] []
| lseg_cons lo lo' c k cs ks fp fp' ls ls' :
    R lo (Some k) c fp ls -> lseg (Some k) lo' cs ks fp' ls' ->
    lseg lo lo' (c :: cs) (k :: ks) (fp ++ fp') (ls ++ ls').

(** Separators each followed by a child, from the bound [hi'] on. *)
Inductive rseg : option bytes -> option bytes -> list Z -> list bytes -> list Z -> list leafd -> Prop :=
| rseg_nil hi : rseg hi hi [] [] [] []
| rseg_cons k hi1 hi c cs ks fp fp' ls ls' :
    R (Some k) hi1 c fp ls -> rseg hi1 hi cs ks fp' ls' ->
    rseg (Some k) hi (c :: cs) (k :: ks) (fp ++ fp') (ls ++ ls').

Inductive forest : option bytes -> option bytes -> list Z -> list bytes -> list Z -> list leafd -> Prop :=
| forest_intro lo hi1 hi c cs ks fp1 fp2 ls1 ls2 :
    R lo hi1 c fp1 ls1 -> rseg hi1 hi cs ks fp2 ls2 ->
    forest lo hi (c :: cs) ks (fp1 ++ fp2) (ls1 ++ ls2).

Lemma forest_one lo hi c fp ls : R lo hi c fp ls -> forest lo hi [c] [] fp ls.
Proof. intros Hc. rewrite <-(app_nil_r fp), <-(app_nil_r ls). eapply forest_intro; [done|constructor]. Qed.

Lemma lseg_length lo lo' cs ks fp ls : lseg lo lo' cs ks fp ls -> length cs = length ks.
Proof. induction 1; cbn; congruence. Qed.
Lemma rseg_length hi' hi cs ks fp ls : rseg hi' hi cs ks fp ls -> length cs = length ks.
Proof. induction 1; cbn; congruence. Qed.
Lemma forest_length lo hi cs ks fp ls : forest lo hi cs ks fp ls -> length cs = S (length ks).
Proof. intros [????????? ? ? H%rseg_length]. cbn. congruence. Qed.

(** Where a left part ends and where a right part starts. *)
Lemma lseg_bound lo lo' cs ks fp ls : lseg lo lo' cs ks fp ls ->
  lo' = match last ks with Some k => Some k | None => lo end.
Proof.
  induction 1 as [|lo lo' c k cs ks fp fp' ls ls' _ _ IH]; [done|]. rewrite IH.
  destruct ks as [|k' ks]; [done|]. rewrite last_cons_cons.
  destruct (last (k' :: ks)) eqn:E; [done|]. by apply last_None in E.
Qed.
Lemma rseg_bound hi' hi cs ks fp ls : rseg hi' hi cs ks fp ls ->
  hi' = match ks with k :: _ => Some k | [] => hi end.
Proof. by induction 1. Qed.

Lemma rseg_app hi1 hi2 hi cs1 ks1 fp1 ls1 cs2 ks2 fp2 ls2 :
  rseg hi1 hi2 cs1 ks1 fp1 ls1 -> rseg hi2 hi cs2 ks2 fp2 ls2 ->
  rseg hi1 hi (cs1 ++ cs2) (ks1 ++ ks2) (fp1 ++ fp2) (ls1 ++ ls2).
Proof. induction 1; intros H2; cbn; [done|]. rewrite <-!app_assoc. econstructor; eauto. Qed.

Lemma forest_rseg lo hi' hi cs1 ks1 fp1 ls1 cs2 ks2 fp2 ls2 :
  forest lo hi' cs1 ks1 fp1 ls1 -> rseg hi' hi cs2 ks2 fp2 ls2 ->
  forest lo hi (cs1 ++ cs2) (ks1 ++ ks2) (fp1 ++ fp2) (ls1 ++ ls2).
Proof.
  intros [lo0 hi1 hi0 c cs ks fpa fpb lsa lsb Hc Hr] H2. cbn. rewrite <-!app_assoc.
  eapply forest_intro; [done|]. by eapply rseg_app.
Qed.

Lemma forest_to_rseg k hi cs ks fp ls : forest (Some k) hi cs ks fp ls -> rseg (Some k) hi cs (k :: ks) fp ls.
Proof. inversion 1; subst. by eapply rseg_cons. Qed.

Lemma lseg_forest lo lo' hi cs1 ks1 fp1 ls1 cs2 ks2 fp2 ls2 :
  lseg lo lo' cs1 ks1 fp1 ls1 -> forest lo' hi cs2 ks2 fp2 ls2 ->
  forest lo hi (cs1 ++ cs2) (ks1 ++ ks2) (fp1 ++ fp2) (ls1 ++ ls2).
Proof.
  induction 1 as [|lo lo' c k cs ks fp fp' ls ls' Hc _ IH]; intros H2; cbn; [done|].
  rewrite <-!app_assoc. eapply forest_intro; [done|]. by apply forest_to_rseg, IH.
Qed.

(** A forest seen from its [i]-th child. *)
Lemma forest_focus i : forall lo hi cs ks fp ls c,
  forest lo hi cs ks fp ls -> cs !! i = Some c ->
  exists lo' hi' fp1 fpc fp2 ls1 lsc ls2,
    lseg lo lo' (take i cs) (take i ks) fp1 ls1 /\ R lo' hi' c fpc lsc /\
    rseg hi' hi (drop (S i) cs) (drop i ks) fp2 ls2 /\
    fp = fp1 ++ fpc ++ fp2 /\ ls = ls1 ++ lsc ++ ls2.
Proof.
  induction i as [|i IH]; intros lo hi cs ks fp ls c Hf Hc; inversion Hf as [lo0 hi1 hi0 c0 cs0 ks0 fpa fpb lsa lsb Hc0 Hr]; subst.
  - injection Hc as ->. exists lo, hi1, [], fpa, fpb, [], lsa, lsb. split; [constructor|]. done.
  - cbn in Hc. inversion Hr as [|k hi2 hi3 c1 cs1 ks1 fp1 fp2 ls1 ls2 Hc1 Hr1]; subst; [done|].
    destruct (IH (Some k) hi (c1 :: cs1) ks1 (fp1 ++ fp2) (ls1 ++ ls2) c) as
      (lo' & hi' & fp1' & fpc & fp2' & ls1' & lsc & ls2' & Hl & Hcc & Hrr & Hfp & Hls); [by eapply forest_intro|done|].
    exists lo', hi', (fpa ++ fp1'), fpc, fp2', (lsa ++ ls1'), lsc, ls2'.
    split; [by apply lseg_cons|]. split; [done|]. split; [done|]. rewrite Hfp, Hls. by rewrite <-!app_assoc.
Qed.

(** Replacing the child by a forest with the same bounds. *)
Lemma forest_unfocus lo lo' hi' hi cs1 ks1 fp1 ls1 cs ks fpc lsc cs2 ks2 fp2 ls2 :
  lseg lo lo' cs1 ks1 fp1 ls1 -> forest lo' hi' cs ks fpc lsc -> rseg hi' hi cs2 ks2 fp2 ls2 ->
  forest lo hi (cs1 ++ cs ++ cs2) (ks1 ++ ks ++ ks2) (fp1 ++ fpc ++ fp2) (ls1 ++ lsc ++ ls2).
Proof. intros Hl Hf Hr. eapply lseg_forest; [done|]. by eapply forest_rseg. Qed.

(** *** The last child of a left part, the first of a right part *)

Lemma lseg_snoc_inv lo lo' cs ks c k fp ls :
  lseg lo lo' (cs ++ [c]) (ks ++ [k]) fp ls -> length cs = length ks ->
  exists lo1 fp1 fp2 ls1 ls2, lseg lo lo1 cs ks fp1 ls1 /\ R lo1 (Some k) c fp2 ls2 /\
    lo' = Some k /\ fp = fp1 ++ fp2 /\ ls = ls1 ++ ls2.
Proof.
  revert lo lo' ks fp ls. induction cs as [|c0 cs IH]; intros lo lo' ks fp ls Hl Hlen.
  - destruct ks; [|done]. inversion Hl as [|lo0 lo1 c1 k1 cs1 ks1 fp1 fp2 ls1 ls2 Hc Hr]; subst.
    inversion Hr; subst. exists lo, [], fp1, [], ls1. rewrite !app_nil_r. split; [constructor|done].
  - destruct ks as [|k0 ks]; [done|]. cbn in Hl. inversion Hl as [|lo0 lo1 c1 k1 cs1 ks1 fp1 fp2 ls1 ls2 Hc Hr]; subst.
    destruct (IH _ _ _ _ _ Hr) as (lo2 & fpa & fpb & lsa & lsb & Hl' & Hc' & -> & -> & ->); [cbn in Hlen; lia|].
    exists lo2, (fp1 ++ fpa), fpb, (ls1 ++ lsa), lsb. split; [by apply lseg_cons|]. rewrite !app_assoc. done.
Qed.

Lemma lseg_snoc lo lo1 cs ks c k fp1 fp2 ls1 ls2 :
  lseg lo lo1 cs ks fp1 ls1 -> R lo1 (Some k) c fp2 ls2 ->
  lseg lo (Some k) (cs ++ [c]) (ks ++ [k]) (fp1 ++ fp2) (ls1 ++ ls2).
Proof.
  induction 1 as [|lo lo' c0 k0 cs ks fp fp' ls ls' Hc _ IH]; intros H2; cbn.
  - rewrite <-(app_nil_r fp2), <-(app_nil_r ls2). apply lseg_cons; [done|constructor].
  - rewrite <-!app_assoc. apply lseg_cons; [done|]. by apply IH.
Qed.

Lemma lseg_app_inv cs1 : forall lo lo' ks1 cs2 ks2 fp ls,
  lseg lo lo' (cs1 ++ cs2) (ks1 ++ ks2) fp ls -> length cs1 = length ks1 ->
  exists lo1 fp1 fp2 ls1 ls2, lseg lo lo1 cs1 ks1 fp1 ls1 /\ lseg lo1 lo' cs2 ks2 fp2 ls2 /\
    fp = fp1 ++ fp2 /\ ls = ls1 ++ ls2.
Proof.
  induction cs1 as [|c0 cs IH]; intros lo lo' ks1 cs2 ks2 fp ls Hl Hlen; destruct ks1 as [|k0 ks]; try done.
  - exists lo, [], fp, [], ls. split; [constructor|done].
  - cbn in Hl. inversion Hl as [|lo0 lo1 c1 k1 cs1 ks1 fp1 fp2 ls1 ls2 Hc Hr]; subst.
    destruct (IH _ _ _ _ _ _ _ Hr) as (lo2 & fpa & fpb & lsa & lsb & Hl' & Hc' & -> & ->); [cbn in Hlen; lia|].
    exists lo2, (fp1 ++ fpa), fpb, (ls1 ++ lsa), lsb. split; [by apply lseg_cons|]. rewrite !app_assoc. done.
Qed.
End Forest.

(** Changing the relation on the children. *)
Lemma lseg_mono (R R' : option bytes -> option bytes -> Z -> list Z -> list leafd -> Prop) lo lo' cs ks fp ls :
  lseg R lo lo' cs ks fp ls ->
  (forall a b c f l, R a b c f l -> (forall j, j ∈ f -> j ∈ fp) -> R' a b c f l) -> lseg R' lo lo' cs ks fp ls.
Proof.
  induction 1 as [|lo lo' c k cs ks fp fp' ls ls' Hc _ IH]; intros HR; [constructor|]. apply lseg_cons.
  - apply HR; [done|]. intros j ?. set_solver.
  - apply IH. intros a b c' f l Hx Hf. apply HR; [done|]. intros j ?. set_solver.
Qed.
Lemma rseg_mono (R R' : option bytes -> option bytes -> Z -> list Z -> list leafd -> Prop) hi' hi cs ks fp ls :
  rseg R hi' hi cs ks fp ls ->
  (forall a b c f l, R a b c f l -> (forall j, j ∈ f -> j ∈ fp) -> R' a b c f l) -> rseg R' hi' hi cs ks fp ls.
Proof.
  induction 1 as [|k hi1 hi c cs ks fp fp' ls ls' Hc _ IH]; intros HR; [constructor|]. eapply rseg_cons.
  - apply HR; [done|]. intros j ?. set_solver.
  - apply IH. intros a b c' f l Hx Hf. apply HR; [done|]. intros j ?. set_solver.
Qed.
Lemma forest_mono (R R' : option bytes -> option bytes -> Z -> list Z -> list leafd -> Prop) lo hi cs ks fp ls :
  forest R lo hi cs ks fp ls ->
  (forall a b c f l, R a b c f l -> (forall j, j ∈ f -> j ∈ fp) -> R' a b c f l) -> forest R' lo hi cs ks fp ls.
Proof.
  intros [lo0 hi1 hi0 c cs0 ks0 fp1 fp2 ls1 ls2 Hc Hr] HR. eapply forest_intro.
  - apply HR; [done|]. intros j ?. set_solver.
  - eapply rseg_mono; [done|]. intros a b c' f l Hx Hf. apply HR; [done|]. intros j ?. set_solver.
Qed.

(** ** Trees *)

Definition leaf_at (v : Z -> option Page) (pid : Z) (n : LeafNodePage) : Prop :=
  exists p, v pid = Some p /\ page_ok p /\ hdr_magic p = PAGE_MAGIC /\ n = cast_leaf p /\ leaf_wf n.
Definition internal_at (v : Z -> option Page) (pid : Z) (n : InternalNodePage) : Prop :=
  exists p, v pid = Some p /\ page_ok p /\ hdr_magic p = PAGE_MAGIC /\ n = cast_internal p /\ internal_wf n.

Definition leaf_in (lo hi : option bytes) (es : list entry) : Prop :=
  bnd lo hi /\ bsorted es.*1 /\ Forall (fun e => lo_le lo e.1 /\ hi_lt e.1 hi /\ 0 < zlen e.1) es.

Fixpoint rep (v : Z -> option Page) (h : nat) (lo hi : option bytes) (pid : Z) (fp : list Z) (ls : list leafd) : Prop :=
  match h with
  | O => fp = [pid] /\ exists n, leaf_at v pid n /\ ls = [mkLd pid (lf_next_leaf n) (leaf_es n)] /\ leaf_in lo hi (leaf_es n)
  | S h' => exists n fp', internal_at v pid n /\ 1 <= in_num_keys n /\ fp = pid :: fp' /\
      forest (rep v h') lo hi (internal_cs n) (internal_ks n) fp' ls
  end.

(** A whole tree: its pages are distinct and not reserved. *)
Definition tree_at (v : Z -> option Page) (h : nat) (root : Z) (fp : list Z) (ls : list leafd) : Prop :=
  rep v h None None root fp ls /\ NoDup fp /\ Forall page_num fp.

Lemma rep_root_in v h lo hi pid fp ls : rep v h lo hi pid fp ls -> pid ∈ fp.
Proof. destruct h; cbn; [intros [-> _]; by left|]. intros (n & fp' & _ & _ & -> & _). by left. Qed.

(** Only the pages of the footprint matter. *)
Lemma rep_frame v v' h : forall lo hi pid fp ls,
  rep v h lo hi pid fp ls -> (forall j, j ∈ fp -> v' j = v j) -> rep v' h lo hi pid fp ls.
Proof.
  induction h as [|h IH]; intros lo hi pid fp ls; cbn.
  - intros (-> & n & (p & Hp & Hrest) & Hls & Hin) Hv. split; [done|]. exists n. split; [|done].
    exists p. by rewrite Hv by left.
  - intros (n & fp' & (p & Hp & Hrest) & Hn & -> & Hf) Hv. exists n, fp'. split; [|split; [done|split; [done|]]].
    + exists p. by rewrite Hv by left.
    + eapply forest_mono; [done|]. intros a b c f l Hc Hsub. apply (IH _ _ _ _ _ Hc). intros j Hj. apply Hv. set_solver.
Qed.

Lemma forest_frame v v' h lo hi cs ks fp ls :
  forest (rep v h) lo hi cs ks fp ls -> (forall j, j ∈ fp -> v' j = v j) -> forest (rep v' h) lo hi cs ks fp ls.
Proof. intros Hf Hv. eapply forest_mono; [done|]. intros a b c f l Hc Hs. eapply rep_frame; [done|auto]. Qed.
Lemma lseg_frame v v' h lo lo' cs ks fp ls :
  lseg (rep v h) lo lo' cs ks fp ls -> (forall j, j ∈ fp -> v' j = v j) -> lseg (rep v' h) lo lo' cs ks fp ls.
Proof. intros Hf Hv. eapply lseg_mono; [done|]. intros a b c f l Hc Hs. eapply rep_frame; [done|auto]. Qed.
Lemma rseg_frame v v' h hi' hi cs ks fp ls :
  rseg (rep v h) hi' hi cs ks fp ls -> (forall j, j ∈ fp -> v' j = v j) -> rseg (rep v' h) hi' hi cs ks fp ls.
Proof. intros Hf Hv. eapply rseg_mono; [done|]. intros a b c f l Hc Hs. eapply rep_frame; [done|auto]. Qed.

(** ** Order *)

Lemma ents_app ls1 ls2 : ents (ls1 ++ ls2) = ents ls1 ++ ents ls2.
Proof. unfold ents. by rewrite fmap_app, concat_app. Qed.
Lemma ents_one p nx es : ents [mkLd p nx es] = es.
Proof. unfold ents. cbn. apply app_nil_r. Qed.

Lemma leaf_in_app lo k hi es1 es2 : leaf_in lo (Some k) es1 -> leaf_in (Some k) hi es2 -> leaf_in lo hi (es1 ++ es2).
Proof.
  intros (Hb1 & Hs1 & Hf1) (Hb2 & Hs2 & Hf2). split; [by eapply bnd_trans|]. split.
  - rewrite fmap_app. apply StronglySorted_app. split; [|done].
    intros a b (e1 & -> & H1)%list_elem_of_fmap (e2 & -> & H2)%list_elem_of_fmap.
    rewrite Forall_forall in Hf1, Hf2. destruct (Hf1 _ H1) as (_ & Ha & _), (Hf2 _ H2) as (Hb & _). cbn in *. border.
  - apply Forall_app. split; [eapply Forall_impl; [exact Hf1|]|eapply Forall_impl; [exact Hf2|]]; cbn.
    + intros e (Ha & Hk & Hz). split; [done|]. split; [|done]. destruct hi; cbn in *; [border|done].
    + intros e (Ha & Hk & Hz). split; [|done]. destruct lo; cbn in *; [border|done].
Qed.

Section Bounds.
Context (R : option bytes -> option bytes -> Z -> list Z -> list leafd -> Prop).
Hypothesis (HR : forall lo hi c fp ls, R lo hi c fp ls -> leaf_in lo hi (ents ls)).

Lemma lseg_in lo lo' hi cs ks fp ls es :
  lseg R lo lo' cs ks fp ls -> leaf_in lo' hi es -> leaf_in lo hi (ents ls ++ es).
Proof.
  induction 1 as [|lo lo' c k cs ks fp fp' ls ls' Hc _ IH]; intros He; [done|].
  rewrite ents_app, <-app_assoc. eapply leaf_in_app; [by eapply HR|auto].
Qed.
Lemma rseg_in lo hi' hi cs ks fp ls es :
  rseg R hi' hi cs ks fp ls -> leaf_in lo hi' es -> leaf_in lo hi (es ++ ents ls).
Proof.
  intros Hr. revert lo es. induction Hr as [|k hi1 hi c cs ks fp fp' ls ls' Hc _ IH]; intros lo es He; [by rewrite app_nil_r|].
  rewrite ents_app, app_assoc. apply IH. eapply leaf_in_app; [done|by eapply HR].
Qed.
Lemma forest_in lo hi cs ks fp ls : forest R lo hi cs ks fp ls -> leaf_in lo hi (ents ls).
Proof.
  intros [lo0 hi1 hi0 c cs0 ks0 fp1 fp2 ls1 ls2 Hc Hr]. rewrite ents_app. eapply rseg_in; [done|by eapply HR].
Qed.

Lemma rseg_keys hi' hi cs ks fp ls : rseg R hi' hi cs ks fp ls -> bsorted ks /\ Forall (fun k => hi_lt k hi) ks.
Proof.
  induction 1 as [|k hi1 hi c cs ks fp fp' ls ls' Hc Hr [IH1 IH2]]; [by repeat constructor|].
  apply HR in Hc as [Hb _]. pose proof (rseg_bound _ _ _ _ _ _ _ Hr) as Hhi. destruct ks as [|k1 ks].
  - subst. split; [by repeat constructor|]. constructor; [by destruct hi|done].
  - subst hi1. cbn in Hb. split.
    + constructor; [done|]. constructor; [done|]. apply StronglySorted_cons in IH1 as [Hf _].
      eapply Forall_impl; [exact Hf|]. cbn. intros. border.
    + constructor; [|done]. apply Forall_cons in IH2 as [Hk1 _]. destruct hi; cbn in *; [border|done].
Qed.

Lemma forest_keys lo hi cs ks fp ls :
  forest R lo hi cs ks fp ls -> bsorted ks /\ Forall (fun k => bnd lo (Some k) /\ hi_lt k hi) ks.
Proof.
  intros [lo0 hi1 hi0 c cs0 ks0 fp1 fp2 ls1 ls2 Hc Hr]. destruct (rseg_keys _ _ _ _ _ _ Hr) as [Hs Hf].
  split; [done|]. apply HR in Hc as [Hb _]. pose proof (rseg_bound _ _ _ _ _ _ _ Hr) as Hhi.
  destruct ks0 as [|k1 ks1]; [constructor|]. subst hi1. apply StronglySorted_cons in Hs as [Hs _].
  apply Forall_cons in Hf as [Hf1 Hf]. constructor; [done|]. apply Forall_forall. intros k Hk. rewrite Forall_forall in Hs, Hf.
  split; [|by apply Hf]. specialize (Hs k Hk). destruct lo0; cbn in *; [border|done].
Qed.

(** The child that a search for [key] goes to. *)
Lemma forest_pick lo hi cs ks fp ls key (i : Z) :
  forest R lo hi cs ks fp ls -> lo_le lo key -> hi_lt key hi -> 0 <= i <= zlen ks ->
  (forall j k, Z.of_nat j < i -> ks !! j = Some k -> ble k key) ->
  (forall j k, i <= Z.of_nat j -> ks !! j = Some k -> blt key k) ->
  exists c lo' hi' fp1 fpc fp2 ls1 lsc ls2,
    cs !! Z.to_nat i = Some c /\ lo_le lo' key /\ hi_lt key hi' /\
    lseg R lo lo' (take (Z.to_nat i) cs) (take (Z.to_nat i) ks) fp1 ls1 /\ R lo' hi' c fpc lsc /\
    rseg R hi' hi (drop (S (Z.to_nat i)) cs) (drop (Z.to_nat i) ks) fp2 ls2 /\
    fp = fp1 ++ fpc ++ fp2 /\ ls = ls1 ++ lsc ++ ls2.
Proof.
  intros Hf Hlo Hhi Hi Hle Hgt. pose proof (forest_length _ _ _ _ _ _ _ Hf) as Hlen.
  destruct (lookup_lt_is_Some_2 cs (Z.to_nat i)) as [c Hc]; [lia|].
  destruct (forest_focus R _ _ _ _ _ _ _ c Hf Hc) as (lo' & hi' & fp1 & fpc & fp2 & ls1 & lsc & ls2 & Hl & Hr & Hrr & Hfp & Hls).
  exists c, lo', hi', fp1, fpc, fp2, ls1, lsc, ls2. split; [done|].
  pose proof (lseg_bound _ _ _ _ _ _ _ Hl) as Hlb. pose proof (rseg_bound _ _ _ _ _ _ _ Hrr) as Hrb.
  split; [|split; [|done]].
  - destruct (last (take (Z.to_nat i) ks)) as [k|] eqn:Hlast; subst lo'; [|done].
    rewrite last_lookup in Hlast. apply lookup_take_Some in Hlast as [Hk Hlt]. eapply Hle; [|exact Hk].
    rewrite length_take in Hlt |- *. lia.
  - destruct (drop (Z.to_nat i) ks) as [|k rest] eqn:Hd; subst hi'; [done|]. cbn.
    apply (Hgt (Z.to_nat i)); [lia|]. rewrite <-(Nat.add_0_r (Z.to_nat i)), <-lookup_drop, Hd. done.
Qed.

(** A key within the bounds of a child is in the forest when it is in the child. *)
Lemma lseg_below lo lo' cs ks fp ls key e :
  lseg R lo lo' cs ks fp ls -> lo_le lo' key -> e ∈ ents ls -> blt e.1 key.
Proof.
  induction 1 as [|lo lo' c k cs ks fp fp' ls ls' Hc Hl IH]; intros Hlo He; [by apply not_elem_of_nil in He|].
  rewrite ents_app in He. apply elem_of_app in He as [He|He]; [|auto].
  apply HR in Hc as (_ & _ & Hf). rewrite Forall_forall in Hf. destruct (Hf _ He) as (_ & Hk & _). cbn in Hk.
  assert (lo_le (Some k) key); [|cbn in *; border]. clear IH Hf He Hk e.
  revert Hlo. induction Hl as [|lo1 lo2 c' k' cs' ks' fp1 fp1' ls1 ls1' Hc' Hl IH]; [done|]. intros Hlo. specialize (IH Hlo).
  apply HR in Hc' as (Hb & _). destruct lo1; cbn in *; [border|done].
Qed.
Lemma rseg_above hi' hi cs ks fp ls key e :
  rseg R hi' hi cs ks fp ls -> hi_lt key hi' -> e ∈ ents ls -> blt key e.1.
Proof.
  induction 1 as [|k hi1 hi c cs ks fp fp' ls ls' Hc Hr IH]; intros Hhi He; [by apply not_elem_of_nil in He|].
  apply HR in Hc as (Hb & _ & Hf). rewrite ents_app in He. apply elem_of_app in He as [He|He].
  - rewrite Forall_forall in Hf. destruct (Hf _ He) as (Hk & _). cbn in *. border.
  - apply IH; [|done]. destruct hi1; cbn in *; [border|done].
Qed.
End Bounds.

Lemma rep_in v h : forall lo hi pid fp ls, rep v h lo hi pid fp ls -> leaf_in lo hi (ents ls).
Proof.
  induction h as [|h IH]; intros lo hi pid fp ls; cbn.
  - intros (_ & n & _ & -> & Hin). by rewrite ents_one.
  - intros (n & fp' & _ & _ & _ & Hf). by eapply forest_in.
Qed.

(** The map a tree stands for. *)
Definition tmap (ls : list leafd) : gmap bytes RecordId := list_to_map (ents ls).

Lemma sorted_nodup (es : list entry) : bsorted es.*1 -> NoDup es.*1.
Proof.
  generalize es.*1 as ks. clear. induction 1 as [|k ks Hs IH Hk]; constructor; [|done].
  intros Hin. rewrite Forall_forall in Hk. by apply (blt_irrefl k), Hk.
Qed.

Lemma tree_nodup v h lo hi pid fp ls : rep v h lo hi pid fp ls -> NoDup (ents ls).*1.
Proof. intros (_ & Hs & _)%rep_in. by apply sorted_nodup. Qed.

(** ** Lookup *)

Lemma rid_at_es n i k r : leaf_wf n -> 0 <= i -> leaf_es n !! Z.to_nat i = Some (k, r) -> rid_at n i = Some r.
Proof.
  intros Hw Hi. unfold leaf_es, leaf_slots. intros [H _]%lookup_take_Some.
  apply lookup_zip_with_Some in H as (k' & r' & [= <- <-] & _ & Hr). apply list_lookup_fmap_Some in Hr as (b & -> & Hb).
  unfold rid_at. by rewrite arr_get_ok, Hb by done.
Qed.

Lemma entry_at n i key : leaf_wf n -> 0 <= i < lf_num_keys n -> (leaf_es n).*1 !! Z.to_nat i = Some key ->
  exists r, leaf_es n !! Z.to_nat i = Some (key, r) /\ rid_at n i = Some r.
Proof.
  intros Hw Hi Hk. rewrite list_lookup_fmap in Hk. destruct (leaf_es n !! Z.to_nat i) as [[k r]|] eqn:He; [|done].
  injection Hk as ->. exists r. split; [done|]. eapply rid_at_es; [done|lia|done].
Qed.

(** A search that fails: the key is not there. *)
Lemma not_in_leaf es i key : 
  (forall j k, Z.of_nat j < i -> es.*1 !! j = Some k -> blt k key) ->
  (forall j k, i <= Z.of_nat j -> es.*1 !! j = Some k -> blt key k) -> ~ key ∈ (es : list entry).*1.
Proof.
  intros Hl Hr [j Hj]%list_elem_of_lookup. destruct (decide (Z.of_nat j < i)).
  - apply (blt_irrefl key). eapply Hl; [|done]. lia.
  - apply (blt_irrefl key). eapply Hr; [|done]. lia.
Qed.

Lemma map_eq_of_mem (es es' : list entry) key :
  NoDup es.*1 -> NoDup es'.*1 -> (forall r, (key, r) ∈ es <-> (key, r) ∈ es') ->
  (list_to_map es : gmap bytes RecordId) !! key = (list_to_map es' : gmap bytes RecordId) !! key.
Proof.
  intros H1 H2 Hr. apply option_eq. intros r. rewrite <-!elem_of_list_to_map by done. apply Hr.
Qed.

Section Lookup.
Context {St : Type} {C : Crc32c} {E : StorageEngine St} {L : StorageLaws St}.

Lemma lookup_loop_spec fuel : forall (x : Io St) h lo hi pid fp ls key,
  io_wf x -> rep (vw x) h lo hi pid fp ls -> lo_le lo key -> hi_lt key hi -> (h < fuel)%nat ->
  lookup_loop fuel pid key x = Some (Ok (tmap ls !! key), x).
Proof.
  induction fuel as [|f IH]; intros x h lo hi pid fp ls key Hwf Hrep Hlo Hhi Hh; [lia|]. cbn [lookup_loop].
  pose proof (tree_nodup _ _ _ _ _ _ _ Hrep) as Hnd. destruct h as [|h]; cbn in Hrep.
  - destruct Hrep as (-> & n & (p & Hp & _ & _ & -> & Hw) & -> & Hin). unfold tmap. rewrite ents_one in *.
    unfold io_bind at 1. rewrite (io_read_ok x pid p Hwf Hp), is_leaf_page_leaf, (lw_tag _ Hw). cbn.
    destruct (search_spec _ key Hw ltac:(apply Hin)) as (r & -> & Hr). unfold io_bind, io_pure. destruct r as [i|i].
    + destruct Hr as [Hi Hk]. destruct (entry_at _ _ _ Hw Hi Hk) as (r & He & ->). unfold io_ret.
      do 3 f_equal. symmetry. apply elem_of_list_to_map; [done|]. by eapply list_elem_of_lookup_2.
    + destruct Hr as (Hi & Hb & Ha). unfold io_ret. do 3 f_equal. symmetry. apply not_elem_of_list_to_map.
      by eapply not_in_leaf.
  - destruct Hrep as (n & fp' & (p & Hp & _ & _ & -> & Hw) & Hn & -> & Hf).
    unfold io_bind at 1. rewrite (io_read_ok x pid p Hwf Hp), is_leaf_page_internal, (iw_tag _ Hw). cbn [Z.eqb].
    destruct (forest_keys _ (rep_in (vw x) h) _ _ _ _ _ _ Hf) as [Hs _].
    destruct (find_child_idx_spec _ key Hw Hs) as (i & -> & Hi & Hle & Hgt).
    destruct (forest_pick _ _ _ _ _ _ _ key i Hf Hlo Hhi) as
      (c & lo' & hi' & fp1 & fpc & fp2 & ls1 & lsc & ls2 & Hc & Hlo' & Hhi' & Hl & Hrc & Hr & -> & ->);
      [by rewrite internal_ks_length by done|done|done|].
    unfold io_bind, io_pure. rewrite (child_at_cs _ i Hw Hi), Hc.
    rewrite (IH x h lo' hi' c fpc lsc key Hwf Hrc Hlo' Hhi') by lia. do 3 f_equal. unfold tmap.
    pose proof (tree_nodup _ _ _ _ _ _ _ Hrc). apply map_eq_of_mem; [done|done|].
    intros r. rewrite !ents_app, !elem_of_app. split; [auto|]. intros [Hm|[Hm|Hm]]; [|done|].
    + pose proof (lseg_below _ (rep_in (vw x) h) _ _ _ _ _ _ key _ Hl Hlo' Hm) as Hbad. by apply blt_irrefl in Hbad.
    + pose proof (rseg_above _ (rep_in (vw x) h) _ _ _ _ _ _ key _ Hr Hhi' Hm) as Hbad. by apply blt_irrefl in Hbad.
Qed.

Lemma check_key_in key (x : Io St) : 0 < zlen key <= MAX_KEY_LEN -> check_key key x = Some (Ok tt, x).
Proof.
  intros Hk. unfold check_key. rewrite (proj2 (Z.eqb_neq _ _)), (proj2 (Z.ltb_ge _ _)) by lia. done.
Qed.

Lemma check_key_bad key (x : Io St) : ~ 0 < zlen key <= MAX_KEY_LEN ->
  check_key key x = Some (Err (KeyTooLong (zlen key) MAX_KEY_LEN), x).
Proof.
  intros Hk. unfold check_key. destruct (Z.eqb_spec (zlen key) 0), (Z.ltb_spec MAX_KEY_LEN (zlen key)); cbn; try done. lia.
Qed.
End Lookup.

(** ** The lookup theorem *)

Section LookupTheorem.
Context {St : Type} {C : Crc32c} {E : StorageEngine St} {L : StorageLaws St}.

(** C19: a lookup in a tree answers from the map that the tree's leaves stand for, on every
    key, and changes nothing; a key that is empty or longer than 64 bytes is refused.  The
    loop ends after one step per level. *)
Theorem btree_lookup_correct (x : Io St) h root fp ls key fuel :
  io_wf x -> tree_at (vw x) h root fp ls -> (h < fuel)%nat ->
  lookup_in fuel root key x =
    if decide (0 < zlen key <= MAX_KEY_LEN) then Some (Ok (tmap ls !! key), x)
    else Some (Err (KeyTooLong (zlen key) MAX_KEY_LEN), x).
Proof.
  intros Hwf (Hrep & _ & _) Hh. unfold lookup_in, io_bind. case_decide as Hk.
  - rewrite check_key_in by done. by eapply lookup_loop_spec.
  - by rewrite check_key_bad.
Qed.
End LookupTheorem.
