(* ===== verification/BTreeSplit.v ===== *)
(** * Splitting the nodes of the B+tree

    The pure part of a split: the arrays of a full node with one more entry, and the two
    nodes that are cut out of them. *)

From S2P Require Import Prelude SlotBitmap Page FreeList Storage PageIo ByteOrder BTreeNode BTree.

Lemma copy_prefix {A} (dst src : list A) from cnt :
  0 <= from -> 0 <= cnt -> cnt <= zlen dst -> from + cnt <= zlen src ->
  exists l, arr_copy dst 0 src from cnt = Some l /\ length l = length dst /\
    take (Z.to_nat cnt) l = take (Z.to_nat cnt) (drop (Z.to_nat from) src).
Proof.
  intros. eexists. split; [apply arr_copy_ok; lia|]. change (Z.to_nat 0) with O. rewrite take_0, app_nil_l.
  assert (length (take (Z.to_nat cnt) (drop (Z.to_nat from) src)) = Z.to_nat cnt) as Hl by (rewrite length_take, length_drop; lia).
  split; [rewrite length_app, Hl, length_drop; lia|]. rewrite take_app_le by lia. apply take_ge. lia.
Qed.

Lemma take_drop_take {A} (l : list A) (n m k : nat) : (m + n <= k)%nat -> take n (drop m (take k l)) = take n (drop m l).
Proof. intros. by rewrite !take_drop_commute, take_take_le. Qed.

Lemma spread_array {A} (z : A) (N : nat) (src : list A) pos cnt x :
  0 <= pos <= cnt -> cnt < Z.of_nat N -> cnt <= zlen src ->
  exists a1 a2, arr_copy (replicate N z) 0 src 0 pos = Some a1 /\ length a1 = N /\
    arr_copy (<[Z.to_nat pos := x]> a1) (pos + 1) src pos (cnt - pos) = Some a2 /\ length a2 = N /\
    take (Z.to_nat (cnt + 1)) a2 = take (Z.to_nat pos) src ++ x :: drop (Z.to_nat pos) (take (Z.to_nat cnt) src).
Proof.
  intros Hp Hc Hs. destruct (copy_prefix (replicate N z) src 0 pos) as (a1 & Ha & Ha1 & Ht); [rewrite ?length_replicate; lia..|].
  rewrite length_replicate in Ha1. exists a1. eexists. split; [done|]. split; [done|].
  split; [apply arr_copy_ok; rewrite ?length_insert; lia|].
  assert (Hpre : take (Z.to_nat (pos + 1)) (<[Z.to_nat pos := x]> a1) = take (Z.to_nat pos) src ++ [x]).
  { replace (Z.to_nat (pos + 1)) with (S (Z.to_nat pos)) by lia.
    rewrite (take_S_r _ _ x) by (apply list_lookup_insert_eq; lia). f_equal. by rewrite take_insert_past, Ht by lia. }
  rewrite Hpre. split.
  - rewrite !length_app, !length_take, !length_drop, length_insert. cbn [length]. lia.
  - rewrite app_assoc. rewrite take_app_le by (rewrite !length_app, !length_take, !length_drop; cbn [length]; lia).
    rewrite take_ge by (rewrite !length_app, !length_take, !length_drop; cbn [length]; lia).
    rewrite <-app_assoc. cbn [app]. do 2 f_equal. rewrite take_drop_commute. do 2 f_equal. lia.
Qed.

(** The same by shifting in place. *)
Lemma spread_array_within {A} (z : A) (N : nat) (src : list A) pos cnt x :
  0 <= pos <= cnt -> cnt < Z.of_nat N -> cnt <= zlen src ->
  exists a1 a2, arr_copy (replicate N z) 0 src 0 cnt = Some a1 /\ length a1 = N /\
    arr_copy a1 (pos + 1) a1 pos (cnt - pos) = Some a2 /\ length a2 = N /\
    take (Z.to_nat (cnt + 1)) (<[Z.to_nat pos := x]> a2) =
      take (Z.to_nat pos) src ++ x :: drop (Z.to_nat pos) (take (Z.to_nat cnt) src).
Proof.
  intros Hp Hc Hs. destruct (copy_prefix (replicate N z) src 0 cnt) as (a1 & Ha & Ha1 & Ht); [rewrite ?length_replicate; lia..|].
  rewrite length_replicate in Ha1. change (Z.to_nat 0) with O in Ht. rewrite drop_0 in Ht.
  assert (exists a2, arr_copy a1 (pos + 1) a1 pos (cnt - pos) = Some a2) as [a2 Ha2].
  { eexists. apply arr_copy_ok; lia. }
  pose proof (arr_copy_length _ _ _ _ _ _ Ha2) as Hl2. exists a1, a2. split; [done|]. split; [done|].
  split; [done|]. split; [lia|]. pose proof (fun j => arr_copy_lookup _ _ _ _ _ _ j Ha2) as Hj.
  assert (Hsrc : forall j, (j < Z.to_nat cnt)%nat -> a1 !! j = src !! j).
  { intros j Hlt. rewrite <-(lookup_take_lt a1 (Z.to_nat cnt)), Ht by done. by apply lookup_take_lt. }
  apply list_eq. intros j. destruct (decide (j < Z.to_nat (cnt + 1))%nat) as [Hlt|Hge].
  - rewrite lookup_take_lt by done. destruct (decide (j = Z.to_nat pos)) as [->|Hne].
    + rewrite list_lookup_insert_eq by lia. rewrite lookup_app_r by (rewrite length_take; lia).
      rewrite length_take. by replace (Z.to_nat pos - _)%nat with O by lia.
    + rewrite list_lookup_insert_ne by done. rewrite Hj. case_decide as Hd.
      * rewrite Hsrc by lia. rewrite lookup_app_r by (rewrite length_take; lia). rewrite length_take.
        replace (j - _ `min` _)%nat with (S (j - Z.to_nat pos - 1)) by lia.
        rewrite lookup_cons, lookup_drop, lookup_take_lt by lia. f_equal. lia.
      * rewrite Hsrc by lia. rewrite lookup_app_l by (rewrite length_take; lia). by rewrite lookup_take_lt by lia.
  - rewrite !lookup_ge_None_2; [done| |]; rewrite ?length_app, ?length_take, ?length_insert; cbn [length];
      rewrite ?length_drop, ?length_take; lia.
Qed.

(** ** Leaves *)

(** The arrays hold the entries [es]. *)
Record arr_leaf (a : list Z * list bytes * list bytes) (es : list (bytes * RecordId)) : Prop := {
  al_lens : length a.1.1 = 218%nat;
  al_keys : length a.1.2 = 218%nat;
  al_rids : length a.2 = 218%nat;
  al_lens_ok : bytes_ok a.1.1;
  al_keys_ok : Forall (array_of MAX_KEY_LEN) a.1.2;
  al_rids_ok : Forall (array_of 10) a.2;
  al_count : (length es <= 218)%nat;
  al_max : Forall (fun l => l <= MAX_KEY_LEN) (take (length es) a.1.1);
  al_es : take (length es) (zip (pack a.1.1 a.1.2) (decode_rid <$> a.2)) = es
}.

Lemma take_Forall_mid {A} (P : A -> Prop) (l : list A) (pos cnt : nat) x :
  Forall P (take cnt l) -> P x -> (pos <= cnt)%nat -> Forall P (take pos l ++ x :: drop pos (take cnt l)).
Proof.
  intros Hf Hx Hp. apply Forall_app. split.
  - rewrite <-(take_take_le l pos cnt) by done. by apply Forall_take.
  - constructor; [done|by apply Forall_drop].
Qed.

Lemma spread_leaf_spec node pos key rid :
  leaf_wf node -> 0 <= pos <= lf_num_keys node -> zlen key <= MAX_KEY_LEN -> bytes_ok key -> rid_ok rid ->
  exists a, spread_leaf node pos key rid = Some a /\
    arr_leaf a (take (Z.to_nat pos) (leaf_es node) ++ (key, rid) :: drop (Z.to_nat pos) (leaf_es node)).
Proof.
  intros Hw Hp Hk Hkb Hr. pose proof Hw as [Hs _ Hn Hl]. destruct (ls_lens _ Hs) as [Hll Hlb].
  pose proof (ls_rids_len _ Hs) as Hrl. pose proof (ls_keys_len _ Hs) as Hkl.
  set (cnt := lf_num_keys node) in *.
  set (kk := key ++ replicate (Z.to_nat (MAX_KEY_LEN - zlen key)) 0).
  destruct (spread_array 0 218 (lf_key_lens node) pos cnt (wrap8 (zlen key))) as (l1 & l2 & Hl1 & Hl1l & Hl2 & Hl2l & Hlt); [sizes..|].
  destruct (spread_array (replicate 64 0) 218 (lf_keys node) pos cnt kk) as (k1 & k2 & Hk1 & Hk1l & Hk2 & Hk2l & Hkt); [sizes..|].
  destruct (spread_array (replicate 10 0) 218 (lf_rids node) pos cnt (encode_rid rid)) as (r1 & r2 & Hr1 & Hr1l & Hr2 & Hr2l & Hrt); [sizes..|].
  assert (wrap8 (zlen key) = zlen key) as Hw8 by (unfold wrap8; rewrite Z.mod_small; sizes).
  exists (l2, k2, r2). split.
  { unfold spread_leaf. fold cnt. rewrite Hl1, Hk1, Hr1. unfold put_key. rewrite (proj2 (Z.ltb_ge _ _)) by lia.
    rewrite !arr_set_ok by sizes. cbn [fst snd]. unfold kk in Hk2. by rewrite Hl2, Hk2, Hr2. }
  pose proof (leaf_es_length node Hw) as Hel. fold cnt in Hel. set (es' := take _ (leaf_es node) ++ _).
  assert (length es' = Z.to_nat (cnt + 1)) as Hes.
  { unfold es'. rewrite length_app, length_take. cbn [length]. rewrite length_drop. lia. }
  split; cbn [fst snd]; try done.
  - eapply arr_copy_Forall; [exact Hl2| |done]. apply Forall_insert; [|rewrite Hw8; unfold byte_ok; sizes].
    eapply arr_copy_Forall; [exact Hl1| |done]. apply Forall_replicate. unfold byte_ok. lia.
  - eapply arr_copy_Forall; [exact Hk2| |apply Hs]. apply Forall_insert.
    + eapply arr_copy_Forall; [exact Hk1| |apply Hs]. apply Forall_replicate, (zeros_array 64).
    + split; [unfold kk; rewrite length_app, length_replicate; sizes|]. apply bytes_ok_app; [done|].
      apply Forall_replicate. unfold byte_ok. lia.
  - eapply arr_copy_Forall; [exact Hr2| |apply Hs]. apply Forall_insert; [|apply encode_rid_array].
    eapply arr_copy_Forall; [exact Hr1| |apply Hs]. apply Forall_replicate, (zeros_array 10).
  - sizes.
  - rewrite Hes, Hlt. apply take_Forall_mid; [done|rewrite Hw8; lia|lia].
  - rewrite Hes, zip_with_take, pack_take, <-fmap_take, Hlt, Hkt, Hrt. unfold es'. rewrite leaf_es_zip. fold cnt.
    rewrite <-(take_take_le (lf_rids node) (Z.to_nat pos) (Z.to_nat cnt)) by lia.
    rewrite fmap_app, fmap_cons, fmap_take, fmap_drop, decode_encode_rid by done.
    rewrite <-zip_insert_mid; [|rewrite length_fmap, !length_take; unfold pack; rewrite length_zip_with; lia|
      rewrite length_take; unfold pack; rewrite length_zip_with; lia]. f_equal.
    rewrite pack_split by (rewrite !length_take; lia). rewrite take_take_le by lia. rewrite pack_take. f_equal.
    unfold pack at 1. cbn [zip_with]. f_equal.
    + rewrite Hw8, Nat2Z.id. unfold kk. apply take_app_length.
    + rewrite pack_take. symmetry. apply zip_with_drop.
Qed.

(** The separator is the first key of the right part. *)
Lemma arr_leaf_key a es i k r : arr_leaf a es -> 0 <= i -> es !! Z.to_nat i = Some (k, r) -> slot_key a.1.1 a.1.2 i = Some k.
Proof.
  intros Ha Hi He. pose proof (lookup_lt_Some _ _ _ He) as Hlt. rewrite <-(al_es _ _ Ha) in He.
  apply lookup_take_Some in He as [He _]. apply lookup_zip_with_Some in He as (k' & r' & [= <- <-] & Hk & _).
  apply lookup_zip_with_Some in Hk as (len & kk & -> & Hlen & Hkk).
  unfold slot_key. rewrite !arr_get_ok, Hlen, Hkk by done.
  pose proof (Forall_lookup_1 _ _ _ _ (al_keys_ok _ _ Ha) Hkk) as [Hz _].
  assert (len <= MAX_KEY_LEN) as Hle.
  { apply (Forall_lookup_1 _ _ (Z.to_nat i) _ (al_max _ _ Ha)). by rewrite lookup_take_lt by lia. }
  by rewrite (proj2 (Z.leb_le _ _)) by lia.
Qed.

Section Parts.
Context {C : Crc32c} {CR : Crc32cRange C}.

Lemma leaf_part_spec pid a es from cnt next :
  in_u64 pid -> arr_leaf a es -> 0 <= from -> 0 <= cnt <= ORDER_LEAF -> from + cnt <= zlen es -> in_u64 next ->
  exists n, leaf_part (page_new PtIndex pid) a from cnt next = Some (put_leaf (page_new PtIndex pid) n) /\
    leaf_wf n /\ lf_next_leaf n = next /\ leaf_es n = take (Z.to_nat cnt) (drop (Z.to_nat from) es).
Proof.
  intros Hpid Ha Hf Hc Hle Hnx. unfold leaf_part. rewrite cast_leaf_new by done.
  cbn [set_next_leaf leaf_set_num_keys leaf_set_is_leaf leaf_zeroed lf_is_leaf lf_pad0 lf_num_keys lf_pad1 lf_next_leaf lf_key_lens lf_rids lf_keys].
  pose proof (al_count _ _ Ha). pose proof (al_lens _ _ Ha). pose proof (al_keys _ _ Ha). pose proof (al_rids _ _ Ha).
  assert (wrap16 cnt = cnt) as Hw16 by (unfold wrap16; rewrite Z.mod_small; sizes).
  destruct (copy_prefix (replicate 217 0) a.1.1 from cnt) as (lens & Hl1 & Hl2 & Hl3); [rewrite ?length_replicate; sizes..|].
  destruct (copy_prefix (replicate 217 (replicate 64 0)) a.1.2 from cnt) as (keys & Hk1 & Hk2 & Hk3); [rewrite ?length_replicate; sizes..|].
  destruct (copy_prefix (replicate 217 (replicate 10 0)) a.2 from cnt) as (rids & Hr1 & Hr2 & Hr3); [rewrite ?length_replicate; sizes..|].
  rewrite Hl1, Hk1, Hr1. eexists. split; [done|].
  rewrite length_replicate in Hl2. rewrite length_replicate in Hk2. rewrite length_replicate in Hr2. split; [|split; [done|]].
  - split; cbn; rewrite ?Hw16; [|done|lia|].
    + split; cbn; rewrite ?Hw16.
      * unfold in_u8. lia.
      * unfold in_u8. lia.
      * unfold in_u16. sizes.
      * apply (zeros_array 4).
      * done.
      * split; [rewrite Hl2; sizes|]. eapply arr_copy_Forall; [exact Hl1| |apply Ha]. apply Forall_replicate. unfold byte_ok. lia.
      * rewrite Hr2. sizes.
      * eapply arr_copy_Forall; [exact Hr1| |apply Ha]. apply Forall_replicate, (zeros_array 10).
      * rewrite Hk2. sizes.
      * eapply arr_copy_Forall; [exact Hk1| |apply Ha]. apply Forall_replicate, (zeros_array 64).
    + rewrite Hl3. rewrite take_drop_commute. apply Forall_drop.
      rewrite <-(take_take_le a.1.1 _ (length es)) by lia. apply Forall_take, Ha.
  - rewrite leaf_es_zip. cbn [leaf_set_arrays set_next_leaf leaf_set_num_keys leaf_set_is_leaf lf_num_keys lf_key_lens lf_keys lf_rids].
    rewrite Hw16, pack_take, Hl3, Hk3, Hr3.
    rewrite <-(al_es _ _ Ha) at 1. rewrite take_drop_take by lia.
    rewrite zip_with_drop, zip_with_take. unfold pack. rewrite zip_with_drop, zip_with_take.
    by rewrite fmap_take, fmap_drop.
Qed.

(** ** Internal nodes *)

Record arr_internal (a : list Z * list bytes * list Z) (ks : list bytes) (cs : list Z) : Prop := {
  ai_lens : length a.1.1 = 224%nat;
  ai_keys : length a.1.2 = 224%nat;
  ai_children : length a.2 = 225%nat;
  ai_lens_ok : bytes_ok a.1.1;
  ai_keys_ok : Forall (array_of MAX_KEY_LEN) a.1.2;
  ai_children_ok : Forall in_u64 a.2;
  ai_count : (length ks <= 224)%nat;
  ai_same : length cs = S (length ks);
  ai_max : Forall (fun l => l <= MAX_KEY_LEN) (take (length ks) a.1.1);
  ai_ks : take (length ks) (pack a.1.1 a.1.2) = ks;
  ai_cs : take (length cs) a.2 = cs
}.

Lemma spread_internal_spec node idx sep right :
  internal_wf node -> 0 <= idx <= in_num_keys node -> zlen sep <= MAX_KEY_LEN -> bytes_ok sep -> in_u64 right ->
  exists a, spread_internal node idx sep right = Some a /\
    arr_internal a (take (Z.to_nat idx) (internal_ks node) ++ sep :: drop (Z.to_nat idx) (internal_ks node))
      (take (S (Z.to_nat idx)) (internal_cs node) ++ right :: drop (S (Z.to_nat idx)) (internal_cs node)).
Proof.
  intros Hw Hp Hk Hkb Hr. pose proof Hw as [Hs _ Hn Hl]. destruct (is_lens _ Hs) as [Hll Hlb].
  pose proof (is_children_len _ Hs) as Hcl. pose proof (is_keys_len _ Hs) as Hkl. destruct (is_num _ Hs) as [Hn0 _].
  pose proof (internal_ks_length _ Hw) as Hksl. pose proof (internal_cs_length _ Hw) as Hcsl.
  set (n := in_num_keys node) in *.
  set (kk := sep ++ replicate (Z.to_nat (MAX_KEY_LEN - zlen sep)) 0).
  destruct (spread_array_within 0 224 (in_key_lens node) idx n (wrap8 (zlen sep))) as (l1 & l2 & Hl1 & Hl1l & Hl2 & Hl2l & Hlt); [sizes..|].
  destruct (spread_array_within (replicate 64 0) 224 (in_keys node) idx n kk) as (k1 & k2 & Hk1 & Hk1l & Hk2 & Hk2l & Hkt); [sizes..|].
  destruct (spread_array_within 0 225 (in_children node) (idx + 1) (n + 1) right) as (c1 & c2 & Hc1 & Hc1l & Hc2 & Hc2l & Hct); [sizes..|].
  replace (idx + 1 + 1) with (idx + 2) in Hc2 by lia. replace (n + 1 - (idx + 1)) with (n - idx) in Hc2 by lia.
  assert (wrap8 (zlen sep) = zlen sep) as Hw8 by (unfold wrap8; rewrite Z.mod_small; sizes).
  exists (<[Z.to_nat idx := wrap8 (zlen sep)]> l2, <[Z.to_nat idx := kk]> k2, <[Z.to_nat (idx + 1) := right]> c2). split.
  { unfold spread_internal. fold n. rewrite Hl1, Hk1, Hc1, Hl2, Hk2, Hc2. unfold put_key. rewrite (proj2 (Z.ltb_ge _ _)) by lia.
    rewrite !arr_set_ok by sizes. done. }
  set (ks' := take _ (internal_ks node) ++ _). set (cs' := take _ (internal_cs node) ++ _).
  assert (length ks' = Z.to_nat (n + 1)) as Hes by (unfold ks'; rewrite length_app, length_take; cbn [length]; rewrite length_drop; lia).
  assert (length cs' = Z.to_nat (n + 1 + 1)) as Hcs by (unfold cs'; rewrite length_app, length_take; cbn [length]; rewrite length_drop; lia).
  split; cbn [fst snd]; rewrite ?length_insert; try done.
  - apply Forall_insert; [|rewrite Hw8; unfold byte_ok; sizes]. eapply arr_copy_Forall; [exact Hl2|..];
      (eapply arr_copy_Forall; [exact Hl1| |done]); apply Forall_replicate; unfold byte_ok; lia.
  - apply Forall_insert.
    + eapply arr_copy_Forall; [exact Hk2|..]; (eapply arr_copy_Forall; [exact Hk1| |apply Hs]); apply Forall_replicate, (zeros_array 64).
    + split; [unfold kk; rewrite length_app, length_replicate; sizes|]. apply bytes_ok_app; [done|].
      apply Forall_replicate. unfold byte_ok. lia.
  - apply Forall_insert; [|done].
    eapply arr_copy_Forall; [exact Hc2|..]; (eapply arr_copy_Forall; [exact Hc1| |apply Hs]); apply Forall_replicate; widths.
  - sizes.
  - lia.
  - rewrite Hes, Hlt. apply take_Forall_mid; [done|rewrite Hw8; lia|lia].
  - rewrite Hes, pack_take, Hlt, Hkt. rewrite pack_split by (rewrite !length_take; lia). unfold ks', internal_ks. fold n.
    rewrite take_take_le, pack_take by lia. f_equal. unfold pack at 1. cbn [zip_with]. f_equal.
    + rewrite Hw8, Nat2Z.id. unfold kk. apply take_app_length.
    + rewrite pack_take. symmetry. apply zip_with_drop.
  - rewrite Hcs, Hct. unfold cs', internal_cs. fold n. replace (Z.to_nat (idx + 1)) with (S (Z.to_nat idx)) by lia.
    by rewrite take_take_le by lia.
Qed.

Lemma arr_internal_key a ks cs i k : arr_internal a ks cs -> 0 <= i -> ks !! Z.to_nat i = Some k -> slot_key a.1.1 a.1.2 i = Some k.
Proof.
  intros Ha Hi He. pose proof (lookup_lt_Some _ _ _ He) as Hlt. rewrite <-(ai_ks _ _ _ Ha) in He.
  apply lookup_take_Some in He as [He _]. apply lookup_zip_with_Some in He as (len & kk & -> & Hlen & Hkk).
  unfold slot_key. rewrite !arr_get_ok, Hlen, Hkk by done.
  pose proof (Forall_lookup_1 _ _ _ _ (ai_keys_ok _ _ _ Ha) Hkk) as [Hz _].
  assert (len <= MAX_KEY_LEN) as Hle.
  { apply (Forall_lookup_1 _ _ (Z.to_nat i) _ (ai_max _ _ _ Ha)). by rewrite lookup_take_lt by lia. }
  by rewrite (proj2 (Z.leb_le _ _)) by lia.
Qed.

Lemma internal_part_spec pid a ks cs from cnt :
  in_u64 pid -> arr_internal a ks cs -> 0 <= from -> 0 <= cnt <= ORDER_INTERNAL -> from + cnt <= zlen ks ->
  exists n, internal_part (page_new PtIndex pid) a from cnt = Some (put_internal (page_new PtIndex pid) n) /\
    internal_wf n /\ in_num_keys n = cnt /\
    internal_ks n = take (Z.to_nat cnt) (drop (Z.to_nat from) ks) /\
    internal_cs n = take (S (Z.to_nat cnt)) (drop (Z.to_nat from) cs).
Proof.
  intros Hpid Ha Hf Hc Hle. unfold internal_part. rewrite cast_internal_new by done.
  cbn [internal_set_num_keys internal_zeroed in_is_leaf in_pad0 in_num_keys in_pad1 in_key_lens in_children in_keys].
  pose proof (ai_count _ _ _ Ha). pose proof (ai_lens _ _ _ Ha). pose proof (ai_keys _ _ _ Ha). pose proof (ai_children _ _ _ Ha).
  pose proof (ai_same _ _ _ Ha).
  assert (wrap16 cnt = cnt) as Hw16 by (unfold wrap16; rewrite Z.mod_small; sizes).
  destruct (copy_prefix (replicate 223 0) a.1.1 from cnt) as (lens & Hl1 & Hl2 & Hl3); [rewrite ?length_replicate; sizes..|].
  destruct (copy_prefix (replicate 223 (replicate 64 0)) a.1.2 from cnt) as (keys & Hk1 & Hk2 & Hk3); [rewrite ?length_replicate; sizes..|].
  destruct (copy_prefix (replicate 224 0) a.2 from (cnt + 1)) as (ch & Hr1 & Hr2 & Hr3); [rewrite ?length_replicate; sizes..|].
  rewrite Hl1, Hk1, Hr1. eexists. split; [done|].
  rewrite length_replicate in Hl2. rewrite length_replicate in Hk2. rewrite length_replicate in Hr2.
  split; [|split; [by cbn; rewrite Hw16|split]].
  - split; cbn; rewrite ?Hw16; [|done|lia|].
    + split; cbn; rewrite ?Hw16.
      * unfold in_u8. lia.
      * unfold in_u8. lia.
      * unfold in_u16. sizes.
      * apply (zeros_array 4).
      * split; [rewrite Hl2; sizes|]. eapply arr_copy_Forall; [exact Hl1| |apply Ha]. apply Forall_replicate. unfold byte_ok. lia.
      * rewrite Hr2. sizes.
      * eapply arr_copy_Forall; [exact Hr1| |apply Ha]. apply Forall_replicate. widths.
      * rewrite Hk2. sizes.
      * eapply arr_copy_Forall; [exact Hk1| |apply Ha]. apply Forall_replicate, (zeros_array 64).
    + rewrite Hl3. rewrite take_drop_commute. apply Forall_drop.
      rewrite <-(take_take_le a.1.1 _ (length ks)) by lia. apply Forall_take, Ha.
  - unfold internal_ks. cbn [internal_set_arrays internal_set_num_keys in_num_keys in_key_lens in_keys in_children].
    rewrite Hw16, pack_take, Hl3, Hk3. rewrite <-(ai_ks _ _ _ Ha) at 1. rewrite take_drop_take by lia.
    unfold pack. by rewrite zip_with_drop, zip_with_take.
  - unfold internal_cs. cbn [internal_set_arrays internal_set_num_keys in_num_keys in_key_lens in_keys in_children].
    rewrite Hw16, Hr3. rewrite <-(ai_cs _ _ _ Ha) at 1. replace (Z.to_nat (cnt + 1)) with (S (Z.to_nat cnt)) by lia.
    by rewrite take_drop_take by lia.
Qed.
End Parts.
