(* ===== verification/BTreeStep.v ===== *)
(** * Steps on the nodes of a tree

    What the writes of nodes do to the pages, the links between the leaves, how the
    entries of a leaf change, and the leaf that a descent finds: the parts that insertion
    and deletion share. *)

From S2P Require Import Prelude SlotBitmap Page FreeList Storage PageIo ByteOrder BTreeNode BTree BTreeRep.

(** ** Links between leaves *)

Definition first_pid (ls : list leafd) (z : Z) : Z := match ls with [] => z | l :: _ => ld_pid l end.

(** Each leaf points at the next one, and the last one at [z]. *)
Fixpoint chain (ls : list leafd) (z : Z) : Prop :=
  match ls with
  | [] => True
  | l :: rest => ld_next l = first_pid rest z /\ chain rest z
  end.

Definition link (l : leafd) : Z * Z := (ld_pid l, ld_next l).

Lemma first_pid_app a b z : first_pid (a ++ b) z = first_pid a (first_pid b z).
Proof. by destruct a. Qed.

Lemma chain_app a b z : chain (a ++ b) z <-> chain a (first_pid b z) /\ chain b z.
Proof.
  induction a as [|l a IH]; [cbn; tauto|]. cbn. rewrite IH, first_pid_app. tauto.
Qed.

Lemma first_pid_links a b z : link <$> a = link <$> b -> first_pid a z = first_pid b z.
Proof. by destruct a, b; cbn; intros [=]. Qed.

Lemma chain_links a : forall b z, link <$> a = link <$> b -> chain a z -> chain b z.
Proof.
  induction a as [|l a IH]; intros [|m b] z; try done. cbn. intros [= Hp Hn Hr] [H1 H2].
  split; [by rewrite <-Hn, H1; apply first_pid_links|by apply IH].
Qed.

(** ** The entries of a leaf *)

Lemma leaf_in_insert lo hi es i key rid :
  leaf_in lo hi es -> lo_le lo key -> hi_lt key hi -> 0 < zlen key ->
  (forall j k, Z.of_nat j < i -> es.*1 !! j = Some k -> blt k key) ->
  (forall j k, i <= Z.of_nat j -> es.*1 !! j = Some k -> blt key k) -> 0 <= i ->
  leaf_in lo hi (take (Z.to_nat i) es ++ (key, rid) :: drop (Z.to_nat i) es).
Proof.
  intros (Hb & Hs & Hf) Hlo Hhi Hk Hlt Hgt Hi. split; [done|].
  assert (Ha : forall k, k ∈ (take (Z.to_nat i) es).*1 -> blt k key).
  { intros k [j Hj]%list_elem_of_lookup. rewrite fmap_take in Hj. apply lookup_take_Some in Hj as [Hj ?]. eapply Hlt; [|done]. lia. }
  assert (Hc : forall k, k ∈ (drop (Z.to_nat i) es).*1 -> blt key k).
  { intros k [j Hj]%list_elem_of_lookup. rewrite fmap_drop, lookup_drop in Hj. eapply Hgt; [|done]. lia. }
  split.
  - rewrite <-(take_drop (Z.to_nat i) es), fmap_app in Hs. apply StronglySorted_app in Hs as (H1 & H2 & H3).
    rewrite fmap_app, fmap_cons. apply StronglySorted_app. split; [|split; [done|]].
    + intros a b Ha' Hb'. apply elem_of_cons in Hb' as [->|Hb']; [by apply Ha|]. by apply H1.
    + constructor; [done|]. apply Forall_forall. apply Hc.
  - apply Forall_app. split; [by apply Forall_take|]. constructor; [done|by apply Forall_drop].
Qed.

Lemma insert_mid_perm {A} (l : list A) (i : nat) x : take i l ++ x :: drop i l ≡ₚ x :: l.
Proof. rewrite <-Permutation_middle. by rewrite take_drop. Qed.

Lemma leaf_in_split lo hi es (m : nat) k r :
  leaf_in lo hi es -> es !! m = Some (k, r) -> (0 < m)%nat ->
  leaf_in lo (Some k) (take m es) /\ leaf_in (Some k) hi (drop m es).
Proof.
  intros (Hb & Hs & Hf) Hm Hpos.
  assert (Hlt : forall e, e ∈ take m es -> blt e.1 k).
  { intros e [j Hj]%list_elem_of_lookup. apply lookup_take_Some in Hj as [Hj Hlt].
    apply (bsorted_lookup es.*1 j m); [done|lia|by rewrite list_lookup_fmap, Hj|by rewrite list_lookup_fmap, Hm]. }
  assert (Hge : forall e, e ∈ drop m es -> ble k e.1).
  { intros e [j Hj]%list_elem_of_lookup. rewrite lookup_drop in Hj. destruct j as [|j].
    - rewrite Nat.add_0_r, Hm in Hj. injection Hj as <-. cbn. border.
    - assert (blt k e.1); [|border].
      apply (bsorted_lookup es.*1 m (m + S j)); [done|lia|by rewrite list_lookup_fmap, Hm|by rewrite list_lookup_fmap, Hj]. }
  rewrite Forall_forall in Hf. pose proof (Hf _ (list_elem_of_lookup_2 _ _ _ Hm)) as (Hlk & Hkh & _). cbn in Hlk, Hkh.
  rewrite <-(take_drop m es), fmap_app in Hs. apply StronglySorted_app in Hs as (_ & Hs1 & Hs2).
  split; split.
  - destruct es as [|e es]; [done|]. destruct m as [|m]; [lia|]. specialize (Hlt e ltac:(cbn; left)).
    destruct (Hf e ltac:(left)) as (He & _). destruct lo; cbn in *; [border|done].
  - split; [done|]. apply Forall_forall. intros e He. destruct (Hf e (subseteq_take _ _ _ He)) as (H1 & _ & H3).
    split; [done|]. split; [by apply Hlt|done].
  - by destruct hi.
  - split; [done|]. apply Forall_forall. intros e He. destruct (Hf e (subseteq_drop _ _ _ He)) as (_ & H2 & H3).
    split; [by apply Hge|done].
Qed.

Lemma leaf_in_remove lo hi es (i : nat) : leaf_in lo hi es -> leaf_in lo hi (take i es ++ drop (S i) es).
Proof.
  intros (Hb & Hs & Hf). split; [done|]. split.
  - rewrite fmap_app, fmap_take, fmap_drop. rewrite <-(take_drop i es.*1) in Hs. apply StronglySorted_app in Hs as (H1 & H2 & H3).
    assert (Hsub : forall k, k ∈ drop (S i) es.*1 -> k ∈ drop i es.*1).
    { intros k Hk. rewrite <-Nat.add_1_r, <-drop_drop in Hk. by eapply subseteq_drop. }
    apply StronglySorted_app. split; [intros a b Ha Hb'; apply H1; auto|]. split; [done|].
    rewrite <-Nat.add_1_r, <-drop_drop. destruct (drop i es.*1); [constructor|]. cbn [drop]. rewrite drop_0. by apply StronglySorted_cons in H3 as [_ ?].
  - apply Forall_app. split; [by apply Forall_take|by apply Forall_drop].
Qed.

(** ** Pages of nodes *)

Section Pages.
Context {C : Crc32c} {CR : Crc32cRange C}.

Lemma cast_updated_leaf p : page_ok p -> cast_leaf (update_checksum p) = cast_leaf p.
Proof. intros Hp. unfold cast_leaf. by rewrite update_checksum_body. Qed.
Lemma cast_updated_internal p : page_ok p -> cast_internal (update_checksum p) = cast_internal p.
Proof. intros Hp. unfold cast_internal. by rewrite update_checksum_body. Qed.

Lemma put_leaf_at v pid p n :
  page_ok p -> hdr_magic p = PAGE_MAGIC -> leaf_wf n -> v pid = Some (update_checksum (put_leaf p n)) -> leaf_at v pid n.
Proof.
  intros Hp Hm Hw Hv. pose proof (put_leaf_page_ok p n Hp (lw_sized n Hw)) as Hok.
  eexists. split; [exact Hv|]. split; [by apply update_checksum_ok|].
  rewrite updated_magic, cast_updated_leaf, cast_put_leaf by (done || apply Hw).
  split; [unfold put_leaf; by rewrite put_node_magic|done].
Qed.
Lemma put_internal_at v pid p n :
  page_ok p -> hdr_magic p = PAGE_MAGIC -> internal_wf n -> v pid = Some (update_checksum (put_internal p n)) -> internal_at v pid n.
Proof.
  intros Hp Hm Hw Hv. pose proof (put_internal_page_ok p n Hp (iw_sized n Hw)) as Hok.
  eexists. split; [exact Hv|]. split; [by apply update_checksum_ok|].
  rewrite updated_magic, cast_updated_internal, cast_put_internal by (done || apply Hw).
  split; [unfold put_internal; by rewrite put_node_magic|done].
Qed.

Lemma page_new_ok i : in_u64 i -> page_ok (page_new PtIndex i) /\ hdr_magic (page_new PtIndex i) = PAGE_MAGIC.
Proof. intros Hi. destruct (page_new_fields PtIndex i) as (H1 & H2 & _); [done|]. done. Qed.
End Pages.

Lemma page_num_u64 i : page_num i -> in_u64 i.
Proof. unfold page_num. widths. Qed.

Lemma leaf_at_frame v v' pid n : leaf_at v pid n -> v' pid = v pid -> leaf_at v' pid n.
Proof. intros (p & Hp & H) Hv. exists p. by rewrite Hv. Qed.
Lemma internal_at_frame v v' pid n : internal_at v pid n -> v' pid = v pid -> internal_at v' pid n.
Proof. intros (p & Hp & H) Hv. exists p. by rewrite Hv. Qed.

(** The pages of a tree are in use. *)
Lemma lseg_in_use (v : Z -> option Page) (R : option bytes -> option bytes -> Z -> list Z -> list leafd -> Prop) lo lo' cs ks fp ls :
  (forall a b c f l, R a b c f l -> forall j, j ∈ f -> is_Some (v j)) ->
  lseg R lo lo' cs ks fp ls -> forall j, j ∈ fp -> is_Some (v j).
Proof. intros HR. induction 1; intros j Hj; [set_solver|]. apply elem_of_app in Hj as [Hj|Hj]; eauto. Qed.
Lemma rseg_in_use (v : Z -> option Page) (R : option bytes -> option bytes -> Z -> list Z -> list leafd -> Prop) hi' hi cs ks fp ls :
  (forall a b c f l, R a b c f l -> forall j, j ∈ f -> is_Some (v j)) ->
  rseg R hi' hi cs ks fp ls -> forall j, j ∈ fp -> is_Some (v j).
Proof. intros HR. induction 1; intros j Hj; [set_solver|]. apply elem_of_app in Hj as [Hj|Hj]; eauto. Qed.

Lemma rep_in_use v h : forall lo hi pid fp ls, rep v h lo hi pid fp ls -> forall j, j ∈ fp -> is_Some (v j).
Proof.
  induction h as [|h IH]; intros lo hi pid fp ls; cbn.
  - intros (-> & n & (p & Hp & _) & _) j ->%list_elem_of_singleton. by eexists.
  - intros (n & fp' & (p & Hp & _) & _ & -> & Hf) j Hj. apply elem_of_cons in Hj as [->|Hj]; [by eexists|].
    destruct Hf as [lo0 hi1 hi0 c cs ks fp1 fp2 ls1 ls2 Hc Hr]. apply elem_of_app in Hj as [Hj|Hj]; [by eapply IH|].
    by eapply rseg_in_use.
Qed.

(** ** The leaf of a key *)

Section FindLeaf.
Context {St : Type} {C : Crc32c} {E : StorageEngine St} {L : StorageLaws St}.

(** [c] is the leaf of [key], and the tree follows any change of it. *)
Definition key_leaf (v : Z -> option Page) (h : nat) (lo hi : option bytes) (pid : Z) (fp : list Z) (ls : list leafd)
    (key : bytes) (c : Z) : Prop :=
  exists lo' hi' n ls1 ls2, c ∈ fp /\ leaf_at v c n /\ ls = ls1 ++ mkLd c (lf_next_leaf n) (leaf_es n) :: ls2 /\
    leaf_in lo' hi' (leaf_es n) /\ lo_le lo' key /\ hi_lt key hi' /\
    (forall e, e ∈ ents ls1 -> blt e.1 key) /\ (forall e, e ∈ ents ls2 -> blt key e.1) /\
    forall v' n', (forall j, j ∈ fp -> j ≠ c -> v' j = v j) -> leaf_at v' c n' -> leaf_in lo' hi' (leaf_es n') ->
      rep v' h lo hi pid fp (ls1 ++ mkLd c (lf_next_leaf n') (leaf_es n') :: ls2).

Lemma key_leaf_up v h lo hi pid n fp1 fp2 ls1 ls2 lo' hi' c fpc lsc key i leaf :
  internal_at v pid n -> 1 <= in_num_keys n -> NoDup (pid :: fp1 ++ fpc ++ fp2) ->
  internal_cs n !! Z.to_nat i = Some c -> lo_le lo' key -> hi_lt key hi' ->
  lseg (rep v h) lo lo' (take (Z.to_nat i) (internal_cs n)) (take (Z.to_nat i) (internal_ks n)) fp1 ls1 ->
  rseg (rep v h) hi' hi (drop (S (Z.to_nat i)) (internal_cs n)) (drop (Z.to_nat i) (internal_ks n)) fp2 ls2 ->
  key_leaf v h lo' hi' c fpc lsc key leaf ->
  key_leaf v (S h) lo hi pid (pid :: fp1 ++ fpc ++ fp2) (ls1 ++ lsc ++ ls2) key leaf.
Proof.
  intros Hn Hnk Hnd Hc Hlo Hhi Hl Hr (lo2 & hi2 & n2 & lsa & lsb & Hin & Hat & -> & Hli & Hlo2 & Hhi2 & Hb & Ha & Hup).
  exists lo2, hi2, n2, (ls1 ++ lsa), (lsb ++ ls2). split; [set_solver|]. split; [done|].
  split; [by rewrite <-!app_assoc|]. do 3 (split; [done|]). split; [|split].
  - intros e. rewrite ents_app, elem_of_app. intros [He|He]; [|auto]. by eapply (lseg_below _ (rep_in v h)).
  - intros e. rewrite ents_app, elem_of_app. intros [He|He]; [auto|]. by eapply (rseg_above _ (rep_in v h)).
  - intros v' n' Hv Hn' Hli'. apply NoDup_cons in Hnd as [Hp Hnd]. apply NoDup_app in Hnd as (_ & Hd1 & Hnd).
    apply NoDup_app in Hnd as (_ & Hd2 & _).
    cbn. exists n, (fp1 ++ fpc ++ fp2). split.
    { eapply internal_at_frame; [done|]. apply Hv; [by left|]. intros ->. set_solver. }
    split; [done|]. split; [done|]. rewrite <-(take_drop_middle _ _ _ Hc), <-(take_drop (Z.to_nat i) (internal_ks n)).
    replace ((ls1 ++ lsa) ++ mkLd leaf (lf_next_leaf n') (leaf_es n') :: lsb ++ ls2)
      with (ls1 ++ (lsa ++ mkLd leaf (lf_next_leaf n') (leaf_es n') :: lsb) ++ ls2) by (by rewrite <-!app_assoc).
    apply (forest_unfocus (rep v' h) lo lo' hi' hi _ _ fp1 ls1 [c] [] fpc).
    + eapply lseg_frame; [done|]. intros j Hj. apply Hv; set_solver.
    + apply forest_one, Hup; [|done|done]. intros j Hj Hne. apply Hv; set_solver.
    + eapply rseg_frame; [done|]. intros j Hj. apply Hv; set_solver.
Qed.

Lemma find_leaf_spec fuel : forall (x : Io St) h lo hi pid fp ls key,
  io_wf x -> rep (vw x) h lo hi pid fp ls -> NoDup fp -> lo_le lo key -> hi_lt key hi -> (h < fuel)%nat ->
  exists c, find_leaf_for_in fuel pid key x = Some (Ok c, x) /\ key_leaf (vw x) h lo hi pid fp ls key c.
Proof.
  induction fuel as [|f IH]; intros x h lo hi pid fp ls key Hwf Hrep Hnd Hlo Hhi Hh; [lia|]. cbn [find_leaf_for_in].
  destruct h as [|h]; cbn in Hrep.
  - destruct Hrep as (-> & n & Hat & -> & Hin). pose proof Hat as (p & Hp & _ & _ & -> & Hw).
    unfold io_bind at 1. rewrite (io_read_ok x pid p Hwf Hp), is_leaf_page_leaf, (lw_tag _ Hw). cbn.
    exists pid. split; [done|]. exists lo, hi, (cast_leaf p), [], []. split; [by left|]. do 5 (split; [done|]).
    split; [set_solver|]. split; [set_solver|]. intros v' n' _ Hn' Hli. split; [done|]. by exists n'.
  - destruct Hrep as (n & fp' & Hat & Hn & -> & Hf). pose proof Hat as (p & Hp & _ & _ & -> & Hw).
    unfold io_bind at 1. rewrite (io_read_ok x pid p Hwf Hp), is_leaf_page_internal, (iw_tag _ Hw). cbn [Z.eqb].
    destruct (forest_keys _ (rep_in (vw x) h) _ _ _ _ _ _ Hf) as [Hs _].
    destruct (find_child_idx_spec _ key Hw Hs) as (i & -> & Hi & Hle & Hgt).
    destruct (forest_pick _ _ _ _ _ _ _ key i Hf Hlo Hhi) as
      (c & lo' & hi' & fp1 & fpc & fp2 & ls1 & lsc & ls2 & Hc & Hlo' & Hhi' & Hl & Hrc & Hr & -> & ->);
      [by rewrite internal_ks_length by done|done|done|].
    unfold io_bind, io_pure. rewrite (child_at_cs _ i Hw Hi), Hc.
    destruct (IH x h lo' hi' c fpc lsc key Hwf Hrc) as (leaf & Hfl & Hkl); [|done|done|lia|].
    { apply NoDup_cons in Hnd as [_ Hnd]. apply NoDup_app in Hnd as (_ & _ & Hnd). by apply NoDup_app in Hnd as (? & _). }
    exists leaf. split; [done|]. by eapply (key_leaf_up _ h lo hi pid (cast_internal p)).
Qed.
End FindLeaf.

(** ** Writes *)

Section Writes.
Context {St : Type} {C : Crc32c} {CR : Crc32cRange C} {E : StorageEngine St} {L : StorageLaws St} {R : PageRoom St}.

(** The footprint so far is [cur], with the page written. *)
Lemma wp_put_leaf {B} v0 fp cur pid p n (k : unit -> M St B) b x Q F :
  io_wf x -> moved v0 (vw x) fp cur -> pid ∈ cur -> page_ok p -> hdr_magic p = PAGE_MAGIC -> leaf_wf n ->
  (forall x', io_wf x' -> leaf_at (vw x') pid n -> moved v0 (vw x') fp cur ->
     (forall j, j ≠ pid -> vw x' j = vw x j) -> (forall m, pr x m -> pr x' m) -> wp (k tt) b x' Q F) ->
  wp (io_bind (io_write pid (update_checksum (put_leaf p n))) k) b x Q F.
Proof.
  intros Hwf Hm Hin Hp Hmg Hw Hk. pose proof (put_leaf_page_ok p n Hp (lw_sized n Hw)) as Hok.
  apply wp_write; [done|by apply (mv_in _ _ _ _ Hm)|by apply update_checksum_ok|by apply verify_updated|].
  intros x' Hwf' Hv Hpr. apply Hk; [done| | | |done].
  - eapply (put_leaf_at _ _ p); [done|done|done|]. by rewrite Hv, decide_True.
  - by eapply moved_write_in.
  - intros j Hj. by rewrite Hv, decide_False.
Qed.

Lemma wp_put_internal {B} v0 fp cur pid p n (k : unit -> M St B) b x Q F :
  io_wf x -> moved v0 (vw x) fp cur -> pid ∈ cur -> page_ok p -> hdr_magic p = PAGE_MAGIC -> internal_wf n ->
  (forall x', io_wf x' -> internal_at (vw x') pid n -> moved v0 (vw x') fp cur ->
     (forall j, j ≠ pid -> vw x' j = vw x j) -> (forall m, pr x m -> pr x' m) -> wp (k tt) b x' Q F) ->
  wp (io_bind (io_write pid (update_checksum (put_internal p n))) k) b x Q F.
Proof.
  intros Hwf Hm Hin Hp Hmg Hw Hk. pose proof (put_internal_page_ok p n Hp (iw_sized n Hw)) as Hok.
  apply wp_write; [done|by apply (mv_in _ _ _ _ Hm)|by apply update_checksum_ok|by apply verify_updated|].
  intros x' Hwf' Hv Hpr. apply Hk; [done| | | |done].
  - eapply (put_internal_at _ _ p); [done|done|done|]. by rewrite Hv, decide_True.
  - by eapply moved_write_in.
  - intros j Hj. by rewrite Hv, decide_False.
Qed.

Lemma wp_alloc_at {B} v0 fp f ty (k : Z -> M St B) b x Q F :
  io_wf x -> 0 < b -> moved v0 (vw x) fp f ->
  (forall i x', io_wf x' -> moved v0 (vw x') fp (i :: f) -> page_num i -> ~ i ∈ f ->
     (forall j, j ∈ f -> vw x' j = vw x j) -> (forall m, 0 < m -> pr x m -> pr x' (m - 1)) -> wp (k i) (b - 1) x' Q F) ->
  wp (io_bind (io_alloc ty) k) b x Q F.
Proof.
  intros Hwf Hb Hm Hk. apply wp_alloc; [done|done|]. intros i x' Hwf' Hf Hpr.
  rewrite <-(app_nil_r f) in Hm. destruct (moved_sub _ _ _ _ _ _ _ Hm (moved_alloc _ _ _ Hf)) as [Hm' Hj].
  apply Hk; [done|by rewrite Permutation_cons_append|apply Hf| |done|done].
  intros Hin. destruct Hf as (_ & Hnone & _). destruct (mv_in _ _ _ _ Hm i) as [q Hq]; [set_solver|]. congruence.
Qed.

Lemma wp_free_at {B} v0 fp cur f i (k : unit -> M St B) b x Q F :
  io_wf x -> moved v0 (vw x) fp cur -> cur ≡ₚ i :: f ->
  (forall x', io_wf x' -> moved v0 (vw x') fp f ->
     (forall j, j ∈ f -> vw x' j = vw x j) -> (forall m, pr x m -> pr x' m) -> wp (k tt) b x' Q F) ->
  wp (io_bind (io_free i) k) b x Q F.
Proof.
  intros Hwf Hm Hp Hk. rewrite Hp, Permutation_cons_append in Hm.
  pose proof (mv_num _ _ _ _ Hm) as [_ [Hpn _]%Forall_cons]%Forall_app.
  apply wp_free; [done|apply (mv_in _ _ _ _ Hm); set_solver|apply Hpn|]. intros x' Hwf' Hv Hpr.
  destruct (moved_sub _ _ (vw x') _ _ _ _ Hm (moved_free _ _ _ Hv)) as [Hm' Hj]. rewrite app_nil_r in Hm'.
  by apply Hk.
Qed.
End Writes.

(** ** A new tree *)

Section New.
Context {St : Type} {C : Crc32c} {CR : Crc32cRange C} {E : StorageEngine St} {L : StorageLaws St} {R : PageRoom St}.

Lemma empty_leaf_wf : let n := set_next_leaf (leaf_set_num_keys (leaf_set_is_leaf leaf_zeroed) 0) NULL_PAGE in
  leaf_wf n /\ lf_next_leaf n = NULL_PAGE /\ leaf_es n = [].
Proof.
  cbv zeta. split; [|done]. split; [|done|done|constructor].
  split; [done|done|done|apply (zeros_array 4)|done|apply (zeros_array 217)|done| |done|].
  - cbn [set_next_leaf leaf_set_num_keys leaf_set_is_leaf lf_rids leaf_zeroed]. apply Forall_replicate, (zeros_array 10).
  - cbn [set_next_leaf leaf_set_num_keys leaf_set_is_leaf lf_keys leaf_zeroed]. apply Forall_replicate, (zeros_array 64).
Qed.

(** Without a batch. *)
Lemma wp_alloc_direct {B} ty (k : Z -> M St B) n x Q F :
  io_batch x = None -> wp (io_bind (io_alloc ty) k) n x Q F -> wp (io_bind (io_alloc_direct ty) k) n x Q F.
Proof.
  intros Hb. unfold wp, io_bind, io_alloc_direct, io_alloc, batch_alloc_page. rewrite Hb.
  by destruct (alloc_page (io_store x) ty) as [[r s]|].
Qed.

(** [BTree::new] makes a tree with one empty leaf, which ends the chain. *)
Lemma btree_new_spec (x : Io St) n : io_wf x -> io_batch x = None -> pr x n -> 0 < n ->
  exists root x', btree_new x = Some (Ok root, x') /\ io_wf x' /\ pr x' (n - 1) /\
    tree_at (vw x') 0 root [root] [mkLd root NULL_PAGE []].
Proof.
  intros Hwf Hb Hpr Hn.
  assert (Hw : wp (btree_new) n x (fun root x' => io_wf x' /\ pr x' (n - 1) /\ tree_at (vw x') 0 root [root] [mkLd root NULL_PAGE []])
    (fun _ _ => False)).
  { unfold btree_new. apply wp_alloc_direct; [done|].
    eapply (wp_alloc_at (vw x) [] []); [done|lia|by apply moved_refl; [set_solver|constructor|constructor]|].
    intros pid x1 Hwf1 Hm1 Hpn _ _ Hpr1. destruct (page_new_ok pid) as [Hok Hmg]; [by apply page_num_u64|].
    cbv zeta. rewrite cast_leaf_new by (by apply page_num_u64). destruct empty_leaf_wf as (Hlw & Hnx & Hes).
    eapply wp_put_leaf; [done|exact Hm1|left|done|done|done|]. intros x2 Hwf2 Hat2 Hm2 Hv2 Hpr2.
    apply wp_ret. split; [done|]. split; [by apply Hpr2, Hpr1|]. split; [|split; [apply Hm2|apply Hm2]].
    split; [done|]. eexists. split; [exact Hat2|]. rewrite Hnx, Hes. split; [done|]. split; [done|]. split; [constructor|constructor]. }
  unfold wp in Hw. destruct (btree_new x) as [[[root|e] x']|]; [|by destruct Hw as [[]|]|done].
  by exists root, x'.
Qed.
End New.

(** ** Samples *)

#[local] Existing Instance crc32c_ref.
#[local] Existing Instance crc32c_ref_range.

(** A new tree in a new memory storage. *)
Lemma sample_tree : exists (x : Io MemoryStorage) root, io_wf x /\ pr (PageRoom := engine_room) x 40 /\
  tree_at (vw x) 0 root [root] [mkLd root NULL_PAGE []].
Proof.
  destruct sample_io as (x0 & Hwf0 & Hpr0).
  by destruct (btree_new_spec (R := engine_room) x0 41 Hwf0 (proj1 Hpr0) Hpr0 ltac:(lia)) as (root & x & _ & Hwf' & Hpr & Ht); exists x, root.
Qed.
