(* ===== verification/BTreeInsert.v ===== *)
(** * Insertion into the B+tree

    The tree after [insert_in_with_batch]: its pages, the map it stands for and the links
    between its leaves. *)

From S2P Require Import Prelude SlotBitmap Page FreeList Storage PageIo ByteOrder BTreeNode BTree BTreeRep BTreeSplit BTreeStep.

Definition sep_ok (sep : bytes) : Prop := zlen sep <= MAX_KEY_LEN /\ bytes_ok sep.

(** What [child_is_safe_for_insert] tests. *)
Definition safe_page (ff : Z) (p : Page) : bool :=
  if is_leaf_page p then lf_num_keys (cast_leaf p) <? fill_threshold ORDER_LEAF ff
  else in_num_keys (cast_internal p) <? ORDER_INTERNAL.

(** The leaves are linked as before, or one of them was split. *)
Definition relinked (h : nat) (ls ls' : list leafd) : Prop :=
  link <$> ls' = link <$> ls \/
  length ls' = S (length ls) /\
  match h with
  | O => exists pid nx es l r es1 es2, ls = [mkLd pid nx es] /\ ls' = [mkLd l r es1; mkLd r nx es2]
  | S O => forall z, chain ls z -> chain ls' z
  | S (S _) => True
  end.

Definition ins_post (ff : Z) (v v' : Z -> option Page) (h : nat) (lo hi : option bytes) (pid : Z) (fp : list Z)
    (ls : list leafd) (key : bytes) (rid : RecordId) (r : InsertResult) : Prop :=
  exists fp' ls', moved v v' fp fp' /\ ents ls' ≡ₚ (key, rid) :: ents ls /\ relinked h ls ls' /\
    match r with
    | InsOk q => q = pid /\ rep v' h lo hi pid fp' ls'
    | InsSplit l r sep leaf => leaf = (h =? 0)%nat /\ sep_ok sep /\ forest (rep v' h) lo hi [l; r] [sep] fp' ls' /\
        forall p, v pid = Some p -> safe_page ff p = false
    end.

Lemma fill_threshold_pos o ff : 1 <= fill_threshold o ff.
Proof. unfold fill_threshold. case_tests; lia. Qed.

Lemma fill_threshold_le o ff : 1 <= o -> ff <= 100 -> fill_threshold o ff <= o.
Proof.
  intros Ho Hf. unfold fill_threshold. case_tests; [lia|]. apply Z.lt_succ_r, Z.div_lt_upper_bound; [lia|]. nia.
Qed.

(** ** Trees taken apart and put together *)

(** A forest cut at a separator. *)
Lemma forest_cut (T : option bytes -> option bytes -> Z -> list Z -> list leafd -> Prop) lo hi cs ks fp ls (m : nat) k :
  forest T lo hi cs ks fp ls -> ks !! m = Some k ->
  exists fp1 fp2 ls1 ls2, forest T lo (Some k) (take (S m) cs) (take m ks) fp1 ls1 /\
    forest T (Some k) hi (drop (S m) cs) (drop (S m) ks) fp2 ls2 /\ fp = fp1 ++ fp2 /\ ls = ls1 ++ ls2.
Proof.
  intros Hf Hk. pose proof (forest_length _ _ _ _ _ _ _ Hf) as Hl. pose proof (lookup_lt_Some _ _ _ Hk) as Hlt.
  destruct (lookup_lt_is_Some_2 cs m) as [c Hc]; [lia|].
  destruct (forest_focus _ _ _ _ _ _ _ _ _ Hf Hc) as (lo' & hi' & fp1 & fpc & fp2 & ls1 & lsc & ls2 & Hls & Hcc & Hr & -> & ->).
  rewrite (drop_S ks k m Hk) in Hr. remember (drop (S m) cs) as csr eqn:Hcsr. inversion Hr as [|k0 hi1 hi0 c1 cs1 ks1 fpa fpb lsa lsb Hc1 Hr1]; subst.
  exists (fp1 ++ fpc), (fpa ++ fpb), (ls1 ++ lsc), (lsa ++ lsb). rewrite <-!app_assoc. split; [|split; [|done]].
  - rewrite (take_S_r _ _ _ Hc), <-(app_nil_r (take m ks)). eapply lseg_forest; [done|]. by apply forest_one.
  - by eapply forest_intro.
Qed.

Lemma two_children n (i : nat) (l r : Z) cs :
  cs !! i = Some n -> take (S i) (<[i := l]> cs) ++ r :: drop (S i) (<[i := l]> cs) = take i cs ++ [l; r] ++ drop (S i) cs.
Proof.
  intros Hi. pose proof (lookup_lt_Some _ _ _ Hi). rewrite (take_S_r _ _ l) by (by apply list_lookup_insert_eq).
  rewrite take_insert_ge by lia. rewrite drop_insert, decide_False by lia. by rewrite <-app_assoc.
Qed.

Lemma focus_perm {A} (p : A) a b c : p :: a ++ b ++ c ≡ₚ (p :: a ++ c) ++ b.
Proof. cbn. by rewrite <-!app_assoc, (Permutation_app_comm b c). Qed.

Lemma forest_two_roots v h lo hi l r sep fp ls : forest (rep v h) lo hi [l; r] [sep] fp ls -> l ∈ fp /\ r ∈ fp.
Proof.
  inversion 1 as [lo0 hi1 hi0 c cs ks fp1 fp2 ls1 ls2 Hc Hr]; subst.
  inversion Hr as [|k hi2 hi3 c1 cs1 ks1 fpa fpb lsa lsb Hc1 Hr1]; subst.
  apply rep_root_in in Hc, Hc1. set_solver.
Qed.

Lemma length_link ls ls' : link <$> ls' = link <$> ls -> length ls' = length ls.
Proof. intros H. by rewrite <-(length_fmap link ls'), H, length_fmap. Qed.

(** Links, when a child is relinked but not split, and when it is split. *)
Lemma relinked_up h ls1 lsc lsc' ls2 :
  relinked h lsc lsc' -> (h = O -> length lsc' = length lsc) -> relinked (S h) (ls1 ++ lsc ++ ls2) (ls1 ++ lsc' ++ ls2).
Proof.
  intros [Hlk|(Hlen & Hh)] H0.
  - left. by rewrite !fmap_app, Hlk.
  - right. rewrite !length_app, Hlen. split; [lia|]. destruct h as [|h]; [|done]. specialize (H0 eq_refl). lia.
Qed.

Lemma forest_leaf_first v lo hi c cs ks fp ls z : forest (rep v 0) lo hi (c :: cs) ks fp ls -> first_pid ls z = c.
Proof. inversion 1 as [lo0 hi1 hi0 c0 cs0 ks0 fp1 fp2 la lb Hc Hr]; subst. by destruct Hc as (_ & nd & _ & -> & _). Qed.

Lemma relinked_split ls1 ls1' lsc lsc' ls2 l r sep fpc v lo hi :
  relinked 0 lsc lsc' -> length lsc' = S (length lsc) -> length ls1' = length ls1 ->
  forest (rep v 0) lo hi [l; r] [sep] fpc lsc' ->
  (forall z, chain ls1 z -> chain ls1' l) -> relinked 1 (ls1 ++ lsc ++ ls2) (ls1' ++ lsc' ++ ls2).
Proof.
  intros [Hlk|(_ & pid & nx & es & l' & r' & es1 & es2 & -> & ->)] Hlen Hl1 Hf Hch.
  { apply length_link in Hlk. lia. }
  apply (forest_leaf_first _ _ _ _ _ _ _ _ nx) in Hf. cbn in Hf. subst l'.
  right. rewrite !length_app. cbn [length]. split; [lia|]. intros z. rewrite !chain_app. cbn.
  intros (H1 & H2 & H3). split; [by eapply Hch|]. done.
Qed.

(** Putting a child back whose root kept its page. *)
Lemma replace_child v0 v fp pid n h lo hi lo' hi' i c fp1 fpc fp2 ls1 lsc ls2 :
  internal_at v pid n -> 1 <= in_num_keys n -> internal_cs n !! Z.to_nat i = Some c ->
  moved v0 v fp (pid :: fp1 ++ fpc ++ fp2) ->
  lseg (rep v h) lo lo' (take (Z.to_nat i) (internal_cs n)) (take (Z.to_nat i) (internal_ks n)) fp1 ls1 ->
  rep v h lo' hi' c fpc lsc ->
  rseg (rep v h) hi' hi (drop (S (Z.to_nat i)) (internal_cs n)) (drop (Z.to_nat i) (internal_ks n)) fp2 ls2 ->
  rep v (S h) lo hi pid (pid :: fp1 ++ fpc ++ fp2) (ls1 ++ lsc ++ ls2).
Proof.
  intros Hat Hn Hc Hm Hl Hrc Hr. cbn. exists n. eexists. do 3 (split; [done|]).
  rewrite <-(take_drop_middle _ _ _ Hc), <-(take_drop (Z.to_nat i) (internal_ks n)).
  apply (forest_unfocus (rep v h) lo lo' hi' hi _ _ fp1 ls1 [c] [] fpc); [done|by apply forest_one|done].
Qed.

(** What surrounds the child stays as it is. *)
Lemma around_child v v' pid n h lo hi lo' hi' i fp1 fpc fpc' fp2 ls1 ls2 :
  internal_at v pid n -> moved v v (pid :: fp1 ++ fpc ++ fp2) (pid :: fp1 ++ fpc ++ fp2) ->
  lseg (rep v h) lo lo' (take (Z.to_nat i) (internal_cs n)) (take (Z.to_nat i) (internal_ks n)) fp1 ls1 ->
  rseg (rep v h) hi' hi (drop (S (Z.to_nat i)) (internal_cs n)) (drop (Z.to_nat i) (internal_ks n)) fp2 ls2 ->
  moved v v' fpc fpc' ->
  moved v v' (pid :: fp1 ++ fpc ++ fp2) (pid :: fp1 ++ fpc' ++ fp2) /\ internal_at v' pid n /\
  lseg (rep v' h) lo lo' (take (Z.to_nat i) (internal_cs n)) (take (Z.to_nat i) (internal_ks n)) fp1 ls1 /\
  rseg (rep v' h) hi' hi (drop (S (Z.to_nat i)) (internal_cs n)) (drop (Z.to_nat i) (internal_ks n)) fp2 ls2.
Proof.
  intros Hat Hm Hl Hr Hc. rewrite (focus_perm pid fp1 fpc fp2) in Hm |- *. rewrite (focus_perm pid fp1 fpc' fp2). destruct (moved_sub _ _ _ _ _ _ _ Hm Hc) as [Hm' Hj].
  split; [done|]. split; [eapply internal_at_frame; [done|]; apply Hj; left|].
  split; [eapply lseg_frame|eapply rseg_frame]; try done; intros j Hjj; apply Hj; set_solver.
Qed.

Lemma ents_mid_perm ls1 lsc lsc' ls2 e : ents lsc' ≡ₚ e :: ents lsc -> ents (ls1 ++ lsc' ++ ls2) ≡ₚ e :: ents (ls1 ++ lsc ++ ls2).
Proof. intros H. rewrite !ents_app, H. cbn. by rewrite <-Permutation_middle. Qed.

Lemma relinked_not_split h lsc lsc' v lo hi c fpc :
  relinked h lsc lsc' -> rep v h lo hi c fpc lsc' -> h = O -> length lsc' = length lsc.
Proof.
  intros [Hlk|(_ & H)] Hrep ->; [by apply length_link|].
  destruct H as (? & ? & ? & ? & ? & ? & ? & _ & ->). by destruct Hrep as (_ & nd & _ & ? & _).
Qed.

Lemma relinked_is_split h lsc lsc' v lo hi l r sep fpc :
  relinked h lsc lsc' -> (h = O -> length lsc = 1%nat) -> forest (rep v h) lo hi [l; r] [sep] fpc lsc' ->
  h = O -> length lsc' = S (length lsc).
Proof.
  intros [Hlk|(H & _)] Hl Hf ->; [|done]. apply length_link in Hlk. rewrite Hl in Hlk |- * by done. exfalso. revert Hlk.
  inversion Hf as [lo0 hi1 hi0 c0 cs0 ks0 fp1 fp2 la lb Hc Hr]; subst. destruct Hc as (_ & nd & _ & -> & _).
  inversion Hr as [|k hi2 hi3 c1 cs1 ks1 fpa fpb lsa lsb Hc1 Hr1]; subst. destruct Hc1 as (_ & nd1 & _ & -> & _). done.
Qed.

Lemma rep_one_leaf v h lo hi c fpc lsc : rep v h lo hi c fpc lsc -> h = O -> length lsc = 1%nat.
Proof. intros Hr ->. by destruct Hr as (_ & nd & _ & -> & _). Qed.

Lemma ents_mid ls1 lsc ls2 (k : bytes) : k ∈ (ents lsc).*1 -> k ∈ (ents (ls1 ++ lsc ++ ls2)).*1.
Proof. rewrite !ents_app, !fmap_app, !elem_of_app. auto. Qed.

Lemma relinked_chain h ls ls' z : relinked h ls ls' -> (h <= 1)%nat -> chain ls z -> chain ls' z.
Proof.
  intros [Hlk|(_ & Hh)] Hle Hc; [by eapply chain_links|]. destruct h as [|[|h]]; [|auto|lia].
  destruct Hh as (pid & nx & es & l & r & es1 & es2 & -> & ->). cbn in *. tauto.
Qed.

Section Insert.
Context {St : Type} {C : Crc32c} {CR : Crc32cRange C} {E : StorageEngine St} {L : StorageLaws St} {R : PageRoom St}.
Context (ff : Z) (key : bytes) (rid : RecordId).
Hypothesis (Hff : ff <= 100).
Hypothesis (Hkey : key_ok key).
Hypothesis (Hrid : rid_ok rid).

(** *** A leaf *)

Lemma insert_leaf_split x pid n lo hi :
  io_wf x -> page_num pid -> leaf_at (vw x) pid n -> leaf_in lo hi (leaf_es n) -> lo_le lo key -> hi_lt key hi ->
  fill_threshold ORDER_LEAF ff <= lf_num_keys n ->
  wp (insert_leaf_batched pid n key rid) 2 x
    (fun r x' => io_wf x' /\ (forall m, 2 <= m -> pr x m -> pr x' (m - 2)) /\
       ins_post ff (vw x) (vw x') 0 lo hi pid [pid] [mkLd pid (lf_next_leaf n) (leaf_es n)] key rid r)
    (fun e x' => e = DuplicateKey /\ key ∈ (leaf_es n).*1 /\ x' = x).
Proof.
  intros Hwf Hpn (p & Hp & Hpok & Hmg & -> & Hw) Hin Hlo Hhi Hth. unfold insert_leaf_batched.
  destruct (search_spec _ key Hw ltac:(apply Hin)) as (r & Hs & Hr). eapply wp_pure; [done|]. destruct r as [i|i].
  { apply wp_fail. split; [done|]. split; [|done]. destruct Hr as [_ Hk]. by eapply list_elem_of_lookup_2. }
  destruct Hr as (Hi & Hbelow & Habove). destruct Hkey as [[Hk0 Hk64] Hkb].
  destruct (spread_leaf_spec _ i key rid Hw Hi Hk64 Hkb Hrid) as (a & -> & Ha). eapply wp_pure; [done|].
  pose proof (leaf_in_insert lo hi _ i key rid Hin Hlo Hhi Hk0 Hbelow Habove ltac:(lia)) as Hin'.
  pose proof (insert_mid_perm (leaf_es (cast_leaf p)) (Z.to_nat i) (key, rid)) as Hperm.
  set (es := take _ _ ++ _ :: _) in *. set (n := cast_leaf p) in *. pose proof (leaf_es_length n Hw) as Hel.
  assert (zlen es = lf_num_keys n + 1) as Hl by (rewrite Hperm; cbn [length]; lia).
  pose proof (fill_threshold_pos ORDER_LEAF ff) as Hth1. pose proof (lw_num _ Hw) as Hmax.
  set (total := lf_num_keys n + 1) in *. cbv zeta. set (mid := total / 2).
  assert (1 <= mid <= 109 /\ total - mid <= 109 /\ mid < total) as (Hm1 & Hm2 & Hm3).
  { unfold mid. pose proof (Z.div_le_lower_bound total 2 1). pose proof (Z.div_mod total 2 ltac:(lia)).
    pose proof (Z.mod_pos_bound total 2 ltac:(lia)). sizes. }
  destruct (lookup_lt_is_Some_2 es (Z.to_nat mid)) as [[sep srid] Hsep]; [lia|].
  eapply wp_pure; [eapply arr_leaf_key; [done|lia|done]|].
  assert (Hm0 : moved (vw x) (vw x) [pid] [pid]).
  { apply moved_refl; [by intros j ->%list_elem_of_singleton|apply NoDup_singleton|by constructor]. }
  eapply wp_alloc_at; [done|lia|exact Hm0|]. intros lp x1 Hwf1 Hmv1 Hlpn Hlp Hv1 Hpr1.
  eapply wp_alloc_at; [done|lia|exact Hmv1|]. intros rp x2 Hwf2 Hmv2 Hrpn Hrp Hv2 Hpr2.
  destruct (leaf_part_spec lp a es 0 mid rp) as (nl & -> & Hwl & Hnl & Hel'); [by apply page_num_u64|done|lia|sizes|lia|by apply page_num_u64|].
  destruct (leaf_part_spec rp a es mid (total - mid) (lf_next_leaf n)) as (nr & -> & Hwr & Hnr & Her');
    [by apply page_num_u64|done|lia|sizes|lia|apply Hw|].
  destruct (page_new_ok lp) as [Hlok Hlmg]; [by apply page_num_u64|]. destruct (page_new_ok rp) as [Hrok Hrmg]; [by apply page_num_u64|].
  eapply wp_pure; [done|]. eapply wp_put_leaf; [done|exact Hmv2|set_solver|done|done|done|]. intros x3 Hwf3 Hat3 Hmv3 Hv3 Hpr3.
  eapply wp_pure; [done|]. eapply wp_put_leaf; [done|exact Hmv3|set_solver|done|done|done|]. intros x4 Hwf4 Hat4 Hmv4 Hv4 Hpr4.
  eapply (wp_free_at _ _ _ [rp; lp]); [done|exact Hmv4|symmetry; apply (Permutation_cons_append [rp; lp])|]. intros x5 Hwf5 Hmv5 Hv5 Hpr5.
  apply wp_ret. split; [done|]. split.
  { intros m Hm Hx. apply Hpr5, Hpr4, Hpr3. replace (m - 2) with (m - 1 - 1) by lia. apply Hpr2; [lia|]. apply Hpr1; [lia|done]. }
  destruct (leaf_in_split lo hi es (Z.to_nat mid) sep srid Hin' Hsep ltac:(lia)) as [Hinl Hinr].
  exists [lp; rp], [mkLd lp rp (leaf_es nl); mkLd rp (lf_next_leaf n) (leaf_es nr)].
  rewrite Her' in *. rewrite Hel' in *. change (Z.to_nat 0) with O in *. rewrite drop_0 in *.
  rewrite (take_ge (drop _ _)) in * by (rewrite length_drop; lia).
  split; [by rewrite Permutation_swap|]. split.
  { unfold ents. cbn. rewrite !app_nil_r, take_drop. done. }
  split; [right; split; [done|]; by repeat eexists|]. split; [done|]. split.
  { pose proof (list_elem_of_lookup_2 _ _ _ Hsep) as Hel2. rewrite Hperm in Hel2. apply elem_of_cons in Hel2 as [[= -> ->]|Hel2].
    - by split.
    - apply list_elem_of_lookup in Hel2 as [j Hj]. destruct (leaf_es_ok _ _ _ _ Hw Hj) as (? & ? & _). by split. }
  split.
  - apply (forest_intro _ lo (Some sep) hi lp [rp] [sep] [lp] [rp] [_] [_]).
    + cbn. split; [done|]. exists nl. rewrite Hnl, Hel'. split; [|done].
      eapply leaf_at_frame; [exact Hat3|]. rewrite Hv5 by set_solver. apply Hv4. set_solver.
    + rewrite <-(app_nil_r [rp]), <-(app_nil_r [mkLd rp _ _]). eapply rseg_cons; [|constructor]. split; [done|]. exists nr.
      rewrite Hnr, Her'. split; [|done]. eapply leaf_at_frame; [exact Hat4|]. apply Hv5. set_solver.
  - intros q Hq. assert (q = p) as -> by congruence. unfold safe_page. rewrite is_leaf_page_leaf. fold n. rewrite (lw_tag _ Hw).
    rewrite Z.eqb_refl. apply Z.ltb_ge. exact Hth.
Qed.

(** *** Internal nodes *)

(** A full node is split: [cs] and [ks] are its children and keys with those of the split child. *)
Lemma split_internal_spec v0 fp x pid n h lo hi i sep right fp' ls' :
  io_wf x -> internal_wf n -> in_num_keys n = ORDER_INTERNAL -> 0 <= i <= in_num_keys n -> sep_ok sep -> in_u64 right ->
  moved v0 (vw x) fp (pid :: fp') ->
  forest (rep (vw x) h) lo hi
    (take (S (Z.to_nat i)) (internal_cs n) ++ right :: drop (S (Z.to_nat i)) (internal_cs n))
    (take (Z.to_nat i) (internal_ks n) ++ sep :: drop (Z.to_nat i) (internal_ks n)) fp' ls' ->
  wp (split_internal_batched pid n i sep right) 2 x
    (fun r x' => io_wf x' /\ (forall m, 2 <= m -> pr x m -> pr x' (m - 2)) /\
       exists l r0 sep' fp'', r = InsSplit l r0 sep' false /\ sep_ok sep' /\ moved v0 (vw x') fp fp'' /\
         forest (rep (vw x') (S h)) lo hi [l; r0] [sep'] fp'' ls')
    (fun _ _ => False).
Proof.
  intros Hwf Hw Hnum Hi [Hs64 Hsb] Hr Hm Hf. unfold split_internal_batched.
  destruct (spread_internal_spec n i sep right Hw Hi Hs64 Hsb Hr) as (a & -> & Ha). eapply wp_pure; [done|].
  pose proof (insert_mid_perm (internal_ks n) (Z.to_nat i) sep) as Hperm. pose proof (internal_ks_length n Hw) as Hkl.
  set (ks := take _ (internal_ks n) ++ _) in *. set (cs := take _ (internal_cs n) ++ _) in *.
  assert (zlen ks = 224) as Hl by (rewrite Hperm; cbn [length]; sizes). pose proof (ai_same _ _ _ Ha) as Hcl.
  cbv zeta. rewrite Hnum. change ((ORDER_INTERNAL + 1) / 2) with 112. change (ORDER_INTERNAL + 1 - 112 - 1) with 111.
  destruct (lookup_lt_is_Some_2 ks (Z.to_nat 112)) as [k Hk]; [lia|].
  eapply wp_pure; [eapply arr_internal_key; [done|lia|done]|].
  eapply wp_alloc_at; [done|lia|exact Hm|]. intros lp x1 Hwf1 Hmv1 Hlpn Hlp Hv1 Hpr1.
  eapply wp_alloc_at; [done|lia|exact Hmv1|]. intros rp x2 Hwf2 Hmv2 Hrpn Hrp Hv2 Hpr2.
  destruct (internal_part_spec lp a ks cs 0 112) as (nl & -> & Hwl & Hnl & Hkl' & Hcl'); [by apply page_num_u64|done|lia|sizes|lia|].
  destruct (internal_part_spec rp a ks cs (112 + 1) 111) as (nr & -> & Hwr & Hnr & Hkr' & Hcr'); [by apply page_num_u64|done|lia|sizes|lia|].
  destruct (page_new_ok lp) as [Hlok Hlmg]; [by apply page_num_u64|]. destruct (page_new_ok rp) as [Hrok Hrmg]; [by apply page_num_u64|].
  eapply wp_pure; [done|]. eapply wp_put_internal; [done|exact Hmv2|set_solver|done|done|done|]. intros x3 Hwf3 Hat3 Hmv3 Hv3 Hpr3.
  eapply wp_pure; [done|]. eapply wp_put_internal; [done|exact Hmv3|set_solver|done|done|done|]. intros x4 Hwf4 Hat4 Hmv4 Hv4 Hpr4.
  eapply (wp_free_at _ _ _ (rp :: lp :: fp')); [done|exact Hmv4|symmetry; apply (Permutation_middle [rp; lp])|].
  intros x5 Hwf5 Hmv5 Hv5 Hpr5.
  apply wp_ret. split; [done|]. split.
  { intros m Hmm Hx. apply Hpr5, Hpr4, Hpr3. replace (m - 2) with (m - 1 - 1) by lia. apply Hpr2; [lia|]. apply Hpr1; [lia|done]. }
  assert (Hsame : forall j, j ∈ fp' -> vw x5 j = vw x j).
  { intros j Hj. rewrite Hv5 by set_solver. rewrite Hv4 by (intros ->; set_solver). rewrite Hv3 by (intros ->; set_solver).
    rewrite Hv2 by set_solver. apply Hv1. set_solver. }
  eapply forest_frame in Hf; [|exact Hsame].
  destruct (forest_cut _ _ _ _ _ _ _ _ _ Hf Hk) as (fp1 & fp2 & ls1 & ls2 & Hf1 & Hf2 & -> & ->).
  exists lp, rp, k, ((lp :: fp1) ++ (rp :: fp2)). split; [done|]. split.
  { pose proof (list_elem_of_lookup_2 _ _ _ Hk) as Hel2. rewrite Hperm in Hel2. apply elem_of_cons in Hel2 as [->|Hel2]; [by split|].
    apply list_elem_of_lookup in Hel2 as [j Hj]. by destruct (internal_ks_ok _ _ _ Hw Hj) as (? & ?). }
  split.
  { cbn. by rewrite <-Permutation_middle, Permutation_swap. }
  apply (forest_intro _ lo (Some k) hi lp [rp] [k] _ _ ls1 ls2).
  - cbn. exists nl, fp1. rewrite Hkl', Hcl'. change (Z.to_nat 0) with O. rewrite !drop_0. split; [|split; [lia|split; [done|]]].
    + eapply internal_at_frame; [exact Hat3|]. rewrite Hv5 by set_solver. apply Hv4. set_solver.
    + exact Hf1.
  - rewrite <-(app_nil_r (rp :: fp2)), <-(app_nil_r ls2). eapply rseg_cons; [|constructor]. cbn. exists nr, fp2. rewrite Hkr', Hcr'.
    split; [|split; [lia|split; [done|]]].
    + eapply internal_at_frame; [exact Hat4|]. apply Hv5. set_solver.
    + rewrite !take_ge by (rewrite length_drop; lia). exact Hf2.
Qed.

(** The predecessor of a split leaf, under the same parent, points at the new left leaf. *)
Lemma wp_update_pred {B} v0 fp cur fuel n i new lo lo' fp1 ls1 (k : unit -> M St B) b x Q F :
  io_wf x -> internal_wf n -> 0 < i <= in_num_keys n -> moved v0 (vw x) fp cur -> (forall j, j ∈ fp1 -> j ∈ cur) ->
  NoDup fp1 -> in_u64 new -> (0 < fuel)%nat ->
  lseg (rep (vw x) 0) lo lo' (take (Z.to_nat i) (internal_cs n)) (take (Z.to_nat i) (internal_ks n)) fp1 ls1 ->
  (forall x' ls1', io_wf x' -> moved v0 (vw x') fp cur -> (forall j, ~ j ∈ fp1 -> vw x' j = vw x j) ->
     lseg (rep (vw x') 0) lo lo' (take (Z.to_nat i) (internal_cs n)) (take (Z.to_nat i) (internal_ks n)) fp1 ls1' ->
     ents ls1' = ents ls1 -> length ls1' = length ls1 -> (forall z, chain ls1 z -> chain ls1' new) ->
     (forall m, pr x m -> pr x' m) -> wp (k tt) b x' Q F) ->
  wp (io_bind (update_predecessor_next_leaf fuel n i new) k) b x Q F.
Proof.
  intros Hwf Hw Hi Hm Hcur Hnd Hnew Hfuel Hl Hk. pose proof (internal_cs_length n Hw) as Hcl. pose proof (internal_ks_length n Hw) as Hkl.
  destruct (lookup_lt_is_Some_2 (internal_cs n) (Z.to_nat (i - 1))) as [c Hc]; [lia|].
  destruct (lookup_lt_is_Some_2 (internal_ks n) (Z.to_nat (i - 1))) as [s Hs]; [lia|].
  revert Hl Hk. replace (Z.to_nat i) with (S (Z.to_nat (i - 1))) by lia. rewrite (take_S_r _ _ _ Hc), (take_S_r _ _ _ Hs).
  intros Hl Hk. apply lseg_snoc_inv in Hl as (lo1 & fpa & fpb & lsa & lsb & Hl & Hlast & -> & -> & ->);
    [|rewrite !length_take; lia].
  cbn in Hlast. destruct Hlast as (-> & nl & Hat & -> & Hin). pose proof Hat as (p & Hp & Hpok & Hmg & Hnl & Hwl).
  destruct fuel as [|f]; [lia|]. unfold update_predecessor_next_leaf. apply wp_assoc. rewrite child_at_cs, Hc by (done || lia).
  eapply wp_pure; [done|]. cbn [descend_rightmost_leaf]. do 2 apply wp_assoc.
  eapply wp_read; [done|done|]. rewrite is_leaf_page_leaf, <-Hnl, (lw_tag _ Hwl), Z.eqb_refl. apply wp_bind_ret, wp_assoc.
  eapply wp_read; [done|done|]. destruct (vw_valid _ _ _ Hwf Hp) as (_ & _ & Hvf).
  rewrite page_from_bytes_ok by done. rewrite <-Hnl.
  eapply wp_put_leaf; [done|exact Hm|apply Hcur; set_solver|done|done| |].
  { destruct Hwl as [[W1 W2 W3 W4 W5 W6 W7 W8 W9] W10 W11 W12]. by split. }
  intros x' Hwf' Hat' Hm' Hv' Hpr'. apply NoDup_app in Hnd as (_ & Hnd & _).
  eapply Hk; [done|done| | | | | |done].
  - intros j Hj. apply Hv'. set_solver.
  - apply (lseg_snoc _ lo lo1 _ _ c s fpa [c] lsa [mkLd c new (leaf_es nl)]).
    + eapply lseg_frame; [exact Hl|]. intros j Hj. apply Hv'. intros ->. apply (Hnd c Hj). by left.
    + split; [done|]. by exists (set_next_leaf nl new).
  - by rewrite !ents_app, !ents_one.
  - by rewrite !length_app.
  - intros z. rewrite !chain_app. cbn. intuition.
Qed.

(** The parent takes in the two halves of its child. *)
Lemma absorb_node v0 fp x pid n h lo hi lo' hi' i c l r sep fp1 fpc fp2 ls1 lsc ls2 :
  io_wf x -> internal_at (vw x) pid n -> 1 <= in_num_keys n -> moved v0 (vw x) fp (pid :: fp1 ++ fpc ++ fp2) ->
  0 <= i <= in_num_keys n -> internal_cs n !! Z.to_nat i = Some c -> sep_ok sep ->
  lseg (rep (vw x) h) lo lo' (take (Z.to_nat i) (internal_cs n)) (take (Z.to_nat i) (internal_ks n)) fp1 ls1 ->
  forest (rep (vw x) h) lo' hi' [l; r] [sep] fpc lsc ->
  rseg (rep (vw x) h) hi' hi (drop (S (Z.to_nat i)) (internal_cs n)) (drop (Z.to_nat i) (internal_ks n)) fp2 ls2 ->
  wp (do! node2 := io_pure (set_child_at n i l) in
      if in_num_keys n <? ORDER_INTERNAL then
        do! node3 := io_pure (internal_insert_at node2 i sep r) in
        do! new_pid := write_internal_same_pid pid node3 in
        io_ret (InsOk new_pid)
      else split_internal_batched pid node2 i sep r) 2 x
    (fun res x' => io_wf x' /\ (forall m, 2 <= m -> pr x m -> pr x' (m - 2)) /\
       exists fp', moved v0 (vw x') fp fp' /\
         match res with
         | InsOk q => q = pid /\ rep (vw x') (S h) lo hi pid fp' (ls1 ++ lsc ++ ls2)
         | InsSplit l' r' sep' leaf => leaf = false /\ sep_ok sep' /\ in_num_keys n = ORDER_INTERNAL /\
             forest (rep (vw x') (S h)) lo hi [l'; r'] [sep'] fp' (ls1 ++ lsc ++ ls2)
         end)
    (fun _ _ => False).
Proof.
  intros Hwf Hat Hn1 Hm Hi Hc [Hs64 Hsb] Hl Hf Hr. pose proof Hat as (p & Hp & Hpok & Hmg & Hnp & Hw).
  pose proof (mv_num _ _ _ _ Hm) as Hnum. rewrite Forall_forall in Hnum.
  destruct (forest_two_roots _ _ _ _ _ _ _ _ _ Hf) as [Hlin Hrin].
  assert (in_u64 l /\ in_u64 r) as [Hlu Hru] by (split; apply page_num_u64, Hnum; set_solver).
  destruct (set_child_at_spec n i l Hw Hi Hlu) as (n2 & -> & Hw2 & Hnum2 & Hks2 & Hcs2). eapply wp_pure; [done|].
  pose proof (forest_unfocus _ _ _ _ _ _ _ _ _ _ _ _ _ _ _ _ _ Hl Hf Hr) as Hall.
  rewrite <-(two_children c (Z.to_nat i) l r) in Hall by done.
  destruct (Z.ltb_spec (in_num_keys n) ORDER_INTERNAL) as [Hlt|Hge].
  - destruct (internal_insert_at_spec n2 i sep r Hw2) as (n3 & -> & Hw3 & Hnum3 & Hks3 & Hcs3); [lia..|done|done|done|].
    eapply wp_pure; [done|]. unfold write_internal_same_pid. apply wp_assoc. eapply wp_read; [done|done|]. apply wp_assoc.
    eapply wp_put_internal; [done|exact Hm|left|done|done|done|]. intros x' Hwf' Hat' Hm' Hv' Hpr'.
    apply wp_bind_ret, wp_ret. split; [done|]. split; [intros m Hmm Hx; apply Hpr'; eapply pr_mono; [exact Hx|lia]|].
    eexists. split; [exact Hm'|]. split; [done|]. cbn. exists n3. eexists. split; [done|]. split; [lia|]. split; [done|].
    rewrite Hks3, Hcs3, Hks2, Hcs2. eapply forest_frame; [exact Hall|]. intros j Hj. apply Hv'. intros ->.
    pose proof (mv_nodup _ _ _ _ Hm) as [Hni _]%NoDup_cons. done.
  - assert (in_num_keys n = ORDER_INTERNAL) as Hfull by (pose proof (iw_num _ Hw); lia).
    eapply wp_mono; [done|eapply (split_internal_spec v0 fp x pid n2 h lo hi i sep r); [done|done|lia|lia|done|done|exact Hm|]|].
    { rewrite Hks2, Hcs2. exact Hall. }
    intros res x' (Hwf' & Hpr' & l' & r' & sep' & fp'' & -> & Hsep & Hm' & Hf'). split; [done|]. split; [done|].
    exists fp''. split; [done|]. done.
Qed.

Lemma absorb_spec v0 fp fuel x pid n h lo hi lo' hi' i c l r sep fp1 fpc fp2 ls1 lsc0 lsc ls2 :
  io_wf x -> internal_at (vw x) pid n -> 1 <= in_num_keys n -> (0 < fuel)%nat ->
  moved v0 (vw x) fp (pid :: fp1 ++ fpc ++ fp2) ->
  0 <= i <= in_num_keys n -> internal_cs n !! Z.to_nat i = Some c -> sep_ok sep ->
  lseg (rep (vw x) h) lo lo' (take (Z.to_nat i) (internal_cs n)) (take (Z.to_nat i) (internal_ks n)) fp1 ls1 ->
  forest (rep (vw x) h) lo' hi' [l; r] [sep] fpc lsc ->
  rseg (rep (vw x) h) hi' hi (drop (S (Z.to_nat i)) (internal_cs n)) (drop (Z.to_nat i) (internal_ks n)) fp2 ls2 ->
  relinked h lsc0 lsc -> (h = O -> length lsc = S (length lsc0)) ->
  wp (absorb_split fuel pid n i l r sep (h =? 0)%nat) 2 x
    (fun res x' => io_wf x' /\ (forall m, 2 <= m -> pr x m -> pr x' (m - 2)) /\
       exists fp' ls', moved v0 (vw x') fp fp' /\ ents ls' = ents (ls1 ++ lsc ++ ls2) /\
         relinked (S h) (ls1 ++ lsc0 ++ ls2) ls' /\
         match res with
         | InsOk q => q = pid /\ rep (vw x') (S h) lo hi pid fp' ls'
         | InsSplit l' r' sep' leaf => leaf = false /\ sep_ok sep' /\ in_num_keys n = ORDER_INTERNAL /\
             forest (rep (vw x') (S h)) lo hi [l'; r'] [sep'] fp' ls'
         end)
    (fun _ _ => False).
Proof.
  intros Hwf Hat Hn1 Hfuel Hm Hi Hc Hsep Hl Hf Hr Hrl Hlen. unfold absorb_split.
  pose proof (mv_nodup _ _ _ _ Hm) as Hnd. pose proof Hnd as [Hni [Hnd1 [Hd1 _]]%NoDup_app]%NoDup_cons.
  destruct ((h =? 0)%nat && (0 <? i)) eqn:Eb.
  - apply andb_true_iff in Eb as [->%Nat.eqb_eq Hpos%Z.ltb_lt].
    assert (in_u64 l) as Hlu.
    { apply page_num_u64. pose proof (mv_num _ _ _ _ Hm) as Hnum. rewrite Forall_forall in Hnum. apply Hnum.
      apply forest_two_roots in Hf. set_solver. }
    pose proof Hat as (p & _ & _ & _ & _ & Hw).
    eapply (wp_update_pred _ _ _ _ _ _ _ _ _ fp1 ls1); [done|exact Hw|lia|exact Hm|set_solver|done|done|done|exact Hl|].
    intros x1 ls1' Hwf1 Hm1 Hv1 Hl1 He1 Hlen1 Hch1 Hpr1.
    eapply wp_mono; [done|eapply (absorb_node v0 fp x1 pid n 0); [done| |done|exact Hm1|done|done|done|exact Hl1| |]|].
    + eapply internal_at_frame; [done|]. apply Hv1. set_solver.
    + eapply forest_frame; [exact Hf|]. intros j Hj. apply Hv1. intros Hj'. apply (Hd1 j Hj'). set_solver.
    + eapply rseg_frame; [exact Hr|]. intros j Hj. apply Hv1. intros Hj'. apply (Hd1 j Hj'). set_solver.
    + intros res x' (Hwf' & Hpr' & fp' & Hm' & Hres). split; [done|]. split; [auto|].
      exists fp', (ls1' ++ lsc ++ ls2). split; [done|]. split; [by rewrite !ents_app, He1|]. split; [|by destruct res].
      eapply relinked_split; [done|auto|done|exact Hf|done].
  - apply wp_bind_ret. eapply wp_mono; [done|eapply (absorb_node v0 fp x pid n h); done|].
    intros res x' (Hwf' & Hpr' & fp' & Hm' & Hres). split; [done|]. split; [auto|].
    exists fp', (ls1 ++ lsc ++ ls2). split; [done|]. split; [done|]. split; [|by destruct res].
    destruct h as [|h]; [|by apply relinked_up]. cbn in Eb. apply Z.ltb_ge in Eb. assert (i = 0) as -> by lia.
    inversion Hl; subst. eapply relinked_split; [done|auto|done|exact Hf|done].
Qed.

Lemma insert_leaf_case fuel x lo hi pid fp ls :
  io_wf x -> rep (vw x) 0 lo hi pid fp ls -> Forall page_num fp -> lo_le lo key -> hi_lt key hi ->
  wp (insert_subtree_batched (S fuel) pid key rid ff) 2 x
    (fun r x' => io_wf x' /\ (forall m, 2 <= m -> pr x m -> pr x' (m - 2)) /\
       ins_post ff (vw x) (vw x') 0 lo hi pid fp ls key rid r)
    (fun e x' => e = DuplicateKey /\ key ∈ (ents ls).*1 /\ x' = x).
Proof.
  intros Hwf Hrep Hnum Hlo Hhi. cbn in Hrep. destruct Hrep as (-> & n & Hat & -> & Hin).
  apply Forall_cons in Hnum as [Hpn _]. pose proof Hat as (p & Hp & Hpok & Hmg & Hn & Hw). rewrite ents_one.
  cbn [insert_subtree_batched]. eapply wp_read; [done|done|].
  rewrite is_leaf_page_leaf, <-Hn, (lw_tag _ Hw), Z.eqb_refl.
  destruct (search_spec _ key Hw ltac:(apply Hin)) as (r & Hs & Hr). rewrite Hs. eapply wp_pure; [done|]. destruct r as [i|i].
  { apply wp_fail. split; [done|]. split; [|done]. destruct Hr as [_ Hk]. by eapply list_elem_of_lookup_2. }
  destruct Hr as (Hi & Hbelow & Habove). destruct (Z.ltb_spec (lf_num_keys n) (fill_threshold ORDER_LEAF ff)) as [Hlt|Hge].
  2: { by apply insert_leaf_split. }
  pose proof (fill_threshold_le ORDER_LEAF ff ltac:(sizes) Hff) as Hth. destruct Hkey as [[Hk0 Hk64] Hkb].
  destruct (leaf_insert_at_spec n i key rid Hw Hi ltac:(lia) Hk64 Hkb Hrid) as (n' & -> & Hw' & Hnx & Hes').
  eapply wp_pure; [done|]. assert (Hm0 : moved (vw x) (vw x) [pid] [pid]).
  { apply moved_refl; [by intros j ->%list_elem_of_singleton|apply NoDup_singleton|by constructor]. }
  eapply wp_put_leaf; [done|exact Hm0|left|done|done|done|]. intros x' Hwf' Hat' Hm' Hv' Hpr'.
  apply wp_ret. split; [done|]. split; [intros m Hmm Hx; apply Hpr'; eapply pr_mono; [exact Hx|lia]|].
  exists [pid], [mkLd pid (lf_next_leaf n) (leaf_es n')]. split; [done|]. rewrite !ents_one. split.
  { rewrite Hes'. apply insert_mid_perm. }
  split; [by left|]. split; [done|]. split; [done|]. exists n'. rewrite Hnx. split; [done|]. split; [done|].
  rewrite Hes'. apply leaf_in_insert; [done..|lia].
Qed.

Lemma safe_full v pid p n : internal_at v pid n -> v pid = Some p -> in_num_keys n = ORDER_INTERNAL -> safe_page ff p = false.
Proof.
  intros (p' & Hp' & _ & _ & -> & Hw) Hp Hn. assert (p' = p) as -> by congruence. unfold safe_page.
  rewrite is_leaf_page_internal, (iw_tag _ Hw). cbn [Z.eqb]. apply Z.ltb_ge. lia.
Qed.

Lemma insert_subtree_spec h : forall fuel x lo hi pid fp ls,
  (h < fuel)%nat -> io_wf x -> rep (vw x) h lo hi pid fp ls -> NoDup fp -> Forall page_num fp -> lo_le lo key -> hi_lt key hi ->
  wp (insert_subtree_batched fuel pid key rid ff) (2 * (Z.of_nat h + 1)) x
    (fun r x' => io_wf x' /\ (forall m, 2 * (Z.of_nat h + 1) <= m -> pr x m -> pr x' (m - 2 * (Z.of_nat h + 1))) /\
       ins_post ff (vw x) (vw x') h lo hi pid fp ls key rid r)
    (fun e x' => e = DuplicateKey /\ key ∈ (ents ls).*1 /\ x' = x).
Proof.
  induction h as [|h IH]; intros fuel x lo hi pid fp ls Hfuel Hwf Hrep Hnd Hnum Hlo Hhi.
  { destruct fuel as [|f]; [lia|]. by apply insert_leaf_case. }
  destruct fuel as [|f]; [lia|]. assert (Hm0 : moved (vw x) (vw x) fp fp) by (apply moved_refl; [by eapply rep_in_use|done|done]).
  cbn in Hrep. destruct Hrep as (n & fp' & Hat & Hn & -> & Hf). pose proof Hat as (p & Hp & _ & _ & Hnp & Hw).
  cbn [insert_subtree_batched]. eapply wp_read; [done|done|].
  rewrite is_leaf_page_internal, <-Hnp, (iw_tag _ Hw). cbn [Z.eqb].
  destruct (forest_keys _ (rep_in (vw x) h) _ _ _ _ _ _ Hf) as [Hs _].
  destruct (find_child_idx_spec _ key Hw Hs) as (i & Hfi & Hi & Hle & Hgt).
  destruct (forest_pick _ _ _ _ _ _ _ key i Hf Hlo Hhi) as
    (c & lo' & hi' & fp1 & fpc & fp2 & ls1 & lsc & ls2 & Hc & Hlo' & Hhi' & Hl & Hrc & Hr & -> & ->);
    [by rewrite internal_ks_length by done|done|done|].
  rewrite Hfi. eapply wp_pure; [done|]. rewrite (child_at_cs _ i Hw Hi), Hc. eapply wp_pure; [done|].
  destruct (rep_in_use _ _ _ _ _ _ _ Hrc c (rep_root_in _ _ _ _ _ _ _ Hrc)) as [pc Hpc].
  unfold child_is_safe_for_insert. apply wp_assoc. eapply wp_read; [done|done|]. apply wp_bind_ret.
  change (if is_leaf_page pc then _ else _) with (safe_page ff pc).
  rewrite (focus_perm pid fp1 fpc fp2) in Hnd, Hnum. apply Forall_app in Hnum as [_ Hnumc]. apply NoDup_app in Hnd as (_ & _ & Hndc).
  assert (Hchild := IH f x lo' hi' c fpc lsc ltac:(lia) Hwf Hrc Hndc Hnumc Hlo' Hhi').
  eapply (wp_weaken _ _ _ _ (fun e x' => e = DuplicateKey /\ key ∈ (ents (ls1 ++ lsc ++ ls2)).*1 /\ x' = x)) in Hchild;
    [|intros e x' (? & Hk & ?); split; [done|]; split; [by apply ents_mid|done]].
  destruct (safe_page ff pc) eqn:Esafe.
  - eapply wp_call; [exact Hchild|lia|]. intros r x' (Hwf' & Hpr' & fpc' & lsc' & Hm' & He' & Hrl' & Hres).
    split; [done|]. apply wp_ret. split; [done|]. split.
    { intros m Hmm Hx. eapply pr_mono; [apply (Hpr' m); [lia|done]|lia]. }
    destruct r as [q|l r sep leaf]; [|destruct Hres as (_ & _ & _ & Hbad); by rewrite (Hbad pc Hpc) in Esafe].
    destruct Hres as [-> Hrep']. destruct (around_child _ _ _ _ _ _ _ _ _ _ _ _ _ _ _ _ Hat Hm0 Hl Hr Hm') as (Hm1 & Hat1 & Hl1 & Hr1).
    exists (pid :: fp1 ++ fpc' ++ fp2), (ls1 ++ lsc' ++ ls2). split; [done|]. split; [by apply ents_mid_perm|].
    split; [eapply relinked_up; [done|by eapply relinked_not_split]|]. split; [done|]. by eapply replace_child.
  - eapply wp_call; [exact Hchild|lia|]. intros r x' (Hwf' & Hpr' & fpc' & lsc' & Hm' & He' & Hrl' & Hres). split; [done|].
    destruct (around_child _ _ _ _ _ _ _ _ _ _ _ _ _ _ _ _ Hat Hm0 Hl Hr Hm') as (Hm1 & Hat1 & Hl1 & Hr1).
    destruct r as [q|l r sep leaf].
    + destruct Hres as [-> Hrep']. rewrite Z.eqb_refl. apply wp_ret. split; [done|]. split.
      { intros m Hmm Hx. eapply pr_mono; [apply (Hpr' m); [lia|done]|lia]. }
      exists (pid :: fp1 ++ fpc' ++ fp2), (ls1 ++ lsc' ++ ls2). split; [done|]. split; [by apply ents_mid_perm|].
      split; [eapply relinked_up; [done|by eapply relinked_not_split]|]. split; [done|]. by eapply replace_child.
    + destruct Hres as (-> & Hsep & Hf' & _). eapply wp_weaken; [eapply (wp_mono _ _ 2); [lia| |]|].
      * eapply (absorb_spec (vw x) _ f x' pid n h lo hi lo' hi' i c l r sep fp1 fpc' fp2 ls1 lsc lsc' ls2);
          [done|done|done|lia|exact Hm1|done|done|done|done|done|done|done|].
        eapply relinked_is_split; [done|by eapply rep_one_leaf|done].
      * intros res x2 (Hwf2 & Hpr2 & fp2' & ls' & Hm2 & He2 & Hrl2 & Hres2). split; [done|]. split.
        { intros m Hmm Hx. replace (m - 2 * (Z.of_nat (S h) + 1)) with (m - 2 * (Z.of_nat h + 1) - 2) by lia.
          apply Hpr2; [lia|]. apply Hpr'; [lia|done]. }
        exists fp2', ls'. split; [done|]. split; [rewrite He2; by apply ents_mid_perm|]. split; [done|].
        destruct res as [q|l2 r2 sep2 leaf2]; [done|]. destruct Hres2 as (-> & ? & Hfull & ?). do 3 (split; [done|]).
        intros q Hq. by apply (safe_full (vw x) pid q n).
      * done.
Qed.

(** *** The root *)

Lemma alloc_root_spec v0 fp fp' x h l r sep ls :
  io_wf x -> moved v0 (vw x) fp fp' -> forest (rep (vw x) h) None None [l; r] [sep] fp' ls -> sep_ok sep ->
  wp (alloc_root_batched sep l r) 1 x
    (fun root x' => io_wf x' /\ (forall m, 1 <= m -> pr x m -> pr x' (m - 1)) /\ moved v0 (vw x') fp (root :: fp') /\
       rep (vw x') (S h) None None root (root :: fp') ls)
    (fun _ _ => False).
Proof.
  intros Hwf Hm Hf [Hs64 Hsb]. unfold alloc_root_batched. eapply wp_alloc_at; [done|lia|exact Hm|].
  intros pid x1 Hwf1 Hm1 Hpn Hni Hv1 Hpr1. destruct (page_new_ok pid) as [Hok Hmg]; [by apply page_num_u64|].
  pose proof (mv_num _ _ _ _ Hm) as Hnum. rewrite Forall_forall in Hnum. apply forest_two_roots in Hf as Hlr.
  assert (in_u64 l /\ in_u64 r) as [Hlu Hru] by (split; apply page_num_u64, Hnum; tauto).
  cbv zeta. rewrite cast_internal_new by (by apply page_num_u64).
  set (n0 := internal_set_num_keys _ 1). assert (internal_wf n0) as Hw0.
  { split; [|done|done|by repeat constructor]. split; [done|done|done|apply (zeros_array 4)|apply (zeros_array 223)|done| |done|].
    - cbn [n0 internal_set_num_keys in_children internal_zeroed]. apply Forall_replicate. widths.
    - cbn [n0 internal_set_num_keys in_keys internal_zeroed]. apply Forall_replicate, (zeros_array 64). }
  destruct (set_child_at_spec n0 0 l Hw0) as (n1 & -> & Hw1 & Hn1 & Hk1 & Hc1); [done|done|]. eapply wp_pure; [done|].
  assert (in_num_keys n1 = 1) as Hn1' by (by rewrite Hn1).
  destruct (set_child_at_spec n1 1 r Hw1) as (n2 & -> & Hw2 & Hn2 & Hk2 & Hc2); [lia|done|]. eapply wp_pure; [done|].
  destruct (internal_set_key_at_spec n2 0 sep Hw2) as (n3 & -> & Hw3 & Hn3 & Hk3 & Hc3); [lia|done|done|]. eapply wp_pure; [done|].
  eapply wp_put_internal; [done|exact Hm1|left|done|done|done|]. intros x2 Hwf2 Hat2 Hm2 Hv2 Hpr2.
  apply wp_ret. split; [done|]. split; [intros m Hmm Hx; apply Hpr2, Hpr1; [lia|done]|]. split; [done|]. cbn. exists n3, fp'. split; [done|]. split; [lia|]. split; [done|].
  rewrite Hk3, Hc3, Hk2, Hc2, Hk1, Hc1. change (internal_ks n0) with [[] : bytes]. change (internal_cs n0) with [0; 0].
  eapply forest_frame; [exact Hf|]. intros j Hj. rewrite Hv2 by (intros ->; done). by apply Hv1.
Qed.

(** The tree after an insertion that succeeded. *)
Definition inserted (x x' : Io St) (h : nat) (fp : list Z) (ls : list leafd) (root' : Z) : Prop :=
  exists h' fp' ls', tree_at (vw x') h' root' fp' ls' /\ (h <= h' <= S h)%nat /\ moved (vw x) (vw x') fp fp' /\
    ents ls' ≡ₚ (key, rid) :: ents ls /\
    (forall z, chain ls z -> chain ls' z \/ (2 <= h)%nat /\ length ls' = S (length ls)).

Lemma try_insert_spec fuel x h root fp ls :
  (h < fuel)%nat -> io_wf x -> tree_at (vw x) h root fp ls ->
  wp (try_insert_leaf_optimistically fuel root key rid ff) 0 x
    (fun o x' => match o with
                 | OptDone _ => io_wf x' /\ (forall m, pr x m -> pr x' m) /\ inserted x x' h fp ls root
                 | OptNeedPessimistic => x' = x
                 | OptRetry => False
                 end)
    (fun e x' => e = DuplicateKey /\ key ∈ (ents ls).*1 /\ x' = x).
Proof.
  intros Hfuel Hwf (Hrep & Hnd & Hnum). unfold try_insert_leaf_optimistically.
  destruct (find_leaf_spec fuel x h None None root fp ls key Hwf Hrep Hnd I I Hfuel) as
    (c & Hfl & lo' & hi' & n & ls1 & ls2 & Hcin & Hat & -> & Hin & Hlo & Hhi & Hb & Ha & Hup).
  eapply wp_run; [done|].
  pose proof Hat as (p & Hp & Hpok & Hmg & Hn & Hw). eapply wp_read; [done|done|].
  rewrite is_leaf_page_leaf, <-Hn, (lw_tag _ Hw). cbn [Z.eqb Pos.eqb negb].
  destruct (search_spec _ key Hw ltac:(apply Hin)) as (r & Hs & Hr). rewrite Hs. eapply wp_pure; [done|]. destruct r as [i|i].
  { apply wp_fail. split; [done|]. split; [|done]. destruct Hr as [_ Hk]. apply (ents_mid ls1 [_] ls2). rewrite ents_one.
    by eapply list_elem_of_lookup_2. }
  destruct Hr as (Hi & Hbelow & Habove). destruct (Z.ltb_spec (lf_num_keys n) (fill_threshold ORDER_LEAF ff)) as [Hlt|Hge]; [|done].
  cbn [negb]. pose proof (fill_threshold_le ORDER_LEAF ff ltac:(sizes) Hff) as Hth. destruct Hkey as [[Hk0 Hk64] Hkb].
  destruct (leaf_insert_at_spec n i key rid Hw Hi ltac:(lia) Hk64 Hkb Hrid) as (n' & -> & Hw' & Hnx & Hes').
  eapply wp_pure; [done|]. assert (Hm0 : moved (vw x) (vw x) fp fp) by (apply moved_refl; [by eapply rep_in_use|done|done]).
  eapply wp_put_leaf; [done|exact Hm0|done|done|done|done|]. intros x' Hwf' Hat' Hm' Hv' Hpr'.
  apply wp_ret. split; [done|]. split; [done|]. exists h, fp, (ls1 ++ [mkLd c (lf_next_leaf n') (leaf_es n')] ++ ls2). split_and!.
  - split; [|done]. apply Hup; [intros j _ Hj; by apply Hv'|done|]. rewrite Hes'. by apply leaf_in_insert; [..|lia].
  - lia.
  - lia.
  - done.
  - apply (ents_mid_perm ls1 [mkLd c (lf_next_leaf n) (leaf_es n)]). rewrite !ents_one, Hes'. apply insert_mid_perm.
  - intros z Hc. left. eapply chain_links; [|exact Hc]. rewrite !fmap_app. cbn. unfold link. cbn. by rewrite Hnx.
Qed.

Lemma insert_in_spec fuel x h root fp ls :
  (h < fuel)%nat -> io_wf x -> tree_at (vw x) h root fp ls ->
  wp (insert_in_with_batch fuel root key rid ff) (2 * Z.of_nat h + 3) x
    (fun root' x' => io_wf x' /\ (forall m, 2 * Z.of_nat h + 3 <= m -> pr x m -> pr x' (m - (2 * Z.of_nat h + 3))) /\
       inserted x x' h fp ls root')
    (fun e x' => e = DuplicateKey /\ key ∈ (ents ls).*1 /\ x' = x).
Proof.
  intros Hfuel Hwf Ht. destruct fuel as [|f]; [lia|]. cbn [insert_in_with_batch].
  eapply wp_run; [apply check_key_in, Hkey|]. eapply wp_call; [by apply (try_insert_spec (S f) x h root fp ls)|lia|].
  intros o x' Ho. rewrite Z.sub_0_r. destruct o as [u| |]; [|subst x'|done].
  - destruct Ho as (Hwf' & Hpr & Hins). split; [intros m _ Hx; rewrite Z.sub_0_r; auto|]. apply wp_ret. split; [done|]. split; [|done].
    intros m Hmm Hx. apply Hpr. eapply pr_mono; [exact Hx|lia].
  - split; [intros m _ Hx; by rewrite Z.sub_0_r|]. destruct Ht as (Hrep & Hnd & Hnum).
    eapply wp_call; [by apply (insert_subtree_spec h (S f) x None None root fp ls)|lia|].
    intros r x' (Hwf' & Hpr' & fp' & ls' & Hm & He & Hrl & Hres). split; [done|].
    assert (Hch : forall z, chain ls z -> chain ls' z \/ (2 <= h)%nat /\ length ls' = S (length ls)).
    { intros z Hc. destruct (decide (h <= 1)%nat); [left; by eapply relinked_chain|]. destruct Hrl as [Hlk|[Hlen _]].
      - left. by eapply chain_links.
      - right. split; [lia|done]. }
    destruct r as [q|l r sep leaf].
    + destruct Hres as [-> Hrep']. apply wp_ret. split; [done|].
      split; [intros m Hmm Hx; eapply pr_mono; [apply (Hpr' m); [lia|done]|lia]|]. exists h, fp', ls'.
      split; [split; [done|split; [apply Hm|apply Hm]]|]. split; [lia|]. done.
    + destruct Hres as (_ & Hsep & Hf & _). eapply wp_weaken; [eapply (wp_mono _ _ 1); [lia|by eapply alloc_root_spec|]|done].
      intros root' x2 (Hwf2 & Hpr2 & Hm2 & Hrep2). split; [done|]. split.
      { intros m Hmm Hx. replace (m - (2 * Z.of_nat h + 3)) with (m - 2 * (Z.of_nat h + 1) - 1) by lia. apply Hpr2; [lia|].
        apply Hpr'; [lia|done]. }
      exists (S h), (root' :: fp'), ls'.
      split; [split; [done|split; [apply Hm2|apply Hm2]]|]. split; [lia|]. done.
Qed.

Lemma inserted_map x x' h fp ls root' root : tree_at (vw x) h root fp ls -> inserted x x' h fp ls root' ->
  tmap ls !! key = None /\
  exists h' fp' ls', tree_at (vw x') h' root' fp' ls' /\ (h <= h' <= S h)%nat /\ moved (vw x) (vw x') fp fp' /\
    tmap ls' = <[key := rid]> (tmap ls) /\ (forall z, chain ls z -> chain ls' z \/ (2 <= h)%nat /\ length ls' = S (length ls)).
Proof.
  intros (Hrep & _) (h' & fp' & ls' & Ht' & Hh & Hm & He & Hc). pose proof Ht' as (Hrep' & _).
  apply tree_nodup in Hrep, Hrep'. pose proof Hrep' as Hnd. rewrite He in Hnd. cbn in Hnd. apply NoDup_cons in Hnd as [Hni _].
  split; [by apply not_elem_of_list_to_map|]. exists h', fp', ls'. do 3 (split; [done|]). split; [|done].
  unfold tmap. by rewrite (list_to_map_proper _ _ Hrep' He).
Qed.
End Insert.

(** The pages an insertion may need: two per level that is split, one for a new root. *)
Definition ins_budget (h : nat) : Z := 2 * Z.of_nat h + 3.

Section InsertTheorem.
Context {St : Type} {C : Crc32c} {CR : Crc32cRange C} {E : StorageEngine St} {L : StorageLaws St} {R : PageRoom St}.

(** C8: inserting into a tree of height [h], when the engine has room for [2 h + 3] pages:
    a key that is already there is refused and nothing changes; otherwise the new tree
    stands for the old map with the entry added, its height grew by at most one, every page
    outside the old and the new tree is untouched, and the pages that the tree gave up are
    free.  The links between the leaves are kept, except possibly when a leaf was split in
    a tree with two or more levels of internal nodes. *)
Theorem btree_insert_correct (x : Io St) h root fp ls key rid ff fuel :
  io_wf x -> tree_at (vw x) h root fp ls -> (h < fuel)%nat -> key_ok key -> rid_ok rid -> ff <= 100 ->
  pr x (ins_budget h) ->
  match tmap ls !! key with
  | Some _ => insert_in_with_batch fuel root key rid ff x = Some (Err DuplicateKey, x)
  | None =>
      exists root' x', insert_in_with_batch fuel root key rid ff x = Some (Ok root', x') /\ io_wf x' /\
        (forall m, ins_budget h <= m -> pr x m -> pr x' (m - (ins_budget h))) /\
        exists h' fp' ls', tree_at (vw x') h' root' fp' ls' /\ (h <= h' <= S h)%nat /\
          moved (vw x) (vw x') fp fp' /\ tmap ls' = <[key := rid]> (tmap ls) /\
          forall z, chain ls z -> chain ls' z \/ (2 <= h)%nat /\ length ls' = S (length ls)
  end.
Proof.
  intros Hwf Ht Hh Hk Hr Hff Hpr. pose proof (insert_in_spec ff key rid Hff Hk Hr fuel x h root fp ls Hh Hwf Ht) as Hw.
  unfold wp in Hw. destruct (insert_in_with_batch fuel root key rid ff x) as [[[root'|e] x']|]; [| |done].
  - destruct Hw as (Hwf' & Hpr' & Hins). eapply inserted_map in Hins as [Hnone Hins]; [|done]. rewrite Hnone.
    exists root', x'. do 3 (split; [done|]). exact Hins.
  - destruct Hw as [(-> & Hin & ->)|Hw]; [|done]. destruct (tmap ls !! key) eqn:Hl; [done|].
    by apply not_elem_of_list_to_map in Hl.
Qed.
End InsertTheorem.

#[local] Existing Instance crc32c_ref.
#[local] Existing Instance crc32c_ref_range.

Lemma btree_lookup_correct_witness :
  exists (x : Io MemoryStorage) root, lookup_in 1 root [107] x = Some (Ok None, x) /\
    lookup_in 1 root [] x = Some (Err (KeyTooLong 0 64), x).
Proof.
  destruct sample_tree as (x & root & Hwf & _ & Ht). exists x, root.
  split; rewrite (btree_lookup_correct x 0 root _ _ _ 1 Hwf Ht) by lia; done.
Defined.

Lemma btree_insert_correct_witness :
  exists (x x' : Io MemoryStorage) root root' h' fp' ls',
    insert_in_with_batch 1 root [107] (mkRid 7 3) 90 x = Some (Ok root', x') /\
    tree_at (vw x') h' root' fp' ls' /\ tmap ls' = {[ [107] := mkRid 7 3 ]}.
Proof.
  destruct sample_tree as (x & root & Hwf & Hpr & Ht). assert (pr (PageRoom := engine_room) x (2 * Z.of_nat 0 + 3)) as Hpr'.
  { eapply pr_mono; [exact Hpr|lia]. }
  assert (key_ok [107]) as Hk by (split; [cbn; sizes|by repeat constructor]). assert (rid_ok (mkRid 7 3)) as Hr by (split; cbn; widths).
  destruct (btree_insert_correct (R := engine_room) x 0 root _ _ [107] (mkRid 7 3) 90 1 Hwf Ht ltac:(lia) Hk Hr ltac:(lia) Hpr')
    as (root' & x' & Hi & _ & _ & h' & fp' & ls' & Ht' & _ & _ & Hm & _).
  exists x, x', root, root', h', fp', ls'. split; [exact Hi|]. split; [exact Ht'|exact Hm].
Defined.

(** A tree that holds one entry. *)
Lemma sample_tree_with key rid : key_ok key -> rid_ok rid ->
  exists (x : Io MemoryStorage) root h fp ls, io_wf x /\ tree_at (vw x) h root fp ls /\ (h <= 1)%nat /\
    pr (PageRoom := engine_room) x 30 /\ tmap ls = {[ key := rid ]} /\ chain ls NULL_PAGE.
Proof.
  intros Hk Hr. destruct sample_tree as (x & root & Hwf & Hpr & Ht).
  pose proof (insert_in_spec (R := engine_room) 90 key rid ltac:(lia) Hk Hr 1 x 0 root _ _ ltac:(lia) Hwf Ht) as Hw.
  unfold wp in Hw. assert (pr (PageRoom := engine_room) x (2 * Z.of_nat 0 + 3)) as Hpr0 by (eapply pr_mono; [exact Hpr|lia]).
  destruct (insert_in_with_batch 1 root key rid 90 x) as [[[root'|e] x']|]; [| |done].
  - destruct Hw as (Hwf' & Hpr' & Hins). eapply inserted_map in Hins as [_ (h' & fp' & ls' & Ht' & Hh & _ & Hm & Hc)]; [|done].
    exists x', root', h', fp', ls'. split; [done|]. split; [done|]. split; [lia|]. split; [|split; [exact Hm|]].
    + eapply pr_mono; [apply (Hpr' 40); [lia|exact Hpr]|lia].
    + destruct (Hc NULL_PAGE) as [?|[? _]]; [done|done|lia].
  - destruct Hw as [(_ & Hin & _)|Hw]; [|done]. by apply not_elem_of_nil in Hin.
Qed.

Lemma sample_tree_one : exists (x : Io MemoryStorage) root h fp ls, io_wf x /\ tree_at (vw x) h root fp ls /\ (h <= 1)%nat /\
  pr (PageRoom := engine_room) x 30 /\ tmap ls = {[ [107] := mkRid 7 3 ]} /\ chain ls NULL_PAGE.
Proof. apply sample_tree_with; [split; [cbn; sizes|by repeat constructor]|split; cbn; widths]. Qed.
