(* ===== verification/BTreeMove.v ===== *)
(** * Moving entries between siblings

    The pure part of the rotations and merges of deletion: what the parent and the two
    siblings hold afterwards. *)

From S2P Require Import Prelude SlotBitmap Page FreeList Storage PageIo ByteOrder BTreeNode BTree.

(** A raw key slot that holds [k]. *)
Definition slot_val (len : Z) (kk k : bytes) : Prop :=
  byte_ok len /\ len <= MAX_KEY_LEN /\ array_of MAX_KEY_LEN kk /\ take (Z.to_nat len) kk = k.

(** The first keys and children in the arrays, whatever the count of the node says. *)
Record in_has (n : InternalNodePage) (ks : list bytes) (cs : list Z) : Prop := {
  ih_sized : internal_sized n;
  ih_tag : in_is_leaf n = 0;
  ih_kn : zlen ks <= ORDER_INTERNAL;
  ih_cn : zlen cs <= ORDER_INTERNAL + 1;
  ih_ks : take (length ks) (pack (in_key_lens n) (in_keys n)) = ks;
  ih_lens : Forall (fun l => l <= MAX_KEY_LEN) (take (length ks) (in_key_lens n));
  ih_cs : take (length cs) (in_children n) = cs
}.

Lemma in_has_wf n : internal_wf n -> in_has n (internal_ks n) (internal_cs n).
Proof.
  intros Hw. pose proof (internal_ks_length n Hw) as Hk. pose proof (internal_cs_length n Hw) as Hc. pose proof Hw as [Hs Ht Hn Hl].
  split; [done|done|lia|lia| | |].
  - unfold internal_ks at 2. f_equal. lia.
  - replace (length (internal_ks n)) with (Z.to_nat (in_num_keys n)) by lia. done.
  - unfold internal_cs at 2. f_equal. lia.
Qed.

Lemma in_has_finish n ks cs : in_has n ks cs -> length cs = S (length ks) ->
  forall k, k = zlen ks -> internal_wf (internal_set_num_keys n k) /\ in_num_keys (internal_set_num_keys n k) = k /\
    internal_ks (internal_set_num_keys n k) = ks /\ internal_cs (internal_set_num_keys n k) = cs.
Proof.
  intros Hh Hc k ->. destruct Hh as [Hs Ht Hk Hcn Hks Hl Hcs].
  assert (wrap16 (zlen ks) = zlen ks) as Hw by (unfold wrap16; rewrite Z.mod_small; sizes).
  split; [|split; [done|split]].
  - split; cbn; rewrite ?Hw, ?Nat2Z.id; [|done|lia|done]. destruct Hs as [P1 P2 P3 P4 P5 P6 P7 P8 P9]. split; cbn; try done.
    rewrite Hw. unfold in_u16. sizes.
  - unfold internal_ks. cbn [internal_set_num_keys in_num_keys in_key_lens in_keys]. by rewrite Hw, Nat2Z.id.
  - unfold internal_cs. cbn [internal_set_num_keys in_num_keys in_children]. rewrite Hw. rewrite <-Hcs. f_equal. lia.
Qed.

(** Without changing the count. *)
Lemma in_has_same n ks cs : in_has n ks cs -> length cs = S (length ks) -> in_num_keys n = zlen ks ->
  internal_wf n /\ internal_ks n = ks /\ internal_cs n = cs.
Proof.
  intros Hh Hc Hn. destruct (in_has_finish n ks cs Hh Hc (in_num_keys n) Hn) as (Hw & _ & Hk & Hcs).
  assert (internal_set_num_keys n (in_num_keys n) = n) as Heq.
  { pose proof (ih_kn _ _ _ Hh). unfold internal_set_num_keys, wrap16. rewrite Z.mod_small by sizes. by destruct n. }
  by rewrite Heq in *.
Qed.

Lemma in_has_prefix n ks cs (a b : nat) : in_has n ks cs -> in_has n (take a ks) (take b cs).
Proof.
  intros [Hs Ht Hk Hcn Hks Hl Hcs]. split; [done|done|rewrite length_take; lia|rewrite length_take; lia| | |].
  - rewrite <-Hks at 2. rewrite take_take. f_equal. rewrite length_take. lia.
  - rewrite length_take. rewrite <-(take_take_le _ _ (length ks)) by lia. by apply Forall_take.
  - rewrite <-Hcs at 2. rewrite take_take. f_equal. rewrite length_take. lia.
Qed.

Lemma take_insert_grow {A} (l : list A) (m i : nat) x :
  (i <= m)%nat -> (i < length l)%nat -> (m <= length l)%nat ->
  take (length (take i (take m l) ++ x :: drop (S i) (take m l))) (<[i := x]> l) = take i (take m l) ++ x :: drop (S i) (take m l).
Proof.
  intros Him Hil Hml. rewrite take_take_le by done. rewrite (insert_take_drop l i x) by done.
  rewrite length_app. cbn [length]. rewrite length_take, length_drop, length_take, Nat.min_l by lia.
  rewrite take_app_add' by (rewrite length_take; lia). f_equal. cbn [take]. f_equal.
  destruct (decide (i < m)%nat).
  - rewrite take_drop_commute. do 2 f_equal. lia.
  - replace (Nat.min m (length l) - S i)%nat with O by lia. by rewrite (drop_ge (take m l)) by (rewrite length_take; lia).
Qed.

Lemma take_insert_has {A} (l ks : list A) (i : nat) x :
  take (length ks) l = ks -> (i <= length ks)%nat -> (i < length l)%nat -> (length ks <= length l)%nat ->
  take (length (take i ks ++ x :: drop (S i) ks)) (<[i := x]> l) = take i ks ++ x :: drop (S i) ks.
Proof. intros H ? ? ?. pose proof (take_insert_grow l (length ks) i x) as Hg. rewrite H in Hg. auto. Qed.

Lemma set_slot_has n ks cs i len kk k :
  in_has n ks cs -> 0 <= i <= zlen ks -> i < ORDER_INTERNAL -> slot_val len kk k ->
  exists n', set_slot n i len kk = Some n' /\ in_num_keys n' = in_num_keys n /\
    in_has n' (take (Z.to_nat i) ks ++ k :: drop (S (Z.to_nat i)) ks) cs.
Proof.
  intros [Hs Ht Hk Hcn Hks Hl Hcs] Hi Hio (Hb & Hlm & Hka & Hkk). destruct (is_lens _ Hs) as [Hll Hlb]. pose proof (is_keys_len _ Hs) as Hkl.
  unfold set_slot. rewrite !arr_set_ok by lia. cbn [mbind option_bind]. eexists. split; [done|]. split; [done|].
  assert (length (pack (in_key_lens n) (in_keys n)) = 223%nat) as Hpl by (unfold pack; rewrite length_zip_with; sizes).
  assert (Hlen : length (take (Z.to_nat i) ks ++ k :: drop (S (Z.to_nat i)) ks) = Nat.max (length ks) (S (Z.to_nat i))).
  { rewrite length_app, length_take. cbn [length]. rewrite length_drop. lia. }
  split; cbn [internal_set_arrays in_key_lens in_keys in_children in_is_leaf]; [|done|lia|done| | |done].
  - destruct Hs as [P1 P2 P3 P4 P5 P6 P7 P8 P9]. split; cbn; try done.
    + split; [by rewrite length_insert|by apply Forall_insert].
    + by rewrite length_insert.
    + by apply Forall_insert.
  - unfold pack. rewrite <-insert_zip_with. fold (pack (in_key_lens n) (in_keys n)). rewrite Hkk.
    apply take_insert_has; [done|sizes..].
  - rewrite Hlen. destruct (decide (Z.to_nat i < length ks)%nat).
    + rewrite Nat.max_l by lia. rewrite take_insert_lt by done. by apply Forall_insert.
    + assert (Z.to_nat i = length ks) as Heq by lia. rewrite Nat.max_r by lia. rewrite Heq.
      rewrite (take_S_r _ _ len) by (apply list_lookup_insert_eq; sizes). rewrite take_insert_ge by lia.
      apply Forall_app. split; [done|by constructor].
Qed.

Lemma set_child_has n ks cs i c :
  in_has n ks cs -> 0 <= i <= zlen cs -> i <= ORDER_INTERNAL -> in_u64 c ->
  exists n', set_child_at n i c = Some n' /\ in_num_keys n' = in_num_keys n /\
    in_has n' ks (take (Z.to_nat i) cs ++ c :: drop (S (Z.to_nat i)) cs).
Proof.
  intros [Hs Ht Hk Hcn Hks Hl Hcs] Hi Hio Hc. pose proof (is_children_len _ Hs) as Hcl.
  unfold set_child_at. rewrite !arr_set_ok by lia. cbn [mbind option_bind]. eexists. split; [done|]. split; [done|].
  split; cbn [internal_set_arrays in_key_lens in_keys in_children in_is_leaf]; [|done|done| |done|done|].
  - destruct Hs as [P1 P2 P3 P4 P5 P6 P7 P8 P9]. split; cbn; try done.
    + by rewrite length_insert.
    + by apply Forall_insert.
  - rewrite length_app, length_take. cbn [length]. rewrite length_drop. lia.
  - apply take_insert_has; [done|sizes..].
Qed.

(** The raw slots of a node. *)
Lemma in_slot n ks cs i k : in_has n ks cs -> 0 <= i -> ks !! Z.to_nat i = Some k ->
  exists len kk, arr_get (in_key_lens n) i = Some len /\ arr_get (in_keys n) i = Some kk /\ slot_val len kk k.
Proof.
  intros [Hs Ht Hk Hcn Hks Hl Hcs] Hi He. pose proof (lookup_lt_Some _ _ _ He) as Hlt. rewrite <-Hks in He.
  apply lookup_take_Some in He as [He _]. apply lookup_zip_with_Some in He as (len & kk & -> & Hlen & Hkk).
  exists len, kk. rewrite !arr_get_ok by done. do 2 (split; [done|]). split; [|split; [|split; [|done]]].
  - destruct (is_lens _ Hs) as [_ Hb]. by apply (Forall_lookup_1 _ _ _ _ Hb Hlen).
  - apply (Forall_lookup_1 _ _ (Z.to_nat i) _ Hl). by rewrite lookup_take_lt.
  - apply (Forall_lookup_1 _ _ _ _ (is_keys _ Hs) Hkk).
Qed.

Lemma in_child n ks cs i c : in_has n ks cs -> 0 <= i -> cs !! Z.to_nat i = Some c -> child_at n i = Some c /\ in_u64 c.
Proof.
  intros [Hs Ht Hk Hcn Hks Hl Hcs] Hi He. rewrite <-Hcs in He. apply lookup_take_Some in He as [He _].
  unfold child_at. rewrite arr_get_ok by done. split; [done|]. apply (Forall_lookup_1 _ _ _ _ (is_children _ Hs) He).
Qed.

Lemma leaf_slot n i k r : leaf_wf n -> 0 <= i -> leaf_es n !! Z.to_nat i = Some (k, r) ->
  exists len kk b, arr_get (lf_key_lens n) i = Some len /\ arr_get (lf_keys n) i = Some kk /\ slot_val len kk k /\
    arr_get (lf_rids n) i = Some b /\ decode_rid b = r /\ array_of 10 b.
Proof.
  intros Hw Hi He. pose proof Hw as [Hs _ Hn Hl]. unfold leaf_es, leaf_slots in He.
  apply lookup_take_Some in He as [He Hlt]. apply lookup_zip_with_Some in He as (k' & r' & [= <- <-] & Hk & Hr).
  apply lookup_zip_with_Some in Hk as (len & kk & -> & Hlen & Hkk). apply list_lookup_fmap_Some in Hr as (b & -> & Hb).
  exists len, kk, b. rewrite !arr_get_ok by done. do 2 (split; [done|]). split; [|split; [done|split; [done|]]].
  - split; [|split; [|split; [|done]]].
    + destruct (ls_lens _ Hs) as [_ Hb']. by apply (Forall_lookup_1 _ _ _ _ Hb' Hlen).
    + apply (Forall_lookup_1 _ _ (Z.to_nat i) _ Hl). by rewrite lookup_take_lt.
    + apply (Forall_lookup_1 _ _ _ _ (ls_keys _ Hs) Hkk).
  - apply (Forall_lookup_1 _ _ _ _ (ls_rids _ Hs) Hb).
Qed.

Lemma slot_val_key lens keys i len kk k :
  arr_get lens i = Some len -> arr_get keys i = Some kk -> slot_val len kk k -> slot_key lens keys i = Some k.
Proof.
  intros Hl Hk (_ & Hm & [Ha _] & <-). unfold slot_key. rewrite Hl, Hk. cbn [mbind option_bind].
  by rewrite (proj2 (Z.leb_le _ _)) by lia.
Qed.

(** The parent of two siblings: its separator and the two pages. *)
Lemma set_parent parent i len kk k a b :
  internal_wf parent -> 0 <= i < in_num_keys parent -> slot_val len kk k -> in_u64 a -> in_u64 b ->
  exists p1 p2 p3, set_slot parent i len kk = Some p1 /\ set_child_at p1 i a = Some p2 /\ set_child_at p2 (i + 1) b = Some p3 /\
    internal_wf p3 /\ in_num_keys p3 = in_num_keys parent /\
    internal_ks p3 = take (Z.to_nat i) (internal_ks parent) ++ k :: drop (S (Z.to_nat i)) (internal_ks parent) /\
    internal_cs p3 = take (Z.to_nat i) (internal_cs parent) ++ a :: b :: drop (S (S (Z.to_nat i))) (internal_cs parent).
Proof.
  intros Hw Hi Hs Ha Hb. pose proof (in_has_wf _ Hw) as H0. pose proof (iw_num _ Hw) as Hn.
  pose proof (internal_ks_length _ Hw) as Hkl. pose proof (internal_cs_length _ Hw) as Hcl.
  destruct (set_slot_has _ _ _ i len kk k H0) as (p1 & -> & Hn1 & H1); [lia|lia|done|].
  destruct (set_child_has _ _ _ i a H1) as (p2 & E2 & Hn2 & H2); [lia|lia|done|].
  set (ks1 := take _ (internal_ks parent) ++ _) in *. set (cs1 := take _ (internal_cs parent) ++ _) in *.
  assert (zlen cs1 = zlen (internal_cs parent)) as Hc1.
  { unfold cs1. rewrite length_app, length_take. cbn [length]. rewrite length_drop. lia. }
  destruct (set_child_has _ _ _ (i + 1) b H2) as (p3 & E3 & Hn3 & H3); [lia|lia|done|].
  exists p1, p2, p3. do 3 (split; [done|]).
  assert (zlen ks1 = zlen (internal_ks parent)) as Hk1.
  { unfold ks1. rewrite length_app, length_take. cbn [length]. rewrite length_drop. lia. }
  replace (Z.to_nat (i + 1)) with (S (Z.to_nat i)) in H3 by lia.
  assert (Hcs : take (S (Z.to_nat i)) cs1 ++ b :: drop (S (S (Z.to_nat i))) cs1 =
    take (Z.to_nat i) (internal_cs parent) ++ a :: b :: drop (S (S (Z.to_nat i))) (internal_cs parent)).
  { assert (length (take (Z.to_nat i) (internal_cs parent)) = Z.to_nat i) as Hl by (rewrite length_take; lia).
    unfold cs1. rewrite take_app_ge, drop_app_ge by lia. rewrite Hl.
    replace (S (Z.to_nat i) - Z.to_nat i)%nat with 1%nat by lia. replace (S (S (Z.to_nat i)) - Z.to_nat i)%nat with 2%nat by lia.
    cbn [take drop]. rewrite take_0, <-app_assoc, drop_drop. cbn. do 4 f_equal. lia. }
  rewrite Hcs in H3. destruct (in_has_same _ _ _ H3) as (Hw3 & Hk3 & Hcs3); [|lia|].
  { rewrite length_app, length_take. cbn [length]. rewrite length_drop. lia. }
  split; [done|]. split; [lia|]. done.
Qed.

(** ** Leaves *)

Lemma lookup_snoc_last {A} (l : list A) x i : i = zlen l -> (l ++ [x]) !! Z.to_nat i = Some x.
Proof. intros ->. rewrite Nat2Z.id. by apply list_lookup_middle. Qed.

Lemma rotate_right_leaves_spec parent left child idx lp cp esl bk br :
  internal_wf parent -> 0 < idx <= in_num_keys parent -> leaf_wf left -> leaf_wf child -> lf_num_keys child < ORDER_LEAF ->
  leaf_es left = esl ++ [(bk, br)] -> in_u64 lp -> in_u64 cp ->
  exists p' l' c', rotate_right_leaves parent left child idx lp cp = Some (p', l', c') /\
    leaf_wf l' /\ leaf_es l' = esl /\ lf_next_leaf l' = lf_next_leaf left /\
    leaf_wf c' /\ leaf_es c' = (bk, br) :: leaf_es child /\ lf_next_leaf c' = lf_next_leaf child /\
    internal_wf p' /\ in_num_keys p' = in_num_keys parent /\
    internal_ks p' = take (Z.to_nat (idx - 1)) (internal_ks parent) ++ bk :: drop (S (Z.to_nat (idx - 1))) (internal_ks parent) /\
    internal_cs p' = take (Z.to_nat (idx - 1)) (internal_cs parent) ++ lp :: cp :: drop (S (S (Z.to_nat (idx - 1)))) (internal_cs parent).
Proof.
  intros Hwp Hi Hwl Hwc Hcn Hes Hlp Hcp. unfold rotate_right_leaves. pose proof (leaf_es_length _ Hwl) as Hel.
  rewrite Hes, length_app in Hel. cbn [length] in Hel. set (lk := lf_num_keys left - 1).
  assert (leaf_es left !! Z.to_nat lk = Some (bk, br)) as Hlast by (rewrite Hes; apply lookup_snoc_last; lia).
  destruct (leaf_slot _ lk bk br Hwl) as (len & kk & b & Hg1 & Hg2 & Hsv & Hg3 & Hdb & _); [lia|done|].
  rewrite (slot_val_key _ _ _ _ _ _ Hg1 Hg2 Hsv), Hg3. cbn [mbind option_bind].
  destruct (leaf_remove_at_spec left lk Hwl) as (l' & -> & Hwl' & Hnl' & Hel'); [lia|]. cbn [mbind option_bind].
  destruct (leaf_es_ok _ _ _ _ Hwl Hlast) as (Hk64 & Hkb & Hrok). rewrite Hdb.
  pose proof (lw_sized _ Hwc) as Hsc. destruct (ls_num _ Hsc) as [Hc0 _].
  destruct (leaf_insert_at_spec child 0 bk br Hwc) as (c' & -> & Hwc' & Hnc' & Hec'); [lia|done..|]. cbn [mbind option_bind].
  change (Z.to_nat 0) with O in Hec'. rewrite take_0, drop_0 in Hec'. cbn [app] in Hec'.
  destruct (leaf_slot c' 0 bk br Hwc') as (len0 & kk0 & b0 & -> & -> & Hsv0 & _); [lia|by rewrite Hec'|]. cbn [mbind option_bind].
  destruct (set_parent parent (idx - 1) len0 kk0 bk lp cp Hwp) as (p1 & p2 & p3 & -> & E2 & E3 & Hw3 & Hn3 & Hk3 & Hc3); [lia|done..|].
  cbn [mbind option_bind]. rewrite E2. cbn [mbind option_bind]. replace (idx - 1 + 1) with idx in E3 by lia. rewrite E3.
  exists p3, l', c'. split; [done|]. split; [done|]. split; [|done].
  rewrite Hel', Hes. rewrite take_app_le, take_ge by lia. rewrite drop_ge by (rewrite length_app; cbn [length]; lia). apply app_nil_r.
Qed.

(** One more entry behind the others, copied slot by slot. *)
Lemma leaf_append_spec n len kk b k r :
  leaf_wf n -> lf_num_keys n < ORDER_LEAF -> slot_val len kk k -> array_of 10 b -> decode_rid b = r ->
  exists lens keys rids, arr_set (lf_key_lens n) (lf_num_keys n) len = Some lens /\
    arr_set (lf_keys n) (lf_num_keys n) kk = Some keys /\ arr_set (lf_rids n) (lf_num_keys n) b = Some rids /\
    let n' := leaf_set_num_keys (leaf_set_arrays n lens rids keys) (lf_num_keys n + 1) in
    leaf_wf n' /\ lf_next_leaf n' = lf_next_leaf n /\ leaf_es n' = leaf_es n ++ [(k, r)].
Proof.
  intros Hw Hn (Hb & Hlm & Hka & Hkk) Hba Hdb. pose proof Hw as [Hs Ht Hno Hl]. destruct (ls_lens _ Hs) as [Hll Hlb].
  pose proof (ls_rids_len _ Hs) as Hrl. pose proof (ls_keys_len _ Hs) as Hkl. destruct (ls_num _ Hs) as [Hn0 _].
  rewrite !arr_set_ok by lia. eexists _, _, _. do 3 (split; [done|]). cbv zeta.
  assert (wrap16 (lf_num_keys n + 1) = lf_num_keys n + 1) as Hw16 by (unfold wrap16; rewrite Z.mod_small; sizes).
  assert (Htake : forall {A} (l : list A) x, lf_num_keys n < zlen l ->
    take (Z.to_nat (lf_num_keys n + 1)) (<[Z.to_nat (lf_num_keys n) := x]> l) = take (Z.to_nat (lf_num_keys n)) l ++ [x]).
  { intros A l x Hx. replace (Z.to_nat (lf_num_keys n + 1)) with (S (Z.to_nat (lf_num_keys n))) by lia.
    rewrite (take_S_r _ _ x) by (apply list_lookup_insert_eq; lia). by rewrite take_insert_ge by lia. }
  split; [|split; [done|]].
  - split; cbn; rewrite ?Hw16; [|done|lia|].
    + destruct Hs as [P1 P2 P3 P4 P5 P6 P7 P8 P9 P10]. split; cbn; rewrite ?Hw16; try done.
      * unfold in_u16. sizes.
      * split; [by rewrite length_insert|by apply Forall_insert].
      * by rewrite length_insert.
      * by apply Forall_insert.
      * by rewrite length_insert.
      * by apply Forall_insert.
    + rewrite Htake by lia. apply Forall_app. split; [done|by constructor].
  - rewrite !leaf_es_zip. cbn [leaf_set_num_keys leaf_set_arrays lf_num_keys lf_key_lens lf_keys lf_rids].
    rewrite Hw16, pack_take, !Htake by lia. rewrite pack_split by (rewrite !length_take; lia). rewrite fmap_app, <-pack_take.
    rewrite zip_with_app by (rewrite length_fmap, !length_take; unfold pack; rewrite length_zip_with; lia).
    f_equal. cbn. by rewrite Hkk, Hdb.
Qed.

Lemma rotate_left_leaves_spec parent child right idx cp rp bk br k2 r2 esr :
  internal_wf parent -> 0 <= idx < in_num_keys parent -> leaf_wf child -> leaf_wf right -> lf_num_keys child < ORDER_LEAF ->
  leaf_es right = (bk, br) :: (k2, r2) :: esr -> in_u64 cp -> in_u64 rp ->
  exists p' c' r', rotate_left_leaves parent child right idx cp rp = Some (p', c', r') /\
    leaf_wf c' /\ leaf_es c' = leaf_es child ++ [(bk, br)] /\ lf_next_leaf c' = lf_next_leaf child /\
    leaf_wf r' /\ leaf_es r' = (k2, r2) :: esr /\ lf_next_leaf r' = lf_next_leaf right /\
    internal_wf p' /\ in_num_keys p' = in_num_keys parent /\
    internal_ks p' = take (Z.to_nat idx) (internal_ks parent) ++ k2 :: drop (S (Z.to_nat idx)) (internal_ks parent) /\
    internal_cs p' = take (Z.to_nat idx) (internal_cs parent) ++ cp :: rp :: drop (S (S (Z.to_nat idx))) (internal_cs parent).
Proof.
  intros Hwp Hi Hwc Hwr Hcn Hes Hcp Hrp. unfold rotate_left_leaves. pose proof (leaf_es_length _ Hwr) as Hel.
  rewrite Hes in Hel. cbn [length] in Hel.
  destruct (leaf_slot right 0 bk br Hwr) as (len & kk & b & -> & -> & Hsv & -> & Hdb & Hba); [lia|by rewrite Hes|].
  cbn [mbind option_bind].
  destruct (leaf_remove_at_spec right 0 Hwr) as (r' & -> & Hwr' & Hnr' & Her'); [lia|]. cbn [mbind option_bind].
  rewrite Hes in Her'. cbn in Her'.
  destruct (leaf_append_spec child len kk b bk br Hwc Hcn Hsv Hba Hdb) as (lens & keys & rids & -> & -> & -> & Hwc' & Hnc' & Hec').
  cbn [mbind option_bind].
  destruct (leaf_slot r' 0 k2 r2 Hwr') as (len0 & kk0 & b0 & -> & -> & Hsv0 & _); [lia|by rewrite Her'|]. cbn [mbind option_bind].
  destruct (set_parent parent idx len0 kk0 k2 cp rp Hwp) as (p1 & p2 & p3 & -> & E2 & E3 & Hw3 & Hn3 & Hk3 & Hc3); [lia|done..|].
  cbn [mbind option_bind]. rewrite E2. cbn [mbind option_bind]. rewrite E3. cbn [mbind option_bind].
  eexists _, _, _. split; [done|]. done.
Qed.

Lemma copy_append {A} (dst src : list A) ln rn :
  0 <= ln -> 0 <= rn -> ln + rn <= zlen dst -> rn <= zlen src ->
  exists l, arr_copy dst ln src 0 rn = Some l /\ length l = length dst /\
    take (Z.to_nat (ln + rn)) l = take (Z.to_nat ln) dst ++ take (Z.to_nat rn) src.
Proof.
  intros. eexists. split; [apply arr_copy_ok; lia|]. split.
  - rewrite !length_app, !length_take, !length_drop. lia.
  - change (Z.to_nat 0) with O. rewrite drop_0, app_assoc, take_app_le, take_ge; [done| |];
      rewrite !length_app, !length_take; lia.
Qed.

Lemma merge_leaves_spec left right :
  leaf_wf left -> leaf_wf right -> lf_num_keys left + lf_num_keys right <= ORDER_LEAF ->
  exists m, merge_leaves left right = Some m /\ leaf_wf m /\ leaf_es m = leaf_es left ++ leaf_es right /\
    lf_next_leaf m = lf_next_leaf right.
Proof.
  intros Hwl Hwr Hsum. pose proof Hwl as [Hs Ht Hno Hl]. pose proof Hwr as [Hs' Ht' Hno' Hl'].
  destruct (ls_lens _ Hs) as [Hll Hlb], (ls_lens _ Hs') as [Hll' Hlb']. destruct (ls_num _ Hs) as [Hn0 _], (ls_num _ Hs') as [Hn0' _].
  pose proof (ls_rids_len _ Hs). pose proof (ls_keys_len _ Hs). pose proof (ls_rids_len _ Hs'). pose proof (ls_keys_len _ Hs').
  set (ln := lf_num_keys left) in *. set (rn := lf_num_keys right) in *.
  destruct (copy_append (lf_key_lens left) (lf_key_lens right) ln rn) as (lens & C1 & L1 & T1); [lia..|].
  destruct (copy_append (lf_keys left) (lf_keys right) ln rn) as (keys & C2 & L2 & T2); [lia..|].
  destruct (copy_append (lf_rids left) (lf_rids right) ln rn) as (rids & C3 & L3 & T3); [lia..|].
  unfold merge_leaves. fold ln rn. rewrite C1, C2, C3. cbn [mbind option_bind]. eexists. split; [done|].
  assert (wrap16 (ln + rn) = ln + rn) as Hw16 by (unfold wrap16; rewrite Z.mod_small; sizes).
  split; [|split; [|done]].
  - split; cbn; rewrite ?Hw16; [|done|lia|].
    + destruct Hs as [P1 P2 P3 P4 P5 P6 P7 P8 P9 P10]. split; cbn; rewrite ?Hw16; try done.
      * unfold in_u16. sizes.
      * apply Hs'.
      * split; [lia|]. eapply arr_copy_Forall; [exact C1|done|done].
      * lia.
      * eapply arr_copy_Forall; [exact C3|done|apply Hs'].
      * lia.
      * eapply arr_copy_Forall; [exact C2|done|apply Hs'].
    + rewrite T1. by apply Forall_app.
  - rewrite !leaf_es_zip. cbn [set_next_leaf leaf_set_num_keys leaf_set_arrays lf_num_keys lf_key_lens lf_keys lf_rids]. fold ln rn.
    rewrite Hw16, pack_take, T1, T2, T3. rewrite pack_split by (rewrite !length_take; lia). rewrite fmap_app, <-!pack_take.
    by rewrite zip_with_app by (rewrite length_fmap, !length_take; unfold pack; rewrite length_zip_with; lia).
Qed.

(** ** Internal nodes *)

Lemma pack_cons len lens k keys : pack (len :: lens) (k :: keys) = take (Z.to_nat len) k :: pack lens keys.
Proof. done. Qed.

(** A key and a child in front of the others. *)
Lemma push_front_has child len kk k c :
  internal_wf child -> in_num_keys child < ORDER_INTERNAL -> slot_val len kk k -> in_u64 c ->
  exists lens keys ch c1 c2,
    shift_right (in_key_lens child) 0 (Z.to_nat (in_num_keys child)) = Some lens /\
    shift_right (in_keys child) 0 (Z.to_nat (in_num_keys child)) = Some keys /\
    shift_right (in_children child) 0 (Z.to_nat (in_num_keys child + 1)) = Some ch /\
    set_slot (internal_set_arrays child lens ch keys) 0 len kk = Some c1 /\ set_child_at c1 0 c = Some c2 /\
    let c' := internal_set_num_keys c2 (in_num_keys child + 1) in
    internal_wf c' /\ in_num_keys c' = in_num_keys child + 1 /\ internal_ks c' = k :: internal_ks child /\
    internal_cs c' = c :: internal_cs child.
Proof.
  intros Hw Hn Hsv Hc. pose proof Hw as [Hs Ht Hno Hl]. destruct (is_lens _ Hs) as [Hll Hlb]. pose proof (is_keys_len _ Hs) as Hkl.
  pose proof (is_children_len _ Hs) as Hcl. destruct (is_num _ Hs) as [Hn0 _]. set (cn := in_num_keys child) in *.
  destruct (shift_insert_take (in_key_lens child) 0 cn len) as (lens & S1 & L1 & T1); [lia..|].
  destruct (shift_insert_take (in_keys child) 0 cn kk) as (keys & S2 & L2 & T2); [lia..|].
  destruct (shift_insert_take (in_children child) 0 (cn + 1) c) as (ch & S3 & L3 & T3); [lia..|].
  rewrite Z.sub_0_r in *. exists lens, keys, ch. unfold set_slot. cbn [internal_set_arrays in_key_lens in_keys in_children].
  rewrite !arr_set_ok by lia. cbn [mbind option_bind]. eexists. eexists. do 4 (split; [done|]). unfold set_child_at.
  cbn [internal_set_arrays in_key_lens in_keys in_children]. rewrite arr_set_ok by lia. cbn [mbind option_bind]. split; [done|].
  cbv zeta. destruct Hsv as (Hb & Hlm & Hka & Hkk). change (Z.to_nat 0) with O in *.
  rewrite take_0, drop_0 in T1. rewrite take_0, drop_0 in T2. rewrite take_0, drop_0 in T3. cbn [app] in T1, T2, T3.
  apply in_has_finish; [split|..]; cbn [internal_set_arrays in_key_lens in_keys in_children in_is_leaf].
  - destruct Hs as [P1 P2 P3 P4 P5 P6 P7 P8 P9]. split; cbn; try done.
    + split; [rewrite length_insert; lia|]. apply Forall_insert; [|done]. eapply (shift_right_Forall _ (in_key_lens child)); [| |exact S1|done]; lia.
    + rewrite length_insert. lia.
    + apply Forall_insert; [|done]. eapply (shift_right_Forall _ (in_children child)); [| |exact S3|done]; lia.
    + rewrite length_insert. lia.
    + apply Forall_insert; [|done]. eapply (shift_right_Forall _ (in_keys child)); [| |exact S2|done]; lia.
  - done.
  - cbn [length]. pose proof (internal_ks_length _ Hw). lia.
  - cbn [length]. pose proof (internal_cs_length _ Hw). lia.
  - cbn [length]. pose proof (internal_ks_length _ Hw) as Hkk'. replace (S (length (internal_ks child))) with (Z.to_nat (cn + 1)) by lia.
    rewrite pack_take, T1, T2, pack_cons, Hkk. f_equal. unfold internal_ks. by rewrite pack_take.
  - cbn [length]. pose proof (internal_ks_length _ Hw) as Hkk'. replace (S (length (internal_ks child))) with (Z.to_nat (cn + 1)) by lia.
    rewrite T1. by constructor.
  - cbn [length]. pose proof (internal_cs_length _ Hw) as Hkk'. replace (S (length (internal_cs child))) with (Z.to_nat (cn + 1 + 1)) by lia.
    rewrite T3. done.
  - cbn [length]. pose proof (internal_cs_length _ Hw). pose proof (internal_ks_length _ Hw). lia.
  - cbn [length]. pose proof (internal_ks_length _ Hw). lia.
Qed.

Lemma ks_snoc_length n ksl k csl c : internal_wf n -> internal_ks n = ksl ++ [k] -> internal_cs n = csl ++ [c] ->
  in_num_keys n = zlen ksl + 1 /\ length csl = S (length ksl).
Proof.
  intros Hw Hk Hc. pose proof (internal_ks_length _ Hw) as Hkl. pose proof (internal_cs_length _ Hw) as Hcl.
  rewrite Hk, length_app in Hkl. rewrite Hc, length_app in Hcl. cbn [length] in *. lia.
Qed.

Lemma rotate_right_internals_spec parent left child idx nl nc sep ksl lk csl lc :
  internal_wf parent -> 0 < idx <= in_num_keys parent -> internal_wf left -> internal_wf child ->
  in_num_keys child < ORDER_INTERNAL -> internal_ks parent !! Z.to_nat (idx - 1) = Some sep ->
  internal_ks left = ksl ++ [lk] -> internal_cs left = csl ++ [lc] -> in_u64 nl -> in_u64 nc ->
  exists p' l' c', rotate_right_internals parent left child idx nl nc = Some (p', l', c') /\
    internal_wf l' /\ in_num_keys l' = in_num_keys left - 1 /\ internal_ks l' = ksl /\ internal_cs l' = csl /\
    internal_wf c' /\ in_num_keys c' = in_num_keys child + 1 /\ internal_ks c' = sep :: internal_ks child /\ internal_cs c' = lc :: internal_cs child /\
    internal_wf p' /\ in_num_keys p' = in_num_keys parent /\
    internal_ks p' = take (Z.to_nat (idx - 1)) (internal_ks parent) ++ lk :: drop (S (Z.to_nat (idx - 1))) (internal_ks parent) /\
    internal_cs p' = take (Z.to_nat (idx - 1)) (internal_cs parent) ++ nl :: nc :: drop (S (S (Z.to_nat (idx - 1)))) (internal_cs parent).
Proof.
  intros Hwp Hi Hwl Hwc Hcn Hsep Hkl Hcl Hnl Hnc. destruct (ks_snoc_length _ _ _ _ _ Hwl Hkl Hcl) as [Hnum Hlen].
  pose proof (in_has_wf _ Hwp) as Hp. pose proof (in_has_wf _ Hwl) as Hl0. unfold rotate_right_internals.
  destruct (in_slot _ _ _ (idx - 1) sep Hp) as (slen & skk & -> & -> & Hsv); [lia|done|]. cbn [mbind option_bind].
  replace (in_num_keys left - 1 + 1) with (in_num_keys left) by lia.
  destruct (in_child _ _ _ (in_num_keys left) lc Hl0) as [-> Hlcu]; [lia|rewrite Hcl; apply lookup_snoc_last; lia|]. cbn [mbind option_bind].
  destruct (push_front_has child slen skk sep lc Hwc Hcn Hsv Hlcu) as
    (lens & keys & ch & c1 & c2 & -> & -> & -> & E1 & E2 & Hw' & Hn' & Hk' & Hc'). cbn [mbind option_bind].
  rewrite E1. cbn [mbind option_bind]. rewrite E2. cbn [mbind option_bind]. set (kl := in_num_keys left - 1).
  assert (internal_ks left !! Z.to_nat kl = Some lk) as Hlast by (rewrite Hkl; apply lookup_snoc_last; lia).
  destruct (in_slot _ _ _ kl lk Hl0) as (len & kk & -> & -> & Hsv'); [lia|done|]. cbn [mbind option_bind].
  destruct (set_parent parent (idx - 1) len kk lk nl nc Hwp) as (p1 & p2 & p3 & -> & E3 & E4 & Hw3 & Hn3 & Hk3 & Hc3); [lia|done..|].
  cbn [mbind option_bind].
  pose proof (in_has_prefix _ _ _ (length ksl) (length csl) Hl0) as Hl1. rewrite Hkl, Hcl, !take_app_length in Hl1.
  pose proof (iw_num _ Hwl) as Hmax.
  destruct (set_slot_has _ _ _ kl 0 (replicate (Z.to_nat MAX_KEY_LEN) 0) [] Hl1) as (l1 & -> & Hnl1 & Hl2); [lia|lia| |].
  { split; [unfold byte_ok; lia|]. split; [done|]. split; [apply (zeros_array 64)|done]. }
  cbn [mbind option_bind]. rewrite E3. cbn [mbind option_bind]. replace (idx - 1 + 1) with idx in E4 by lia. rewrite E4.
  eexists _, _, _. split; [done|].
  pose proof (in_has_prefix _ _ _ (length ksl) (length csl) Hl2) as Hl3. rewrite (take_ge csl) in Hl3 by done.
  rewrite (take_ge ksl) in Hl3 by lia. rewrite take_app_length in Hl3.
  destruct (in_has_finish _ _ _ Hl3 Hlen kl) as (W & N & K & Cc); [lia|]. done.
Qed.

Lemma rotate_left_internals_spec parent child right idx nc nr sep k0 ksr c0 csr :
  internal_wf parent -> 0 <= idx < in_num_keys parent -> internal_wf child -> internal_wf right ->
  in_num_keys child < ORDER_INTERNAL -> internal_ks parent !! Z.to_nat idx = Some sep ->
  internal_ks right = k0 :: ksr -> internal_cs right = c0 :: csr -> in_u64 nc -> in_u64 nr ->
  exists p' c' r', rotate_left_internals parent child right idx nc nr = Some (p', c', r') /\
    internal_wf c' /\ in_num_keys c' = in_num_keys child + 1 /\ internal_ks c' = internal_ks child ++ [sep] /\
    internal_cs c' = internal_cs child ++ [c0] /\
    internal_wf r' /\ in_num_keys r' = in_num_keys right - 1 /\ internal_ks r' = ksr /\ internal_cs r' = csr /\
    internal_wf p' /\ in_num_keys p' = in_num_keys parent /\
    internal_ks p' = take (Z.to_nat idx) (internal_ks parent) ++ k0 :: drop (S (Z.to_nat idx)) (internal_ks parent) /\
    internal_cs p' = take (Z.to_nat idx) (internal_cs parent) ++ nc :: nr :: drop (S (S (Z.to_nat idx))) (internal_cs parent).
Proof.
  intros Hwp Hi Hwc Hwr Hcn Hsep Hkr Hcr Hnc Hnr.
  pose proof (in_has_wf _ Hwp) as Hp. pose proof (in_has_wf _ Hwc) as Hc0. pose proof (in_has_wf _ Hwr) as Hr0.
  pose proof (internal_ks_length _ Hwc) as Hckl. pose proof (internal_cs_length _ Hwc) as Hccl.
  pose proof (internal_ks_length _ Hwr) as Hrkl. rewrite Hkr in Hrkl. cbn [length] in Hrkl. unfold rotate_left_internals.
  destruct (in_slot _ _ _ idx sep Hp) as (slen & skk & -> & -> & Hsv); [lia|done|]. cbn [mbind option_bind].
  destruct (set_slot_has _ _ _ (in_num_keys child) slen skk sep Hc0) as (c1 & -> & Hn1 & Hc1); [lia|lia|done|]. cbn [mbind option_bind].
  destruct (in_child _ _ _ 0 c0 Hr0) as [-> Hc0u]; [lia|by rewrite Hcr|]. cbn [mbind option_bind].
  destruct (set_child_has _ _ _ (in_num_keys child + 1) c0 Hc1) as (c2 & -> & Hn2 & Hc2); [lia|lia|done|]. cbn [mbind option_bind].
  rewrite (take_ge (internal_ks child)) in Hc2 by lia. rewrite (drop_ge (internal_ks child)) in Hc2 by lia.
  rewrite (take_ge (internal_cs child)) in Hc2 by lia. rewrite (drop_ge (internal_cs child)) in Hc2 by lia.
  destruct (in_slot _ _ _ 0 k0 Hr0) as (len & kk & -> & -> & Hsv'); [lia|by rewrite Hkr|]. cbn [mbind option_bind].
  destruct (set_parent parent idx len kk k0 nc nr Hwp) as (p1 & p2 & p3 & -> & E3 & E4 & Hw3 & Hn3 & Hk3 & Hc3); [lia|done..|].
  cbn [mbind option_bind]. rewrite E3. cbn [mbind option_bind]. rewrite E4. cbn [mbind option_bind].
  destruct (internal_remove_at_spec right 0 0 Hwr) as (r' & -> & Hwr' & Hnr' & Hkr' & Hcr'); [lia|lia|]. cbn [mbind option_bind].
  eexists _, _, _. split; [done|].
  destruct (in_has_finish _ _ _ Hc2) with (k := in_num_keys child + 1) as (W & N & K & Cc);
    [rewrite !length_app; cbn [length]; lia|rewrite length_app; cbn [length]; lia|].
  rewrite Hkr in Hkr'. rewrite Hcr in Hcr'. cbn in Hkr', Hcr'. done.
Qed.

Lemma merge_internals_spec parent left right idx sep :
  internal_wf parent -> internal_wf left -> internal_wf right -> 0 <= idx -> internal_ks parent !! Z.to_nat idx = Some sep ->
  in_num_keys left + 1 + in_num_keys right <= ORDER_INTERNAL ->
  exists m, merge_internals parent left right idx = Some m /\ internal_wf m /\ in_num_keys m = in_num_keys left + 1 + in_num_keys right /\
    internal_ks m = internal_ks left ++ sep :: internal_ks right /\ internal_cs m = internal_cs left ++ internal_cs right.
Proof.
  intros Hwp Hwl Hwr Hi Hsep Hsum. pose proof (in_has_wf _ Hwp) as Hp. pose proof (in_has_wf _ Hwl) as Hl0.
  pose proof (internal_ks_length _ Hwl) as Hlkl. pose proof (internal_cs_length _ Hwl) as Hlcl.
  pose proof (internal_ks_length _ Hwr) as Hrkl. pose proof (internal_cs_length _ Hwr) as Hrcl.
  pose proof Hwr as [Hs' Ht' Hno' Hl']. destruct (is_lens _ Hs') as [Hll' Hlb']. destruct (is_num _ Hs') as [Hn0' _].
  pose proof (is_children_len _ Hs') as Hcl'. pose proof (is_keys_len _ Hs') as Hkl'. unfold merge_internals.
  destruct (in_slot _ _ _ idx sep Hp) as (slen & skk & -> & -> & Hsv); [lia|done|]. cbn [mbind option_bind].
  destruct (set_slot_has _ _ _ (in_num_keys left) slen skk sep Hl0) as (m1 & -> & Hn1 & Hm1); [lia|lia|done|]. cbn [mbind option_bind].
  rewrite (take_ge (internal_ks left)) in Hm1 by lia. rewrite (drop_ge (internal_ks left)) in Hm1 by lia.
  pose proof Hm1 as [Hs Ht Hk Hcn Hks Hl Hcs]. destruct (is_lens _ Hs) as [Hll Hlb]. pose proof (is_children_len _ Hs) as Hcl.
  pose proof (is_keys_len _ Hs) as Hkl. set (ln := in_num_keys left) in *. set (rn := in_num_keys right) in *.
  rewrite length_app in Hks, Hl. cbn [length] in Hks, Hl. 
  replace (length (internal_ks left) + 1)%nat with (Z.to_nat (ln + 1)) in Hks, Hl by lia.
  replace (length (internal_cs left)) with (Z.to_nat (ln + 1)) in Hcs by lia.
  destruct (copy_append (in_key_lens m1) (in_key_lens right) (ln + 1) rn) as (lens & C1 & L1 & T1); [lia..|].
  destruct (copy_append (in_keys m1) (in_keys right) (ln + 1) rn) as (keys & C2 & L2 & T2); [lia..|].
  destruct (copy_append (in_children m1) (in_children right) (ln + 1) (rn + 1)) as (ch & C3 & L3 & T3); [lia..|].
  rewrite C1, C2, C3. cbn [mbind option_bind]. eexists. split; [done|].
  apply in_has_finish; [split|..]; cbn [internal_set_arrays in_key_lens in_keys in_children in_is_leaf].
  - destruct Hs as [P1 P2 P3 P4 P5 P6 P7 P8 P9]. split; cbn; try done.
    + split; [lia|]. eapply arr_copy_Forall; [exact C1|done|done].
    + lia.
    + eapply arr_copy_Forall; [exact C3|done|apply Hs'].
    + lia.
    + eapply arr_copy_Forall; [exact C2|done|apply Hs'].
  - done.
  - rewrite length_app. cbn [length]. lia.
  - rewrite length_app. lia.
  - rewrite length_app. cbn [length]. replace (length (internal_ks left) + _)%nat with (Z.to_nat (ln + 1 + rn)) by lia.
    rewrite pack_take, T1, T2. rewrite pack_split by (rewrite !length_take; lia). rewrite <-!pack_take, Hks.
    fold (internal_ks right). by rewrite <-app_assoc.
  - rewrite length_app. cbn [length]. replace (length (internal_ks left) + _)%nat with (Z.to_nat (ln + 1 + rn)) by lia.
    rewrite T1. by apply Forall_app.
  - rewrite length_app. replace (length (internal_cs left) + _)%nat with (Z.to_nat (ln + 1 + (rn + 1))) by lia.
    rewrite T3, Hcs. done.
  - rewrite !length_app. cbn [length]. lia.
  - rewrite length_app. cbn [length]. lia.
Qed.
