(* ===== verification/BTreeRebalance.v ===== *)
(** * Rebalancing after a deletion

    The rotations and merges of two neighbouring children, leaves or internal nodes, and
    [rebalance_batched]: the parent stands for the same entries afterwards, the leaves are
    linked as before, and both children have keys again. *)

From S2P Require Import Prelude SlotBitmap Page FreeList Storage PageIo ByteOrder BTreeNode BTree BTreeRep BTreeSplit BTreeStep BTreeInsert BTreeMove.

(** A tree whose root may have run out of keys. *)
Definition wrep (v : Z -> option Page) (h : nat) (lo hi : option bytes) (pid : Z) (fp : list Z) (ls : list leafd) : Prop :=
  match h with
  | O => rep v 0 lo hi pid fp ls
  | S h' => exists n fp', internal_at v pid n /\ fp = pid :: fp' /\ forest (rep v h') lo hi (internal_cs n) (internal_ks n) fp' ls
  end.

(** The number of keys of the root. *)
Definition has_count (v : Z -> option Page) (h : nat) (pid c : Z) : Prop :=
  match h with
  | O => exists n, leaf_at v pid n /\ lf_num_keys n = c
  | S _ => exists n, internal_at v pid n /\ in_num_keys n = c
  end.

Definition min_count (h : nat) : Z := match h with O => MIN_KEYS_LEAF | S _ => MIN_KEYS_INTERNAL end.

(** Every leaf is where its predecessor expects it. *)
Definition same_links (ls ls' : list leafd) : Prop :=
  (forall z, chain ls z -> chain ls' z) /\ (forall z, first_pid ls' z = first_pid ls z).

Lemma same_links_refl ls : same_links ls ls.
Proof. by split. Qed.
Lemma same_links_trans a b c : same_links a b -> same_links b c -> same_links a c.
Proof. intros [H1 H2] [H3 H4]. split; [auto|]. intros z. by rewrite H4, H2. Qed.
Lemma same_links_mid a b b' c : same_links b b' -> same_links (a ++ b ++ c) (a ++ b' ++ c).
Proof.
  intros [H1 H2]. split.
  - intros z. rewrite !chain_app, !first_pid_app, H2. intuition.
  - intros z. by rewrite !first_pid_app, H2.
Qed.
Lemma same_links_of a b : link <$> b = link <$> a -> same_links a b.
Proof. intros H. split; [intros z; by apply chain_links|intros z; by apply first_pid_links]. Qed.

Lemma rep_wrep v h lo hi pid fp ls : rep v h lo hi pid fp ls -> wrep v h lo hi pid fp ls.
Proof. destruct h; [done|]. cbn. intros (n & fp' & H1 & _ & H2 & H3). by exists n, fp'. Qed.

Lemma leaf_at_eq v pid n n' : leaf_at v pid n -> leaf_at v pid n' -> n = n'.
Proof. intros (p & Hp & _ & _ & -> & _) (p' & Hp' & _ & _ & -> & _). congruence. Qed.
Lemma internal_at_eq v pid n n' : internal_at v pid n -> internal_at v pid n' -> n = n'.
Proof. intros (p & Hp & _ & _ & -> & _) (p' & Hp' & _ & _ & -> & _). congruence. Qed.

Lemma wrep_rep v h lo hi pid fp ls c : wrep v h lo hi pid fp ls -> has_count v h pid c -> 1 <= c -> rep v h lo hi pid fp ls.
Proof.
  destruct h; [done|]. cbn. intros (n & fp' & Hat & -> & Hf) (n' & Hat' & <-) Hc.
  rewrite <-(internal_at_eq _ _ _ _ Hat Hat') in Hc. by exists n, fp'.
Qed.

Lemma wrep_frame v v' h lo hi pid fp ls :
  wrep v h lo hi pid fp ls -> (forall j, j ∈ fp -> v' j = v j) -> wrep v' h lo hi pid fp ls.
Proof.
  destruct h as [|h]; [by apply rep_frame|]. cbn. intros (n & fp' & Hat & -> & Hf) Hv. exists n, fp'.
  split; [eapply internal_at_frame; [done|apply Hv; left]|]. split; [done|].
  eapply forest_frame; [done|]. intros j Hj. apply Hv. by right.
Qed.
Lemma has_count_frame v v' h pid c : has_count v h pid c -> v' pid = v pid -> has_count v' h pid c.
Proof.
  destruct h; cbn; intros (n & Hat & Hc) Hv; exists n; (split; [|done]); [by eapply leaf_at_frame|by eapply internal_at_frame].
Qed.

Lemma wrep_root_in v h lo hi pid fp ls : wrep v h lo hi pid fp ls -> pid ∈ fp.
Proof. destruct h; [by apply rep_root_in|]. cbn. intros (n & fp' & _ & -> & _). by left. Qed.

Lemma wrep_in v h lo hi pid fp ls : wrep v h lo hi pid fp ls -> leaf_in lo hi (ents ls).
Proof. destruct h as [|h]; [by apply rep_in|]. cbn. intros (n & fp' & _ & _ & Hf). eapply forest_in; [apply rep_in|done]. Qed.

Lemma forest_app (T : option bytes -> option bytes -> Z -> list Z -> list leafd -> Prop) lo k hi cs1 ks1 fp1 ls1 cs2 ks2 fp2 ls2 :
  forest T lo (Some k) cs1 ks1 fp1 ls1 -> forest T (Some k) hi cs2 ks2 fp2 ls2 ->
  forest T lo hi (cs1 ++ cs2) (ks1 ++ k :: ks2) (fp1 ++ fp2) (ls1 ++ ls2).
Proof. intros H1 H2. eapply forest_rseg; [done|]. by apply forest_to_rseg. Qed.

Lemma forest_pair (T : option bytes -> option bytes -> Z -> list Z -> list leafd -> Prop) lo k hi a b fpa fpb lsa lsb :
  T lo (Some k) a fpa lsa -> T (Some k) hi b fpb lsb -> forest T lo hi [a; b] [k] (fpa ++ fpb) (lsa ++ lsb).
Proof. intros Ha Hb. apply (forest_app T lo k hi [a] [] fpa lsa [b] []); by apply forest_one. Qed.

Lemma min_leaf : MIN_KEYS_LEAF = 108.
Proof. done. Qed.
Lemma min_internal : MIN_KEYS_INTERNAL = 111.
Proof. done. Qed.
(** The counts that decide about rotations and merges. *)
Ltac counts := rewrite ?min_leaf, ?min_internal in *; unfold ORDER_LEAF, ORDER_INTERNAL in *; lia.

Section Rebalance.
Context {St : Type} {C : Crc32c} {CR : Crc32cRange C} {E : StorageEngine St} {L : StorageLaws St} {R : PageRoom St}.

(** ** Reading and writing nodes *)

Lemma wp_read_leaf {B} pid n (k : LeafNodePage -> M St B) b x Q F :
  io_wf x -> leaf_at (vw x) pid n -> wp (k n) b x Q F -> wp (io_bind (read_leaf pid) k) b x Q F.
Proof.
  intros Hwf (p & Hp & _ & _ & -> & Hw) Hk. unfold read_leaf, node_read. do 2 apply wp_assoc. eapply wp_read; [done|done|].
  rewrite is_leaf_page_leaf, (lw_tag _ Hw), Z.eqb_refl. by do 2 apply wp_bind_ret.
Qed.
Lemma wp_read_internal {B} pid n (k : InternalNodePage -> M St B) b x Q F :
  io_wf x -> internal_at (vw x) pid n -> wp (k n) b x Q F -> wp (io_bind (read_internal pid) k) b x Q F.
Proof.
  intros Hwf (p & Hp & _ & _ & -> & Hw) Hk. unfold read_internal, node_read. do 2 apply wp_assoc. eapply wp_read; [done|done|].
  rewrite is_leaf_page_internal, (iw_tag _ Hw). cbn [Z.eqb]. by do 2 apply wp_bind_ret.
Qed.

Lemma wp_new_leaf {B} v0 fp cur pid n (k : unit -> M St B) b x Q F :
  io_wf x -> moved v0 (vw x) fp cur -> pid ∈ cur -> leaf_wf n ->
  (forall x', io_wf x' -> leaf_at (vw x') pid n -> moved v0 (vw x') fp cur ->
     (forall j, j ≠ pid -> vw x' j = vw x j) -> (forall m, pr x m -> pr x' m) -> wp (k tt) b x' Q F) ->
  wp (io_bind (write_new_leaf pid n) k) b x Q F.
Proof.
  intros Hwf Hm Hin Hw Hk. pose proof (mv_num _ _ _ _ Hm) as Hn. rewrite Forall_forall in Hn.
  destruct (page_new_ok pid) as [Hok Hmg]; [by apply page_num_u64, Hn|]. by eapply wp_put_leaf.
Qed.
Lemma wp_new_internal {B} v0 fp cur pid n (k : unit -> M St B) b x Q F :
  io_wf x -> moved v0 (vw x) fp cur -> pid ∈ cur -> internal_wf n ->
  (forall x', io_wf x' -> internal_at (vw x') pid n -> moved v0 (vw x') fp cur ->
     (forall j, j ≠ pid -> vw x' j = vw x j) -> (forall m, pr x m -> pr x' m) -> wp (k tt) b x' Q F) ->
  wp (io_bind (write_new_internal pid n) k) b x Q F.
Proof.
  intros Hwf Hm Hin Hw Hk. pose proof (mv_num _ _ _ _ Hm) as Hn. rewrite Forall_forall in Hn.
  destruct (page_new_ok pid) as [Hok Hmg]; [by apply page_num_u64, Hn|]. by eapply wp_put_internal.
Qed.

Lemma node_key_count_spec x h lo hi pid fp ls : io_wf x -> wrep (vw x) h lo hi pid fp ls ->
  exists c, node_key_count pid x = Some (Ok c, x) /\ has_count (vw x) h pid c.
Proof.
  intros Hwf Hr. unfold node_key_count, node_read, io_bind. destruct h as [|h]; cbn in Hr.
  - destruct Hr as (_ & n & Hat & _). pose proof Hat as (p & Hp & _ & _ & -> & Hw). rewrite (io_read_ok x pid p Hwf Hp).
    cbn. rewrite is_leaf_page_leaf, (lw_tag _ Hw), Z.eqb_refl. eexists. split; [done|]. cbn. eauto.
  - destruct Hr as (n & fp' & Hat & _). pose proof Hat as (p & Hp & _ & _ & -> & Hw). rewrite (io_read_ok x pid p Hwf Hp).
    cbn. rewrite is_leaf_page_internal, (iw_tag _ Hw). eexists. split; [done|]. cbn. eauto.
Qed.

(** ** The two children *)

(** The children [a] and [b] of a parent, at [j] and [j + 1], were rearranged to [a'] and
    [b'] with the separator [k']; [p'] is the new parent. *)
Definition rotated (x x' : Io St) (parent : InternalNodePage) (j : Z) (h : nat) (lo hi : option bytes) (fpa fpb : list Z)
    (lsa lsb : list leafd) (p' : InternalNodePage) : Prop :=
  exists a' b' k' fp' ls', moved (vw x) (vw x') (fpa ++ fpb) fp' /\ forest (rep (vw x') h) lo hi [a'; b'] [k'] fp' ls' /\
    ents ls' = ents (lsa ++ lsb) /\ same_links (lsa ++ lsb) ls' /\
    internal_wf p' /\ in_num_keys p' = in_num_keys parent /\
    internal_ks p' = take (Z.to_nat j) (internal_ks parent) ++ [k'] ++ drop (S (Z.to_nat j)) (internal_ks parent) /\
    internal_cs p' = take (Z.to_nat j) (internal_cs parent) ++ [a'; b'] ++ drop (S (S (Z.to_nat j))) (internal_cs parent).

Lemma rotate_right_leaf_children x parent j lo k hi a b fpa fpb lsa lsb ca cb :
  io_wf x -> internal_wf parent -> 0 <= j < in_num_keys parent -> NoDup (fpa ++ fpb) -> Forall page_num (fpa ++ fpb) ->
  wrep (vw x) 0 lo (Some k) a fpa lsa -> wrep (vw x) 0 (Some k) hi b fpb lsb ->
  has_count (vw x) 0 a ca -> has_count (vw x) 0 b cb -> MIN_KEYS_LEAF < ca -> cb < MIN_KEYS_LEAF ->
  wp (do! left := read_leaf a in
      do! child := read_leaf b in
      do! r := io_pure (rotate_right_leaves parent left child (j + 1) a b) in
      do! _ := write_new_leaf a r.1.2 in
      do! _ := write_new_leaf b r.2 in
      io_ret r.1.1) 2 x
    (fun p' x' => io_wf x' /\ (forall m, 2 <= m -> pr x m -> pr x' (m - 2)) /\ rotated x x' parent j 0 lo hi fpa fpb lsa lsb p')
    (fun _ _ => False).
Proof.
  intros Hwf Hwp Hj Hnd Hnum Ha Hb Hca Hcb Hla Hlb. cbn in Ha, Hb, Hca, Hcb.
  destruct Ha as (-> & na & Hata & -> & Hina), Hb as (-> & nb & Hatb & -> & Hinb).
  destruct Hca as (na' & Hata' & <-), Hcb as (nb' & Hatb' & <-).
  rewrite <-(leaf_at_eq _ _ _ _ Hata Hata') in Hla. rewrite <-(leaf_at_eq _ _ _ _ Hatb Hatb') in Hlb. clear Hata' Hatb' na' nb'.
  pose proof Hata as (pa & Hpa & _ & _ & _ & Hwa). pose proof Hatb as (pb & Hpb & _ & _ & _ & Hwb).
  assert (Hm0 : moved (vw x) (vw x) ([a] ++ [b]) ([a] ++ [b])).
  { apply moved_refl; [|done|done]. intros q Hq. apply elem_of_app in Hq as [Hq|Hq]; apply list_elem_of_singleton in Hq as ->; by eexists. }
  eapply wp_read_leaf; [done|exact Hata|]. eapply wp_read_leaf; [done|exact Hatb|].
  pose proof (leaf_es_length _ Hwa) as Hel. destruct (exists_last (l := leaf_es na)) as (esl & e & Hes).
  { intros He. rewrite He in Hel. cbn in Hel. counts. }
  destruct e as [bk br].
  rewrite !Forall_forall in Hnum.
  destruct (rotate_right_leaves_spec parent na nb (j + 1) a b esl bk br) as
    (p' & l' & c' & -> & Hwl & Hel' & Hnl & Hwc & Hec & Hnc & Hwp' & Hnp & Hkp & Hcp);
    [done|lia|done|done|counts|done|apply page_num_u64, Hnum; set_solver|apply page_num_u64, Hnum; set_solver|].
  eapply wp_pure; [done|]. cbn [fst snd].
  eapply wp_new_leaf; [done|exact Hm0|set_solver|done|]. intros x1 Hwf1 Hat1 Hm1 Hv1 Hpr1.
  eapply wp_new_leaf; [done|exact Hm1|set_solver|done|]. intros x2 Hwf2 Hat2 Hm2 Hv2 Hpr2.
  apply wp_ret. split; [done|]. split; [intros m Hmm Hx; eapply pr_mono; [apply Hpr2, Hpr1, Hx|lia]|].
  apply NoDup_cons in Hnd as [Hne _].
  exists a, b, bk, ([a] ++ [b]), ([mkLd a (lf_next_leaf na) esl] ++ [mkLd b (lf_next_leaf nb) ((bk, br) :: leaf_es nb)]).
  rewrite Hes in Hina, Hel |- *. rewrite length_app in Hel. cbn [length] in Hel.
  destruct (leaf_in_split lo (Some k) (esl ++ [(bk, br)]) (length esl) bk br Hina) as [Hin1 Hin2];
    [by apply list_lookup_middle|counts|]. rewrite take_app_length in Hin1. rewrite drop_app_length in Hin2.
  split; [done|]. split.
  { apply forest_pair.
    - split; [done|]. exists l'. rewrite Hel', Hnl. split; [|done]. eapply leaf_at_frame; [exact Hat1|]. apply Hv2. set_solver.
    - split; [done|]. exists c'. rewrite Hec, Hnc. split; [done|]. split; [done|]. by apply (leaf_in_app _ k _ [(bk, br)]). }
  split; [rewrite !ents_app, !ents_one, <-app_assoc; done|]. split; [by apply same_links_of|].
  replace (j + 1 - 1) with j in * by lia. done.
Qed.

Lemma rotate_left_leaf_children x parent j lo k hi a b fpa fpb lsa lsb ca cb :
  io_wf x -> internal_wf parent -> 0 <= j < in_num_keys parent -> NoDup (fpa ++ fpb) -> Forall page_num (fpa ++ fpb) ->
  wrep (vw x) 0 lo (Some k) a fpa lsa -> wrep (vw x) 0 (Some k) hi b fpb lsb ->
  has_count (vw x) 0 a ca -> has_count (vw x) 0 b cb -> ca < MIN_KEYS_LEAF -> MIN_KEYS_LEAF < cb ->
  wp (do! child := read_leaf a in
      do! right := read_leaf b in
      do! r := io_pure (rotate_left_leaves parent child right j a b) in
      do! _ := write_new_leaf a r.1.2 in
      do! _ := write_new_leaf b r.2 in
      io_ret r.1.1) 2 x
    (fun p' x' => io_wf x' /\ (forall m, 2 <= m -> pr x m -> pr x' (m - 2)) /\ rotated x x' parent j 0 lo hi fpa fpb lsa lsb p')
    (fun _ _ => False).
Proof.
  intros Hwf Hwp Hj Hnd Hnum Ha Hb Hca Hcb Hla Hlb. cbn in Ha, Hb, Hca, Hcb.
  destruct Ha as (-> & na & Hata & -> & Hina), Hb as (-> & nb & Hatb & -> & Hinb).
  destruct Hca as (na' & Hata' & <-), Hcb as (nb' & Hatb' & <-).
  rewrite <-(leaf_at_eq _ _ _ _ Hata Hata') in Hla. rewrite <-(leaf_at_eq _ _ _ _ Hatb Hatb') in Hlb. clear Hata' Hatb' na' nb'.
  pose proof Hata as (pa & Hpa & _ & _ & _ & Hwa). pose proof Hatb as (pb & Hpb & _ & _ & _ & Hwb).
  assert (Hm0 : moved (vw x) (vw x) ([a] ++ [b]) ([a] ++ [b])).
  { apply moved_refl; [|done|done]. intros q Hq. apply elem_of_app in Hq as [Hq|Hq]; apply list_elem_of_singleton in Hq as ->; by eexists. }
  eapply wp_read_leaf; [done|exact Hata|]. eapply wp_read_leaf; [done|exact Hatb|].
  pose proof (leaf_es_length _ Hwb) as Hel. destruct (leaf_es nb) as [|[bk br] [|[k2 r2] esr]] eqn:Hes; [cbn in Hel; counts..|].
  rewrite !Forall_forall in Hnum.
  destruct (rotate_left_leaves_spec parent na nb j a b bk br k2 r2 esr) as
    (p' & c' & r' & -> & Hwc & Hec & Hnc & Hwr & Her & Hnr & Hwp' & Hnp & Hkp & Hcp);
    [done|lia|done|done|counts|done|apply page_num_u64, Hnum; set_solver|apply page_num_u64, Hnum; set_solver|].
  eapply wp_pure; [done|]. cbn [fst snd].
  eapply wp_new_leaf; [done|exact Hm0|set_solver|done|]. intros x1 Hwf1 Hat1 Hm1 Hv1 Hpr1.
  eapply wp_new_leaf; [done|exact Hm1|set_solver|done|]. intros x2 Hwf2 Hat2 Hm2 Hv2 Hpr2.
  apply wp_ret. split; [done|]. split; [intros m Hmm Hx; eapply pr_mono; [apply Hpr2, Hpr1, Hx|lia]|].
  apply NoDup_cons in Hnd as [Hne _].
  exists a, b, k2, ([a] ++ [b]), ([mkLd a (lf_next_leaf na) (leaf_es na ++ [(bk, br)])] ++ [mkLd b (lf_next_leaf nb) ((k2, r2) :: esr)]).
  destruct (leaf_in_split (Some k) hi ((bk, br) :: (k2, r2) :: esr) 1 k2 r2 Hinb) as [Hin1 Hin2]; [done|lia|]. cbn in Hin1, Hin2.
  split; [done|]. split.
  { apply forest_pair.
    - split; [done|]. exists c'. rewrite Hec, Hnc. split; [|split; [done|by eapply leaf_in_app]].
      eapply leaf_at_frame; [exact Hat1|]. apply Hv2. set_solver.
    - split; [done|]. exists r'. by rewrite Her, Hnr. }
  split; [rewrite !ents_app, !ents_one, <-app_assoc; done|]. split; [by apply same_links_of|]. done.
Qed.

(** Copies of two internal nodes on new pages, and the old pages freed. *)
Lemma internals_moved {B} x a b fpa fpb (k : Z -> Z -> M St B) n Q F :
  io_wf x -> 2 <= n -> moved (vw x) (vw x) (a :: fpa ++ b :: fpb) (a :: fpa ++ b :: fpb) ->
  (forall nc nl x', io_wf x' -> moved (vw x) (vw x') (a :: fpa ++ b :: fpb) (nl :: nc :: a :: fpa ++ b :: fpb) ->
     page_num nl -> page_num nc -> (forall j, j ∈ a :: fpa ++ b :: fpb -> vw x' j = vw x j) ->
     (forall m, 2 <= m -> pr x m -> pr x' (m - 2)) -> wp (k nc nl) (n - 2) x' Q F) ->
  wp (do! nc := io_alloc PtIndex in do! nl := io_alloc PtIndex in k nc nl) n x Q F.
Proof.
  intros Hwf Hn Hm Hk. eapply wp_alloc_at; [done|lia|exact Hm|]. intros nc x1 Hwf1 Hm1 Hp1 Hn1 Hv1 Hpr1.
  eapply wp_alloc_at; [done|lia|exact Hm1|]. intros nl x2 Hwf2 Hm2 Hp2 Hn2 Hv2 Hpr2.
  replace (n - 1 - 1) with (n - 2) by lia. apply Hk; [done|done|done|done| |].
  - intros j Hj. rewrite Hv2 by (by right). by apply Hv1.
  - intros m Hmm Hx. replace (m - 2) with (m - 1 - 1) by lia. apply Hpr2; [lia|]. apply Hpr1; [lia|done].
Qed.

(** Both copies written, both old pages freed. *)
Lemma internals_written {B} v0 fp x a b fpa fpb l r nl nr (fst_free snd_free : Z) (res : B) n Q F :
  io_wf x -> moved v0 (vw x) fp (l :: r :: a :: fpa ++ b :: fpb) -> internal_wf nl -> internal_wf nr ->
  (fst_free = a /\ snd_free = b \/ fst_free = b /\ snd_free = a) ->
  (forall x', io_wf x' -> moved v0 (vw x') fp (l :: r :: fpa ++ fpb) -> internal_at (vw x') l nl -> internal_at (vw x') r nr ->
     (forall j, j ∈ fpa ++ fpb -> vw x' j = vw x j) -> (forall m, pr x m -> pr x' m) -> Q res x') ->
  wp (do! _ := write_new_internal l nl in
      do! _ := write_new_internal r nr in
      do! _ := io_free fst_free in
      do! _ := io_free snd_free in
      io_ret res) n x Q F.
Proof.
  intros Hwf Hm Hwl Hwr Hab HQ. pose proof (mv_nodup _ _ _ _ Hm) as Hnd. apply NoDup_cons in Hnd as [Hl Hnd].
  apply NoDup_cons in Hnd as [Hr Hnd].
  eapply wp_new_internal; [done|exact Hm|set_solver|done|]. intros x1 Hwf1 Hat1 Hm1 Hv1 Hpr1.
  eapply wp_new_internal; [done|exact Hm1|set_solver|done|]. intros x2 Hwf2 Hat2 Hm2 Hv2 Hpr2.
  assert (exists f, l :: r :: a :: fpa ++ b :: fpb ≡ₚ fst_free :: f /\ f ≡ₚ snd_free :: l :: r :: fpa ++ fpb) as (f & Hf1 & Hf2).
  { destruct Hab as [[-> ->]|[-> ->]].
    - exists (l :: r :: fpa ++ b :: fpb). split; [symmetry; apply (Permutation_middle [l; r])|].
      symmetry. apply (Permutation_middle (l :: r :: fpa)).
    - exists (l :: r :: a :: fpa ++ fpb). split; [symmetry; apply (Permutation_middle (l :: r :: a :: fpa))|].
      symmetry. apply (Permutation_middle [l; r]). }
  eapply wp_free_at; [done|exact Hm2|exact Hf1|]. intros x3 Hwf3 Hm3 Hv3 Hpr3.
  eapply wp_free_at; [done|exact Hm3|exact Hf2|]. intros x4 Hwf4 Hm4 Hv4 Hpr4.
  assert (Hsame : forall j, j ∈ l :: r :: fpa ++ fpb -> vw x4 j = vw x2 j).
  { intros j Hj. rewrite Hv4 by done. apply Hv3. rewrite Hf2. by right. }
  apply wp_ret. apply HQ; [done|done| | | |auto].
  - eapply internal_at_frame; [exact Hat1|]. rewrite Hsame by left. apply Hv2. set_solver.
  - eapply internal_at_frame; [exact Hat2|]. apply Hsame. right. left.
  - intros j Hj. rewrite Hsame by set_solver. rewrite Hv2 by set_solver. apply Hv1. set_solver.
Qed.

Lemma forest_keys_snoc v h lo k a n : internal_at v a n -> 1 <= in_num_keys n ->
  forall fpa lsa, forest (rep v h) lo (Some k) (internal_cs n) (internal_ks n) fpa lsa ->
  exists ksl lk csl lc f1 f2 l1 l2, internal_ks n = ksl ++ [lk] /\ internal_cs n = csl ++ [lc] /\
    forest (rep v h) lo (Some lk) csl ksl f1 l1 /\ forest (rep v h) (Some lk) (Some k) [lc] [] f2 l2 /\
    fpa = f1 ++ f2 /\ lsa = l1 ++ l2.
Proof.
  intros (p & _ & _ & _ & _ & Hw) Hn fpa lsa Hf. pose proof (internal_ks_length _ Hw) as Hkl. pose proof (internal_cs_length _ Hw) as Hcl.
  destruct (exists_last (l := internal_ks n)) as (ksl & lk & Hks); [intros He; rewrite He in Hkl; cbn in Hkl; lia|].
  destruct (exists_last (l := internal_cs n)) as (csl & lc & Hcs); [intros He; rewrite He in Hcl; cbn in Hcl; lia|].
  rewrite Hks, length_app in Hkl. rewrite Hcs, length_app in Hcl. cbn [length] in *.
  rewrite Hks, Hcs in Hf. destruct (forest_cut _ _ _ _ _ _ _ (length ksl) lk Hf) as (f1 & f2 & l1 & l2 & H1 & H2 & -> & ->);
    [by apply list_lookup_middle|].
  replace (S (length ksl)) with (length csl) in H1, H2 by lia. rewrite take_app_length, take_app_length in H1.
  rewrite drop_app_length in H2. rewrite drop_ge in H2 by (rewrite length_app; cbn [length]; lia).
  by exists ksl, lk, csl, lc, f1, f2, l1, l2.
Qed.

Lemma forest_keys_cons v h k hi b n : internal_at v b n -> 1 <= in_num_keys n ->
  forall fpb lsb, forest (rep v h) (Some k) hi (internal_cs n) (internal_ks n) fpb lsb ->
  exists k0 ksr c0 csr f1 f2 l1 l2, internal_ks n = k0 :: ksr /\ internal_cs n = c0 :: csr /\
    forest (rep v h) (Some k) (Some k0) [c0] [] f1 l1 /\ forest (rep v h) (Some k0) hi csr ksr f2 l2 /\
    fpb = f1 ++ f2 /\ lsb = l1 ++ l2.
Proof.
  intros (p & _ & _ & _ & _ & Hw) Hn fpb lsb Hf. pose proof (internal_ks_length _ Hw) as Hkl. pose proof (internal_cs_length _ Hw) as Hcl.
  destruct (internal_ks n) as [|k0 ksr] eqn:Hks; [cbn in Hkl; lia|]. destruct (internal_cs n) as [|c0 csr] eqn:Hcs; [cbn in Hcl; lia|].
  destruct (forest_cut _ _ _ _ _ _ _ 0 k0 Hf) as (f1 & f2 & l1 & l2 & H1 & H2 & -> & ->); [done|].
  cbn [take drop] in H1, H2. rewrite take_0, drop_0 in *. rewrite drop_0 in H2. by exists k0, ksr, c0, csr, f1, f2, l1, l2.
Qed.

Lemma rotate_right_internal_children x parent j h lo k hi a b fpa fpb lsa lsb ca cb :
  io_wf x -> internal_wf parent -> 0 <= j < in_num_keys parent -> internal_ks parent !! Z.to_nat j = Some k ->
  NoDup (fpa ++ fpb) -> Forall page_num (fpa ++ fpb) -> (forall q, q ∈ fpa ++ fpb -> is_Some (vw x q)) ->
  wrep (vw x) (S h) lo (Some k) a fpa lsa -> wrep (vw x) (S h) (Some k) hi b fpb lsb ->
  has_count (vw x) (S h) a ca -> has_count (vw x) (S h) b cb -> MIN_KEYS_INTERNAL < ca -> cb < MIN_KEYS_INTERNAL ->
  wp (do! nc := io_alloc PtIndex in
      do! nl := io_alloc PtIndex in
      do! left := read_internal a in
      do! child := read_internal b in
      do! r := io_pure (rotate_right_internals parent left child (j + 1) nl nc) in
      do! _ := write_new_internal nl r.1.2 in
      do! _ := write_new_internal nc r.2 in
      do! _ := io_free b in
      do! _ := io_free a in
      io_ret r.1.1) 2 x
    (fun p' x' => io_wf x' /\ (forall m, 2 <= m -> pr x m -> pr x' (m - 2)) /\ rotated x x' parent j (S h) lo hi fpa fpb lsa lsb p')
    (fun _ _ => False).
Proof.
  intros Hwf Hwp Hj Hk Hnd Hnum Huse Ha Hb Hca Hcb Hla Hlb. cbn in Ha, Hb, Hca, Hcb.
  destruct Ha as (na & fa & Hata & -> & Hfa), Hb as (nb & fb & Hatb & -> & Hfb).
  destruct Hca as (na' & Hata' & <-), Hcb as (nb' & Hatb' & <-).
  rewrite <-(internal_at_eq _ _ _ _ Hata Hata') in Hla. rewrite <-(internal_at_eq _ _ _ _ Hatb Hatb') in Hlb. clear Hata' Hatb' na' nb'.
  pose proof Hata as (pa & _ & _ & _ & _ & Hwa). pose proof Hatb as (pb & _ & _ & _ & _ & Hwb). pose proof (is_num _ (iw_sized _ Hwb)) as [Hb0 _].
  eapply internals_moved; [done|lia|by apply moved_refl|]. intros nc nl x1 Hwf1 Hm1 Hpl Hpc Hv1 Hpr1.
  eapply wp_read_internal; [done|eapply internal_at_frame; [exact Hata|apply Hv1; left]|].
  eapply wp_read_internal; [done|eapply internal_at_frame; [exact Hatb|apply Hv1; set_solver]|].
  destruct (forest_keys_snoc _ _ _ _ _ _ Hata ltac:(counts) _ _ Hfa) as
    (ksl & lk & csl & lc & f1 & f2 & l1 & l2 & Hks & Hcs & Hf1 & Hf2 & -> & ->).
  destruct (rotate_right_internals_spec parent na nb (j + 1) nl nc k ksl lk csl lc) as
    (p' & l' & c' & -> & Hwl & Hnl & Hkl & Hcl & Hwc & Hnc & Hkc & Hcc & Hwp' & Hnp & Hkp & Hcp);
    [done|lia|done|done|counts|by replace (j + 1 - 1) with j by lia|done|done|by apply page_num_u64|by apply page_num_u64|].
  eapply wp_pure; [done|]. cbn [fst snd].
  eapply (internals_written _ _ _ a b _ _ _ _ _ _ b a); [done|exact Hm1|done|done|by right|].
  intros x2 Hwf2 Hm2 Hatl Hatc Hv2 Hpr2. split; [done|]. split; [intros m Hmm Hx; apply Hpr2, Hpr1; done|].
  assert (Hsame : forall q, q ∈ (f1 ++ f2) ++ fb -> vw x2 q = vw x q).
  { intros q Hq. rewrite Hv2 by done. apply Hv1. set_solver. }
  exists nl, nc, lk, ((nl :: f1) ++ (nc :: f2 ++ fb)), (l1 ++ (l2 ++ lsb)). split.
  { cbn. rewrite <-(Permutation_middle f1 (f2 ++ fb) nc), (app_assoc f1). exact Hm2. }
  split.
  { apply forest_pair.
    - cbn. exists l', f1. rewrite Hkl, Hcl. split; [done|]. split; [counts|]. split; [done|].
      eapply forest_frame; [exact Hf1|]. intros q Hq. apply Hsame. set_solver.
    - cbn. exists c', (f2 ++ fb). rewrite Hkc, Hcc. split; [done|]. split; [lia|]. split; [done|].
      apply (forest_app _ (Some lk) k hi [lc] [] f2 l2).
      + eapply forest_frame; [exact Hf2|]. intros q Hq. apply Hsame. set_solver.
      + eapply forest_frame; [exact Hfb|]. intros q Hq. apply Hsame. set_solver. }
  split; [by rewrite !app_assoc|]. split; [rewrite !app_assoc; apply same_links_refl|].
  replace (j + 1 - 1) with j in * by lia. done.
Qed.

Lemma rotate_left_internal_children x parent j h lo k hi a b fpa fpb lsa lsb ca cb :
  io_wf x -> internal_wf parent -> 0 <= j < in_num_keys parent -> internal_ks parent !! Z.to_nat j = Some k ->
  NoDup (fpa ++ fpb) -> Forall page_num (fpa ++ fpb) -> (forall q, q ∈ fpa ++ fpb -> is_Some (vw x q)) ->
  wrep (vw x) (S h) lo (Some k) a fpa lsa -> wrep (vw x) (S h) (Some k) hi b fpb lsb ->
  has_count (vw x) (S h) a ca -> has_count (vw x) (S h) b cb -> ca < MIN_KEYS_INTERNAL -> MIN_KEYS_INTERNAL < cb ->
  wp (do! nc := io_alloc PtIndex in
      do! nr := io_alloc PtIndex in
      do! child := read_internal a in
      do! right := read_internal b in
      do! r := io_pure (rotate_left_internals parent child right j nc nr) in
      do! _ := write_new_internal nc r.1.2 in
      do! _ := write_new_internal nr r.2 in
      do! _ := io_free a in
      do! _ := io_free b in
      io_ret r.1.1) 2 x
    (fun p' x' => io_wf x' /\ (forall m, 2 <= m -> pr x m -> pr x' (m - 2)) /\ rotated x x' parent j (S h) lo hi fpa fpb lsa lsb p')
    (fun _ _ => False).
Proof.
  intros Hwf Hwp Hj Hk Hnd Hnum Huse Ha Hb Hca Hcb Hla Hlb. cbn in Ha, Hb, Hca, Hcb.
  destruct Ha as (na & fa & Hata & -> & Hfa), Hb as (nb & fb & Hatb & -> & Hfb).
  destruct Hca as (na' & Hata' & <-), Hcb as (nb' & Hatb' & <-).
  rewrite <-(internal_at_eq _ _ _ _ Hata Hata') in Hla. rewrite <-(internal_at_eq _ _ _ _ Hatb Hatb') in Hlb. clear Hata' Hatb' na' nb'.
  pose proof Hata as (pa & _ & _ & _ & _ & Hwa). pose proof Hatb as (pb & _ & _ & _ & _ & Hwb). pose proof (is_num _ (iw_sized _ Hwa)) as [Ha0 _].
  eapply internals_moved; [done|lia|by apply moved_refl|]. intros nc nr x1 Hwf1 Hm1 Hpr' Hpc Hv1 Hpr1.
  eapply wp_read_internal; [done|eapply internal_at_frame; [exact Hata|apply Hv1; left]|].
  eapply wp_read_internal; [done|eapply internal_at_frame; [exact Hatb|apply Hv1; set_solver]|].
  destruct (forest_keys_cons _ _ _ _ _ _ Hatb ltac:(counts) _ _ Hfb) as
    (k0 & ksr & c0 & csr & f1 & f2 & l1 & l2 & Hks & Hcs & Hf1 & Hf2 & -> & ->).
  destruct (rotate_left_internals_spec parent na nb j nc nr k k0 ksr c0 csr) as
    (p' & c' & r' & -> & Hwc & Hnc & Hkc & Hcc & Hwr & Hnr & Hkr & Hcr & Hwp' & Hnp & Hkp & Hcp);
    [done|lia|done|done|counts|done|done|done|by apply page_num_u64|by apply page_num_u64|].
  eapply wp_pure; [done|]. cbn [fst snd].
  eapply (internals_written _ _ _ a b _ _ _ _ _ _ a b); [done|by rewrite Permutation_swap; exact Hm1|done|done|by left|].
  intros x2 Hwf2 Hm2 Hatc Hatr Hv2 Hpr2. split; [done|]. split; [intros m Hmm Hx; apply Hpr2, Hpr1; done|].
  assert (Hsame : forall q, q ∈ fa ++ f1 ++ f2 -> vw x2 q = vw x q).
  { intros q Hq. rewrite Hv2 by done. apply Hv1. set_solver. }
  exists nc, nr, k0, ((nc :: fa ++ f1) ++ (nr :: f2)), ((lsa ++ l1) ++ l2). split.
  { cbn. rewrite <-(Permutation_middle (fa ++ f1) f2 nr), <-(app_assoc fa). exact Hm2. }
  split.
  { apply forest_pair.
    - cbn. exists c', (fa ++ f1). rewrite Hkc, Hcc. split; [done|]. split; [lia|]. split; [done|].
      apply (forest_app _ lo k (Some k0) _ _ fa lsa [c0] []).
      + eapply forest_frame; [exact Hfa|]. intros q Hq. apply Hsame. set_solver.
      + eapply forest_frame; [exact Hf1|]. intros q Hq. apply Hsame. set_solver.
    - cbn. exists r', f2. rewrite Hkr, Hcr. split; [done|]. split; [counts|]. split; [done|].
      eapply forest_frame; [exact Hf2|]. intros q Hq. apply Hsame. set_solver. }
  split; [by rewrite !app_assoc|]. split; [rewrite !app_assoc; apply same_links_refl|]. done.
Qed.

(** The two children merged into [m]; the page of the right one is still in use. *)
Definition merged_into (x x' : Io St) (h : nat) (lo hi : option bytes) (fpa fpb : list Z) (lsa lsb : list leafd) (right m : Z) : Prop :=
  exists fp' ls', moved (vw x) (vw x') (fpa ++ fpb) (fp' ++ [right]) /\ rep (vw x') h lo hi m fp' ls' /\
    ents ls' = ents (lsa ++ lsb) /\ same_links (lsa ++ lsb) ls'.

Lemma merge_leaf_children x lo k hi a b fpa fpb lsa lsb ca cb :
  io_wf x -> NoDup (fpa ++ fpb) -> Forall page_num (fpa ++ fpb) ->
  wrep (vw x) 0 lo (Some k) a fpa lsa -> wrep (vw x) 0 (Some k) hi b fpb lsb ->
  has_count (vw x) 0 a ca -> has_count (vw x) 0 b cb -> ca + cb <= ORDER_LEAF ->
  wp (do! left := read_leaf a in
      do! right := read_leaf b in
      do! merged := io_pure (merge_leaves left right) in
      do! _ := write_new_leaf a merged in
      io_ret a) 2 x
    (fun m x' => io_wf x' /\ (forall m, 2 <= m -> pr x m -> pr x' (m - 2)) /\ merged_into x x' 0 lo hi fpa fpb lsa lsb b m)
    (fun _ _ => False).
Proof.
  intros Hwf Hnd Hnum Ha Hb Hca Hcb Hsum. cbn in Ha, Hb, Hca, Hcb.
  destruct Ha as (-> & na & Hata & -> & Hina), Hb as (-> & nb & Hatb & -> & Hinb).
  destruct Hca as (na' & Hata' & <-), Hcb as (nb' & Hatb' & <-).
  rewrite <-(leaf_at_eq _ _ _ _ Hata Hata'), <-(leaf_at_eq _ _ _ _ Hatb Hatb') in Hsum. clear Hata' Hatb' na' nb'.
  pose proof Hata as (pa & Hpa & _ & _ & _ & Hwa). pose proof Hatb as (pb & Hpb & _ & _ & _ & Hwb).
  assert (Hm0 : moved (vw x) (vw x) ([a] ++ [b]) ([a] ++ [b])).
  { apply moved_refl; [|done|done]. intros q Hq. apply elem_of_app in Hq as [Hq|Hq]; apply list_elem_of_singleton in Hq as ->; by eexists. }
  eapply wp_read_leaf; [done|exact Hata|]. eapply wp_read_leaf; [done|exact Hatb|].
  destruct (merge_leaves_spec na nb Hwa Hwb Hsum) as (m & -> & Hwm & Hem & Hnm). eapply wp_pure; [done|].
  eapply wp_new_leaf; [done|exact Hm0|set_solver|done|]. intros x1 Hwf1 Hat1 Hm1 Hv1 Hpr1.
  apply wp_ret. split; [done|]. split; [intros q Hmm Hx; eapply pr_mono; [apply Hpr1, Hx|lia]|].
  exists [a], [mkLd a (lf_next_leaf nb) (leaf_es na ++ leaf_es nb)]. split; [done|]. split.
  { split; [done|]. exists m. rewrite Hem, Hnm. split; [done|]. split; [done|]. by eapply leaf_in_app. }
  rewrite ents_app, !ents_one. split; [done|]. split; [|done]. intros z. cbn. intuition.
Qed.

Lemma merge_internal_children x parent j h lo k hi a b fpa fpb lsa lsb ca cb :
  io_wf x -> internal_wf parent -> 0 <= j < in_num_keys parent -> internal_ks parent !! Z.to_nat j = Some k ->
  NoDup (fpa ++ fpb) -> Forall page_num (fpa ++ fpb) -> (forall q, q ∈ fpa ++ fpb -> is_Some (vw x q)) ->
  wrep (vw x) (S h) lo (Some k) a fpa lsa -> wrep (vw x) (S h) (Some k) hi b fpb lsb ->
  has_count (vw x) (S h) a ca -> has_count (vw x) (S h) b cb -> ca + 1 + cb <= ORDER_INTERNAL ->
  wp (do! mp := io_alloc PtIndex in
      do! left := read_internal a in
      do! right := read_internal b in
      do! merged := io_pure (merge_internals parent left right j) in
      do! _ := write_new_internal mp merged in
      do! _ := io_free a in
      io_ret mp) 2 x
    (fun m x' => io_wf x' /\ (forall m, 2 <= m -> pr x m -> pr x' (m - 2)) /\ merged_into x x' (S h) lo hi fpa fpb lsa lsb b m)
    (fun _ _ => False).
Proof.
  intros Hwf Hwp Hj Hk Hnd Hnum Huse Ha Hb Hca Hcb Hsum. cbn in Ha, Hb, Hca, Hcb.
  destruct Ha as (na & fa & Hata & -> & Hfa), Hb as (nb & fb & Hatb & -> & Hfb).
  destruct Hca as (na' & Hata' & <-), Hcb as (nb' & Hatb' & <-).
  rewrite <-(internal_at_eq _ _ _ _ Hata Hata'), <-(internal_at_eq _ _ _ _ Hatb Hatb') in Hsum. clear Hata' Hatb' na' nb'.
  pose proof Hata as (pa & _ & _ & _ & _ & Hwa). pose proof Hatb as (pb & _ & _ & _ & _ & Hwb).
  pose proof (is_num _ (iw_sized _ Hwa)) as [Ha0 _]. pose proof (is_num _ (iw_sized _ Hwb)) as [Hb0 _].
  eapply wp_alloc_at; [done|lia|by apply moved_refl|]. intros mp x1 Hwf1 Hm1 Hpm Hnm Hv1 Hpr1.
  eapply wp_read_internal; [done|eapply internal_at_frame; [exact Hata|apply Hv1; left]|].
  eapply wp_read_internal; [done|eapply internal_at_frame; [exact Hatb|apply Hv1; set_solver]|].
  destruct (merge_internals_spec parent na nb j k Hwp Hwa Hwb) as (m & -> & Hwm & Hcm & Hkm & Hcsm); [lia|done|done|].
  eapply wp_pure; [done|]. eapply wp_new_internal; [done|exact Hm1|left|done|]. intros x2 Hwf2 Hat2 Hm2 Hv2 Hpr2.
  eapply (wp_free_at _ _ _ (mp :: fa ++ b :: fb)); [done|exact Hm2|apply Permutation_swap|]. intros x3 Hwf3 Hm3 Hv3 Hpr3.
  apply wp_ret. split; [done|]. split.
  { intros q Hq Hx. apply Hpr3, Hpr2. eapply pr_mono; [apply (Hpr1 q); [lia|done]|lia]. }
  assert (Hsame : forall q, q ∈ fa ++ fb -> vw x3 q = vw x q).
  { intros q Hq. rewrite Hv3 by set_solver. rewrite Hv2 by (intros ->; set_solver). apply Hv1. set_solver. }
  exists (mp :: fa ++ fb), (lsa ++ lsb). split.
  { rewrite <-(Permutation_middle fa fb b) in Hm3. cbn. rewrite <-Permutation_cons_append. exact Hm3. }
  split; [|split; [done|apply same_links_refl]].
  cbn. exists m, (fa ++ fb). rewrite Hkm, Hcsm. split; [eapply internal_at_frame; [exact Hat2|apply Hv3; left]|].
  split; [lia|]. split; [done|]. apply forest_app; (eapply forest_frame; [done|]); intros q Hq; apply Hsame; set_solver.
Qed.

(** ** The parent *)

Section Pair.
Context (v0 : Z -> option Page) (fp : list Z) (x : Io St) (pid : Z) (n : InternalNodePage) (j : Z) (h : nat).
Context (lo lo1 : option bytes) (k : bytes) (hi1 hi : option bytes) (a b : Z) (fp1 fpa fpb fp2 : list Z).
Context (ls1 lsa lsb ls2 : list leafd) (ca cb : Z).
Hypothesis (Hwf : io_wf x).
Hypothesis (Hat : internal_at (vw x) pid n).
Hypothesis (Hj : 0 <= j < in_num_keys n).
Hypothesis (Hk : internal_ks n !! Z.to_nat j = Some k).
Hypothesis (Hm : moved v0 (vw x) fp (pid :: fp1 ++ (fpa ++ fpb) ++ fp2)).
Hypothesis (Hl : lseg (rep (vw x) h) lo lo1 (take (Z.to_nat j) (internal_cs n)) (take (Z.to_nat j) (internal_ks n)) fp1 ls1).
Hypothesis (Ha : wrep (vw x) h lo1 (Some k) a fpa lsa).
Hypothesis (Hb : wrep (vw x) h (Some k) hi1 b fpb lsb).
Hypothesis (Hr : rseg (rep (vw x) h) hi1 hi (drop (S (S (Z.to_nat j))) (internal_cs n)) (drop (S (Z.to_nat j)) (internal_ks n)) fp2 ls2).
Hypothesis (Hca : has_count (vw x) h a ca).
Hypothesis (Hcb : has_count (vw x) h b cb).

(** The parent was copied to [np], and lost at most one key. *)
Definition rebalanced (np : Z) (x' : Io St) : Prop :=
  io_wf x' /\ (forall m, 3 <= m -> pr x m -> pr x' (m - 3)) /\
  exists n' g ls', moved v0 (vw x') fp (np :: g) /\ internal_at (vw x') np n' /\
    forest (rep (vw x') h) lo hi (internal_cs n') (internal_ks n') g ls' /\
    ents ls' = ents (ls1 ++ (lsa ++ lsb) ++ ls2) /\ same_links (ls1 ++ (lsa ++ lsb) ++ ls2) ls'.

Lemma n_wf : internal_wf n.
Proof. by destruct Hat as (p & _ & _ & _ & _ & ?). Qed.

Lemma pair_owned : NoDup (fpa ++ fpb) /\ Forall page_num (fpa ++ fpb).
Proof.
  pose proof (mv_nodup _ _ _ _ Hm) as Hnd. pose proof (mv_num _ _ _ _ Hm) as Hnum.
  rewrite (focus_perm pid fp1 (fpa ++ fpb) fp2) in Hnd, Hnum. apply NoDup_app in Hnd as (_ & _ & Hnd).
  by apply Forall_app in Hnum as [_ Hnum].
Qed.

(** A page for the new parent, and the rest of the program. *)
Lemma with_new_page {B} (k0 : Z -> M St B) Q F :
  (forall np x1, io_wf x1 -> moved v0 (vw x1) fp (np :: pid :: fp1 ++ (fpa ++ fpb) ++ fp2) ->
     (forall q, q ∈ pid :: fp1 ++ (fpa ++ fpb) ++ fp2 -> vw x1 q = vw x q) ->
     (forall m, 1 <= m -> pr x m -> pr x1 (m - 1)) -> wp (k0 np) 2 x1 Q F) ->
  wp (io_bind (io_alloc PtIndex) k0) 3 x Q F.
Proof.
  intros Hk0. eapply wp_alloc_at; [done|lia|exact Hm|]. intros np x1 Hwf1 Hm1 Hpn Hni Hv1 Hpr1.
  apply Hk0; [done|done|done|]. intros m Hmm Hx. apply Hpr1; [lia|done].
Qed.

Lemma rotate_finish (inner : M St InternalNodePage) :
  (forall x1, io_wf x1 -> (forall q, q ∈ pid :: fp1 ++ (fpa ++ fpb) ++ fp2 -> vw x1 q = vw x q) ->
     wp inner 2 x1 (fun p' x' => io_wf x' /\ (forall m, 2 <= m -> pr x1 m -> pr x' (m - 2)) /\
                                 rotated x1 x' n j h lo1 hi1 fpa fpb lsa lsb p') (fun _ _ => False)) ->
  wp (do! np := io_alloc PtIndex in
      do! p' := inner in
      do! _ := write_new_internal np p' in
      do! _ := io_free pid in
      io_ret np) 3 x rebalanced (fun _ _ => False).
Proof.
  intros Hinner. apply with_new_page. intros np x1 Hwf1 Hm1 Hv1 Hpr1.
  eapply wp_call; [by apply Hinner|lia|]. intros p' x2 (Hwf2 & Hpr2 & a' & b' & k' & fp' & ls' & Hm2 & Hf & He & Hlk & Hwp & Hnp & Hkp & Hcp).
  split; [done|]. change (np :: pid :: fp1 ++ (fpa ++ fpb) ++ fp2) with ((np :: pid :: fp1) ++ (fpa ++ fpb) ++ fp2) in Hm1.
  assert (Hp : forall f : list Z, (np :: pid :: fp1) ++ f ++ fp2 ≡ₚ (np :: pid :: fp1 ++ fp2) ++ f).
  { intros f. cbn. by rewrite <-app_assoc, (Permutation_app_comm f fp2). }
  rewrite Hp in Hm1. destruct (moved_sub _ _ _ _ _ _ _ Hm1 Hm2) as [Hm3 Hv3].
  assert (Hv : forall q, q ∈ fp1 ++ fp2 -> vw x2 q = vw x q).
  { intros q Hq. rewrite Hv3 by set_solver. apply Hv1. set_solver. }
  pose proof (mv_nodup _ _ _ _ Hm3) as Hnd3. rewrite <-Hp in Hm3, Hnd3. cbn in Hm3, Hnd3. apply NoDup_cons in Hnd3 as [Hnn Hnd3].
  eapply wp_new_internal; [done|exact Hm3|left|done|]. intros x3 Hwf3 Hat3 Hm4 Hv4 Hpr4.
  eapply (wp_free_at _ _ _ (np :: fp1 ++ fp' ++ fp2)); [done|exact Hm4|apply Permutation_swap|]. intros x4 Hwf4 Hm5 Hv5 Hpr5.
  apply wp_ret. split; [done|]. split.
  { intros m Hmm Hx. apply Hpr5, Hpr4. replace (m - 3) with (m - 1 - 2) by lia. apply Hpr2; [lia|]. apply Hpr1; [lia|done]. }
  assert (Hsame : forall q, q ∈ fp1 ++ fp' ++ fp2 -> vw x4 q = vw x2 q).
  { intros q Hq. rewrite Hv5 by (by right). apply Hv4. intros ->. apply Hnn. by right. }
  exists p', (fp1 ++ fp' ++ fp2), (ls1 ++ ls' ++ ls2). split; [done|]. split; [eapply internal_at_frame; [exact Hat3|apply Hv5; left]|].
  rewrite Hkp, Hcp. split; [|split; [by rewrite !(ents_app ls1), !(ents_app _ ls2), He|by apply same_links_mid]].
  eapply forest_unfocus.
  - eapply lseg_frame; [exact Hl|]. intros q Hq. rewrite Hsame by set_solver. apply Hv. set_solver.
  - eapply forest_frame; [exact Hf|]. intros q Hq. apply Hsame. set_solver.
  - eapply rseg_frame; [exact Hr|]. intros q Hq. rewrite Hsame by set_solver. apply Hv. set_solver.
Qed.

(** The children seen from a state that agrees on their pages. *)
Lemma pair_at x1 : (forall q, q ∈ pid :: fp1 ++ (fpa ++ fpb) ++ fp2 -> vw x1 q = vw x q) ->
  wrep (vw x1) h lo1 (Some k) a fpa lsa /\ wrep (vw x1) h (Some k) hi1 b fpb lsb /\
  has_count (vw x1) h a ca /\ has_count (vw x1) h b cb /\ (forall q, q ∈ fpa ++ fpb -> is_Some (vw x1 q)).
Proof.
  intros Hv. pose proof (wrep_root_in _ _ _ _ _ _ _ Ha). pose proof (wrep_root_in _ _ _ _ _ _ _ Hb). split_and!.
  - eapply wrep_frame; [exact Ha|]. intros q Hq. apply Hv. set_solver.
  - eapply wrep_frame; [exact Hb|]. intros q Hq. apply Hv. set_solver.
  - eapply has_count_frame; [exact Hca|]. apply Hv. set_solver.
  - eapply has_count_frame; [exact Hcb|]. apply Hv. set_solver.
  - intros q Hq. rewrite Hv by set_solver. apply (mv_in _ _ _ _ Hm). set_solver.
Qed.

Lemma rotate_right_spec : min_count h < ca -> cb < min_count h ->
  wp (rotate_right_batched pid n (j + 1) b a (h =? 0)%nat) 3 x rebalanced (fun _ _ => False).
Proof.
  intros Hla Hlb. destruct pair_owned as [Hnd Hnum]. apply rotate_finish. intros x1 Hwf1 Hv1.
  destruct (pair_at x1 Hv1) as (Ha1 & Hb1 & Hca1 & Hcb1 & Hin1). destruct h as [|h']; cbn [Nat.eqb].
  - eapply rotate_right_leaf_children; try done. apply n_wf.
  - eapply rotate_right_internal_children; try done. apply n_wf.
Qed.

Lemma rotate_left_spec : ca < min_count h -> min_count h < cb ->
  wp (rotate_left_batched pid n j a b (h =? 0)%nat) 3 x rebalanced (fun _ _ => False).
Proof.
  intros Hla Hlb. destruct pair_owned as [Hnd Hnum]. apply rotate_finish. intros x1 Hwf1 Hv1.
  destruct (pair_at x1 Hv1) as (Ha1 & Hb1 & Hca1 & Hcb1 & Hin1). destruct h as [|h']; cbn [Nat.eqb].
  - eapply rotate_left_leaf_children; try done. apply n_wf.
  - eapply rotate_left_internal_children; try done. apply n_wf.
Qed.

Lemma parent_merged m : in_u64 m ->
  exists n1 n2, set_child_at n j m = Some n1 /\ internal_remove_at n1 j (j + 1) = Some n2 /\ internal_wf n2 /\
    internal_ks n2 = take (Z.to_nat j) (internal_ks n) ++ [] ++ drop (S (Z.to_nat j)) (internal_ks n) /\
    internal_cs n2 = take (Z.to_nat j) (internal_cs n) ++ [m] ++ drop (S (S (Z.to_nat j))) (internal_cs n).
Proof.
  intros Hmu. pose proof n_wf as Hw. pose proof (internal_cs_length _ Hw) as Hcl.
  destruct (set_child_at_spec n j m Hw) as (n1 & E1 & Hw1 & Hn1 & Hk1 & Hc1); [lia|done|].
  destruct (internal_remove_at_spec n1 j (j + 1) Hw1) as (n2 & E2 & Hw2 & Hn2 & Hk2 & Hc2); [lia|lia|].
  exists n1, n2. do 3 (split; [done|]). split; [by rewrite Hk2, Hk1|]. rewrite Hc2, Hc1.
  replace (Z.to_nat (j + 1)) with (S (Z.to_nat j)) by lia.
  rewrite (take_S_r _ _ m) by (apply list_lookup_insert_eq; lia). rewrite take_insert_ge by lia.
  rewrite drop_insert, decide_False by lia. by rewrite <-app_assoc.
Qed.

Lemma merge_finish (inner : M St Z) :
  (forall x1, io_wf x1 -> (forall q, q ∈ pid :: fp1 ++ (fpa ++ fpb) ++ fp2 -> vw x1 q = vw x q) ->
     wp inner 2 x1 (fun m x' => io_wf x' /\ (forall c, 2 <= c -> pr x1 c -> pr x' (c - 2)) /\
                                merged_into x1 x' h lo1 hi1 fpa fpb lsa lsb b m) (fun _ _ => False)) ->
  wp (do! npp := io_alloc PtIndex in
      do! merged_pid := inner in
      do! parent := io_pure (set_child_at n j merged_pid) in
      do! parent := io_pure (internal_remove_at parent j (j + 1)) in
      do! _ := write_new_internal npp parent in
      do! _ := io_free pid in
      do! _ := io_free b in
      io_ret npp) 3 x rebalanced (fun _ _ => False).
Proof.
  intros Hinner. apply with_new_page. intros np x1 Hwf1 Hm1 Hv1 Hpr1.
  eapply wp_call; [by apply Hinner|lia|]. intros m x2 (Hwf2 & Hpr2 & fp' & ls' & Hm2 & Hf & He & Hlk).
  split; [done|]. change (np :: pid :: fp1 ++ (fpa ++ fpb) ++ fp2) with ((np :: pid :: fp1) ++ (fpa ++ fpb) ++ fp2) in Hm1.
  assert (Hp : forall f : list Z, (np :: pid :: fp1) ++ f ++ fp2 ≡ₚ (np :: pid :: fp1 ++ fp2) ++ f).
  { intros f. cbn. by rewrite <-app_assoc, (Permutation_app_comm f fp2). }
  rewrite Hp in Hm1. destruct (moved_sub _ _ _ _ _ _ _ Hm1 Hm2) as [Hm3 Hv3].
  assert (Hv : forall q, q ∈ fp1 ++ fp2 -> vw x2 q = vw x q).
  { intros q Hq. rewrite Hv3 by set_solver. apply Hv1. set_solver. }
  pose proof (mv_nodup _ _ _ _ Hm3) as Hnd3. pose proof (mv_num _ _ _ _ Hm3) as Hnum3. rewrite Forall_forall in Hnum3.
  pose proof (rep_root_in _ _ _ _ _ _ _ Hf) as Hmin.
  destruct (parent_merged m) as (n1 & n2 & E1 & E2 & Hw2 & Hk2 & Hc2); [apply page_num_u64, Hnum3; set_solver|].
  rewrite E1. eapply wp_pure; [done|]. rewrite E2. eapply wp_pure; [done|].
  rewrite <-Hp in Hm3, Hnd3. cbn in Hm3, Hnd3. apply NoDup_cons in Hnd3 as [Hnn Hnd3].
  eapply wp_new_internal; [done|exact Hm3|left|done|]. intros x3 Hwf3 Hat3 Hm4 Hv4 Hpr4.
  eapply (wp_free_at _ _ _ (np :: fp1 ++ (fp' ++ [b]) ++ fp2)); [done|exact Hm4|apply Permutation_swap|]. intros x4 Hwf4 Hm5 Hv5 Hpr5.
  eapply (wp_free_at _ _ _ (np :: fp1 ++ fp' ++ fp2)); [done|exact Hm5| |].
  { rewrite <-app_assoc, app_assoc, (app_assoc fp1 fp' fp2). symmetry. apply (Permutation_middle (np :: fp1 ++ fp')). }
  intros x5 Hwf5 Hm6 Hv6 Hpr6. apply wp_ret. split; [done|]. split.
  { intros c Hc Hx. apply Hpr6, Hpr5, Hpr4. replace (c - 3) with (c - 1 - 2) by lia. apply Hpr2; [lia|]. apply Hpr1; [lia|done]. }
  assert (Hsame : forall q, q ∈ fp1 ++ fp' ++ fp2 -> vw x5 q = vw x2 q).
  { intros q Hq. rewrite Hv6 by (by right). rewrite Hv5 by set_solver. apply Hv4. intros ->. apply Hnn. set_solver. }
  exists n2, (fp1 ++ fp' ++ fp2), (ls1 ++ ls' ++ ls2). split; [done|]. split.
  { eapply internal_at_frame; [exact Hat3|]. rewrite Hv6 by left. apply Hv5. left. }
  rewrite Hk2, Hc2. split; [|split; [by rewrite !(ents_app ls1), !(ents_app _ ls2), He|by apply same_links_mid]].
  eapply forest_unfocus.
  - eapply lseg_frame; [exact Hl|]. intros q Hq. rewrite Hsame by set_solver. apply Hv. set_solver.
  - apply forest_one. eapply rep_frame; [exact Hf|]. intros q Hq. apply Hsame. set_solver.
  - eapply rseg_frame; [exact Hr|]. intros q Hq. rewrite Hsame by set_solver. apply Hv. set_solver.
Qed.

Lemma merge_spec : ca + cb < 2 * min_count h ->
  wp (merge_children_batched pid n j a b (h =? 0)%nat) 3 x rebalanced (fun _ _ => False).
Proof.
  intros Hsum. destruct pair_owned as [Hnd Hnum]. apply merge_finish. intros x1 Hwf1 Hv1.
  destruct (pair_at x1 Hv1) as (Ha1 & Hb1 & Hca1 & Hcb1 & Hin1). destruct h as [|h']; cbn [Nat.eqb min_count] in *.
  - eapply merge_leaf_children; try done. counts.
  - eapply merge_internal_children; try done; [apply n_wf|counts].
Qed.
End Pair.

(** ** [rebalance_batched] *)

Section Child.
Context (v0 : Z -> option Page) (fp : list Z) (x : Io St) (pid : Z) (n : InternalNodePage) (i : Z) (h : nat).
Context (lo lo' hi' hi : option bytes) (c : Z) (fp1 fpc fp2 : list Z) (ls1 lsc ls2 : list leafd) (cc : Z).
Hypothesis (Hwf : io_wf x).
Hypothesis (Hat : internal_at (vw x) pid n).
Hypothesis (Hn : 1 <= in_num_keys n).
Hypothesis (Hi : 0 <= i <= in_num_keys n).
Hypothesis (Hm : moved v0 (vw x) fp (pid :: fp1 ++ fpc ++ fp2)).
Hypothesis (Hl : lseg (rep (vw x) h) lo lo' (take (Z.to_nat i) (internal_cs n)) (take (Z.to_nat i) (internal_ks n)) fp1 ls1).
Hypothesis (Hc : wrep (vw x) h lo' hi' c fpc lsc).
Hypothesis (Hr : rseg (rep (vw x) h) hi' hi (drop (S (Z.to_nat i)) (internal_cs n)) (drop (Z.to_nat i) (internal_ks n)) fp2 ls2).
Hypothesis (Hcc : has_count (vw x) h c cc).
Hypothesis (Hsmall : cc < min_count h).

Definition rebalanced_child (np : Z) (x' : Io St) : Prop :=
  io_wf x' /\ (forall m, 3 <= m -> pr x m -> pr x' (m - 3)) /\
  exists n' g ls', moved v0 (vw x') fp (np :: g) /\ internal_at (vw x') np n' /\
    forest (rep (vw x') h) lo hi (internal_cs n') (internal_ks n') g ls' /\
    ents ls' = ents (ls1 ++ lsc ++ ls2) /\ same_links (ls1 ++ lsc ++ ls2) ls'.

Lemma left_sibling : 0 < i -> exists k a lo1 fp1' fpa ls1' lsa,
  internal_ks n !! Z.to_nat (i - 1) = Some k /\ child_at n (i - 1) = Some a /\ lo' = Some k /\
  lseg (rep (vw x) h) lo lo1 (take (Z.to_nat (i - 1)) (internal_cs n)) (take (Z.to_nat (i - 1)) (internal_ks n)) fp1' ls1' /\
  rep (vw x) h lo1 (Some k) a fpa lsa /\ fp1 = fp1' ++ fpa /\ ls1 = ls1' ++ lsa.
Proof.
  intros Hpos. assert (internal_wf n) as Hw by (by destruct Hat as (p & _ & _ & _ & _ & ?)).
  pose proof (internal_cs_length n Hw) as Hcl. pose proof (internal_ks_length n Hw) as Hkl.
  destruct (lookup_lt_is_Some_2 (internal_cs n) (Z.to_nat (i - 1))) as [a Ha]; [lia|].
  destruct (lookup_lt_is_Some_2 (internal_ks n) (Z.to_nat (i - 1))) as [k Hk]; [lia|].
  revert Hl. replace (Z.to_nat i) with (S (Z.to_nat (i - 1))) by lia. rewrite (take_S_r _ _ _ Ha), (take_S_r _ _ _ Hk).
  intros Hl'. apply lseg_snoc_inv in Hl' as (lo1 & fp1' & fpa & ls1' & lsa & Hl1 & Hla & -> & -> & ->); [|rewrite !length_take; lia].
  exists k, a, lo1, fp1', fpa, ls1', lsa. rewrite child_at_cs by (done || lia). done.
Qed.

Lemma right_sibling : i < in_num_keys n -> exists k b hi1 fpb fp2' lsb ls2',
  internal_ks n !! Z.to_nat i = Some k /\ child_at n (i + 1) = Some b /\ hi' = Some k /\
  rep (vw x) h (Some k) hi1 b fpb lsb /\
  rseg (rep (vw x) h) hi1 hi (drop (S (S (Z.to_nat i))) (internal_cs n)) (drop (S (Z.to_nat i)) (internal_ks n)) fp2' ls2' /\
  fp2 = fpb ++ fp2' /\ ls2 = lsb ++ ls2'.
Proof.
  intros Hlt. assert (internal_wf n) as Hw by (by destruct Hat as (p & _ & _ & _ & _ & ?)).
  pose proof (internal_cs_length n Hw) as Hcl. pose proof (internal_ks_length n Hw) as Hkl.
  destruct (lookup_lt_is_Some_2 (internal_cs n) (S (Z.to_nat i))) as [b Hb]; [lia|].
  destruct (lookup_lt_is_Some_2 (internal_ks n) (Z.to_nat i)) as [k Hk]; [lia|].
  rewrite (drop_S _ _ _ Hb), (drop_S _ _ _ Hk) in Hr. inversion Hr as [|k0 hi1 hi0 c1 cs1 ks1 fpa fpb lsa lsb Hc1 Hr1]; subst.
  exists k, b, hi1, fpa, fpb, lsa, lsb. rewrite child_at_cs by (done || lia).
  replace (Z.to_nat (i + 1)) with (S (Z.to_nat i)) by lia. done.
Qed.

Lemma rebalance_merge_spec :
  (0 < i -> exists a ca, child_at n (i - 1) = Some a /\ has_count (vw x) h a ca /\ ca <= min_count h) ->
  (i < in_num_keys n -> exists b cb, child_at n (i + 1) = Some b /\ has_count (vw x) h b cb /\ cb <= min_count h) ->
  wp (rebalance_merge pid n i c (h =? 0)%nat) 3 x rebalanced_child (fun _ _ => False).
Proof.
  intros HL HR. unfold rebalance_merge, rebalanced_child. destruct (Z.ltb_spec 0 i) as [Hpos|Hz].
  - destruct (HL Hpos) as (a & ca & Ha & Hca & Hle).
    destruct (left_sibling Hpos) as (k & a' & lo1 & fp1' & fpa & ls1' & lsa & Hk & Ha' & -> & Hl1 & Hra & -> & ->).
    assert (a' = a) as -> by congruence. eapply wp_pure; [done|].
    eapply wp_mono; [done|eapply (merge_spec v0 fp x pid n (i - 1) h lo lo1 k hi' hi a c fp1' fpa fpc fp2 ls1' lsa lsc ls2 ca cc); try done|].
    + lia.
    + by rewrite <-!app_assoc in *.
    + by apply rep_wrep.
    + by replace (S (Z.to_nat (i - 1))) with (Z.to_nat i) by lia.
    + lia.
    + intros np x'. unfold rebalanced. by rewrite <-!(app_assoc ls1'), <-!(app_assoc lsa).
  - destruct HR as (b & cb & Hb & Hcb & Hle); [lia|].
    destruct right_sibling as (k & b' & hi1 & fpb & fp2' & lsb & ls2' & Hk & Hb' & -> & Hrb & Hr1 & -> & ->); [lia|].
    assert (b' = b) as -> by congruence. rewrite Hb. eapply wp_pure; [done|].
    eapply wp_mono; [done|eapply (merge_spec v0 fp x pid n i h lo lo' k hi1 hi c b fp1 fpc fpb fp2' ls1 lsc lsb ls2' cc cb); try done|].
    + lia.
    + by rewrite <-!app_assoc in *.
    + by apply rep_wrep.
    + lia.
    + intros np x'. unfold rebalanced. by rewrite <-!(app_assoc lsc).
Qed.

Lemma rebalance_right_spec :
  (0 < i -> exists a ca, child_at n (i - 1) = Some a /\ has_count (vw x) h a ca /\ ca <= min_count h) ->
  wp (rebalance_right pid n i c (h =? 0)%nat) 3 x rebalanced_child (fun _ _ => False).
Proof.
  intros HL. unfold rebalance_right. destruct (Z.ltb_spec i (in_num_keys n)) as [Hlt|Hge].
  2: { apply rebalance_merge_spec; [done|lia]. }
  destruct right_sibling as (k & b & hi1 & fpb & fp2' & lsb & ls2' & Hk & Hb & Ehi & Hrb & Hr1 & Efp & Els); [lia|].
  rewrite Hb. eapply wp_pure; [done|].
  destruct (node_key_count_spec x h (Some k) hi1 b fpb lsb Hwf) as (cb & Hcnt & Hcb); [by apply rep_wrep|].
  eapply wp_run; [done|]. replace (if (h =? 0)%nat then MIN_KEYS_LEAF else MIN_KEYS_INTERNAL) with (min_count h) by (by destruct h).
  destruct (Z.ltb_spec (min_count h) cb) as [Hbig|Hle].
  - unfold rebalanced_child. rewrite Els, Efp, Ehi in *.
    eapply wp_mono; [done|eapply (rotate_left_spec v0 fp x pid n i h lo lo' k hi1 hi c b fp1 fpc fpb fp2' ls1 lsc lsb ls2' cc cb); try done|].
    + lia.
    + by rewrite <-!app_assoc in *.
    + by apply rep_wrep.
    + intros np x'. unfold rebalanced. by rewrite <-!(app_assoc lsc).
  - apply rebalance_merge_spec; [done|]. intros _. by exists b, cb.
Qed.

Lemma rebalance_spec : wp (rebalance_batched pid n i c) 3 x rebalanced_child (fun _ _ => False).
Proof.
  unfold rebalance_batched. assert (exists p, vw x c = Some p /\ is_leaf_page p = (h =? 0)%nat) as (p & Hp & Hlf).
  { destruct h; cbn in Hcc; destruct Hcc as (m & (p & Hp & _ & _ & -> & Hw) & _); exists p; (split; [done|]).
    - by rewrite is_leaf_page_leaf, (lw_tag _ Hw).
    - by rewrite is_leaf_page_internal, (iw_tag _ Hw). }
  eapply wp_read; [done|done|]. rewrite Hlf.
  replace (if (h =? 0)%nat then MIN_KEYS_LEAF else MIN_KEYS_INTERNAL) with (min_count h) by (by destruct h).
  destruct (Z.ltb_spec 0 i) as [Hpos|Hz]; [|apply rebalance_right_spec; lia].
  destruct (left_sibling Hpos) as (k & a & lo1 & fp1' & fpa & ls1' & lsa & Hk & Ha & Elo & Hl1 & Hra & Efp & Els).
  rewrite Ha. eapply wp_pure; [done|].
  destruct (node_key_count_spec x h lo1 (Some k) a fpa lsa Hwf) as (ca & Hcnt & Hca); [by apply rep_wrep|].
  eapply wp_run; [done|]. destruct (Z.ltb_spec (min_count h) ca) as [Hbig|Hle].
  - unfold rebalanced_child. rewrite Els, Efp, Elo in *. replace i with (i - 1 + 1) at 1 by lia.
    eapply wp_mono; [done|eapply (rotate_right_spec v0 fp x pid n (i - 1) h lo lo1 k hi' hi a c fp1' fpa fpc fp2 ls1' lsa lsc ls2 ca cc); try done|].
    + lia.
    + by rewrite <-!app_assoc in *.
    + by apply rep_wrep.
    + by replace (S (Z.to_nat (i - 1))) with (Z.to_nat i) by lia.
    + intros np x'. unfold rebalanced. by rewrite <-!(app_assoc ls1'), <-!(app_assoc lsa).
  - apply rebalance_right_spec. intros _. by exists a, ca.
Qed.
End Child.
End Rebalance.
