(* ===== verification/BTreeDelete.v ===== *)
(** * Deletion from the B+tree

    The tree after [delete_in_with_batch]: its pages, the map it stands for and the links
    between its leaves. *)

From S2P Require Import Prelude SlotBitmap Page FreeList Storage PageIo ByteOrder BTreeNode BTree BTreeRep BTreeSplit BTreeStep BTreeInsert BTreeMove BTreeRebalance.

(** The subtree after a deletion: its root may have moved, and when it is not the root of
    the tree it has keys left or is reported as underfull. *)
Definition del_post (v v' : Z -> option Page) (h : nat) (lo hi : option bytes) (pid : Z) (fp : list Z) (ls : list leafd)
    (key : bytes) (is_root : bool) (np : Z) (uf : bool) : Prop :=
  exists fp' ls' rid c, moved v v' fp fp' /\ ents ls ≡ₚ (key, rid) :: ents ls' /\ same_links ls ls' /\
    wrep v' h lo hi np fp' ls' /\ has_count v' h np c /\
    (if uf then is_root = false /\ c < min_count h else is_root = true \/ rep v' h lo hi np fp' ls') /\
    (h = O -> np = pid /\ forall n, leaf_at v pid n -> uf = true -> lf_num_keys n <= MIN_KEYS_LEAF).

Lemma remove_mid_perm {A} (l : list A) (i : nat) e : l !! i = Some e -> l ≡ₚ e :: (take i l ++ drop (S i) l).
Proof. intros He. rewrite <-(take_drop_middle l i e He) at 1. by rewrite <-Permutation_middle. Qed.

Section Delete.
Context {St : Type} {C : Crc32c} {CR : Crc32cRange C} {E : StorageEngine St} {L : StorageLaws St} {R : PageRoom St}.
Context (key : bytes).

Lemma wp_node_read_leaf {B} pid n (k : NodeCopy -> M St B) b x Q F :
  io_wf x -> leaf_at (vw x) pid n -> wp (k (NLeaf n)) b x Q F -> wp (io_bind (node_read pid) k) b x Q F.
Proof.
  intros Hwf (p & Hp & _ & _ & -> & Hw) Hk. unfold node_read. apply wp_assoc. eapply wp_read; [done|done|].
  rewrite is_leaf_page_leaf, (lw_tag _ Hw), Z.eqb_refl. by apply wp_bind_ret.
Qed.
Lemma wp_node_read_internal {B} pid n (k : NodeCopy -> M St B) b x Q F :
  io_wf x -> internal_at (vw x) pid n -> wp (k (NInternal n)) b x Q F -> wp (io_bind (node_read pid) k) b x Q F.
Proof.
  intros Hwf (p & Hp & _ & _ & -> & Hw) Hk. unfold node_read. apply wp_assoc. eapply wp_read; [done|done|].
  rewrite is_leaf_page_internal, (iw_tag _ Hw). cbn [Z.eqb]. by apply wp_bind_ret.
Qed.

(** *** A leaf *)

Lemma delete_leaf_spec x lo hi pid n is_root :
  io_wf x -> page_num pid -> leaf_at (vw x) pid n -> leaf_in lo hi (leaf_es n) ->
  wp (delete_leaf pid n key is_root) 0 x
    (fun r x' => match r with
                 | DelNotFound => x' = x /\ ~ key ∈ (leaf_es n).*1
                 | Deleted np uf => io_wf x' /\ (forall m, pr x m -> pr x' m) /\
                     del_post (vw x) (vw x') 0 lo hi pid [pid] [mkLd pid (lf_next_leaf n) (leaf_es n)] key is_root np uf
                 end)
    (fun _ _ => False).
Proof.
  intros Hwf Hpn Hat Hin. pose proof Hat as (p & Hp & Hpok & Hmg & Hnp & Hw). unfold delete_leaf.
  destruct (search_spec _ key Hw ltac:(apply Hin)) as (r & -> & Hr). eapply wp_pure; [done|]. destruct r as [i|i].
  2: { destruct Hr as (_ & Hb & Ha). apply wp_ret. split; [done|]. by eapply not_in_leaf. }
  destruct Hr as [Hi Hk]. destruct (entry_at _ _ _ Hw Hi Hk) as (rid & He & _).
  destruct (leaf_remove_at_spec n i Hw Hi) as (n' & -> & Hw' & Hnx & Hes'). eapply wp_pure; [done|].
  assert (Hm0 : moved (vw x) (vw x) [pid] [pid]).
  { apply moved_refl; [by intros j ->%list_elem_of_singleton|apply NoDup_singleton|by constructor]. }
  assert (Hlen : lf_num_keys n' = lf_num_keys n - 1).
  { rewrite <-(leaf_es_length _ Hw'), <-(leaf_es_length _ Hw), Hes', length_app, length_take, length_drop.
    pose proof (leaf_es_length _ Hw). lia. }
  set (uf := negb is_root && (lf_num_keys n' <? MIN_KEYS_LEAF)). cbv zeta.
  assert (Hwr : wp (do! np := write_leaf_same_pid pid n' in io_ret (Deleted np uf)) 0 x
    (fun r x' => match r with
                 | DelNotFound => x' = x /\ ~ key ∈ (leaf_es n).*1
                 | Deleted np uf => io_wf x' /\ (forall m, pr x m -> pr x' m) /\
                     del_post (vw x) (vw x') 0 lo hi pid [pid] [mkLd pid (lf_next_leaf n) (leaf_es n)] key is_root np uf
                 end) (fun _ _ => False)).
  { unfold write_leaf_same_pid. apply wp_assoc. eapply wp_read; [done|done|]. apply wp_assoc.
    eapply wp_put_leaf; [done|exact Hm0|left|done|done|done|]. intros x' Hwf' Hat' Hm' Hv' Hpr'.
    apply wp_bind_ret, wp_ret. split; [done|]. split; [done|].
    assert (Hrep : rep (vw x') 0 lo hi pid [pid] [mkLd pid (lf_next_leaf n) (leaf_es n')]).
    { split; [done|]. exists n'. rewrite Hnx. split; [done|]. split; [done|]. rewrite Hes'. by apply leaf_in_remove. }
    exists [pid], [mkLd pid (lf_next_leaf n) (leaf_es n')], rid, (lf_num_keys n'). rewrite !ents_one. split; [done|].
    split; [rewrite Hes'; by apply remove_mid_perm|]. split; [by apply same_links_of|]. split; [done|].
    split; [by exists n'|]. split.
    - unfold uf. destruct is_root; [by left|]. cbn. destruct (Z.ltb_spec (lf_num_keys n') MIN_KEYS_LEAF); [done|by right].
    - intros _. split; [done|]. intros n0 Hat0. rewrite <-(leaf_at_eq _ _ _ _ Hat Hat0). unfold uf.
      destruct is_root; [done|]. cbn. intros ?%Z.ltb_lt. lia. }
  by destruct uf.
Qed.

(** *** Internal nodes *)

Lemma child_pointer v0 fp x pid n h lo hi lo' hi' i c fp1 fpc fp2 ls1 lsc ls2 :
  io_wf x -> internal_at (vw x) pid n -> 1 <= in_num_keys n -> 0 <= i <= in_num_keys n ->
  moved v0 (vw x) fp (pid :: fp1 ++ fpc ++ fp2) ->
  lseg (rep (vw x) h) lo lo' (take (Z.to_nat i) (internal_cs n)) (take (Z.to_nat i) (internal_ks n)) fp1 ls1 ->
  rep (vw x) h lo' hi' c fpc lsc ->
  rseg (rep (vw x) h) hi' hi (drop (S (Z.to_nat i)) (internal_cs n)) (drop (Z.to_nat i) (internal_ks n)) fp2 ls2 ->
  wp (in_place_update_child pid n i c) 0 x
    (fun q x' => q = pid /\ io_wf x' /\ (forall m, pr x m -> pr x' m) /\ moved v0 (vw x') fp (pid :: fp1 ++ fpc ++ fp2) /\
       rep (vw x') (S h) lo hi pid (pid :: fp1 ++ fpc ++ fp2) (ls1 ++ lsc ++ ls2)) (fun _ _ => False).
Proof.
  intros Hwf Hat Hn Hi Hm Hl Hc Hr. pose proof Hat as (p & Hp & Hpok & Hmg & Hnp & Hw). pose proof (internal_cs_length _ Hw) as Hcl.
  pose proof (mv_num _ _ _ _ Hm) as Hnum. rewrite Forall_forall in Hnum. pose proof (rep_root_in _ _ _ _ _ _ _ Hc) as Hcin.
  unfold in_place_update_child. destruct (set_child_at_spec n i c Hw Hi) as (n' & -> & Hw' & Hn' & Hk' & Hc').
  { apply page_num_u64, Hnum. set_solver. }
  eapply wp_pure; [done|]. unfold write_internal_same_pid. eapply wp_read; [done|done|].
  eapply wp_put_internal; [done|exact Hm|left|done|done|done|]. intros x' Hwf' Hat' Hm' Hv' Hpr'.
  apply wp_ret. do 4 (split; [done|]). pose proof (mv_nodup _ _ _ _ Hm) as [Hni _]%NoDup_cons.
  cbn. exists n', (fp1 ++ fpc ++ fp2). split; [done|]. split; [lia|]. split; [done|]. rewrite Hk', Hc'.
  rewrite insert_take_drop by lia. rewrite <-(take_drop (Z.to_nat i) (internal_ks n)).
  apply (forest_unfocus (rep (vw x') h) lo lo' hi' hi _ _ fp1 ls1 [c] [] fpc).
  - eapply lseg_frame; [exact Hl|]. intros q Hq. apply Hv'. set_solver.
  - apply forest_one. eapply rep_frame; [exact Hc|]. intros q Hq. apply Hv'. set_solver.
  - eapply rseg_frame; [exact Hr|]. intros q Hq. apply Hv'. set_solver.
Qed.

Lemma not_in_forest ls1 lsc ls2 : (forall e, e ∈ ents ls1 -> blt e.1 key) -> (forall e, e ∈ ents ls2 -> blt key e.1) ->
  ~ key ∈ (ents lsc).*1 -> ~ key ∈ (ents (ls1 ++ lsc ++ ls2)).*1.
Proof.
  intros H1 H2 Hn. rewrite !ents_app, !fmap_app, !elem_of_app. intros [Hx|[Hx|Hx]]; [|done|].
  - apply list_elem_of_fmap in Hx as (e & -> & He). by apply (blt_irrefl e.1), H1.
  - apply list_elem_of_fmap in Hx as (e & -> & He). by apply (blt_irrefl e.1), H2.
Qed.

(** The child stayed where it was. *)
Lemma del_kept v v' pid n h lo hi lo' hi' i c fp1 fpc fp2 ls1 lsc ls2 is_root :
  internal_at v pid n -> 1 <= in_num_keys n -> internal_cs n !! Z.to_nat i = Some c ->
  moved v v (pid :: fp1 ++ fpc ++ fp2) (pid :: fp1 ++ fpc ++ fp2) ->
  lseg (rep v h) lo lo' (take (Z.to_nat i) (internal_cs n)) (take (Z.to_nat i) (internal_ks n)) fp1 ls1 ->
  rseg (rep v h) hi' hi (drop (S (Z.to_nat i)) (internal_cs n)) (drop (Z.to_nat i) (internal_ks n)) fp2 ls2 ->
  del_post v v' h lo' hi' c fpc lsc key false c false ->
  del_post v v' (S h) lo hi pid (pid :: fp1 ++ fpc ++ fp2) (ls1 ++ lsc ++ ls2) key is_root pid false.
Proof.
  intros Hat Hn Hc Hm0 Hl Hr (fpc' & lsc' & rid & k & Hm & He & Hlk & _ & _ & [Hbad|Hrep] & _); [done|].
  destruct (around_child _ _ _ _ _ _ _ _ _ _ _ _ _ _ _ _ Hat Hm0 Hl Hr Hm) as (Hm1 & Hat1 & Hl1 & Hr1).
  assert (Hrep' : rep v' (S h) lo hi pid (pid :: fp1 ++ fpc' ++ fp2) (ls1 ++ lsc' ++ ls2)) by (by eapply replace_child).
  exists (pid :: fp1 ++ fpc' ++ fp2), (ls1 ++ lsc' ++ ls2), rid, (in_num_keys n). split; [done|].
  split; [by apply ents_mid_perm|]. split; [by apply same_links_mid|]. split; [by apply rep_wrep|].
  split; [by exists n|]. split; [by right|done].
Qed.

Definition del_budget (h : nat) : Z := 3 * Z.of_nat h.

(** The rest of [delete_subtree_batched] when the child is not known to be safe. *)
Lemma delete_up x pid n h lo hi lo' hi' i c fp1 fpc fp2 ls1 lsc ls2 (is_root : bool) (child : M St DeleteResult) :
  io_wf x -> internal_at (vw x) pid n -> 1 <= in_num_keys n -> 0 <= i <= in_num_keys n -> internal_cs n !! Z.to_nat i = Some c ->
  moved (vw x) (vw x) (pid :: fp1 ++ fpc ++ fp2) (pid :: fp1 ++ fpc ++ fp2) ->
  lseg (rep (vw x) h) lo lo' (take (Z.to_nat i) (internal_cs n)) (take (Z.to_nat i) (internal_ks n)) fp1 ls1 ->
  rseg (rep (vw x) h) hi' hi (drop (S (Z.to_nat i)) (internal_cs n)) (drop (Z.to_nat i) (internal_ks n)) fp2 ls2 ->
  (~ key ∈ (ents lsc).*1 -> ~ key ∈ (ents (ls1 ++ lsc ++ ls2)).*1) ->
  wp child (del_budget h) x
    (fun r x' => match r with
                 | DelNotFound => x' = x /\ ~ key ∈ (ents lsc).*1
                 | Deleted np uf => io_wf x' /\ (forall m, del_budget h <= m -> pr x m -> pr x' (m - del_budget h)) /\
                     del_post (vw x) (vw x') h lo' hi' c fpc lsc key false np uf
                 end) (fun _ _ => False) ->
  wp (do! result := child in
      match result with
      | DelNotFound => io_ret DelNotFound
      | Deleted new_child_pid underfull =>
          if negb underfull then
            if new_child_pid =? c then io_ret (Deleted pid false)
            else do! new_pid := in_place_update_child pid n i new_child_pid in io_ret (Deleted new_pid false)
          else
            do! new_pid := rebalance_batched pid n i new_child_pid in
            do! underfull2 := (if is_root then io_ret false else internal_underfull new_pid) in
            io_ret (Deleted new_pid underfull2)
      end) (del_budget (S h)) x
    (fun r x' => match r with
                 | DelNotFound => x' = x /\ ~ key ∈ (ents (ls1 ++ lsc ++ ls2)).*1
                 | Deleted np uf => io_wf x' /\ (forall m, del_budget (S h) <= m -> pr x m -> pr x' (m - del_budget (S h))) /\
                     del_post (vw x) (vw x') (S h) lo hi pid (pid :: fp1 ++ fpc ++ fp2) (ls1 ++ lsc ++ ls2) key is_root np uf
                 end) (fun _ _ => False).
Proof.
  intros Hwf Hat Hn Hi Hc Hm0 Hl Hr Hnone Hchild.
  assert (Hb : del_budget (S h) = del_budget h + 3) by (unfold del_budget; lia). rewrite Hb.
  eapply wp_call; [exact Hchild|lia|]. replace (del_budget h + 3 - del_budget h) with 3 by lia.
  intros [|np uf] x1; [intros [-> Hno]|intros (Hwf1 & Hpr1 & Hpost)].
  { split; [intros m Hmm Hx; eapply pr_mono; [exact Hx|unfold del_budget; lia]|]. apply wp_ret. auto. }
  split; [done|]. destruct uf; cbn [negb].
  - pose proof Hpost as (fpc' & lsc' & rid & k & Hm & He & Hlk & Hwr & Hcnt & [_ Hsmall] & _).
    destruct (around_child _ _ _ _ _ _ _ _ _ _ _ _ _ _ _ _ Hat Hm0 Hl Hr Hm) as (Hm1 & Hat1 & Hl1 & Hr1).
    eapply wp_call; [eapply (rebalance_spec (vw x) _ x1 pid n i h lo lo' hi' hi np fp1 fpc' fp2 ls1 lsc' ls2 k); done|lia|].
    intros q x2 (Hwf2 & Hpr2 & n' & g & ls' & Hm2 & Hat2 & Hf2 & He2 & Hlk2). split; [done|].
    assert (Hpost2 : forall uf2, (if uf2 : bool then is_root = false /\ in_num_keys n' < MIN_KEYS_INTERNAL
                                 else is_root = true \/ MIN_KEYS_INTERNAL <= in_num_keys n') ->
      del_post (vw x) (vw x2) (S h) lo hi pid (pid :: fp1 ++ fpc ++ fp2) (ls1 ++ lsc ++ ls2) key is_root q uf2).
    { intros uf2 Huf. exists (q :: g), ls', rid, (in_num_keys n').
      assert (Hw2 : wrep (vw x2) (S h) lo hi q (q :: g) ls') by (by exists n', g). split; [done|].
      split; [rewrite He2; by apply ents_mid_perm|]. split; [eapply same_links_trans; [by apply same_links_mid|done]|].
      split; [done|]. assert (Hc2 : has_count (vw x2) (S h) q (in_num_keys n')) by (by exists n'). split; [done|]. split; [|done].
      destruct uf2; [done|]. destruct Huf as [|Huf]; [by left|]. right. eapply wrep_rep; [done|exact Hc2|]. counts. }
    assert (Hpr3 : forall m, del_budget h + 3 <= m -> pr x m -> pr x2 (m - (del_budget h + 3))).
    { intros m Hmm Hx. replace (m - (del_budget h + 3)) with (m - del_budget h - 3) by lia. apply Hpr2; [lia|]. apply Hpr1; [lia|done]. }
    destruct is_root.
    + apply wp_bind_ret, wp_ret. split; [done|]. split; [done|]. apply Hpost2. by left.
    + pose proof Hat2 as (p2 & Hp2 & _ & _ & Hn2 & _). unfold internal_underfull. apply wp_assoc. eapply wp_read; [done|done|].
      rewrite <-Hn2. apply wp_bind_ret, wp_ret. split; [done|]. split; [done|]. apply Hpost2.
      destruct (Z.ltb_spec (in_num_keys n') MIN_KEYS_INTERNAL); [done|by right].
  - assert (Hpr3 : forall x2, (forall m, pr x1 m -> pr x2 m) -> forall m, del_budget h + 3 <= m -> pr x m -> pr x2 (m - (del_budget h + 3))).
    { intros x2 H2 m Hmm Hx. apply H2. eapply pr_mono; [apply (Hpr1 m); [lia|done]|lia]. }
    destruct (Z.eqb_spec np c) as [->|Hne].
    + apply wp_ret. split; [done|]. split; [by apply Hpr3|]. by eapply del_kept.
    + destruct Hpost as (fpc' & lsc' & rid & k & Hm & He & Hlk & _ & _ & [Hbad|Hrep] & _); [done|].
      destruct (around_child _ _ _ _ _ _ _ _ _ _ _ _ _ _ _ _ Hat Hm0 Hl Hr Hm) as (Hm1 & Hat1 & Hl1 & Hr1).
      eapply wp_call; [eapply (child_pointer (vw x) _ x1 pid n h lo hi lo' hi' i np fp1 fpc' fp2 ls1 lsc' ls2); done|lia|].
      intros q x2 (-> & Hwf2 & Hpr2 & Hm2 & Hrep2). split; [intros m _ Hx; rewrite Z.sub_0_r; auto|]. apply wp_ret.
      split; [done|]. split; [by apply Hpr3|]. pose proof Hrep2 as (n2 & g2 & Hat2 & Hn2 & _).
      exists (pid :: fp1 ++ fpc' ++ fp2), (ls1 ++ lsc' ++ ls2), rid, (in_num_keys n2). split; [done|].
      split; [by apply ents_mid_perm|]. split; [by apply same_links_mid|]. split; [by apply rep_wrep|].
      split; [by exists n2|]. split; [by right|done].
Qed.

Lemma delete_subtree_spec h : forall fuel x lo hi pid fp ls is_root,
  (h < fuel)%nat -> io_wf x -> rep (vw x) h lo hi pid fp ls -> NoDup fp -> Forall page_num fp -> lo_le lo key -> hi_lt key hi ->
  wp (delete_subtree_batched fuel pid key is_root) (del_budget h) x
    (fun r x' => match r with
                 | DelNotFound => x' = x /\ ~ key ∈ (ents ls).*1
                 | Deleted np uf => io_wf x' /\ (forall m, del_budget h <= m -> pr x m -> pr x' (m - del_budget h)) /\
                     del_post (vw x) (vw x') h lo hi pid fp ls key is_root np uf
                 end)
    (fun _ _ => False).
Proof.
  induction h as [|h IH]; intros fuel x lo hi pid fp ls is_root Hfuel Hwf Hrep Hnd Hnum Hlo Hhi.
  { destruct fuel as [|f]; [lia|]. cbn in Hrep. destruct Hrep as (-> & n & Hat & -> & Hin). apply Forall_cons in Hnum as [Hpn _].
    cbn [delete_subtree_batched]. eapply wp_node_read_leaf; [done|exact Hat|]. rewrite ents_one.
    eapply wp_mono; [done|by apply (delete_leaf_spec x lo hi)|]. intros [|np uf] x'; [done|].
    intros (Hwf' & Hpr' & Hpost). split; [done|]. split; [|done]. intros m _ Hx. unfold del_budget. rewrite Z.sub_0_r. auto. }
  destruct fuel as [|f]; [lia|]. assert (Hm0 : moved (vw x) (vw x) fp fp) by (apply moved_refl; [by eapply rep_in_use|done|done]).
  cbn in Hrep. destruct Hrep as (n & fp' & Hat & Hn & -> & Hf). pose proof Hat as (p & Hp & _ & _ & Hnp & Hw).
  cbn [delete_subtree_batched]. eapply wp_node_read_internal; [done|exact Hat|].
  destruct (forest_keys _ (rep_in (vw x) h) _ _ _ _ _ _ Hf) as [Hs _].
  destruct (find_child_idx_spec _ key Hw Hs) as (i & Hfi & Hi & Hle & Hgt).
  destruct (forest_pick _ _ _ _ _ _ _ key i Hf Hlo Hhi) as
    (c & lo' & hi' & fp1 & fpc & fp2 & ls1 & lsc & ls2 & Hc & Hlo' & Hhi' & Hl & Hrc & Hr & -> & ->);
    [by rewrite internal_ks_length by done|done|done|].
  rewrite Hfi. eapply wp_pure; [done|]. rewrite (child_at_cs _ i Hw Hi), Hc. eapply wp_pure; [done|].
  destruct (rep_in_use _ _ _ _ _ _ _ Hrc c (rep_root_in _ _ _ _ _ _ _ Hrc)) as [pc Hpc].
  unfold child_is_safe_for_delete. apply wp_assoc. eapply wp_read; [done|done|]. apply wp_bind_ret.
  rewrite (focus_perm pid fp1 fpc fp2) in Hnd, Hnum. apply Forall_app in Hnum as [_ Hnumc]. apply NoDup_app in Hnd as (_ & _ & Hndc).
  assert (Hchild := IH f x lo' hi' c fpc lsc false ltac:(lia) Hwf Hrc Hndc Hnumc Hlo' Hhi').
  assert (Hnone : ~ key ∈ (ents lsc).*1 -> ~ key ∈ (ents (ls1 ++ lsc ++ ls2)).*1).
  { apply not_in_forest.
    - intros e He. by eapply (lseg_below _ (rep_in (vw x) h)).
    - intros e He. by eapply (rseg_above _ (rep_in (vw x) h)). }
  destruct (if is_leaf_page pc then MIN_KEYS_LEAF <? lf_num_keys (cast_leaf pc) else false) eqn:Esafe.
  2: { by eapply (delete_up x pid n h lo hi lo' hi' i c fp1 fpc fp2 ls1 lsc ls2). }
  destruct (is_leaf_page pc) eqn:Elf; [|done]. apply Z.ltb_lt in Esafe.
  assert (h = O) as ->.
  { destruct h; [done|]. cbn in Hrc. destruct Hrc as (nc & _ & (p' & Hp' & _ & _ & -> & Hwc) & _). assert (p' = pc) as -> by congruence.
    by rewrite is_leaf_page_internal, (iw_tag _ Hwc) in Elf. }
  pose proof Hrc as (_ & nc & Hatc & _ & _). eapply wp_call; [exact Hchild|unfold del_budget; lia|].
  intros [|np uf] x1; [intros [-> Hno]|intros (Hwf1 & Hpr1 & Hpost)].
  { split; [intros m Hmm Hx; by rewrite Z.sub_0_r|]. apply wp_ret. auto. }
  split; [done|]. apply wp_ret. split; [done|]. split.
  { intros m Hmm Hx. eapply pr_mono; [apply (Hpr1 m); [unfold del_budget in *; lia|done]|unfold del_budget; lia]. }
  pose proof Hpost as (_ & _ & _ & _ & _ & _ & _ & _ & _ & _ & Hh0). destruct (Hh0 eq_refl) as [-> Huf].
  destruct uf; [|by eapply del_kept]. specialize (Huf nc Hatc eq_refl).
  destruct Hatc as (p' & Hp' & _ & _ & -> & _). assert (p' = pc) as -> by congruence. lia.
Qed.

(** *** The root *)

Lemma collapse_root_spec x v0 fp h lo hi np fp' ls c :
  io_wf x -> moved v0 (vw x) fp fp' -> wrep (vw x) h lo hi np fp' ls -> has_count (vw x) h np c ->
  wp (collapse_root np) 0 x
    (fun root x' => io_wf x' /\ (forall m, pr x m -> pr x' m) /\ exists h' fp'', (h' <= h <= S h')%nat /\ moved v0 (vw x') fp fp'' /\ rep (vw x') h' lo hi root fp'' ls)
    (fun _ _ => False).
Proof.
  intros Hwf Hm Hw Hc. unfold collapse_root. destruct h as [|h].
  - pose proof Hw as (-> & n & (p & Hp & _ & _ & Hn & Hwn) & _). eapply wp_read; [done|done|].
    change (get_le 0 1 (body p)) with (lf_is_leaf (cast_leaf p)). rewrite <-Hn, (lw_tag _ Hwn). cbn [Z.eqb andb].
    apply wp_ret. split; [done|]. split; [done|]. exists O, [np]. split; [lia|]. done.
  - pose proof Hw as (n & g & Hat & -> & Hf). pose proof Hat as (p & Hp & _ & _ & Hn & Hwn). eapply wp_read; [done|done|].
    change (get_le 0 1 (body p)) with (in_is_leaf (cast_internal p)). rewrite <-Hn, (iw_tag _ Hwn). cbn [Z.eqb andb].
    destruct (Z.eqb_spec (in_num_keys n) 0) as [Hz|Hnz].
    + pose proof (internal_ks_length _ Hwn) as Hkl. pose proof (internal_cs_length _ Hwn) as Hcl.
      destruct (internal_cs n) as [|c0 [|c1 cs]] eqn:Hcs; [cbn in Hcl; lia| |cbn in Hcl; lia].
      destruct (internal_ks n) as [|k ks]; [|cbn in Hkl; lia].
      rewrite child_at_cs, Hcs by (done || lia). eapply wp_pure; [done|].
      eapply (wp_free_at _ _ _ g); [done|exact Hm|done|]. intros x' Hwf' Hm' Hv' Hpr'. apply wp_ret. split; [done|]. split; [done|].
      exists h, g. split; [lia|]. split; [done|]. inversion Hf as [lo0 hi1 hi0 c2 cs2 ks2 fp1 fp2 ls1 ls2 Hc2 Hr2]; subst.
      inversion Hr2; subst. rewrite !app_nil_r in *. eapply rep_frame; [exact Hc2|]. intros q Hq. by apply Hv'.
    + apply wp_ret. split; [done|]. split; [done|]. exists (S h), (np :: g). split; [lia|]. split; [done|].
      eapply (wrep_rep _ _ _ _ _ _ _ (in_num_keys n)); [done|by exists n|]. pose proof (is_num _ (iw_sized _ Hwn)). widths.
Qed.

(** The tree after a deletion that found its key. *)
Definition deleted (x x' : Io St) (h : nat) (fp : list Z) (ls : list leafd) (root' : Z) : Prop :=
  exists h' fp' ls' rid, tree_at (vw x') h' root' fp' ls' /\ (h' <= h <= S h')%nat /\ moved (vw x) (vw x') fp fp' /\
    ents ls ≡ₚ (key, rid) :: ents ls' /\ same_links ls ls'.

Lemma try_delete_spec fuel x h root fp ls :
  (h < fuel)%nat -> io_wf x -> tree_at (vw x) h root fp ls ->
  wp (try_delete_leaf_optimistically fuel root key) 0 x
    (fun o x' => match o with
                 | OptDone false => x' = x /\ ~ key ∈ (ents ls).*1
                 | OptDone true => io_wf x' /\ (forall m, pr x m -> pr x' m) /\ deleted x x' h fp ls root
                 | OptNeedPessimistic => x' = x
                 | OptRetry => False
                 end)
    (fun _ _ => False).
Proof.
  intros Hfuel Hwf (Hrep & Hnd & Hnum). unfold try_delete_leaf_optimistically.
  destruct (find_leaf_spec fuel x h None None root fp ls key Hwf Hrep Hnd I I Hfuel) as
    (c & Hfl & lo' & hi' & n & ls1 & ls2 & Hcin & Hat & -> & Hin & Hlo & Hhi & Hb & Ha & Hup).
  eapply wp_run; [done|]. pose proof Hat as (p & Hp & Hpok & Hmg & Hn & Hw). eapply wp_read; [done|done|].
  rewrite is_leaf_page_leaf, <-Hn, (lw_tag _ Hw). cbn [Z.eqb Pos.eqb negb].
  destruct (search_spec _ key Hw ltac:(apply Hin)) as (r & Hs & Hr). rewrite Hs. eapply wp_pure; [done|]. destruct r as [i|i].
  2: { destruct Hr as (_ & Hbl & Hab). apply wp_ret. split; [done|]. apply (not_in_forest ls1 [_] ls2); [done|done|].
       rewrite ents_one. by eapply not_in_leaf. }
  destruct Hr as [Hi Hk]. destruct (entry_at _ _ _ Hw Hi Hk) as (rid & He & _). cbv zeta.
  destruct (negb (c =? root) && _); [by apply wp_ret|].
  destruct (leaf_remove_at_spec n i Hw Hi) as (n' & -> & Hw' & Hnx & Hes'). eapply wp_pure; [done|].
  assert (Hm0 : moved (vw x) (vw x) fp fp) by (apply moved_refl; [by eapply rep_in_use|done|done]).
  eapply wp_put_leaf; [done|exact Hm0|done|done|done|done|]. intros x' Hwf' Hat' Hm' Hv' Hpr'.
  apply wp_ret. split; [done|]. split; [done|]. exists h, fp, (ls1 ++ [mkLd c (lf_next_leaf n') (leaf_es n')] ++ ls2), rid. split_and!.
  - split; [|done]. apply Hup; [intros j _ Hj; by apply Hv'|done|]. rewrite Hes'. by apply leaf_in_remove.
  - lia.
  - lia.
  - done.
  - apply (ents_mid_perm ls1 [mkLd c (lf_next_leaf n') (leaf_es n')] [mkLd c (lf_next_leaf n) (leaf_es n)] ls2).
    rewrite !ents_one, Hes'. by apply remove_mid_perm.
  - apply same_links_of. rewrite !fmap_app. cbn. unfold link. cbn. by rewrite Hnx.
Qed.

Lemma delete_in_spec fuel x h root fp ls :
  (h < fuel)%nat -> io_wf x -> tree_at (vw x) h root fp ls -> 0 < zlen key <= MAX_KEY_LEN ->
  wp (delete_in_with_batch fuel root key) (3 * Z.of_nat h) x
    (fun r x' => if r.1 : bool then io_wf x' /\ (forall m, 3 * Z.of_nat h <= m -> pr x m -> pr x' (m - 3 * Z.of_nat h)) /\
                   deleted x x' h fp ls r.2
                 else x' = x /\ r.2 = root /\ ~ key ∈ (ents ls).*1)
    (fun _ _ => False).
Proof.
  intros Hfuel Hwf Ht Hk. destruct fuel as [|f]; [lia|]. cbn [delete_in_with_batch].
  eapply wp_run; [by apply check_key_in|]. eapply wp_call; [by apply (try_delete_spec (S f) x h root fp ls)|lia|].
  intros o x' Ho. rewrite Z.sub_0_r. destruct o as [[]| |]; [| |subst x'|done].
  - destruct Ho as (Hwf' & Hpr & Hdel). split; [intros m _ Hx; rewrite Z.sub_0_r; auto|]. apply wp_ret. split; [done|]. split; [|done].
    intros m Hmm Hx. apply Hpr. eapply pr_mono; [exact Hx|lia].
  - destruct Ho as [-> Hno]. split; [intros m _ Hx; by rewrite Z.sub_0_r|]. by apply wp_ret.
  - split; [intros m _ Hx; by rewrite Z.sub_0_r|]. destruct Ht as (Hrep & Hnd & Hnum).
    eapply wp_call; [by apply (delete_subtree_spec h (S f) x None None root fp ls true)|unfold del_budget; lia|].
    intros [|np uf] x'; [intros [-> Hno]|intros (Hwf' & Hpr' & Hpost)].
    + split; [intros m Hmm Hx; eapply pr_mono; [exact Hx|unfold del_budget; lia]|]. by apply wp_ret.
    + split; [done|]. destruct Hpost as (fp' & ls' & rid & c & Hm & He & Hlk & Hw & Hc & _).
      eapply wp_call; [by eapply collapse_root_spec|unfold del_budget; lia|].
      intros root' x2 (Hwf2 & Hpr2 & h' & fp2 & Hh & Hm2 & Hrep2). split; [intros m _ Hx; rewrite Z.sub_0_r; auto|].
      apply wp_ret. split; [done|]. split; [intros m Hmm Hx; by apply Hpr2, Hpr'|]. exists h', fp2, ls', rid. split; [|done]. split; [done|]. split; apply Hm2.
Qed.
End Delete.

Section DeleteTheorem.
Context {St : Type} {C : Crc32c} {CR : Crc32cRange C} {E : StorageEngine St} {L : StorageLaws St} {R : PageRoom St}.

(** C9: deleting from a tree of height [h], when the engine has room for [3 h] pages: a key
    that is not there leaves everything as it is; otherwise the new tree stands for the old
    map without the key, its height shrank by at most one, every page outside the old and
    the new tree is untouched, the pages that the tree gave up are free, and the leaves
    stay linked from left to right, starting at the same page. *)
Theorem btree_delete_correct (x : Io St) h root fp ls key fuel :
  io_wf x -> tree_at (vw x) h root fp ls -> (h < fuel)%nat -> 0 < zlen key <= MAX_KEY_LEN -> pr x (del_budget h) ->
  match tmap ls !! key with
  | None => delete_in_with_batch fuel root key x = Some (Ok (false, root), x)
  | Some _ =>
      exists root' x', delete_in_with_batch fuel root key x = Some (Ok (true, root'), x') /\ io_wf x' /\
        (forall m, del_budget h <= m -> pr x m -> pr x' (m - del_budget h)) /\
        exists h' fp' ls', tree_at (vw x') h' root' fp' ls' /\ (h' <= h <= S h')%nat /\
          moved (vw x) (vw x') fp fp' /\ tmap ls' = delete key (tmap ls) /\
          (forall z, chain ls z -> chain ls' z) /\ forall z, first_pid ls' z = first_pid ls z
  end.
Proof.
  intros Hwf Ht Hh Hk Hpr. pose proof (delete_in_spec key fuel x h root fp ls Hh Hwf Ht Hk) as Hw.
  pose proof Ht as (Hrep & _). apply tree_nodup in Hrep as Hnd.
  unfold wp in Hw. destruct (delete_in_with_batch fuel root key x) as [[[[[] root']|e] x']|]; [| | |done].
  - destruct Hw as (Hwf' & Hpr' & h' & fp' & ls' & rid & Ht' & Hh' & Hm & He & Hc1 & Hc2). pose proof Ht' as (Hrep' & _).
    assert (tmap ls = <[key := rid]> (tmap ls')) as Heq by (unfold tmap; by rewrite (list_to_map_proper _ _ Hnd He)).
    pose proof Hnd as Hnd2. rewrite He in Hnd2. cbn in Hnd2. apply NoDup_cons in Hnd2 as [Hni _].
    rewrite Heq, lookup_insert_eq. exists root', x'. do 3 (split; [done|]). exists h', fp', ls'.
    do 3 (split; [done|]). split; [|done]. symmetry. apply delete_insert_id. by apply not_elem_of_list_to_map.
  - cbn in Hw. destruct Hw as (-> & -> & Hno). unfold tmap. rewrite (not_elem_of_list_to_map_1 _ _ Hno). done.
  - destruct Hw as [[]|Hw]; done.
Qed.
End DeleteTheorem.

#[local] Existing Instance crc32c_ref.
#[local] Existing Instance crc32c_ref_range.

Lemma btree_delete_correct_witness :
  exists (x x' : Io MemoryStorage) root root' h' fp' ls',
    delete_in_with_batch 2 root [107] x = Some (Ok (true, root'), x') /\ tree_at (vw x') h' root' fp' ls' /\ tmap ls' = ∅.
Proof.
  destruct sample_tree_one as (x & root & h & fp & ls & Hwf & Ht & Hh & Hpr & Hm & Hc).
  assert (pr (PageRoom := engine_room) x (3 * Z.of_nat h)) as Hpr' by (eapply pr_mono; [exact Hpr|lia]).
  assert (0 < zlen [107] <= MAX_KEY_LEN) as Hk by (cbn; sizes).
  pose proof (btree_delete_correct (R := engine_room) x h root fp ls [107] 2 Hwf Ht ltac:(lia) Hk Hpr') as Hdel.
  rewrite Hm, lookup_singleton_eq in Hdel. destruct Hdel as (root' & x' & Hd & _ & _ & h' & fp' & ls' & Ht' & _ & _ & Hm' & _).
  exists x, x', root, root', h', fp', ls'. split; [exact Hd|]. split; [exact Ht'|]. rewrite Hm'. apply delete_singleton_eq.
Defined.
