(* ===== verification/BTreeRange.v ===== *)
(** * Range scans over the B+tree

    The iterator follows the links between the leaves; over a tree whose leaves are linked
    it yields the entries within its bounds, in the order of their keys. *)

From S2P Require Import Prelude SlotBitmap Page FreeList Storage PageIo ByteOrder BTreeNode BTree BTreeRep BTreeSplit BTreeStep BTreeInsert BTreeMove.

(** What the bounds mean. *)
Definition above (from : Bound) (k : bytes) : Prop :=
  match from with Unbounded => True | Included lo => ble lo k | Excluded lo => blt lo k end.
Definition below (k : bytes) (to : Bound) : Prop :=
  match to with Unbounded => True | Included hi => ble k hi | Excluded hi => blt k hi end.
#[export] Instance above_dec from k : Decision (above from k).
Proof. destruct from; apply _. Defined.
#[export] Instance below_dec k to : Decision (below k to).
Proof. destruct to; apply _. Defined.

Definition in_range (from to : Bound) (e : entry) : Prop := above from e.1 /\ below e.1 to.

Lemma above_lower_spec it k : above_lower it k = true <-> above (it_from it) k.
Proof.
  unfold above_lower, above. destruct (it_from it) as [|lo|lo]; [done| |].
  - unfold ble. rewrite (lex_cmp_opp k lo). by destruct (lex_cmp k lo).
  - unfold blt. rewrite (lex_cmp_opp k lo). by destruct (lex_cmp k lo).
Qed.
Lemma below_upper_spec it k : below_upper it k = true <-> below k (it_to it).
Proof.
  unfold below_upper, below. destruct (it_to it) as [|hi|hi]; [done| |].
  - unfold ble. by destruct (lex_cmp k hi).
  - unfold blt. by destruct (lex_cmp k hi).
Qed.

Lemma below_mono a b to : blt a b -> below b to -> below a to.
Proof. destruct to; cbn; [done|intros; border..]. Qed.

Lemma filter_none (P : entry -> Prop) `{forall e, Decision (P e)} es : (forall e, e ∈ es -> ~ P e) -> filter P es = [].
Proof.
  induction es as [|e es IH]; intros Hn; [done|]. rewrite filter_cons_False by (apply Hn; left). apply IH. intros. apply Hn. by right.
Qed.

(** Past the first entry that is too high, there are none left. *)
Lemma filter_past from to (e : entry) es : bsorted (e :: es).*1 -> ~ below e.1 to -> filter (in_range from to) (e :: es) = [].
Proof.
  intros Hs Hno. apply filter_none. intros e' He' [_ Hb]. apply elem_of_cons in He' as [->|He']; [done|]. apply Hno.
  cbn in Hs. apply StronglySorted_cons in Hs as [Hf _]. rewrite Forall_forall in Hf.
  eapply below_mono; [|exact Hb]. apply Hf, list_elem_of_fmap. by exists e'.
Qed.

(** ** Leaves of a tree *)

Definition leaf_page (v : Z -> option Page) (d : leafd) : Prop :=
  ld_pid d ≠ NULL_PAGE /\ exists n, leaf_at v (ld_pid d) n /\ ld_next d = lf_next_leaf n /\ ld_es d = leaf_es n.

Lemma rseg_leaves (v : Z -> option Page) (T : option bytes -> option bytes -> Z -> list Z -> list leafd -> Prop) hi' hi cs ks fp ls :
  (forall a b c f l, T a b c f l -> Forall page_num f -> Forall (leaf_page v) l) ->
  rseg T hi' hi cs ks fp ls -> Forall page_num fp -> Forall (leaf_page v) ls.
Proof. intros HT. induction 1; intros Hn; [done|]. apply Forall_app in Hn as [? ?]. apply Forall_app. eauto. Qed.

Lemma rep_leaves v h : forall lo hi pid fp ls, rep v h lo hi pid fp ls -> Forall page_num fp -> Forall (leaf_page v) ls.
Proof.
  induction h as [|h IH]; intros lo hi pid fp ls; cbn.
  - intros (-> & n & Hat & -> & _) Hn. apply Forall_cons in Hn as [[_ Hn] _]. constructor; [|done]. split; [cbn; unfold NULL_PAGE; lia|].
    by exists n.
  - intros (n & fp' & _ & _ & -> & [lo0 hi1 hi0 c cs ks fp1 fp2 ls1 ls2 Hc Hr]) Hn. apply Forall_cons in Hn as [_ Hn].
    apply Forall_app in Hn as [H1 H2]. apply Forall_app. split; [by eapply IH|]. by eapply rseg_leaves.
Qed.

Section Range.
Context {St : Type} {C : Crc32c} {E : StorageEngine St} {L : StorageLaws St}.
Context (x : Io St).
Hypothesis (Hwf : io_wf x).

(** ** The iterator *)

(** What is left, at slot [s] of the leaf [d], with the leaves [rest] to come. *)
Definition rem (d : leafd) (rest : list leafd) (s : Z) : list entry := drop (Z.to_nat s) (ld_es d) ++ ents rest.

(** The turns of the loop that are left. *)
Definition turns (d : leafd) (rest : list leafd) (s : Z) : nat :=
  (length (ld_es d) - Z.to_nat s + 1 + length rest + length (ents rest))%nat.

Record at_slot (it : RangeIter) (d : leafd) (rest : list leafd) (s : Z) : Prop := {
  as_pid : it_current_pid it = ld_pid d;
  as_done : it_done it = false;
  as_idx : it_slot_idx it = s;
  as_range : 0 <= s <= zlen (ld_es d);
  as_cache : it_next_leaf_cache it = ld_next d \/ it_next_leaf_cache it = NULL_PAGE /\ s = 0;
  as_pages : Forall (leaf_page (vw x)) (d :: rest);
  as_chain : chain (d :: rest) NULL_PAGE;
  as_sorted : bsorted (rem d rest s).*1
}.

Lemma range_next_spec fuel : forall it d rest s,
  at_slot it d rest s -> (turns d rest s <= fuel)%nat ->
  exists r, range_next fuel it x = Some (Ok r, x) /\ it_from r.2 = it_from it /\ it_to r.2 = it_to it /\
    match r.1 with
    | None => filter (in_range (it_from it) (it_to it)) (rem d rest s) = []
    | Some e => exists d' rest' s', at_slot r.2 d' rest' s' /\ (turns d' rest' s' < turns d rest s)%nat /\
        filter (in_range (it_from it) (it_to it)) (rem d rest s) = e :: filter (in_range (it_from it) (it_to it)) (rem d' rest' s')
    end.
Proof.
  induction fuel as [|f IH]; intros it d rest s Has Hf; [unfold turns in Hf; lia|].
  pose proof Has as [Hpid Hdone Hidx Hs Hcache Hpages Hchain Hsorted]. cbn [range_next]. rewrite Hdone, Hpid.
  apply Forall_cons in Hpages as [Hpage Hpages]. pose proof Hpage as (Hnull & n & (p & Hp & _ & _ & -> & Hw) & Hnx & Hes).
  rewrite (proj2 (Z.eqb_neq _ _)) by done. unfold io_bind at 1. rewrite (io_read_ok x _ p Hwf Hp). cbv zeta.
  set (it1 := if _ && _ then _ else _).
  assert (Hit1 : at_slot it1 d rest s /\ it_next_leaf_cache it1 = ld_next d /\ it_from it1 = it_from it /\ it_to it1 = it_to it).
  { unfold it1. rewrite Hidx. destruct (Z.eqb_spec (it_next_leaf_cache it) NULL_PAGE) as [Hc|Hc]; cbn [andb].
    - destruct (Z.eqb_spec s 0); cbn.
      + split; [|by rewrite Hnx]. split; cbn; try done; [rewrite Hnx; by left|by constructor].
      + destruct Hcache as [Hcache|[_ ?]]; [|done]. by rewrite Hcache.
    - destruct Hcache as [Hcache|[? _]]; [|done]. by rewrite Hcache. }
  destruct Hit1 as (Has1 & Hc1 & Hfrom & Hto). clearbody it1. rewrite (as_idx _ _ _ _ Has1), Hc1, <-(leaf_es_length _ Hw), <-Hes.
  cbn in Hchain. destruct Hchain as [Hnext Hchain]. destruct (Z.leb_spec (zlen (ld_es d)) s) as [Hge|Hlt].
  - assert (Hrem : rem d rest s = ents rest) by (unfold rem; by rewrite drop_ge by lia). rewrite Hrem in *.
    rewrite Hnext. destruct rest as [|d' rest']; cbn [first_pid].
    + rewrite Z.eqb_refl. eexists. split; [done|]. cbn. by rewrite Hfrom, Hto.
    + pose proof Hpages as [[Hnull' _] _]%Forall_cons. rewrite (proj2 (Z.eqb_neq _ _)) by done.
      assert (Hr0 : rem d' rest' 0 = ents (d' :: rest')) by done.
      destruct (IH (it_jump it1 (ld_pid d')) d' rest' 0) as (r & Hr & Hfr & Htr & Hres).
      * split; cbn; try done; [by rewrite (as_done _ _ _ _ Has1)|lia|by right].
      * unfold turns in *. cbn [length] in Hf. change (ents (d' :: rest')) with (ld_es d' ++ ents rest') in Hf.
        rewrite length_app in Hf. lia.
      * exists r. split; [done|]. rewrite Hfr, Htr. cbn in Hres |- *. rewrite Hfrom, Hto in *. split; [done|]. split; [done|].
        rewrite Hr0 in Hres. destruct r.1 as [e|]; [|done]. destruct Hres as (d2 & rest2 & s2 & Has2 & Ht2 & Hflt).
        exists d2, rest2, s2. split; [done|]. split; [|done]. unfold turns in *. cbn [length].
        change (ents (d' :: rest')) with (ld_es d' ++ ents rest'). rewrite length_app. lia.
  - destruct (lookup_lt_is_Some_2 (ld_es d) (Z.to_nat s)) as [[k r] He]; [lia|].
    assert (Hrem : rem d rest s = (k, r) :: rem d rest (s + 1)).
    { unfold rem. rewrite (drop_S _ _ _ He). cbn. replace (Z.to_nat (s + 1)) with (S (Z.to_nat s)) by lia. done. }
    rewrite Hrem in *.
    assert (Has2 : at_slot (it_advance it1) d rest (s + 1)).
    { split; cbn; [by rewrite (as_pid _ _ _ _ Has1)|by rewrite (as_done _ _ _ _ Has1)|by rewrite (as_idx _ _ _ _ Has1)|lia|by left|
        by constructor|done|]. cbn in Hsorted. by apply StronglySorted_cons in Hsorted as [_ ?]. }
    pose proof He as He'. rewrite Hes in He'. unfold leaf_key_at.
    destruct (leaf_slot _ s k r Hw) as (len & kk & b & Hg1 & Hg2 & Hsv & _); [lia|done|].
    rewrite (slot_val_key _ _ _ _ _ _ Hg1 Hg2 Hsv).
    rewrite (rid_at_es _ s k r Hw) by (lia || done). unfold io_bind, io_pure. cbn [mbind option_bind].
    assert (Hturns : (turns d rest (s + 1) < turns d rest s)%nat) by (unfold turns; lia).
    destruct (above_lower (it_advance it1) k) eqn:Eab; cbn [negb].
    + apply above_lower_spec in Eab. cbn in Eab. rewrite Hfrom in Eab.
      destruct (below_upper (it_advance it1) k) eqn:Ebl; cbn [negb].
      * apply below_upper_spec in Ebl. cbn in Ebl. rewrite Hto in Ebl. eexists. split; [done|]. cbn [it_from it_to it_advance it_set_done fst snd]. split; [done|]. split; [done|].
        exists d, rest, (s + 1). split; [done|]. split; [done|]. by rewrite filter_cons_True.
      * eexists. split; [done|]. cbn [it_from it_to it_advance it_set_done fst snd]. split; [done|]. split; [done|]. apply filter_past; [done|]. intros Hb.
        cbn [fst] in Hb. rewrite <-Hto in Hb.
        apply (below_upper_spec (it_advance it1)) in Hb. congruence.
    + destruct (IH (it_advance it1) d rest (s + 1) Has2) as (r' & Hr & Hfr & Htr & Hres); [lia|].
      exists r'. split; [done|]. rewrite Hfr, Htr. cbn [it_from it_to it_advance fst snd] in Hres |- *. rewrite Hfrom, Hto in *. split; [done|]. split; [done|].
      rewrite filter_cons_False; [|intros [Hab _]; cbn in Hab; rewrite <-Hfrom in Hab;
        apply (above_lower_spec (it_advance it1)) in Hab; congruence].
      destruct r'.1 as [e|]; [|done]. destruct Hres as (d2 & rest2 & s2 & Has3 & Ht2 & Hflt).
      exists d2, rest2, s2. split; [done|]. split; [lia|done].
Qed.

Lemma range_collect_spec fuel : forall it d rest s,
  at_slot it d rest s -> (turns d rest s < fuel)%nat ->
  range_collect fuel it x =
    Some (Ok ((fun e => (e.2, e.1)) <$> filter (in_range (it_from it) (it_to it)) (rem d rest s)), x).
Proof.
  induction fuel as [|f IH]; intros it d rest s Has Hf; [lia|]. cbn [range_collect].
  destruct (range_next_spec (S f) it d rest s Has) as ([o it'] & Hr & Hfrom & Hto & Hres); [lia|].
  unfold io_bind at 1. rewrite Hr. cbn [fst snd] in *. destruct o as [[k r]|].
  - destruct Hres as (d' & rest' & s' & Has' & Ht & ->). unfold io_bind. rewrite (IH it' d' rest' s' Has') by lia.
    by rewrite Hfrom, Hto.
  - by rewrite Hres.
Qed.

(** ** The first leaf *)

Lemma leftmost_spec fuel : forall h lo hi pid fp ls,
  rep (vw x) h lo hi pid fp ls -> (h < fuel)%nat ->
  leftmost_leaf_in fuel pid x = Some (Ok (first_pid ls NULL_PAGE), x) /\ ls ≠ [].
Proof.
  induction fuel as [|f IH]; intros h lo hi pid fp ls Hrep Hh; [lia|]. cbn [leftmost_leaf_in]. unfold node_read. destruct h as [|h]; cbn in Hrep.
  - destruct Hrep as (-> & n & (p & Hp & _ & _ & -> & Hw) & -> & _). unfold io_bind, io_ret.
    by rewrite (io_read_ok x pid p Hwf Hp), is_leaf_page_leaf, (lw_tag _ Hw).
  - destruct Hrep as (n & fp' & (p & Hp & _ & _ & -> & Hw) & Hn & -> & Hf). unfold io_bind, io_ret, io_pure.
    rewrite (io_read_ok x pid p Hwf Hp), is_leaf_page_internal, (iw_tag _ Hw). cbn [Z.eqb].
    rewrite child_at_cs by (done || lia). inversion Hf as [lo0 hi1 hi0 c cs ks fp1 fp2 ls1 ls2 Hc Hr Hx1 Hx2 Hx3]; subst.
    change (Z.to_nat 0) with O. cbn [lookup list_lookup mbind option_bind].
    destruct (IH h lo hi1 c fp1 ls1 Hc) as [Hl Hne]; [lia|]. rewrite Hl. split; [|by destruct ls1].
    rewrite first_pid_app. by destruct ls1.
Qed.
End Range.

Section RangeTheorem.
Context {St : Type} {C : Crc32c} {E : StorageEngine St} {L : StorageLaws St}.

Lemma filter_below from to es1 es2 : (forall e : entry, e ∈ es1 -> ~ above from e.1) ->
  filter (in_range from to) (es1 ++ es2) = filter (in_range from to) es2.
Proof. intros Hn. rewrite filter_app, (filter_none _ es1); [done|]. intros e He [Hab _]. by apply (Hn e). Qed.

(** The iterator starts at a leaf before which nothing is within the bounds. *)
Lemma range_start (x : Io St) h root fp ls from to fuel :
  io_wf x -> tree_at (vw x) h root fp ls -> chain ls NULL_PAGE -> (h < fuel)%nat ->
  exists it d rest, range fuel root from to x = Some (Ok it, x) /\ at_slot x it d rest 0 /\
    it_from it = from /\ it_to it = to /\ (turns d rest 0 <= length (ents ls) + length ls)%nat /\
    filter (in_range from to) (rem d rest 0) = filter (in_range from to) (ents ls).
Proof.
  intros Hwf (Hrep & Hnd & Hnum) Hch Hh. pose proof (rep_leaves _ _ _ _ _ _ _ Hrep Hnum) as Hlv.
  pose proof (rep_in _ _ _ _ _ _ _ Hrep) as (_ & Hsorted & _). unfold range.
  assert (Hat : forall d ls1 rest, ls = ls1 ++ d :: rest -> at_slot x (range_iter_new (ld_pid d) from to) d rest 0).
  { intros d ls1 rest ->. apply Forall_app in Hlv as [_ Hlv]. apply chain_app in Hch as [_ Hch].
    split; cbn -[rem]; try done; [lia|by right|]. rewrite ents_app, fmap_app in Hsorted.
    by apply StronglySorted_app in Hsorted as (_ & _ & ?). }
  assert (Hturns : forall d ls1 rest, ls = ls1 ++ d :: rest -> (turns d rest 0 <= length (ents ls) + length ls)%nat).
  { intros d ls1 rest ->. rewrite ents_app, !length_app. change (ents (d :: rest)) with (ld_es d ++ ents rest).
    rewrite length_app. unfold turns. cbn [length]. lia. }
  assert (Hrem : forall d rest, rem d rest 0 = ents (d :: rest)) by done.
  assert (Hfind : forall k, (from = Included k \/ from = Excluded k) ->
    exists it d rest, (do! s := find_leaf_for_in fuel root k in io_ret (range_iter_new s from to)) x = Some (Ok it, x) /\
      at_slot x it d rest 0 /\ it_from it = from /\ it_to it = to /\ (turns d rest 0 <= length (ents ls) + length ls)%nat /\
      filter (in_range from to) (rem d rest 0) = filter (in_range from to) (ents ls)).
  { intros k Hk. destruct (find_leaf_spec fuel x h None None root fp ls k Hwf Hrep Hnd I I Hh) as
      (c & Hfl & lo' & hi' & n & ls1 & ls2 & Hcin & _ & Hls & _ & _ & _ & Hb & _).
    exists (range_iter_new c from to), (mkLd c (lf_next_leaf n) (leaf_es n)), ls2. unfold io_bind. rewrite Hfl. split; [done|].
    split; [by apply (Hat (mkLd c (lf_next_leaf n) (leaf_es n)) ls1)|]. do 2 (split; [done|]). split; [by eapply Hturns|].
    rewrite Hls at 1. rewrite Hrem, ents_app. symmetry. apply filter_below. intros e He. specialize (Hb e He).
    destruct Hk as [->| ->]; cbn; [intros ?; border|intros ?; border]. }
  destruct from as [|k|k]; [|apply Hfind; by left|apply Hfind; by right].
  destruct (leftmost_spec x Hwf fuel h None None root fp ls Hrep Hh) as [Hl Hne]. destruct ls as [|d rest]; [done|].
  exists (range_iter_new (ld_pid d) Unbounded to), d, rest. unfold io_bind. rewrite Hl. split; [done|].
  split; [by apply (Hat d [])|]. do 2 (split; [done|]). split; [by apply (Hturns d [])|done].
Qed.

(** A whole scan. *)
Lemma range_scan (x : Io St) h root fp ls from to fuel scan :
  io_wf x -> tree_at (vw x) h root fp ls -> chain ls NULL_PAGE -> (h < fuel)%nat -> (length (ents ls) + length ls < scan)%nat ->
  (do! it := range fuel root from to in range_collect scan it) x =
    Some (Ok ((fun e => (e.2, e.1)) <$> filter (in_range from to) (ents ls)), x).
Proof.
  intros Hwf Ht Hch Hh Hscan.
  destruct (range_start x h root fp ls from to fuel Hwf Ht Hch Hh) as (it & d & rest & Hr & Hat & <- & <- & Htn & Hflt).
  unfold io_bind. by rewrite Hr, (range_collect_spec x Hwf scan it d rest 0 Hat), Hflt by lia.
Qed.

(** A tree that stands for one entry holds just that. *)
Lemma sole_entry ls (k : bytes) r : tmap ls = {[ k := r ]} -> NoDup (ents ls).*1 -> ents ls = [(k, r)].
Proof.
  unfold tmap. intros Hm Hnd. assert (Hp : ents ls ≡ₚ [(k, r)]).
  { rewrite <-(map_to_list_to_map (M := gmap bytes) (ents ls)) by done. rewrite Hm. by rewrite map_to_list_singleton. }
  by apply Permutation_singleton_r in Hp.
Qed.

(** C13: over a tree whose leaves are linked, a scan with any bounds yields exactly the
    entries within them, in ascending order of their keys, and changes nothing.  It takes
    at most one turn per entry and leaf. *)
Theorem btree_range_correct (x : Io St) h root fp ls from to fuel scan :
  io_wf x -> tree_at (vw x) h root fp ls -> chain ls NULL_PAGE -> (h < fuel)%nat -> (length (ents ls) + length ls < scan)%nat ->
  (do! it := range fuel root from to in range_collect scan it) x =
    Some (Ok ((fun e => (e.2, e.1)) <$> filter (in_range from to) (ents ls)), x) /\
  (forall e, e ∈ ents ls <-> tmap ls !! e.1 = Some e.2) /\ bsorted (ents ls).*1.
Proof.
  intros Hwf Ht Hch Hh Hscan. split; [by eapply range_scan|].
  destruct Ht as (Hrep & _). split; [|by apply rep_in in Hrep as (_ & ? & _)].
  intros [k r]. apply tree_nodup in Hrep. apply (elem_of_list_to_map _ _ _ Hrep).
Qed.

(** [range_in] is the scan with inclusive bounds. *)
Lemma range_in_range fuel scan root lo hi (x : Io St) :
  range_in fuel scan root lo hi x =
  (do! it := range fuel root (match lo with None => Unbounded | Some k => Included k end)
               (match hi with None => Unbounded | Some k => Included k end) in range_collect scan it) x.
Proof.
  unfold range_in, range, io_bind. destruct lo as [k|].
  - by destruct (find_leaf_for_in fuel root k x) as [[[s|e] x']|].
  - by destruct (leftmost_leaf_in fuel root x) as [[[s|e] x']|].
Qed.
End RangeTheorem.

#[local] Existing Instance crc32c_ref.

Lemma btree_range_correct_witness :
  exists (x : Io MemoryStorage) root scan,
    (do! it := range 2 root (Excluded [1]) (Included [200]) in range_collect scan it) x = Some (Ok [(mkRid 7 3, [107])], x).
Proof.
  destruct sample_tree_one as (x & root & h & fp & ls & Hwf & Ht & Hh & _ & Hm & Hc).
  exists x, root, (S (length (ents ls) + length ls)).
  destruct (btree_range_correct x h root fp ls (Excluded [1]) (Included [200]) 2 (S (length (ents ls) + length ls)) Hwf Ht Hc) as (Hr & Hin & _);
    [lia|lia|]. rewrite Hr. do 2 f_equal. rewrite (sole_entry _ _ _ Hm) by (by eapply tree_nodup, Ht). done.
Defined.
