(* ===== verification/BTreeChain.v ===== *)
(** * Where the chain of leaves breaks

    A concrete tree with two levels of internal nodes, in which an insertion splits the
    leftmost leaf of a parent that has a left neighbour. *)

From S2P Require Import Prelude SlotBitmap Page FreeList Storage PageIo ByteOrder BTreeNode BTree.

(** The checksum plays no role here. *)
#[local] Instance crc32c_zero : Crc32c := fun _ => 0.

Definition leaf_of (next : Z) (keys : list Z) : option LeafNodePage :=
  foldl (fun n k => let! n := n in leaf_insert_at n (lf_num_keys n) [k] (mkRid k 0))
    (Some (set_next_leaf (leaf_set_is_leaf leaf_zeroed) next)) keys.

Definition internal_of (first : Z) (rest : list (Z * Z)) : option InternalNodePage :=
  foldl (fun n e => let! n := n in internal_insert_at n (in_num_keys n) [e.1] e.2) (set_child_at internal_zeroed 0 first) rest.

Definition put_leaf_at_page (pid next : Z) (keys : list Z) : M MemoryStorage unit :=
  do! n := io_pure (leaf_of next keys) in write_new_leaf pid n.
Definition put_internal_at_page (pid first : Z) (rest : list (Z * Z)) : M MemoryStorage unit :=
  do! n := io_pure (internal_of first rest) in write_new_internal pid n.

(** Leaves with the keys 1, 2; 11; 20 to 41; 51.  The third one is full for a fill factor
    of 10 percent. *)
Definition sample_build : M MemoryStorage Z :=
  do! l1 := io_alloc PtIndex in
  do! l2 := io_alloc PtIndex in
  do! l3 := io_alloc PtIndex in
  do! l4 := io_alloc PtIndex in
  do! a := io_alloc PtIndex in
  do! b := io_alloc PtIndex in
  do! root := io_alloc PtIndex in
  do! _ := put_leaf_at_page l1 l2 [1; 2] in
  do! _ := put_leaf_at_page l2 l3 [11] in
  do! _ := put_leaf_at_page l3 l4 (seqZ 20 22) in
  do! _ := put_leaf_at_page l4 NULL_PAGE [51] in
  do! _ := put_internal_at_page a l1 [(11, l2)] in
  do! _ := put_internal_at_page b l3 [(51, l4)] in
  do! _ := put_internal_at_page root a [(20, b)] in
  io_ret root.

(** The bytes of the keys a full scan returns, one after the other. *)
Definition scan_keys (root : Z) : M MemoryStorage (list Z) :=
  do! es := range_in 3 100 root None None in io_ret (mjoin (snd <$> es)).

(** Runs an action that is expected to succeed. *)
Definition run_ok {A} (m : M MemoryStorage A) (x : Io MemoryStorage) : option (A * Io MemoryStorage) :=
  match m x with Some (Ok a, x') => Some (a, x') | _ => None end.

(** The tree, a scan of it, the insertion of the key 45, and what a scan and a lookup give
    afterwards. *)
Definition chain_demo : option (list Z * Result (list Z) * option RecordId) :=
  let! s := mem_new in
  let! '(root, x) := run_ok sample_build (mkIo None s) in
  let! '(before, _) := run_ok (scan_keys root) x in
  let! '(root', x') := run_ok (insert_in_with_batch 3 root [45] (mkRid 45 0) 10) x in
  let! '(after, _) := scan_keys root' x' in
  let! '(found, _) := run_ok (lookup_in 3 root' [45]) x' in
  Some (before, after, found).

(** An insertion can break the chain of leaves of a tree with two levels of internal
    nodes.  On a concrete tree a full scan returns every key in order; the insertion of a key
    that splits the first leaf below the root's second child succeeds and a lookup finds the
    new key, but the full scan of the result fails with [PageNotFound]: the last leaf below
    the root's first child still points at the page the split has freed. *)
Theorem split_breaks_leaf_chain :
  chain_demo = Some ([1; 2; 11] ++ seqZ 20 22 ++ [51], Err (PageNotFound 4), Some (mkRid 45 0)).
Proof. vm_compute. reflexivity. Qed.
