(* ===== verification/KeyEncoding.v ===== *)
(** * Index keys

    crates/axiomdb-sql/src/key_encoding.rs: SQL values encoded as byte strings whose
    lexicographic order is meant to be the order of the values, and the decoder that
    covering index scans use; and the arms of [compare_values] of
    crates/axiomdb-sql/src/eval/ops.rs for two values of one type, under the default binary
    collation.  An [f64] is its 64 bits and is compared as the IEEE number it stands for
    (SpecFloat of the Standard Library); a [String] is its UTF-8 bytes.  The text of a JSONB
    value is printed by the serde_json crate and is a parameter, [JsonbText].  The messages
    of errors are left out. *)

From Stdlib Require Import SpecFloat.
From S2P Require Import Prelude ByteOrder.

(** ** Values (axiomdb-types/src/value.rs and range_value.rs) *)

Inductive Value : Type :=
| VNull
| VBool (b : bool)
| VInt (n : Z)
| VBigInt (n : Z)
| VReal (bits : Z)
| VDecimal (mantissa scale : Z)
| VText (s : bytes)
| VBytes (b : bytes)
| VDate (days : Z)
| VTimestamp (micros : Z)
| VTimestampTz (micros : Z)
| VUuid (u : bytes)
| VJson (s : bytes)
| VJsonb (b : bytes)
| VArray (elems : list Value)
| VRange (r : RangeValue)
| VMoney (mantissa scale : Z) (currency : bytes)
| VComposite (fields : list Value)
| VLtree (s : bytes)
| VXml (s : bytes)
with RangeValue : Type :=
| mkRange (lower upper : option Value) (lower_inc upper_inc is_empty : bool).

(** ** Integers and floats of Rust *)

(** [to_be_bytes] and [from_be_bytes]. *)
Definition be_bytes (n v : Z) : bytes := reverse (le_bytes n v).
Definition be_val (bs : bytes) : Z := le_val (reverse bs).

(** [(n ^ i64::MIN) as u64] and its 128-bit version. *)
Definition sign_flip (w n : Z) : Z := Z.lxor (n mod 2 ^ w) (2 ^ (w - 1)).

(** The IEEE double with the given bits. *)
Definition f64_from_bits (bits : Z) : spec_float :=
  let s := Z.testbit bits 63 in
  let e := (bits mod 2 ^ 63) / 2 ^ 52 in
  let f := bits mod 2 ^ 52 in
  if e =? 2047 then if f =? 0 then S754_infinity s else S754_nan
  else if e =? 0 then
    match f with Zpos m => S754_finite s m (-1074) | _ => S754_zero s end
  else match f + 2 ^ 52 with Zpos m => S754_finite s m (e - 1075) | _ => S754_nan end.

(** [f64::partial_cmp] and [f64::is_nan]. *)
Definition f64_partial_cmp (a b : Z) : option comparison := SFcompare (f64_from_bits a) (f64_from_bits b).
Definition f64_is_nan (a : Z) : bool := match f64_from_bits a with S754_nan => true | _ => false end.

(** [String::from_utf8]: whether the bytes are valid UTF-8. *)
Definition cont (b : Z) : bool := (128 <=? b) && (b <=? 191).
Fixpoint utf8_valid (s : bytes) : bool :=
  match s with
  | [] => true
  | b0 :: s1 =>
      if b0 <? 128 then utf8_valid s1
      else
        match s1 with
        | [] => false
        | b1 :: s2 =>
            if (194 <=? b0) && (b0 <=? 223) then cont b1 && utf8_valid s2
            else
              match s2 with
              | [] => false
              | b2 :: s3 =>
                  if (224 <=? b0) && (b0 <=? 239) then
                    cont b1 && (if b0 =? 224 then 160 <=? b1 else true) && (if b0 =? 237 then b1 <=? 159 else true)
                    && cont b2 && utf8_valid s3
                  else
                    match s3 with
                    | [] => false
                    | b3 :: s4 =>
                        (240 <=? b0) && (b0 <=? 244) && cont b1 && (if b0 =? 240 then 144 <=? b1 else true)
                        && (if b0 =? 244 then b1 <=? 143 else true) && cont b2 && cont b3 && utf8_valid s4
                    end
              end
        end
  end.

(** ** Encoding *)

Definition MAX_INDEX_KEY : Z := 768.

(** [JsonbDecoder::to_string], [None] for an error. *)
Class JsonbText : Type := jsonb_to_string : bytes -> option bytes.

Definition encode_f64 (f : Z) : bytes :=
  if f64_is_nan f then replicate 8 0
  else
    let result :=
      match f64_partial_cmp f 0 with
      | Some (Eq | Gt) => Z.lor f (1 ≪ 63)
      | _ => not64 f
      end in
    be_bytes 8 result.

Fixpoint encode_bytes_nul (b : bytes) : bytes :=
  match b with
  | [] => [0]
  | byte :: b' => if byte =? 0 then 255 :: 0 :: encode_bytes_nul b' else byte :: encode_bytes_nul b'
  end.

(** The bytes that [encode_value] appends. *)
Definition encode_value {J : JsonbText} (v : Value) : Result bytes :=
  match v with
  | VNull => Ok [0]
  | VBool b => Ok [1; Z.b2z b]
  | VInt n => Ok (2 :: be_bytes 8 (sign_flip 64 n))
  | VBigInt n => Ok (3 :: be_bytes 8 (sign_flip 64 n))
  | VReal f => Ok (4 :: encode_f64 f)
  | VDecimal mantissa scale => Ok (5 :: scale :: be_bytes 16 (sign_flip 128 mantissa))
  | VDate days => Ok (6 :: be_bytes 8 (sign_flip 64 days))
  | VTimestamp micros | VTimestampTz micros => Ok (7 :: be_bytes 8 (sign_flip 64 micros))
  | VText s | VJson s => Ok (8 :: encode_bytes_nul s)
  | VJsonb b => Ok (12 :: encode_bytes_nul (default [] (jsonb_to_string b)))
  | VBytes b => Ok (9 :: encode_bytes_nul b)
  | VUuid u => Ok (10 :: u)
  | VArray _ => Ok [13]
  | VRange _ | VMoney _ _ _ | VComposite _ => Err InvalidValue
  | VLtree s => Ok (17 :: encode_bytes_nul s)
  | VXml s => Ok (18 :: encode_bytes_nul s)
  end.

(** The loop of [encode_index_key]. *)
Fixpoint encode_values {J : JsonbText} (values : list Value) : Result bytes :=
  match values with
  | [] => Ok []
  | v :: values' =>
      match encode_value v with
      | Err e => Err e
      | Ok b => match encode_values values' with Err e => Err e | Ok b' => Ok (b ++ b') end
      end
  end.

Definition encode_index_key {J : JsonbText} (values : list Value) : Result bytes :=
  match encode_values values with
  | Err e => Err e
  | Ok buf => if MAX_INDEX_KEY <? zlen buf then Err (IndexKeyTooLong (zlen buf) MAX_INDEX_KEY) else Ok buf
  end.

(** ** Decoding *)

Definition decode_f64 (bs : bytes) : Z :=
  let u := be_val bs in
  if negb (Z.land u (1 ≪ 63) =? 0) then Z.lxor u (1 ≪ 63) else not64 u.

(** The loop of [decode_bytes_nul], with the output so far and the position. *)
Fixpoint decode_nul_loop (src out : bytes) (i : Z) : Result (bytes * Z) :=
  match src with
  | [] => Err ParseError
  | b :: rest =>
      let plain := if b =? 0 then Ok (out, i + 1) else decode_nul_loop rest (out ++ [b]) (i + 1) in
      match rest with
      | c :: rest' => if (b =? 255) && (c =? 0) then decode_nul_loop rest' (out ++ [0]) (i + 2) else plain
      | [] => plain
      end
  end.
Definition decode_bytes_nul (src : bytes) : Result (bytes * Z) := decode_nul_loop src [] 0.

(** A payload of [n] bytes after the tag, [trunc()] when the key is too short. *)
Definition decode_fixed (key : bytes) (pos n : Z) (f : bytes -> Value) : option (Result (Value * Z)) :=
  if zlen key <? pos + 1 + n then Some (Err BTreeCorrupted)
  else let! bs := slice (pos + 1) n key in Some (Ok (f bs, pos + 1 + n)).

(** A NUL-terminated payload. *)
Definition decode_string (key : bytes) (pos : Z) (f : bytes -> Result Value) : Result (Value * Z) :=
  match decode_bytes_nul (drop (Z.to_nat (pos + 1)) key) with
  | Err e => Err e
  | Ok (raw, end_) => match f raw with Err e => Err e | Ok v => Ok (v, pos + 1 + end_) end
  end.

Definition decode_value (key : bytes) (pos : Z) : option (Result (Value * Z)) :=
  if zlen key <=? pos then Some (Err ParseError)
  else
    let! tag := arr_get key pos in
    match tag with
    | 0 => Some (Ok (VNull, pos + 1))
    | 1 => decode_fixed key pos 1 (fun bs => VBool (negb (be_val bs =? 0)))
    | 2 => decode_fixed key pos 8 (fun bs => VInt (as_signed 32 (as_signed 64 (Z.lxor (be_val bs) (2 ^ 63)))))
    | 3 => decode_fixed key pos 8 (fun bs => VBigInt (as_signed 64 (Z.lxor (be_val bs) (2 ^ 63))))
    | 4 => decode_fixed key pos 8 (fun bs => VReal (decode_f64 bs))
    | 5 => decode_fixed key pos 17 (fun bs => VDecimal (as_signed 128 (Z.lxor (be_val (drop 1 bs)) (2 ^ 127))) (be_val (take 1 bs)))
    | 6 => decode_fixed key pos 8 (fun bs => VDate (as_signed 32 (as_signed 64 (Z.lxor (be_val bs) (2 ^ 63)))))
    | 7 => decode_fixed key pos 8 (fun bs => VTimestamp (as_signed 64 (Z.lxor (be_val bs) (2 ^ 63))))
    | 8 => Some (decode_string key pos (fun raw => if utf8_valid raw then Ok (VText raw) else Err ParseError))
    | 9 => Some (decode_string key pos (fun raw => Ok (VBytes raw)))
    | 10 => decode_fixed key pos 16 (fun bs => VUuid bs)
    | _ => Some (Err ParseError)
    end.

(** The loop of [decode_index_key], with the values so far. *)
Fixpoint decode_values (n_values : nat) (key : bytes) (pos : Z) (values : list Value) : option (Result (list Value * Z)) :=
  match n_values with
  | O => Some (Ok (values, pos))
  | S n =>
      if zlen key <=? pos then Some (Err BTreeCorrupted)
      else
        let! r := decode_value key pos in
        match r with
        | Err e => Some (Err e)
        | Ok (v, new_pos) => decode_values n key new_pos (values ++ [v])
        end
  end.
Definition decode_index_key (key : bytes) (n_values : nat) : option (Result (list Value * Z)) := decode_values n_values key 0 [].

(** ** Comparison of values of one type (eval/ops.rs) *)

Definition saturating_mul_i128 (a b : Z) : Z := Z.max (- 2 ^ 127) (Z.min (a * b) (2 ^ 127 - 1)).

(** [10i128.pow(n)], which wraps from [n = 39] on in a release build (a build that checks
    arithmetic panics there). *)
Definition pow10_i128 (n : Z) : Z := as_signed 128 (10 ^ n).

(** The arms for values of one type.  [None] is any other pair, whose result depends on
    coercions that are not part of this model. *)
Definition compare_values (l r : Value) : option (Result comparison) :=
  match l, r with
  | VBool a, VBool b => Some (Ok (Z.b2z a ?= Z.b2z b))
  | VInt a, VInt b => Some (Ok (a ?= b))
  | VBigInt a, VBigInt b => Some (Ok (a ?= b))
  | VReal a, VReal b => Some (match f64_partial_cmp a b with Some c => Ok c | None => Err TypeMismatch end)
  | VDecimal m1 s1, VDecimal m2 s2 =>
      Some (Ok (if s1 =? s2 then m1 ?= m2
                else if s2 <? s1 then m1 ?= saturating_mul_i128 m2 (pow10_i128 (s1 - s2))
                else saturating_mul_i128 m1 (pow10_i128 (s2 - s1)) ?= m2))
  | VText a, VText b => Some (Ok (lex_cmp a b))
  | VBytes a, VBytes b => Some (Ok (lex_cmp a b))
  | VDate a, VDate b => Some (Ok (a ?= b))
  | VTimestamp a, VTimestamp b | VTimestampTz a, VTimestampTz b
  | VTimestamp a, VTimestampTz b | VTimestampTz a, VTimestamp b => Some (Ok (a ?= b))
  | VUuid a, VUuid b => Some (Ok (lex_cmp a b))
  | _, _ => None
  end.

(** ** Integers *)

Lemma lxor_low a k : 0 <= k -> 0 <= a < 2 ^ k -> Z.lxor a (2 ^ k) = a + 2 ^ k.
Proof.
  intros Hk Ha. symmetry. apply Z.add_nocarry_lxor. apply Z.bits_inj'. intros i Hi.
  rewrite Z.land_spec, Z.bits_0, Z.pow2_bits_eqb by lia. destruct (Z.eqb_spec k i) as [<-|]; [|apply andb_false_r].
  rewrite andb_true_r. destruct (decide (a = 0)) as [->|]; [apply Z.bits_0|].
  apply Z.bits_above_log2; [lia|]. apply Z.log2_lt_pow2; lia.
Qed.

Lemma lxor_high a k : 0 <= k -> 0 <= a < 2 ^ k -> Z.lxor (a + 2 ^ k) (2 ^ k) = a.
Proof. intros. rewrite <-lxor_low by done. by rewrite Z.lxor_assoc, Z.lxor_nilpotent, Z.lxor_0_r. Qed.

Lemma sign_flip_spec k n : 0 <= k -> in_signed k n -> sign_flip (k + 1) n = n + 2 ^ k.
Proof.
  unfold sign_flip, in_signed. intros Hk Hn. replace (k + 1 - 1) with k by lia.
  assert (2 ^ (k + 1) = 2 * 2 ^ k) as E by (rewrite Z.pow_add_r by lia; lia). rewrite E.
  destruct (decide (0 <= n)).
  - rewrite Z.mod_small by lia. apply lxor_low; lia.
  - replace (n mod (2 * 2 ^ k)) with (n + 2 ^ k + 2 ^ k).
    + apply lxor_high; lia.
    + replace n with (n + 2 * 2 ^ k + (-1) * (2 * 2 ^ k)) at 2 by lia. rewrite Z.mod_add, Z.mod_small; lia.
Qed.

Lemma sign_unflip k n : 0 <= k -> in_signed k n -> as_signed (k + 1) (Z.lxor (n + 2 ^ k) (2 ^ k)) = n.
Proof.
  unfold as_signed, in_signed. intros Hk Hn. replace (k + 1 - 1) with k by lia.
  assert (2 ^ (k + 1) = 2 * 2 ^ k) as E by (rewrite Z.pow_add_r by lia; lia). rewrite E.
  destruct (decide (0 <= n)).
  - rewrite lxor_high by lia. rewrite Z.mod_small by lia. by rewrite (proj2 (Z.ltb_lt _ _)) by lia.
  - rewrite lxor_low by lia. rewrite Z.mod_small by lia. rewrite (proj2 (Z.ltb_ge _ _)) by lia. lia.
Qed.

(** ** Big-endian bytes *)

Lemma len_be_bytes n v : 0 <= n -> zlen (be_bytes n v) = n.
Proof. intros. unfold be_bytes. rewrite length_reverse. by apply len_le_bytes. Qed.

Lemma be_bytes_ok n v : 0 <= n -> bytes_ok (be_bytes n v).
Proof. intros. unfold be_bytes, bytes_ok. apply Forall_reverse. by apply bytes_ok_le_bytes. Qed.

Lemma be_val_be_bytes n v : 0 <= n -> 0 <= v < 2 ^ (n * 8) -> be_val (be_bytes n v) = v.
Proof. intros. unfold be_val, be_bytes. rewrite reverse_involutive. by apply le_val_le_bytes. Qed.

Lemma be_bytes_succ (n : nat) v :
  be_bytes (Z.of_nat (S n)) v = be_bytes (Z.of_nat n) (v / 2 ^ 8) ++ [v mod 2 ^ 8].
Proof.
  unfold be_bytes, le_bytes. rewrite Nat2Z.inj_succ, Z_to_little_endian_succ by lia.
  rewrite reverse_cons, Z.shiftr_div_pow2, Z.land_ones by lia. done.
Qed.

Lemma lex_app a b r s : length a = length b ->
  lex_cmp (a ++ r) (b ++ s) = match lex_cmp a b with Eq => lex_cmp r s | c => c end.
Proof.
  revert b. induction a as [|x a IH]; intros [|y b] Hl; try done. cbn. injection Hl as Hl.
  destruct (x ?= y); try done. by apply IH.
Qed.

Lemma be_bytes_cmp (n : nat) : forall a b, 0 <= a < 2 ^ (Z.of_nat n * 8) -> 0 <= b < 2 ^ (Z.of_nat n * 8) ->
  lex_cmp (be_bytes (Z.of_nat n) a) (be_bytes (Z.of_nat n) b) = (a ?= b).
Proof.
  induction n as [|n IH]; intros a b Ha Hb.
  - cbn in Ha, Hb. replace a with 0 by lia. by replace b with 0 by lia.
  - rewrite !be_bytes_succ. rewrite lex_app.
    2:{ pose proof (len_be_bytes (Z.of_nat n) (a / 2 ^ 8)). pose proof (len_be_bytes (Z.of_nat n) (b / 2 ^ 8)). lia. }
    assert (2 ^ (Z.of_nat (S n) * 8) = 2 ^ (Z.of_nat n * 8) * 2 ^ 8) as E.
    { rewrite <-Z.pow_add_r by lia. f_equal. lia. }
    rewrite E in Ha, Hb.
    rewrite IH by (split; [apply Z.div_pos; lia|apply Z.div_lt_upper_bound; lia]). cbn [lex_cmp].
    pose proof (Z.div_mod a (2 ^ 8) ltac:(lia)). pose proof (Z.div_mod b (2 ^ 8) ltac:(lia)).
    pose proof (Z.mod_pos_bound a (2 ^ 8) ltac:(lia)). pose proof (Z.mod_pos_bound b (2 ^ 8) ltac:(lia)).
    destruct (Z.compare_spec (a / 2 ^ 8) (b / 2 ^ 8)), (Z.compare_spec (a mod 2 ^ 8) (b mod 2 ^ 8)), (Z.compare_spec a b); try done; nia.
Qed.

Lemma be_flip_cmp (n : nat) k a b : Z.of_nat n * 8 = k + 1 -> 0 <= k -> in_signed k a -> in_signed k b ->
  lex_cmp (be_bytes (Z.of_nat n) (sign_flip (k + 1) a)) (be_bytes (Z.of_nat n) (sign_flip (k + 1) b)) = (a ?= b).
Proof.
  intros Hn Hk Ha Hb. rewrite !sign_flip_spec by done. unfold in_signed in *.
  assert (2 ^ (k + 1) = 2 * 2 ^ k) as E by (rewrite Z.pow_add_r by lia; lia).
  rewrite be_bytes_cmp by (rewrite Hn; lia).
  rewrite (Z.add_comm a), (Z.add_comm b). apply Z.add_compare_mono_l.
Qed.

(** ** Floats *)

(** The sign and the magnitude of a double as an integer that orders like the double. *)
Definition f64_ord (bits : Z) : Z := if Z.testbit bits 63 then - (bits mod 2 ^ 63) else bits mod 2 ^ 63.

(** What the bits of a double that is a number stand for. *)
Inductive f64_view (s : bool) (m : Z) : spec_float -> Prop :=
| view_inf : m = 2047 * 2 ^ 52 -> f64_view s m (S754_infinity s)
| view_zero : m = 0 -> f64_view s m (S754_zero s)
| view_finite p x : m = (x + 1074) * 2 ^ 52 + Zpos p -> -1074 <= x <= 971 -> Zpos p < 2 ^ 53 ->
    (x = -1074 \/ 2 ^ 52 <= Zpos p) -> f64_view s m (S754_finite s p x).

Lemma f64_from_bits_view bits :
  f64_is_nan bits = false -> f64_view (Z.testbit bits 63) (bits mod 2 ^ 63) (f64_from_bits bits).
Proof.
  unfold f64_is_nan, f64_from_bits. set (s := Z.testbit bits 63). set (m := bits mod 2 ^ 63).
  assert (Hm : 0 <= m < 2 ^ 63) by (apply Z.mod_pos_bound; lia).
  assert (Hf : bits mod 2 ^ 52 = m mod 2 ^ 52).
  { unfold m. replace (2 ^ 63) with (2 ^ 52 * 2 ^ 11) by done. rewrite Z.rem_mul_r by lia.
    rewrite (Z.mul_comm (2 ^ 52)), Z.mod_add by lia. by rewrite Z.mod_mod by lia. }
  rewrite Hf. pose proof (Z.div_mod m (2 ^ 52) ltac:(lia)) as Hd. pose proof (Z.mod_pos_bound m (2 ^ 52) ltac:(lia)) as Hb.
  set (e := m / 2 ^ 52) in *. set (f := m mod 2 ^ 52) in *. clearbody e f m s.
  destruct (Z.eqb_spec e 2047) as [->|He].
  - destruct (Z.eqb_spec f 0) as [->|]; [|done]. intros _. apply view_inf. lia.
  - destruct (Z.eqb_spec e 0) as [->|He0].
    + destruct f as [|p|p]; intros _; [apply view_zero; lia|apply view_finite; lia|lia].
    + destruct (f + 2 ^ 52) as [|p|p] eqn:E; [lia| |lia]. intros _. apply view_finite; lia.
Qed.

Lemma view_cmp s1 m1 f1 s2 m2 f2 : f64_view s1 m1 f1 -> f64_view s2 m2 f2 ->
  SFcompare f1 f2 = Some ((if s1 then - m1 else m1) ?= (if s2 then - m2 else m2)).
Proof.
  intros [H1|H1|p1 x1 H1 Hx1 Hp1 Hn1] [H2|H2|p2 x2 H2 Hx2 Hp2 Hn2]; cbn [SFcompare]; f_equal; subst;
    try (destruct s1, s2; symmetry; first [by apply Z.compare_eq_iff|apply Z.compare_lt_iff; lia|apply Z.compare_gt_iff; lia]).
  change (Pos.compare_cont Eq p1 p2) with (Zpos p1 ?= Zpos p2).
  destruct s1, s2, (Z.compare_spec x1 x2), (Z.compare_spec (Zpos p1) (Zpos p2)); cbn [CompOpp]; symmetry;
    first [apply Z.compare_eq_iff; lia|apply Z.compare_lt_iff; lia|apply Z.compare_gt_iff; lia].
Qed.

Lemma f64_partial_cmp_ord a b : f64_is_nan a = false -> f64_is_nan b = false ->
  f64_partial_cmp a b = Some (f64_ord a ?= f64_ord b).
Proof. intros Ha%f64_from_bits_view Hb%f64_from_bits_view. by apply view_cmp. Qed.

Lemma u64_sign b : in_u64 b -> Z.testbit b 63 = (2 ^ 63 <=? b) /\ b mod 2 ^ 63 = if 2 ^ 63 <=? b then b - 2 ^ 63 else b.
Proof.
  intros Hb. unfold in_u64 in Hb. destruct (Z.leb_spec (2 ^ 63) b) as [H|H].
  - replace b with (b - 2 ^ 63 + 1 * 2 ^ 63) at 2 by lia. rewrite Z.mod_add, Z.mod_small by lia. split; [|done].
    rewrite Z.testbit_true by lia. replace (b / 2 ^ 63) with 1; [done|].
    apply (Z.div_unique _ _ _ (b - 2 ^ 63)); lia.
  - rewrite Z.mod_small by lia. split; [|done]. destruct (decide (b = 0)) as [->|]; [apply Z.bits_0|].
    apply Z.bits_above_log2; [lia|]. apply Z.log2_lt_pow2; lia.
Qed.

Lemma not64_spec b : in_u64 b -> not64 b = 2 ^ 64 - 1 - b.
Proof.
  intros Hb. unfold not64, U64_MAX. apply Z.bits_inj'. intros i Hi.
  replace (2 ^ 64 - 1) with (Z.ones 64) by done. rewrite Z.lxor_spec.
  replace (Z.ones 64 - b) with (Z.lnot (b - Z.ones 64 - 1)) by (unfold Z.lnot; lia).
  destruct (decide (i < 64)).
  - rewrite Z.ones_spec_low, Z.lnot_spec by lia. rewrite xorb_true_r. f_equal.
    replace (b - Z.ones 64 - 1) with (b - 2 ^ 64) by (change (Z.ones 64) with (2 ^ 64 - 1); lia).
    rewrite <-(Z.mod_pow2_bits_low (b - 2 ^ 64) 64 i) by lia. replace (b - 2 ^ 64) with (b + (-1) * 2 ^ 64) by lia.
    rewrite Z.mod_add by lia. rewrite Z.mod_small by (unfold in_u64 in Hb; lia). done.
  - rewrite Z.ones_spec_high, u64_bits_high by (done || lia). cbn. unfold in_u64 in Hb.
    symmetry. replace (Z.lnot (b - Z.ones 64 - 1)) with (2 ^ 64 - 1 - b) by (unfold Z.lnot; change (Z.ones 64) with (2 ^ 64 - 1); lia).
    apply u64_bits_high; [unfold in_u64; lia|lia].
Qed.

(** The integer that [encode_f64] writes. *)
Definition f64_code (k : Z) : Z := if 0 <=? k then 2 ^ 63 + k else 2 ^ 63 - 1 + k.

Lemma f64_ord_range b : in_u64 b -> - (2 ^ 63 - 1) <= f64_ord b < 2 ^ 63.
Proof.
  intros Hb. pose proof (u64_sign b Hb) as [Hs Hm]. unfold f64_ord. rewrite Hs.
  pose proof (Z.mod_pos_bound b (2 ^ 63) ltac:(lia)). destruct (2 ^ 63 <=? b); lia.
Qed.

Lemma encode_f64_spec f : in_u64 f -> f64_is_nan f = false -> encode_f64 f = be_bytes 8 (f64_code (f64_ord f)).
Proof.
  intros Hf Hn. unfold encode_f64. rewrite Hn. f_equal. rewrite f64_partial_cmp_ord by done. change (f64_ord 0) with 0.
  pose proof (u64_sign f Hf) as [Hs Hm]. unfold f64_code, f64_ord. rewrite Hs, Hm. change (1 ≪ 63) with (2 ^ 63).
  assert (Hlor : forall a, 0 <= a < 2 ^ 63 -> Z.lor a (2 ^ 63) = a + 2 ^ 63).
  { intros a Ha. rewrite <-lxor_low by lia. symmetry. apply Z.lxor_lor. apply Z.bits_inj'. intros i Hi.
    pose proof (u64_sign a ltac:(unfold in_u64; lia)) as [Ht _]. rewrite (proj2 (Z.leb_gt _ _)) in Ht by lia.
    rewrite Z.land_spec, Z.bits_0, Z.pow2_bits_eqb by lia. destruct (Z.eqb_spec 63 i) as [<-|]; [by rewrite Ht|apply andb_false_r]. }
  unfold in_u64 in Hf. destruct (Z.leb_spec (2 ^ 63) f) as [H|H].
  - destruct (Z.compare_spec (- (f - 2 ^ 63)) 0) as [E|E|E]; [|rewrite not64_spec by done|lia].
    + replace f with (0 + 2 ^ 63) at 1 by lia. rewrite <-lxor_low by lia. replace (- (f - 2 ^ 63)) with 0 by lia. done.
    + rewrite (proj2 (Z.leb_gt _ _)) by lia. lia.
  - rewrite (proj2 (Z.leb_le 0 f)) by lia. rewrite Hlor by lia. destruct (Z.compare_spec f 0); lia.
Qed.

Lemma encode_f64_cmp a b c : in_u64 a -> in_u64 b -> f64_partial_cmp a b = Some c -> lex_cmp (encode_f64 a) (encode_f64 b) = c.
Proof.
  intros Ha Hb Hc.
  assert (Hn : f64_is_nan a = false /\ f64_is_nan b = false).
  { unfold f64_is_nan, f64_partial_cmp in *. destruct (f64_from_bits a), (f64_from_bits b); done. }
  destruct Hn as [Hna Hnb]. rewrite f64_partial_cmp_ord in Hc by done. injection Hc as <-. rewrite !encode_f64_spec by done.
  pose proof (f64_ord_range a Ha). pose proof (f64_ord_range b Hb).
  assert (Hr : forall k, - (2 ^ 63 - 1) <= k < 2 ^ 63 -> 0 <= f64_code k < 2 ^ 64).
  { intros k Hk. unfold f64_code. destruct (Z.leb_spec 0 k); lia. }
  rewrite (be_bytes_cmp 8) by (change (Z.of_nat 8 * 8) with 64; auto). unfold f64_code.
  destruct (Z.leb_spec 0 (f64_ord a)), (Z.leb_spec 0 (f64_ord b)), (Z.compare_spec (f64_ord a) (f64_ord b));
    first [apply Z.compare_eq_iff; lia|apply Z.compare_lt_iff; lia|apply Z.compare_gt_iff; lia].
Qed.

(** Decoding gives the same number, with the sign of zero dropped. *)
Definition f64_canon (f : Z) : Z := if f =? 2 ^ 63 then 0 else f.

Lemma decode_encode_f64 f : in_u64 f -> f64_is_nan f = false -> decode_f64 (encode_f64 f) = f64_canon f.
Proof.
  intros Hf Hn. rewrite encode_f64_spec by done. pose proof (f64_ord_range f Hf) as Hr.
  assert (Hc : 0 <= f64_code (f64_ord f) < 2 ^ 64) by (unfold f64_code; destruct (Z.leb_spec 0 (f64_ord f)); lia).
  unfold decode_f64. rewrite be_val_be_bytes by (done || lia). change (1 ≪ 63) with (2 ^ 63).
  set (u := f64_code (f64_ord f)) in *. pose proof (u64_sign u Hc) as [Ht _].
  assert (Hl : negb (Z.land u (2 ^ 63) =? 0) = (2 ^ 63 <=? u)).
  { rewrite <-Ht. destruct (Z.testbit u 63) eqn:E.
    - destruct (Z.eqb_spec (Z.land u (2 ^ 63)) 0) as [H0|]; [|done]. exfalso.
      apply (f_equal (fun z => Z.testbit z 63)) in H0. rewrite Z.land_spec, E, Z.bits_0 in H0. done.
    - destruct (Z.eqb_spec (Z.land u (2 ^ 63)) 0) as [H0|H0]; [done|]. exfalso. apply H0. apply Z.bits_inj'. intros i Hi.
      rewrite Z.land_spec, Z.bits_0, Z.pow2_bits_eqb by lia. destruct (Z.eqb_spec 63 i) as [<-|]; [by rewrite E|apply andb_false_r]. }
  rewrite Hl. pose proof (u64_sign f Hf) as [Hs Hm]. unfold in_u64 in Hf.
  assert (Hu : u = if 2 ^ 63 <=? f then if f =? 2 ^ 63 then 2 ^ 63 else 2 ^ 64 - 1 - f else 2 ^ 63 + f).
  { unfold u, f64_code, f64_ord. rewrite Hs, Hm. destruct (Z.leb_spec (2 ^ 63) f).
    - destruct (Z.eqb_spec f (2 ^ 63)) as [->|]; [done|]. rewrite (proj2 (Z.leb_gt _ _)) by lia. lia.
    - rewrite (proj2 (Z.leb_le 0 f)) by lia. lia. }
  clearbody u. unfold f64_canon. destruct (Z.leb_spec (2 ^ 63) f); destruct (Z.eqb_spec f (2 ^ 63)); try lia.
  - subst u. done.
  - rewrite (proj2 (Z.leb_gt _ _)) by lia. rewrite not64_spec by (unfold in_u64; lia). lia.
  - rewrite (proj2 (Z.leb_le _ _)) by lia. rewrite Hu, Z.add_comm. apply lxor_high; lia.
Qed.

(** ** Strings *)

Definition nul_free (s : bytes) : Prop := Forall (fun b => b ≠ 0) s.

Lemma encode_nul_free s : nul_free s -> encode_bytes_nul s = s ++ [0].
Proof. induction 1 as [|b s Hb _ IH]; [done|]. cbn. rewrite (proj2 (Z.eqb_neq _ _)) by done. by rewrite IH. Qed.

Lemma lex_nul a b r s : nul_free a -> nul_free b -> bytes_ok a -> bytes_ok b ->
  lex_cmp (a ++ 0 :: r) (b ++ 0 :: s) = match lex_cmp a b with Eq => lex_cmp r s | c => c end.
Proof.
  unfold nul_free, bytes_ok, byte_ok. revert b. induction a as [|x a IH]; intros [|y b] Ha Hb Hoa Hob; cbn [app lex_cmp]; try done.
  - apply Forall_cons in Hb as [Hb _]. apply Forall_cons in Hob as [Hob _]. by rewrite (proj2 (Z.compare_lt_iff _ _)) by lia.
  - apply Forall_cons in Ha as [Ha _]. apply Forall_cons in Hoa as [Hoa _]. by rewrite (proj2 (Z.compare_gt_iff _ _)) by lia.
  - apply Forall_cons in Ha as [_ Ha], Hb as [_ Hb], Hoa as [_ Hoa], Hob as [_ Hob].
    destruct (x ?= y); try done. by apply IH.
Qed.

Lemma utf8_no_ff s : utf8_valid s = true -> Forall (fun b => b ≠ 255) s.
Proof.
  remember (length s) as n eqn:Hn. assert (length s <= n)%nat as Hl by lia. clear Hn. revert s Hl.
  assert (Hc : forall b, cont b = true -> b ≠ 255) by (unfold cont; intros b H; apply andb_true_iff in H as [_ H%Z.leb_le]; lia).
  induction n as [|n IH]; intros [|b0 s1] Hl; try done; cbn [length] in Hl; [lia|].
  cbn [utf8_valid]. destruct (Z.ltb_spec b0 128) as [H0|H0].
  { intros H. apply Forall_cons. split; [lia|]. apply IH; [lia|done]. }
  destruct s1 as [|b1 s2]; [done|]. cbn [length] in Hl.
  destruct ((194 <=? b0) && (b0 <=? 223)) eqn:E1.
  { intros [H1 H2]%andb_true_iff. apply andb_true_iff in E1 as [_ E1%Z.leb_le]. apply Forall_cons. split; [lia|].
    apply Forall_cons. split; [by apply Hc|]. apply IH; [lia|done]. }
  destruct s2 as [|b2 s3]; [done|]. cbn [length] in Hl.
  destruct ((224 <=? b0) && (b0 <=? 239)) eqn:E2.
  { intros [[[[H1 _]%andb_true_iff _]%andb_true_iff H2]%andb_true_iff H3]%andb_true_iff.
    apply andb_true_iff in E2 as [_ E2%Z.leb_le]. apply Forall_cons. split; [lia|].
    do 2 (apply Forall_cons; split; [by apply Hc|]). apply IH; [lia|done]. }
  destruct s3 as [|b3 s4]; [done|]. cbn [length] in Hl.
  intros [[[[[[[_ E3%Z.leb_le]%andb_true_iff H1]%andb_true_iff _]%andb_true_iff _]%andb_true_iff H2]%andb_true_iff H3]%andb_true_iff H4]%andb_true_iff.
  apply Forall_cons. split; [lia|]. do 3 (apply Forall_cons; split; [by apply Hc|]). apply IH; [lia|done].
Qed.

(** The decoder finds the end of a string that does not end with the escape byte. *)
Lemma decode_nul_spec b : forall r out i, last b ≠ Some 255 ->
  decode_nul_loop (encode_bytes_nul b ++ r) out i = Ok (out ++ b, i + zlen (encode_bytes_nul b)).
Proof.
  induction b as [|x b IH]; intros r out i Hl.
  - cbn. rewrite app_nil_r. by destruct r.
  - assert (Hl' : last b ≠ Some 255) by (destruct b; [done|by rewrite last_cons_cons in Hl]).
    cbn [encode_bytes_nul]. destruct (Z.eqb_spec x 0) as [->|Hx]; cbn [app decode_nul_loop].
    + cbn. rewrite IH by done. rewrite <-app_assoc. do 2 f_equal. lia.
    + rewrite (proj2 (Z.eqb_neq x 0)) by done.
      assert (Hp : decode_nul_loop (encode_bytes_nul b ++ r) (out ++ [x]) (i + 1) = Ok (out ++ x :: b, i + zlen (x :: encode_bytes_nul b))).
      { rewrite IH by done. rewrite <-app_assoc. do 2 f_equal. cbn [length]. lia. }
      rewrite Hp. destruct b as [|y b]; cbn [encode_bytes_nul app].
      * destruct (Z.eqb_spec x 255) as [->|]; done.
      * destruct (Z.eqb_spec y 0); cbn [app]; [by rewrite andb_false_r|]. by rewrite (proj2 (Z.eqb_neq y 0)), andb_false_r by done.
Qed.

(** ** Values in range *)

Definition text_ok (s : bytes) : Prop := bytes_ok s /\ utf8_valid s = true.

(** What the Rust types guarantee. *)
Definition value_ok (v : Value) : Prop :=
  match v with
  | VInt n | VDate n => in_signed 31 n
  | VBigInt n | VTimestamp n | VTimestampTz n => in_signed 63 n
  | VReal f => in_u64 f
  | VDecimal m s => in_signed 127 m /\ in_u8 s
  | VText s | VJson s | VLtree s | VXml s => text_ok s
  | VBytes b | VJsonb b => bytes_ok b
  | VUuid u => zlen u = 16 /\ bytes_ok u
  | _ => True
  end.

(** ** Order *)

(** NULL comes first; other values compare as [compare_values] says. *)
Definition column_cmp (v w : Value) : option comparison :=
  match v, w with
  | VNull, VNull => Some Eq
  | VNull, _ => Some Lt
  | _, VNull => Some Gt
  | _, _ => match compare_values v w with Some (Ok c) => Some c | _ => None end
  end.

Fixpoint row_cmp (vs ws : list Value) : option comparison :=
  match vs, ws with
  | [], [] => Some Eq
  | v :: vs', w :: ws' => match column_cmp v w with Some Eq => row_cmp vs' ws' | c => c end
  | _, _ => None
  end.

(** Strings without NUL, decimals of one scale. *)
Definition orderable (v w : Value) : Prop :=
  value_ok v /\ value_ok w /\
  match v, w with
  | VText a, VText b | VBytes a, VBytes b => nul_free a /\ nul_free b
  | VDecimal _ s, VDecimal _ s' => s = s'
  | _, _ => True
  end.

Lemma lex_tag t a b r s : lex_cmp ((t :: a) ++ r) ((t :: b) ++ s) = lex_cmp (a ++ r) (b ++ s).
Proof. cbn. by rewrite Z.compare_refl. Qed.

Lemma lex_flip64 a b r s : in_signed 63 a -> in_signed 63 b ->
  lex_cmp (be_bytes 8 (sign_flip 64 a) ++ r) (be_bytes 8 (sign_flip 64 b) ++ s) = match a ?= b with Eq => lex_cmp r s | c => c end.
Proof.
  intros Ha Hb. rewrite lex_app; [by rewrite (be_flip_cmp 8 63) by (done || lia)|].
  pose proof (len_be_bytes 8 (sign_flip 64 a)). pose proof (len_be_bytes 8 (sign_flip 64 b)). lia.
Qed.

Lemma lex_string a b r s : bytes_ok a -> bytes_ok b -> nul_free a -> nul_free b ->
  lex_cmp (encode_bytes_nul a ++ r) (encode_bytes_nul b ++ s) = match lex_cmp a b with Eq => lex_cmp r s | c => c end.
Proof. intros. rewrite !encode_nul_free by done. rewrite <-!app_assoc. cbn [app]. by apply lex_nul. Qed.

Lemma len_encode_f64 f : zlen (encode_f64 f) = 8.
Proof. unfold encode_f64. destruct (f64_is_nan f); [done|]. by apply len_be_bytes. Qed.

Lemma signed_widen n : in_signed 31 n -> in_signed 63 n.
Proof. unfold in_signed. lia. Qed.

Section Keys.
Context {J : JsonbText}.

Lemma encode_value_cmp v w c a b r s : orderable v w -> column_cmp v w = Some c -> encode_value v = Ok a -> encode_value w = Ok b ->
  lex_cmp (a ++ r) (b ++ s) = match c with Eq => lex_cmp r s | Lt => Lt | Gt => Gt end.
Proof.
  intros (Hv & Hw & Ho) Hc Ha Hb.
  destruct v, w; cbn [column_cmp compare_values] in Hc; try discriminate Hc; try discriminate Ha; try discriminate Hb;
    cbn [encode_value] in Ha, Hb; injection Ha as <-; injection Hb as <-;
    try (injection Hc as <-); try reflexivity; cbn [value_ok] in Hv, Hw;
    try (rewrite lex_tag); try (apply lex_flip64; auto using signed_widen); try (apply lex_string; intuition; fail).
  - destruct (f64_partial_cmp bits bits0) as [c'|] eqn:E; [|discriminate Hc]. injection Hc as <-.
    pose proof (len_encode_f64 bits). pose proof (len_encode_f64 bits0).
    rewrite lex_app by lia. by rewrite (encode_f64_cmp _ _ c').
  - destruct Hv as [Hm _], Hw as [Hm' _]. subst scale0. rewrite Z.eqb_refl, lex_tag.
    pose proof (len_be_bytes 16 (sign_flip 128 mantissa)). pose proof (len_be_bytes 16 (sign_flip 128 mantissa0)).
    rewrite lex_app by lia. by rewrite (be_flip_cmp 16 127) by (done || lia).
  - destruct Hv as [Hv _], Hw as [Hw _]. apply lex_string; intuition.
  - destruct Hv as [Hv _], Hw as [Hw _]. apply lex_app. lia.
Qed.

Lemma encode_values_cmp vs : forall ws c a b, Forall2 orderable vs ws -> row_cmp vs ws = Some c ->
  encode_values vs = Ok a -> encode_values ws = Ok b -> lex_cmp a b = c.
Proof.
  induction vs as [|v vs IH]; intros [|w ws] c a b Ho Hc Ha Hb; cbn in Hc; try done.
  - injection Hc as <-. injection Ha as <-. by injection Hb as <-.
  - apply Forall2_cons in Ho as [Ho Hos]. cbn [encode_values] in Ha, Hb.
    destruct (encode_value v) as [a1|] eqn:Ea; [|done]. destruct (encode_values vs) as [a2|] eqn:Eas; [|done]. injection Ha as <-.
    destruct (encode_value w) as [b1|] eqn:Eb; [|done]. destruct (encode_values ws) as [b2|] eqn:Ebs; [|done]. injection Hb as <-.
    destruct (column_cmp v w) as [c1|] eqn:Ec; [|done]. rewrite (encode_value_cmp v w c1) by done.
    destruct c1; [by apply (IH ws)|by injection Hc|by injection Hc].
Qed.

Lemma encode_index_key_inv vs k : encode_index_key vs = Ok k <-> encode_values vs = Ok k /\ zlen k <= MAX_INDEX_KEY.
Proof.
  unfold encode_index_key. destruct (encode_values vs) as [b|e].
  - destruct (Z.ltb_spec MAX_INDEX_KEY (zlen b)); split; [done| |intros [= <-]; done|by intros [[= <-] _]].
    intros [[= <-] Hl]. lia.
  - split; [done|by intros [? _]].
Qed.

(** ** Round trip *)

(** Values of the types that the decoder knows; a byte string must not end with the escape
    byte, which would hide its terminator. *)
Definition storable (v : Value) : Prop :=
  value_ok v /\
  match v with
  | VNull | VBool _ | VInt _ | VBigInt _ | VDecimal _ _ | VDate _ | VTimestamp _ | VTimestampTz _ | VUuid _ | VText _ | VJson _ => True
  | VReal f => f64_is_nan f = false
  | VBytes b => last b ≠ Some 255
  | _ => False
  end.

(** What decoding gives back: the tags of the two timestamp types and of text and JSON are
    shared, and the two zeros have one encoding. *)
Definition canon (v : Value) : Value :=
  match v with
  | VTimestampTz m => VTimestamp m
  | VJson s => VText s
  | VReal f => VReal (f64_canon f)
  | v => v
  end.

Lemma decode_fixed_ok (pre : bytes) t p r n f : zlen p = n ->
  decode_fixed (pre ++ (t :: p) ++ r) (zlen pre) n f = Some (Ok (f p, zlen pre + zlen (t :: p))).
Proof.
  intros Hn. unfold decode_fixed. rewrite !length_app. cbn [length]. rewrite (proj2 (Z.ltb_ge _ _)) by lia.
  rewrite slice_app_r by lia. replace (zlen pre + 1 - zlen pre) with 1 by lia.
  rewrite slice_ok by (cbn [length app]; rewrite ?length_app; lia). cbn [app].
  change (drop (Z.to_nat 1) (t :: p ++ r)) with (p ++ r). rewrite take_app_length' by lia. do 3 f_equal. lia.
Qed.

Lemma decode_string_ok pre t b r f v : last b ≠ Some 255 -> f b = Ok v ->
  decode_string (pre ++ (t :: encode_bytes_nul b) ++ r) (zlen pre) f = Ok (v, zlen pre + zlen (t :: encode_bytes_nul b)).
Proof.
  intros Hl Hf. unfold decode_string. replace (Z.to_nat (zlen pre + 1)) with (length pre + 1)%nat by lia.
  rewrite drop_app_add. change (drop 1 ((t :: encode_bytes_nul b) ++ r)) with (encode_bytes_nul b ++ r). unfold decode_bytes_nul.
  rewrite decode_nul_spec by done. cbn [app]. rewrite Hf. do 2 f_equal. cbn [length]. lia.
Qed.

Lemma text_last s : text_ok s -> last s ≠ Some 255.
Proof.
  intros [_ H%utf8_no_ff] Hl. rewrite Forall_forall in H. apply last_Some_elem_of in Hl. by apply (H 255).
Qed.

Lemma decode_value_at (pre : bytes) t p r : arr_get (pre ++ (t :: p) ++ r) (zlen pre) = Some t /\ (zlen (pre ++ (t :: p) ++ r) <=? zlen pre) = false.
Proof.
  split.
  - rewrite arr_get_ok by lia. rewrite Nat2Z.id, lookup_app_r by lia. by rewrite Nat.sub_diag.
  - apply Z.leb_gt. rewrite !length_app. cbn [length]. lia.
Qed.

Lemma be_unflip w n (k : Z) : w * 8 = k + 1 -> 0 <= k -> in_signed k n ->
  as_signed (k + 1) (Z.lxor (be_val (be_bytes w (sign_flip (k + 1) n))) (2 ^ k)) = n.
Proof.
  intros Hw Hk Hn. rewrite sign_flip_spec by done. unfold in_signed in Hn.
  assert (2 ^ (k + 1) = 2 * 2 ^ k) as E by (rewrite Z.pow_add_r by lia; lia).
  rewrite be_val_be_bytes by (rewrite ?Hw; lia). by apply sign_unflip.
Qed.

Lemma be_unflip64 n : in_signed 63 n -> as_signed 64 (Z.lxor (be_val (be_bytes 8 (sign_flip 64 n))) (2 ^ 63)) = n.
Proof. intros. by apply (be_unflip 8 n 63). Qed.
Lemma be_unflip128 n : in_signed 127 n -> as_signed 128 (Z.lxor (be_val (be_bytes 16 (sign_flip 128 n))) (2 ^ 127)) = n.
Proof. intros. by apply (be_unflip 16 n 127). Qed.
Lemma as_signed32 n : in_signed 31 n -> as_signed 32 n = n.
Proof. intros. by apply (as_signed_id 31). Qed.

(** One branch of the decoder, for a payload of fixed length. *)
Lemma decode_fixed_at (pre : bytes) t p r n f v : zlen p = n -> f p = v ->
  decode_fixed (pre ++ (t :: p) ++ r) (zlen pre) n f = Some (Ok (v, zlen pre + zlen (t :: p))).
Proof. intros Hn <-. by apply decode_fixed_ok. Qed.

Lemma decode_encode_value v b (pre : bytes) r : storable v -> encode_value v = Ok b ->
  decode_value (pre ++ b ++ r) (zlen pre) = Some (Ok (canon v, zlen pre + zlen b)).
Proof.
  intros [Hv Hs] Hb. destruct v; try done; cbn [encode_value] in Hb; injection Hb as <-; cbn [value_ok canon] in *;
    unfold decode_value; match goal with |- context [pre ++ (?t :: ?p) ++ r] => destruct (decode_value_at pre t p r) as [Ht Hl] end;
    rewrite Ht, Hl; clear Ht Hl.
  - done.
  - apply decode_fixed_at; [done|]. by destruct b0.
  - apply decode_fixed_at; [by apply len_be_bytes|]. by rewrite be_unflip64, as_signed32 by auto using signed_widen.
  - apply decode_fixed_at; [by apply len_be_bytes|]. by rewrite be_unflip64.
  - apply decode_fixed_at; [by apply len_encode_f64|]. by rewrite decode_encode_f64.
  - destruct Hv as [Hm Hsc]. apply decode_fixed_at; [cbn [length]; pose proof (len_be_bytes 16 (sign_flip 128 mantissa)); lia|].
    change (drop 1 (scale :: be_bytes 16 (sign_flip 128 mantissa))) with (be_bytes 16 (sign_flip 128 mantissa)).
    rewrite be_unflip128 by done. f_equal. unfold be_val, le_val. cbn. apply Z.lor_0_r.
  - f_equal. apply decode_string_ok; [by apply text_last|]. by rewrite (proj2 Hv).
  - f_equal. by apply decode_string_ok.
  - apply decode_fixed_at; [by apply len_be_bytes|]. by rewrite be_unflip64, as_signed32 by auto using signed_widen.
  - apply decode_fixed_at; [by apply len_be_bytes|]. by rewrite be_unflip64.
  - apply decode_fixed_at; [by apply len_be_bytes|]. by rewrite be_unflip64.
  - apply decode_fixed_at; [apply Hv|done].
  - f_equal. apply decode_string_ok; [by apply text_last|]. by rewrite (proj2 Hv).
Qed.

Lemma encode_value_cons v b : encode_value v = Ok b -> exists t p, b = t :: p.
Proof. destruct v; intros [= <-]; eauto. Qed.

Lemma decode_encode_values vs : forall (pre : bytes) b r acc, Forall storable vs -> encode_values vs = Ok b ->
  decode_values (length vs) (pre ++ b ++ r) (zlen pre) acc = Some (Ok (acc ++ (canon <$> vs), zlen pre + zlen b)).
Proof.
  induction vs as [|v vs IH]; intros pre b r acc Hs Hb; cbn [encode_values] in Hb.
  - injection Hb as <-. cbn. rewrite app_nil_r. do 3 f_equal. lia.
  - apply Forall_cons in Hs as [Hv Hs]. destruct (encode_value v) as [b1|] eqn:E1; [|done].
    destruct (encode_values vs) as [b2|] eqn:E2; [|done]. injection Hb as <-. cbn [length decode_values].
    destruct (encode_value_cons v b1 E1) as (t & p & Hp). rewrite (proj2 (Z.leb_gt _ _)).
    2:{ subst b1. rewrite !length_app. cbn [length]. lia. }
    rewrite <-app_assoc. rewrite (decode_encode_value v b1) by done.
    replace (zlen pre + zlen b1) with (zlen (pre ++ b1)) by (rewrite length_app; lia).
    rewrite (app_assoc pre b1), (IH (pre ++ b1) b2) by done. rewrite <-app_assoc, !length_app. cbn [app fmap list_fmap]. do 3 f_equal. lia.
Qed.

Lemma decode_index_key_ok vs b r : Forall storable vs -> encode_values vs = Ok b ->
  decode_index_key (b ++ r) (length vs) = Some (Ok (canon <$> vs, zlen b)).
Proof. exact (decode_encode_values vs [] b r []). Qed.

(** No key is a proper prefix of the key of other values. *)
Lemma encode_prefix_free vs ws a b r : length vs = length ws -> Forall storable vs -> Forall storable ws ->
  encode_values vs = Ok a -> encode_values ws = Ok b -> a `prefix_of` b ++ r -> canon <$> vs = canon <$> ws.
Proof.
  intros Hl Hv Hw Ha Hb [k Hk]. pose proof (decode_index_key_ok vs a k Hv Ha) as H1.
  rewrite <-Hk, Hl, (decode_index_key_ok ws b r Hw Hb) in H1.
  by injection H1 as ->.
Qed.

(** Values that decode alike have the same encoding. *)
Lemma encode_canon v : value_ok v -> encode_value (canon v) = encode_value v.
Proof.
  destruct v; intros Hv; cbn [canon]; try done. cbn [encode_value]. unfold f64_canon. by destruct (Z.eqb_spec bits (2 ^ 63)) as [->|].
Qed.

Lemma encode_values_canon vs : Forall value_ok vs -> encode_values (canon <$> vs) = encode_values vs.
Proof. induction 1 as [|v vs Hv _ IH]; [done|]. cbn. by rewrite encode_canon, IH. Qed.

(** C25: for rows of values of the same types, with strings free of NUL bytes and decimals of
    one scale, the order of the encoded keys is the order of the rows: column by column,
    NULL first, and as SQL compares the values, doubles included. *)
Theorem index_key_order vs ws c kv kw :
  Forall2 orderable vs ws -> row_cmp vs ws = Some c -> encode_index_key vs = Ok kv -> encode_index_key ws = Ok kw ->
  lex_cmp kv kw = c.
Proof.
  intros Ho Hc [Ha _]%encode_index_key_inv [Hb _]%encode_index_key_inv. by eapply encode_values_cmp.
Qed.

(** C26: for a row of storable values (NULL, booleans, integers, decimals, dates,
    timestamps with or without zone, UUIDs, text and JSON text in UTF-8, reals other than
    NaN, byte strings that do not end with the byte FF; not ltree, XML, JSONB or arrays),
    decoding its key gives back the values and the key's exact length, whatever bytes
    follow it.  A timestamp with zone comes back without one, JSON text as text and the
    negative zero as the positive one.  So the key of a storable row is a prefix of the key
    of another one with as many columns only when the two rows agree up to these. *)
Theorem index_key_roundtrip vs k rest :
  Forall storable vs -> encode_index_key vs = Ok k ->
  decode_index_key (k ++ rest) (length vs) = Some (Ok (canon <$> vs, zlen k)) /\
  forall ws k' rest', length ws = length vs -> Forall storable ws -> encode_index_key ws = Ok k' -> k `prefix_of` k' ++ rest' ->
    canon <$> vs = canon <$> ws.
Proof.
  intros Hs [Hk _]%encode_index_key_inv. split.
  - by apply decode_index_key_ok.
  - intros ws k' rest' Hl Hw [Hk' _]%encode_index_key_inv Hp. by eapply encode_prefix_free.
Qed.
End Keys.

(** A printer of JSONB for the examples. *)
#[local] Instance no_jsonb : JsonbText := fun _ => None.

(** minus one and a half, and two *)
Definition sample_row1 : list Value := [VInt (-5); VReal 0xBFF8000000000000; VText [97; 98]].
Definition sample_row2 : list Value := [VInt (-5); VReal 0x4000000000000000; VText [97]].

Lemma index_key_order_witness :
  exists k1 k2, encode_index_key sample_row1 = Ok k1 /\ encode_index_key sample_row2 = Ok k2 /\ lex_cmp k1 k2 = Lt.
Proof.
  eexists _, _. do 2 (split; [vm_compute; reflexivity|]).
  apply (index_key_order sample_row1 sample_row2); [|vm_compute; reflexivity..].
  repeat constructor; vm_compute; (congruence || lia || done).
Defined.

Lemma index_key_roundtrip_witness :
  exists k, encode_index_key sample_row1 = Ok k /\ decode_index_key (k ++ [7]) 3 = Some (Ok (sample_row1, zlen k)).
Proof.
  eexists. split; [vm_compute; reflexivity|].
  refine (proj1 (index_key_roundtrip sample_row1 _ [7] _ _)); [|vm_compute; reflexivity].
  repeat constructor; vm_compute; (congruence || lia || done).
Defined.

(** Where the encoding does not do what it is meant to.  Two different rows of two byte
    strings have the same key; the key of the byte string FF is a prefix of the key of 00 and
    does not decode; a text that starts with NUL sorts after [a]; 0.5 sorts after 1 when the
    scales of the decimals differ; a value of type ltree is encoded but does not decode. *)
Theorem index_key_encoding_broken :
  encode_index_key [VBytes [255]; VBytes [0; 9]] = encode_index_key [VBytes [0; 9; 255]; VBytes []] /\
  (exists k, encode_index_key [VBytes [255]] = Ok k /\ decode_index_key k 1 = Some (Err ParseError) /\
     encode_index_key [VBytes [0]] = Ok (k ++ [0])) /\
  (exists k1 k2, encode_index_key [VText [0]] = Ok k1 /\ encode_index_key [VText [97]] = Ok k2 /\
     compare_values (VText [0]) (VText [97]) = Some (Ok Lt) /\ lex_cmp k1 k2 = Gt) /\
  (exists k1 k2, encode_index_key [VDecimal 5 1] = Ok k1 /\ encode_index_key [VDecimal 1 0] = Ok k2 /\
     compare_values (VDecimal 5 1) (VDecimal 1 0) = Some (Ok Lt) /\ lex_cmp k1 k2 = Gt) /\
  (exists k, encode_index_key [VLtree [97]] = Ok k /\ decode_index_key k 1 = Some (Err ParseError)).
Proof.
  split; [vm_compute; reflexivity|].
  split; [eexists; split; [vm_compute; reflexivity|]; split; vm_compute; reflexivity|].
  do 2 (split; [eexists _, _; do 2 (split; [vm_compute; reflexivity|]); split; vm_compute; reflexivity|]).
  eexists. split; [vm_compute; reflexivity|]. vm_compute. reflexivity.
Qed.

(** Comparing decimals whose scales differ by 39 takes 1 for less than 10^-39: the factor
    that aligns the scales is [10i128.pow(39)], which does not fit. *)
Theorem decimal_comparison_overflows :
  compare_values (VDecimal 1 0) (VDecimal 1 39) = Some (Ok Lt) /\ compare_values (VDecimal 1 0) (VDecimal 1 38) = Some (Ok Gt).
Proof. split; vm_compute; reflexivity. Qed.
