(* ===== verification/IndexScan.v ===== *)
(** * Lookups in secondary indexes

    The helpers of crates/axiomdb-sql/src/index_maintenance.rs that build the entries of a
    secondary index and scan it: the key of an entry is the encoding of the indexed values,
    followed by that of the included columns and, unless the index is unique, by the row
    identifier.  A lookup is a range scan over the B+tree between the logical key and the
    largest key that extends it.  Of the index definition only the flags and the numbers of
    columns are used. *)

From S2P Require Import Prelude SlotBitmap Page FreeList Storage PageIo ByteOrder BTreeNode BTree BTreeRep BTreeSplit BTreeStep BTreeInsert BTreeMove BTreeRange KeyEncoding.

Section Keys.
Context {J : JsonbText}.

Definition fk_composite_key (fk_val : Value) (rid : RecordId) : Result bytes :=
  match encode_index_key [fk_val] with Err e => Err e | Ok key => Ok (key ++ encode_rid rid) end.

Definition fk_key_range (fk_val : Value) : Result (bytes * bytes) :=
  match encode_index_key [fk_val] with
  | Err e => Err e
  | Ok prefix => Ok (prefix ++ replicate 10 0, prefix ++ replicate 10 255)
  end.

Definition combine_encoded_index_bytes (key_vals include_vals : list Value) (rid_suffix : option RecordId) : Result bytes :=
  match encode_index_key key_vals with
  | Err e => Err e
  | Ok key =>
      match (if bool_decide (include_vals = []) then Ok [] else encode_index_key include_vals) with
      | Err e => Err e
      | Ok inc =>
          let key := key ++ inc in
          let key := match rid_suffix with Some rid => key ++ encode_rid rid | None => key end in
          if MAX_INDEX_KEY <? zlen key then Err (IndexKeyTooLong (zlen key) MAX_INDEX_KEY) else Ok key
      end
  end.

Definition encode_secondary_entry_key (is_fk_index is_unique : bool) (key_vals include_vals : list Value) (rid : RecordId)
    : Result bytes :=
  combine_encoded_index_bytes key_vals include_vals (if is_fk_index || negb is_unique then Some rid else None).

Definition logical_key_upper_bound (prefix : bytes) : bytes :=
  if zlen prefix <? MAX_INDEX_KEY then prefix ++ replicate (Z.to_nat (MAX_INDEX_KEY - zlen prefix)) 255 else prefix ++ [255].

Definition decode_secondary_entry_values (columns include_columns : nat) (key : bytes) : option (Result (list Value * list Value)) :=
  let! r := decode_index_key key columns in
  match r with
  | Err e => Some (Err e)
  | Ok (key_vals, consumed) =>
      if (include_columns =? 0)%nat then Some (Ok (key_vals, []))
      else
        let! r' := decode_index_key (drop (Z.to_nat consumed) key) include_columns in
        match r' with
        | Err e => Some (Err e)
        | Ok (include_vals, _) => Some (Ok (key_vals, include_vals))
        end
  end.
End Keys.

Section Scans.
Context {St : Type} {C : Crc32c} {E : StorageEngine St}.

Definition prefix_scan_secondary_entries (fuel scan : nat) (root : Z) (logical_key : bytes) : M St (list (RecordId * bytes)) :=
  range_in fuel scan root (Some logical_key) (Some (logical_key_upper_bound logical_key)).

Definition lookup_secondary_rids_by_logical_key (fuel scan : nat) (root : Z) (logical_key : bytes) : M St (list RecordId) :=
  do! es := prefix_scan_secondary_entries fuel scan root logical_key in io_ret es.*1.

(** The scan of an index on a foreign key, as the checks of fk_enforcement.rs run it. *)
Definition fk_scan {J : JsonbText} (fuel scan : nat) (root : Z) (fk_val : Value) : M St (list (RecordId * bytes)) :=
  match fk_key_range fk_val with
  | Err e => io_fail e
  | Ok (lo, hi) => range_in fuel scan root (Some lo) (Some hi)
  end.
End Scans.

(** ** Keys between a prefix and its upper bound *)

Lemma lex_common p a b : lex_cmp (p ++ a) (p ++ b) = lex_cmp a b.
Proof. by rewrite lex_app, lex_cmp_refl. Qed.

Lemma ble_app p a : ble p (p ++ a).
Proof. unfold ble. rewrite <-(app_nil_r p) at 1. rewrite lex_common. by destruct a. Qed.

Lemma between_prefix p h k : ble p k -> ble k (p ++ h) -> p `prefix_of` k.
Proof.
  unfold ble. revert k. induction p as [|x p IH]; intros k; [intros; apply prefix_nil|].
  destruct k as [|y k]; cbn; [done|]. rewrite (Z.compare_antisym x y).
  destruct (Z.compare_spec x y) as [->|H|H]; cbn; try done. intros H1 H2. apply prefix_cons. by apply IH.
Qed.

Lemma ble_ff t n : bytes_ok t -> (length t <= n)%nat -> ble t (replicate n 255).
Proof.
  unfold ble, bytes_ok, byte_ok. revert n. induction t as [|b t IH]; intros [|n] Hb Hl; cbn [length] in Hl; try done; [lia|].
  apply Forall_cons in Hb as [Hb Ht]. cbn. destruct (Z.compare_spec b 255); try done; [|lia]. apply IH; [done|lia].
Qed.

Lemma ble_00 t n : bytes_ok t -> (n <= length t)%nat -> ble (replicate n 0) t.
Proof.
  unfold ble, bytes_ok, byte_ok. revert n. induction t as [|b t IH]; intros [|n] Hb Hl; cbn [length] in Hl; try done; [lia|].
  apply Forall_cons in Hb as [Hb Ht]. cbn [replicate lex_cmp]. destruct (Z.compare_spec 0 b); try done; [|lia]. apply IH; [done|lia].
Qed.

(** The keys a lookup scans are those that extend the logical key. *)
Lemma upper_bound_prefix p k : bytes_ok k -> zlen k <= MAX_INDEX_KEY -> zlen p <= MAX_INDEX_KEY ->
  ble p k /\ ble k (logical_key_upper_bound p) <-> p `prefix_of` k.
Proof.
  intros Hb Hk Hp. unfold logical_key_upper_bound. split.
  - intros [H1 H2]. destruct (zlen p <? MAX_INDEX_KEY); by eapply between_prefix.
  - intros [t ->]. split; [apply ble_app|]. apply Forall_app in Hb as [_ Hb]. rewrite length_app in Hk.
    destruct (Z.ltb_spec (zlen p) MAX_INDEX_KEY); unfold ble; rewrite lex_common; [apply ble_ff; [done|lia]|].
    destruct t; cbn [length] in Hk; [done|lia].
Qed.

(** The keys a foreign key scan finds extend the encoded value by ten bytes. *)
Lemma fk_range_prefix p k : bytes_ok k -> (p `prefix_of` k -> zlen k = zlen p + 10) ->
  ble (p ++ replicate 10 0) k /\ ble k (p ++ replicate 10 255) <-> p `prefix_of` k.
Proof.
  intros Hb Hl. split.
  - intros [H1 H2]. eapply between_prefix; [|exact H2]. pose proof (ble_app p (replicate 10 0)). border.
  - intros [t ->]. specialize (Hl (prefix_app_r _ _ _ (reflexivity p))). rewrite length_app in *. apply Forall_app in Hb as [_ Hb].
    unfold ble. rewrite !lex_common. split; [apply ble_00|apply ble_ff]; (done || lia).
Qed.

(** ** What an index holds *)

(** A row as the index sees it. *)
Record index_row : Type := mkIrow { ir_vals : list Value; ir_incl : list Value; ir_rid : RecordId }.

Section Scan.
Context {J : JsonbText} {St : Type} {C : Crc32c} {E : StorageEngine St} {L : StorageLaws St}.

(** The entry of a row. *)
Record entry_of (is_fk is_unique : bool) (n : nat) (e : entry) (row : index_row) : Prop := {
  eo_key : encode_secondary_entry_key is_fk is_unique (ir_vals row) (ir_incl row) (ir_rid row) = Ok e.1;
  eo_rid : e.2 = ir_rid row;
  eo_bytes : bytes_ok e.1;
  eo_vals : Forall storable (ir_vals row);
  eo_len : length (ir_vals row) = n
}.

Lemma combine_inv vs inc o k : combine_encoded_index_bytes vs inc o = Ok k ->
  exists a b, encode_values vs = Ok a /\ encode_values inc = Ok b /\ zlen k <= MAX_INDEX_KEY /\
    k = a ++ b ++ match o with Some rid => encode_rid rid | None => [] end.
Proof.
  unfold combine_encoded_index_bytes. destruct (encode_index_key vs) as [a|] eqn:Ea; [|done].
  apply encode_index_key_inv in Ea as [Ea _].
  assert (Hi : forall b, (if bool_decide (inc = []) then Ok [] else encode_index_key inc) = Ok b -> encode_values inc = Ok b).
  { intros b. case_bool_decide as Hn; [by subst|]. by intros [Hb _]%encode_index_key_inv. }
  destruct (if bool_decide (inc = []) then _ else _) as [b|]; [|done]. specialize (Hi b eq_refl).
  destruct (Z.ltb_spec MAX_INDEX_KEY (zlen (match o with Some rid => (a ++ b) ++ encode_rid rid | None => a ++ b end))); [done|].
  intros [= <-]. exists a, b. do 3 (split; [done|]). destruct o; [by rewrite app_assoc|by rewrite app_nil_r].
Qed.

(** An entry extends a logical key exactly when its row has the values of the key. *)
Lemma entry_extends is_fk is_unique n e row q lk : entry_of is_fk is_unique n e row ->
  Forall storable q -> length q = n -> encode_index_key q = Ok lk ->
  lk `prefix_of` e.1 <-> canon <$> ir_vals row = canon <$> q.
Proof.
  intros [Hk _ _ Hs Hn] Hq Hl [Hlk _]%encode_index_key_inv. apply combine_inv in Hk as (a & b & Ha & _ & _ & ->). split.
  - intros Hp. symmetry. eapply encode_prefix_free; [by rewrite Hl| | | |exact Ha|exact Hp]; done.
  - intros Hc. assert (Forall value_ok (ir_vals row) /\ Forall value_ok q) as [H1 H2].
    { split; eapply Forall_impl; [exact Hs| |exact Hq|]; by intros v [? _]. }
    rewrite <-encode_values_canon in Ha, Hlk by done. rewrite Hc, Hlk in Ha. injection Ha as <-. apply prefix_app_r, reflexivity.
Qed.

(** Scanning entries is selecting rows. *)
Lemma scan_rows (P : entry -> Prop) `{forall e, Decision (P e)} (Q : index_row -> Prop) (R : entry -> index_row -> Prop) es rows :
  (forall e row, R e row -> e.2 = ir_rid row /\ (P e <-> Q row)) -> Forall2 R es rows ->
  exists sel, (filter P es).*2 = ir_rid <$> sel /\ sel `sublist_of` rows /\ forall row, row ∈ rows -> row ∈ sel <-> Q row.
Proof.
  intros HR. induction 1 as [|e row es rows Her Hrest (sel & Hsel & Hsub & Hin)].
  - exists []. split; [done|]. split; [constructor|]. intros row Hr. by apply not_elem_of_nil in Hr.
  - destruct (HR e row Her) as [Hrid HQ]. rewrite filter_cons. case_decide as HP.
    + exists (row :: sel). split; [cbn; by rewrite Hrid, Hsel|]. split; [by constructor|].
      intros r [->|Hr]%elem_of_cons; [split; [by intros _; apply HQ|by left]|]. rewrite elem_of_cons, (Hin r Hr).
      split; [|by right]. intros [->|?]; [by apply HQ|done].
    + exists sel. split; [done|]. split; [by constructor|]. intros r [->|Hr]%elem_of_cons; [|by apply Hin].
      split; [|by intros ?%HQ]. intros Hs. apply Hin; [|done]. by eapply elem_of_sublist.
Qed.

(** The scans of an index over the rows it holds. *)
Lemma range_in_rows (x : Io St) h root fp ls lo hi fuel scan :
  io_wf x -> tree_at (vw x) h root fp ls -> chain ls NULL_PAGE -> (h < fuel)%nat -> (length (ents ls) + length ls < scan)%nat ->
  range_in fuel scan root (Some lo) (Some hi) x =
    Some (Ok ((fun e => (e.2, e.1)) <$> filter (in_range (Included lo) (Included hi)) (ents ls)), x).
Proof. intros. rewrite range_in_range. by eapply range_scan. Qed.

Lemma swap_rids (es : list entry) : ((fun e : entry => (e.2, e.1)) <$> es).*1 = es.*2.
Proof. induction es as [|e es IH]; [done|]. cbn. by rewrite IH. Qed.

(** C24: take an index whose tree has all its leaves linked and holds the entries of some
    rows, in order, and a logical key that encodes as many values as the index has columns,
    the values of the rows and of the key being storable (no NaN, no byte string that ends
    with the byte FF, no ltree, XML, JSONB or array), with fuel for the height of the tree
    and for its entries.  A lookup by the key returns the identifiers of exactly the rows
    with the values of the key, in the order of the index, and changes nothing; and every
    entry whose included values are storable decodes to the values of its row.  Values are
    taken up to what the encoding merges (zones of timestamps, JSON and text, the two
    zeros). *)
Theorem index_lookup_exact (x : Io St) h root fp ls is_fk is_unique n rows q lk fuel scan :
  io_wf x -> tree_at (vw x) h root fp ls -> chain ls NULL_PAGE -> (h < fuel)%nat -> (length (ents ls) + length ls < scan)%nat ->
  Forall2 (entry_of is_fk is_unique n) (ents ls) rows ->
  Forall storable q -> length q = n -> encode_index_key q = Ok lk ->
  (exists sel, lookup_secondary_rids_by_logical_key fuel scan root lk x = Some (Ok (ir_rid <$> sel), x) /\
     sel `sublist_of` rows /\ forall row, row ∈ rows -> row ∈ sel <-> canon <$> ir_vals row = canon <$> q) /\
  Forall2 (fun e row => Forall storable (ir_incl row) ->
    decode_secondary_entry_values n (length (ir_incl row)) e.1 = Some (Ok (canon <$> ir_vals row, canon <$> ir_incl row)))
    (ents ls) rows.
Proof.
  intros Hwf Ht Hch Hh Hscan Hrows Hq Hl Hlk. split.
  - pose proof Hlk as [Hlk' Hlen]%encode_index_key_inv.
    edestruct (scan_rows (in_range (Included lk) (Included (logical_key_upper_bound lk)))
      (fun row => canon <$> ir_vals row = canon <$> q) (entry_of is_fk is_unique n)) as (sel & Hsel & Hsub & Hin); [|exact Hrows|].
    { intros e row He. split; [apply He|]. rewrite <-(entry_extends _ _ _ _ _ q lk He) by done. unfold in_range, above, below.
      apply upper_bound_prefix; [apply He| |done]. destruct He as [Hk _ _ _ _]. by apply combine_inv in Hk as (_ & _ & _ & _ & ? & _). }
    exists sel. split; [|done]. unfold lookup_secondary_rids_by_logical_key, prefix_scan_secondary_entries, io_bind.
    rewrite (range_in_rows x h root fp ls) by done. cbn [io_ret]. by rewrite swap_rids, Hsel.
  - eapply Forall2_impl; [exact Hrows|]. intros e row [Hk _ _ Hs Hn] Hi. apply combine_inv in Hk as (a & b & Ha & Hb & _ & ->).
    unfold decode_secondary_entry_values. rewrite <-Hn, decode_index_key_ok by done.
    destruct (ir_incl row) as [|v incl] eqn:Ei; [done|]. rewrite <-Ei in *.
    replace (length (ir_incl row) =? 0)%nat with false by by rewrite Ei.
    by rewrite Nat2Z.id, drop_app_length, decode_index_key_ok.
Qed.

(** The entry of a row in an index on a foreign key. *)
Definition fk_entry_of (e : entry) (row : index_row) : Prop :=
  exists v, ir_vals row = [v] /\ storable v /\ fk_composite_key v (ir_rid row) = Ok e.1 /\ e.2 = ir_rid row /\ bytes_ok e.1.

Lemma fk_entry_range e row v p : fk_entry_of e row -> storable v -> encode_index_key [v] = Ok p ->
  in_range (Included (p ++ replicate 10 0)) (Included (p ++ replicate 10 255)) e <-> canon <$> ir_vals row = [canon v].
Proof.
  intros (w & Hw & Hsw & Hk & _ & Hb) Hv Hp. unfold fk_composite_key in Hk. destruct (encode_index_key [w]) as [a|] eqn:Ea; [|done].
  injection Hk as Hk. apply encode_index_key_inv in Ea as [Ea _], Hp as [Hp _]. rewrite Hw.
  assert (Hpre : p `prefix_of` e.1 -> canon w = canon v).
  { intros Hpre. rewrite <-Hk in Hpre. assert (canon <$> [v] = canon <$> [w]) as [= ->]; [|done].
    eapply encode_prefix_free; [done|by constructor|by constructor|exact Hp|exact Ea|exact Hpre]. }
  assert (Heq : canon w = canon v -> a = p).
  { intros Hc. rewrite <-encode_values_canon in Ea, Hp by (constructor; [apply Hsw || apply Hv|done]). cbn [fmap list_fmap] in Ea, Hp.
    rewrite Hc in Ea. congruence. }
  unfold in_range, above, below. rewrite fk_range_prefix; [|done|].
  - cbn [fmap list_fmap]. split; [by intros ->%Hpre|]. intros [= Hc]. rewrite <-Hk, <-(Heq Hc). apply prefix_app_r, reflexivity.
  - intros Hc%Hpre%Heq. rewrite <-Hk, Hc, length_app. unfold encode_rid. rewrite length_app, !length_le_bytes by lia. lia.
Qed.

(** The scan of an index on a foreign key finds exactly the rows that refer to the value. *)
Theorem fk_scan_exact (x : Io St) h root fp ls rows v p fuel scan :
  io_wf x -> tree_at (vw x) h root fp ls -> chain ls NULL_PAGE -> (h < fuel)%nat -> (length (ents ls) + length ls < scan)%nat ->
  Forall2 fk_entry_of (ents ls) rows -> storable v -> encode_index_key [v] = Ok p ->
  exists es sel, fk_scan fuel scan root v x = Some (Ok es, x) /\ es.*1 = ir_rid <$> sel /\ sel `sublist_of` rows /\
    forall row, row ∈ rows -> row ∈ sel <-> canon <$> ir_vals row = [canon v].
Proof.
  intros Hwf Ht Hch Hh Hscan Hrows Hv Hp. unfold fk_scan, fk_key_range. rewrite Hp, (range_in_rows x h root fp ls) by done.
  eexists. edestruct (scan_rows (in_range (Included (p ++ replicate 10 0)) (Included (p ++ replicate 10 255)))
    (fun row => canon <$> ir_vals row = [canon v]) fk_entry_of) as (sel & Hsel & Hsub & Hin); [|exact Hrows|].
  - intros e row He. split; [by destruct He as (? & _ & _ & _ & ? & _)|by apply fk_entry_range].
  - exists sel. split; [done|]. split; [by rewrite swap_rids|done].
Qed.
End Scan.

#[local] Existing Instance crc32c_ref.
#[local] Existing Instance crc32c_ref_range.
#[local] Instance no_jsonb_text : JsonbText := fun _ => None.

Definition sample_entry_row : index_row := mkIrow [VInt 5] [VText [97]] (mkRid 7 3).

Lemma index_lookup_exact_witness :
  exists (x : Io MemoryStorage) root scan lk, encode_index_key [VInt 5] = Ok lk /\
    lookup_secondary_rids_by_logical_key 2 scan root lk x = Some (Ok [mkRid 7 3], x).
Proof.
  destruct (encode_secondary_entry_key false false [VInt 5] [VText [97]] (mkRid 7 3)) as [k|] eqn:Ek; [|vm_compute in Ek; discriminate Ek].
  assert (Hk : key_ok k /\ bytes_ok k).
  { vm_compute in Ek. injection Ek as <-. split; [split; [vm_compute; split; congruence|]|]; repeat constructor; vm_compute; congruence. }
  destruct Hk as [Hk Hb]. destruct (sample_tree_with k (mkRid 7 3) Hk) as (x & root & h & fp & ls & Hwf & Ht & Hh & _ & Hm & Hc);
    [split; cbn; widths|].
  pose proof (sole_entry ls k _ Hm ltac:(by eapply tree_nodup, Ht)) as He.
  destruct (encode_index_key [VInt 5]) as [lk|] eqn:Elk; [|vm_compute in Elk; discriminate Elk].
  exists x, root, (S (length (ents ls) + length ls)), lk. split; [done|].
  destruct (index_lookup_exact x h root fp ls false false 1 [sample_entry_row] [VInt 5] lk 2 (S (length (ents ls) + length ls)))
    as [(sel & Hs & Hsub & Hin) _]; try done; [lia|lia| |by repeat constructor|].
  - rewrite He. constructor; [|done]. split; [exact Ek|done|done|by repeat constructor|done].
  - rewrite Hs. destruct (Hin sample_entry_row ltac:(by left)) as [_ Hsel]. specialize (Hsel eq_refl).
    apply sublist_cons_r in Hsub as [->%sublist_nil_r|(l & -> & ->%sublist_nil_r)]; [by apply not_elem_of_nil in Hsel|done].
Defined.

(** *** A false duplicate *)

(** The checksum plays no role here. *)
#[local] Instance crc32c_none : Crc32c := fun _ => 0.

(** The keys as a unique index stores them. *)
Definition false_duplicate : option (list RecordId) :=
  let! s := mem_new in
  match encode_secondary_entry_key false true [VBytes [0]] [] (mkRid 7 3), encode_index_key [VBytes [255]] with
  | Ok key, Ok logical_key =>
      match (do! root := btree_new in
             do! root := insert_in_with_batch 1 root key (mkRid 7 3) 90 in
             lookup_secondary_rids_by_logical_key 1 10 root logical_key) (mkIo None s) with
      | Some (Ok rids, _) => Some rids
      | _ => None
      end
  | _, _ => None
  end.

(** In a unique index that holds the byte string 00 only, the range of keys that is scanned
    for duplicates of the byte string FF has that row in it. *)
Theorem unique_check_false_duplicate : false_duplicate = Some [mkRid 7 3].
Proof. vm_compute. reflexivity. Qed.
