(* ===== verification/WalEntry.v ===== *)
(** * WAL entries

    crates/axiomdb-wal/src/entry.rs: the binary format of a write-ahead log record,
    with its checksum and the length copy that lets the log be read backwards.
    [None] is a panic (an index out of bounds). *)

From S2P Require Import Prelude Page.

Definition FIXED_HEADER : Z := 27.
Definition MIN_ENTRY_LEN : Z := 43.

Inductive EntryType : Type :=
| Begin | Commit | Rollback | Insert | Delete | Update | Checkpoint | Truncate
| PageWrite | UpdateInPlace | PageDelete
| ClusteredInsert | ClusteredDeleteMark | ClusteredUpdate | ClusteredFieldPatch.

#[export] Instance EntryType_eq_dec : EqDecision EntryType.
Proof. solve_decision. Defined.

(** [entry_type as u8] *)
Definition entry_type_code (t : EntryType) : Z :=
  match t with
  | Begin => 1 | Commit => 2 | Rollback => 3 | Insert => 4 | Delete => 5 | Update => 6
  | Checkpoint => 7 | Truncate => 8 | PageWrite => 9 | UpdateInPlace => 10 | PageDelete => 11
  | ClusteredInsert => 12 | ClusteredDeleteMark => 13 | ClusteredUpdate => 14
  | ClusteredFieldPatch => 15
  end.

Definition entry_type_try_from (byte : Z) : Result EntryType :=
  match byte with
  | 1 => Ok Begin | 2 => Ok Commit | 3 => Ok Rollback | 4 => Ok Insert | 5 => Ok Delete
  | 6 => Ok Update | 7 => Ok Checkpoint | 8 => Ok Truncate | 9 => Ok PageWrite
  | 10 => Ok UpdateInPlace | 11 => Ok PageDelete | 12 => Ok ClusteredInsert
  | 13 => Ok ClusteredDeleteMark | 14 => Ok ClusteredUpdate | 15 => Ok ClusteredFieldPatch
  | _ => Err (WalUnknownEntryType byte)
  end.

Record WalEntry : Type := mkWal {
  lsn : Z;
  txn_id : Z;
  entry_type : EntryType;
  table_id : Z;
  key : bytes;
  old_value : bytes;
  new_value : bytes
}.

#[export] Instance WalEntry_eq_dec : EqDecision WalEntry.
Proof. solve_decision. Defined.

Definition serialized_len (e : WalEntry) : Z :=
  MIN_ENTRY_LEN + zlen (key e) + zlen (old_value e) + zlen (new_value e).

Section Codec.
Context {C : Crc32c}.

(** The fields before the checksum, as both serializers append them. *)
Definition wal_fields (e : WalEntry) : bytes :=
  le_bytes 4 (wrap32 (serialized_len e))
  ++ le_bytes 8 (lsn e)
  ++ le_bytes 8 (txn_id e)
  ++ [entry_type_code (entry_type e)]
  ++ le_bytes 4 (table_id e)
  ++ le_bytes 2 (wrap16 (zlen (key e)))
  ++ key e
  ++ le_bytes 4 (wrap32 (zlen (old_value e)))
  ++ old_value e
  ++ le_bytes 4 (wrap32 (zlen (new_value e)))
  ++ new_value e.

Definition to_bytes (e : WalEntry) : bytes :=
  let buf := wal_fields e in
  let crc := crc32c buf in
  buf ++ le_bytes 4 crc ++ le_bytes 4 (wrap32 (serialized_len e)).

(** Appends to [buf]; the checksum covers the bytes from [start] on. *)
Definition serialize_into (e : WalEntry) (buf : bytes) : bytes :=
  let start := length buf in
  let buf := buf ++ wal_fields e in
  let crc := crc32c (drop start buf) in
  let buf := buf ++ le_bytes 4 crc in
  buf ++ le_bytes 4 (wrap32 (serialized_len e)).

Definition from_bytes (buf : bytes) : option (Result (WalEntry * Z)) :=
  if zlen buf <? 4 then Some (Err (WalEntryTruncated 0))
  else
  let! entry_len := read_le 0 4 buf in
  if zlen buf <? entry_len then Some (Err (WalEntryTruncated 0))
  else if entry_len <? MIN_ENTRY_LEN then Some (Err (WalEntryTruncated 0))
  else
  let! lsn := read_le 4 8 buf in
  let! txn_id := read_le 12 8 buf in
  let! ty := read_le 20 1 buf in
  match entry_type_try_from ty with
  | Err e => Some (Err e)
  | Ok entry_type =>
  let! table_id := read_le 21 4 buf in
  let! key_len := read_le 25 2 buf in
  let pos := FIXED_HEADER in
  if entry_len <? pos + key_len then Some (Err (WalEntryTruncated lsn))
  else
  let! key := slice pos key_len buf in
  let pos := pos + key_len in
  if entry_len <? pos + 4 then Some (Err (WalEntryTruncated lsn))
  else
  let! old_val_len := read_le pos 4 buf in
  let pos := pos + 4 in
  if entry_len <? pos + old_val_len then Some (Err (WalEntryTruncated lsn))
  else
  let! old_value := slice pos old_val_len buf in
  let pos := pos + old_val_len in
  if entry_len <? pos + 4 then Some (Err (WalEntryTruncated lsn))
  else
  let! new_val_len := read_le pos 4 buf in
  let pos := pos + 4 in
  if entry_len <? pos + new_val_len then Some (Err (WalEntryTruncated lsn))
  else
  let! new_value := slice pos new_val_len buf in
  let pos := pos + new_val_len in
  if entry_len <? pos + 4 then Some (Err (WalEntryTruncated lsn))
  else
  let! stored_crc := read_le pos 4 buf in
  let! covered := slice 0 pos buf in
  let computed_crc := crc32c covered in
  if negb (stored_crc =? computed_crc)
  then Some (Err (WalChecksumMismatch lsn stored_crc computed_crc))
  else
  let pos := pos + 4 in
  if entry_len <? pos + 4 then Some (Err (WalEntryTruncated lsn))
  else
  let! entry_len_2 := read_le pos 4 buf in
  if negb (entry_len_2 =? entry_len) then Some (Err (WalEntryTruncated lsn))
  else Some (Ok (mkWal lsn txn_id entry_type table_id key old_value new_value, entry_len))
  end.
End Codec.

(** ** Well-formed entries *)

(** What the Rust types guarantee, and sizes that fit their length fields. *)
Record wal_ok (e : WalEntry) : Prop := {
  wo_lsn : in_u64 (lsn e);
  wo_txn : in_u64 (txn_id e);
  wo_table : in_u32 (table_id e);
  wo_key : bytes_ok (key e);
  wo_old : bytes_ok (old_value e);
  wo_new : bytes_ok (new_value e);
  wo_key_len : zlen (key e) < 2 ^ 16;
  wo_len : serialized_len e < 2 ^ 32
}.

Lemma entry_type_roundtrip t : entry_type_try_from (entry_type_code t) = Ok t.
Proof. by destruct t. Qed.

Lemma entry_type_code_range t : 1 <= entry_type_code t <= 15.
Proof. destruct t; cbn; lia. Qed.

Section CodecFacts.
Context {C : Crc32c} {CR : Crc32cRange C}.

(** The record as a sequence of fields. *)
Definition wal_chunks (e : WalEntry) : list bytes :=
  [le_bytes 4 (wrap32 (serialized_len e)); le_bytes 8 (lsn e); le_bytes 8 (txn_id e);
   le_bytes 1 (entry_type_code (entry_type e)); le_bytes 4 (table_id e);
   le_bytes 2 (wrap16 (zlen (key e))); key e;
   le_bytes 4 (wrap32 (zlen (old_value e))); old_value e;
   le_bytes 4 (wrap32 (zlen (new_value e))); new_value e;
   le_bytes 4 (crc32c (wal_fields e)); le_bytes 4 (wrap32 (serialized_len e))].

Lemma le_bytes_1 v : 0 <= v < 2 ^ 8 -> le_bytes 1 v = [v].
Proof.
  intros Hv. assert (Hr : le_val (le_bytes 1 v) = v) by (by apply le_val_le_bytes).
  pose proof (length_le_bytes 1 v ltac:(lia)) as Hl.
  destruct (le_bytes 1 v) as [|b [|]]; [done| |done].
  f_equal. rewrite <-Hr. unfold le_val. cbn. by rewrite Z.lor_0_r.
Qed.

Lemma to_bytes_chunks e : to_bytes e = concat (wal_chunks e).
Proof.
  unfold to_bytes, wal_fields at 1, wal_chunks. pose proof (entry_type_code_range (entry_type e)).
  rewrite (le_bytes_1 (entry_type_code _)) by lia. cbn [concat]. by rewrite app_nil_r, <-!app_assoc.
Qed.

Lemma wal_fields_prefix e : concat (take 11 (wal_chunks e)) = wal_fields e.
Proof.
  unfold wal_fields, wal_chunks. pose proof (entry_type_code_range (entry_type e)).
  rewrite (le_bytes_1 (entry_type_code _)) by lia. cbn [concat take]. by rewrite app_nil_r.
Qed.

Lemma len_to_bytes e : zlen (to_bytes e) = serialized_len e.
Proof.
  rewrite to_bytes_chunks. unfold wal_chunks, serialized_len, MIN_ENTRY_LEN. cbn [concat].
  rewrite !length_app, !length_le_bytes by lia. cbn [length]. lia.
Qed.

Lemma bytes_ok_to_bytes e : wal_ok e -> bytes_ok (to_bytes e).
Proof.
  intros []. rewrite to_bytes_chunks. unfold wal_chunks. cbn [concat]. unfold bytes_ok.
  rewrite !Forall_app. split_and!; try done; try (apply bytes_ok_le_bytes; lia).
Qed.

(** Appending to a buffer is appending the serialized entry. *)
Lemma serialize_into_app e buf : serialize_into e buf = buf ++ to_bytes e.
Proof. unfold serialize_into, to_bytes. by rewrite drop_app_length, <-!app_assoc. Qed.

Lemma wal_offsets e :
  let k := zlen (key e) in let o := zlen (old_value e) in let n := zlen (new_value e) in
  (fun i => zlen (concat (take i (wal_chunks e)))) <$> seq 0 13 =
  [0; 4; 12; 20; 21; 25; 27; 27 + k; 27 + k + 4; 27 + k + 4 + o; 27 + k + 4 + o + 4;
   27 + k + 4 + o + 4 + n; 27 + k + 4 + o + 4 + n + 4].
Proof.
  intros k o n. cbn [seq fmap list_fmap wal_chunks take concat].
  rewrite !length_app, !length_le_bytes by lia. cbn [length].
  repeat (apply (f_equal2 cons); [lia|]). done.
Qed.

Lemma wal_offset e i o : (i < 13)%nat ->
  ((fun i => zlen (concat (take i (wal_chunks e)))) <$> seq 0 13) !! i = Some o ->
  zlen (concat (take i (wal_chunks e))) = o.
Proof. intros Hi. rewrite list_lookup_fmap, lookup_seq_lt by done. cbn. congruence. Qed.

(** Field [i] of a serialized entry, read as an integer or as bytes. *)
Lemma wal_read e rest i off n v :
  (i < 13)%nat -> 0 <= n -> 0 <= v < 2 ^ (n * 8) ->
  ((fun i => zlen (concat (take i (wal_chunks e)))) <$> seq 0 13) !! i = Some off ->
  wal_chunks e !! i = Some (le_bytes n v) -> read_le off n (to_bytes e ++ rest) = Some v.
Proof.
  intros Hi Hn Hv <-%wal_offset Hc; [|done]. rewrite to_bytes_chunks. by apply read_le_concat.
Qed.

Lemma wal_slice e rest i off c :
  (i < 13)%nat ->
  ((fun i => zlen (concat (take i (wal_chunks e)))) <$> seq 0 13) !! i = Some off ->
  wal_chunks e !! i = Some c -> slice off (zlen c) (to_bytes e ++ rest) = Some c.
Proof. intros Hi <-%wal_offset Hc; [|done]. rewrite to_bytes_chunks. by apply slice_concat. Qed.

Lemma wal_covered e rest :
  slice 0 (27 + zlen (key e) + 4 + zlen (old_value e) + 4 + zlen (new_value e)) (to_bytes e ++ rest)
  = Some (wal_fields e).
Proof.
  rewrite <-(wal_offset e 11 _ ltac:(lia) ltac:(rewrite wal_offsets; reflexivity)).
  rewrite to_bytes_chunks, slice_concat_prefix. by rewrite wal_fields_prefix.
Qed.

Lemma from_bytes_to_bytes e rest :
  wal_ok e -> from_bytes (to_bytes e ++ rest) = Some (Ok (e, serialized_len e)).
Proof.
  intros [Hl Ht Htb _ _ _ Hk Hlen].
  assert (Hsz : serialized_len e = 43 + zlen (key e) + zlen (old_value e) + zlen (new_value e)) by done.
  assert (Hw : wrap32 (serialized_len e) = serialized_len e) by (apply Z.mod_small; lia).
  assert (Hwk : wrap16 (zlen (key e)) = zlen (key e)) by (apply Z.mod_small; lia).
  assert (Hwo : wrap32 (zlen (old_value e)) = zlen (old_value e)) by (apply Z.mod_small; lia).
  assert (Hwn : wrap32 (zlen (new_value e)) = zlen (new_value e)) by (apply Z.mod_small; lia).
  pose proof (entry_type_code_range (entry_type e)) as Hty. pose proof (crc32c_range (wal_fields e)) as Hcrc.
  pose proof (wal_offsets e) as Hoffs. cbv zeta in Hoffs.
  assert (Hrd : forall i off n v, (i < 13)%nat -> 0 <= n -> 0 <= v < 2 ^ (n * 8) ->
    ((fun i => zlen (concat (take i (wal_chunks e)))) <$> seq 0 13) !! i = Some off ->
    wal_chunks e !! i = Some (le_bytes n v) -> read_le off n (to_bytes e ++ rest) = Some v)
    by (intros; by eapply wal_read).
  assert (Hzl : zlen (to_bytes e ++ rest) = serialized_len e + zlen rest) by (rewrite length_app, Nat2Z.inj_add, len_to_bytes; done).
  rewrite Hoffs in Hrd. unfold wal_chunks in Hrd. rewrite Hw, Hwk, Hwo, Hwn in Hrd.
  unfold from_bytes, FIXED_HEADER, MIN_ENTRY_LEN. rewrite Hzl.
  rewrite (proj2 (Z.ltb_ge _ _)) by lia.
  rewrite (Hrd 0%nat 0 4 (serialized_len e)) by (done || lia). rewrite !(proj2 (Z.ltb_ge _ _)) by lia.
  rewrite (Hrd 1%nat 4 8 (lsn e)), (Hrd 2%nat 12 8 (txn_id e)), (Hrd 3%nat 20 1 (entry_type_code (entry_type e)))
    by (done || widths).
  rewrite entry_type_roundtrip, (Hrd 4%nat 21 4 (table_id e)), (Hrd 5%nat 25 2 (zlen (key e))) by (done || widths).
  rewrite (proj2 (Z.ltb_ge _ _)) by lia.
  rewrite (wal_slice e rest 6 27 (key e)) by (done || lia || rewrite Hoffs; done).
  rewrite (proj2 (Z.ltb_ge _ _)) by lia. rewrite (Hrd 7%nat _ 4 (zlen (old_value e))) by (done || lia).
  rewrite (proj2 (Z.ltb_ge _ _)) by lia.
  rewrite (wal_slice e rest 8 _ (old_value e)) by (done || lia || rewrite Hoffs; done).
  rewrite (proj2 (Z.ltb_ge _ _)) by lia. rewrite (Hrd 9%nat _ 4 (zlen (new_value e))) by (done || lia).
  rewrite (proj2 (Z.ltb_ge _ _)) by lia.
  rewrite (wal_slice e rest 10 _ (new_value e)) by (done || lia || rewrite Hoffs; done).
  rewrite (proj2 (Z.ltb_ge _ _)) by lia. rewrite (Hrd 11%nat _ 4 (crc32c (wal_fields e))) by (done || widths).
  rewrite wal_covered, Z.eqb_refl. cbn [negb].
  rewrite (proj2 (Z.ltb_ge _ _)) by lia. rewrite (Hrd 12%nat _ 4 (serialized_len e)) by (done || lia).
  rewrite Z.eqb_refl. cbn [negb]. by destruct e.
Qed.

(** What a successful decode says about the bytes. *)
Record decoded (buf : bytes) (e : WalEntry) (n : Z) : Prop := {
  dc_ok : wal_ok e;
  dc_len : MIN_ENTRY_LEN <= serialized_len e <= n;
  dc_buf : n <= zlen buf;
  dc_exact : n = serialized_len e -> slice 0 n buf = Some (to_bytes e)
}.

Lemma entry_type_inv ty t : entry_type_try_from ty = Ok t -> ty = entry_type_code t.
Proof.
  unfold entry_type_try_from. intros H.
  repeat (case_match; simplify_eq; try done).
Qed.

(** Adjacent fields of an accepted record spell out the serialized entry. *)
Lemma decoded_intro buf len e cov :
  let k := zlen (key e) in let o := zlen (old_value e) in let n := zlen (new_value e) in
  bytes_ok buf -> in_u64 (lsn e) -> in_u64 (txn_id e) -> in_u32 (table_id e) -> k < 2 ^ 16 ->
  0 <= len < 2 ^ 32 -> serialized_len e <= len <= zlen buf ->
  slice 0 4 buf = Some (le_bytes 4 len) -> slice 4 8 buf = Some (le_bytes 8 (lsn e)) ->
  slice 12 8 buf = Some (le_bytes 8 (txn_id e)) ->
  slice 20 1 buf = Some (le_bytes 1 (entry_type_code (entry_type e))) ->
  slice 21 4 buf = Some (le_bytes 4 (table_id e)) -> slice 25 2 buf = Some (le_bytes 2 k) ->
  slice 27 k buf = Some (key e) -> slice (27 + k) 4 buf = Some (le_bytes 4 o) ->
  slice (27 + k + 4) o buf = Some (old_value e) -> slice (27 + k + 4 + o) 4 buf = Some (le_bytes 4 n) ->
  slice (27 + k + 4 + o + 4) n buf = Some (new_value e) ->
  slice (27 + k + 4 + o + 4 + n) 4 buf = Some (le_bytes 4 (crc32c cov)) ->
  slice 0 (27 + k + 4 + o + 4 + n) buf = Some cov ->
  slice (27 + k + 4 + o + 4 + n + 4) 4 buf = Some (le_bytes 4 len) ->
  decoded buf e len.
Proof.
  intros k o n Hb Hl Ht Htb Hk Hlen Hser S0 S1 S2 S3 S4 S5 S6 S7 S8 S9 S10 S11 Hcov S12.
  assert (Hsz : serialized_len e = 43 + k + o + n) by done.
  assert (Hok : wal_ok e).
  { split; try done; try (eapply slice_bytes_ok; eassumption); lia. }
  split; [done|unfold MIN_ENTRY_LEN; lia|lia|]. intros ->.
  assert (Hw : wrap32 (serialized_len e) = serialized_len e) by (apply Z.mod_small; lia).
  assert (Hwk : wrap16 k = k) by (apply Z.mod_small; lia).
  assert (Hwo : wrap32 o = o) by (apply Z.mod_small; lia).
  assert (Hwn : wrap32 n = n) by (apply Z.mod_small; lia).
  pose proof (entry_type_code_range (entry_type e)) as Hty. rewrite le_bytes_1 in S3 by lia.
  assert (Hf : slice 0 (4 + (8 + (8 + (1 + (4 + (2 + (k + (4 + (o + (4 + n)))))))))) buf = Some (wal_fields e)).
  { unfold wal_fields. fold k o n. rewrite Hw, Hwk, Hwo, Hwn.
    repeat (eapply slice_join; [eassumption| |reflexivity]). eassumption. }
  replace (4 + _) with (27 + k + 4 + o + 4 + n) in Hf by lia.
  assert (cov = wal_fields e) as -> by congruence.
  unfold to_bytes. rewrite Hw. replace (serialized_len e) with (27 + k + 4 + o + 4 + n + (4 + 4)) at 1 by lia.
  eapply slice_join; [exact Hf| |reflexivity].
  eapply slice_join; [exact S11|exact S12|reflexivity].
Qed.

Lemma from_bytes_spec buf :
  bytes_ok buf ->
  exists r, from_bytes buf = Some r /\ forall e n, r = Ok (e, n) -> decoded buf e n.
Proof.
  intros Hb. unfold from_bytes, FIXED_HEADER.
  assert (Hrd : forall off n, 0 <= off -> 0 <= n -> off + n <= zlen buf ->
    exists v, read_le off n buf = Some v /\ 0 <= v < 2 ^ (n * 8) /\ slice off n buf = Some (le_bytes n v)).
  { intros off n ???. destruct (read_le_is_Some off n buf) as [v Hv]; [done..|]. exists v.
    split_and!; [done|by eapply read_le_range..|by apply read_le_slice]. }
  assert (Herr : forall er, exists r, Some (Err er) = Some r /\ forall e n, r = Ok (e, n) -> decoded buf e n).
  { intros er. eexists. split; [done|]. done. }
  destruct (Z.ltb_spec (zlen buf) 4); [apply Herr|].
  destruct (Hrd 0 4) as (len & -> & Hlen & S0); [lia..|].
  destruct (Z.ltb_spec (zlen buf) len); [apply Herr|]. unfold MIN_ENTRY_LEN.
  destruct (Z.ltb_spec len 43); [apply Herr|].
  destruct (Hrd 4 8) as (l & -> & Hl & S1); [lia..|].
  destruct (Hrd 12 8) as (t & -> & Ht & S2); [lia..|].
  destruct (Hrd 20 1) as (ty & -> & Hty & S3); [lia..|].
  destruct (entry_type_try_from ty) as [et|] eqn:Het; [|apply Herr].
  destruct (Hrd 21 4) as (tb & -> & Htb & S4); [lia..|].
  destruct (Hrd 25 2) as (kl & -> & Hkl & S5); [lia..|].
  destruct (Z.ltb_spec len (27 + kl)); [apply Herr|].
  destruct (slice_is_Some 27 kl buf) as [k Hk]; [lia..|]. rewrite Hk.
  destruct (Z.ltb_spec len (27 + kl + 4)); [apply Herr|].
  destruct (Hrd (27 + kl) 4) as (ol & -> & Hol & S7); [lia..|].
  destruct (Z.ltb_spec len (27 + kl + 4 + ol)); [apply Herr|].
  destruct (slice_is_Some (27 + kl + 4) ol buf) as [o Ho]; [lia..|]. rewrite Ho.
  destruct (Z.ltb_spec len (27 + kl + 4 + ol + 4)); [apply Herr|].
  destruct (Hrd (27 + kl + 4 + ol) 4) as (nl & -> & Hnl & S9); [lia..|].
  destruct (Z.ltb_spec len (27 + kl + 4 + ol + 4 + nl)); [apply Herr|].
  destruct (slice_is_Some (27 + kl + 4 + ol + 4) nl buf) as [n Hn]; [lia..|]. rewrite Hn.
  destruct (Z.ltb_spec len (27 + kl + 4 + ol + 4 + nl + 4)); [apply Herr|].
  destruct (Hrd (27 + kl + 4 + ol + 4 + nl) 4) as (crc & -> & Hcrc & S11); [lia..|].
  destruct (slice_is_Some 0 (27 + kl + 4 + ol + 4 + nl) buf) as [cov Hcov]; [lia..|]. rewrite Hcov.
  destruct (Z.eqb_spec crc (crc32c cov)) as [->|]; [|apply Herr]. cbn [negb].
  destruct (Z.ltb_spec len (27 + kl + 4 + ol + 4 + nl + 4 + 4)); [apply Herr|].
  destruct (Hrd (27 + kl + 4 + ol + 4 + nl + 4) 4) as (len2 & -> & Hlen2 & S12); [lia..|].
  destruct (Z.eqb_spec len2 len) as [->|]; [|apply Herr]. cbn [negb].
  pose proof (slice_inv _ _ _ _ Hk) as (_ & _ & _ & <-). pose proof (slice_inv _ _ _ _ Ho) as (_ & _ & _ & <-).
  pose proof (slice_inv _ _ _ _ Hn) as (_ & _ & _ & <-). apply entry_type_inv in Het. subst ty.
  eexists. split; [done|]. intros e n' [= <- <-].
  apply decoded_intro with (cov := cov); cbn [lsn txn_id entry_type table_id key old_value new_value];
    unfold serialized_len, MIN_ENTRY_LEN; cbn [key old_value new_value]; done || lia.
Qed.

(** A torn record at the end of the file is reported as truncated. *)
Lemma from_bytes_torn e m :
  wal_ok e -> 0 <= m < serialized_len e ->
  from_bytes (take (Z.to_nat m) (to_bytes e)) = Some (Err (WalEntryTruncated 0)).
Proof.
  intros Hok Hm. pose proof (len_to_bytes e) as Hl.
  assert (Hz : zlen (take (Z.to_nat m) (to_bytes e)) = m) by (rewrite length_take; lia).
  unfold from_bytes. rewrite Hz. destruct (Z.ltb_spec m 4); [done|].
  assert (Hrd : read_le 0 4 (take (Z.to_nat m) (to_bytes e)) = Some (serialized_len e)).
  { pose proof (wo_len _ Hok) as Hlen.
    assert (Hlo : 0 <= serialized_len e) by (unfold serialized_len, MIN_ENTRY_LEN; lia).
    assert (Hw : wrap32 (serialized_len e) = serialized_len e) by (apply Z.mod_small; lia).
    unfold read_le. rewrite <-(slice_app_l 0 4 _ (drop (Z.to_nat m) (to_bytes e))) by (rewrite ?Hz; lia).
    rewrite take_drop. unfold to_bytes, wal_fields. rewrite Hw, <-!app_assoc.
    rewrite slice_app_head by (by rewrite len_le_bytes by lia). by rewrite le_val_le_bytes by lia. }
  rewrite Hrd. by rewrite (proj2 (Z.ltb_lt _ _)) by lia.
Qed.

(** A log record survives serialization. Every entry whose sizes fit their length
    fields decodes, from a buffer that starts with its serialization and whatever
    follows, to the same entry and its exact length; the in-place serializer appends
    the same bytes as the allocating one; a record torn at the end of the file is
    reported as truncated and nothing else. *)
Theorem wal_entry_roundtrip e buf rest m :
  wal_ok e -> 0 <= m < serialized_len e ->
  from_bytes (to_bytes e ++ rest) = Some (Ok (e, serialized_len e)) /\
  zlen (to_bytes e) = serialized_len e /\
  serialize_into e buf = buf ++ to_bytes e /\
  from_bytes (take (Z.to_nat m) (to_bytes e)) = Some (Err (WalEntryTruncated 0)).
Proof.
  intros Hok Hm. split_and!; [by apply from_bytes_to_bytes|apply len_to_bytes|apply serialize_into_app|].
  by apply from_bytes_torn.
Qed.

(** Decoding arbitrary bytes never indexes out of bounds, and a record it accepts is
    genuine: it lies within the buffer, its fields have their widths, it is at least as
    long as the entry it holds, and when it is exactly that long its bytes are the
    entry's serialization, checksum and both length fields included. *)
Theorem wal_entry_decode_sound buf :
  bytes_ok buf ->
  exists r, from_bytes buf = Some r /\
    forall e n, r = Ok (e, n) ->
      wal_ok e /\ MIN_ENTRY_LEN <= serialized_len e <= n /\ n <= zlen buf /\
      (n = serialized_len e -> slice 0 n buf = Some (to_bytes e)).
Proof.
  intros Hb. destruct (from_bytes_spec buf Hb) as (r & Hr & H). exists r. split; [done|].
  intros e n He. by destruct (H e n He).
Qed.
End CodecFacts.

Definition sample_entry : WalEntry := mkWal 5 2 Insert 3 [1; 2] [] [7; 8; 9].

Lemma sample_entry_ok : wal_ok sample_entry.
Proof. split; cbn; try widths; repeat constructor; widths. Qed.

Lemma wal_entry_roundtrip_witness :
  @from_bytes crc32c_ref (@to_bytes crc32c_ref sample_entry ++ [0; 0]) = Some (Ok (sample_entry, 48)).
Proof.
  assert (Hm : 0 <= 10 < serialized_len sample_entry) by done.
  exact (proj1 (@wal_entry_roundtrip crc32c_ref crc32c_ref_range sample_entry [] [0; 0] 10 sample_entry_ok Hm)).
Defined.

Lemma wal_entry_decode_sound_witness :
  let buf := @to_bytes crc32c_ref sample_entry ++ [0; 0] in
  @from_bytes crc32c_ref buf = Some (Ok (sample_entry, 48)) /\ slice 0 48 buf = Some (@to_bytes crc32c_ref sample_entry).
Proof.
  intros buf.
  assert (Hb : bytes_ok buf).
  { apply Forall_app. split; [apply bytes_ok_to_bytes, sample_entry_ok|repeat constructor; widths]. }
  assert (Hd : @from_bytes crc32c_ref buf = Some (Ok (sample_entry, 48)))
    by exact (from_bytes_to_bytes _ _ sample_entry_ok).
  destruct (@wal_entry_decode_sound crc32c_ref buf Hb) as (r & Hr & H).
  rewrite Hd in Hr. apply (inj Some) in Hr. subst r.
  destruct (H _ _ eq_refl) as (_ & _ & _ & Hs). split; [exact Hd|exact (Hs eq_refl)].
Defined.
