(* ===== verification/Undo.v ===== *)
(** * The undo log of a transaction

    crates/axiomdb-wal/src/txn.rs ([UndoOp], [Savepoint], the physical locations),
    txn_record_heap.rs (what a change records), txn_rollback.rs (undoing), with the
    single-row changes of crates/axiomdb-storage/src/heap_chain_write.rs that are undone.
    Stated for any engine that keeps the storage laws.  The undo operations on clustered
    tables and on whole-table deletes are not modelled. *)

From S2P Require Import Prelude SlotBitmap Page FreeList Heap PageRows WalEntry Storage.

(** ** Data *)

Inductive UndoOp : Type :=
| UndoInsert (page_id slot_id : Z)
| UndoDelete (page_id slot_id : Z)
| UndoUpdateInPlace (page_id slot_id : Z) (old_image : bytes)
| UndoIndexInsert (index_id root_page_id : Z) (key : bytes)
| UndoIndexDelete (index_id root_page_id : Z) (key : bytes) (rid : Z * Z) (fillfactor : Z).

Inductive IndexUndoRecord : Type :=
| DeleteInserted (index_id root_page_id : Z) (key : bytes)
| RestoreDeleted (index_id root_page_id : Z) (key : bytes) (rid : Z * Z) (fillfactor : Z).

Record Savepoint : Type := mkSavepoint {
  sp_undo_len : Z;
  sp_deferred_free_len : Z;
  sp_batch_freed_len : Z
}.

(** ** Physical locations in log records *)

Definition PHYSICAL_LOC_LEN : Z := 10.

Definition encode_physical_loc (page_id slot_id : Z) : bytes := le_bytes 8 page_id ++ le_bytes 2 slot_id.

Definition decode_physical_loc (bs : bytes) : option (Z * Z) :=
  if zlen bs <? PHYSICAL_LOC_LEN then None
  else match read_le 0 8 bs, read_le 8 2 bs with
       | Some page_id, Some slot_id => Some (page_id, slot_id)
       | _, _ => None
       end.

(** ** What a change records: the log record to append and the undo operation *)

Definition record_insert (txn_id table_id : Z) (key value : bytes) (page_id slot_id : Z) : WalEntry * UndoOp :=
  (mkWal 0 txn_id Insert table_id key [] (encode_physical_loc page_id slot_id ++ value),
   UndoInsert page_id slot_id).

Definition record_delete (txn_id table_id : Z) (key old_value : bytes) (page_id slot_id : Z) : WalEntry * UndoOp :=
  (mkWal 0 txn_id Delete table_id key (encode_physical_loc page_id slot_id ++ old_value) [],
   UndoDelete page_id slot_id).

Definition record_update_in_place (txn_id table_id : Z) (key old_tuple_image new_tuple_image : bytes)
    (page_id slot_id : Z) : WalEntry * UndoOp :=
  (mkWal 0 txn_id UpdateInPlace table_id key (encode_physical_loc page_id slot_id ++ old_tuple_image)
     (encode_physical_loc page_id slot_id ++ new_tuple_image),
   UndoUpdateInPlace page_id slot_id old_tuple_image).

Definition index_undo (op : UndoOp) : option IndexUndoRecord :=
  match op with
  | UndoIndexInsert index_id root key => Some (DeleteInserted index_id root key)
  | UndoIndexDelete index_id root key rid fillfactor => Some (RestoreDeleted index_id root key rid fillfactor)
  | _ => None
  end.
Definition collect_index_undos (undo_ops : list UndoOp) : list IndexUndoRecord :=
  omap index_undo (rev undo_ops).
Definition collect_index_undos_since (undo_ops : list UndoOp) (sp : Savepoint) : list IndexUndoRecord :=
  omap index_undo (rev (drop (Z.to_nat (sp_undo_len sp)) undo_ops)).

(** ** Changing and restoring pages *)

Section Engine.
Context {St : Type} {C : Crc32c} {E : StorageEngine St}.

(** The page read from the engine, through [Page::from_bytes]. *)
Definition load_page (s : St) (page_id : Z) : option (Result Page) :=
  match read_page s page_id with
  | None => None
  | Some (Err e) => Some (Err e)
  | Some (Ok p) => Some (page_from_bytes p)
  end.

(** Load a page, change it with [f], which may fail, and write it back. *)
Definition with_page {A} (s : St) (page_id : Z) (f : Page -> option (Result A * Page))
    : option (Result A * St) :=
  match load_page s page_id with
  | None => None
  | Some (Err e) => Some (Err e, s)
  | Some (Ok page) =>
      match f page with
      | None => None
      | Some (Err e, _) => Some (Err e, s)
      | Some (Ok a, page') =>
          match write_page s page_id page' with
          | None => None
          | Some (Err e, s') => Some (Err e, s')
          | Some (Ok _, s') => Some (Ok a, s')
          end
      end
  end.

(** [page.update_checksum()] after a successful change. *)
Definition then_checksum {A} (r : option (Result A * Page)) : option (Result A * Page) :=
  match r with
  | Some (Ok a, p) => Some (Ok a, update_checksum p)
  | r => r
  end.

(** [HeapChain::insert] on the last page of the chain, when the row fits there. *)
Definition insert_at_tail (s : St) (last_page_id : Z) (data : bytes) (txn_id : Z) : option (Result Z * St) :=
  with_page s last_page_id (fun p => then_checksum (insert_tuple p data txn_id)).

Definition chain_delete (s : St) (page_id slot_id txn_id : Z) : option (Result unit * St) :=
  with_page s page_id (fun p => then_checksum (delete_tuple p slot_id txn_id)).

(** [HeapChain::rewrite_batch_same_slot] of one row: the page is written only when the
    row was rewritten. *)
Definition rewrite_one (s : St) (page_id slot_id : Z) (new_row : bytes) (txn_id : Z)
    : option (Result (option bytes) * St) :=
  match read_page s page_id with
  | None => None
  | Some (Err e) => Some (Err e, s)
  | Some (Ok page) =>
      match try_rewrite_tuple_same_slot_no_checksum page slot_id new_row txn_id with
      | None => None
      | Some (Err e, _) => Some (Err e, s)
      | Some (Ok None, _) => Some (Ok None, s)
      | Some (Ok (Some old_image), page') =>
          match write_page s page_id (update_checksum page') with
          | None => None
          | Some (Err e, s') => Some (Err e, s')
          | Some (Ok _, s') => Some (Ok (Some old_image), s')
          end
      end
  end.

(** One arm of the loop of [rollback] and [rollback_to_savepoint]. *)
Definition apply_undo (s : St) (op : UndoOp) : option (Result unit * St) :=
  match op with
  | UndoInsert page_id slot_id => with_page s page_id (fun p => mark_slot_dead p slot_id)
  | UndoDelete page_id slot_id => with_page s page_id (fun p => clear_deletion p slot_id)
  | UndoUpdateInPlace page_id slot_id old_image =>
      with_page s page_id (fun p => restore_tuple_image p slot_id old_image)
  | UndoIndexInsert _ _ _ => Some (Ok tt, s)
  | UndoIndexDelete _ _ _ _ _ => Some (Ok tt, s)
  end.

(** The loop, over the operations in reverse order. *)
Fixpoint undo_loop (s : St) (ops : list UndoOp) : option (Result unit * St) :=
  match ops with
  | [] => Some (Ok tt, s)
  | op :: ops' =>
      match apply_undo s op with
      | None => None
      | Some (Err e, s') => Some (Err e, s')
      | Some (Ok _, s') => undo_loop s' ops'
      end
  end.

(** The undo part of [rollback]. *)
Definition rollback_heap (s : St) (undo_ops : list UndoOp) : option (Result unit * St) :=
  undo_loop s (rev undo_ops).

(** The undo part of [rollback_to_savepoint]: the operations kept, and the engine.
    [drain(undo_len..)] panics on a savepoint past the end. *)
Definition rollback_to_savepoint_heap (s : St) (undo_ops : list UndoOp) (sp : Savepoint)
    : option (Result unit * list UndoOp * St) :=
  if zlen undo_ops <? sp_undo_len sp then None
  else
    let n := Z.to_nat (sp_undo_len sp) in
    let! r := undo_loop s (rev (drop n undo_ops)) in
    Some (r.1, take n undo_ops, r.2).
End Engine.

(** A change of one row by transaction [txn_id]. *)
Inductive HeapAction : Type :=
| HInsert (page_id : Z) (data : bytes)
| HDelete (page_id slot_id : Z)
| HRewrite (page_id slot_id : Z) (data : bytes).

Section Actions.
Context {St : Type} {C : Crc32c} {E : StorageEngine St}.

(** The change, and the undo operation its record function pushes. *)
Definition do_action (s : St) (txn_id : Z) (a : HeapAction) : option (Result (option UndoOp) * St) :=
  match a with
  | HInsert page_id data =>
      match insert_at_tail s page_id data txn_id with
      | None => None
      | Some (Err e, s') => Some (Err e, s')
      | Some (Ok slot_id, s') =>
          Some (Ok (Some (record_insert txn_id 0 [] data page_id slot_id).2), s')
      end
  | HDelete page_id slot_id =>
      match chain_delete s page_id slot_id txn_id with
      | None => None
      | Some (Err e, s') => Some (Err e, s')
      | Some (Ok _, s') => Some (Ok (Some (record_delete txn_id 0 [] [] page_id slot_id).2), s')
      end
  | HRewrite page_id slot_id data =>
      match rewrite_one s page_id slot_id data txn_id with
      | None => None
      | Some (Err e, s') => Some (Err e, s')
      | Some (Ok None, s') => Some (Ok None, s')
      | Some (Ok (Some old), s') =>
          Some (Ok (Some (record_update_in_place txn_id 0 [] old data page_id slot_id).2), s')
      end
  end.
End Actions.

(** ** What an undo operation needs and does *)

Definition target (op : UndoOp) : option (Z * Z) :=
  match op with
  | UndoInsert pg i | UndoDelete pg i | UndoUpdateInPlace pg i _ => Some (pg, i)
  | UndoIndexInsert _ _ _ | UndoIndexDelete _ _ _ _ _ => None
  end.

Definition undo_value (op : UndoOp) (T : Tuple) : Tuple :=
  match op with
  | UndoInsert _ _ => None
  | UndoDelete _ _ => set_deleted 0 <$> T
  | UndoUpdateInPlace _ _ img => Some (row_header_of img, drop 24 img)
  | _ => T
  end.

(** The operation's slot is there, and the image to restore fits. *)
Definition undo_ready (p : Page) (op : UndoOp) : Prop :=
  match op with
  | UndoInsert _ i => 0 <= i < num_slots p
  | UndoDelete _ i => live p i
  | UndoUpdateInPlace _ i img => live p i /\ bytes_ok img /\ 24 <= zlen img < 2 ^ 62 /\
      room p i (s_offset (slot_at p i) + 8 * ((zlen img + 7) / 8))
  | _ => True
  end.

Section PageUndo.
Context {C : Crc32c} {CR : Crc32cRange C}.

Lemma restore_room p i img :
  heap_wf p -> live p i -> bytes_ok img -> 24 <= zlen img < 2 ^ 62 ->
  room p i (s_offset (slot_at p i) + 8 * ((zlen img + 7) / 8)) ->
  exists p', restore_tuple_image p i img = Some (Ok tt, p') /\ checksum_valid p' /\
    updated p p' i (Some (row_header_of img, drop 24 img)).
Proof.
  intros Hwf Hi Hb Hlen Hr. destruct (room_capacity _ _ _ Hwf Hi Hr) as (cap & Hcap & Hle).
  destruct (restore_fits p i img cap Hwf Hi Hb Hlen Hcap Hle) as (p1 & Hres & Hup & _).
  unfold restore_tuple_image. rewrite Hres. eexists. split; [reflexivity|].
  pose proof (hw_page _ (up_wf _ _ _ _ Hup)) as Hok. split; [by apply update_checksum_valid|].
  eapply updated_quiet; [apply Hi|done|by apply quiet_checksum].
Qed.

(** The page part of one undo operation. *)
Definition undo_page (op : UndoOp) (p : Page) : option (Result unit * Page) :=
  match op with
  | UndoInsert _ i => mark_slot_dead p i
  | UndoDelete _ i => clear_deletion p i
  | UndoUpdateInPlace _ i img => restore_tuple_image p i img
  | _ => Some (Ok tt, p)
  end.

Lemma undo_page_spec op p pg i :
  heap_page p -> checksum_valid p -> target op = Some (pg, i) -> undo_ready p op ->
  exists p', undo_page op p = Some (Ok tt, p') /\ checksum_valid p' /\
    updated p p' i (undo_value op (tuple_at p i)).
Proof.
  intros [Hwf Hm] Hcs. destruct op as [pg' i'|pg' i'|pg' i' img| |]; cbn [target]; intros [= -> ->]; cbn [undo_ready undo_page undo_value].
  - intros Hi. destruct (mark_slot_dead_spec p i Hwf) as (r & p' & Hp' & H); [lia|].
    rewrite (proj2 (Z.leb_gt _ _)) in H by lia. destruct H as (-> & Hup & Hc). by exists p'.
  - intros Hi. destruct (clear_deletion_spec p i Hwf) as (r & p' & Hp' & H); [apply Hi|].
    rewrite (proj2 (Z.leb_gt _ _)) in H by apply Hi. destruct (live_Some p i Hwf Hi) as [u Hu]. rewrite Hu in *.
    destruct H as (-> & Hup & Hz & Hnz). exists p'. split_and!; [done| |done].
    destruct (decide (txn_id_deleted u.1 = 0)) as [H0|H0]; [by rewrite (Hz H0)|by apply Hnz].
  - intros (Hi & Hb & Hlen & Hr). by apply restore_room.
Qed.
End PageUndo.

(** ** Rows of a store *)

Definition row (v : Z -> option Page) (x : Z * Z) : option Tuple :=
  match v x.1 with
  | Some p => if decide (0 <= x.2 < num_slots p) then Some (tuple_at p x.2) else None
  | None => None
  end.

Definition on_heap (v : Z -> option Page) (pg : Z) : Prop := exists p, v pg = Some p /\ heap_page p.

Definition ready (v : Z -> option Page) (op : UndoOp) : Prop :=
  match target op with
  | None => True
  | Some (pg, _) => exists p, v pg = Some p /\ heap_page p /\ undo_ready p op
  end.

Lemma row_at v pg p i : v pg = Some p -> 0 <= i < num_slots p -> row v (pg, i) = Some (tuple_at p i).
Proof. intros Hp Hi. unfold row. cbn [fst snd]. by rewrite Hp, decide_True. Qed.

Lemma row_Some v x T : row v x = Some T -> exists p, v x.1 = Some p /\ 0 <= x.2 < num_slots p /\ tuple_at p x.2 = T.
Proof. unfold row. destruct (v x.1) as [p|]; [|done]. case_decide; [|done]. intros [= <-]. by exists p. Qed.

Lemma ready_range p op pg i : target op = Some (pg, i) -> undo_ready p op -> 0 <= i < num_slots p.
Proof. destruct op; cbn; intros [= -> ->]; [done|intros H; apply H|intros H; apply H]. Qed.

Lemma ready_row v op x : ready v op -> target op = Some x -> is_Some (row v x).
Proof.
  intros Hr Ht. unfold ready in Hr. rewrite Ht in Hr. destruct x as [pg i]. destruct Hr as (p & Hp & _ & Hr).
  rewrite (row_at v pg p i Hp (ready_range _ _ _ _ Ht Hr)). by eexists.
Qed.

(** [v'] is [v] with row [x] set to [T']. *)
Record set_row (v v' : Z -> option Page) (x : Z * Z) (T' : Tuple) : Prop := {
  sr_frame : forall pg, pg ≠ x.1 -> v' pg = v pg;
  sr_page : exists p p', v x.1 = Some p /\ heap_page p /\ v' x.1 = Some p' /\ touched p p' x.2 /\ tuple_at p' x.2 = T'
}.

Lemma row_set v v' x T' y : set_row v v' x T' -> row v' y = if decide (y = x) then Some T' else row v y.
Proof.
  intros [Hf (p & p' & Hp & Hh & Hp' & Ht & HT)]. unfold row. destruct y as [pg i], x as [pg0 i0]. cbn [fst snd] in *.
  destruct (decide (pg = pg0)) as [->|Hpg].
  - rewrite Hp, Hp'. pose proof (td_n _ _ _ Ht). pose proof (td_range _ _ _ Ht).
    destruct (decide (i = i0)) as [->|Hi].
    + rewrite decide_True by lia. by rewrite decide_True, HT by done.
    + rewrite (decide_False (P := (pg0, i) = (pg0, i0))) by congruence.
      destruct (decide (0 <= i < num_slots p)).
      * rewrite decide_True by lia. f_equal. by apply (td_slots _ _ _ Ht).
      * rewrite decide_False; [done|lia].
  - rewrite Hf by done. by rewrite (decide_False (P := (pg, i) = (pg0, i0))) by congruence.
Qed.

(** An operation stays possible when the live tuples stay in place. *)
Lemma undo_ready_settled p p' op pg i :
  heap_wf p -> heap_wf p' -> settled p p' -> num_slots p <= num_slots p' -> target op = Some (pg, i) ->
  (live p i -> live p' i) -> undo_ready p op -> undo_ready p' op.
Proof.
  intros Hw Hw' Hs Hn Ht Hl. destruct op as [pg' i'|pg' i'|pg' i' img| |]; cbn in Ht; simplify_eq; cbn [undo_ready].
  - lia.
  - done.
  - intros (Hi & Hb & Hlen & Hroom). split_and!; [by apply Hl|done|lia|lia|].
    destruct (room_settled p p' i _ Hw Hw' Hs Hi (Hl Hi) Hroom) as [-> ?]. done.
Qed.

Lemma ready_set v v' x T' op :
  set_row v v' x T' -> ready v op -> (target op = Some x -> T' ≠ None) -> ready v' op.
Proof.
  intros [Hf (p & p' & Hp & [Hw Hm] & Hp' & Ht & HT)] Hr Hne. unfold ready in *.
  destruct (target op) as [[pg i]|] eqn:Htg; [|done]. destruct x as [pg0 i0]. cbn [fst snd] in *.
  destruct (decide (pg = pg0)) as [->|Hpg]; [|by rewrite Hf].
  destruct Hr as (p1 & Hp1 & _ & Hr). assert (p1 = p) as -> by congruence.
  pose proof (td_heap _ _ _ Ht) as [Hw' Hm']. pose proof (td_n _ _ _ Ht).
  exists p'. split_and!; [done|by split|]. eapply undo_ready_settled; [exact Hw|done|by eapply touched_settled|lia|exact Htg| |done].
  intros Hi. destruct (decide (i = i0)) as [->|Hii]; [|by eapply touched_live].
  apply live_tuple; [done| |rewrite HT; by apply Hne]. pose proof (proj1 Hi). lia.
Qed.

(** The links of the pages are as before. *)
Definition links_same (v v' : Z -> option Page) : Prop :=
  forall pg, match v pg, v' pg with
             | Some p, Some p' => reserved p' = reserved p /\ (heap_page p -> heap_page p')
             | None, None => True
             | _, _ => False
             end.

Lemma links_same_refl v : links_same v v.
Proof. intros pg. by destruct (v pg). Qed.

Lemma links_same_trans v1 v2 v3 : links_same v1 v2 -> links_same v2 v3 -> links_same v1 v3.
Proof.
  intros H1 H2 pg. specialize (H1 pg). specialize (H2 pg). destruct (v1 pg), (v2 pg), (v3 pg); try done.
  destruct H1 as [R1 P1], H2 as [R2 P2]. split; [congruence|auto].
Qed.

Lemma set_row_links v v' x T' : set_row v v' x T' -> links_same v v'.
Proof.
  intros [Hf (p & p' & Hp & Hh & Hp' & Ht & HT)] pg. destruct (decide (pg = x.1)) as [->|Hne].
  - rewrite Hp, Hp'. split; [apply Ht|]. intros _. apply Ht.
  - rewrite Hf by done. by destruct (v pg).
Qed.

Section Rows.
Context {St : Type} {C : Crc32c} {CR : Crc32cRange C} {E : StorageEngine St} {L : StorageLaws St}.

(** Loading a page of the table. *)
Lemma load_page_spec s pg p :
  st_wf s -> st_page s pg = Some p -> hdr_magic p = PAGE_MAGIC -> load_page s pg = Some (Ok p) /\ checksum_valid p.
Proof.
  intros Hwf Hp Hm. destruct (law_valid _ _ _ Hwf Hp) as (H0 & Hok & Hv).
  unfold load_page. rewrite law_read, Hp by done. unfold page_from_bytes. rewrite Hm, Z.eqb_refl, Hv. cbn [negb].
  split; [done|]. unfold verify_checksum in Hv. unfold checksum_valid. by destruct (Z.eqb_spec (hdr_checksum p) (crc32c (body p))).
Qed.

(** Writing back a page with one slot changed. *)
Lemma write_moved s pg i p p' :
  st_wf s -> st_page s pg = Some p -> heap_page p -> touched p p' i -> checksum_valid p' ->
  exists s', write_page s pg p' = Some (Ok tt, s') /\ st_wf s' /\ set_row (st_page s) (st_page s') (pg, i) (tuple_at p' i).
Proof.
  intros Hwf Hp Hh Ht Hc. pose proof (td_heap _ _ _ Ht) as [Hw' _].
  destruct (law_write s pg p' Hwf) as (s' & Hwr & Hwf' & Hpg); [by rewrite Hp|apply Hw'|by apply checksum_valid_verify|].
  exists s'. split; [done|]. split; [done|]. split.
  - intros pg' Hne. by rewrite Hpg, decide_False.
  - exists p, p'. cbn [fst snd]. by rewrite Hpg, decide_True.
Qed.

Lemma apply_undo_page s op pg i : target op = Some (pg, i) -> apply_undo s op = with_page s pg (undo_page op).
Proof. destruct op; cbn; intros [= -> ->]; done. Qed.

Lemma apply_undo_spec s op :
  st_wf s -> ready (st_page s) op ->
  exists s', apply_undo s op = Some (Ok tt, s') /\ st_wf s' /\
    match target op with
    | None => s' = s
    | Some x => exists T, row (st_page s) x = Some T /\ set_row (st_page s) (st_page s') x (undo_value op T) /\
        (undo_value op T = None -> op = UndoInsert x.1 x.2)
    end.
Proof.
  intros Hwf Hr. destruct (target op) as [[pg i]|] eqn:Htg.
  2:{ exists s. by destruct op. }
  unfold ready in Hr. rewrite Htg in Hr. destruct Hr as (p & Hp & Hh & Hr). pose proof Hh as [Hw Hm].
  destruct (load_page_spec s pg p Hwf Hp Hm) as [Hld Hcs].
  destruct (undo_page_spec op p pg i Hh Hcs Htg Hr) as (p' & Hup & Hc & Hu).
  pose proof (ready_range _ _ _ _ Htg Hr) as Hi.
  destruct (write_moved s pg i p p' Hwf Hp Hh) as (s' & Hwr & Hwf' & Hmv); [by eapply updated_touched|done|].
  rewrite (up_self _ _ _ _ Hu) in Hmv.
  exists s'. rewrite (apply_undo_page s op pg i Htg). unfold with_page. rewrite Hld, Hup, Hwr. split; [done|]. split; [done|].
  exists (tuple_at p i). split_and!; [by apply row_at|done|].
  destruct op as [| pg' i'| | |]; cbn in Htg; simplify_eq; cbn [undo_value undo_ready] in *; [done| |done].
  destruct (live_Some p i Hw Hr) as [u ->]. done.
Qed.
End Rows.

(** ** Changes of one row *)

(** Undoing a deletion clears the row's stamp, also one that was there before.  So what
    comes back of the old contents [T] of row [x] depends on the first operation of the
    log at that row: an UndoDelete gives [T] without a stamp, any other gives [T]. *)
Fixpoint cleared (ops : list UndoOp) (x : Z * Z) (T : Tuple) : Tuple :=
  match ops with
  | [] => T
  | op :: ops' =>
      if decide (target op = Some x) then match op with UndoDelete _ _ => set_deleted 0 <$> T | _ => T end
      else cleared ops' x T
  end.

Lemma cleared_none ops x T : (forall op, op ∈ ops -> target op ≠ Some x) -> cleared ops x T = T.
Proof.
  induction ops as [|op ops IH]; intros Hn; cbn [cleared]; [done|]. rewrite decide_False by (apply Hn; left).
  apply IH. intros op' Hop. apply Hn. by right.
Qed.

Lemma cleared_app_skip ops1 ops2 x T :
  (forall op, op ∈ ops1 -> target op ≠ Some x) -> cleared (ops1 ++ ops2) x T = cleared ops2 x T.
Proof.
  induction ops1 as [|op ops1 IH]; intros Hn; cbn [app cleared]; [done|]. rewrite decide_False by (apply Hn; left).
  apply IH. intros op' Hop. apply Hn. by right.
Qed.

Lemma cleared_app_found ops1 ops2 x T op :
  op ∈ ops1 -> target op = Some x -> cleared (ops1 ++ ops2) x T = cleared ops1 x T.
Proof.
  intros Hop Ht. induction ops1 as [|op' ops1 IH]; [by apply not_elem_of_nil in Hop|]. cbn [app cleared].
  case_decide as Ht'; [done|]. apply IH. by apply elem_of_cons in Hop as [->|?].
Qed.

Lemma set_deleted_fresh t (u : RowHeader * bytes) : txn_id_deleted u.1 = 0 -> set_deleted 0 (set_deleted t u) = u.
Proof. destruct u as [[c d v f] dat]. unfold set_deleted. cbn. by intros ->. Qed.

Lemma cleared_cases ops x T : cleared ops x T = T \/ cleared ops x T = set_deleted 0 <$> T.
Proof. induction ops as [|op ops IH]; cbn [cleared]; [by left|]. case_decide; [|done]. destruct op; auto. Qed.

Lemma cleared_None ops x : cleared ops x None = None.
Proof. by destruct (cleared_cases ops x None) as [-> | ->]. Qed.

(** A row without a stamp comes back as it was. *)
Lemma cleared_fresh ops x T : (forall u, T = Some u -> txn_id_deleted u.1 = 0) -> cleared ops x T = T.
Proof.
  intros Hf. destruct (cleared_cases ops x T) as [->|Hc]; [done|]. rewrite Hc. destruct T as [u|]; [|done]. cbn.
  by rewrite <-(set_deleted_fresh 0 u (Hf u eq_refl)) at 2.
Qed.

Lemma undo_value_cleared op x ops T : target op = Some x -> undo_value op (cleared ops x T) = undo_value op T.
Proof.
  intros Ht. destruct (cleared_cases ops x T) as [-> | ->]; [done|]. destruct op; cbn in Ht |- *; try done. by destruct T.
Qed.

(** Recomputing a checksum that is right changes nothing. *)
Lemma update_checksum_id {C : Crc32c} p : page_ok p -> checksum_valid p -> update_checksum p = p.
Proof.
  intros [Hl Hb] Hc. unfold update_checksum, set_checksum. rewrite <-Hc. unfold hdr_checksum, get_le, set_le.
  rewrite le_bytes_le_val.
  - change (Z.to_nat 12) with 12%nat. change (Z.to_nat 4) with 4%nat. change (Z.to_nat (12 + 4)) with (12 + 4)%nat.
    rewrite <-(drop_drop p 4 12), (take_drop 4). apply take_drop.
  - by apply Forall_take, Forall_drop.
  - rewrite length_take, length_drop. unfold PAGE_SIZE in Hl. lia.
Qed.

Section ActionSpecs.
Context {St : Type} {C : Crc32c} {CR : Crc32cRange C} {E : StorageEngine St} {L : StorageLaws St}.

(** The rows, values and transaction identifiers of a call fit their types. *)
Definition action_ok (s : St) (t : Z) (a : HeapAction) : Prop :=
  in_u64 t /\
  match a with
  | HInsert pg data => on_heap (st_page s) pg /\ bytes_ok data /\ zlen data < 2 ^ 62
  | HDelete pg i => on_heap (st_page s) pg /\ 0 <= i
  | HRewrite pg i data => on_heap (st_page s) pg /\ 0 <= i /\ bytes_ok data /\ zlen data < 2 ^ 62
  end.

(** What a successful change does: it touches one row, which can be undone. *)
Record changed (s s' : St) (a : HeapAction) (op : UndoOp) (x : Z * Z) : Prop := {
  ch_target : target op = Some x;
  ch_wf : st_wf s';
  ch_moved : exists u, set_row (st_page s) (st_page s') x (Some u);
  ch_ready : ready (st_page s') op;
  ch_insert : row (st_page s) x = None <-> op = UndoInsert x.1 x.2;
  ch_undo T : row (st_page s') x = Some T -> undo_value op T = cleared [op] x (default None (row (st_page s) x));
  ch_slot : match a with HInsert pg _ => x.1 = pg | HDelete pg i | HRewrite pg i _ => x = (pg, i) end
}.

Lemma insert_changed s t pg data r s' :
  st_wf s -> action_ok s t (HInsert pg data) -> do_action s t (HInsert pg data) = Some (r, s') ->
  match r with
  | Ok (Some op) => exists x, changed s s' (HInsert pg data) op x
  | _ => s' = s
  end.
Proof.
  intros Hwf [Ht ((p & Hp & Hh) & Hd & Hlen)]. pose proof Hh as [Hw Hm].
  destruct (load_page_spec s pg p Hwf Hp Hm) as [Hld _]. cbn [do_action]. unfold insert_at_tail, with_page. rewrite Hld.
  pose proof (insert_tuple_spec p data t Hw Hd Ht Hlen) as Hi. cbv zeta in Hi.
  destruct (free_space p <? _); [rewrite Hi; cbn; by intros [= <- <-]|].
  destruct Hi as (p' & -> & Hap & Hc & _). cbn [then_checksum].
  rewrite (update_checksum_id p') by (done || apply (ap_wf _ _ _ Hap)). pose proof (num_slots_range p Hw) as Hn.
  pose proof (appended_touched p p' _ Hh Hap) as Htd.
  destruct (write_moved s pg (num_slots p) p p' Hwf Hp Hh Htd Hc) as (s1 & -> & Hwf1 & Hmv).
  rewrite (ap_new _ _ _ Hap) in Hmv. intros [= <- <-]. exists (pg, num_slots p).
  assert (Hrow : row (st_page s) (pg, num_slots p) = None).
  { unfold row. cbn [fst snd]. rewrite Hp, decide_False; [done|lia]. }
  split; [done|done|by eexists| | | |done].
  - destruct (sr_page _ _ _ _ Hmv) as (q & q' & Hq & _ & Hq' & Htq & _). cbn [fst snd] in *.
    unfold ready. cbn. exists q'. split; [done|]. split; [apply Htq|].
    pose proof (td_n _ _ _ Htq). pose proof (td_range _ _ _ Htq). lia.
  - by rewrite Hrow.
  - intros T _. by rewrite Hrow, cleared_None.
Qed.

Lemma delete_changed s t pg i r s' :
  st_wf s -> action_ok s t (HDelete pg i) -> do_action s t (HDelete pg i) = Some (r, s') ->
  match r with
  | Ok (Some op) => exists x, changed s s' (HDelete pg i) op x
  | _ => s' = s
  end.
Proof.
  intros Hwf [Ht ((p & Hp & Hh) & Hi)]. pose proof Hh as [Hw Hm].
  destruct (load_page_spec s pg p Hwf Hp Hm) as [Hld _]. cbn [do_action]. unfold chain_delete, with_page. rewrite Hld.
  destruct (delete_tuple_spec p i t Hw Hi Ht) as (r0 & p' & -> & _ & Hsp).
  destruct (Z.leb_spec (num_slots p) i) as [Hge|Hlt]; [destruct Hsp as [-> _]; cbn; by intros [= <- <-]|].
  pose proof (row_at _ pg p i Hp ltac:(lia)) as Hrow.
  destruct (tuple_at p i) as [u|] eqn:Hu; [|destruct Hsp as [-> _]; cbn; by intros [= <- <-]].
  destruct Hsp as (-> & Hup & Hc). cbn [then_checksum].
  rewrite (update_checksum_id p') by (done || apply (up_wf _ _ _ _ Hup)).
  pose proof (updated_touched p p' i _ Hh ltac:(lia) Hup) as Htd.
  destruct (write_moved s pg i p p' Hwf Hp Hh Htd Hc) as (s1 & -> & Hwf1 & Hmv).
  rewrite (up_self _ _ _ _ Hup) in Hmv. intros [= <- <-]. exists (pg, i).
  split; [done|done|by eexists| | | |done].
  - destruct (sr_page _ _ _ _ Hmv) as (q & q' & Hq & _ & Hq' & Htq & HT). cbn [fst snd] in *.
    unfold ready. cbn. exists q'. split; [done|]. split; [apply Htq|].
    apply live_tuple; [apply Htq|pose proof (td_n _ _ _ Htq); lia|by rewrite HT].
  - by rewrite Hrow.
  - intros T. rewrite (row_set _ _ _ _ _ Hmv), decide_True by done. intros [= <-]. rewrite Hrow.
    cbn [record_delete snd cleared target]. by rewrite decide_True.
Qed.

Lemma rewrite_changed s t pg i data r s' :
  st_wf s -> action_ok s t (HRewrite pg i data) -> do_action s t (HRewrite pg i data) = Some (r, s') ->
  match r with
  | Ok (Some op) => exists x, changed s s' (HRewrite pg i data) op x
  | _ => s' = s
  end.
Proof.
  intros Hwf [Ht ((p & Hp & Hh) & Hi & Hd & Hlen)]. pose proof Hh as [Hw Hm]. cbn [do_action]. unfold rewrite_one.
  rewrite law_read, Hp by (done || by destruct (law_valid _ _ _ Hwf Hp)).
  destruct (rewrite_tuple_spec p i data t Hw Hi Hd Ht Hlen) as (r0 & p1 & Hrw & _ & Hsp). unfold rewrite_tuple_same_slot in Hrw.
  destruct (try_rewrite_tuple_same_slot_no_checksum p i data t) as [[[[old|]|e] p2]|]; [| | |done];
    [|by intros [= <- <-]|by intros [= <- <-]].
  injection Hrw as <- <-. destruct (Z.leb_spec (num_slots p) i) as [Hge|Hlt]; [by destruct Hsp as [? _]|].
  destruct (tuple_at p i) as [[h d]|] eqn:Hu; [|by destruct Hsp as [? _]].
  destruct Hsp as (cap & Hcap & Hsp). destruct (cap <? _); [by destruct Hsp as [? _]|].
  destruct Hsp as (old' & [= <-] & Hold & Hup & Hoff & Hc).
  assert (Hlive : live p i) by (apply live_tuple; [done|lia|by rewrite Hu]).
  pose proof (row_at _ pg p i Hp ltac:(lia)) as Hrow.
  pose proof (updated_touched p _ i _ Hh ltac:(lia) Hup) as Htd.
  destruct (write_moved s pg i p _ Hwf Hp Hh Htd Hc) as (s1 & -> & Hwf1 & Hmv).
  rewrite (up_self _ _ _ _ Hup) in Hmv. intros [= <- <-]. exists (pg, i).
  destruct (hw_live _ Hw i Hlive) as [Hlow Hal Hleni Hhigh]. pose proof (slice_inv _ _ _ _ Hold) as (_ & _ & _ & Hlo).
  split; [done|done|by eexists| | | |done].
  - destruct (sr_page _ _ _ _ Hmv) as (q & q' & Hq & _ & Hq' & Htq & HT). cbn [fst snd] in *.
    assert (q = p) as -> by congruence. unfold ready. cbn [record_update_in_place snd target]. exists q'. split; [done|]. split; [apply Htq|].
    assert (Hl' : live q' i) by (apply live_tuple; [apply Htq|pose proof (td_n _ _ _ Htq); lia|by rewrite HT]).
    destruct (room_settled p q' i _ Hw (proj1 (td_heap _ _ _ Htq)) (touched_settled _ _ _ Htq) Hlive Hl' (own_room p i Hw Hlive)) as [Ho Hroom].
    cbn [record_update_in_place snd undo_ready]. split; [done|]. split; [eapply slice_bytes_ok; [apply Hw|exact Hold]|]. split; [split; [lia|]|].
    + pose proof (hw_end _ Hw). pose proof (hw_start _ Hw). pose proof (num_slots_range p Hw). unfold PAGE_SIZE in *. lia.
    + by rewrite Ho, Hlo.
  - by rewrite Hrow.
  - intros T _. rewrite Hrow. cbn [record_update_in_place snd undo_value from_option id cleared target].
    rewrite decide_True by done. unfold tuple_at.
    by rewrite (tuple_of_slice _ _ old) by (done || lia || apply Hlive).
Qed.

Lemma do_action_spec s t a r s' :
  st_wf s -> action_ok s t a -> do_action s t a = Some (r, s') ->
  match r with
  | Ok (Some op) => exists x, changed s s' a op x
  | _ => s' = s
  end.
Proof.
  destruct a; [apply insert_changed|apply delete_changed|apply rewrite_changed].
Qed.
End ActionSpecs.

(** ** Lists of undo operations *)

#[export] Instance UndoOp_eq_dec : EqDecision UndoOp.
Proof. solve_decision. Defined.

(** What the operations do to row [x], in the order given. *)
Fixpoint undo_values (x : Z * Z) (ops : list UndoOp) (T : Tuple) : Tuple :=
  match ops with
  | [] => T
  | op :: ops' => undo_values x ops' (if decide (target op = Some x) then undo_value op T else T)
  end.

Lemma undo_values_none x ops T : (forall op, op ∈ ops -> target op ≠ Some x) -> undo_values x ops T = T.
Proof.
  revert T. induction ops as [|op ops IH]; intros T Hn; cbn [undo_values]; [done|].
  rewrite decide_False by (apply Hn; set_solver). apply IH. intros op' Hop'. apply Hn. set_solver.
Qed.

Lemma undo_values_app x ops1 ops2 T : undo_values x (ops1 ++ ops2) T = undo_values x ops2 (undo_values x ops1 T).
Proof. revert T. induction ops1 as [|op ops1 IH]; intros T; cbn [app undo_values]; [done|apply IH]. Qed.

(** The operations at a row do not depend on the stamp it had. *)
Lemma undo_values_cleared x l ops T op :
  op ∈ l -> target op = Some x -> undo_values x l (cleared ops x T) = undo_values x l T.
Proof.
  revert T. induction l as [|op' l IH]; intros T Hop Ht; [by apply not_elem_of_nil in Hop|]. cbn [undo_values].
  case_decide as Ht'; [by rewrite undo_value_cleared|]. apply IH; [|done]. by apply elem_of_cons in Hop as [->|?].
Qed.

(** Whether some operation is about a row. *)
Lemma target_cases (ops : list UndoOp) x : (exists op, op ∈ ops /\ target op = Some x) \/ (forall op, op ∈ ops -> target op ≠ Some x).
Proof.
  destruct (decide (Exists (fun op => target op = Some x) ops)) as [He|Hn].
  - left. by apply Exists_exists in He.
  - right. intros op Hop Ht. apply Hn, Exists_exists. by exists op.
Qed.

(** The row of an insert is not the target of an earlier operation. *)
Definition insert_first (log : list UndoOp) : Prop :=
  forall l1 pg i l2, log = l1 ++ UndoInsert pg i :: l2 -> forall op, op ∈ l1 -> target op ≠ Some (pg, i).

Lemma insert_first_app l1 l2 :
  insert_first l1 -> insert_first l2 ->
  (forall pg i op, UndoInsert pg i ∈ l2 -> op ∈ l1 -> target op ≠ Some (pg, i)) -> insert_first (l1 ++ l2).
Proof.
  intros H1 H2 H12 k1 pg i k2 Heq op Hop.
  apply app_eq_app in Heq as (k & [[-> Heq]|[-> Heq]]).
  - destruct k as [|o k]; cbn in Heq.
    + rewrite app_nil_r in *. apply H12; [rewrite <-Heq; left|done].
    + injection Heq as <- ->. by eapply H1.
  - apply elem_of_app in Hop as [Hop|Hop]; [apply H12; [rewrite Heq; set_solver|done]|]. by eapply H2.
Qed.

(** ** Changes that can be undone *)

(** [v'] comes from [v] by changes that kill no row, and [ops] undoes them: each operation
    is possible, and together, last first, they give every row its old contents, except for
    the stamp of a row that a deletion was the first to change. *)
Record forward (v v' : Z -> option Page) (ops : list UndoOp) : Prop := {
  fw_pages : forall pg p, v pg = Some p -> exists p', v' pg = Some p' /\ (p' = p \/ heap_page p /\ kept p p');
  fw_ready : forall op, op ∈ ops -> ready v' op;
  fw_first : insert_first ops;
  fw_fresh : forall pg i, UndoInsert pg i ∈ ops -> row v (pg, i) = None;
  fw_undo : forall x T, row v' x = Some T -> undo_values x (rev ops) T = cleared ops x (default None (row v x))
}.

Lemma forward_ready v v' ops op : forward v v' ops -> ready v op -> ready v' op.
Proof.
  intros Hf Hr. unfold ready in *. destruct (target op) as [[pg i]|] eqn:Ht; [|done]. destruct Hr as (p & Hp & Hh & Hr).
  destruct (fw_pages _ _ _ Hf pg p Hp) as (p' & Hp' & [->|[_ Hk]]); [by exists p|]. exists p'.
  split_and!; [done|apply Hk|]. eapply undo_ready_settled; [apply Hh|apply Hk|apply Hk|apply Hk|exact Ht|apply Hk|done].
Qed.

Lemma forward_exists v v' ops x : forward v v' ops -> is_Some (row v x) -> is_Some (row v' x).
Proof.
  intros Hf [T (p & Hp & Hx & _)%row_Some]. destruct (fw_pages _ _ _ Hf _ p Hp) as (p' & Hp' & Hor).
  destruct x as [pg i]. cbn in *. rewrite (row_at v' pg p' i Hp'); [by eexists|].
  destruct Hor as [->|[_ Hk]]; [done|]. pose proof (kp_n _ _ Hk). lia.
Qed.

Lemma in_rev_elem {A} (l : list A) x : x ∈ rev l -> x ∈ l.
Proof. by rewrite !list_elem_of_In, <-in_rev. Qed.

Lemma elem_in_rev {A} (l : list A) x : x ∈ l -> x ∈ rev l.
Proof. by rewrite !list_elem_of_In, <-in_rev. Qed.

(** A row that no operation is about is as it was. *)
Lemma forward_other v v' ops x T :
  forward v v' ops -> (forall op, op ∈ ops -> target op ≠ Some x) -> row v x = Some T -> row v' x = Some T.
Proof.
  intros Hf Hn Hx. destruct (forward_exists _ _ _ x Hf) as [T' HT']; [by eexists|].
  pose proof (fw_undo _ _ _ Hf x T' HT') as Hu. rewrite Hx, undo_values_none, cleared_none in Hu; [rewrite HT'; f_equal; exact Hu|done|].
  intros op Hop%in_rev_elem. by apply Hn.
Qed.

(** The same, for a row that may not be there. *)
Lemma forward_default v v' ops x :
  forward v v' ops -> (forall op, op ∈ ops -> target op ≠ Some x) -> default None (row v' x) = default None (row v x).
Proof.
  intros Hf Hn. destruct (row v' x) as [T'|] eqn:HT'.
  - pose proof (fw_undo _ _ _ Hf x T' HT') as Hu. rewrite undo_values_none, cleared_none in Hu; [done|done|].
    intros op Hop%in_rev_elem. by apply Hn.
  - destruct (row v x) as [T|] eqn:HT; [|done]. destruct (forward_exists _ _ _ x Hf) as [? ?]; [by rewrite HT|congruence].
Qed.

Lemma forward_nil v : forward v v [].
Proof.
  split; [intros pg p Hp; exists p; by split; [|left]|set_solver|by intros []|set_solver|]. intros x T HT. by rewrite HT.
Qed.

Lemma forward_trans v1 v2 v3 ops1 ops2 : forward v1 v2 ops1 -> forward v2 v3 ops2 -> forward v1 v3 (ops1 ++ ops2).
Proof.
  intros H1 H2.
  assert (Hno : forall x, row v2 x = None -> forall op, op ∈ ops1 -> target op ≠ Some x).
  { intros x Hx op Hop Ht. destruct (ready_row v2 op x (fw_ready _ _ _ H1 op Hop) Ht). congruence. }
  assert (Hup : forall x, row v2 x = None -> row v1 x = None).
  { intros x Hx. apply eq_None_not_Some. intros Hs. apply (forward_exists _ _ _ x H1) in Hs as [? ?]. congruence. }
  split.
  - intros pg p Hp. destruct (fw_pages _ _ _ H1 pg p Hp) as (p' & Hp' & Hor1).
    destruct (fw_pages _ _ _ H2 pg p' Hp') as (p'' & Hp'' & Hor2). exists p''. split; [done|].
    destruct Hor1 as [->|[Hh K1]]; [done|]. right. split; [done|]. destruct Hor2 as [->|[_ K2]]; [done|by eapply kept_trans].
  - intros op [Hop|Hop]%elem_of_app; [|by apply H2]. eapply forward_ready; [exact H2|by apply H1].
  - apply insert_first_app; [apply H1|apply H2|]. intros pg i op Hi Hop. apply Hno; [by apply (fw_fresh _ _ _ H2)|done].
  - intros pg i [Hi|Hi]%elem_of_app; [by apply (fw_fresh _ _ _ H1)|]. by apply Hup, (fw_fresh _ _ _ H2).
  - intros x T HT. rewrite rev_app_distr, undo_values_app, (fw_undo _ _ _ H2 x T HT).
    destruct (target_cases ops1 x) as [(op & Hop & Ht)|Hn].
    + rewrite (undo_values_cleared x (rev ops1) _ _ op), (cleared_app_found _ _ _ _ op) by (done || by apply elem_in_rev).
      destruct (ready_row v2 op x (fw_ready _ _ _ H1 op Hop) Ht) as [T2 HT2]. rewrite HT2. by apply (fw_undo _ _ _ H1).
    + rewrite undo_values_none, cleared_app_skip by (done || (intros op Hop%in_rev_elem; by apply Hn)).
      by rewrite (forward_default v1 v2 ops1).
Qed.

(** ** The log of a transaction *)

(** The contents of the rows a transaction has touched, from before it first did. *)
Definition save (v : Z -> option Page) (sv : gmap (Z * Z) Tuple) (op : UndoOp) : gmap (Z * Z) Tuple :=
  match target op with
  | Some x => if decide (is_Some (sv !! x)) then sv else <[x := default None (row v x)]> sv
  | None => sv
  end.
Definition saves (v : Z -> option Page) (ops : list UndoOp) (sv : gmap (Z * Z) Tuple) : gmap (Z * Z) Tuple :=
  foldl (save v) sv ops.

Lemma saves_lookup v ops : forall sv y,
  saves v ops sv !! y = match sv !! y with
                        | Some T0 => Some T0
                        | None => if decide (Some y ∈ target <$> ops) then Some (default None (row v y)) else None
                        end.
Proof.
  induction ops as [|op ops IH]; intros sv y; unfold saves; cbn [foldl].
  { rewrite decide_False by apply not_elem_of_nil. by destruct (sv !! y). }
  fold (saves v ops (save v sv op)). rewrite IH, fmap_cons. unfold save.
  destruct (target op) as [x|].
  2:{ destruct (sv !! y); [done|]. apply decide_ext. rewrite elem_of_cons. naive_solver. }
  destruct (decide (is_Some (sv !! x))) as [[T0 HT0]|Hn].
  - destruct (sv !! y) eqn:Hy; [done|]. apply decide_ext. rewrite elem_of_cons. split; [by right|]. intros [[= ->]|?]; congruence.
  - destruct (decide (y = x)) as [->|Hne].
    + rewrite lookup_insert_eq. destruct (sv !! x); [by destruct Hn|]. by rewrite decide_True by left.
    + rewrite lookup_insert_ne by done. destruct (sv !! y); [done|]. apply decide_ext. rewrite elem_of_cons. split; [by right|]. intros [[= ->]|?]; done.
Qed.

Record log_inv (v : Z -> option Page) (log : list UndoOp) (sv : gmap (Z * Z) Tuple) : Prop := {
  li_ready op : op ∈ log -> ready v op;
  li_first : insert_first log;
  li_dom op x : op ∈ log -> target op = Some x -> is_Some (sv !! x);
  li_exists x : is_Some (sv !! x) -> is_Some (row v x);
  li_value x T : row v x = Some T -> undo_values x (rev log) T = match sv !! x with Some T0 => cleared log x T0 | None => T end
}.

Lemma log_inv_nil v : log_inv v [] ∅.
Proof. split; [set_solver|by intros []|set_solver|by intros x [? ?]|done]. Qed.

(** Rows outside [sv] are not undone. *)
Lemma log_inv_outside v log sv x : log_inv v log sv -> sv !! x = None -> forall op, op ∈ log -> target op ≠ Some x.
Proof. intros Hl Hx op Hop Ht. destruct (li_dom _ _ _ Hl op x Hop Ht). congruence. Qed.

(** A change of a row outside [sv] by anyone else. *)
Lemma log_inv_set v v' log sv x T : log_inv v log sv -> set_row v v' x T -> sv !! x = None -> log_inv v' log sv.
Proof.
  intros Hl Hmv Hx. pose proof Hl as [Hr Hf Hd He Hv]. split; [|done|done| |].
  - intros op Hop. eapply ready_set; [exact Hmv|by apply Hr|]. intros Ht. by destruct (log_inv_outside _ _ _ x Hl Hx op Hop).
  - intros y Hy. rewrite (row_set _ _ _ _ y Hmv). case_decide; [by eexists|by apply He].
  - intros y T0. rewrite (row_set _ _ _ _ y Hmv). case_decide as Hyx; [|by apply Hv]. subst y. intros [= <-].
    rewrite Hx, undo_values_none; [done|]. intros op Hop%in_rev_elem. by apply (log_inv_outside v log sv).
Qed.

(** Changes by others, off the rows of [sv]. *)
Lemma log_inv_other v v' log sv ops :
  log_inv v log sv -> forward v v' ops -> (forall op x, op ∈ ops -> target op = Some x -> sv !! x = None) -> log_inv v' log sv.
Proof.
  intros Hl Hf Hoff. pose proof Hl as [Hr Hfi Hd He Hv]. split; [|done|done| |].
  - intros op Hop. eapply forward_ready; [exact Hf|by apply Hr].
  - intros x Hx. eapply forward_exists; [exact Hf|by apply He].
  - intros x T HT. destruct (sv !! x) as [T0|] eqn:Hx.
    + destruct (He x) as [T1 HT1]; [by rewrite Hx|]. assert (row v' x = Some T1) as HT'.
      { eapply forward_other; [exact Hf| |done]. intros op Hop Ht. rewrite (Hoff op x Hop Ht) in Hx. done. }
      assert (T1 = T) as -> by congruence. rewrite (Hv x T HT1). by rewrite Hx.
    + apply undo_values_none. intros op Hop%in_rev_elem. by apply (log_inv_outside v log sv).
Qed.

(** Changes by the transaction itself. *)
Lemma log_inv_mine v v' log sv ops :
  log_inv v log sv -> forward v v' ops -> log_inv v' (log ++ ops) (saves v ops sv).
Proof.
  intros Hl Hf. pose proof Hl as [Hr Hfi Hd He Hv].
  assert (Hnone : forall x, row v x = None -> sv !! x = None).
  { intros x Hx. apply eq_None_not_Some. intros Hs. destruct (He x Hs). congruence. }
  split.
  - intros op [Hop|Hop]%elem_of_app; [|by apply (fw_ready _ _ _ Hf)]. eapply forward_ready; [exact Hf|by apply Hr].
  - apply insert_first_app; [done|apply Hf|]. intros pg i op Hi Hop.
    apply (log_inv_outside v log sv); [done| |done]. by apply Hnone, (fw_fresh _ _ _ Hf).
  - intros op x Hop Ht. rewrite saves_lookup. destruct (sv !! x) eqn:Hx; [by eexists|].
    apply elem_of_app in Hop as [Hop|Hop]; [by destruct (log_inv_outside _ _ _ x Hl Hx op Hop)|].
    rewrite decide_True; [by eexists|]. apply list_elem_of_fmap. by exists op.
  - intros x. rewrite saves_lookup. destruct (sv !! x) eqn:Hx.
    + intros _. eapply forward_exists; [exact Hf|]. apply He. by rewrite Hx.
    + case_decide as Hin; [|by intros [? ?]]. intros _. apply list_elem_of_fmap in Hin as (op & Ht & Hop).
      eapply ready_row; [by apply (fw_ready _ _ _ Hf)|done].
  - intros x T HT. rewrite rev_app_distr, undo_values_app, (fw_undo _ _ _ Hf x T HT), saves_lookup.
    destruct (target_cases log x) as [(op & Hop & Ht)|Hn].
    + rewrite (undo_values_cleared x (rev log) _ _ op) by (done || by apply elem_in_rev).
      destruct (ready_row v op x (Hr op Hop) Ht) as [T1 HT1]. rewrite HT1. cbn [default from_option id]. rewrite (Hv x T1 HT1).
      destruct (li_dom _ _ _ Hl op x Hop Ht) as [T0 ->]. by rewrite (cleared_app_found _ _ _ _ op).
    + rewrite undo_values_none by (intros op Hop%in_rev_elem; by apply Hn).
      destruct (sv !! x) as [T0|] eqn:Hx.
      * destruct (He x) as [T1 HT1]; [by rewrite Hx|]. pose proof (Hv x T1 HT1) as Hv1. rewrite Hx, cleared_none, undo_values_none in Hv1; [|by intros op Hop%in_rev_elem; apply Hn|done].
        rewrite HT1, cleared_app_skip by done. cbn. by subst.
      * case_decide as Hin; [by rewrite cleared_app_skip|].
        assert (Hno : forall op, op ∈ ops -> target op ≠ Some x).
        { intros op Hop Ht. apply Hin, list_elem_of_fmap. by exists op. }
        by rewrite cleared_none, <-(forward_default v v' ops), HT.
Qed.

(** ** Rolling back *)

Section Rollback.
Context {St : Type} {C : Crc32c} {CR : Crc32cRange C} {E : StorageEngine St} {L : StorageLaws St}.

(** A log that is ready can be undone, each row independently. *)
Lemma undo_loop_spec log : forall s,
  st_wf s -> (forall op, op ∈ log -> ready (st_page s) op) -> insert_first log ->
  exists s', undo_loop s (rev log) = Some (Ok tt, s') /\ st_wf s' /\ links_same (st_page s) (st_page s') /\
    forall x, row (st_page s') x = undo_values x (rev log) <$> row (st_page s) x.
Proof.
  induction log as [|op log IH] using rev_ind; intros s Hwf Hr Hf; cbn [rev undo_loop].
  { exists s. split_and!; [done|done|apply links_same_refl|]. intros x. cbn. by destruct (row (st_page s) x). }
  rewrite rev_app_distr. cbn [rev app undo_loop].
  destruct (apply_undo_spec s op Hwf) as (s1 & -> & Hwf1 & Hs1); [apply Hr; set_solver|].
  assert (Hf' : insert_first log).
  { intros l1 pg i l2 ->. apply (Hf l1 pg i (l2 ++ [op])). by rewrite <-app_assoc. }
  destruct (target op) as [x|] eqn:Htg.
  - destruct Hs1 as (T & HT & Hmv & Hnone).
    destruct (IH s1 Hwf1) as (s' & Hl & Hwf' & Hlk & Hrow); [|done|].
    { intros op' Hop'. eapply ready_set; [exact Hmv|apply Hr; set_solver|].
      intros Ht' Hn. specialize (Hnone Hn). subst op. destruct x as [pg i]. cbn in *.
      by apply (Hf log pg i [] eq_refl op'). }
    exists s'. split_and!; [done|done|eapply links_same_trans; [by eapply set_row_links|done]|].
    intros y. rewrite Hrow, (row_set _ _ _ _ y Hmv). destruct (decide (y = x)) as [->|Hne].
    + rewrite HT. cbn [fmap option_fmap option_map undo_values]. by rewrite Htg, decide_True.
    + destruct (row (st_page s) y); [|done]. cbn [fmap option_fmap option_map undo_values]. rewrite Htg.
      by rewrite decide_False by congruence.
  - subst s1. destruct (IH s) as (s' & Hl & Hwf' & Hlk & Hrow); [done|intros; apply Hr; set_solver|done|].
    exists s'. split_and!; [done|done|done|]. intros y. rewrite Hrow.
    destruct (row (st_page s) y); [|done]. cbn [fmap option_fmap option_map undo_values]. by rewrite Htg.
Qed.

(** Undoing a log gives every row it is about its old contents, with the stamp cleared
    when it was first deleted. *)
Lemma rollback_spec s log sv :
  st_wf s -> log_inv (st_page s) log sv ->
  exists s', rollback_heap s log = Some (Ok tt, s') /\ st_wf s' /\ links_same (st_page s) (st_page s') /\
    forall x, row (st_page s') x = match sv !! x with Some T => Some (cleared log x T) | None => row (st_page s) x end.
Proof.
  intros Hwf Hinv. destruct (undo_loop_spec log s Hwf (li_ready _ _ _ Hinv) (li_first _ _ _ Hinv)) as (s' & Hl & Hwf' & Hlk & Hrow).
  exists s'. split_and!; [done|done|done|]. intros x. rewrite Hrow.
  destruct (row (st_page s) x) as [T|] eqn:HT; cbn [fmap option_fmap option_map].
  - rewrite (li_value _ _ _ Hinv x T HT). by destruct (sv !! x).
  - destruct (sv !! x) eqn:Hs; [|done]. destruct (li_exists _ _ _ Hinv x) as [? ?]; [by rewrite Hs|congruence].
Qed.

(** A successful change of one row can be undone. *)
Lemma changed_forward s s' a op x :
  changed s s' a op x -> forward (st_page s) (st_page s') [op].
Proof.
  intros [Ht Hwf (u & Hmv) Hrd Hins Hundo _]. pose proof Hmv as [Hfr (p & p' & Hp & Hh & Hp' & Htd & HT)].
  split.
  - intros pg q Hq. destruct (decide (pg = x.1)) as [->|Hne]; [|exists q; rewrite Hfr by done; by split; [|left]].
    assert (q = p) as -> by congruence. exists p'. split; [done|]. right. split; [done|].
    eapply touched_kept; [exact Htd|]. apply live_tuple; [apply Htd| |by rewrite HT].
    pose proof (td_n _ _ _ Htd). pose proof (td_range _ _ _ Htd). lia.
  - by intros op' ->%list_elem_of_singleton.
  - intros l1 pg i l2 Heq op' Hop'. apply (f_equal length) in Heq as Hlen. rewrite length_app in Hlen. destruct l1; [set_solver|cbn in Hlen; lia].
  - intros pg i <-%list_elem_of_singleton. cbn in Ht. injection Ht as <-. by apply Hins.
  - intros y T HT'. cbn [rev app undo_values]. rewrite Ht. destruct (decide (y = x)) as [->|Hne].
    + rewrite decide_True by done. by apply Hundo.
    + rewrite decide_False by congruence. rewrite (row_set _ _ _ _ y Hmv), decide_False in HT' by done.
      rewrite cleared_none; [by rewrite HT'|]. intros op' ->%list_elem_of_singleton. rewrite Ht. congruence.
Qed.

(** A history of changes of transaction [t] and of others: the engine it leads to, the
    undo log of [t], and the rows [t] touched with their old contents.  The row locks
    keep others off the rows in [sv]. *)
Inductive history (t : Z) : St -> list UndoOp -> gmap (Z * Z) Tuple -> Prop :=
| history_start s : st_wf s -> history t s [] ∅
| history_mine s log sv a op s' :
    history t s log sv -> action_ok s t a -> do_action s t a = Some (Ok op, s') ->
    history t s' (log ++ option_list op) (saves (st_page s) (option_list op) sv)
| history_fail s log sv a e s' :
    history t s log sv -> action_ok s t a -> do_action s t a = Some (Err e, s') ->
    history t s' log sv
| history_other s log sv t' a r s' :
    history t s log sv -> action_ok s t' a ->
    match a with HInsert _ _ => True | HDelete pg i | HRewrite pg i _ => sv !! (pg, i) = None end ->
    do_action s t' a = Some (r, s') ->
    history t s' log sv
| history_other_undo s log sv op r s' :
    history t s log sv -> ready (st_page s) op -> (forall x, target op = Some x -> sv !! x = None) ->
    apply_undo s op = Some (r, s') ->
    history t s' log sv.

Lemma history_inv t s log sv : history t s log sv -> st_wf s /\ log_inv (st_page s) log sv.
Proof.
  induction 1 as [s Hwf|s log sv a op s' _ [Hwf IH] Hok Hdo|s log sv a e s' _ [Hwf IH] Hok Hdo
    |s log sv t' a r s' _ [Hwf IH] Hok Hnot Hdo|s log sv op r s' _ [Hwf IH] Hr Hnot Hun].
  - split; [done|apply log_inv_nil].
  - pose proof (do_action_spec s t a _ s' Hwf Hok Hdo) as Hsp.
    destruct op as [op|]; [|subst s'; cbn; by rewrite app_nil_r].
    destruct Hsp as [x Hch]. split; [apply Hch|]. apply log_inv_mine; [done|by eapply changed_forward].
  - pose proof (do_action_spec s t a _ s' Hwf Hok Hdo) as ->. done.
  - pose proof (do_action_spec s t' a _ s' Hwf Hok Hdo) as Hsp.
    destruct r as [[op|]|e]; [|by subst s'|by subst s'].
    destruct Hsp as [x [Ht Hwf' (u & Hmv) _ Hins _ Hslot]]. split; [done|]. eapply log_inv_set; [done|exact Hmv|].
    destruct a; [|by subst x|by subst x].
    destruct (sv !! x) eqn:Hs; [|done]. exfalso. destruct (li_exists _ _ _ IH x) as [T HT]; [by rewrite Hs|].
    assert (Hrow : row (st_page s) x = None); [|congruence]. apply Hins.
    cbn in Hdo. destruct (insert_at_tail s page_id data t') as [[[slot|] ?]|]; [|done|done].
    injection Hdo as <- _. cbn in Ht. by injection Ht as <-.
  - destruct (apply_undo_spec s op Hwf Hr) as (s1 & Hs1 & Hwf1 & Hsp). rewrite Hs1 in Hun. injection Hun as _ <-.
    destruct (target op) as [x|]; [|by subst]. destruct Hsp as (T & _ & Hmv & _). split; [done|].
    eapply log_inv_set; [done|exact Hmv|by apply Hnot].
Qed.

(** C5: rolling back a transaction restores its rows. After any interleaving of its heap
    changes with those of other transactions, which stay off its rows, and with their
    undo operations, applying its undo log in reverse order succeeds; every row it
    inserted is dead, every row it deleted or rewrote, however often, reads as before it
    first touched it, and every other row reads as it does now. One case differs: a row
    that already carried a deletion stamp when the transaction's first change of it was a
    deletion comes back without the stamp. The same holds for rolling back to a savepoint
    taken at the start of the history, which keeps the older operations. *)
Theorem rollback_restores_rows t s log sv kept d f :
  history t s log sv ->
  exists s', rollback_heap s log = Some (Ok tt, s') /\
    rollback_to_savepoint_heap s (kept ++ log) (mkSavepoint (zlen kept) d f) = Some (Ok tt, kept, s') /\
    st_wf s' /\
    (forall x, row (st_page s') x = match sv !! x with Some T => Some (cleared log x T) | None => row (st_page s) x end) /\
    (forall x T, sv !! x = Some T -> (forall u, T = Some u -> txn_id_deleted u.1 = 0) -> row (st_page s') x = Some T).
Proof.
  intros Hh. destruct (history_inv _ _ _ _ Hh) as [Hwf Hinv].
  destruct (rollback_spec s log sv Hwf Hinv) as (s' & Hl & Hwf' & _ & Hrow).
  exists s'. split_and!; [done| |done|done|by intros x T Hx Hf; rewrite Hrow, Hx, cleared_fresh].
  unfold rollback_to_savepoint_heap. cbn [sp_undo_len]. rewrite length_app, (proj2 (Z.ltb_ge _ _)) by lia.
  unfold rollback_heap in Hl. by rewrite Nat2Z.id, drop_app_length, take_app_length, Hl.
Qed.
End Rollback.

(** ** Rollback without a page latch *)

Section Race.
Context {St : Type} {C : Crc32c} {CR : Crc32cRange C} {E : StorageEngine St} {L : StorageLaws St}.

Lemma insert_at_tail_spec s pg p t data :
  st_wf s -> st_page s pg = Some p -> heap_page p -> in_u64 t -> bytes_ok data -> zlen data < 2 ^ 62 ->
  4 + 8 * ((24 + zlen data + 7) / 8) <= free_space p ->
  exists s', insert_at_tail s pg data t = Some (Ok (num_slots p), s') /\
    st_wf s' /\ set_row (st_page s) (st_page s') (pg, num_slots p) (Some (mkRow t 0 0 0, data)).
Proof.
  intros Hwf Hp Hh Ht Hd Hlen Hfit. pose proof Hh as [Hw Hm].
  destruct (load_page_spec s pg p Hwf Hp Hm) as [Hld _]. unfold insert_at_tail, with_page. rewrite Hld.
  pose proof (insert_tuple_spec p data t Hw Hd Ht Hlen) as Hi. cbv zeta in Hi. rewrite (proj2 (Z.ltb_ge _ _)) in Hi by lia.
  destruct Hi as (p' & -> & Hap & Hc & _). cbn [then_checksum].
  rewrite (update_checksum_id p') by (done || apply (ap_wf _ _ _ Hap)).
  destruct (write_moved s pg (num_slots p) p p' Hwf Hp Hh (appended_touched _ _ _ Hh Hap) Hc) as (s1 & -> & Hwf1 & Hmv).
  rewrite (ap_new _ _ _ Hap) in Hmv. by exists s1.
Qed.

(** [rollback] reads a page, changes its copy and writes it back; only the write takes the
    page's latch.  A row that another transaction inserts into the page in between is
    acknowledged, and then gone. *)
Theorem rollback_loses_concurrent_insert s pg p i t data :
  st_wf s -> st_page s pg = Some p -> heap_page p -> 0 <= i < num_slots p ->
  in_u64 t -> bytes_ok data -> zlen data < 2 ^ 62 ->
  4 + 8 * ((24 + zlen data + 7) / 8) <= free_space p ->
  exists slot s1 p' s2,
    load_page s pg = Some (Ok p) /\
    insert_at_tail s pg data t = Some (Ok slot, s1) /\ row (st_page s1) (pg, slot) = Some (Some (mkRow t 0 0 0, data)) /\
    mark_slot_dead p i = Some (Ok tt, p') /\ write_page s1 pg p' = Some (Ok tt, s2) /\
    row (st_page s2) (pg, slot) = None.
Proof.
  intros Hwf Hp Hh Hi Ht Hd Hlen Hfit. pose proof Hh as [Hw Hm].
  destruct (insert_at_tail_spec s pg p t data Hwf Hp Hh Ht Hd Hlen Hfit) as (s1 & Hins & Hwf1 & Hmv).
  destruct (mark_slot_dead_spec p i Hw) as (r & p' & Hdead & Hsp); [lia|].
  rewrite (proj2 (Z.leb_gt _ _)) in Hsp by lia. destruct Hsp as (-> & Hup & Hc).
  destruct (sr_page _ _ _ _ Hmv) as (q & q' & _ & _ & Hq' & _). cbn [fst snd] in Hq'.
  destruct (law_write s1 pg p') as (s2 & Hwr & _ & Hpg);
    [done|by rewrite Hq'|apply (up_wf _ _ _ _ Hup)|by apply checksum_valid_verify|].
  exists (num_slots p), s1, p', s2. split_and!; [by apply load_page_spec|done| |done|done|].
  - by rewrite (row_set _ _ _ _ _ Hmv), decide_True.
  - unfold row. cbn [fst snd]. rewrite Hpg, decide_True by done. rewrite (up_n _ _ _ _ Hup), decide_False; [done|lia].
Qed.
End Race.

(** ** A concrete rollback *)

#[local] Existing Instance crc32c_ref.
#[local] Existing Instance crc32c_ref_range.

(** An engine with one empty heap page. *)
Lemma sample_store : exists (s : MemoryStorage) (pg : Z), st_wf s /\ st_page s pg = Some (page_new PtData pg) /\
  heap_page (page_new PtData pg) /\ num_slots (page_new PtData pg) = 0 /\ free_space (page_new PtData pg) = 16320.
Proof.
  destruct mem_new_spec as (s0 & Hs0 & Hwf0 & _). destruct (mem_alloc_spec s0 PtData Hwf0) as [Hnone Hsome].
  destruct (mem_alloc_page s0 PtData) as [[r s]|] eqn:Ha.
  2:{ exfalso. unfold mem_new in Hs0. destruct (fl_new_spec 64 [0; 1]) as (fl & Hfl & _ & Ht & _);
        [vm_compute; split; congruence|repeat constructor; lia|]. rewrite Hfl in Hs0.
      apply (inj Some) in Hs0. subst s0. destruct (Hnone eq_refl) as [Hc _]. cbn [ms_freelist] in Hc.
      rewrite Ht in Hc. by vm_compute in Hc. }
  destruct (Hsome r s eq_refl) as (pg & _ & Hwf & _ & _ & _ & Hp). exists s, pg.
  assert (Hpg : mem_page s pg = Some (page_new PtData pg)) by by rewrite Hp, decide_True.
  pose proof Hpg as Hpos. apply mem_page_Some in Hpos as (H0 & _ & Hlt). apply lookup_lt_Some in Hlt.
  rewrite <-(Nat2Z.id (length _)) in Hlt. rewrite (mw_pages _ Hwf) in Hlt.
  assert (Hu : in_u64 pg) by (eapply fl_page_u64; [apply Hwf|lia]).
  destruct (page_new_fields PtData pg Hu) as (_ & Hm & _ & _ & Hn & _ & _ & Hfs & Hfe).
  destruct (page_new_heap_wf PtData pg) as [Hwfp _]; [done|]. split; [exact Hwf|]. split; [exact Hpg|].
  split; [split; [exact Hwfp|exact Hm]|]. split; [exact Hn|]. unfold free_space. rewrite Hfs, Hfe. reflexivity.
Qed.

Lemma rollback_restores_rows_witness :
  exists (s : MemoryStorage) (pg : Z) s', rollback_heap s [UndoInsert pg 0] = Some (Ok tt, s') /\
    row (st_page s) (pg, 0) = Some (Some (mkRow 5 0 0 0, [1; 2; 3])) /\ row (st_page s') (pg, 0) = Some None.
Proof.
  destruct sample_store as (s & pg & Hwf & Hp & Hh & Hn & Hfree). destruct sample_data as (Hd & Ht & Hl).
  destruct (insert_at_tail_spec s pg _ 5 [1; 2; 3] Hwf Hp Hh Ht Hd Hl) as (s1 & Hins & Hwf1 & Hmv); [rewrite Hfree; vm_compute; congruence|].
  rewrite Hn in *.
  assert (Hrow : row (st_page s) (pg, 0) = None).
  { unfold row. cbn [fst snd]. rewrite Hp, Hn, decide_False; [done|lia]. }
  assert (Hdo : do_action s 5 (HInsert pg [1; 2; 3]) = Some (Ok (Some (UndoInsert pg 0)), s1)).
  { cbn [do_action]. rewrite Hins. reflexivity. }
  assert (Hok : action_ok s 5 (HInsert pg [1; 2; 3])).
  { split; [exact Ht|]. split; [by eexists|]. split; [exact Hd|exact Hl]. }
  pose proof (history_mine 5 s [] ∅ _ _ s1 (history_start 5 s Hwf) Hok Hdo) as Hh1.
  destruct (rollback_restores_rows 5 s1 _ _ [] 0 0 Hh1) as (s' & Hrb & _ & _ & Hall & _).
  exists s1, pg, s'. split; [exact Hrb|]. split.
  - rewrite (row_set _ _ _ _ _ Hmv), decide_True by done. done.
  - rewrite Hall, saves_lookup, lookup_empty, decide_True by left. rewrite Hrow. cbn [default from_option]. by rewrite cleared_None.
Defined.
