(* ===== verification/ZoneMap.v ===== *)
(** * Zone maps

    crates/axiomdb-storage/src/zone_map.rs: the smallest and the largest value of one
    integer column among the rows of a heap page, kept in the reserved bytes of its header,
    and the test by which the filtered scan of crates/axiomdb-sql/src/table_scan.rs skips a
    page.  [zone_covers] says what makes skipping right. *)

From S2P Require Import Prelude Page Heap.

(** ** The map in the header *)

(** [_reserved] starts at byte 36 of the header. *)
Definition RESERVED : Z := 36.
Definition ZM_OFFSET : Z := 8.
Definition ZM_VERSION_OFFSET : Z := ZM_OFFSET.
Definition ZM_COL_OFFSET : Z := ZM_OFFSET + 1.
Definition ZM_MIN_OFFSET : Z := ZM_OFFSET + 2.
Definition ZM_MAX_OFFSET : Z := ZM_OFFSET + 10.
Definition ZM_VERSION_1 : Z := 1.

Record ZoneMap : Type := mkZone { zm_col : Z; min_val : Z; max_val : Z }.

Definition get_res (off n : Z) (p : Page) : Z := get_le (RESERVED + off) n p.
Definition set_res (off n v : Z) (p : Page) : Page := set_le (RESERVED + off) n v p.
(** [i64::from_le_bytes] and [i64::to_le_bytes]. *)
Definition get_i64 (off : Z) (p : Page) : Z := as_signed 64 (get_res off 8 p).
Definition set_i64 (off v : Z) (p : Page) : Page := set_res off 8 (wrap64 v) p.

Definition read_zone_map (page : Page) : option ZoneMap :=
  if negb (get_res ZM_VERSION_OFFSET 1 page =? ZM_VERSION_1) then None
  else Some (mkZone (get_res ZM_COL_OFFSET 1 page) (get_i64 ZM_MIN_OFFSET page) (get_i64 ZM_MAX_OFFSET page)).

Definition write_zone_map (page : Page) (zm : ZoneMap) : Page :=
  let page := set_res ZM_VERSION_OFFSET 1 ZM_VERSION_1 page in
  let page := set_res ZM_COL_OFFSET 1 (zm_col zm) page in
  let page := set_i64 ZM_MIN_OFFSET (min_val zm) page in
  set_i64 ZM_MAX_OFFSET (max_val zm) page.

Definition clear_zone_map (page : Page) : Page := set_res ZM_VERSION_OFFSET 1 0 page.

Definition I64_MIN : Z := - 2 ^ 63.
Definition I64_MAX : Z := 2 ^ 63 - 1.

Definition update_zone_map (page : Page) (col_idx value : Z) : Page :=
  let existing_slots := num_slots page in
  if negb (get_res ZM_VERSION_OFFSET 1 page =? ZM_VERSION_1) || negb (get_res ZM_COL_OFFSET 1 page =? col_idx) then
    let page := set_res ZM_VERSION_OFFSET 1 ZM_VERSION_1 page in
    let page := set_res ZM_COL_OFFSET 1 col_idx page in
    if 1 <? existing_slots then set_i64 ZM_MAX_OFFSET I64_MAX (set_i64 ZM_MIN_OFFSET I64_MIN page)
    else set_i64 ZM_MAX_OFFSET value (set_i64 ZM_MIN_OFFSET value page)
  else
    let cur_min := get_i64 ZM_MIN_OFFSET page in
    let cur_max := get_i64 ZM_MAX_OFFSET page in
    let page := if value <? cur_min then set_i64 ZM_MIN_OFFSET value page else page in
    if cur_max <? value then set_i64 ZM_MAX_OFFSET value page else page.

(** ** Predicates *)

Inductive ZoneMapPredicate : Type :=
| ZEq (val : Z)
| ZGt (val : Z)
| ZGtEq (val : Z)
| ZLt (val : Z)
| ZLtEq (val : Z)
| ZBetween (lo hi : Z).

Definition zone_map_might_match (zm : ZoneMap) (predicate : ZoneMapPredicate) : bool :=
  match predicate with
  | ZEq val => (min_val zm <=? val) && (val <=? max_val zm)
  | ZGt val => val <? max_val zm
  | ZGtEq val => val <=? max_val zm
  | ZLt val => min_val zm <? val
  | ZLtEq val => min_val zm <=? val
  | ZBetween lo hi => (min_val zm <=? hi) && (lo <=? max_val zm)
  end.

(** The test of the filtered scan: the page is skipped. *)
Definition zone_map_skips (page : Page) (zone_map_pred : option (Z * ZoneMapPredicate)) : bool :=
  match zone_map_pred with
  | None => false
  | Some (pred_col_idx, zmp) =>
      match read_zone_map page with
      | None => false
      | Some zm => (zm_col zm =? pred_col_idx) && negb (zone_map_might_match zm zmp)
      end
  end.

(** ** Specifications *)

(** What a predicate says of a value. *)
Definition zone_holds (predicate : ZoneMapPredicate) (v : Z) : Prop :=
  match predicate with
  | ZEq val => v = val
  | ZGt val => val < v
  | ZGtEq val => val <= v
  | ZLt val => v < val
  | ZLtEq val => v <= val
  | ZBetween lo hi => lo <= v <= hi
  end.

(** [value d] is the integer in column [c] of the encoded row [d], if it has one.  A map
    on the page is about [c] and covers every row stored there. *)
Definition zone_covers (c : Z) (value : bytes -> option Z) (p : Page) : Prop :=
  forall zm, read_zone_map p = Some zm -> zm_col zm = c /\
    forall j h d v, 0 <= j < num_slots p -> tuple_at p j = Some (h, d) -> value d = Some v ->
      min_val zm <= v <= max_val zm.

Lemma might_match_complete zm predicate v :
  min_val zm <= v <= max_val zm -> zone_holds predicate v -> zone_map_might_match zm predicate = true.
Proof.
  intros Hv. destruct predicate; cbn; intros Hp; rewrite ?andb_true_iff, ?Z.leb_le, ?Z.ltb_lt; lia.
Qed.

(** A skipped page has no row that satisfies the predicate. *)
Lemma zone_skip_sound c value p predicate j h d v :
  zone_covers c value p -> zone_map_skips p (Some (c, predicate)) = true ->
  0 <= j < num_slots p -> tuple_at p j = Some (h, d) -> value d = Some v -> ~ zone_holds predicate v.
Proof.
  intros Hcov. unfold zone_map_skips. destruct (read_zone_map p) as [zm|] eqn:Hzm; [|done].
  rewrite andb_true_iff, negb_true_iff. intros [_ Hmm] Hj Ht Hv Hp.
  rewrite (might_match_complete zm predicate v) in Hmm; [done| |done]. destruct (Hcov zm Hzm) as [_ H]. by eapply H.
Qed.

(** ** The reserved bytes *)

Ltac res_range := unfold PAGE_SIZE, RESERVED, ZM_VERSION_OFFSET, ZM_COL_OFFSET, ZM_MIN_OFFSET,
  ZM_MAX_OFFSET, ZM_OFFSET in *; lia.

Lemma as_signed_wrap64 v : in_i64 v -> as_signed 64 (wrap64 v) = v.
Proof. intros Hv. unfold as_signed, wrap64. rewrite Z.mod_mod by lia. by apply (as_signed_id 63); [lia|]. Qed.

Section Reserved.
Context (p : Page) (off n v : Z).
Hypothesis Hp : page_ok p.
Hypothesis Hoff : 0 <= off /\ 0 < n /\ off + n <= 28.

Lemma get_set_res : 0 <= v < 2 ^ (n * 8) -> get_res off n (set_res off n v p) = v.
Proof. destruct Hp as [Hl _]. intros Hv. apply get_set_eq; [res_range..|done]. Qed.

Lemma get_set_res_ne o l :
  0 <= o -> 0 < l -> o + l <= 28 -> o + l <= off \/ off + n <= o -> get_res o l (set_res off n v p) = get_res o l p.
Proof. destruct Hp as [Hl _]. intros. apply get_set_ne; res_range. Qed.

Lemma page_ok_res : page_ok (set_res off n v p).
Proof. apply page_ok_set_le; [res_range..|done]. Qed.

Lemma requiet_res : requiet p (set_res off n v p).
Proof. destruct Hp as [Hl _]. apply requiet_set_le; [done|res_range..]. Qed.
End Reserved.

(** [p'] is [p] with another zone map. *)
Record rezoned (p p' : Page) : Prop := {
  rz_ok : page_ok p';
  rz_quiet : requiet p p';
  rz_next : get_res 0 8 p' = get_res 0 8 p
}.

Lemma rezoned_trans p1 p2 p3 : rezoned p1 p2 -> rezoned p2 p3 -> rezoned p1 p3.
Proof. intros [? H1 ?] [? H2 ?]. split; [done|by eapply requiet_trans|congruence]. Qed.

Lemma rezoned_set p off n v : page_ok p -> 8 <= off -> 0 < n -> off + n <= 28 -> rezoned p (set_res off n v p).
Proof.
  intros. split; [apply page_ok_res; [done|lia]|apply requiet_res; [done|lia]|].
  apply get_set_res_ne; [done|lia..].
Qed.

Lemma rezoned_i64 p off v : page_ok p -> 8 <= off -> off + 8 <= 28 -> rezoned p (set_i64 off v p).
Proof. intros. apply rezoned_set; lia || done. Qed.

Lemma get_set_i64 p off v : page_ok p -> 0 <= off -> off + 8 <= 28 -> in_i64 v -> get_i64 off (set_i64 off v p) = v.
Proof.
  intros Hp H0 H1 Hv. unfold get_i64, set_i64. rewrite get_set_res; [by apply as_signed_wrap64|done|lia|].
  apply Z.mod_pos_bound. lia.
Qed.

Lemma get_set_i64_ne p off v o :
  page_ok p -> 0 <= off -> off + 8 <= 28 -> 0 <= o -> o + 8 <= 28 -> o + 8 <= off \/ off + 8 <= o ->
  get_i64 o (set_i64 off v p) = get_i64 o p.
Proof. intros. unfold get_i64, set_i64. by rewrite get_set_res_ne by (done || lia). Qed.

Lemma get_res_i64 p off v o l :
  page_ok p -> 0 <= off -> off + 8 <= 28 -> 0 <= o -> 0 < l -> o + l <= 28 -> o + l <= off \/ off + 8 <= o ->
  get_res o l (set_i64 off v p) = get_res o l p.
Proof. intros. unfold set_i64. by rewrite get_set_res_ne by (done || lia). Qed.

(** Setting both bounds. *)
Lemma bounds_set p lo hi :
  page_ok p -> in_i64 lo -> in_i64 hi ->
  let p' := set_i64 ZM_MAX_OFFSET hi (set_i64 ZM_MIN_OFFSET lo p) in
  rezoned p p' /\ get_res ZM_VERSION_OFFSET 1 p' = get_res ZM_VERSION_OFFSET 1 p /\
  get_res ZM_COL_OFFSET 1 p' = get_res ZM_COL_OFFSET 1 p /\
  get_i64 ZM_MIN_OFFSET p' = lo /\ get_i64 ZM_MAX_OFFSET p' = hi.
Proof.
  intros Hp Hlo Hhi p'. pose proof (rezoned_i64 p ZM_MIN_OFFSET lo Hp ltac:(res_range) ltac:(res_range)) as H1.
  pose proof (rezoned_i64 _ ZM_MAX_OFFSET hi (rz_ok _ _ H1) ltac:(res_range) ltac:(res_range)) as H2.
  pose proof (rz_ok _ _ H1) as Hok. unfold p'. split; [by eapply rezoned_trans|].
  rewrite !(get_res_i64 _ _ _ ZM_VERSION_OFFSET), !(get_res_i64 _ _ _ ZM_COL_OFFSET) by (done || res_range).
  split_and!; [done|done| |by apply get_set_i64; try done; res_range].
  rewrite get_set_i64_ne by (done || res_range). by apply get_set_i64; try done; res_range.
Qed.

Lemma get_i64_range off p : in_i64 (get_i64 off p).
Proof.
  unfold get_i64, as_signed, in_i64. pose proof (Z.mod_pos_bound (get_res off 8 p) (2 ^ 64)).
  destruct (Z.ltb_spec (get_res off 8 p mod 2 ^ 64) (2 ^ (64 - 1))); lia.
Qed.

(** The bounds after [update_zone_map]. *)
Definition zone_after (p : Page) (c v : Z) : ZoneMap :=
  let fresh := if 1 <? num_slots p then mkZone c I64_MIN I64_MAX else mkZone c v v in
  match read_zone_map p with
  | Some zm => if zm_col zm =? c then mkZone c (Z.min v (min_val zm)) (Z.max v (max_val zm)) else fresh
  | None => fresh
  end.

Lemma update_zone_map_new p c v :
  page_ok p -> 0 <= c < 2 ^ 8 -> in_i64 v ->
  let p1 := set_res ZM_COL_OFFSET 1 c (set_res ZM_VERSION_OFFSET 1 ZM_VERSION_1 p) in
  let p' := if 1 <? num_slots p then set_i64 ZM_MAX_OFFSET I64_MAX (set_i64 ZM_MIN_OFFSET I64_MIN p1)
            else set_i64 ZM_MAX_OFFSET v (set_i64 ZM_MIN_OFFSET v p1) in
  rezoned p p' /\ read_zone_map p' = Some (if 1 <? num_slots p then mkZone c I64_MIN I64_MAX else mkZone c v v).
Proof.
  intros Hp Hc Hv p1. pose proof (rezoned_set p ZM_VERSION_OFFSET 1 ZM_VERSION_1 Hp) as H1.
  specialize (H1 ltac:(res_range) ltac:(res_range) ltac:(res_range)). pose proof (rz_ok _ _ H1) as Hok1.
  pose proof (rezoned_set _ ZM_COL_OFFSET 1 c Hok1 ltac:(res_range) ltac:(res_range) ltac:(res_range)) as H2.
  fold p1 in H2. pose proof (rz_ok _ _ H2) as Hok2.
  assert (Hver : get_res ZM_VERSION_OFFSET 1 p1 = ZM_VERSION_1).
  { unfold p1. rewrite get_set_res_ne by (done || res_range). apply get_set_res; [done|res_range|done]. }
  assert (Hcol : get_res ZM_COL_OFFSET 1 p1 = c) by (apply get_set_res; [done|res_range|lia]).
  assert (Hset : forall lo hi, in_i64 lo -> in_i64 hi ->
    rezoned p (set_i64 ZM_MAX_OFFSET hi (set_i64 ZM_MIN_OFFSET lo p1)) /\
    read_zone_map (set_i64 ZM_MAX_OFFSET hi (set_i64 ZM_MIN_OFFSET lo p1)) = Some (mkZone c lo hi)).
  { intros lo hi Hlo Hhi. destruct (bounds_set p1 lo hi Hok2 Hlo Hhi) as (Hr & Hv' & Hc' & Hmin & Hmax).
    split; [eapply rezoned_trans; [eapply rezoned_trans; [exact H1|exact H2]|exact Hr]|].
    unfold read_zone_map. by rewrite Hv', Hc', Hmin, Hmax, Hver, Hcol. }
  destruct (1 <? num_slots p); apply Hset; try done; unfold in_i64, I64_MIN, I64_MAX; lia.
Qed.

Lemma update_zone_map_spec p c v :
  page_ok p -> 0 <= c < 2 ^ 8 -> in_i64 v ->
  rezoned p (update_zone_map p c v) /\ read_zone_map (update_zone_map p c v) = Some (zone_after p c v).
Proof.
  intros Hp Hc Hv. unfold update_zone_map, zone_after. unfold read_zone_map at 2.
  destruct (Z.eqb_spec (get_res ZM_VERSION_OFFSET 1 p) ZM_VERSION_1) as [Hver|Hver]; cbn [negb orb].
  2:{ by apply update_zone_map_new. }
  cbn [zm_col min_val max_val]. destruct (Z.eqb_spec (get_res ZM_COL_OFFSET 1 p) c) as [Hcol|Hcol]; cbn [negb].
  2:{ by apply update_zone_map_new. }
  set (lo := get_i64 ZM_MIN_OFFSET p). set (hi := get_i64 ZM_MAX_OFFSET p).
  set (p1 := if v <? lo then set_i64 ZM_MIN_OFFSET v p else p).
  assert (H1 : rezoned p p1 /\ get_i64 ZM_MIN_OFFSET p1 = Z.min v lo /\ get_i64 ZM_MAX_OFFSET p1 = hi /\
    get_res ZM_VERSION_OFFSET 1 p1 = ZM_VERSION_1 /\ get_res ZM_COL_OFFSET 1 p1 = c).
  { unfold p1. destruct (Z.ltb_spec v lo); [|split_and!; try done; lia].
    split; [apply rezoned_i64; done || res_range|].
    rewrite get_set_i64, get_set_i64_ne, !get_res_i64 by (done || res_range). split_and!; try done. lia. }
  destruct H1 as (Hr1 & Hmin & Hmax & Hv1 & Hc1). pose proof (rz_ok _ _ Hr1) as Hok1.
  unfold read_zone_map. destruct (Z.ltb_spec hi v).
  - rewrite !get_res_i64, get_set_i64, get_set_i64_ne by (done || res_range). rewrite Hv1, Hc1, Hmin.
    split; [eapply rezoned_trans; [exact Hr1|apply rezoned_i64; done || res_range]|]. cbn. do 2 f_equal. lia.
  - split; [done|]. rewrite Hv1, Hc1, Hmin, Hmax. cbn. do 2 f_equal. lia.
Qed.

(** ** What keeps a map right *)

Lemma reserved_get p p' off n :
  page_ok p -> reserved p' = reserved p -> 0 <= off -> 0 < n -> off + n <= 28 -> get_res off n p' = get_res off n p.
Proof.
  intros [Hl _] Hr Ho Hn Hb. apply (get_le_ext 36 28); [exact Hr|..]; res_range.
Qed.

Lemma reserved_zone p p' : page_ok p -> reserved p' = reserved p -> read_zone_map p' = read_zone_map p.
Proof.
  intros Hp Hr. unfold read_zone_map, get_i64.
  by rewrite !(reserved_get p p') by (done || res_range).
Qed.

Section Covers.
Context (c : Z) (value : bytes -> option Z).
Hypothesis Hc : 0 <= c < 2 ^ 8.
Hypothesis Hvalue : forall d v, value d = Some v -> in_i64 v.

(** The step of the batch insertion: the row is appended, then the map is updated. *)
Lemma zone_covers_append p p1 h data :
  heap_wf p -> appended p p1 (Some (h, data)) -> zone_covers c value p ->
  zone_covers c value (match value data with Some v => update_zone_map p1 c v | None => p1 end).
Proof.
  intros Hwf Hap Hcov. pose proof (ap_n _ _ _ Hap) as Hn. pose proof (num_slots_range p Hwf) as Hn0.
  pose proof (reserved_zone p p1 (hw_page _ Hwf) (ap_reserved _ _ _ Hap)) as Hz1.
  assert (Hrows : forall j h' d', 0 <= j < num_slots p1 -> tuple_at p1 j = Some (h', d') ->
    d' = data \/ 0 <= j < num_slots p /\ tuple_at p j = Some (h', d')).
  { intros j h' d' Hj Ht. destruct (decide (j = num_slots p)) as [->|Hne].
    - left. rewrite (ap_new _ _ _ Hap) in Ht. congruence.
    - right. rewrite (ap_old _ _ _ Hap) in Ht by lia. split; [lia|done]. }
  destruct (value data) as [v|] eqn:Hv.
  - destruct (update_zone_map_spec p1 c v) as [Hr Hz]; [apply Hap|done|by eapply Hvalue|].
    destruct (requiet_same p1 _ (ap_wf _ _ _ Hap) (rz_quiet _ _ Hr)) as (_ & Hn' & _ & _ & Hall).
    intros zm. rewrite Hz. intros [= <-]. unfold zone_after. rewrite Hz1.
    assert (Hfresh : forall j h' d' v', 0 <= j < num_slots p1 -> tuple_at p1 j = Some (h', d') -> value d' = Some v' ->
      in_i64 v' /\ ((1 <? num_slots p1) = false -> v' = v)).
    { intros j h' d' v' Hj Ht Hv'. split; [by eapply Hvalue|]. intros Hle%Z.ltb_ge.
      destruct (Hrows j h' d' Hj Ht) as [->|[? _]]; [congruence|lia]. }
    assert (Hwide : let zm := if 1 <? num_slots p1 then mkZone c I64_MIN I64_MAX else mkZone c v v in
      zm_col zm = c /\ forall j h' d' v', 0 <= j < num_slots p1 -> tuple_at p1 j = Some (h', d') -> value d' = Some v' ->
        min_val zm <= v' <= max_val zm).
    { destruct (1 <? num_slots p1) eqn:H1; (split; [done|]); intros j h' d' v' Hj Ht Hv';
        destruct (Hfresh j h' d' v' Hj Ht Hv') as [Hr' Heq]; cbn; unfold in_i64, I64_MIN, I64_MAX in *; [lia|].
      rewrite Heq by done. lia. }
    assert (Hshow : forall zm', (zm_col zm' = c /\ forall j h' d' v', 0 <= j < num_slots p1 -> tuple_at p1 j = Some (h', d') ->
        value d' = Some v' -> min_val zm' <= v' <= max_val zm') -> zm_col zm' = c /\
      forall j h' d' v', 0 <= j < num_slots (update_zone_map p1 c v) -> tuple_at (update_zone_map p1 c v) j = Some (h', d') ->
        value d' = Some v' -> min_val zm' <= v' <= max_val zm').
    { intros zm' [H1 H2]. split; [done|]. intros j h' d' v' Hj Ht. rewrite Hn' in Hj.
      rewrite (proj2 (Hall j Hj)) in Ht. by eapply H2. }
    apply Hshow. destruct (read_zone_map p) as [zm|] eqn:Hzp; [|exact Hwide].
    destruct (Hcov zm Hzp) as [Hcol Hin]. rewrite Hcol, Z.eqb_refl. split; [done|].
    intros j h' d' v' Hj Ht Hv'. cbn. destruct (Hrows j h' d' Hj Ht) as [->|[Hj' Ht']].
    + assert (v' = v) as -> by congruence. lia.
    + specialize (Hin j h' d' v' Hj' Ht' Hv'). lia.
  - intros zm. rewrite Hz1. intros Hzm. destruct (Hcov zm Hzm) as [Hcol Hin]. split; [done|].
    intros j h' d' v' Hj Ht Hv'. destruct (Hrows j h' d' Hj Ht) as [->|[Hj' Ht']]; [congruence|by eapply Hin].
Qed.
End Covers.
