(* ===== verification/HeapChain.v ===== *)
(** * Chains of heap pages

    crates/axiomdb-storage/src/heap_chain.rs, heap_chain_write.rs, heap_chain_scan.rs and
    heap_chain_batch.rs: the rows of a table are spread over heap pages linked through the
    reserved bytes of their headers.  This file has the operations, what it means that pages
    form a chain, and the scans.  The sections of [chain_insert] that run under one page
    latch are functions of their own, so that calls can be interleaved at their borders.
    Walks along the chain take fuel, one unit per page and one for the end. *)

From S2P Require Import Prelude Page Heap PageRows SlotBitmap FreeList Storage PageIo ZoneMap.

(** ** Links *)

(** [_reserved[0..8]] is bytes 36 to 43 of the page. *)
Definition chain_next_page (page : Page) : Z := get_le 36 8 page.
Definition chain_set_next_page (page : Page) (next : Z) : Page := set_le 36 8 next page.

Record HeapAppendHint : Type := mkHint { hint_root_page_id : Z; hint_tail_page_id : Z }.

Section Operations.
Context {St : Type} {C : Crc32c} {E : StorageEngine St}.

(** [Page::from_bytes( *storage.read_page(id)?.as_bytes())?] *)
Definition load_checked (page_id : Z) : M St Page :=
  do! raw := io_read page_id in
  match page_from_bytes raw with
  | Ok page => io_ret page
  | Err e => io_fail e
  end.

(** The result and the page of a page operation, its error returned with [?]. *)
Definition page_op {A} (r : option (Result A * Page)) : M St (A * Page) :=
  match r with
  | None => io_panic
  | Some (Err e, _) => io_fail e
  | Some (Ok a, page) => io_ret (a, page)
  end.

(** A page operation that only reads. *)
Definition page_get {A} (r : option (Result A)) : M St A :=
  match r with
  | None => io_panic
  | Some (Err e) => io_fail e
  | Some (Ok a) => io_ret a
  end.

Fixpoint last_page_id (fuel : nat) (current : Z) : M St Z :=
  match fuel with
  | O => io_panic
  | S fuel' =>
      do! page := io_read current in
      let next := chain_next_page page in
      if next =? 0 then io_ret current else last_page_id fuel' next
  end.

(** ** Insertion *)

(** Under the latch of the last page; [None] when the page is full. *)
Definition insert_try (last_page_id : Z) (data : bytes) (txn_id : Z) : M St (option Z) :=
  do! page := load_checked last_page_id in
  match insert_tuple page data txn_id with
  | None => io_panic
  | Some (Ok slot_id, page) =>
      do! _ := io_write last_page_id (update_checksum page) in
      io_ret (Some slot_id)
  | Some (Err (HeapPageFull _ _ _), _) => io_ret None
  | Some (Err e, _) => io_fail e
  end.

(** Without a latch: allocate a page, and write it with the row. *)
Definition insert_new_page (data : bytes) (txn_id : Z) : M St (Z * Z) :=
  do! new_page_id := io_alloc PtData in
  do! r := page_op (insert_tuple (page_new PtData new_page_id) data txn_id) in
  do! _ := io_write new_page_id (update_checksum r.2) in
  io_ret (new_page_id, r.1).

(** Under the latches of both pages. *)
Definition insert_link (last_page_id new_page_id : Z) : M St unit :=
  do! prev_page := load_checked last_page_id in
  io_write last_page_id (update_checksum (chain_set_next_page prev_page new_page_id)).

(** The location of the row, and whether the chain grew. *)
Definition insert_at (last_page_id : Z) (data : bytes) (txn_id : Z) : M St (Z * Z * bool) :=
  do! slot := insert_try last_page_id data txn_id in
  match slot with
  | Some slot_id => io_ret (last_page_id, slot_id, false)
  | None =>
      do! rid := insert_new_page data txn_id in
      do! _ := insert_link last_page_id rid.1 in
      io_ret (rid, true)
  end.

Definition chain_insert (fuel : nat) (root_page_id : Z) (data : bytes) (txn_id : Z) : M St (Z * Z) :=
  do! last := last_page_id fuel root_page_id in
  do! r := insert_at last data txn_id in
  io_ret r.1.

(** The tail, and the hint as it was left. *)
Definition resolve_tail_with_hint (fuel : nat) (root_page_id : Z) (hint : option HeapAppendHint)
    : M St (Z * option HeapAppendHint) :=
  match hint with
  | None => do! tail := last_page_id fuel root_page_id in io_ret (tail, None)
  | Some h =>
      let heal :=
        do! tail := last_page_id fuel root_page_id in
        io_ret (tail, Some (mkHint root_page_id tail)) in
      if hint_root_page_id h =? root_page_id then
        fun x =>
          match read_page (io_store x) (hint_tail_page_id h) with
          | None => None
          | Some (Ok p) => if chain_next_page p =? 0 then io_ret (hint_tail_page_id h, Some h) x else heal x
          | Some (Err _) => heal x
          end
      else heal
  end.

(** The hint is an in-out argument: it is returned with an error as well. *)
Definition insert_with_hint (fuel : nat) (root_page_id : Z) (data : bytes) (txn_id : Z)
    (hint : option HeapAppendHint) (x : Io St) : option (Result (Z * Z) * option HeapAppendHint * Io St) :=
  match resolve_tail_with_hint fuel root_page_id hint x with
  | None => None
  | Some (Err e, x1) => Some (Err e, hint, x1)
  | Some (Ok (last, hint1), x1) =>
      match insert_at last data txn_id x1 with
      | None => None
      | Some (Err e, x2) => Some (Err e, hint1, x2)
      | Some (Ok (rid, grew), x2) =>
          Some (Ok rid, if grew then (fun _ => mkHint root_page_id rid.1) <$> hint1 else hint1, x2)
      end
  end.

(** ** Scans *)

(** The loop of the slow path: whether every row is visible to all, whether there is a
    live row, and the visible rows. *)
Fixpoint scan_slow (page : Page) (snap : TransactionSnapshot) (slots : list Z) (all_vis has_alive : bool)
    : option (bool * bool * list (Z * bytes)) :=
  match slots with
  | [] => Some (all_vis, has_alive, [])
  | slot_id :: slots' =>
      let! entry := read_slot page slot_id in
      if is_dead entry then scan_slow page snap slots' all_vis has_alive
      else
        let! bs := slice (s_offset entry) (s_length entry) page in
        let! t := split_tuple (s_offset entry) bs in
        let all_vis :=
          if negb (txn_id_deleted t.1 =? 0) || (snapshot_id snap <=? txn_id_created t.1) then false else all_vis in
        if negb (is_visible t.1 snap) then scan_slow page snap slots' all_vis true
        else
          let! r := scan_slow page snap slots' all_vis true in
          Some (r.1, (slot_id, t.2) :: r.2)
  end.

(** The lazy write of the flag, from the copy of the page that was scanned. *)
Definition lazy_set (current : Z) (page : Page) (all_vis has_alive : bool) : M St unit :=
  if all_vis && has_alive && (0 <? hdr_item_count page)
  then io_write current (update_checksum (set_all_visible page))
  else io_ret tt.

(** One turn of the loop of [scan_visible]. *)
Definition scan_page (current : Z) (page : Page) (snap : TransactionSnapshot) : M St (list (Z * bytes)) :=
  let slots := seqZ 0 (num_slots page) in
  if is_all_visible page then io_pure (scan_slots page snap slots)
  else
    do! r := io_pure (scan_slow page snap slots true false) in
    do! _ := lazy_set current page r.1.1 r.1.2 in
    io_ret r.2.

Fixpoint chain_scan_visible (fuel : nat) (current : Z) (snap : TransactionSnapshot) : M St (list (Z * Z * bytes)) :=
  match fuel with
  | O => io_panic
  | S fuel' =>
      if current =? 0 then io_ret []
      else
        do! page := load_checked current in
        let next := chain_next_page page in
        do! rows := scan_page current page snap in
        do! rest := chain_scan_visible fuel' next snap in
        io_ret (((fun r => (current, r.1, r.2)) <$> rows) ++ rest)
  end.

(** The same loop, which keeps the locations only. *)
Fixpoint scan_rids_visible (fuel : nat) (current : Z) (snap : TransactionSnapshot) : M St (list (Z * Z)) :=
  match fuel with
  | O => io_panic
  | S fuel' =>
      if current =? 0 then io_ret []
      else
        do! page := load_checked current in
        let next := chain_next_page page in
        do! rows := scan_page current page snap in
        do! rest := scan_rids_visible fuel' next snap in
        io_ret (((fun r => (current, r.1)) <$> rows) ++ rest)
  end.

Fixpoint scan_visible_ro (fuel : nat) (current : Z) (snap : TransactionSnapshot) : M St (list (Z * Z * bytes)) :=
  match fuel with
  | O => io_panic
  | S fuel' =>
      if current =? 0 then io_ret []
      else
        do! page := io_read current in
        let next := chain_next_page page in
        do! rows := io_pure (scan_visible page snap) in
        do! rest := scan_visible_ro fuel' next snap in
        io_ret (((fun r => (current, r.1, r.2)) <$> rows) ++ rest)
  end.

(** The loop of [count_visible] over the slots of one page. *)
Fixpoint count_slots (page : Page) (snap : TransactionSnapshot) (slots : list Z) : option Z :=
  match slots with
  | [] => Some 0
  | slot_id :: slots' =>
      let! entry := read_slot page slot_id in
      if is_dead entry then count_slots page snap slots'
      else if s_length entry <? ROW_HEADER_SIZE then count_slots page snap slots'
      else
        let! bs := slice (s_offset entry) (s_length entry) page in
        let! t := split_tuple (s_offset entry) bs in
        let! n := count_slots page snap slots' in
        Some (if is_visible t.1 snap then n + 1 else n)
  end.

Fixpoint count_visible (fuel : nat) (current : Z) (snap : TransactionSnapshot) : M St Z :=
  match fuel with
  | O => io_panic
  | S fuel' =>
      if current =? 0 then io_ret 0
      else
        do! page := io_read current in
        let next := chain_next_page page in
        do! n := io_pure (count_slots page snap (seqZ 0 (num_slots page))) in
        do! rest := count_visible fuel' next snap in
        io_ret (n + rest)
  end.

(** ** Single rows *)

Definition read_row (page_id slot_id : Z) : M St (option bytes) :=
  do! page := load_checked page_id in
  do! t := page_get (read_tuple page slot_id) in
  io_ret (snd <$> t).

Definition is_slot_visible (page_id slot_id : Z) (snap : TransactionSnapshot) : M St bool :=
  do! page := load_checked page_id in
  do! t := page_get (read_tuple page slot_id) in
  io_ret (match t with None => false | Some (header, _) => is_visible header snap end).
End Operations.

(** ** Chains *)

Definition next_of (ps : list (Z * Page)) (next : Z) : Z :=
  match ps with [] => next | (i, _) :: _ => i end.

(** The pages [ps] are linked in this order, the last one to [next]. *)
Fixpoint linked (v : Z -> option Page) (ps : list (Z * Page)) (next : Z) : Prop :=
  match ps with
  | [] => True
  | (i, p) :: ps' =>
      page_num i /\ v i = Some p /\ heap_page p /\ chain_next_page p = next_of ps' next /\ linked v ps' next
  end.

Record heap_chain (v : Z -> option Page) (root : Z) (ps : list (Z * Page)) : Prop := {
  hc_root : next_of ps 0 = root;
  hc_some : ps ≠ [];
  hc_nodup : NoDup ps.*1;
  hc_linked : linked v ps 0
}.

(** The rows of a chain, in order, with the dead slots. *)
Definition page_rows (i : Z) (p : Page) : list (Z * Z * Tuple) :=
  (fun j => (i, j, tuple_at p j)) <$> seqZ 0 (num_slots p).
Definition chain_rows (ps : list (Z * Page)) : list (Z * Z * Tuple) := ps ≫= fun ip => page_rows ip.1 ip.2.

Definition visible_of (snap : TransactionSnapshot) (r : Z * Z * Tuple) : option (Z * Z * bytes) :=
  match r.2 with
  | Some (h, d) => if is_visible h snap then Some (r.1, d) else None
  | None => None
  end.

(** The same chain, but for flags and checksums. *)
Definition quiet_chain (ps ps' : list (Z * Page)) : Prop :=
  Forall2 (fun a b => b.1 = a.1 /\ quiet a.2 b.2) ps ps'.

Lemma linked_app v ps qs next : linked v (ps ++ qs) next <-> linked v ps (next_of qs next) /\ linked v qs next.
Proof.
  induction ps as [|[i p] ps IH]; cbn [linked app]; [tauto|]. rewrite IH.
  assert (next_of (ps ++ qs) next = next_of ps (next_of qs next)) as -> by (by destruct ps). tauto.
Qed.

Lemma linked_ext v v' ps next : (forall i, i ∈ ps.*1 -> v' i = v i) -> linked v ps next -> linked v' ps next.
Proof.
  induction ps as [|[i p] ps IH]; cbn [linked]; [done|]. intros Hv (Hi & Hp & Hh & Hn & Hl).
  split_and!; [done|by rewrite Hv by (by left)|done|done|]. apply IH; [|done]. intros j Hj. apply Hv. by right.
Qed.

Lemma linked_in v ps next i p : linked v ps next -> (i, p) ∈ ps -> page_num i /\ v i = Some p /\ heap_page p.
Proof.
  induction ps as [|[j q] ps IH]; cbn [linked]; [by intros _ ?%not_elem_of_nil|].
  intros (Hi & Hp & Hh & _ & Hl) [[= -> ->]|Hin]%elem_of_cons; [done|by apply IH].
Qed.

Lemma linked_moved v ps next : linked v ps next -> NoDup ps.*1 -> moved v v ps.*1 ps.*1.
Proof.
  intros Hl Hnd. apply moved_refl; [|done|].
  - intros i ([j p] & -> & Hin)%list_elem_of_fmap. destruct (linked_in _ _ _ _ _ Hl Hin) as (_ & Hp & _). by exists p.
  - apply Forall_fmap, Forall_forall. intros [j p] Hin. by apply (linked_in _ _ _ _ _ Hl Hin).
Qed.

Lemma linked_next_ne v ps : linked v ps 0 -> ps ≠ [] -> next_of ps 0 ≠ 0.
Proof. destruct ps as [|[i p] ps]; [done|]. intros [Hi _] _. unfold page_num in Hi. cbn. lia. Qed.

Lemma chain_rows_app ps qs : chain_rows (ps ++ qs) = chain_rows ps ++ chain_rows qs.
Proof. apply bind_app. Qed.

Lemma chain_rows_one i p : chain_rows [(i, p)] = page_rows i p.
Proof. unfold chain_rows. cbn. by rewrite app_nil_r. Qed.

Lemma page_visible snap i p :
  (fun r => (i, r.1, r.2)) <$> visible_rows snap p = omap (visible_of snap) (page_rows i p).
Proof.
  unfold visible_rows, page_rows. induction (seqZ 0 (num_slots p)) as [|j l IH]; [done|].
  cbn [fmap list_fmap omap list_omap]. unfold visible_row at 1, visible_of at 1. cbn [fst snd].
  destruct (tuple_at p j) as [[h d]|]; [|done]. destruct (is_visible h snap); [|done]. cbn. by f_equal.
Qed.

Lemma page_rows_ext i p p' :
  num_slots p' = num_slots p -> (forall j, 0 <= j < num_slots p -> tuple_at p' j = tuple_at p j) ->
  page_rows i p' = page_rows i p.
Proof.
  intros Hn Ht. unfold page_rows. rewrite Hn. apply list_fmap_ext. intros k j Hj. f_equal. apply Ht.
  apply list_elem_of_lookup_2, elem_of_seqZ in Hj. lia.
Qed.

Lemma quiet_rows i p p' : heap_wf p -> quiet p p' -> page_rows i p' = page_rows i p.
Proof.
  intros Hwf Hq. destruct (quiet_same p p' Hwf Hq) as (_ & Hn & _ & _ & Hall).
  apply page_rows_ext; [done|]. intros j Hj. by apply Hall.
Qed.

Lemma reserved_next p p' : page_ok p -> reserved p' = reserved p -> chain_next_page p' = chain_next_page p.
Proof. intros Hp Hr. by apply (reserved_get p p' 0 8). Qed.

Lemma quiet_heap_page p p' :
  heap_page p -> quiet p p' -> heap_page p' /\ chain_next_page p' = chain_next_page p /\ reserved p' = reserved p.
Proof.
  intros [Hwf Hm] Hq. destruct (quiet_same p p' Hwf Hq) as (Hwf' & _).
  assert (Hr : reserved p' = reserved p) by (by apply (confined_reserved 0 0 0), Hq).
  split_and!; [|apply reserved_next; [apply Hwf|done]|done]. split; [done|].
  rewrite <-Hm. by apply (confined_magic 0 0 0), Hq; [apply Hwf|..].
Qed.

Lemma quiet_chain_rows v ps ps' next : linked v ps next -> quiet_chain ps ps' -> chain_rows ps' = chain_rows ps /\ ps'.*1 = ps.*1.
Proof.
  intros Hl Hq. induction Hq as [|[i p] [i' p'] ps ps' [Hi Hp] Hq IH]; [done|]. cbn in Hi, Hp. subst i'.
  destruct Hl as (_ & _ & [Hwf _] & _ & Hl). destruct (IH Hl) as [IH1 IH2].
  change (page_rows i p' ++ chain_rows ps' = page_rows i p ++ chain_rows ps /\ i :: ps'.*1 = i :: ps.*1).
  by rewrite IH1, IH2, (quiet_rows i p p').
Qed.

Lemma quiet_chain_next ps ps' next : quiet_chain ps ps' -> next_of ps' next = next_of ps next.
Proof. intros [|[i p] [i' p'] ? ? [H _] _]; [done|]. cbn in *. by subst. Qed.

(** ** Scanning *)

Lemma scan_slow_spec p snap slots : forall all_vis has_alive,
  heap_wf p -> Forall (fun i => 0 <= i < num_slots p) slots ->
  exists all_vis' has_alive',
    scan_slow p snap slots all_vis has_alive = Some (all_vis', has_alive', omap (visible_row snap p) slots).
Proof.
  induction slots as [|i slots IH]; intros all_vis has_alive Hwf; cbn [scan_slow]; [by eexists _, _|].
  intros [Hi Hr]%Forall_cons. rewrite read_slot_wf by done. cbn [omap list_omap].
  destruct (is_dead (slot_at p i)) eqn:Hd.
  - assert (visible_row snap p i = None) as -> by (unfold visible_row, tuple_at, tuple_of; by rewrite Hd).
    by apply IH.
  - destruct (live_slice p Hwf i (conj Hi Hd)) as [bs Hbs]. rewrite Hbs.
    rewrite (split_tuple_wf p Hwf i bs (conj Hi Hd) Hbs). unfold visible_row at 1.
    destruct (tuple_at p i) as [[h d]|] eqn:Ht; [|by apply (live_tuple p i Hwf Hi) in Ht]. cbn [fst snd].
    destruct (IH (if negb (txn_id_deleted h =? 0) || (snapshot_id snap <=? txn_id_created h) then false else all_vis) true Hwf Hr)
      as (a & b & ->). destruct (is_visible h snap); cbn [negb]; by eexists _, _.
Qed.

Lemma count_slots_spec p snap slots :
  heap_wf p -> Forall (fun i => 0 <= i < num_slots p) slots ->
  count_slots p snap slots = Some (zlen (omap (visible_row snap p) slots)).
Proof.
  intros Hwf. induction slots as [|i slots IH]; cbn [count_slots]; [done|]. intros [Hi Hr]%Forall_cons.
  rewrite read_slot_wf, IH by done. cbn [omap list_omap]. destruct (is_dead (slot_at p i)) eqn:Hd.
  - assert (visible_row snap p i = None) as -> by (unfold visible_row, tuple_at, tuple_of; by rewrite Hd). done.
  - pose proof (lo_len _ _ (hw_live _ Hwf i (conj Hi Hd))) as Hlen. unfold ROW_HEADER_SIZE.
    rewrite (proj2 (Z.ltb_ge _ _)) by lia. destruct (live_slice p Hwf i (conj Hi Hd)) as [bs Hbs]. rewrite Hbs.
    rewrite (split_tuple_wf p Hwf i bs (conj Hi Hd) Hbs).
    destruct (tuple_at p i) as [[h d]|] eqn:Ht; [|by apply (live_tuple p i Hwf Hi) in Ht]. cbn [fst snd].
    assert (visible_row snap p i = if is_visible h snap then Some (i, d) else None) as ->
      by (unfold visible_row; by rewrite Ht).
    destruct (is_visible h snap); [|done]. cbn [length]. f_equal. lia.
Qed.

Section Scans.
Context {St : Type} {C : Crc32c} {CR : Crc32cRange C} {E : StorageEngine St} {L : StorageLaws St}.

Lemma load_checked_ok x i p : io_wf x -> vw x i = Some p -> heap_page p -> load_checked i x = Some (Ok p, x).
Proof.
  intros Hwf Hp [_ Hm]. pose proof (vw_valid _ _ _ Hwf Hp) as (_ & _ & Hv).
  unfold load_checked, io_bind. by rewrite (io_read_ok x i p Hwf Hp), page_from_bytes_ok.
Qed.

(** [x'] is [x] but for flags and checksums of the pages [ps]. *)
Definition scanned (x x' : Io St) (ps ps' : list (Z * Page)) (next : Z) : Prop :=
  io_wf x' /\ linked (vw x') ps' next /\ quiet_chain ps ps' /\ moved (vw x) (vw x') ps.*1 ps.*1.

Lemma scan_page_spec x i p snap :
  io_wf x -> page_num i -> vw x i = Some p -> heap_page p ->
  exists x' p', scan_page i p snap x = Some (Ok (visible_rows snap p), x') /\ io_wf x' /\ quiet p p' /\
    forall j, vw x' j = if decide (j = i) then Some p' else vw x j.
Proof.
  intros Hwf Hi Hp Hh. pose proof (proj1 Hh) as Hw. pose proof (hw_page _ Hw) as Hok. unfold scan_page.
  assert (Hslots : Forall (fun i => 0 <= i < num_slots p) (seqZ 0 (num_slots p))) by (apply Forall_seqZ; lia).
  assert (Hkeep : exists x' p', Some (Ok (visible_rows snap p), x) = Some (Ok (visible_rows snap p), x') /\ io_wf x' /\ quiet p p' /\
    forall j, vw x' j = if decide (j = i) then Some p' else vw x j).
  { exists x, p. split_and!; [done|done|apply quiet_refl|]. intros j. by case_decide; subst. }
  destruct (is_all_visible p).
  - unfold io_pure. rewrite scan_slots_spec by done. exact Hkeep.
  - destruct (scan_slow_spec p snap _ true false Hw Hslots) as (a & b & Hs). unfold io_bind, io_pure, lazy_set.
    rewrite Hs. cbn [fst snd]. destruct (_ && _ && _); [|exact Hkeep].
    set (p' := update_checksum (set_all_visible p)).
    assert (Hq : quiet p (set_all_visible p)) by (by apply quiet_set).
    destruct (quiet_same p _ Hw Hq) as (Hw1 & _).
    assert (Hq' : quiet p p') by (eapply quiet_trans; [exact Hq|by apply quiet_checksum, hw_page]).
    destruct (io_write_ok x i p' Hwf) as (x' & -> & Hwf' & _ & _ & Hv); [by rewrite Hp|..].
    { apply hw_page, (quiet_same p p' Hw Hq'). }
    { by apply verify_updated, hw_page. }
    exists x', p'. split_and!; [reflexivity|done|done|exact Hv].
Qed.

Lemma scan_step x i p snap ps :
  io_wf x -> linked (vw x) ((i, p) :: ps) 0 -> NoDup ((i, p) :: ps).*1 ->
  exists x1 p1, load_checked i x = Some (Ok p, x) /\ scan_page i p snap x = Some (Ok (visible_rows snap p), x1) /\
    io_wf x1 /\ linked (vw x1) ps 0 /\
    forall x' ps', scanned x1 x' ps ps' 0 -> scanned x x' ((i, p) :: ps) ((i, p1) :: ps') 0.
Proof.
  intros Hwf Hl Hnd. pose proof (linked_moved _ _ _ Hl Hnd) as Hm0. destruct Hl as (Hi & Hp & Hh & Hn & Hl).
  rewrite fmap_cons in Hnd. apply NoDup_cons in Hnd as [Hni Hnd'].
  destruct (scan_page_spec x i p snap Hwf Hi Hp Hh) as (x1 & p1 & Hs & Hwf1 & Hq & Hv).
  exists x1, p1. split_and!; [by apply load_checked_ok|done|done| |].
  { eapply linked_ext; [|done]. intros j Hj. rewrite Hv, decide_False; [done|]. by intros ->. }
  intros x' ps' (Hwf' & Hl' & Hqc & Hm).
  assert (Hv' : vw x' i = Some p1) by (rewrite (mv_keep _ _ _ _ Hm), Hv, decide_True; done).
  destruct (quiet_heap_page p p1 Hh Hq) as (Hh1 & Hn1 & _).
  split_and!; [done| |by constructor|].
  - cbn [linked]. split_and!; [done|done|done| |done]. rewrite Hn1, Hn. symmetry. by apply quiet_chain_next.
  - eapply (fun H => proj1 (moved_sub _ _ _ _ [i] ps.*1 ps.*1 H Hm)).
    eapply (moved_write_in _ _ (vw x1) _ _ i p1 Hm0); [left|exact Hv].
Qed.

Lemma chain_scan_spec snap ps : forall x fuel,
  io_wf x -> linked (vw x) ps 0 -> NoDup ps.*1 -> (length ps < fuel)%nat ->
  exists x' ps', scanned x x' ps ps' 0 /\
    chain_scan_visible fuel (next_of ps 0) snap x = Some (Ok (omap (visible_of snap) (chain_rows ps)), x') /\
    scan_rids_visible fuel (next_of ps 0) snap x = Some (Ok (omap (visible_of snap) (chain_rows ps)).*1, x').
Proof.
  induction ps as [|[i p] ps IH]; intros x [|fuel] Hwf Hl Hnd Hf; try (cbn in Hf; lia).
  - exists x, []. split_and!; [|done|done]. split_and!; [done|done|constructor|by apply (linked_moved _ [] 0)].
  - destruct (scan_step x i p snap ps Hwf Hl Hnd) as (x1 & p1 & Hld & Hs & Hwf1 & Hl1 & Hstep).
    destruct (IH x1 fuel Hwf1 Hl1) as (x' & ps' & Hsc & Hr1 & Hr2); [by rewrite fmap_cons in Hnd; apply NoDup_cons in Hnd as [_ ?]|cbn in Hf; lia|].
    exists x', ((i, p1) :: ps'). split; [by apply Hstep|].
    pose proof (linked_next_ne _ _ Hl ltac:(done)) as Hne. destruct Hl as (_ & _ & _ & Hn & _).
    cbn [next_of chain_scan_visible scan_rids_visible] in *. rewrite (proj2 (Z.eqb_neq i 0)) by done.
    unfold io_bind. rewrite Hld, Hs, Hn, Hr1, Hr2. unfold io_ret.
    change (chain_rows ((i, p) :: ps)) with (page_rows i p ++ chain_rows ps).
    rewrite omap_app, fmap_app, <-page_visible. split; [done|]. do 3 f_equal.
    rewrite <-list_fmap_compose. done.
Qed.

(** Scans that never write. *)
Lemma chain_scan_ro_spec snap ps : forall x fuel,
  io_wf x -> linked (vw x) ps 0 -> (length ps < fuel)%nat ->
  scan_visible_ro fuel (next_of ps 0) snap x = Some (Ok (omap (visible_of snap) (chain_rows ps)), x) /\
  count_visible fuel (next_of ps 0) snap x = Some (Ok (zlen (omap (visible_of snap) (chain_rows ps))), x).
Proof.
  induction ps as [|[i p] ps IH]; intros x [|fuel] Hwf Hl Hf; try (cbn in Hf; lia); [done|].
  pose proof (linked_next_ne _ _ Hl ltac:(done)) as Hne. destruct Hl as (Hi & Hp & [Hw _] & Hn & Hl).
  destruct (IH x fuel Hwf Hl) as [Hr1 Hr2]; [cbn in Hf; lia|].
  cbn [next_of scan_visible_ro count_visible] in *. rewrite (proj2 (Z.eqb_neq i 0)) by done.
  unfold io_bind, io_pure. rewrite (io_read_ok x i p Hwf Hp), scan_visible_spec, count_slots_spec by (done || apply Forall_seqZ; lia).
  rewrite Hn, Hr1, Hr2. change (chain_rows ((i, p) :: ps)) with (page_rows i p ++ chain_rows ps).
  rewrite omap_app, <-page_visible. split; [done|]. unfold io_ret. do 3 f_equal.
  rewrite length_app, length_fmap. unfold visible_rows. lia.
Qed.
End Scans.

(** ** Insertion *)

(** Replacing a page of a chain and what follows it. *)
Lemma linked_replace v v' ps l p p' qs qs' :
  linked v (ps ++ (l, p) :: qs) 0 -> (forall i, i ∈ ps.*1 -> v' i = v i) ->
  v' l = Some p' -> heap_page p' -> chain_next_page p' = next_of qs' 0 -> linked v' qs' 0 ->
  linked v' (ps ++ (l, p') :: qs') 0.
Proof.
  intros [H1 (Hl & _ & _ & _ & _)]%linked_app Hv Hp' Hh Hn Hq. apply linked_app. cbn [next_of linked] in *.
  split; [by eapply linked_ext|]. by split_and!.
Qed.

(** No live row of a page of [ps] died or moved. *)
Definition chain_kept (ps ps' : list (Z * Page)) : Prop :=
  forall i p, (i, p) ∈ ps -> exists p', (i, p') ∈ ps' /\ kept p p'.

Lemma linked_heap v ps next : linked v ps next -> Forall (fun ip => heap_page ip.2) ps.
Proof.
  intros Hl. apply Forall_forall. intros [i p] Hin. by destruct (linked_in _ _ _ _ _ Hl Hin) as (_ & _ & ?).
Qed.

Lemma chain_kept_trans ps1 ps2 ps3 : chain_kept ps1 ps2 -> chain_kept ps2 ps3 -> chain_kept ps1 ps3.
Proof.
  intros H1 H2 i p Hin. destruct (H1 i p Hin) as (p2 & Hin2 & K1). destruct (H2 i p2 Hin2) as (p3 & Hin3 & K2).
  exists p3. split; [done|by eapply kept_trans].
Qed.

Lemma chain_kept_refl ps : Forall (fun ip => heap_page ip.2) ps -> chain_kept ps ps.
Proof. rewrite Forall_forall. intros Hh i p Hin. exists p. split; [done|]. by apply kept_refl, (Hh (i, p)). Qed.

(** The last page changed, and others may follow. *)
Lemma chain_kept_last ps l p p' qs :
  Forall (fun ip => heap_page ip.2) ps -> kept p p' -> chain_kept (ps ++ [(l, p)]) (ps ++ (l, p') :: qs).
Proof.
  intros Hh Hk i q [Hin|[= -> ->]%list_elem_of_singleton]%elem_of_app.
  - destruct (chain_kept_refl ps Hh i q Hin) as (q' & ? & ?). exists q'. split; [set_solver|done].
  - exists p'. split; [set_solver|done].
Qed.

(** The chain [ps] became [ps'], with the rows [new] after its own. *)
Record extended (v v' : Z -> option Page) (root : Z) (ps ps' : list (Z * Page)) (new : list (Z * Z * Tuple)) : Prop := {
  ex_chain : heap_chain v' root ps';
  ex_rows : chain_rows ps' = chain_rows ps ++ new;
  ex_moved : moved v v' ps.*1 ps'.*1;
  ex_prefix : ps.*1 `prefix_of` ps'.*1;
  ex_kept : chain_kept ps ps'
}.

Lemma extended_trans v1 v2 v3 root ps1 ps2 ps3 r1 r2 :
  extended v1 v2 root ps1 ps2 r1 -> extended v2 v3 root ps2 ps3 r2 -> extended v1 v3 root ps1 ps3 (r1 ++ r2).
Proof.
  intros [C1 R1 M1 P1 K1] [C2 R2 M2 P2 K2]. split; [done| |by eapply moved_trans|by etrans|by eapply chain_kept_trans].
  by rewrite R2, R1, app_assoc.
Qed.

Lemma heap_chain_last v root ps : heap_chain v root ps -> exists ps0 l p, ps = ps0 ++ [(l, p)].
Proof. intros [_ Hne _ _]. destruct ps as [|[l p] ps0 _] using rev_ind; [done|]. by eexists _, _, _. Qed.

Lemma page_rows_app i p p' T : heap_wf p -> appended p p' T -> page_rows i p' = page_rows i p ++ [(i, num_slots p, T)].
Proof.
  intros Hwf Hap. pose proof (num_slots_range p Hwf). unfold page_rows.
  rewrite (ap_n _ _ _ Hap), seqZ_app, fmap_app by lia. f_equal.
  - apply list_fmap_ext. intros k j Hj%list_elem_of_lookup_2%elem_of_seqZ. by rewrite (ap_old _ _ _ Hap) by lia.
  - rewrite Z.add_0_l, seqZ_cons, seqZ_nil by lia. rewrite fmap_cons. by rewrite (ap_new _ _ _ Hap).
Qed.

Lemma next_of_app ps qs next : next_of (ps ++ qs) next = next_of ps (next_of qs next).
Proof. by destruct ps as [|[]]. Qed.

(** The last page of a chain is rewritten. *)
Lemma extend_last v v' root ps l p p' :
  heap_chain v root (ps ++ [(l, p)]) -> (forall j, v' j = if decide (j = l) then Some p' else v j) ->
  heap_page p' -> chain_next_page p' = 0 ->
  heap_chain v' root (ps ++ [(l, p')]) /\ moved v v' (ps ++ [(l, p)]).*1 (ps ++ [(l, p')]).*1.
Proof.
  intros [Hr Hne Hnd Hl] Hv Hh Hn. pose proof (linked_moved _ _ _ Hl Hnd) as Hm.
  assert (Hids : (ps ++ [(l, p')]).*1 = (ps ++ [(l, p)]).*1) by (by rewrite !fmap_app).
  rewrite Hids. split; [|eapply moved_write_in; [exact Hm| |exact Hv]; rewrite fmap_app; set_solver].
  split; [by rewrite next_of_app in *|by destruct ps|by rewrite Hids|].
  eapply linked_replace; [exact Hl| |by rewrite Hv, decide_True|done|done|done].
  intros i Hi. rewrite Hv, decide_False; [done|]. intros ->. rewrite fmap_app in Hnd.
  apply NoDup_app in Hnd as (_ & Hd & _). apply (Hd l Hi). by left.
Qed.

(** A page is linked behind the last one. *)
Lemma extend_new v v' root ps l p p' new q :
  heap_chain v root (ps ++ [(l, p)]) -> page_num new -> v new = None ->
  (forall j, v' j = if decide (j = l) then Some p' else if decide (j = new) then Some q else v j) ->
  heap_page p' -> chain_next_page p' = new -> heap_page q -> chain_next_page q = 0 ->
  heap_chain v' root (ps ++ [(l, p'); (new, q)]) /\
  moved v v' (ps ++ [(l, p)]).*1 (ps ++ [(l, p'); (new, q)]).*1.
Proof.
  intros [Hr Hne Hnd Hl] Hnew Hvn Hv Hh Hn Hhq Hnq. pose proof (linked_moved _ _ _ Hl Hnd) as Hm.
  assert (Hids : (ps ++ [(l, p'); (new, q)]).*1 = (ps ++ [(l, p)]).*1 ++ [new]) by (by rewrite !fmap_app, <-app_assoc).
  assert (Hni : ~ new ∈ (ps ++ [(l, p)]).*1).
  { intros Hin. destruct (mv_in _ _ _ _ Hm _ Hin). congruence. }
  assert (Hnl : new ≠ l) by (intros ->; apply Hni; rewrite fmap_app; set_solver).
  assert (Hvq : v' new = Some q) by (by rewrite Hv, decide_False, decide_True).
  assert (Hnd' : NoDup ((ps ++ [(l, p)]).*1 ++ [new])).
  { apply NoDup_app. split_and!; [done| |apply NoDup_singleton]. intros j Hj ->%list_elem_of_singleton. done. }
  rewrite Hids. split.
  - split; [by rewrite next_of_app in *|by destruct ps|by rewrite Hids|].
    eapply linked_replace; [exact Hl| |by rewrite Hv, decide_True|done|done|cbn; by split_and!].
    intros i Hi. rewrite fmap_app in Hnd. apply NoDup_app in Hnd as (_ & Hd & _).
    assert (i ≠ l) by (intros ->; apply (Hd l Hi); by left).
    assert (i ≠ new) by (intros ->; apply Hni; rewrite fmap_app; set_solver).
    by rewrite Hv, !decide_False.
  - assert (Hlin : l ∈ (ps ++ [(l, p)]).*1) by (rewrite fmap_app; set_solver).
    split; [| | | |done|apply Forall_app; split; [apply Hm|by constructor]].
    + intros j Hj1 Hj2. rewrite Hv, !decide_False; [done|set_solver|]. intros ->. done.
    + intros j [Hj| ->%list_elem_of_singleton]%elem_of_app Hj2; [done|done].
    + set_solver.
    + intros j [Hj| ->%list_elem_of_singleton]%elem_of_app; [|by rewrite Hvq].
      rewrite Hv. case_decide; [by eexists|]. case_decide; [by eexists|]. by apply (mv_in _ _ _ _ Hm).
Qed.

(** The bytes a row needs in a page. *)
Definition row_need (data : bytes) : Z := 4 + 8 * ((24 + zlen data + 7) / 8).
Definition EMPTY_ROOM : Z := PAGE_SIZE - HEADER_SIZE.
Definition row_ok (data : bytes) : Prop := bytes_ok data /\ row_need data <= EMPTY_ROOM.

Lemma row_ok_len data : row_ok data -> zlen data < 2 ^ 62.
Proof. unfold row_ok, row_need, EMPTY_ROOM, PAGE_SIZE, HEADER_SIZE. pose proof (align8_bounds (24 + zlen data)). lia. Qed.

Definition new_tuple (t : Z) (data : bytes) : Tuple := Some (mkRow t 0 0 0, data).

Section Insert.
Context {St : Type} {C : Crc32c} {CR : Crc32cRange C} {E : StorageEngine St} {L : StorageLaws St} {R : PageRoom St}.

Lemma last_page_spec ps l p : forall x fuel,
  io_wf x -> linked (vw x) (ps ++ [(l, p)]) 0 -> (length ps < fuel)%nat ->
  last_page_id fuel (next_of (ps ++ [(l, p)]) 0) x = Some (Ok l, x).
Proof.
  induction ps as [|[i q] ps IH]; intros x [|fuel] Hwf Hl Hf; try (cbn in Hf; lia);
    cbn [app linked next_of last_page_id] in *; destruct Hl as (_ & Hp & _ & Hn & Hl);
    unfold io_bind; rewrite (io_read_ok x _ _ Hwf Hp), Hn; [done|].
  rewrite (proj2 (Z.eqb_neq _ _)) by (eapply linked_next_ne; [exact Hl|by destruct ps]).
  apply IH; [done|done|cbn in Hf; lia].
Qed.

Lemma appended_heap_page p p' T :
  heap_page p -> appended p p' T -> heap_page p' /\ chain_next_page p' = chain_next_page p.
Proof.
  intros [Hwf Hm] Hap. split; [|apply reserved_next; [apply Hwf|apply Hap]].
  split; [apply Hap|]. by rewrite (ap_magic _ _ _ Hap).
Qed.

Lemma appended_quiet p p' p'' T : heap_wf p -> appended p p' T -> quiet p' p'' -> appended p p'' T.
Proof.
  intros Hwf [W N T1 O S Lo Mg Rs] Hq. destruct (quiet_same p' p'' W Hq) as (W' & N' & _ & _ & Hall).
  pose proof (num_slots_range p Hwf). split; [done|congruence| | | | | |].
  - by rewrite (proj2 (Hall (num_slots p) ltac:(lia))).
  - intros j Hj. rewrite (proj2 (Hall j ltac:(lia))). by apply O.
  - intros j Hj. rewrite (proj1 (Hall j ltac:(lia))). by apply S.
  - intros j Hj. rewrite (proj1 (Hall (num_slots p) ltac:(lia))). by apply Lo.
  - rewrite <-Mg. by apply (confined_magic 0 0 0), Hq; [apply W|..].
  - rewrite <-Rs. by apply (confined_reserved 0 0 0), Hq.
Qed.

(** The page after [insert_tuple] and [update_checksum]. *)
Lemma insert_tuple_page p data t :
  heap_page p -> bytes_ok data -> in_u64 t -> zlen data < 2 ^ 62 ->
  if free_space p <? row_need data then
    insert_tuple p data t = Some (Err (HeapPageFull (hdr_page_id p) (row_need data) (free_space p)), p)
  else exists p', insert_tuple p data t = Some (Ok (num_slots p), p') /\ heap_page p' /\
    appended p p' (new_tuple t data) /\ appended p (update_checksum p') (new_tuple t data).
Proof.
  intros Hh Hd Ht Hlen. pose proof (insert_tuple_spec p data t (proj1 Hh) Hd Ht Hlen) as Hs. cbn in Hs.
  fold (row_need data) in Hs. destruct (free_space p <? row_need data); [done|].
  destruct Hs as (p' & Hi & Hap & _). exists p'. split_and!; [done|by eapply appended_heap_page|done|].
  eapply appended_quiet; [apply Hh|exact Hap|]. apply quiet_checksum, hw_page, Hap.
Qed.

Lemma wp_load_checked {B} i p (k : Page -> M St B) n x Q F :
  io_wf x -> vw x i = Some p -> heap_page p -> wp (k p) n x Q F -> wp (io_bind (load_checked i) k) n x Q F.
Proof. intros Hwf Hp Hh. apply wp_run. by apply load_checked_ok. Qed.

Lemma wp_insert_try {B} l p data t (k : option Z -> M St B) n x Q F :
  io_wf x -> vw x l = Some p -> heap_page p -> bytes_ok data -> zlen data < 2 ^ 62 -> in_u64 t ->
  (free_space p < row_need data -> wp (k None) n x Q F) ->
  (forall x' p', io_wf x' -> appended p p' (new_tuple t data) ->
     (forall j, vw x' j = if decide (j = l) then Some p' else vw x j) -> (forall m, pr x m -> pr x' m) ->
     wp (k (Some (num_slots p))) n x' Q F) ->
  wp (io_bind (insert_try l data t) k) n x Q F.
Proof.
  intros Hwf Hp Hh Hd Hlen Ht Hfull Hfit. unfold insert_try. apply wp_assoc, (wp_load_checked _ p); [done..|].
  pose proof (insert_tuple_page p data t Hh Hd Ht Hlen) as Hs.
  destruct (Z.ltb_spec (free_space p) (row_need data)); [rewrite Hs; by apply Hfull|].
  destruct Hs as (p' & -> & Hh' & Hap & Hap'). apply wp_assoc.
  apply wp_write; [done|by eexists|apply hw_page, Hap'|by apply verify_updated, hw_page, Hap|].
  intros x' Hwf' Hv Hpr. apply wp_bind_ret. by eapply Hfit.
Qed.

Lemma reserved_new t i : in_u64 i -> reserved (page_new t i) = Some (replicate 28 0).
Proof.
  intros Hi. destruct (page_init_fields t i Hi) as [Hok _].
  transitivity (reserved (page_init t i)); [by apply update_checksum_slice; [|lia]|].
  unfold page_init. set (p := set_free_end _ _). unfold reserved, set_reserved, slice.
  assert (Hl : zlen p = PAGE_SIZE).
  { assert (H : forall off n v (q : Page), 0 <= off -> 0 <= n -> off + n <= PAGE_SIZE -> zlen q = PAGE_SIZE ->
      zlen (set_le off n v q) = PAGE_SIZE) by (intros; rewrite length_set_le; lia).
    unfold p. do 8 (apply H; [lia|lia|unfold PAGE_SIZE; lia|]). by rewrite length_replicate. }
  unfold PAGE_SIZE in Hl.
  rewrite decide_True by (rewrite !length_app, length_take, length_drop, length_replicate; lia).
  rewrite drop_app_length' by (rewrite length_take; lia). rewrite take_app_length' by done. done.
Qed.

Lemma new_heap_page i : page_num i -> heap_page (page_new PtData i) /\ chain_next_page (page_new PtData i) = 0 /\
  num_slots (page_new PtData i) = 0 /\ free_space (page_new PtData i) = EMPTY_ROOM.
Proof.
  intros Hi. assert (Hid : in_u64 i) by (unfold page_num, U64_MAX in Hi; unfold in_u64; lia).
  destruct (page_new_heap_wf PtData i Hid) as (Hw & Hn & Hf).
  destruct (page_new_fields PtData i Hid) as (_ & Hm & _). split_and!; [by split| |done|done].
  change (get_le (36 + 0) 8 (page_new PtData i) = 0). rewrite <-(get_le_of_slice 36 28 _ _ 0 8 (reserved_new PtData i Hid)) by lia. done.
Qed.

Lemma wp_insert_new {B} data t (k : Z * Z -> M St B) n x Q F :
  io_wf x -> row_ok data -> in_u64 t -> 0 < n ->
  (forall i q x', io_wf x' -> page_num i -> vw x i = None -> heap_page q -> chain_next_page q = 0 ->
     page_rows i q = [(i, 0, new_tuple t data)] ->
     (forall j, vw x' j = if decide (j = i) then Some q else vw x j) -> (forall m, 0 < m -> pr x m -> pr x' (m - 1)) ->
     wp (k (i, 0)) (n - 1) x' Q F) ->
  wp (io_bind (insert_new_page data t) k) n x Q F.
Proof.
  intros Hwf Hrow Ht Hn Hk. pose proof (row_ok_len _ Hrow) as Hlen. destruct Hrow as [Hd Hfit].
  unfold insert_new_page. apply wp_assoc, wp_alloc; [done|done|]. intros i x1 Hwf1 (Hi & Hv0 & Hv1 & Hv) Hpr1.
  destruct (new_heap_page i Hi) as (Hh & Hnx & Hns & Hfs).
  pose proof (insert_tuple_page _ data t Hh Hd Ht Hlen) as Hs. rewrite Hfs, Hns in Hs.
  rewrite (proj2 (Z.ltb_ge _ _)) in Hs by lia. destruct Hs as (p' & -> & Hh' & Hap & Hap').
  apply wp_assoc, wp_bind_ret. cbn [fst snd]. apply wp_assoc.
  apply wp_write; [done|done|apply hw_page, Hap'|by apply verify_updated, hw_page, Hap|].
  intros x2 Hwf2 Hv2 Hpr2. apply wp_bind_ret. destruct (appended_heap_page _ _ _ Hh Hap') as [Hh2 Hn2].
  apply (Hk i (update_checksum p')); [done|done|done|done|by rewrite Hn2| | |].
  - rewrite (page_rows_app i _ _ _ (proj1 Hh) Hap'). unfold page_rows. by rewrite Hns.
  - intros j. rewrite Hv2. case_decide; [done|]. by apply Hv.
  - intros m Hm Hx. by apply Hpr2, Hpr1.
Qed.

Lemma link_heap_page p next :
  heap_page p -> in_u64 next ->
  let p' := update_checksum (chain_set_next_page p next) in
  heap_page p' /\ chain_next_page p' = next /\ requiet p p' /\ read_zone_map p' = read_zone_map p.
Proof.
  intros [Hw Hm] Hnext p'. pose proof (hw_page _ Hw) as Hok. pose proof (po_len _ Hok) as Hl.
  assert (Hq1 : requiet p (chain_set_next_page p next)) by (by apply requiet_set_le; [|lia..]).
  destruct (requiet_same p _ Hw Hq1) as (Hw1 & _). pose proof (hw_page _ Hw1) as Hok1.
  assert (Hq : requiet p p') by (eapply requiet_trans; [exact Hq1|by apply quiet_requiet, quiet_checksum]).
  destruct (requiet_same p p' Hw Hq) as (Hw' & _). split_and!; [split; [done|]| |done|].
  - unfold p'. rewrite updated_magic by done. rewrite <-Hm. apply get_set_ne; unfold PAGE_SIZE in *; lia.
  - unfold p', chain_next_page. rewrite update_checksum_get by (done || page_range).
    apply get_set_eq; [unfold PAGE_SIZE in *; lia..|exact Hnext].
  - transitivity (read_zone_map (chain_set_next_page p next)).
    + apply reserved_zone; [done|]. apply update_checksum_slice; [done|lia].
    + change (chain_set_next_page p next) with (set_res 0 8 next p).
      unfold read_zone_map, get_i64. by rewrite !(get_set_res_ne p 0 8) by (done || res_range).
Qed.

Lemma wp_insert_link {B} l p i (k : unit -> M St B) n x Q F :
  io_wf x -> vw x l = Some p -> heap_page p -> page_num i ->
  (forall x' p', io_wf x' -> heap_page p' -> chain_next_page p' = i -> requiet p p' -> read_zone_map p' = read_zone_map p ->
     (forall j, vw x' j = if decide (j = l) then Some p' else vw x j) -> (forall m, pr x m -> pr x' m) ->
     wp (k tt) n x' Q F) ->
  wp (io_bind (insert_link l i) k) n x Q F.
Proof.
  intros Hwf Hp Hh Hi Hk. unfold insert_link. apply wp_assoc, (wp_load_checked _ p); [done..|].
  destruct (link_heap_page p i Hh) as (Hh' & Hn & Hq & Hz); [unfold page_num, U64_MAX in Hi; unfold in_u64; lia|].
  apply wp_write; [done|by eexists|apply hw_page, Hh'| |].
  - apply verify_updated, page_ok_set_le; [lia..|unfold PAGE_SIZE; lia|apply hw_page, Hh].
  - intros x' Hwf' Hv Hpr. by eapply Hk.
Qed.

(** [insert_at] on the last page of a chain appends the row. *)
Lemma insert_at_spec root ps l p data t x :
  io_wf x -> heap_chain (vw x) root (ps ++ [(l, p)]) -> row_ok data -> in_u64 t ->
  wp (insert_at l data t) 1 x (fun r x' =>
    io_wf x' /\ (forall m, 1 <= m -> pr x m -> pr x' (m - 1)) /\
    exists ps', extended (vw x) (vw x') root (ps ++ [(l, p)]) ps' [(r.1, new_tuple t data)] /\
      ps'.*1 = (ps ++ [(l, p)]).*1 ++ (if r.2 then [r.1.1] else []) /\ exists ps1 q, ps' = ps1 ++ [(r.1.1, q)]) (fun _ _ => False).
Proof.
  intros Hwf Hc Hrow Ht. pose proof (row_ok_len _ Hrow) as Hlen. pose proof (hc_linked _ _ _ Hc) as Hl.
  apply linked_app in Hl as [Hl0%linked_heap (Hln & Hp & Hh & Hn & _)].
  unfold insert_at. apply (wp_insert_try _ p); [done|done|done|apply Hrow|done|done| |].
  - intros _. apply wp_insert_new; [done|done|done|lia|]. intros i q x1 Hwf1 Hi Hi0 Hhq Hnq Hrq Hv1 Hpr1.
    assert (Hli : l ≠ i) by congruence.
    apply (wp_insert_link _ p); [done|by rewrite Hv1, decide_False|done|done|].
    intros x2 p' Hwf2 Hh' Hn' Hq' _ Hv2 Hpr2. apply wp_ret. split; [done|].
    split; [intros m Hm Hx; apply Hpr2, Hpr1; [lia|done]|].
    destruct (extend_new (vw x) (vw x2) root ps l p p' i q) as [Hc' Hm']; [done|done|done| |done|done|done|done|].
    { intros j. rewrite Hv2. case_decide; [done|]. apply Hv1. }
    exists (ps ++ [(l, p'); (i, q)]). cbn [fst snd].
    split; [split; [done| |done| |by apply chain_kept_last; [|by apply requiet_kept]]|split].
    + rewrite !chain_rows_app, !chain_rows_one. change (chain_rows [(l, p'); (i, q)]) with (page_rows l p' ++ chain_rows [(i, q)]).
      rewrite chain_rows_one, Hrq, <-app_assoc. do 2 f_equal.
      destruct (requiet_same p p' (proj1 Hh) Hq') as (_ & Hns & _ & _ & Hall).
      apply page_rows_ext; [done|]. intros j Hj. by apply Hall.
    + rewrite !fmap_app. by exists [i]; rewrite <-app_assoc.
    + by rewrite !fmap_app, <-app_assoc.
    + exists (ps ++ [(l, p')]), q. by rewrite <-app_assoc.
  - intros x1 p' Hwf1 Hap Hv1 Hpr1. apply wp_ret. split; [done|].
    split; [intros m Hm Hx; apply (pr_mono _ m); [by apply Hpr1|lia]|].
    destruct (appended_heap_page _ _ _ Hh Hap) as [Hh' Hn'].
    destruct (extend_last (vw x) (vw x1) root ps l p p') as [Hc' Hm']; [done|done|done|by rewrite Hn'|].
    exists (ps ++ [(l, p')]). cbn [fst snd]. rewrite app_nil_r.
    split; [split; [done| |done| |by apply chain_kept_last; [|by eapply appended_kept]]|split; [|by eexists _, _]].
    + rewrite !chain_rows_app, !chain_rows_one, <-app_assoc. f_equal. by apply page_rows_app; [apply Hh|].
    + by rewrite !fmap_app.
    + by rewrite !fmap_app.
Qed.

Lemma chain_insert_spec fuel root ps data t x :
  io_wf x -> heap_chain (vw x) root ps -> row_ok data -> in_u64 t -> (length ps <= fuel)%nat ->
  wp (chain_insert fuel root data t) 1 x (fun rid x' =>
    io_wf x' /\ (forall m, 1 <= m -> pr x m -> pr x' (m - 1)) /\
    exists ps', extended (vw x) (vw x') root ps ps' [(rid, new_tuple t data)] /\ (length ps' <= length ps + 1)%nat) (fun _ _ => False).
Proof.
  intros Hwf Hc Hrow Ht Hf. destruct (heap_chain_last _ _ _ Hc) as (ps0 & l & p & ->).
  unfold chain_insert. rewrite length_app in Hf. cbn in Hf.
  apply (wp_run _ l); [rewrite <-(hc_root _ _ _ Hc); apply (last_page_spec _ _ p); [done|apply Hc|lia]|].
  eapply wp_call; [by apply (insert_at_spec root ps0 l p)|lia|]. intros [rid grew] x' (Hwf' & Hpr & ps' & Hex & Hids & _).
  split; [done|]. apply wp_ret. cbn [fst snd] in *. split; [done|]. split; [done|]. exists ps'. split; [done|].
  rewrite <-(length_fmap fst ps'), Hids, length_app, length_fmap. by destruct grew; cbn; lia.
Qed.
End Insert.

(** ** The tail hint *)

Section Hint.
Context {St : Type} {C : Crc32c} {CR : Crc32cRange C} {E : StorageEngine St} {L : StorageLaws St} {R : PageRoom St}.

(** What the check of the hint leaves open: a page that is there and ends a chain ends
    this one. *)
Definition hint_ok (x : Io St) (root : Z) (ps : list (Z * Page)) (hint : option HeapAppendHint) : Prop :=
  forall h p, hint = Some h -> 0 <= hint_tail_page_id h /\
    (hint_root_page_id h = root -> st_page (io_store x) (hint_tail_page_id h) = Some p -> chain_next_page p = 0 ->
       hint_tail_page_id h ∈ ps.*1).

Lemma linked_end v ps l p i q :
  linked v (ps ++ [(l, p)]) 0 -> (i, q) ∈ ps ++ [(l, p)] -> chain_next_page q = 0 -> i = l.
Proof.
  intros Hl [Hin|[= -> ->]%list_elem_of_singleton]%elem_of_app Hn; [|done].
  apply list_elem_of_split in Hin as (ps1 & ps2 & ->). rewrite <-app_assoc in Hl.
  apply linked_app in Hl as [_ Hl]. cbn [app linked] in Hl. destruct Hl as (_ & _ & _ & Hq & Hl).
  exfalso. eapply (linked_next_ne _ (ps2 ++ [(l, p)])); [done|by destruct ps2|congruence].
Qed.

Lemma resolve_tail_spec fuel root ps l p hint x :
  io_wf x -> heap_chain (vw x) root (ps ++ [(l, p)]) -> hint_ok x root (ps ++ [(l, p)]) hint -> (length ps < fuel)%nat ->
  resolve_tail_with_hint fuel root hint x = Some (Ok (l, (fun _ => mkHint root l) <$> hint), x).
Proof.
  intros Hwf Hc Hok Hf. pose proof (last_page_spec ps l p x fuel Hwf (hc_linked _ _ _ Hc) Hf) as Hlast.
  rewrite (hc_root _ _ _ Hc) in Hlast. unfold resolve_tail_with_hint, io_bind. destruct hint as [h|]; [|by rewrite Hlast].
  cbn [fmap option_fmap option_map]. destruct (Z.eqb_spec (hint_root_page_id h) root) as [Hr|]; [|by rewrite Hlast].
  rewrite law_read; [|apply Hwf|by apply (Hok h [])]. destruct (st_page (io_store x) (hint_tail_page_id h)) as [q|] eqn:Hq; [|by rewrite Hlast].
  destruct (Z.eqb_spec (chain_next_page q) 0) as [Hn|]; [|by rewrite Hlast].
  destruct (proj1 (list_elem_of_fmap _ _ _) (proj2 (Hok h q eq_refl) Hr Hq Hn)) as ([i q'] & Hi & Hin). cbn in Hi.
  pose proof (hc_linked _ _ _ Hc) as Hl. destruct (linked_in _ _ _ _ _ Hl Hin) as (_ & Hv & _).
  apply vw_Some in Hv as [_ Hv]. assert (q' = q) as -> by congruence.
  rewrite (linked_end _ _ _ _ _ _ Hl Hin Hn) in Hi. unfold io_ret. rewrite <-Hi. do 5 f_equal. destruct h; cbn in *; congruence.
Qed.

Lemma insert_with_hint_spec fuel root ps data t hint x :
  io_wf x -> heap_chain (vw x) root ps -> row_ok data -> in_u64 t -> hint_ok x root ps hint -> (length ps <= fuel)%nat ->
  match insert_with_hint fuel root data t hint x with
  | Some (Ok rid, hint', x') => io_wf x' /\ hint' = (fun _ => mkHint root rid.1) <$> hint /\
      exists ps', extended (vw x) (vw x') root ps ps' [(rid, new_tuple t data)] /\ (length ps' <= length ps + 1)%nat /\ hint_ok x' root ps' hint'
  | _ => ~ pr x 1
  end.
Proof.
  intros Hwf Hc Hrow Ht Hok Hf. destruct (heap_chain_last _ _ _ Hc) as (ps0 & l & p & ->). unfold insert_with_hint.
  rewrite length_app in Hf. cbn in Hf. rewrite (resolve_tail_spec fuel root ps0 l p) by (done || lia).
  pose proof (insert_at_spec root ps0 l p data t x Hwf Hc Hrow Ht) as Hw. unfold wp in Hw.
  destruct (insert_at l data t x) as [[[[rid grew]|e] x']|]; [|tauto|done].
  destruct Hw as (Hwf' & _ & ps' & Hex & Hids & ps1 & q & Hps'). cbn [fst snd] in *. split; [done|].
  assert (Hl : grew = false -> rid.1 = l).
  { intros ->. rewrite app_nil_r, Hps', !fmap_app in Hids. by apply app_inj_tail in Hids as [_ ?]. }
  split; [destruct grew; [by destruct hint|rewrite Hl by done; by destruct hint]|]. exists ps'. split; [done|].
  split; [rewrite <-(length_fmap fst ps'), Hids, length_app, length_fmap; by destruct grew; cbn; lia|].
  assert (Hend : forall h, (fun _ => mkHint root rid.1) <$> hint = Some h -> h = mkHint root rid.1).
  { destruct hint; cbn; congruence. }
  assert (Hh : (if grew then (fun _ => mkHint root rid.1) <$> ((fun _ => mkHint root l) <$> hint) else (fun _ => mkHint root l) <$> hint)
    = (fun _ => mkHint root rid.1) <$> hint) by (destruct grew; [by destruct hint|rewrite Hl by done; by destruct hint]).
  rewrite Hh. intros h q' Heq. apply Hend in Heq as ->. cbn. rewrite Hps', fmap_app. split; [|set_solver].
  pose proof (mv_num _ _ _ _ (ex_moved _ _ _ _ _ _ Hex)) as Hnum. rewrite Hps', fmap_app in Hnum.
  apply Forall_app in Hnum as [_ [[Hr _] _]%Forall_cons]. cbn in Hr. lia.
Qed.
End Hint.

(** ** Properties *)

Section Properties.
Context {St : Type} {C : Crc32c} {CR : Crc32cRange C} {E : StorageEngine St} {L : StorageLaws St} {R : PageRoom St}.

(** C15: over a chain of any length, on any lawful engine, the scan, the scan for locations,
    the read-only scan and the count agree: they return, in chain order, exactly the rows
    the snapshot sees, whatever the all-visible flags say.  A scan leaves the rows and the
    links as they are and touches no page outside the chain; the last two write nothing. *)
Theorem heap_chain_scan_correct fuel root ps snap (x : Io St) :
  io_wf x -> heap_chain (vw x) root ps -> (length ps < fuel)%nat ->
  let rows := omap (visible_of snap) (chain_rows ps) in
  scan_visible_ro fuel root snap x = Some (Ok rows, x) /\
  count_visible fuel root snap x = Some (Ok (zlen rows), x) /\
  exists x' ps', chain_scan_visible fuel root snap x = Some (Ok rows, x') /\
    scan_rids_visible fuel root snap x = Some (Ok rows.*1, x') /\ io_wf x' /\
    heap_chain (vw x') root ps' /\ chain_rows ps' = chain_rows ps /\ moved (vw x) (vw x') ps.*1 ps'.*1.
Proof.
  intros Hwf [Hr Hne Hnd Hl] Hf rows. rewrite <-Hr.
  destruct (chain_scan_ro_spec snap ps x fuel Hwf Hl Hf) as [H1 H2]. split; [done|]. split; [done|].
  destruct (chain_scan_spec snap ps x fuel Hwf Hl Hnd Hf) as (x' & ps' & (Hwf' & Hl' & Hq & Hm) & H3 & H4).
  destruct (quiet_chain_rows _ _ _ _ Hl Hq) as [Hrows Hids]. exists x', ps'. rewrite Hids. split_and!; [done|done|done| |done|done].
  split; [by apply quiet_chain_next|intros ->; by inversion Hq; subst|by rewrite Hids|done].
Qed.

(** C14: inserting a row that fits into an empty page, by a walk or by a hint that is absent,
    stale or right, appends exactly this row to the rows of the chain, on its last page or
    on one new page; the pages of the chain stay the first ones, other pages are untouched,
    and the hint then names the new last page.  With room for one page it does not fail. *)
Theorem heap_chain_insert_correct fuel root ps data t hint (x : Io St) :
  io_wf x -> heap_chain (vw x) root ps -> row_ok data -> in_u64 t -> hint_ok x root ps hint -> (length ps <= fuel)%nat ->
  pr x 1 ->
  (exists rid x' ps', chain_insert fuel root data t x = Some (Ok rid, x') /\ io_wf x' /\
     extended (vw x) (vw x') root ps ps' [(rid, new_tuple t data)]) /\
  (exists rid x' ps', insert_with_hint fuel root data t hint x = Some (Ok rid, (fun _ => mkHint root rid.1) <$> hint, x') /\
     io_wf x' /\ extended (vw x) (vw x') root ps ps' [(rid, new_tuple t data)] /\
     hint_ok x' root ps' ((fun _ => mkHint root rid.1) <$> hint)).
Proof.
  intros Hwf Hc Hrow Ht Hh Hf Hpr. split.
  - pose proof (chain_insert_spec fuel root ps data t x Hwf Hc Hrow Ht Hf) as Hw. unfold wp in Hw.
    destruct (chain_insert fuel root data t x) as [[[rid|e] x']|]; [|tauto|done].
    destruct Hw as (Hwf' & _ & ps' & Hex & _). by exists rid, x', ps'.
  - pose proof (insert_with_hint_spec fuel root ps data t hint x Hwf Hc Hrow Ht Hh Hf) as Hw.
    destruct (insert_with_hint fuel root data t hint x) as [[[[rid|e] hint'] x']|]; [|done|done].
    destruct Hw as (Hwf' & -> & ps' & Hex & _ & Hh'). by exists rid, x', ps'.
Qed.

Lemma free_space_max p : heap_wf p -> free_space p <= EMPTY_ROOM.
Proof.
  intros Hw. pose proof (hw_start _ Hw). pose proof (hw_end _ Hw). pose proof (num_slots_range p Hw).
  unfold free_space, EMPTY_ROOM, HEADER_SIZE. lia.
Qed.

(** A row that fits into no page: the insertion fails with the error its documentation
    excludes, and the page it allocated is part of nothing. *)
Theorem chain_insert_too_large fuel root ps data t (x : Io St) :
  io_wf x -> heap_chain (vw x) root ps -> bytes_ok data -> zlen data < 2 ^ 62 -> EMPTY_ROOM < row_need data ->
  in_u64 t -> (length ps <= fuel)%nat -> pr x 1 ->
  exists i x', chain_insert fuel root data t x = Some (Err (HeapPageFull i (row_need data) EMPTY_ROOM), x') /\
    io_wf x' /\ pr x' 0 /\ heap_chain (vw x') root ps /\ vw x i = None /\ is_Some (vw x' i) /\ forall j, j ≠ i -> vw x' j = vw x j.
Proof.
  intros Hwf Hc Hd Hlen Hbig Ht Hf Hpr. destruct (heap_chain_last _ _ _ Hc) as (ps0 & l & p & ->).
  rewrite length_app in Hf. cbn in Hf. pose proof (hc_linked _ _ _ Hc) as Hl.
  unfold chain_insert, insert_at, insert_try, insert_new_page, io_bind.
  rewrite <-(hc_root _ _ _ Hc), (last_page_spec ps0 l p x fuel Hwf Hl) by lia.
  destruct (linked_in _ _ _ l p Hl ltac:(set_solver)) as (_ & Hp & Hh). rewrite (load_checked_ok x l p Hwf Hp Hh).
  pose proof (free_space_max p (proj1 Hh)) as Hsp.
  pose proof (insert_tuple_page p data t Hh Hd Ht Hlen) as Hi. rewrite (proj2 (Z.ltb_lt _ _)) in Hi by lia. rewrite Hi.
  destruct (pr_alloc x PtData 1 Hwf Hpr ltac:(lia)) as (i & x' & Ha & Hpr'). unfold io_ret. rewrite Ha.
  destruct (io_alloc_view x PtData i x' Hwf Ha) as (Hwf' & Hnum & Hv0 & Hv1 & Hv).
  destruct (new_heap_page i Hnum) as (Hhn & _ & _ & Hfs).
  pose proof (insert_tuple_page _ data t Hhn Hd Ht Hlen) as Hi'. rewrite Hfs, (proj2 (Z.ltb_lt _ _)) in Hi' by lia. rewrite Hi'.
  assert (Hid : in_u64 i) by (unfold page_num, U64_MAX in Hnum; unfold in_u64; lia).
  destruct (page_new_fields PtData i Hid) as (_ & _ & _ & _ & _ & Hpid & _). rewrite Hpid. exists i, x'. split_and!; [done|done|done| |done|done|done].
  destruct Hc as [Hr Hne Hnd _]. split; [done|done|done|]. eapply linked_ext; [|exact Hl].
  intros k ([k' q] & Heq & Hk)%list_elem_of_fmap. cbn in Heq. subst k'. apply Hv. intros ->.
  destruct (linked_in _ _ _ _ _ Hl Hk) as (_ & Hvk & _). congruence.
Qed.
End Properties.

(** *** Witnesses *)

#[local] Existing Instance crc32c_ref.
#[local] Existing Instance crc32c_ref_range.
#[local] Existing Instance engine_room.

(** A table that was just created. *)
Lemma sample_chain : exists (x : Io MemoryStorage) root, io_wf x /\ pr x 40 /\ heap_chain (vw x) root [(root, page_new PtData root)].
Proof.
  destruct sample_io as (x0 & Hwf0 & Hpr0).
  destruct (law_room_alloc (io_store x0) PtData (iw_store _ Hwf0)) as (i & s & Ha & Hr).
  { destruct Hpr0 as [_ Hle]. lia. }
  destruct (law_alloc _ _ _ _ (iw_store _ Hwf0) Ha) as (Hs & Hnum & Hv0 & Hv). destruct Hpr0 as [Hb Hle].
  exists (mkIo None s), i. split; [split; [done|by cbn]|]. split; [split; [done|cbn [io_store] in *; lia]|].
  destruct (new_heap_page i Hnum) as (Hh & Hn & _).
  split; [done|done|apply NoDup_singleton|]. cbn [linked]. split_and!; [done| |done|done|done].
  unfold vw. cbn [io_batch io_store batch_pages]. rewrite decide_False by apply not_elem_of_nil. by rewrite Hv, decide_True.
Qed.

(** The same table with one row. *)
Lemma sample_chain_row t : in_u64 t -> exists (x : Io MemoryStorage) root ps rid, io_wf x /\ pr x 39 /\ heap_chain (vw x) root ps /\
  chain_rows ps = [(rid, new_tuple t [1; 2; 3])] /\ (length ps <= 2)%nat.
Proof.
  intros Ht. destruct sample_chain as (x & root & Hwf & Hpr & Hc).
  assert (Hrow : row_ok [1; 2; 3]) by (split; [repeat constructor; unfold byte_ok; lia|vm_compute; congruence]).
  pose proof (chain_insert_spec 2 root _ [1; 2; 3] t x Hwf Hc Hrow Ht ltac:(cbn; lia)) as Hw. unfold wp in Hw.
  assert (Hpr1 : pr x 1) by (eapply pr_mono; [exact Hpr|lia]).
  destruct (chain_insert 2 root [1; 2; 3] t x) as [[[rid|e] x']|]; [|tauto|done].
  destruct Hw as (Hwf' & Hpr' & ps' & Hex & Hlen). exists x', root, ps', rid.
  split_and!; [done|by apply (Hpr' 40); [lia|]|apply Hex| |done]. rewrite (ex_rows _ _ _ _ _ _ Hex), chain_rows_one.
  destruct (new_heap_page root) as (_ & _ & Hns & _); [by apply (linked_in _ _ 0 root (page_new PtData root) (hc_linked _ _ _ Hc)); left|].
  unfold page_rows. by rewrite Hns.
Qed.

Lemma heap_chain_scan_correct_witness :
  exists (x : Io MemoryStorage) root rid, scan_visible_ro 3 root (snap_committed 6) x = Some (Ok [(rid, [1; 2; 3])], x) /\
    count_visible 3 root (snap_committed 6) x = Some (Ok 1, x).
Proof.
  destruct (sample_chain_row 5 ltac:(widths)) as (x & root & ps & rid & Hwf & Hpr & Hc & Hrows & Hlen).
  pose proof (heap_chain_scan_correct 3 root ps (snap_committed 6) x Hwf Hc ltac:(lia)) as H. cbv zeta in H. rewrite Hrows in H.
  destruct H as (H1 & H2 & _). exists x, root, rid. split; [exact H1|exact H2].
Defined.

Lemma heap_chain_insert_correct_witness :
  exists (x : Io MemoryStorage) root, (exists rid x', chain_insert 2 root [7] 5 x = Some (Ok rid, x')) /\
    exists rid x', insert_with_hint 2 root [7] 5 (Some (mkHint 9 9)) x = Some (Ok rid, Some (mkHint root rid.1), x').
Proof.
  destruct sample_chain as (x & root & Hwf & Hpr & Hc).
  assert (Hrow : row_ok [7]) by (split; [repeat constructor; unfold byte_ok; lia|vm_compute; congruence]).
  assert (Hh : forall h, hint_ok x root [(root, page_new PtData root)] (Some (mkHint h h)) <->
    0 <= h /\ (h = root -> forall p, st_page (io_store x) h = Some p -> chain_next_page p = 0 -> h ∈ [root])).
  { intros h. unfold hint_ok. split.
    - intros H. split; [by apply (H (mkHint h h) [])|]. intros Heq p Hp Hn. by apply (H (mkHint h h) p).
    - intros [H0 H] h' p [= <-]. cbn. split; [done|]. intros. by eapply H. }
  assert (Hok : hint_ok x root [(root, page_new PtData root)] (Some (mkHint 9 9))).
  { apply Hh. split; [lia|]. intros -> p _ _. left. }
  destruct (heap_chain_insert_correct 2 root _ [7] 5 (Some (mkHint 9 9)) x Hwf Hc Hrow ltac:(widths) Hok ltac:(cbn; lia)) as [H1 H2].
  { eapply pr_mono; [exact Hpr|lia]. }
  destruct H1 as (rid & x' & ps' & H1 & _). destruct H2 as (rid2 & x2 & ps2 & H2 & _).
  exists x, root. split; [exists rid, x'; exact H1|exists rid2, x2; exact H2].
Defined.
