(* ===== verification/HeapBatch.v ===== *)
(** * Batch insertion into a heap chain

    [insert_batch] and [insert_batch_with_zm] of
    crates/axiomdb-storage/src/heap_chain_batch.rs: many rows are appended with one copy of
    the last page at a time, and the zone map of each page is kept. *)

From S2P Require Import Prelude Page Heap PageRows SlotBitmap FreeList Storage PageIo ZoneMap HeapChain.

(** ** Insertion *)

Section InsertBatch.
Context {St : Type} {C : Crc32c} {E : StorageEngine St}.

(** [if let Some(Some((col_idx, val))) = zm_values.get(row_idx) { update_zone_map(..) }] *)
Definition zm_apply (zm_values : list (option (Z * Z))) (row_idx : nat) (page : Page) : Page :=
  match zm_values !! row_idx with
  | Some (Some (col_idx, val)) => update_zone_map page col_idx val
  | _ => page
  end.

(** The loop over the rows: their locations, then the last page, its copy and whether it
    is dirty. *)
Fixpoint batch_loop (txn_id : Z) (zm_values : list (option (Z * Z))) (rows : list bytes) (row_idx : nat)
    (last_id : Z) (page : Page) (dirty : bool) : M St (list (Z * Z) * (Z * Page * bool)) :=
  match rows with
  | [] => io_ret ([], (last_id, page, dirty))
  | data :: rows' =>
      match insert_tuple page data txn_id with
      | None => io_panic
      | Some (Ok slot_id, page) =>
          do! r := batch_loop txn_id zm_values rows' (S row_idx) last_id (zm_apply zm_values row_idx page) true in
          io_ret ((last_id, slot_id) :: r.1, r.2)
      | Some (Err (HeapPageFull _ _ _), page) =>
          do! _ := io_write last_id (update_checksum page) in
          do! new_id := io_alloc PtData in
          do! _ := insert_link last_id new_id in
          do! s := page_op (insert_tuple (page_new PtData new_id) data txn_id) in
          do! r := batch_loop txn_id zm_values rows' (S row_idx) new_id (zm_apply zm_values row_idx s.2) true in
          io_ret ((new_id, s.1) :: r.1, r.2)
      | Some (Err e, _) => io_fail e
      end
  end.

Definition insert_batch_with_zm (fuel : nat) (root_page_id : Z) (rows : list bytes) (txn_id : Z)
    (zm_values : list (option (Z * Z))) : M St (list (Z * Z)) :=
  match rows with
  | [] => io_ret []
  | _ =>
      do! last_id := last_page_id fuel root_page_id in
      do! page := load_checked last_id in
      do! r := batch_loop txn_id zm_values rows 0 last_id page false in
      do! _ := (if r.2.2 then io_write r.2.1.1 (update_checksum r.2.1.2) else io_ret tt) in
      io_ret r.1
  end.

(** A call that passes [None] for the batch of pages. *)
Definition without_batch {A} (m : M St A) : M St A :=
  fun x => let! r := m (mkIo None (io_store x)) in Some (r.1, mkIo (io_batch x) (io_store r.2)).

Definition insert_batch (fuel : nat) (root_page_id : Z) (rows : list bytes) (txn_id : Z) : M St (list (Z * Z)) :=
  without_batch (insert_batch_with_zm fuel root_page_id rows txn_id []).
End InsertBatch.

(** ** Batch insertion *)

(** A chain whose last page [l] is allocated, whatever it holds. *)
Record open_chain (v : Z -> option Page) (root : Z) (ps : list (Z * Page)) (l : Z) : Prop := {
  oc_root : next_of ps l = root;
  oc_nodup : NoDup (ps.*1 ++ [l]);
  oc_linked : linked v ps l;
  oc_num : page_num l;
  oc_last : is_Some (v l)
}.

Lemma chain_open v root ps l p : heap_chain v root (ps ++ [(l, p)]) -> open_chain v root ps l.
Proof.
  intros [Hr _ Hnd (Hl & Hl1 & Hl2 & _)%linked_app]. rewrite next_of_app in Hr. rewrite fmap_app in Hnd.
  split; [done|done|done|done|by eexists].
Qed.

Lemma open_moved v root ps l : open_chain v root ps l -> moved v v (ps.*1 ++ [l]) (ps.*1 ++ [l]).
Proof.
  intros [_ Hnd Hl Hn Hs]. pose proof (proj1 (proj1 (NoDup_app _ _) Hnd)) as Hnd'.
  pose proof (linked_moved _ _ _ Hl Hnd') as Hm. apply moved_refl; [|done|].
  - intros j [Hj| ->%list_elem_of_singleton]%elem_of_app; [by apply (mv_in _ _ _ _ Hm)|done].
  - apply Forall_app. split; [apply Hm|by constructor].
Qed.

(** Writing the last page closes the chain. *)
Lemma open_close v v' root ps l q :
  open_chain v root ps l -> (forall j, v' j = if decide (j = l) then Some q else v j) ->
  heap_page q -> chain_next_page q = 0 ->
  heap_chain v' root (ps ++ [(l, q)]) /\ moved v v' (ps.*1 ++ [l]) (ps.*1 ++ [l]).
Proof.
  intros Ho Hv Hh Hn. pose proof (open_moved _ _ _ _ Ho) as Hm. destruct Ho as [Hr Hnd Hl Hnum Hs].
  split; [|eapply (moved_write_in _ _ _ _ _ l q); [exact Hm|set_solver|exact Hv]].
  split; [by rewrite next_of_app|by destruct ps|by rewrite fmap_app|]. apply linked_app. cbn [next_of linked].
  split; [|split_and!; [done|by rewrite Hv, decide_True|done|done|done]].
  eapply linked_ext; [|exact Hl]. intros i Hi. rewrite Hv, decide_False; [done|]. intros ->.
  apply NoDup_app in Hnd as (_ & Hd & _). apply (Hd l Hi). by left.
Qed.

(** Linking an allocated page opens it again. *)
Lemma close_open v v1 v' root ps l q q' i :
  heap_chain v root (ps ++ [(l, q)]) -> page_num i -> v i = None -> is_Some (v1 i) -> (forall j, j ≠ i -> v1 j = v j) ->
  (forall j, v' j = if decide (j = l) then Some q' else v1 j) -> heap_page q' -> chain_next_page q' = i ->
  open_chain v' root (ps ++ [(l, q')]) i /\ moved v v' (ps.*1 ++ [l]) ((ps.*1 ++ [l]) ++ [i]).
Proof.
  intros Hc Hi Hi0 Hi1 Hv1 Hv Hh Hn. pose proof (open_moved _ _ _ _ (chain_open _ _ _ _ _ Hc)) as Hm.
  assert (Hni : ~ i ∈ ps.*1 ++ [l]).
  { intros Hin. destruct (mv_in _ _ _ _ Hm _ Hin). congruence. }
  assert (Hil : i ≠ l) by set_solver.
  destruct Hc as [Hr _ Hnd (Hl & Hlq)%linked_app]. rewrite next_of_app in Hr. rewrite fmap_app in Hnd. cbn in Hnd.
  assert (Hnd' : NoDup ((ps.*1 ++ [l]) ++ [i])).
  { apply NoDup_app. split_and!; [done| |apply NoDup_singleton]. intros j Hj ->%list_elem_of_singleton. done. }
  assert (Hvi : is_Some (v' i)) by (by rewrite Hv, decide_False).
  assert (Hvl : v' l = Some q') by (by rewrite Hv, decide_True).
  split.
  - split; [by rewrite next_of_app|by rewrite fmap_app| |done|done]. apply linked_app. cbn [next_of linked].
    split; [|split_and!; try done; apply Hlq]. eapply linked_ext; [|exact Hl]. intros j Hj.
    assert (j ≠ l) by (intros ->; apply NoDup_app in Hnd as (_ & Hd & _); apply (Hd l Hj); by left).
    rewrite Hv, decide_False by done. apply Hv1. set_solver.
  - split; [| | | |done|apply Forall_app; split; [apply Hm|by constructor]].
    + intros j Hj1 Hj2. rewrite Hv, decide_False by set_solver. apply Hv1. set_solver.
    + intros j [Hj| ->%list_elem_of_singleton]%elem_of_app Hj2; done.
    + set_solver.
    + intros j [Hj| ->%list_elem_of_singleton]%elem_of_app; [|done].
      rewrite Hv. case_decide; [by eexists|]. rewrite Hv1 by set_solver. by apply (mv_in _ _ _ _ Hm).
Qed.

(** *** Zone maps in the loop *)

Definition zm_typed (zm_values : list (option (Z * Z))) : Prop :=
  Forall (fun o => forall c v, o = Some (c, v) -> 0 <= c < 2 ^ 8 /\ in_i64 v) zm_values.

(** The entries from [k] on are the values of column [c] of the rows. *)
Definition zm_values_of (c : Z) (value : bytes -> option Z) (zm_values : list (option (Z * Z))) (k : nat) (rows : list bytes) : Prop :=
  forall i d, rows !! i = Some d -> zm_values !! (k + i)%nat = Some ((fun v => (c, v)) <$> value d).

Lemma rezoned_heap_page p p' : heap_page p -> rezoned p p' ->
  heap_page p' /\ chain_next_page p' = chain_next_page p /\ forall i, page_rows i p' = page_rows i p.
Proof.
  intros [Hw Hm] [Hok Hq Hn]. destruct (requiet_same p p' Hw Hq) as (Hw' & Hns & _ & _ & Hall).
  split_and!; [split; [done|]|exact Hn|].
  - rewrite <-Hm. unfold hdr_magic. pose proof (po_len _ Hok). pose proof (po_len _ (hw_page _ Hw)).
    assert (Some (get_le 0 8 p') = Some (get_le 0 8 p)) as [=]; [|done].
    rewrite <-!slice_get_le by (unfold PAGE_SIZE in *; lia). f_equal. apply slice_ext; [apply Hq|]. intros k Hk. apply Hq. lia.
  - intros i. apply page_rows_ext; [done|]. intros j Hj. by apply Hall.
Qed.

Lemma zm_apply_spec zm_values k p :
  zm_typed zm_values -> heap_page p ->
  heap_page (zm_apply zm_values k p) /\ chain_next_page (zm_apply zm_values k p) = chain_next_page p /\
  kept p (zm_apply zm_values k p) /\ forall i, page_rows i (zm_apply zm_values k p) = page_rows i p.
Proof.
  intros Hty Hh. pose proof (kept_refl p Hh). unfold zm_apply. destruct (zm_values !! k) as [[[c v]|]|] eqn:Hz; [|done|done].
  destruct (Forall_lookup_1 _ _ _ _ Hty Hz c v eq_refl) as [Hc Hv].
  destruct (update_zone_map_spec p c v (hw_page _ (proj1 Hh)) Hc Hv) as [Hrz _].
  destruct (rezoned_heap_page p _ Hh Hrz) as (Hh' & Hn' & Hr'). split_and!; [done|done|by apply requiet_kept; [|apply Hrz|]|done].
Qed.

Lemma zone_covers_ext c value p p' :
  num_slots p' = num_slots p -> (forall j, 0 <= j < num_slots p -> tuple_at p' j = tuple_at p j) ->
  read_zone_map p' = read_zone_map p -> zone_covers c value p -> zone_covers c value p'.
Proof.
  intros Hn Ht Hz Hc zm. rewrite Hz. intros Hzm. destruct (Hc zm Hzm) as [Hcol Hall]. split; [done|].
  intros j h d v. rewrite Hn. intros Hj. rewrite Ht by done. by apply Hall.
Qed.

Lemma zm_apply_covers c value zm_values k p p1 t d rows :
  0 <= c < 2 ^ 8 -> (forall d v, value d = Some v -> in_i64 v) -> zm_values_of c value zm_values k (d :: rows) ->
  heap_wf p -> appended p p1 (new_tuple t d) -> zone_covers c value p ->
  zone_covers c value (zm_apply zm_values k p1).
Proof.
  intros Hc Hv Hz Hw Hap Hcov. pose proof (Hz 0%nat d eq_refl) as Hk. rewrite Nat.add_0_r in Hk.
  pose proof (zone_covers_append c value Hc Hv p p1 _ d Hw Hap Hcov) as H. unfold zm_apply. rewrite Hk.
  by destruct (value d).
Qed.

Lemma zm_values_of_tail c value zm_values k d rows :
  zm_values_of c value zm_values k (d :: rows) -> zm_values_of c value zm_values (S k) rows.
Proof. intros Hz i d' Hi. specialize (Hz (S i) d' Hi). by rewrite Nat.add_succ_r in Hz. Qed.

Lemma zone_covers_new {C : Crc32c} c value i : page_num i -> zone_covers c value (page_new PtData i).
Proof.
  intros Hi zm. assert (Hid : in_u64 i) by (unfold page_num, U64_MAX in Hi; unfold in_u64; lia).
  unfold read_zone_map, get_res. rewrite <-(get_le_of_slice 36 28 _ _ 8 1 (reserved_new PtData i Hid)) by lia. done.
Qed.

Section BatchSpec.
Context {St : Type} {C : Crc32c} {CR : Crc32cRange C} {E : StorageEngine St} {L : StorageLaws St} {R : PageRoom St}.
Context (root t : Z) (zm_values : list (option (Z * Z))).
Hypothesis Ht : in_u64 t.
Hypothesis Hzm : zm_typed zm_values.

Definition inserted_rows (rids : list (Z * Z)) (rows : list bytes) : list (Z * Z * Tuple) :=
  zip_with (fun rid d => (rid, new_tuple t d)) rids rows.

(** The zone maps of the pages [ps] and of the copy [q] cover column [c]. *)
Definition zones (c : Z) (value : bytes -> option Z) (ps : list (Z * Page)) (q : Page) : Prop :=
  Forall (fun ip => zone_covers c value ip.2) ps /\ zone_covers c value q.

(** What the loop did between [x] and [x']. *)
Record looped (x x' : Io St) (ps : list (Z * Page)) (l : Z) (q : Page) (k : nat) (rows : list bytes) (rids : list (Z * Z))
    (ps' : list (Z * Page)) (l' : Z) (q' : Page) : Prop := {
  lp_wf : io_wf x';
  lp_open : open_chain (vw x') root ps' l';
  lp_page : heap_page q';
  lp_next : chain_next_page q' = 0;
  lp_rows : chain_rows ps' ++ page_rows l' q' = (chain_rows ps ++ page_rows l q) ++ inserted_rows rids rows;
  lp_len : length rids = length rows;
  lp_moved : moved (vw x) (vw x') (ps.*1 ++ [l]) (ps'.*1 ++ [l']);
  lp_prefix : ps.*1 ++ [l] `prefix_of` ps'.*1 ++ [l'];
  lp_kept : chain_kept (ps ++ [(l, q)]) (ps' ++ [(l', q')]);
  lp_room : forall m, Z.of_nat (length rows) <= m -> pr x m -> pr x' (m - Z.of_nat (length rows));
  lp_zones : forall c value, 0 <= c < 2 ^ 8 -> (forall d v, value d = Some v -> in_i64 v) ->
    zm_values_of c value zm_values k rows -> zones c value ps q -> zones c value ps' q'
}.

(** One row that fits, then the rest. *)
Lemma looped_fit x x' ps l q q0 k d rows rids ps' l' q' :
  Forall (fun ip => heap_page ip.2) ps -> heap_page q -> appended q q0 (new_tuple t d) ->
  looped x x' ps l (zm_apply zm_values k q0) (S k) rows rids ps' l' q' ->
  looped x x' ps l q k (d :: rows) ((l, num_slots q) :: rids) ps' l' q'.
Proof.
  intros Hps Hh Hap [W O P N Rs Ln Mv Pf Kp Rm Zn]. destruct (appended_heap_page _ _ _ Hh Hap) as [Hh0 _].
  destruct (zm_apply_spec zm_values k q0 Hzm Hh0) as (_ & _ & Hkz & Hrows).
  split; [done|done|done|done| |cbn; lia|done|done| | |]; [|eapply chain_kept_trans; [|exact Kp]; apply chain_kept_last; [done|]..| |].
  2:{ eapply kept_trans; [by eapply appended_kept|done]. }
  - rewrite Rs, Hrows, (page_rows_app l q q0 _ (proj1 Hh) Hap). cbn [inserted_rows zip_with]. by rewrite <-!app_assoc.
  - intros m Hm Hx. cbn [length] in *. apply (pr_mono _ (m - Z.of_nat (length rows))); [apply Rm; [lia|done]|lia].
  - intros c value Hc Hv Hz [Z1 Z2]. apply Zn; [done|done|by eapply zm_values_of_tail|]. split; [done|].
    eapply zm_apply_covers; [done|done|exact Hz|apply Hh|exact Hap|done].
Qed.

(** A page is full: it is written and linked to a new one, which takes the row. *)
Lemma looped_grow x x3 x' ps l q q' i q0 k d rows rids ps' l' q'' :
  Forall (fun ip => heap_page ip.2) ps -> heap_page q -> heap_page q' -> requiet q q' -> read_zone_map q' = read_zone_map q -> page_num i ->
  appended (page_new PtData i) q0 (new_tuple t d) ->
  moved (vw x) (vw x3) (ps.*1 ++ [l]) ((ps.*1 ++ [l]) ++ [i]) ->
  (forall m, 0 < m -> pr x m -> pr x3 (m - 1)) ->
  looped x3 x' (ps ++ [(l, q')]) i (zm_apply zm_values k q0) (S k) rows rids ps' l' q'' ->
  looped x x' ps l q k (d :: rows) ((i, 0) :: rids) ps' l' q''.
Proof.
  intros Hps Hh Hh' Hq Hz Hi Hap Hm Hpr [W O P N Rs Ln Mv Pf Kp Rm Zn].
  destruct (new_heap_page i Hi) as (Hhn & _ & Hns & _). destruct (appended_heap_page _ _ _ Hhn Hap) as [Hh0 _].
  destruct (zm_apply_spec zm_values k q0 Hzm Hh0) as (_ & _ & _ & Hrows).
  destruct (requiet_same q q' (proj1 Hh) Hq) as (_ & Hn' & _ & _ & Hall).
  rewrite fmap_app in Mv, Pf. cbn [fmap list_fmap] in Mv, Pf.
  split; [done|done|done|done| |cbn; lia|by eapply moved_trans| | | |].
  - rewrite Rs, Hrows, (page_rows_app i _ q0 _ (proj1 Hhn) Hap), Hns, chain_rows_app, chain_rows_one.
    assert (page_rows l q' = page_rows l q) as -> by (apply page_rows_ext; [done|]; intros j Hj; by apply Hall).
    assert (page_rows i (page_new PtData i) = []) as -> by (unfold page_rows; by rewrite Hns).
    cbn [inserted_rows zip_with]. by rewrite <-!app_assoc.
  - etrans; [|exact Pf]. by eexists.
  - eapply chain_kept_trans; [|exact Kp]. rewrite <-app_assoc. apply chain_kept_last; [done|by apply requiet_kept].
  - intros m Hm' Hx. cbn [length] in *. replace (m - Z.of_nat (S (length rows))) with (m - 1 - Z.of_nat (length rows)) by lia.
    apply Rm; [lia|]. apply Hpr; [lia|done].
  - intros c value Hc Hv Hzv [Z1 Z2]. apply Zn; [done|done|by eapply zm_values_of_tail|]. split.
    + apply Forall_app. split; [done|]. constructor; [|constructor]. cbn.
      apply (zone_covers_ext c value q); [done| |done|done]. intros j Hj. by apply Hall.
    + eapply zm_apply_covers; [done|done|exact Hzv|apply Hhn|exact Hap|by apply zone_covers_new].
Qed.

Lemma batch_loop_spec rows : forall k ps l q dirty x,
  io_wf x -> open_chain (vw x) root ps l -> heap_page q -> chain_next_page q = 0 -> Forall row_ok rows ->
  wp (batch_loop t zm_values rows k l q dirty) (Z.of_nat (length rows)) x (fun r x' =>
    (dirty = true \/ rows ≠ [] -> r.2.2 = true) /\ exists ps', looped x x' ps l q k rows r.1 ps' r.2.1.1 r.2.1.2) (fun _ _ => False).
Proof.
  induction rows as [|d rows IH]; intros k ps l q dirty x Hwf Ho Hh Hn Hrows; cbn [batch_loop].
  { apply wp_ret. split; [by intros [?|?]|]. exists ps. cbn.
    split; [done|done|done|done| |done|by apply open_moved in Ho|done| | |done].
    - by rewrite app_nil_r.
    - apply chain_kept_last; [by eapply linked_heap, Ho|by apply kept_refl].
    - intros m _ Hx. eapply pr_mono; [exact Hx|lia]. }
  apply Forall_cons in Hrows as [Hrow Hrows]. pose proof (row_ok_len _ Hrow) as Hlen.
  pose proof (insert_tuple_page q d t Hh (proj1 Hrow) Ht Hlen) as Hins.
  destruct (Z.ltb_spec (free_space q) (row_need d)) as [Hfull|Hfit].
  - rewrite Hins. pose proof (hw_page _ (proj1 Hh)) as Hok. set (qc := update_checksum q).
    assert (Hqc : quiet q qc) by (by apply quiet_checksum). destruct (quiet_heap_page q qc Hh Hqc) as (Hhc & Hnc & Hrc).
    apply wp_write; [done|apply Ho|apply hw_page, Hhc|by apply verify_updated|]. intros x1 Hwf1 Hv1 Hpr1.
    destruct (open_close _ (vw x1) root ps l qc Ho Hv1 Hhc) as [Hc1 Hm1]; [by rewrite Hnc|].
    apply wp_alloc; [done|cbn [length]; lia|]. intros i x2 Hwf2 (Hi & Hi0 & Hi1 & Hv2) Hpr2.
    assert (Hl2 : vw x2 l = Some qc).
    { assert (vw x1 l = Some qc) as Hl1 by (by rewrite Hv1, decide_True). rewrite Hv2; [done|]. intros ->. congruence. }
    apply (wp_insert_link _ qc); [done|done|done|done|]. intros x3 q' Hwf3 Hh' Hn' Hq' Hz' Hv3 Hpr3.
    destruct (close_open _ (vw x2) (vw x3) root ps l qc q' i Hc1 Hi Hi0 Hi1 Hv2 Hv3 Hh' Hn') as [Ho3 Hm3].
    destruct (new_heap_page i Hi) as (Hhn & Hnn & Hns & Hfs).
    pose proof (insert_tuple_page _ d t Hhn (proj1 Hrow) Ht Hlen) as Hs. rewrite Hfs, Hns in Hs.
    rewrite (proj2 (Z.ltb_ge _ _)) in Hs by apply Hrow. destruct Hs as (q0 & -> & Hh0 & Hap & _).
    apply wp_bind_ret. cbn [fst snd]. destruct (appended_heap_page _ _ _ Hhn Hap) as [_ Hn0].
    destruct (zm_apply_spec zm_values k q0 Hzm Hh0) as (Hhz & Hnz & _ & _).
    eapply wp_call; [apply (IH (S k) (ps ++ [(l, q')]) i (zm_apply zm_values k q0) true x3); [done|done|done|congruence|done]|cbn [length]; lia|].
    intros [rids [[l' q''] dirty']] x' [Hd (ps' & Hlp)]. cbn [fst snd] in *. split; [apply Hlp|]. apply wp_ret. cbn [fst snd].
    split; [intros _; apply Hd; by left|]. exists ps'.
    eapply (looped_grow x x3 x' ps l q q'); [by eapply linked_heap, Ho|done|done| | |done|exact Hap| | |exact Hlp].
    + eapply requiet_trans; [by apply quiet_requiet|done].
    + rewrite Hz'. by apply reserved_zone.
    + by eapply moved_trans.
    + intros m Hm Hx. apply Hpr3, Hpr2; [done|]. by apply Hpr1.
  - destruct Hins as (q0 & -> & Hh0 & Hap & _). destruct (appended_heap_page _ _ _ Hh Hap) as [_ Hn0].
    destruct (zm_apply_spec zm_values k q0 Hzm Hh0) as (Hhz & Hnz & _ & _).
    eapply wp_call; [apply (IH (S k) ps l (zm_apply zm_values k q0) true x); [done|done|done|congruence|done]|cbn [length]; lia|].
    intros [rids [[l' q''] dirty']] x' [Hd (ps' & Hlp)]. cbn [fst snd] in *. split; [apply Hlp|]. apply wp_ret. cbn [fst snd].
    split; [intros _; apply Hd; by left|]. exists ps'. by eapply looped_fit; [eapply linked_heap, Ho|..].
Qed.

(** The whole batch. *)
Lemma insert_batch_spec fuel ps rows x :
  io_wf x -> heap_chain (vw x) root ps -> Forall row_ok rows -> (length ps <= fuel)%nat ->
  wp (insert_batch_with_zm fuel root rows t zm_values) (Z.of_nat (length rows)) x (fun rids x' =>
    io_wf x' /\ (forall m, Z.of_nat (length rows) <= m -> pr x m -> pr x' (m - Z.of_nat (length rows))) /\
    length rids = length rows /\
    exists ps', extended (vw x) (vw x') root ps ps' (inserted_rows rids rows) /\
      forall c value, 0 <= c < 2 ^ 8 -> (forall d v, value d = Some v -> in_i64 v) -> zm_values_of c value zm_values 0 rows ->
        Forall (fun ip => zone_covers c value ip.2) ps -> Forall (fun ip => zone_covers c value ip.2) ps') (fun _ _ => False).
Proof.
  intros Hwf Hc Hrows Hf. unfold insert_batch_with_zm. destruct rows as [|d rows].
  { apply wp_ret. cbn. split_and!; [done| |done|].
    - intros m _ Hx. eapply pr_mono; [exact Hx|lia].
    - exists ps. split; [|done].
      split; [done|by rewrite app_nil_r|by apply linked_moved with 0; apply Hc|done|by eapply chain_kept_refl, linked_heap, Hc]. }
  destruct (heap_chain_last _ _ _ Hc) as (ps0 & l & p & ->). rewrite length_app in Hf. cbn in Hf.
  pose proof (hc_linked _ _ _ Hc) as [_ (_ & Hp & Hh & Hn & _)]%linked_app.
  apply (wp_run _ l); [rewrite <-(hc_root _ _ _ Hc); apply (last_page_spec _ _ p); [done|apply Hc|lia]|].
  apply (wp_load_checked _ p); [done..|]. pose proof (chain_open _ _ _ _ _ Hc) as Ho.
  eapply wp_call; [by apply (batch_loop_spec (d :: rows) 0 ps0 l p false x)|lia|].
  intros [rids [[l' q] dirty]] x1 [Hd (ps1 & Hlp)]. cbn [fst snd] in *. split; [apply Hlp|]. rewrite Hd by (by right).
  pose proof (proj1 (lp_page _ _ _ _ _ _ _ _ _ _ _ Hlp)) as Hwq. pose proof (hw_page _ Hwq) as Hok.
  assert (Hq : quiet q (update_checksum q)) by (by apply quiet_checksum).
  destruct (quiet_heap_page q _ (lp_page _ _ _ _ _ _ _ _ _ _ _ Hlp) Hq) as (Hhq & Hnq & Hrq).
  apply wp_write; [apply Hlp|apply (oc_last _ _ _ _ (lp_open _ _ _ _ _ _ _ _ _ _ _ Hlp))|apply hw_page, Hhq|by apply verify_updated|].
  intros x2 Hwf2 Hv2 Hpr2. apply wp_ret. split; [done|].
  split; [intros m Hm Hx; by apply Hpr2, (lp_room _ _ _ _ _ _ _ _ _ _ _ Hlp)|]. split; [apply Hlp|].
  destruct (open_close _ (vw x2) root ps1 l' (update_checksum q) (lp_open _ _ _ _ _ _ _ _ _ _ _ Hlp) Hv2 Hhq) as [Hc2 Hm2].
  { rewrite Hnq. apply Hlp. }
  exists (ps1 ++ [(l', update_checksum q)]). split; [split; [done| | | |]|].
  - rewrite !chain_rows_app, !chain_rows_one, (quiet_rows l' q) by done. apply Hlp.
  - rewrite !fmap_app. eapply moved_trans; [apply Hlp|done].
  - rewrite !fmap_app. apply Hlp.
  - eapply chain_kept_trans; [apply Hlp|]. apply chain_kept_last; [by eapply linked_heap, Hlp|].
    apply requiet_kept; [apply Hlp|by apply quiet_requiet|done].
  - intros c value Hcr Hv Hz [Hz0 Hz1]%Forall_app. apply Forall_cons in Hz1 as [Hz1 _].
    destruct (lp_zones _ _ _ _ _ _ _ _ _ _ _ Hlp c value Hcr Hv Hz (conj Hz0 Hz1)) as [Z1 Z2].
    apply Forall_app. split; [done|]. apply Forall_singleton. cbn [snd].
    destruct (quiet_same q _ Hwq Hq) as (_ & Hns & _ & _ & Hall).
    apply (zone_covers_ext c value q); [done|intros j Hj; by apply Hall|by apply reserved_zone|done].
Qed.
End BatchSpec.

(** ** Properties *)

Section Properties.
Context {St : Type} {C : Crc32c} {CR : Crc32cRange C} {E : StorageEngine St} {L : StorageLaws St} {R : PageRoom St}.

(** C16: inserting a batch of rows appends them to the rows of the chain in their order, and
    returns their locations, growing the chain as needed; other pages are untouched, and
    with room for a page per row it does not fail.  When the zone values passed are those
    of column [c], zone maps that covered the rows of their pages still do, so a page that
    the filtered scan skips holds no row that satisfies the predicate. *)
Theorem heap_chain_batch_correct fuel root ps rows t zm_values (x : Io St) :
  io_wf x -> heap_chain (vw x) root ps -> Forall row_ok rows -> in_u64 t -> zm_typed zm_values -> (length ps <= fuel)%nat ->
  pr x (Z.of_nat (length rows)) ->
  exists rids x' ps', insert_batch_with_zm fuel root rows t zm_values x = Some (Ok rids, x') /\ io_wf x' /\
    length rids = length rows /\ extended (vw x) (vw x') root ps ps' (inserted_rows t rids rows) /\
    forall c value, 0 <= c < 2 ^ 8 -> (forall d v, value d = Some v -> in_i64 v) -> zm_values_of c value zm_values 0 rows ->
      Forall (fun ip => zone_covers c value ip.2) ps ->
      Forall (fun ip => zone_covers c value ip.2) ps' /\
      forall i p predicate j h d v, (i, p) ∈ ps' -> zone_map_skips p (Some (c, predicate)) = true ->
        (i, j, Some (h, d)) ∈ page_rows i p -> value d = Some v -> ~ zone_holds predicate v.
Proof.
  intros Hwf Hc Hrows Ht Hzm Hf Hpr. pose proof (insert_batch_spec root t zm_values Ht Hzm fuel ps rows x Hwf Hc Hrows Hf) as Hw.
  unfold wp in Hw. destruct (insert_batch_with_zm fuel root rows t zm_values x) as [[[rids|e] x']|]; [|tauto|done].
  destruct Hw as (Hwf' & _ & Hlen & ps' & Hex & Hz). exists rids, x', ps'. split_and!; [done|done|done|done|].
  intros c value Hcr Hv Hzv Hcov. specialize (Hz c value Hcr Hv Hzv Hcov). split; [done|].
  intros i p predicate j h d v Hin Hskip (j' & Heq & Hj)%list_elem_of_fmap Hval. simplify_eq. rewrite Forall_forall in Hz.
  apply elem_of_seqZ in Hj. eapply (zone_skip_sound c value p predicate j' h d v); [by apply (Hz (i, p))|done|lia|done|done].
Qed.
End Properties.

#[local] Existing Instance crc32c_ref.
#[local] Existing Instance crc32c_ref_range.
#[local] Existing Instance engine_room.

Lemma heap_chain_batch_correct_witness :
  exists (x : Io MemoryStorage) root r1 r2 x' ps',
    insert_batch_with_zm 1 root [[1; 2; 3]; [4]] 5 [Some (0, 5); None] x = Some (Ok [r1; r2], x') /\
    chain_rows ps' = [(r1, new_tuple 5 [1; 2; 3]); (r2, new_tuple 5 [4])] /\ heap_chain (vw x') root ps' /\
    forall c value, 0 <= c < 2 ^ 8 -> (forall d v, value d = Some v -> in_i64 v) -> zm_values_of c value [Some (0, 5); None] 0 [[1; 2; 3]; [4]] ->
      Forall (fun ip => zone_covers c value ip.2) ps'.
Proof.
  destruct sample_chain as (x & root & Hwf & Hpr & Hc).
  assert (Hrows : Forall row_ok [[1; 2; 3]; [4]]).
  { repeat constructor; try (unfold byte_ok; lia); vm_compute; congruence. }
  assert (Hzm : zm_typed [Some (0, 5); None]).
  { apply Forall_cons. split; [intros c v [= <- <-]; unfold in_i64; lia|]. apply Forall_cons. split; [done|constructor]. }
  assert (Hnum : page_num root) by (by apply (linked_in _ _ 0 root (page_new PtData root) (hc_linked _ _ _ Hc)); left).
  destruct (heap_chain_batch_correct 1 root _ [[1; 2; 3]; [4]] 5 [Some (0, 5); None] x Hwf Hc Hrows ltac:(widths) Hzm ltac:(cbn; lia))
    as (rids & x' & ps' & Hi & Hwf' & Hlen & Hex & Hz).
  { eapply pr_mono; [exact Hpr|cbn; lia]. }
  destruct rids as [|r1 [|r2 [|]]]; try (exfalso; cbn in Hlen; lia).
  exists x, root, r1, r2, x', ps'. split; [exact Hi|]. split; [|split; [apply Hex|]].
  - rewrite (ex_rows _ _ _ _ _ _ Hex), chain_rows_one. destruct (new_heap_page root Hnum) as (_ & _ & Hns & _).
    unfold page_rows. by rewrite Hns.
  - intros c value Hcr Hv Hzv. apply (Hz c value Hcr Hv Hzv). constructor; [|constructor]. by apply zone_covers_new.
Defined.
