(* ===== verification/HeapUpdate.v ===== *)
(** * Changing many rows of a heap chain

    The batch operations of crates/axiomdb-storage/src/heap_chain_write.rs,
    heap_chain_scan.rs and heap_chain_batch.rs that delete, rewrite and read rows with one
    read and at most one write per page, and the reversal of deletions. *)

From stdpp Require Import sorting.
From S2P Require Import Prelude Page Heap PageRows SlotBitmap FreeList Storage PageIo ZoneMap HeapChain.

(** ** Deletion, rewriting and reading *)

(** [sort_unstable_by_key] with the key (page, slot).  Where two keys are equal the order
    is not specified; the elements are then the same pair in [delete_batch], and the
    theorems about the other two exclude it. *)
Definition rid_le (a b : Z * Z) : Prop := a.1 < b.1 \/ a.1 = b.1 /\ a.2 <= b.2.
#[export] Instance rid_le_dec a b : Decision (rid_le a b).
Proof. unfold rid_le. apply _. Defined.

Definition by_rid {A} (key : A -> Z * Z) (a b : A) : Prop := rid_le (key a) (key b).
#[export] Instance by_rid_dec {A} (key : A -> Z * Z) a b : Decision (by_rid key a b).
Proof. unfold by_rid. apply _. Defined.

Section Batches.
Context {St : Type} {C : Crc32c} {E : StorageEngine St}.

(** The inner loop of [delete_batch]: the slots of one page.  The rest of the list, what
    was deleted, and the page. *)
Fixpoint delete_slots (page_id txn_id : Z) (sorted : list (Z * Z)) (page : Page)
    : M St (list (Z * Z) * list (Z * Z * bytes) * Page) :=
  match sorted with
  | [] => io_ret ([], [], page)
  | (pg, slot_id) :: sorted' =>
      if negb (pg =? page_id) then io_ret (sorted, [], page)
      else
        do! t := page_get (read_tuple page slot_id) in
        match t with
        | None => io_fail (AlreadyDeleted page_id slot_id)
        | Some (_, old_bytes) =>
            do! r := page_op (mark_deleted page slot_id txn_id) in
            do! s := delete_slots page_id txn_id sorted' r.2 in
            io_ret (s.1.1, (page_id, slot_id, old_bytes) :: s.1.2, s.2)
        end
  end.

(** The outer loop; each turn takes at least one element. *)
Fixpoint delete_pages (fuel : nat) (txn_id : Z) (sorted : list (Z * Z)) : M St (list (Z * Z * bytes)) :=
  match fuel with
  | O => io_panic
  | S fuel' =>
      match sorted with
      | [] => io_ret []
      | (page_id, _) :: _ =>
          do! page := load_checked page_id in
          do! r := delete_slots page_id txn_id sorted page in
          do! _ := io_write page_id (update_checksum r.2) in
          do! rest := delete_pages fuel' txn_id r.1.1 in
          io_ret (r.1.2 ++ rest)
      end
  end.

Definition delete_batch (rids : list (Z * Z)) (txn_id : Z) : M St (list (Z * Z * bytes)) :=
  match rids with
  | [] => io_ret []
  | _ => delete_pages (S (length rids)) txn_id (merge_sort (by_rid id) rids)
  end.

(** [result[orig_idx] = v], which panics when the index is out of bounds. *)
Definition set_result {A} (result : list A) (orig_idx : nat) (v : A) : M St (list A) :=
  if decide (orig_idx < length result)%nat then io_ret (<[orig_idx := v]> result) else io_panic.

(** The inner loop of [rewrite_batch_same_slot]. *)
Fixpoint rewrite_slots (page_id txn_id : Z) (indexed : list (nat * (Z * Z) * bytes)) (page : Page) (dirty : bool)
    (result : list (option bytes)) : M St (list (nat * (Z * Z) * bytes) * Page * bool * list (option bytes)) :=
  match indexed with
  | [] => io_ret ([], page, dirty, result)
  | (orig_idx, (pg, slot_id), new_row) :: indexed' =>
      if negb (pg =? page_id) then io_ret (indexed, page, dirty, result)
      else
        do! r := page_op (try_rewrite_tuple_same_slot_no_checksum page slot_id new_row txn_id) in
        match r.1 with
        | Some old_image =>
            do! result := set_result result orig_idx (Some old_image) in
            rewrite_slots page_id txn_id indexed' r.2 true result
        | None => rewrite_slots page_id txn_id indexed' r.2 dirty result
        end
  end.

Fixpoint rewrite_pages (fuel : nat) (txn_id : Z) (indexed : list (nat * (Z * Z) * bytes)) (result : list (option bytes))
    : M St (list (option bytes)) :=
  match fuel with
  | O => io_panic
  | S fuel' =>
      match indexed with
      | [] => io_ret result
      | (_, (page_id, _), _) :: _ =>
          do! page := io_read page_id in
          do! r := rewrite_slots page_id txn_id indexed page false result in
          do! _ := (if r.1.2 then io_write page_id (update_checksum r.1.1.2) else io_ret tt) in
          rewrite_pages fuel' txn_id r.1.1.1 r.2
      end
  end.

Definition rewrite_batch_same_slot (updates : list ((Z * Z) * bytes)) (txn_id : Z) : M St (list (option bytes)) :=
  match updates with
  | [] => io_ret []
  | _ =>
      let indexed := imap (fun i u => (i, u.1, u.2)) updates in
      rewrite_pages (S (length updates)) txn_id (merge_sort (by_rid (fun u => u.1.2)) indexed)
        (replicate (length updates) None)
  end.

(** The inner loop of [read_rows_batch]. *)
Fixpoint read_slots (page_id : Z) (indexed : list (nat * (Z * Z))) (page : Page) (result : list (option bytes))
    : M St (list (nat * (Z * Z)) * list (option bytes)) :=
  match indexed with
  | [] => io_ret ([], result)
  | (orig_idx, (pg, slot_id)) :: indexed' =>
      if negb (pg =? page_id) then io_ret (indexed, result)
      else
        do! t := page_get (read_tuple page slot_id) in
        match t with
        | Some (_, data) =>
            do! result := set_result result orig_idx (Some data) in
            read_slots page_id indexed' page result
        | None => read_slots page_id indexed' page result
        end
  end.

Fixpoint read_pages (fuel : nat) (indexed : list (nat * (Z * Z))) (result : list (option bytes)) : M St (list (option bytes)) :=
  match fuel with
  | O => io_panic
  | S fuel' =>
      match indexed with
      | [] => io_ret result
      | (_, (page_id, _)) :: _ =>
          do! page := load_checked page_id in
          do! r := read_slots page_id indexed page result in
          read_pages fuel' r.1 r.2
      end
  end.

Definition read_rows_batch (rids : list (Z * Z)) : M St (list (option bytes)) :=
  match rids with
  | [] => io_ret []
  | _ =>
      let indexed := imap (fun i r => (i, r)) rids in
      read_pages (S (length rids)) (merge_sort (by_rid snd) indexed) (replicate (length rids) None)
  end.

(** ** Clearing deletions *)

(** The loop of [clear_deletions_by_txn] over the slots of a page. *)
Fixpoint clear_slots (txn_id : Z) (slots : list Z) (page : Page) (modified : bool) : M St (Page * bool) :=
  match slots with
  | [] => io_ret (page, modified)
  | slot_id :: slots' =>
      do! deleted_by := page_get (read_tuple_header page slot_id) in
      match deleted_by with
      | Some d =>
          if d =? txn_id then
            match clear_deletion page slot_id with
            | None => io_panic
            | Some (Ok _, page) => clear_slots txn_id slots' page true
            | Some (Err (AlreadyDeleted _ _), page) => clear_slots txn_id slots' page modified
            | Some (Err e, _) => io_fail e
            end
          else clear_slots txn_id slots' page modified
      | None => clear_slots txn_id slots' page modified
      end
  end.

Fixpoint clear_deletions_by_txn (fuel : nat) (current txn_id : Z) : M St unit :=
  match fuel with
  | O => io_panic
  | S fuel' =>
      if current =? 0 then io_ret tt
      else
        do! page := load_checked current in
        let next := chain_next_page page in
        do! r := clear_slots txn_id (seqZ 0 (num_slots page)) page false in
        do! _ := (if r.2 then io_write current r.1 else io_ret tt) in
        clear_deletions_by_txn fuel' next txn_id
  end.
End Batches.

(** ** Pages under a change of their rows *)

(** [p'] has the slots of [p], the tuple of slot [j] changed by [f j], and the same link
    and zone map. *)
Record page_mapped (f : Z -> Tuple -> Tuple) (p p' : Page) : Prop := {
  pm_heap : heap_page p';
  pm_n : num_slots p' = num_slots p;
  pm_reserved : reserved p' = reserved p;
  pm_settled : settled p p';
  pm_rows : forall j, 0 <= j < num_slots p -> tuple_at p' j = f j (tuple_at p j)
}.

Lemma page_mapped_refl f p : heap_page p -> (forall j, 0 <= j < num_slots p -> f j (tuple_at p j) = tuple_at p j) -> page_mapped f p p.
Proof. intros Hh Hf. split; [done..|by apply kept_refl|]. intros j Hj. by rewrite Hf. Qed.

Lemma page_mapped_trans f g p p' p'' :
  page_mapped f p p' -> page_mapped g p' p'' -> page_mapped (fun j T => g j (f j T)) p p''.
Proof.
  intros [H1 N1 R1 S1 T1] [H2 N2 R2 S2 T2]. split; [done|congruence|congruence|by eapply settled_trans|].
  intros j Hj. rewrite T2, T1 by lia. done.
Qed.

Lemma page_mapped_ext f g p p' :
  (forall j, 0 <= j < num_slots p -> f j (tuple_at p j) = g j (tuple_at p j)) -> page_mapped f p p' -> page_mapped g p p'.
Proof. intros He [H N R S T]. split; [done..|]. intros j Hj. rewrite <-He by done. by apply T. Qed.

Lemma updated_mapped p p' i T :
  heap_page p -> 0 <= i < num_slots p -> updated p p' i T -> page_mapped (fun j U => if decide (j = i) then T else U) p p'.
Proof.
  intros [Hw Hm] Hi Hup. split; [split; [apply Hup|by rewrite (up_magic _ _ _ _ Hup)]|apply Hup|apply Hup| |].
  - by eapply touched_settled, updated_touched.
  - intros j Hj. case_decide; [subst; apply Hup|]. by apply Hup.
Qed.

Lemma quiet_mapped p p' : heap_page p -> quiet p p' -> page_mapped (fun _ U => U) p p'.
Proof.
  intros Hh Hq. destruct (quiet_heap_page p p' Hh Hq) as (Hh' & _ & Hr).
  destruct (quiet_same p p' (proj1 Hh) Hq) as (_ & Hn & _ & _ & Hall).
  split; [done..|by apply requiet_kept; [|apply quiet_requiet|]|]. intros j Hj. by apply Hall.
Qed.

(** Stores, pages [ids] of which changed that way. *)
Record mapped (f : Z * Z -> Tuple -> Tuple) (ids : list Z) (v v' : Z -> option Page) : Prop := {
  md_in : forall i, i ∈ ids -> exists p p', v i = Some p /\ v' i = Some p' /\ page_mapped (fun j => f (i, j)) p p';
  md_out : forall i, ~ i ∈ ids -> v' i = v i
}.

Lemma mapped_nil f v : mapped f [] v v.
Proof. split; [|done]. by intros i ?%not_elem_of_nil. Qed.

(** One page is rewritten, then others. *)
Lemma mapped_cons f i ids p p' v v1 v' :
  v i = Some p -> page_mapped (fun j => f (i, j)) p p' -> (forall j, v1 j = if decide (j = i) then Some p' else v j) ->
  ~ i ∈ ids -> mapped f ids v1 v' -> mapped f (i :: ids) v v'.
Proof.
  intros Hp Hm Hv1 Hni [Hin Hout]. split.
  - intros k [->|Hk]%elem_of_cons.
    + exists p, p'. rewrite Hout, Hv1, decide_True by done. done.
    + destruct (Hin k Hk) as (q & q' & Hq & Hq' & Hmq). rewrite Hv1, decide_False in Hq by (by intros ->).
      by exists q, q'.
  - intros k [Hk1 Hk2]%not_elem_of_cons. by rewrite Hout, Hv1, decide_False.
Qed.

Lemma mapped_ext f g ids ids' v v' :
  (forall i j T, i ∈ ids -> f (i, j) T = g (i, j) T) -> (forall i, i ∈ ids' <-> i ∈ ids) -> mapped f ids v v' -> mapped g ids' v v'.
Proof.
  intros Hfg Hids [Hin Hout]. split.
  - intros i Hi%Hids. destruct (Hin i Hi) as (p & p' & Hp & Hp' & Hm). exists p, p'. split_and!; [done|done|].
    eapply page_mapped_ext; [|exact Hm]. intros j Hj. by apply Hfg.
  - intros i Hi. apply Hout. by rewrite <-Hids.
Qed.

Definition map_rows (f : Z * Z -> Tuple -> Tuple) (rs : list (Z * Z * Tuple)) : list (Z * Z * Tuple) :=
  (fun r => (r.1, f r.1 r.2)) <$> rs.

Lemma page_mapped_rows f i p p' :
  page_mapped (fun j => f (i, j)) p p' -> page_rows i p' = map_rows f (page_rows i p).
Proof.
  intros [_ N _ _ T]. unfold map_rows, page_rows. rewrite N, <-list_fmap_compose. apply list_fmap_ext.
  intros k j Hj%list_elem_of_lookup_2%elem_of_seqZ. cbn. by rewrite T by lia.
Qed.

(** A chain whose rows changed. *)
Lemma linked_mapped f ids v v' ps next :
  linked v ps next -> mapped f ids v v' ->
  (forall i j T, ~ i ∈ ids -> (i, j, T) ∈ chain_rows ps -> f (i, j) T = T) ->
  exists ps', linked v' ps' next /\ ps'.*1 = ps.*1 /\ next_of ps' next = next_of ps next /\ chain_rows ps' = map_rows f (chain_rows ps) /\
    Forall2 (fun a b => reserved b.2 = reserved a.2) ps ps'.
Proof.
  induction ps as [|[i p] ps IH]; intros Hl Hm Hf; [by exists []|]. destruct Hl as (Hi & Hp & Hh & Hn & Hl).
  destruct IH as (ps' & Hl' & Hids & Hnx & Hrs & Hres); [done|done| |].
  { intros k j T Hk Hin. apply Hf; [done|]. change (chain_rows ((i, p) :: ps)) with (page_rows i p ++ chain_rows ps). set_solver. }
  assert (exists p', v' i = Some p' /\ page_mapped (fun j => f (i, j)) p p') as (p' & Hp' & Hpm).
  { destruct (decide (i ∈ ids)) as [Hin|Hout].
    - destruct (md_in _ _ _ _ Hm i Hin) as (q & q' & Hq & Hq' & Hpm). assert (q = p) as -> by congruence. by exists q'.
    - exists p. rewrite (md_out _ _ _ _ Hm) by done. split; [done|]. apply page_mapped_refl; [done|].
      intros j Hj. apply Hf; [done|]. change (chain_rows ((i, p) :: ps)) with (page_rows i p ++ chain_rows ps).
      apply elem_of_app. left. unfold page_rows. apply list_elem_of_fmap. exists j. split; [done|]. apply elem_of_seqZ. lia. }
  exists ((i, p') :: ps'). cbn [linked next_of]. split_and!; [done|done|apply Hpm| |done|cbn; by f_equal|done| |by constructor; [apply Hpm|]].
  - rewrite Hnx, <-Hn. apply reserved_next; [apply hw_page, Hh|apply Hpm].
  - change (page_rows i p' ++ chain_rows ps' = map_rows f (page_rows i p ++ chain_rows ps)).
    unfold map_rows at 1. rewrite fmap_app. by rewrite Hrs, (page_mapped_rows f i p p').
Qed.

Lemma heap_chain_mapped f ids v v' root ps :
  heap_chain v root ps -> mapped f ids v v' ->
  (forall i j T, ~ i ∈ ids -> (i, j, T) ∈ chain_rows ps -> f (i, j) T = T) ->
  exists ps', heap_chain v' root ps' /\ ps'.*1 = ps.*1 /\ chain_rows ps' = map_rows f (chain_rows ps) /\
    Forall2 (fun a b => reserved b.2 = reserved a.2) ps ps'.
Proof.
  intros [Hr Hne Hnd Hl] Hm Hf. destruct (linked_mapped f ids v v' ps 0 Hl Hm Hf) as (ps' & Hl' & Hids & Hnx & Hrs & Hres).
  exists ps'. split; [|done]. split; [congruence| |by rewrite Hids|done]. intros ->. by destruct ps.
Qed.

(** ** Sorted locations *)

#[export] Instance rid_le_total : Total rid_le.
Proof. intros a b. unfold rid_le. lia. Qed.
#[export] Instance rid_le_trans : Transitive rid_le.
Proof. intros a b c. unfold rid_le. lia. Qed.
#[export] Instance by_rid_total {A} (key : A -> Z * Z) : Total (by_rid key).
Proof. intros a b. apply rid_le_total. Qed.
#[export] Instance by_rid_trans {A} (key : A -> Z * Z) : Transitive (by_rid key).
Proof. intros a b c. apply rid_le_trans. Qed.

(** The elements of the first page come first. *)
Lemma sorted_group {A} (key : A -> Z * Z) i l :
  StronglySorted (by_rid key) l -> Forall (fun b => i <= (key b).1) l ->
  exists pre rest, l = pre ++ rest /\ Forall (fun b => (key b).1 = i) pre /\ Forall (fun b => i < (key b).1) rest /\
    StronglySorted (by_rid key) rest.
Proof.
  intros Hs. induction Hs as [|b l Hs IH Hall]; intros Hi.
  { exists [], []. split_and!; [done|constructor..]. }
  apply Forall_cons in Hi as [Hb Hi]. destruct (decide ((key b).1 = i)) as [Heq|Hne].
  - destruct (IH Hi) as (pre & rest & -> & Hp & Hr & Hsr). exists (b :: pre), rest. split_and!; [done|by constructor|done|done].
  - exists [], (b :: l). split_and!; [done|constructor| |by constructor]. constructor; [lia|].
    eapply Forall_impl; [exact Hall|]. unfold by_rid, rid_le. intros c Hc. lia.
Qed.

Lemma sorted_head {A} (key : A -> Z * Z) a l :
  StronglySorted (by_rid key) (a :: l) ->
  exists pre rest, a :: l = pre ++ rest /\ Forall (fun b => (key b).1 = (key a).1) pre /\
    Forall (fun b => (key a).1 < (key b).1) rest /\ StronglySorted (by_rid key) rest /\ (length rest < length (a :: l))%nat.
Proof.
  intros Hs. destruct (sorted_group key (key a).1 (a :: l) Hs) as (pre & rest & Heq & Hp & Hr & Hsr).
  { inversion Hs as [|? ? ? Hall]; subst. constructor; [lia|]. eapply Forall_impl; [exact Hall|]. unfold by_rid, rid_le. lia. }
  exists pre, rest. split_and!; [done..|]. destruct pre as [|b pre].
  - cbn in Heq. subst rest. apply Forall_cons in Hr as [? _]. lia.
  - rewrite Heq. cbn. rewrite length_app. lia.
Qed.

(** Changing the pages of a sorted list, the first page first. *)
Lemma mapped_group {A} (key : A -> Z * Z) f i pre rest p p' v v1 v' :
  v i = Some p -> page_mapped (fun j => f (i, j)) p p' -> (forall j, v1 j = if decide (j = i) then Some p' else v j) ->
  Forall (fun b => (key b).1 = i) pre -> pre ≠ [] -> Forall (fun b => i < (key b).1) rest ->
  mapped f (key <$> rest).*1 v1 v' -> mapped f (key <$> pre ++ rest).*1 v v'.
Proof.
  intros Hp Hm Hv Hpre Hne Hrest Hm'. eapply (mapped_ext f _ (i :: (key <$> rest).*1)); [done| |].
  - intros k. rewrite !fmap_app, elem_of_app, elem_of_cons. split.
    + intros [(r & -> & (b & -> & Hb)%list_elem_of_fmap)%list_elem_of_fmap|?]; [left|by right].
      rewrite Forall_forall in Hpre. by apply Hpre.
    + intros [->|?]; [left|by right]. destruct pre as [|b pre]; [done|]. apply Forall_cons in Hpre as [<- _]. left.
  - eapply mapped_cons; [exact Hp|exact Hm|exact Hv| |exact Hm'].
    intros (r & -> & (b & -> & Hb)%list_elem_of_fmap)%list_elem_of_fmap. rewrite Forall_forall in Hrest. specialize (Hrest b Hb). lia.
Qed.

(** ** Deletion *)

Definition data_at (p : Page) (j : Z) : bytes := match tuple_at p j with Some (_, d) => d | None => [] end.
(** The data of the row at [r], as a store holds it. *)
Definition data_of (v : Z -> option Page) (r : Z * Z) : bytes :=
  match v r.1 with Some p => data_at p r.2 | None => [] end.

(** The row at [r] is there and its slot is live. *)
Definition row_live (v : Z -> option Page) (r : Z * Z) : Prop :=
  exists p, v r.1 = Some p /\ heap_page p /\ live p r.2.

Definition stamp (t : Z) (rids : list (Z * Z)) (r : Z * Z) (T : Tuple) : Tuple :=
  if decide (r ∈ rids) then set_deleted t <$> T else T.

Lemma mark_deleted_spec p i t :
  heap_wf p -> live p i -> in_u64 t ->
  exists p', mark_deleted p i t = Some (Ok tt, p') /\ updated p p' i (set_deleted t <$> tuple_at p i).
Proof.
  intros Hwf Hi Ht. destruct (clear_same p Hwf) as (Hwf0 & Hn & _ & _ & Hq & Hall). pose proof Hi as [Hi0 Hd].
  destruct (Hall i Hi0) as [Hs Htup]. unfold mark_deleted. rewrite Hn, (proj2 (Z.leb_gt _ _)) by lia.
  rewrite read_slot_wf by (done || lia). rewrite Hs, Hd. assert (Hlive : live (clear_all_visible p) i) by (split; [lia|by rewrite Hs]).
  destruct (stamp_updated _ i t Hwf0 Hlive Ht) as (p1 & Hp1 & Hup). rewrite Hs in Hp1. rewrite Hp1. exists p1. split; [done|].
  rewrite Htup in Hup. by eapply updated_from_quiet.
Qed.

Lemma mapped_live f p p' j : page_mapped f p p' -> (forall T, f j T = None -> T = None) -> heap_wf p -> live p j -> live p' j.
Proof.
  intros Hm Hf Hw Hj. apply live_tuple; [apply Hm|rewrite (pm_n _ _ _ Hm); apply Hj|].
  rewrite (pm_rows _ _ _ Hm) by apply Hj. intros Hn%Hf. by apply (live_tuple p j Hw (proj1 Hj)) in Hj.
Qed.

Section Delete.
Context {St : Type} {C : Crc32c} {CR : Crc32cRange C} {E : StorageEngine St} {L : StorageLaws St}.
Context (t : Z).
Hypothesis Ht : in_u64 t.

Lemma delete_slots_spec i pre rest (x : Io St) : forall p,
  heap_page p -> Forall (fun r => r.1 = i) pre -> Forall (fun r => live p r.2) pre -> Forall (fun r => i < r.1) rest ->
  exists p', delete_slots i t (pre ++ rest) p x = Some (Ok (rest, (fun r => (r, data_at p r.2)) <$> pre, p'), x) /\
    page_mapped (fun j => stamp t pre (i, j)) p p'.
Proof.
  induction pre as [|[i' j] pre IH]; intros p Hh Hpre Hlv Hrest.
  - exists p. split; [|by apply page_mapped_refl; [|intros j _; unfold stamp; rewrite decide_False by apply not_elem_of_nil]].
    destruct rest as [|[i' j] rest]; [done|]. apply Forall_cons in Hrest as [Hi _]. cbn in Hi. cbn [app delete_slots].
    by rewrite (proj2 (Z.eqb_neq i' i)) by lia.
  - apply Forall_cons in Hpre as [Hi Hpre], Hlv as [Hj Hlv]. cbn in Hi, Hj. subst i'. cbn [app delete_slots]. rewrite Z.eqb_refl. cbn [negb].
    pose proof (proj1 Hh) as Hw. pose proof (proj1 Hj) as Hj0.
    unfold io_bind. rewrite read_tuple_wf by (done || lia). rewrite (proj2 (Z.leb_gt _ _)) by lia. cbn [page_get].
    destruct (tuple_at p j) as [[h d]|] eqn:Hu; [|by apply (live_tuple p j Hw Hj0) in Hj]. unfold io_ret at 1.
    destruct (mark_deleted_spec p j t (proj1 Hh) Hj Ht) as (p1 & Hp1 & Hup). rewrite Hp1. unfold page_op, io_ret at 1. cbn [fst snd].
    pose proof (updated_mapped p p1 j _ Hh Hj0 Hup) as Hm1.
    destruct (IH p1) as (p' & Hp' & Hm2); [apply Hm1|done| |done|].
    { eapply Forall_impl; [exact Hlv|]. intros r Hr. eapply mapped_live; [exact Hm1| |apply Hh|exact Hr].
      cbn. intros T. case_decide; [by rewrite Hu|done]. }
    rewrite Hp'. exists p'. split.
    + assert (Hd : (fun r => (r, data_at p1 r.2)) <$> pre = (fun r => (r, data_at p r.2)) <$> pre).
      { apply list_fmap_ext. intros k r Hr. f_equal. unfold data_at. rewrite (pm_rows _ _ _ Hm1).
        2:{ apply (Forall_lookup_1 _ _ _ _ Hlv Hr). }
        case_decide as Heq; [|done]. by rewrite Heq, Hu. }
      rewrite Hd, fmap_cons. cbn [fst snd]. unfold data_at at 2. by rewrite Hu.
    + eapply page_mapped_ext; [|exact (page_mapped_trans _ _ _ _ _ Hm1 Hm2)]. intros k Hk. cbn. unfold stamp.
      destruct (decide (k = j)) as [->|Hkj].
      * rewrite (decide_True (P := (i, j) ∈ (i, j) :: pre)) by left. rewrite Hu. cbn. by case_decide.
      * destruct (decide ((i, k) ∈ pre)) as [Hin|Hin].
        -- by rewrite decide_True by (by right).
        -- rewrite decide_False; [done|]. rewrite elem_of_cons. intros [[=]|?]; done.
Qed.

Lemma checksummed_mapped f p p' : page_mapped f p p' -> page_mapped f p (update_checksum p').
Proof.
  intros Hm. pose proof (hw_page _ (proj1 (pm_heap _ _ _ Hm))) as Hok.
  eapply page_mapped_ext; [|eapply page_mapped_trans; [exact Hm|apply quiet_mapped; [apply Hm|by apply quiet_checksum]]]. done.
Qed.

(** Writing back a page whose rows changed. *)
Lemma write_mapped f i p p' (x : Io St) :
  io_wf x -> vw x i = Some p -> page_mapped f p p' ->
  exists x', io_write i (update_checksum p') x = Some (Ok tt, x') /\ io_wf x' /\ room_kept x x' /\ page_mapped f p (update_checksum p') /\
    forall j, vw x' j = if decide (j = i) then Some (update_checksum p') else vw x j.
Proof.
  intros Hwf Hp Hm. pose proof (checksummed_mapped f p p' Hm) as Hm'.
  destruct (io_write_ok x i (update_checksum p') Hwf) as (x' & Hw & Hwf' & _ & _ & Hv); [by rewrite Hp|apply hw_page, Hm'| |exists x'; split_and!; [done|done|by eapply room_kept_write|done|done]].
  apply verify_updated, hw_page, Hm.
Qed.

Lemma delete_pages_spec : forall fuel l (x : Io St),
  io_wf x -> StronglySorted (by_rid id) l -> Forall (row_live (vw x)) l -> (length l < fuel)%nat ->
  exists x', delete_pages fuel t l x = Some (Ok ((fun r => (r, data_of (vw x) r)) <$> l), x') /\ io_wf x' /\ room_kept x x' /\
    mapped (stamp t l) (id <$> l).*1 (vw x) (vw x').
Proof.
  induction fuel as [|fuel IH]; intros l x Hwf Hs Hlv Hf; [lia|]. destruct l as [|[i j] l0].
  { exists x. split_and!; [done|done|apply room_kept_refl|apply mapped_nil]. }
  cbn [delete_pages]. destruct (sorted_head id (i, j) l0 Hs) as (pre & rest & Heq & Hpre & Hrest & Hsr & Hlen). cbn in Hpre, Hrest.
  pose proof (Forall_cons_1 _ _ _ Hlv) as [(p & Hp & Hh & _) _]. cbn in Hp.
  rewrite Heq in Hlv |- *. apply Forall_app in Hlv as [Hlp Hlr]. unfold io_bind. rewrite (load_checked_ok x i p) by done.
  destruct (delete_slots_spec i pre rest x p Hh Hpre) as (p1 & Hd & Hm1); [|done|].
  { rewrite Forall_forall in *. intros r Hr. destruct (Hlp r Hr) as (q & Hq & _ & Hl). rewrite (Hpre r Hr) in Hq. by simplify_eq. }
  rewrite Hd. cbn [fst snd]. destruct (write_mapped _ i p p1 x Hwf Hp Hm1) as (x1 & Hw1 & Hwf1 & Hrk1 & Hm1' & Hv1). rewrite Hw1.
  assert (Hother : forall r, r ∈ rest -> vw x1 r.1 = vw x r.1).
  { intros r Hr. rewrite Hv1, decide_False; [done|]. rewrite Forall_forall in Hrest. specialize (Hrest r Hr). cbn in Hrest. lia. }
  destruct (IH rest x1 Hwf1 Hsr) as (x' & Hd' & Hwf' & Hrk & Hm'); [|lia|].
  { rewrite Forall_forall in *. intros r Hr. destruct (Hlr r Hr) as (q & Hq & Hq'). exists q. by rewrite Hother. }
  rewrite Hd'. exists x'. split_and!; [|done|by eapply room_kept_trans|].
  - unfold io_ret. rewrite fmap_app. do 4 f_equal; apply list_fmap_ext; intros k r Hr%list_elem_of_lookup_2; f_equal; unfold data_of.
    + rewrite Forall_forall in Hpre. by rewrite (Hpre r Hr), Hp.
    + by rewrite Hother.
  - eapply (mapped_group id _ i pre rest p); [exact Hp| |exact Hv1|done|destruct pre; [cbn in Heq; subst; cbn in Hlen; lia|done]|done|].
    + eapply page_mapped_ext; [|exact Hm1']. intros k Hk. unfold stamp. apply decide_ext. rewrite elem_of_app. split; [by left|].
      intros [?|Hr]; [done|]. rewrite Forall_forall in Hrest. specialize (Hrest _ Hr). cbn in Hrest. lia.
    + eapply mapped_ext; [|done|exact Hm']. intros k m T Hk. rewrite list_fmap_id in Hk. apply list_elem_of_fmap in Hk as (r & -> & Hr). unfold stamp. apply decide_ext.
      rewrite elem_of_app. split; [by right|]. intros [Hp'|?]; [|done]. rewrite Forall_forall in Hpre, Hrest.
      specialize (Hpre _ Hp'). specialize (Hrest _ Hr). cbn in Hpre, Hrest. lia.
Qed.

Lemma delete_batch_spec rids (x : Io St) :
  io_wf x -> Forall (row_live (vw x)) rids ->
  exists sorted x', sorted ≡ₚ rids /\ StronglySorted rid_le sorted /\
    delete_batch rids t x = Some (Ok ((fun r => (r, data_of (vw x) r)) <$> sorted), x') /\ io_wf x' /\ room_kept x x' /\
    mapped (stamp t rids) rids.*1 (vw x) (vw x').
Proof.
  intros Hwf Hlv. unfold delete_batch. destruct rids as [|r0 rids0].
  { exists [], x. split_and!; [done|constructor|done|done|apply room_kept_refl|apply mapped_nil]. }
  set (rids := r0 :: rids0) in *. pose proof (merge_sort_Permutation (by_rid id) rids) as Hp.
  pose proof (StronglySorted_merge_sort (by_rid id) rids) as Hs.
  destruct (delete_pages_spec (S (length rids)) (merge_sort (by_rid id) rids) x Hwf Hs) as (x' & Hd & Hwf' & Hrk & Hm).
  { by rewrite Hp. } { rewrite Hp. lia. }
  exists (merge_sort (by_rid id) rids), x'. split_and!; [done|done|done|done|done|].
  eapply mapped_ext; [| |exact Hm].
  - intros i j T _. unfold stamp. by apply decide_ext; rewrite Hp.
  - intros i. by rewrite list_fmap_id, Hp.
Qed.
End Delete.

(** ** Reversal of deletions *)

(** What [clear_deletions_by_txn] makes of a row. *)
Definition unstamp (t : Z) (T : Tuple) : Tuple :=
  match T with
  | Some u => if txn_id_deleted u.1 =? t then Some (set_deleted 0 u) else T
  | None => None
  end.

Lemma unstamp_twice t T : unstamp t (unstamp t T) = unstamp t T.
Proof.
  destruct T as [[[cr de ve fl] d]|]; [|done]. cbn. destruct (de =? t) eqn:He; cbn; [|by rewrite He].
  by destruct t.
Qed.

Lemma read_tuple_header_spec p j :
  heap_wf p -> 0 <= j < num_slots p -> read_tuple_header p j = Some (Ok ((fun u => txn_id_deleted u.1) <$> tuple_at p j)).
Proof.
  intros Hwf Hj. unfold read_tuple_header. rewrite (proj2 (Z.leb_gt _ _)) by lia. rewrite read_slot_wf by done.
  unfold tuple_at, tuple_of. destruct (is_dead (slot_at p j)) eqn:Hd; [done|].
  destruct (hw_live _ Hwf j (conj Hj Hd)) as [Hlow _ Hlen Hhigh]. pose proof (hw_start _ Hwf). pose proof (hw_end _ Hwf).
  unfold TXN_DELETED_OFFSET_IN_HEADER. pose proof (po_len _ (hw_page _ Hwf)).
  destruct (slice_is_Some (s_offset (slot_at p j) + 8) 8 p) as [bs Hbs]; [lia|lia|lia|]. rewrite Hbs.
  cbn [fmap option_fmap option_map fst txn_id_deleted]. by rewrite (get_le_slice _ _ _ _ Hbs).
Qed.

Section Clear.
Context {St : Type} {C : Crc32c} {CR : Crc32cRange C} {E : StorageEngine St} {L : StorageLaws St}.
Context (t : Z).

Lemma clear_slots_spec (x : Io St) slots : forall p modified,
  heap_page p -> checksum_valid p -> Forall (fun j => 0 <= j < num_slots p) slots ->
  exists p' modified', clear_slots t slots p modified x = Some (Ok (p', modified'), x) /\
    page_mapped (fun j T => if decide (j ∈ slots) then unstamp t T else T) p p' /\ checksum_valid p' /\
    (modified' = false -> modified = false /\ p' = p).
Proof.
  induction slots as [|j slots IH]; intros p modified Hh Hcs Hr; cbn [clear_slots].
  { exists p, modified. split_and!; [done| |done|done]. apply page_mapped_refl; [done|]. intros j _.
    by rewrite decide_False by apply not_elem_of_nil. }
  apply Forall_cons in Hr as [Hj Hr]. unfold io_bind. rewrite read_tuple_header_spec by (done || apply Hh). cbn [page_get].
  unfold io_ret at 1.
  assert (Hskip : unstamp t (tuple_at p j) = tuple_at p j -> exists p' modified',
    clear_slots t slots p modified x = Some (Ok (p', modified'), x) /\
    page_mapped (fun k T => if decide (k ∈ j :: slots) then unstamp t T else T) p p' /\ checksum_valid p' /\
    (modified' = false -> modified = false /\ p' = p)).
  { intros Hu. destruct (IH p modified Hh Hcs Hr) as (p' & m' & Hc & Hm & Hcs' & Hp'). exists p', m'. split_and!; [done| |done|done].
    eapply page_mapped_ext; [|exact Hm]. intros k Hk. cbn. destruct (decide (k = j)) as [->|Hne].
    - rewrite (decide_True (P := j ∈ j :: slots)) by left. rewrite Hu. by case_decide.
    - apply decide_ext. rewrite elem_of_cons. naive_solver. }
  destruct (tuple_at p j) as [u|] eqn:Hu; cbn [fmap option_fmap option_map]; [|by apply Hskip].
  destruct (txn_id_deleted u.1 =? t) eqn:Hd; [|apply Hskip; cbn; by rewrite Hd].
  destruct (clear_deletion_spec p j (proj1 Hh) ltac:(lia)) as (r & p1 & Hc & H). rewrite (proj2 (Z.leb_gt _ _)) in H by lia.
  rewrite Hu in H. destruct H as (-> & Hup & Hz & Hnz). rewrite Hc.
  assert (Hcs1 : checksum_valid p1).
  { destruct (decide (txn_id_deleted u.1 = 0)) as [H0|H0]; [by rewrite (Hz H0)|by apply Hnz]. }
  pose proof (updated_mapped p p1 j _ Hh Hj Hup) as Hm1.
  destruct (IH p1 true) as (p' & m' & Hc' & Hm & Hcs' & Hp'); [apply Hm1|done|by rewrite (pm_n _ _ _ Hm1)|].
  exists p', m'. split_and!; [done| |done|].
  - eapply page_mapped_ext; [|exact (page_mapped_trans _ _ _ _ _ Hm1 Hm)]. intros k Hk. cbn.
    destruct (decide (k = j)) as [->|Hne].
    + rewrite (decide_True (P := j ∈ j :: slots)) by left. assert (Some (set_deleted 0 u) = unstamp t (Some u)) as -> by (cbn; by rewrite Hd).
      rewrite Hu. case_decide; [apply unstamp_twice|done].
    + apply decide_ext. rewrite elem_of_cons. naive_solver.
  - intros [? _]%Hp'. done.
Qed.

Lemma clear_deletions_spec ps : forall (x : Io St) fuel,
  io_wf x -> linked (vw x) ps 0 -> NoDup ps.*1 -> (length ps < fuel)%nat ->
  exists x', clear_deletions_by_txn fuel (next_of ps 0) t x = Some (Ok tt, x') /\ io_wf x' /\
    mapped (fun _ => unstamp t) ps.*1 (vw x) (vw x').
Proof.
  induction ps as [|[i p] ps IH]; intros x [|fuel] Hwf Hl Hnd Hf; try (cbn in Hf; lia).
  { exists x. split_and!; [done|done|apply mapped_nil]. }
  pose proof (linked_next_ne _ _ Hl ltac:(done)) as Hne. destruct Hl as (Hi & Hp & Hh & Hn & Hl).
  rewrite fmap_cons in Hnd. apply NoDup_cons in Hnd as [Hni Hnd]. cbn [next_of clear_deletions_by_txn fst] in *.
  rewrite (proj2 (Z.eqb_neq i 0)) by done. unfold io_bind. rewrite (load_checked_ok x i p) by done.
  pose proof (vw_valid _ _ _ Hwf Hp) as (_ & _ & Hv). assert (Hcs : checksum_valid p).
  { unfold verify_checksum in Hv. unfold checksum_valid. by destruct (Z.eqb_spec (hdr_checksum p) (crc32c (body p))). }
  destruct (clear_slots_spec x (seqZ 0 (num_slots p)) p false Hh Hcs) as (p1 & m & Hc & Hm & Hcs1 & Hp1); [apply Forall_seqZ; lia|].
  rewrite Hc. cbn [fst snd].
  assert (Hm1 : page_mapped (fun _ => unstamp t) p p1).
  { eapply page_mapped_ext; [|exact Hm]. intros j Hj. cbn. rewrite decide_True; [done|]. apply elem_of_seqZ. lia. }
  assert (exists x1, (if m then io_write i p1 else io_ret tt) x = Some (Ok tt, x1) /\ io_wf x1 /\
    forall j, vw x1 j = if decide (j = i) then Some p1 else vw x j) as (x1 & Hw & Hwf1 & Hv1).
  { destruct m.
    - destruct (io_write_ok x i p1 Hwf) as (x1 & Hw & Hwf1 & _ & _ & Hv1); [by rewrite Hp|apply hw_page, Hm1|by apply checksum_valid_verify|].
      by exists x1.
    - exists x. split_and!; [done|done|]. intros j. destruct (Hp1 eq_refl) as [_ ->]. by case_decide; subst. }
  rewrite Hw, Hn. destruct (IH x1 fuel Hwf1) as (x' & Hr & Hwf' & Hm'); [|done|cbn in Hf; lia|].
  { eapply linked_ext; [|exact Hl]. intros j Hj. rewrite Hv1, decide_False; [done|]. by intros ->. }
  exists x'. split_and!; [done|done|]. rewrite fmap_cons. by eapply (mapped_cons (fun _ => unstamp t) i ps.*1 p p1).
Qed.
End Clear.

(** ** Reading and rewriting *)

(** Storing results at their original positions, in the order of processing. *)
Definition fill {A B} (value : A -> option B) (l : list (nat * A)) (result : list (option B)) : list (option B) :=
  foldl (fun res ka => match value ka.2 with Some b => <[ka.1 := Some b]> res | None => res end) result l.

Lemma fill_cons {A B} (value : A -> option B) k a l result :
  fill value ((k, a) :: l) result = fill value l (match value a with Some b => <[k := Some b]> result | None => result end).
Proof. done. Qed.

Lemma fill_app {A B} (value : A -> option B) l l' result : fill value (l ++ l') result = fill value l' (fill value l result).
Proof. apply foldl_app. Qed.

Lemma length_fill {A B} (value : A -> option B) l : forall result, length (fill value l result) = length result.
Proof.
  induction l as [|[k a] l IH]; intros result; [done|]. rewrite fill_cons, IH.
  destruct (value a); [apply length_insert|done].
Qed.

Lemma fill_ext {A B} (f g : A -> option B) l : (forall ka, ka ∈ l -> f ka.2 = g ka.2) -> forall result, fill f l result = fill g l result.
Proof.
  induction l as [|[k a] l IH]; intros Hfg result; [done|]. rewrite !fill_cons. pose proof (Hfg (k, a) ltac:(left)) as Ha.
  cbn in Ha. rewrite Ha. apply IH. intros ka Hka. apply Hfg. by right.
Qed.

Lemma fill_out {A B} (value : A -> option B) l k : forall result, ~ k ∈ l.*1 -> fill value l result !! k = result !! k.
Proof.
  induction l as [|[k' a] l IH]; intros result Hk; [done|]. rewrite fmap_cons in Hk. apply not_elem_of_cons in Hk as [Hne Hk].
  rewrite fill_cons, IH by done. destruct (value a); [|done]. by rewrite list_lookup_insert_ne.
Qed.

Lemma fill_in {A B} (value : A -> option B) l k a : forall result,
  NoDup l.*1 -> (k, a) ∈ l -> result !! k = Some None -> fill value l result !! k = Some (value a).
Proof.
  induction l as [|[k' a'] l IH]; intros result Hnd Hin Hk; [by apply not_elem_of_nil in Hin|].
  rewrite fmap_cons in Hnd. apply NoDup_cons in Hnd as [Hni Hnd]. cbn in Hni. rewrite fill_cons.
  apply elem_of_cons in Hin as [[= <- <-]|Hin].
  - rewrite fill_out by done. destruct (value a); [|done]. apply list_lookup_insert_eq. by eapply lookup_lt_Some.
  - apply IH; [done|done|]. assert (k ≠ k') by (intros ->; apply Hni, list_elem_of_fmap; by exists (k', a)).
    destruct (value a'); [|done]. by rewrite list_lookup_insert_ne.
Qed.

(** Every position is filled, whatever the order. *)
Lemma fill_imap {A B} (value : A -> option B) (l : list A) sorted :
  sorted ≡ₚ imap (fun i a => (i, a)) l -> fill value sorted (replicate (length l) None) = value <$> l.
Proof.
  intros Hp. apply list_eq. intros k. rewrite list_lookup_fmap. destruct (l !! k) as [a|] eqn:Hk; cbn.
  - apply fill_in.
    + rewrite Hp. assert ((imap (fun i a => (i, a)) l).*1 = seq 0 (length l)) as -> by (rewrite fmap_imap; etransitivity; [apply (imap_seq_0 l id)|apply list_fmap_id]).
      apply NoDup_seq.
    + rewrite Hp. apply elem_of_lookup_imap. by exists k, a.
    + rewrite lookup_replicate. split; [done|]. by eapply lookup_lt_Some.
  - apply lookup_ge_None. rewrite length_fill, length_replicate. by apply lookup_ge_None.
Qed.

(** The data of a row, if its slot is live. *)
Definition row_data (v : Z -> option Page) (r : Z * Z) : option bytes :=
  match v r.1 with Some p => snd <$> tuple_at p r.2 | None => None end.

Definition slot_there (v : Z -> option Page) (r : Z * Z) : Prop :=
  exists p, v r.1 = Some p /\ heap_page p /\ 0 <= r.2 < num_slots p.

Section Read.
Context {St : Type} {C : Crc32c} {CR : Crc32cRange C} {E : StorageEngine St} {L : StorageLaws St}.

Lemma set_result_ok {A} (result : list A) k v (x : Io St) :
  (k < length result)%nat -> set_result result k v x = Some (Ok (<[k := v]> result), x).
Proof. intros Hk. unfold set_result. by rewrite decide_True. Qed.

Lemma read_slots_spec i pre rest p (x : Io St) : forall result,
  heap_page p -> Forall (fun kr => kr.2.1 = i) pre -> Forall (fun kr => 0 <= kr.2.2 < num_slots p) pre ->
  Forall (fun kr => i < kr.2.1) rest -> Forall (fun kr => (kr.1 < length result)%nat) pre ->
  read_slots i (pre ++ rest) p result x = Some (Ok (rest, fill (fun r => snd <$> tuple_at p r.2) pre result), x).
Proof.
  induction pre as [|[k [i' j]] pre IH]; intros result Hh Hpre Hj Hrest Hk.
  - destruct rest as [|[k [i' j]] rest]; [done|]. apply Forall_cons in Hrest as [Hi _]. cbn in Hi. cbn [app read_slots].
    by rewrite (proj2 (Z.eqb_neq i' i)) by lia.
  - apply Forall_cons in Hpre as [Hi Hpre], Hj as [Hj Hjs], Hk as [Hk Hks]. cbn in Hi, Hj, Hk. subst i'.
    cbn [app read_slots]. rewrite Z.eqb_refl. cbn [negb]. unfold io_bind. rewrite read_tuple_wf by (apply Hh || lia).
    rewrite (proj2 (Z.leb_gt _ _)) by lia. cbn [page_get]. unfold io_ret at 1. rewrite fill_cons. cbn [snd].
    destruct (tuple_at p j) as [[h d]|] eqn:Hu; cbn [fmap option_fmap option_map snd]; [|by apply IH].
    rewrite set_result_ok by done. apply IH; [done..|]. by rewrite length_insert.
Qed.

Lemma read_pages_spec : forall fuel l result (x : Io St),
  io_wf x -> StronglySorted (by_rid snd) l -> Forall (fun kr => slot_there (vw x) kr.2) l ->
  Forall (fun kr => (kr.1 < length result)%nat) l -> (length l < fuel)%nat ->
  read_pages fuel l result x = Some (Ok (fill (row_data (vw x)) l result), x).
Proof.
  induction fuel as [|fuel IH]; intros l result x Hwf Hs Hlv Hk Hf; [lia|]. destruct l as [|[k [i j]] l0]; [done|].
  cbn [read_pages]. destruct (sorted_head snd (k, (i, j)) l0 Hs) as (pre & rest & Heq & Hpre & Hrest & Hsr & Hlen). cbn in Hpre, Hrest.
  pose proof (Forall_cons_1 _ _ _ Hlv) as [(p & Hp & Hh & _) _]. cbn in Hp.
  rewrite Heq in Hlv, Hk |- *. apply Forall_app in Hlv as [Hlp Hlr], Hk as [Hkp Hkr]. unfold io_bind.
  rewrite (load_checked_ok x i p) by done.
  rewrite read_slots_spec; [|done|done| |done|done]; cbn [fst snd].
  - rewrite IH; [|done|done|done|by rewrite length_fill|lia]. rewrite fill_app. do 4 f_equal. apply fill_ext.
    intros kr Hkr'. rewrite Forall_forall in Hpre. unfold row_data. by rewrite (Hpre kr Hkr'), Hp.
  - rewrite Forall_forall in *. intros kr Hkr'. destruct (Hlp kr Hkr') as (q & Hq & _ & Hl). rewrite (Hpre kr Hkr') in Hq. by simplify_eq.
Qed.

Lemma imap_sorted {A} (l : list A) (key : nat * A -> Z * Z) :
  let s := merge_sort (by_rid key) (imap (fun i a => (i, a)) l) in
  s ≡ₚ imap (fun i a => (i, a)) l /\ StronglySorted (by_rid key) s /\ Forall (fun ka => (ka.1 < length l)%nat) s /\
  (forall P : A -> Prop, Forall P l -> Forall (fun ka => P ka.2) s) /\ length s = length l.
Proof.
  intros s. pose proof (merge_sort_Permutation (by_rid key) (imap (fun i a => (i, a)) l)) as Hp. fold s in Hp.
  split_and!; [done|apply StronglySorted_merge_sort; apply _| | |by rewrite Hp, length_imap].
  - rewrite Hp. apply Forall_forall. intros ka (i & a & -> & Hi)%elem_of_lookup_imap. by eapply lookup_lt_Some.
  - intros P HP. rewrite Hp. apply Forall_forall. intros ka (i & a & -> & Hi)%elem_of_lookup_imap. by eapply Forall_lookup_1 in HP.
Qed.

(** [read_rows_batch] reads each row. *)
Lemma read_rows_batch_spec rids (x : Io St) :
  io_wf x -> Forall (slot_there (vw x)) rids -> read_rows_batch rids x = Some (Ok (row_data (vw x) <$> rids), x).
Proof.
  intros Hwf Hlv. unfold read_rows_batch. destruct rids as [|r0 rids0]; [done|]. set (rids := r0 :: rids0) in *.
  destruct (imap_sorted rids snd) as (Hp & Hs & Hk & HP & Hlen).
  rewrite read_pages_spec; [by rewrite fill_imap|done|done|by apply HP|by rewrite length_replicate|].
  rewrite Hlen. lia.
Qed.
End Read.

(** *** Rewriting in place *)

(** The bytes of a tuple, as [read_tuple_image] returns them. *)
Definition image_at (p : Page) (j : Z) : bytes :=
  match tuple_at p j with Some (h, d) => row_header_bytes h ++ d | None => [] end.

Lemma le_bytes_get off n (bs : bytes) :
  bytes_ok bs -> 0 <= off -> 0 <= n -> off + n <= zlen bs -> le_bytes n (get_le off n bs) = take (Z.to_nat n) (drop (Z.to_nat off) bs).
Proof.
  intros Hb Ho Hn Hl. unfold le_bytes, get_le, le_val. apply Z_to_little_endian_to_Z; [|lia|].
  - rewrite length_take, length_drop. lia.
  - by apply Forall_take, Forall_drop.
Qed.

Lemma header_image bs : bytes_ok bs -> 24 <= zlen bs -> row_header_bytes (row_header_of bs) ++ drop 24 bs = bs.
Proof.
  intros Hb Hl. unfold row_header_bytes, row_header_of. cbn [txn_id_created txn_id_deleted row_version rh_flags].
  rewrite !le_bytes_get by (done || lia).
  change (Z.to_nat 0) with 0%nat. change (Z.to_nat 8) with 8%nat. change (Z.to_nat 16) with 16%nat.
  change (Z.to_nat 4) with 4%nat. change (Z.to_nat 20) with 20%nat. rewrite drop_0, <-!app_assoc.
  rewrite <-(take_drop 8 bs) at 6. f_equal. rewrite <-(take_drop 8 (drop 8 bs)) at 2. f_equal.
  rewrite drop_drop. change (8 + 8)%nat with 16%nat. rewrite <-(take_drop 4 (drop 16 bs)) at 2. f_equal.
  rewrite drop_drop. change (16 + 4)%nat with 20%nat. rewrite <-(take_drop 4 (drop 20 bs)) at 2. f_equal.
  by rewrite drop_drop.
Qed.

Lemma live_image p j : heap_wf p -> live p j -> slice (s_offset (slot_at p j)) (s_length (slot_at p j)) p = Some (image_at p j).
Proof.
  intros Hw Hj. destruct (live_slice p Hw j Hj) as [bs Hbs]. rewrite Hbs. f_equal. unfold image_at, tuple_at.
  pose proof (lo_len _ _ (hw_live _ Hw j Hj)) as Hlen. pose proof (slice_inv _ _ _ _ Hbs) as (_ & _ & _ & Hl).
  rewrite (tuple_of_slice _ _ bs) by (done || apply Hj). rewrite header_image; [done|eapply slice_bytes_ok; [apply Hw|exact Hbs]|lia].
Qed.

(** The new row fits into the room of slot [j]. *)
Definition fits (p : Page) (j : Z) (d : bytes) : bool :=
  match slot_capacity p j with
  | Some (Ok cap) => negb (cap <? 8 * ((24 + zlen d + 7) / 8))
  | _ => false
  end.

Definition rewritten (t : Z) (d : bytes) (T : Tuple) : Tuple :=
  (fun u => (mkRow t 0 (saturating_add32 (row_version u.1) 1) (rh_flags u.1), d)) <$> T.

(** Live tuples keep their places. *)
Record kept_offsets (p p' : Page) : Prop := {
  ko_n : num_slots p' = num_slots p;
  ko_dead : forall j, 0 <= j < num_slots p -> is_dead (slot_at p' j) = is_dead (slot_at p j);
  ko_off : forall j, 0 <= j < num_slots p -> s_offset (slot_at p' j) = s_offset (slot_at p j)
}.

Lemma offsets_trans p1 p2 p3 : kept_offsets p1 p2 -> kept_offsets p2 p3 -> kept_offsets p1 p3.
Proof.
  intros [N1 D1 O1] [N2 D2 O2]. split; [congruence| |]; intros j Hj.
  - rewrite D2, D1 by lia. done.
  - rewrite O2, O1 by lia. done.
Qed.

Lemma kept_capacity p p' j :
  heap_wf p -> heap_wf p' -> kept_offsets p p' -> live p j -> slot_capacity p' j = slot_capacity p j.
Proof.
  intros Hw Hw' [Hn Hd Ho] [Hj Hdj]. unfold slot_capacity. rewrite Hn, (proj2 (Z.leb_gt _ _)) by lia.
  rewrite !read_slot_wf by (done || lia). rewrite Hd, Hdj, Ho by done.
  assert (Hloop : forall others e0, Forall (fun k => 0 <= k < num_slots p) others ->
    capacity_loop p' j (s_offset (slot_at p j)) others e0 = capacity_loop p j (s_offset (slot_at p j)) others e0).
  { induction others as [|k others IH]; intros e0 Hf; cbn [capacity_loop]; [done|]. apply Forall_cons in Hf as [Hk Hf].
    destruct (k =? j); [by apply IH|]. rewrite !read_slot_wf, Hd, Ho by (done || lia).
    destruct (is_dead (slot_at p k)); by apply IH. }
  rewrite Hloop; [done|]. apply Forall_seqZ. lia.
Qed.

Lemma quiet_kept p p' : heap_wf p -> quiet p p' -> kept_offsets p p'.
Proof.
  intros Hw Hq. destruct (quiet_same p p' Hw Hq) as (_ & Hn & _ & _ & Hall).
  split; [done| |]; intros j Hj; by rewrite (proj1 (Hall j Hj)).
Qed.

Section Rewrite.
Context {St : Type} {C : Crc32c} {CR : Crc32cRange C} {E : StorageEngine St} {L : StorageLaws St}.
Context (t : Z).
Hypothesis Ht : in_u64 t.

Lemma try_rewrite_spec p j d :
  heap_page p -> live p j -> bytes_ok d -> zlen d < 2 ^ 62 ->
  exists p', kept_offsets p p' /\ page_mapped (fun k T => if decide (k = j) then if fits p j d then rewritten t d T else T else T) p p' /\
    try_rewrite_tuple_same_slot_no_checksum p j d t = Some (Ok (if fits p j d then Some (image_at p j) else None), p') /\
    (fits p j d = false -> quiet p p').
Proof.
  intros Hh Hj Hd Hlen. pose proof (proj1 Hh) as Hw. destruct (slot_capacity_spec p j Hw Hj) as (cap & Hcap & _ & _).
  unfold fits. rewrite Hcap. destruct (Z.ltb_spec cap (8 * ((24 + zlen d + 7) / 8))) as [Hsmall|Hfit]; cbn [negb].
  - destruct (clear_same p Hw) as (Hw0 & Hn & _ & _ & Hq & Hall). destruct (Hall j (proj1 Hj)) as [Hs _].
    exists (clear_all_visible p). split_and!; [by apply quiet_kept| | |done].
    + eapply page_mapped_ext; [|by apply quiet_mapped]. intros k Hk. cbn. by case_decide.
    + unfold try_rewrite_tuple_same_slot_no_checksum. rewrite Hn, (proj2 (Z.leb_gt _ _)) by apply Hj.
      rewrite read_slot_wf, Hs, (proj2 Hj) by (done || rewrite Hn; apply Hj). unfold ROW_HEADER_SIZE.
      rewrite (slot_capacity_quiet p), Hcap, align8_spec by (done || lia || apply Hj).
      by rewrite (proj2 (Z.ltb_lt _ _)) by lia.
  - destruct (rewrite_fits p j d t cap) as (old & p' & h & d0 & Hr & Hold & Hu & Hup & Hslot & _); [done..|].
    rewrite (live_image p j Hw Hj) in Hold. injection Hold as <-. exists p'. split_and!; [| |done|done].
    + split; [apply Hup| |]; intros k Hk; (destruct (decide (k = j)) as [->|Hne]; [|by rewrite (up_slots _ _ _ _ Hup)]).
      * rewrite Hslot, (proj2 Hj). unfold is_dead. cbn. rewrite (proj2 (Z.eqb_neq (24 + zlen d) 0)) by lia. apply andb_false_r.
      * by rewrite Hslot.
    + eapply page_mapped_ext; [|exact (updated_mapped p p' j _ Hh (proj1 Hj) Hup)]. intros k Hk. cbn. case_decide as Heq; [|done].
      by rewrite Heq, Hu.
Qed.

Definition upd_value (fitf : Z * Z -> bytes -> bool) (imgf : Z * Z -> bytes) (a : (Z * Z) * bytes) : option bytes :=
  if fitf a.1 a.2 then Some (imgf a.1) else None.
Definition rewrite_row (fitf : Z * Z -> bytes -> bool) (l : list ((Z * Z) * bytes)) (r : Z * Z) (T : Tuple) : Tuple :=
  match (list_to_map l : gmap (Z * Z) bytes) !! r with
  | Some d => if fitf r d then rewritten t d T else T
  | None => T
  end.
Definition reshape (u : nat * (Z * Z) * bytes) : nat * ((Z * Z) * bytes) := (u.1.1, (u.1.2, u.2)).
Definition row_len_ok (d : bytes) : Prop := bytes_ok d /\ zlen d < 2 ^ 62.

Lemma rewrite_slots_spec i p0 pre rest (x : Io St) : forall p dirty result,
  heap_page p0 -> heap_page p -> kept_offsets p0 p -> Forall (fun u => u.1.2.1 = i) pre ->
  NoDup ((fun u => u.1.2) <$> pre) ->
  Forall (fun u => live p0 u.1.2.2 /\ tuple_at p u.1.2.2 = tuple_at p0 u.1.2.2 /\ row_len_ok u.2 /\ (u.1.1 < length result)%nat) pre ->
  Forall (fun u => i < u.1.2.1) rest ->
  exists p' dirty', rewrite_slots i t (pre ++ rest) p dirty result x =
      Some (Ok (rest, p', dirty', fill (upd_value (fun r => fits p0 r.2) (fun r => image_at p0 r.2)) (reshape <$> pre) result), x) /\
    page_mapped (fun j => rewrite_row (fun r => fits p0 r.2) ((fun u => (u.1.2, u.2)) <$> pre) (i, j)) p p' /\
    (dirty' = false -> dirty = false /\ quiet p p').
Proof.
  induction pre as [|[[k [i' j]] d] pre IH]; intros p dirty result Hh0 Hh Hk Hpre Hnd Hall Hrest.
  - exists p, dirty. split_and!; [|by apply page_mapped_refl|intros ->; split; [done|apply quiet_refl]].
    destruct rest as [|[[k [i' j]] d] rest]; [done|]. apply Forall_cons in Hrest as [Hi _]. cbn in Hi. cbn [app rewrite_slots].
    by rewrite (proj2 (Z.eqb_neq i' i)) by lia.
  - apply Forall_cons in Hpre as [Hi Hpre], Hall as [(Hj & Htup & [Hd Hlen] & Hkr) Hall]. cbn in Hi, Hj, Htup, Hd, Hlen, Hkr. subst i'.
    rewrite fmap_cons in Hnd. apply NoDup_cons in Hnd as [Hni Hnd]. cbn in Hni.
    assert (Hjp : live p j) by (split; [rewrite (ko_n _ _ Hk); apply Hj|rewrite (ko_dead _ _ Hk); apply Hj]).
    assert (Hfit : fits p j d = fits p0 j d).
    { unfold fits. by rewrite (kept_capacity p0 p j (proj1 Hh0) (proj1 Hh) Hk Hj). }
    destruct (try_rewrite_spec p j d Hh Hjp Hd Hlen) as (p1 & Hk1 & Hm1 & Htry & Hq1). rewrite Hfit in Hm1, Htry, Hq1.
    assert (Himg : image_at p j = image_at p0 j) by (unfold image_at; by rewrite Htup). rewrite Himg in Htry.
    set (result1 := if fits p0 j d then <[k := Some (image_at p0 j)]> result else result).
    destruct (IH p1 (fits p0 j d || dirty)%bool result1) as (p' & dirty' & Hr & Hm & Hd'); [done|apply Hm1|by eapply offsets_trans|done|done| |done|].
    { apply Forall_forall. intros [[k' [i' j']] d'] Hin. rewrite Forall_forall in Hall. destruct (Hall _ Hin) as (Hl' & Ht' & Hb' & Hk'). cbn in *. split_and!; [done| |done|].
      - rewrite (pm_rows _ _ _ Hm1) by (rewrite (ko_n _ _ Hk); apply Hl'). rewrite decide_False; [done|]. intros ->.
        apply Hni, list_elem_of_fmap. eexists. split; [|exact Hin]. cbn. rewrite Forall_forall in Hpre. by rewrite <-(Hpre _ Hin).
      - unfold result1. destruct (fits p0 j d); [by rewrite length_insert|done]. }
    exists p', dirty'. split_and!.
    + cbn [app rewrite_slots]. rewrite Z.eqb_refl. cbn [negb]. unfold io_bind. rewrite Htry. cbn [page_op]. unfold io_ret at 1. cbn [fst snd].
      rewrite fmap_cons. change (reshape (k, (i, j), d)) with (k, ((i, j), d)). rewrite fill_cons.
      change (upd_value _ _ (i, j, d)) with (if fits p0 j d then Some (image_at p0 j) else None).
      unfold result1 in Hr. destruct (fits p0 j d); [rewrite set_result_ok by done|]; exact Hr.
    + eapply page_mapped_ext; [|exact (page_mapped_trans _ _ _ _ _ Hm1 Hm)]. intros k' Hk'. cbn. unfold rewrite_row. cbn.
      destruct (decide (k' = j)) as [->|Hne].
      * rewrite lookup_insert_eq. rewrite (proj1 (not_elem_of_list_to_map _ _)); [done|].
        rewrite <-list_fmap_compose. exact Hni.
      * by rewrite lookup_insert_ne by congruence.
    + intros Hf. destruct (Hd' Hf) as [Hor Hq']. apply orb_false_iff in Hor as [Hf1 Hf2]. split; [done|].
      eapply quiet_trans; [by apply Hq1|done].
Qed.

Definition fits_in (v : Z -> option Page) (r : Z * Z) (d : bytes) : bool :=
  match v r.1 with Some p => fits p r.2 d | None => false end.
Definition image_in (v : Z -> option Page) (r : Z * Z) : bytes :=
  match v r.1 with Some p => image_at p r.2 | None => [] end.
Definition upd_key (u : nat * (Z * Z) * bytes) : Z * Z := u.1.2.
Definition upd_pair (u : nat * (Z * Z) * bytes) : (Z * Z) * bytes := (u.1.2, u.2).

Lemma rewrite_row_app f l1 l2 r T :
  (~ r ∈ l2.*1 -> rewrite_row f (l1 ++ l2) r T = rewrite_row f l1 r T) /\
  (~ r ∈ l1.*1 -> rewrite_row f (l1 ++ l2) r T = rewrite_row f l2 r T).
Proof.
  unfold rewrite_row. rewrite list_to_map_app, lookup_union. split; intros Hn; apply not_elem_of_list_to_map in Hn; rewrite Hn.
  - by rewrite right_id_L by apply _.
  - by rewrite left_id_L by apply _.
Qed.

Lemma upd_pair_keys l : (upd_pair <$> l).*1 = upd_key <$> l.
Proof. by rewrite <-list_fmap_compose. Qed.

Lemma rewrite_row_ext f g l r T :
  (forall d, f r d = g r d) -> rewrite_row f l r T = rewrite_row g l r T.
Proof. intros Hfg. unfold rewrite_row. destruct (list_to_map l !! r) as [d|]; [|done]. by rewrite Hfg. Qed.

Lemma rewrite_pages_spec : forall fuel l result (x : Io St),
  io_wf x -> StronglySorted (by_rid upd_key) l -> NoDup (upd_key <$> l) ->
  Forall (fun u => row_live (vw x) u.1.2 /\ row_len_ok u.2 /\ (u.1.1 < length result)%nat) l -> (length l < fuel)%nat ->
  exists x', rewrite_pages fuel t l result x =
      Some (Ok (fill (upd_value (fits_in (vw x)) (image_in (vw x))) (reshape <$> l) result), x') /\ io_wf x' /\ room_kept x x' /\
    mapped (rewrite_row (fits_in (vw x)) (upd_pair <$> l)) (upd_key <$> l).*1 (vw x) (vw x').
Proof.
  induction fuel as [|fuel IH]; intros l result x Hwf Hs Hnd Hall Hf; [lia|]. destruct l as [|[[k [i j]] d] l0].
  { exists x. split_and!; [done|done|apply room_kept_refl|apply mapped_nil]. }
  cbn [rewrite_pages]. destruct (sorted_head upd_key (k, (i, j), d) l0 Hs) as (pre & rest & Heq & Hpre & Hrest & Hsr & Hlen).
  change (upd_key (k, (i, j), d)) with (i, j) in Hpre, Hrest. cbn [fst] in Hpre, Hrest.
  pose proof (Forall_cons_1 _ _ _ Hall) as [((p & Hp & Hh & _) & _) _]. cbn in Hp.
  rewrite Heq in Hall, Hnd |- *. apply Forall_app in Hall as [Hap Har]. rewrite fmap_app in Hnd.
  apply NoDup_app in Hnd as (Hnd1 & Hdis & Hnd2).
  unfold io_bind. rewrite (io_read_ok x i p Hwf Hp).
  destruct (rewrite_slots_spec i p pre rest x p false result Hh Hh) as (p1 & dirty & Hr & Hm & Hq); [by split|exact Hpre|exact Hnd1| |exact Hrest|].
  { rewrite Forall_forall in *. intros u Hu. destruct (Hap u Hu) as ((q & Hq & _ & Hl) & Hd & Hk). split_and!; [|done|done|done].
    pose proof (Hpre u Hu) as Hpu. unfold upd_key in Hpu. rewrite Hpu in Hq. by simplify_eq. }
  rewrite Hr. cbn [fst snd].
  assert (exists x1 p2, (if dirty then io_write i (update_checksum p1) else io_ret tt) x = Some (Ok tt, x1) /\ io_wf x1 /\ room_kept x x1 /\
    page_mapped (fun j => rewrite_row (fun r => fits p r.2) (upd_pair <$> pre) (i, j)) p p2 /\
    forall j, vw x1 j = if decide (j = i) then Some p2 else vw x j) as (x1 & p2 & Hw & Hwf1 & Hrk1 & Hm2 & Hv1).
  { destruct dirty.
    - destruct (write_mapped _ i p p1 x Hwf Hp Hm) as (x1 & Hw & Hwf1 & Hrk1 & Hm1 & Hv1). by exists x1, (update_checksum p1).
    - destruct (Hq eq_refl) as [_ Hq']. exists x, p. split_and!; [done|done|apply room_kept_refl| |intros j'; by case_decide; subst].
      apply page_mapped_refl; [done|]. intros j' Hj'. rewrite <-(pm_rows _ _ _ Hm) by done. by apply (quiet_same p p1 (proj1 Hh) Hq'). }
  rewrite Hw. assert (Hother : forall u, u ∈ rest -> vw x1 (upd_key u).1 = vw x (upd_key u).1).
  { intros u Hu. rewrite Hv1, decide_False; [done|]. rewrite Forall_forall in Hrest. specialize (Hrest u Hu). lia. }
  destruct (IH rest (fill (upd_value (fun r => fits p r.2) (fun r => image_at p r.2)) (reshape <$> pre) result) x1 Hwf1 Hsr Hnd2)
    as (x' & Hr' & Hwf' & Hrk & Hm'); [|lia|].
  { rewrite Forall_forall in *. intros u Hu. destruct (Har u Hu) as ((q & Hq' & Hq2) & Hd & Hk). split_and!; [|done|by rewrite length_fill].
    exists q. rewrite <-Hq'. split; [exact (Hother u Hu)|done]. }
  rewrite Hr'. exists x'. split_and!; [|done|by eapply room_kept_trans|].
  - rewrite fmap_app, fill_app. do 3 f_equal.
    rewrite (fill_ext (upd_value (fits_in (vw x1)) _) (upd_value (fits_in (vw x)) (image_in (vw x)))).
    + f_equal. apply fill_ext. intros ka (u & -> & Hu)%list_elem_of_fmap. rewrite Forall_forall in Hpre. specialize (Hpre u Hu).
      unfold upd_value, fits_in, image_in, reshape, upd_key in *. cbn [fst snd]. by rewrite Hpre, Hp.
    + intros ka (u & -> & Hu)%list_elem_of_fmap. pose proof (Hother u Hu) as Ho. unfold upd_value, fits_in, image_in, reshape, upd_key in *.
      cbn [fst snd]. by rewrite Ho.
  - eapply (mapped_group upd_key _ i pre rest p p2); [exact Hp| |exact Hv1|exact Hpre|destruct pre; [cbn in Heq; subst; cbn in Hlen; lia|done]|exact Hrest|].
    + eapply page_mapped_ext; [|exact Hm2]. intros j' Hj'. cbn. rewrite fmap_app, (proj1 (rewrite_row_app _ _ _ _ _)).
      * apply rewrite_row_ext. intros d'. unfold fits_in. cbn. by rewrite Hp.
      * rewrite upd_pair_keys. intros (u & Hu1 & Hu)%list_elem_of_fmap. rewrite Forall_forall in Hrest. specialize (Hrest u Hu).
        rewrite <-Hu1 in Hrest. cbn in Hrest. lia.
    + eapply mapped_ext; [|done|exact Hm']. intros k' j' T (r & -> & (u & -> & Hu)%list_elem_of_fmap)%list_elem_of_fmap.
      rewrite fmap_app, (proj2 (rewrite_row_app _ _ _ _ _)).
      * apply rewrite_row_ext. intros d'. unfold fits_in. cbn. by rewrite (Hother u Hu).
      * rewrite upd_pair_keys. intros (u' & Hu1 & Hu')%list_elem_of_fmap. rewrite Forall_forall in Hpre, Hrest.
        specialize (Hpre u' Hu'). specialize (Hrest u Hu). rewrite <-Hu1 in Hpre. cbn in Hpre. lia.
Qed.

Lemma rewrite_batch_spec updates (x : Io St) :
  io_wf x -> NoDup updates.*1 -> Forall (fun u => row_live (vw x) u.1 /\ row_len_ok u.2) updates ->
  exists x', rewrite_batch_same_slot updates t x =
      Some (Ok (upd_value (fits_in (vw x)) (image_in (vw x)) <$> updates), x') /\ io_wf x' /\ room_kept x x' /\
    mapped (rewrite_row (fits_in (vw x)) updates) updates.*1.*1 (vw x) (vw x').
Proof.
  intros Hwf Hnd Hall. unfold rewrite_batch_same_slot. destruct updates as [|u0 us].
  { exists x. split_and!; [done|done|apply room_kept_refl|apply mapped_nil]. }
  set (updates := u0 :: us) in *. set (indexed := imap (fun i u => (i, u.1, u.2)) updates).
  pose proof (merge_sort_Permutation (by_rid upd_key) indexed) as Hp.
  pose proof (StronglySorted_merge_sort (by_rid upd_key) indexed) as Hs.
  set (s := merge_sort (by_rid upd_key) indexed) in *.
  assert (Hre : reshape <$> s ≡ₚ imap (fun i u => (i, u)) updates).
  { rewrite Hp. unfold indexed. rewrite fmap_imap.
    rewrite (imap_ext _ (fun i u => (i, u))); [done|by intros i [r d]]. }
  assert (Hpair : upd_pair <$> s ≡ₚ updates).
  { rewrite Hp. unfold indexed. rewrite fmap_imap.
    rewrite (imap_ext _ (fun _ u => u)) by (by intros i [r d]). change (imap (const id) updates ≡ₚ updates). by rewrite imap_const, list_fmap_id. }
  assert (Hkeys : upd_key <$> s ≡ₚ updates.*1) by (by rewrite <-upd_pair_keys, Hpair).
  destruct (rewrite_pages_spec (S (length updates)) s (replicate (length updates) None) x Hwf Hs) as (x' & Hr & Hwf' & Hrk & Hm).
  - by rewrite Hkeys.
  - rewrite Hp. apply Forall_forall. intros u (i & [r d] & -> & Hi)%elem_of_lookup_imap. cbn.
    pose proof (Forall_lookup_1 _ _ _ _ Hall Hi) as [? ?]. split_and!; [done|done|]. rewrite length_replicate. exact (lookup_lt_Some _ _ _ Hi).
  - rewrite Hp. unfold indexed. rewrite length_imap. lia.
  - exists x'. change (merge_sort (by_rid (fun u => u.1.2)) indexed) with s. rewrite Hr, (fill_imap _ updates) by done. split_and!; [done|done|done|].
    eapply mapped_ext; [| |exact Hm].
    + intros i j T _. unfold rewrite_row. by rewrite (list_to_map_proper _ _ (ltac:(by rewrite upd_pair_keys, Hkeys)) Hpair).
    + intros i. by rewrite Hkeys.
Qed.
End Rewrite.

(** ** Properties *)

Lemma map_rows_id f rs : (forall r, r ∈ rs -> f r.1 r.2 = r.2) -> map_rows f rs = rs.
Proof.
  intros Hf. unfold map_rows. rewrite <-(list_fmap_id rs) at 2. apply list_fmap_ext.
  intros k [r T] Hr%list_elem_of_lookup_2. cbn. f_equal. by apply (Hf (r, T)).
Qed.

Lemma map_rows_compose f g rs : map_rows g (map_rows f rs) = map_rows (fun r T => g r (f r T)) rs.
Proof. unfold map_rows. by rewrite <-list_fmap_compose. Qed.

(** The row of a chain at a location. *)
Lemma chain_row_live v ps next r u :
  linked v ps next -> (r, Some u) ∈ chain_rows ps -> row_live v r.
Proof.
  intros Hl ([i p] & Hr & Hin)%list_elem_of_bind. destruct (linked_in _ _ _ _ _ Hl Hin) as (_ & Hp & Hh). cbn in Hr.
  apply list_elem_of_fmap in Hr as (j & Heq & Hj%elem_of_seqZ). injection Heq as -> Hu. exists p.
  split_and!; [done|done|]. cbn. apply live_tuple; [apply Hh|lia|by rewrite <-Hu].
Qed.

Section Properties.
Context {St : Type} {C : Crc32c} {CR : Crc32cRange C} {E : StorageEngine St} {L : StorageLaws St}.

(** C17: deleting a batch of live rows of a chain, in any order and across pages, succeeds,
    returns each location with the data of its row, sorted by location, and stamps exactly
    these rows; and when they were not deleted before and the transaction had deleted
    nothing else in the chain, clearing its deletions restores every row. *)
Theorem heap_chain_delete_correct fuel root ps rids t (x : Io St) :
  io_wf x -> heap_chain (vw x) root ps -> in_u64 t -> (length ps < fuel)%nat ->
  (forall r, r ∈ rids -> exists u, (r, Some u) ∈ chain_rows ps) ->
  exists sorted x' ps', sorted ≡ₚ rids /\ StronglySorted rid_le sorted /\
    delete_batch rids t x = Some (Ok ((fun r => (r, data_of (vw x) r)) <$> sorted), x') /\ io_wf x' /\
    heap_chain (vw x') root ps' /\ chain_rows ps' = map_rows (stamp t rids) (chain_rows ps) /\
    (forall i, ~ i ∈ rids.*1 -> vw x' i = vw x i) /\
    ((forall r u, (r, Some u) ∈ chain_rows ps -> txn_id_deleted u.1 ≠ t /\ (r ∈ rids -> txn_id_deleted u.1 = 0)) ->
     exists x'' ps'', clear_deletions_by_txn fuel root t x' = Some (Ok tt, x'') /\
       heap_chain (vw x'') root ps'' /\ chain_rows ps'' = chain_rows ps).
Proof.
  intros Hwf Hc Ht Hf Hrids.
  destruct (delete_batch_spec t Ht rids x Hwf) as (sorted & x' & Hp & Hs & Hd & Hwf' & _ & Hm).
  { apply Forall_forall. intros r Hr. destruct (Hrids r Hr) as [u Hu]. eapply chain_row_live; [apply Hc|exact Hu]. }
  destruct (heap_chain_mapped _ _ _ _ _ _ Hc Hm) as (ps' & Hc' & Hids & Hrows & _).
  { intros i j T Hi _. unfold stamp. rewrite decide_False; [done|]. intros Hin. apply Hi, list_elem_of_fmap. by exists (i, j). }
  exists sorted, x', ps'. split_and!; [done|done|done|done|done|done|apply Hm|]. intros Hfresh.
  destruct (clear_deletions_spec t ps' x' fuel Hwf' (hc_linked _ _ _ Hc') (hc_nodup _ _ _ Hc')) as (x'' & Hcl & Hwf'' & Hm').
  { by rewrite <-(length_fmap fst), Hids, length_fmap. }
  destruct (heap_chain_mapped _ _ _ _ _ _ Hc' Hm') as (ps'' & Hc'' & _ & Hrows' & _).
  { intros i j T Hi ([k q] & Hr & Hin)%list_elem_of_bind. exfalso. apply list_elem_of_fmap in Hr as (j' & Heq & _). cbn in Heq. simplify_eq.
    apply Hi, list_elem_of_fmap. by exists (k, q). }
  exists x'', ps''. rewrite <-(hc_root _ _ _ Hc'). split_and!; [done|by rewrite (hc_root _ _ _ Hc')|].
  rewrite Hrows', Hrows, map_rows_compose. apply map_rows_id. intros [r [[h d]|]] Hr; cbn [fst snd]; unfold stamp; [|by case_decide].
  destruct (Hfresh r (h, d) Hr) as [Hne Hz]. cbn in Hne, Hz. case_decide as Hin; cbn.
  - rewrite Z.eqb_refl. unfold set_deleted. cbn. specialize (Hz Hin). destruct h as [cr de ve fl]. cbn in *. by subst de.
  - by rewrite (proj2 (Z.eqb_neq _ _)).
Qed.

(** Rewriting a batch of live rows with distinct locations reports, in the order of the
    input, the old tuple of each row whose new image fits into the room of its slot and
    nothing for the others, and changes exactly the rows it reports, with the version
    counted up; links and pages of other rows are untouched. *)
Theorem heap_chain_rewrite_correct root ps updates t (x : Io St) :
  io_wf x -> heap_chain (vw x) root ps -> in_u64 t -> NoDup updates.*1 ->
  (forall r d, (r, d) ∈ updates -> row_len_ok d /\ exists u, (r, Some u) ∈ chain_rows ps) ->
  exists x' ps', rewrite_batch_same_slot updates t x =
      Some (Ok (upd_value (fits_in (vw x)) (image_in (vw x)) <$> updates), x') /\ io_wf x' /\
    heap_chain (vw x') root ps' /\ chain_rows ps' = map_rows (rewrite_row t (fits_in (vw x)) updates) (chain_rows ps) /\
    (forall i, ~ i ∈ updates.*1.*1 -> vw x' i = vw x i) /\ Forall2 (fun a b => reserved b.2 = reserved a.2) ps ps'.
Proof.
  intros Hwf Hc Ht Hnd Hups. destruct (rewrite_batch_spec t Ht updates x Hwf Hnd) as (x' & Hr & Hwf' & _ & Hm).
  { apply Forall_forall. intros [r d] Hin. destruct (Hups r d Hin) as [Hd [u Hu]]. split; [|done].
    eapply chain_row_live; [apply Hc|exact Hu]. }
  destruct (heap_chain_mapped _ _ _ _ _ _ Hc Hm) as (ps' & Hc' & _ & Hrows & Hres).
  { intros i j T Hi _. unfold rewrite_row. rewrite (proj1 (not_elem_of_list_to_map _ _)); [done|]. intros Hin. apply Hi, list_elem_of_fmap.
    by exists (i, j). }
  exists x', ps'. split_and!; [done|done|done|done|apply Hm|done].
Qed.

(** Reading a batch is reading row by row. *)
Theorem read_rows_batch_correct rids (x : Io St) :
  io_wf x -> Forall (slot_there (vw x)) rids ->
  read_rows_batch rids x = Some (Ok (row_data (vw x) <$> rids), x) /\
  forall r, r ∈ rids -> read_row r.1 r.2 x = Some (Ok (row_data (vw x) r), x).
Proof.
  intros Hwf Hall. split; [by apply read_rows_batch_spec|]. intros [i j] Hr. rewrite Forall_forall in Hall.
  destruct (Hall _ Hr) as (p & Hp & Hh & Hj). cbn in Hp, Hj. unfold read_row, row_data, io_bind. cbn [fst snd].
  rewrite (load_checked_ok x i p Hwf Hp Hh), Hp, read_tuple_wf by (apply Hh || lia).
  by rewrite (proj2 (Z.leb_gt _ _)) by lia.
Qed.
End Properties.

#[local] Existing Instance crc32c_ref.
#[local] Existing Instance crc32c_ref_range.
#[local] Existing Instance engine_room.

Lemma heap_chain_delete_correct_witness :
  exists (x x' x'' : Io MemoryStorage) root ps' ps'' rid d, delete_batch [rid] 9 x = Some (Ok [(rid, d)], x') /\
    heap_chain (vw x') root ps' /\ chain_rows ps' = [(rid, Some (mkRow 5 9 0 0, [1; 2; 3]))] /\
    clear_deletions_by_txn 3 root 9 x' = Some (Ok tt, x'') /\ chain_rows ps'' = [(rid, new_tuple 5 [1; 2; 3])].
Proof.
  destruct (sample_chain_row 5 ltac:(widths)) as (x & root & ps & rid & Hwf & Hpr & Hc & Hrows & Hlen).
  destruct (heap_chain_delete_correct 3 root ps [rid] 9 x Hwf Hc ltac:(widths) ltac:(lia)) as
    (sorted & x' & ps' & Hp & _ & Hd & _ & Hc' & Hrows' & _ & Hback).
  { intros r ->%list_elem_of_singleton. eexists. rewrite Hrows. left. }
  apply Permutation_singleton_r in Hp as ->. destruct Hback as (x'' & ps'' & Hcl & _ & Hrows'').
  { intros r u. rewrite Hrows. intros [= -> ->]%list_elem_of_singleton. done. }
  exists x, x', x'', root, ps', ps'', rid, (data_of (vw x) rid). split; [exact Hd|]. split; [exact Hc'|].
  rewrite Hrows', Hrows'', Hrows. split; [|split; [exact Hcl|done]]. cbn. unfold stamp. by rewrite decide_True by left.
Defined.

Lemma heap_chain_rewrite_correct_witness :
  exists (x x' : Io MemoryStorage) root ps ps' rid res, rewrite_batch_same_slot [(rid, [9])] 9 x = Some (Ok [res], x') /\
    heap_chain (vw x') root ps' /\ chain_rows ps' = map_rows (rewrite_row 9 (fits_in (vw x)) [(rid, [9])]) (chain_rows ps).
Proof.
  destruct (sample_chain_row 5 ltac:(widths)) as (x & root & ps & rid & Hwf & Hpr & Hc & Hrows & Hlen).
  destruct (heap_chain_rewrite_correct root ps [(rid, [9])] 9 x Hwf Hc ltac:(widths)) as (x' & ps' & Hr & _ & Hc' & Hrows' & _).
  { apply NoDup_singleton. }
  { intros r d [= -> ->]%list_elem_of_singleton. split; [split; [repeat constructor; unfold byte_ok; lia|cbn; lia]|].
    eexists. rewrite Hrows. left. }
  exists x, x', root, ps, ps', rid, (upd_value (fits_in (vw x)) (image_in (vw x)) (rid, [9])). split; [exact Hr|]. split; [exact Hc'|exact Hrows'].
Defined.
