(* ===== verification/HeapRaces.v ===== *)
(** * What heap chains do not promise

    Executions of the operations of HeapChain, HeapBatch and HeapUpdate in which rows are
    lost or missed: two calls that interleave where the code holds no page latch, a batch
    that fails half-way, and changes of rows that leave the zone map of their page behind. *)

From stdpp Require Import sorting.
From S2P Require Import Prelude Page Heap SlotBitmap FreeList Storage PageIo ZoneMap HeapChain HeapBatch HeapUpdate.

(** ** Interleavings *)

Section Interleavings.
Context {St : Type} {C : Crc32c} {E : StorageEngine St}.

(** A scan of page [i] reads it and decides to set the flag; a row is inserted there under
    the latch of the page; then the scan writes its copy. *)
Definition scan_during_insert (i : Z) (snap : TransactionSnapshot) (data : bytes) (txn_id : Z)
    : M St (list (Z * bytes) * option Z) :=
  do! page := load_checked i in
  do! r := io_pure (scan_slow page snap (seqZ 0 (num_slots page)) true false) in
  do! slot := insert_try i data txn_id in
  do! _ := lazy_set i page r.1.1 r.1.2 in
  io_ret (r.2, slot).

(** Two insertions find the last page full before either has grown the chain. *)
Definition two_growing_inserts (l : Z) (d1 : bytes) (t1 : Z) (d2 : bytes) (t2 : Z) : M St ((Z * Z) * (Z * Z)) :=
  do! a := insert_try l d1 t1 in
  do! b := insert_try l d2 t2 in
  match a, b with
  | None, None =>
      do! r1 := insert_new_page d1 t1 in
      do! r2 := insert_new_page d2 t2 in
      do! _ := insert_link l r1.1 in
      do! _ := insert_link l r2.1 in
      io_ret (r1, r2)
  | _, _ => io_panic
  end.
End Interleavings.

Section Races.
Context {St : Type} {C : Crc32c} {CR : Crc32cRange C} {E : StorageEngine St} {L : StorageLaws St} {R : PageRoom St}.

Lemma read_row_there x i p j :
  io_wf x -> vw x i = Some p -> heap_page p -> 0 <= j < num_slots p ->
  read_row (St := St) i j x = Some (Ok (snd <$> tuple_at p j), x).
Proof.
  intros Hwf Hp Hh Hj. unfold read_row, io_bind. rewrite (load_checked_ok x i p Hwf Hp Hh), read_tuple_wf by (apply Hh || lia).
  by rewrite (proj2 (Z.leb_gt _ _)) by lia.
Qed.

Lemma insert_try_ok x i p data t :
  io_wf x -> vw x i = Some p -> heap_page p -> bytes_ok data -> zlen data < 2 ^ 62 -> in_u64 t ->
  if free_space p <? row_need data then insert_try i data t x = Some (Ok None, x)
  else exists x' p', insert_try i data t x = Some (Ok (Some (num_slots p)), x') /\ io_wf x' /\ appended p p' (new_tuple t data) /\
    forall j, vw x' j = if decide (j = i) then Some p' else vw x j.
Proof.
  intros Hwf Hp Hh Hd Hlen Ht. pose proof (insert_tuple_page p data t Hh Hd Ht Hlen) as Hs. unfold insert_try, io_bind.
  rewrite (load_checked_ok x i p Hwf Hp Hh). destruct (free_space p <? row_need data); [by rewrite Hs|].
  destruct Hs as (p' & -> & Hh' & Hap & Hap').
  destruct (io_write_ok x i (update_checksum p') Hwf) as (x' & -> & Hwf' & _ & _ & Hv); [by rewrite Hp|apply hw_page, Hap'| |].
  { by apply verify_updated, hw_page, Hap. }
  by exists x', (update_checksum p').
Qed.

Lemma scan_overwrites_insert i p snap data t rows (x : Io St) :
  io_wf x -> vw x i = Some p -> heap_page p -> bytes_ok data -> zlen data < 2 ^ 62 -> in_u64 t -> row_need data <= free_space p ->
  scan_slow p snap (seqZ 0 (num_slots p)) true false = Some (true, true, rows) -> 0 < num_slots p ->
  exists x', scan_during_insert i snap data t x = Some (Ok (rows, Some (num_slots p)), x') /\ io_wf x' /\
    exists p', quiet p p' /\ (forall j, vw x' j = if decide (j = i) then Some p' else vw x j) /\
    read_row i (num_slots p) x' = Some (Err (InvalidSlot (hdr_page_id p) (num_slots p) (num_slots p)), x').
Proof.
  intros Hwf Hp Hh Hd Hlen Ht Hfit Hscan Hn. pose proof (insert_try_ok x i p data t Hwf Hp Hh Hd Hlen Ht) as Hins.
  rewrite (proj2 (Z.ltb_ge _ _)) in Hins by lia. destruct Hins as (x1 & p1 & Hi & Hwf1 & Hap & Hv1).
  unfold scan_during_insert, io_bind, io_pure. rewrite (load_checked_ok x i p Hwf Hp Hh), Hscan, Hi. cbn [fst snd andb].
  unfold lazy_set. rewrite (proj2 (Z.ltb_lt _ _)) by exact Hn. cbn [andb].
  set (p' := update_checksum (set_all_visible p)). pose proof (hw_page _ (proj1 Hh)) as Hok.
  assert (Hok' : page_ok (set_all_visible p)) by (by apply all_visible_flag).
  assert (Hq : quiet p p') by (eapply quiet_trans; [by apply quiet_set|by apply quiet_checksum]).
  destruct (quiet_heap_page p p' Hh Hq) as (Hh' & _ & _). destruct (quiet_same p p' (proj1 Hh) Hq) as (_ & Hns & Hid & _).
  destruct (io_write_ok x1 i p' Hwf1) as (x2 & -> & Hwf2 & _ & _ & Hv2); [by rewrite Hv1, decide_True|apply hw_page, Hh'|by apply verify_updated|].
  exists x2. split_and!; [done|done|]. exists p'. split_and!; [done| |].
  - intros j. rewrite Hv2. case_decide as Hj; [done|]. by rewrite Hv1, decide_False.
  - assert (Hp' : vw x2 i = Some p') by (by rewrite Hv2, decide_True). unfold read_row, io_bind.
    rewrite (load_checked_ok x2 i p' Hwf2 Hp' Hh'), read_tuple_wf by (apply Hh' || lia).
    rewrite Hns, (proj2 (Z.leb_le _ _)) by lia. unfold invalid_slot. by rewrite Hid, Hns.
Qed.

Lemma growth_orphans_page root ps l p d1 t1 d2 t2 (x : Io St) :
  io_wf x -> heap_chain (vw x) root (ps ++ [(l, p)]) -> row_ok d1 -> row_ok d2 -> in_u64 t1 -> in_u64 t2 ->
  free_space p < row_need d1 -> free_space p < row_need d2 -> pr x 2 ->
  exists r1 r2 x' ps', two_growing_inserts l d1 t1 d2 t2 x = Some (Ok (r1, r2), x') /\ io_wf x' /\
    heap_chain (vw x') root ps' /\ chain_rows ps' = chain_rows (ps ++ [(l, p)]) ++ [(r2, new_tuple t2 d2)] /\
    ~ r1.1 ∈ ps'.*1 /\ read_row r1.1 r1.2 x' = Some (Ok (Some d1), x').
Proof.
  intros Hwf Hc Hr1 Hr2 Ht1 Ht2 Hf1 Hf2 Hpr.
  pose proof (hc_linked _ _ _ Hc) as Hl. apply linked_app in Hl as [_ (Hln & Hp & Hh & Hn & _)].
  assert (Hw : wp (two_growing_inserts l d1 t1 d2 t2) 2 x (fun rr x' => io_wf x' /\ exists ps',
    heap_chain (vw x') root ps' /\ chain_rows ps' = chain_rows (ps ++ [(l, p)]) ++ [(rr.2, new_tuple t2 d2)] /\
    ~ rr.1.1 ∈ ps'.*1 /\ read_row rr.1.1 rr.1.2 x' = Some (Ok (Some d1), x')) (fun _ _ => False)).
  { assert (Hfull : forall d t, row_ok d -> in_u64 t -> free_space p < row_need d -> insert_try l d t x = Some (Ok None, x)).
    { intros d t Hr Ht Hf. pose proof (insert_try_ok x l p d t Hwf Hp Hh (proj1 Hr) (row_ok_len _ Hr) Ht) as H.
      by rewrite (proj2 (Z.ltb_lt _ _)) in H by lia. }
    unfold two_growing_inserts. apply (wp_run _ None); [by apply Hfull|]. apply (wp_run _ None); [by apply Hfull|].
    apply wp_insert_new; [done|done|done|lia|]. intros i q1 x1 Hwf1 Hi Hi0 Hhq1 Hnq1 Hrq1 Hv1 Hpr1.
    apply wp_insert_new; [done|done|done|lia|]. intros k q2 x2 Hwf2 Hk Hk0 Hhq2 Hnq2 Hrq2 Hv2 Hpr2.
    assert (Hli : l ≠ i) by congruence. assert (Hk' : k ≠ i /\ k ≠ l).
    { rewrite Hv1 in Hk0. case_decide; [done|]. split; [done|]. intros ->. congruence. }
    apply (wp_insert_link _ p); [done|by rewrite Hv2, decide_False, Hv1, decide_False by naive_solver|done|done|].
    intros x3 p1 Hwf3 Hh1 Hn1 Hq1 _ Hv3 Hpr3.
    apply (wp_insert_link _ p1); [done|by rewrite Hv3, decide_True|done|done|]. intros x4 p2 Hwf4 Hh2 Hn2 Hq2 _ Hv4 Hpr4.
    apply wp_ret. cbn [fst snd]. split; [done|].
    assert (Hold : forall j, j ∈ (ps ++ [(l, p)]).*1 -> j ≠ i).
    { intros j Hj ->. destruct (mv_in _ _ _ _ (linked_moved _ _ _ (hc_linked _ _ _ Hc) (hc_nodup _ _ _ Hc)) _ Hj). congruence. }
    assert (Hc1 : heap_chain (vw x1) root (ps ++ [(l, p)])).
    { destruct Hc as [Hr Hne Hnd Hlk]. split; [done|done|done|]. eapply linked_ext; [|exact Hlk].
      intros j Hj. rewrite Hv1, decide_False; [done|]. by apply Hold. }
    destruct (extend_new (vw x1) (vw x4) root ps l p p2 k q2 Hc1 Hk Hk0) as [Hc4 _]; [|done|done|done|done|].
    { intros j. rewrite Hv4. case_decide; [done|]. rewrite Hv3, decide_False by done. apply Hv2. }
    exists (ps ++ [(l, p2); (k, q2)]). split_and!; [done| | |].
    - change [(l, p2); (k, q2)] with ([(l, p2)] ++ [(k, q2)]). rewrite !chain_rows_app, !chain_rows_one, Hrq2, app_assoc. do 2 f_equal.
      destruct (requiet_same p p2 (proj1 Hh)) as (_ & Hns & _ & _ & Hall); [by eapply requiet_trans|].
      apply page_rows_ext; [done|]. intros j Hj. by apply Hall.
    - intros Hin. rewrite fmap_app in Hin. apply (Hold i); [|done]. rewrite fmap_app. cbn in *. set_solver.
    - assert (Hvi : vw x4 i = Some q1) by (by rewrite Hv4, decide_False, Hv3, decide_False, Hv2, decide_False, Hv1, decide_True by naive_solver).
      assert (Hq : (i, 0, new_tuple t1 d1) ∈ page_rows i q1) by (rewrite Hrq1; left).
      apply list_elem_of_fmap in Hq as (j & Heq & Hj%elem_of_seqZ). injection Heq as <- Htup.
      rewrite (read_row_there x4 i q1 0 Hwf4 Hvi Hhq1) by lia. by rewrite <-Htup. }
  unfold wp in Hw. destruct (two_growing_inserts l d1 t1 d2 t2 x) as [[[[r1 r2]|e] x']|]; [|tauto|done].
  destruct Hw as (Hwf' & ps' & H). by exists r1, r2, x', ps'.
Qed.
End Races.

(** ** Properties *)

Section Properties.
Context {St : Type} {C : Crc32c} {CR : Crc32cRange C} {E : StorageEngine St} {L : StorageLaws St} {R : PageRoom St}.

(** C34: rows that are lost between page latches.  A scan that sets the all-visible flag
    writes back the copy it read, so a row inserted in between is gone: its location, which
    the insertion returned, is an invalid slot.  And of two insertions that both found the
    last page full, the one that links its page first is cut off: the chain ends with the
    row of the other, and the page that holds the first row is not part of it. *)
Theorem heap_chain_races root ps l p snap data rows d1 t1 d2 t2 (x : Io St) :
  io_wf x -> heap_chain (vw x) root (ps ++ [(l, p)]) -> in_u64 t1 -> in_u64 t2 ->
  (bytes_ok data /\ zlen data < 2 ^ 62 /\ row_need data <= free_space p /\ 0 < num_slots p /\
   scan_slow p snap (seqZ 0 (num_slots p)) true false = Some (true, true, rows) ->
   exists x' ps', scan_during_insert l snap data t1 x = Some (Ok (rows, Some (num_slots p)), x') /\
     heap_chain (vw x') root ps' /\ chain_rows ps' = chain_rows (ps ++ [(l, p)]) /\
     read_row l (num_slots p) x' = Some (Err (InvalidSlot (hdr_page_id p) (num_slots p) (num_slots p)), x')) /\
  (row_ok d1 /\ row_ok d2 /\ free_space p < row_need d1 /\ free_space p < row_need d2 /\ pr x 2 ->
   exists r1 r2 x' ps', two_growing_inserts l d1 t1 d2 t2 x = Some (Ok (r1, r2), x') /\
     heap_chain (vw x') root ps' /\ chain_rows ps' = chain_rows (ps ++ [(l, p)]) ++ [(r2, new_tuple t2 d2)] /\
     ~ r1.1 ∈ ps'.*1 /\ read_row r1.1 r1.2 x' = Some (Ok (Some d1), x')).
Proof.
  intros Hwf Hc Ht1 Ht2. split.
  - intros (Hd & Hlen & Hfit & Hn & Hscan). pose proof (hc_linked _ _ _ Hc) as Hl.
    destruct (linked_in _ _ _ l p Hl ltac:(set_solver)) as (_ & Hp & Hh).
    destruct (scan_overwrites_insert l p snap data t1 rows x Hwf Hp Hh Hd Hlen Ht1 Hfit Hscan Hn)
      as (x' & Hrun & Hwf' & p' & Hq & Hv & Hrd).
    destruct (quiet_heap_page p p' Hh Hq) as (Hh' & Hn' & _).
    apply linked_app in Hl as [_ (_ & _ & _ & Hnx & _)].
    destruct (extend_last (vw x) (vw x') root ps l p p' Hc Hv Hh') as [Hc' _]; [by rewrite Hn'|].
    exists x', (ps ++ [(l, p')]). split_and!; [done|done| |done].
    rewrite !chain_rows_app, !chain_rows_one. f_equal. by apply quiet_rows; [apply Hh|].
  - intros (Hr1 & Hr2 & Hf1 & Hf2 & Hpr).
    destruct (growth_orphans_page root ps l p d1 t1 d2 t2 x Hwf Hc Hr1 Hr2 Ht1 Ht2 Hf1 Hf2 Hpr) as (r1 & r2 & x' & ps' & H1 & _ & H).
    by exists r1, r2, x', ps'.
Qed.

(** A batch deletion that fails has already deleted rows: when a later page of the
    batch has a dead slot, the call returns an error and no locations to record in the
    undo log, while the row on the first page is stamped in the store. *)
Theorem delete_batch_not_atomic i j k m p q t (x : Io St) :
  io_wf x -> vw x i = Some p -> heap_page p -> live p j -> vw x k = Some q -> heap_page q -> i < k -> 0 <= m < num_slots q ->
  tuple_at q m = None -> in_u64 t ->
  exists x' p', delete_batch [(i, j); (k, m)] t x = Some (Err (AlreadyDeleted k m), x') /\ io_wf x' /\
    vw x' i = Some p' /\ tuple_at p' j = set_deleted t <$> tuple_at p j.
Proof.
  intros Hwf Hp Hh Hj Hq Hhq Hik Hm Hdead Ht.
  assert (Hsort : merge_sort (by_rid id) [(i, j); (k, m)] = [(i, j); (k, m)]).
  { cbn. rewrite decide_True; [done|]. left. cbn. lia. }
  unfold delete_batch. rewrite Hsort. cbn [delete_pages length]. unfold io_bind at 1. rewrite (load_checked_ok x i p Hwf Hp Hh).
  destruct (delete_slots_spec t Ht i [(i, j)] [(k, m)] x p Hh) as (p1 & Hd & Hm1);
    [by constructor; [|constructor]|by constructor; [|constructor]|by constructor; [|constructor]|].
  unfold io_bind at 1. cbn [app] in Hd. rewrite Hd. cbn [fst snd]. unfold io_bind at 1.
  destruct (write_mapped _ i p p1 x Hwf Hp Hm1) as (x1 & -> & Hwf1 & _ & Hm1' & Hv1).
  assert (Hq1 : vw x1 k = Some q) by (rewrite Hv1, decide_False; [done|lia]).
  unfold io_bind at 1. unfold io_bind at 1. rewrite (load_checked_ok x1 k q Hwf1 Hq1 Hhq). cbn [delete_slots]. rewrite Z.eqb_refl. cbn [negb].
  unfold io_bind. rewrite read_tuple_wf by (apply Hhq || lia). rewrite (proj2 (Z.leb_gt _ _)) by lia. cbn [page_get]. rewrite Hdead.
  exists x1, (update_checksum p1). split_and!; [done|done|by rewrite Hv1, decide_True|].
  rewrite (pm_rows _ _ _ Hm1') by apply Hj. unfold stamp. by rewrite decide_True by left.
Qed.

(** Row [r] of page [i] holds [d], whose value is [v]: the zone map of the page is wrong
    about it, and a filtered scan for [v] skips the page. *)
Definition hidden (i : Z) (value : bytes -> option Z) (zm : ZoneMap) (d : bytes) (v : Z) (x : Io St) (r : Z) : Prop :=
  exists p', vw x i = Some p' /\ ~ zone_covers (zm_col zm) value p' /\
    zone_map_skips p' (Some (zm_col zm, ZEq v)) = true /\ exists h, (i, r, Some (h, d)) ∈ page_rows i p'.

(** Single insertions and in-place updates do not touch the zone map of the page.  When
    it does not cover the new value, the map is wrong afterwards, and a filtered scan for
    that value skips the page that holds the row. *)
Theorem zone_map_goes_stale i p value zm d v j t (x : Io St) :
  io_wf x -> vw x i = Some p -> heap_page p -> read_zone_map p = Some zm -> row_len_ok d -> in_u64 t ->
  value d = Some v -> v < min_val zm \/ max_val zm < v ->
  (row_need d <= free_space p -> exists x', insert_try i d t x = Some (Ok (Some (num_slots p)), x') /\ hidden i value zm d v x' (num_slots p)) /\
  (live p j -> fits p j d = true -> exists x' img, rewrite_batch_same_slot [((i, j), d)] t x = Some (Ok [Some img], x') /\ hidden i value zm d v x' j).
Proof.
  intros Hwf Hp Hh Hzm Hd Ht Hv Hout.
  assert (Hstale : forall x' p' r h, vw x' i = Some p' -> heap_page p' -> reserved p' = reserved p -> 0 <= r < num_slots p' ->
    tuple_at p' r = Some (h, d) -> hidden i value zm d v x' r).
  { intros x' p' r h Hp' Hh' Hres Hr Htup. exists p'.
    pose proof (reserved_zone p p' (hw_page _ (proj1 Hh)) Hres) as Hz. rewrite Hzm in Hz. split_and!; [done| | |].
    - intros Hc. destruct (Hc zm Hz) as [_ Hall]. specialize (Hall r h d v Hr Htup Hv). lia.
    - unfold zone_map_skips. rewrite Hz, Z.eqb_refl. cbn. apply negb_true_iff, andb_false_iff. rewrite !Z.leb_gt. lia.
    - exists h. apply list_elem_of_fmap. exists r. rewrite Htup. split; [done|]. apply elem_of_seqZ. lia. }
  split.
  - intros Hfit. pose proof (insert_try_ok x i p d t Hwf Hp Hh (proj1 Hd) (proj2 Hd) Ht) as Hi.
    rewrite (proj2 (Z.ltb_ge _ _)) in Hi by lia. destruct Hi as (x' & p' & Hi & _ & Hap & Hv'). exists x'. split; [done|].
    destruct (appended_heap_page _ _ _ Hh Hap) as [Hh' _]. pose proof (num_slots_range p (proj1 Hh)).
    eapply (Hstale x' p'); [by rewrite Hv', decide_True|done|apply Hap|rewrite (ap_n _ _ _ Hap); lia|apply Hap].
  - intros Hj Hfit. destruct (rewrite_batch_spec t Ht [((i, j), d)] x Hwf) as (x' & Hr & _ & _ & Hm).
    { apply NoDup_singleton. } { repeat constructor; try apply Hd. by exists p. }
    cbn in Hr. unfold upd_value, fits_in in Hr. cbn in Hr. rewrite Hp, Hfit in Hr. exists x', (image_in (vw x) (i, j)). split; [done|].
    destruct (md_in _ _ _ _ Hm i ltac:(left)) as (q & q' & Hq & Hq' & Hpm). assert (q = p) as -> by congruence.
    destruct (live_Some p j (proj1 Hh) Hj) as [u Hu].
    eapply (Hstale x' q'); [done|apply Hpm|apply Hpm|rewrite (pm_n _ _ _ Hpm); apply Hj|].
    rewrite (pm_rows _ _ _ Hpm) by apply Hj. unfold rewrite_row. cbn. rewrite lookup_insert_eq. unfold fits_in. cbn. by rewrite Hp, Hfit, Hu.
Qed.
End Properties.

(** *** Witnesses *)

#[local] Existing Instance crc32c_ref.
#[local] Existing Instance crc32c_ref_range.
#[local] Existing Instance engine_room.

(** A store with a table of one given page. *)
Lemma sample_one_page q : heap_page q -> chain_next_page q = 0 -> verify_checksum q = Ok tt ->
  exists (x : Io MemoryStorage) root, io_wf x /\ pr x 40 /\ heap_chain (vw x) root ([] ++ [(root, q)]).
Proof.
  intros Hh Hn Hv. destruct sample_chain as (x & root & Hwf & Hpr & Hc).
  destruct (io_write_ok x root q Hwf) as (x' & Hw & Hwf' & _ & _ & Hv'); [|apply hw_page, Hh|done|].
  { destruct (linked_in _ _ 0 root (page_new PtData root) (hc_linked _ _ _ Hc)) as (_ & -> & _); [left|by eexists]. }
  exists x', root. split_and!; [done|eapply (pr_write x root q x'); [done|exact Hw|exact Hpr]|]. by apply (extend_last (vw x) (vw x') root [] root (page_new PtData root) q).
Qed.

(** Two pages of a table, in the order of their numbers. *)
Lemma sample_two_pages q1 q2 :
  heap_page q1 -> verify_checksum q1 = Ok tt -> heap_page q2 -> verify_checksum q2 = Ok tt ->
  exists (x : Io MemoryStorage) i k, io_wf x /\ i < k /\ vw x i = Some q1 /\ vw x k = Some q2.
Proof.
  intros Hh1 Hv1 Hh2 Hv2. destruct sample_chain as (x & root & Hwf & Hpr & Hc).
  destruct (linked_in _ _ 0 root (page_new PtData root) (hc_linked _ _ _ Hc)) as (_ & Hroot & _); [left|].
  destruct (pr_alloc x PtData 40 Hwf Hpr ltac:(lia)) as (n & x1 & Ha & _).
  destruct (io_alloc_view x PtData n x1 Hwf Ha) as (Hwf1 & _ & Hn0 & Hn1 & Hother).
  assert (Hne : root ≠ n) by congruence. assert (Hr1 : is_Some (vw x1 root)) by (rewrite Hother, Hroot by done; by eexists).
  assert (Hput : forall a b, a ≠ b -> is_Some (vw x1 a) -> is_Some (vw x1 b) ->
    exists x', io_wf x' /\ vw x' a = Some q1 /\ vw x' b = Some q2).
  { intros a b Hab Ha1 Hb1. destruct (io_write_ok x1 a q1 Hwf1 Ha1 (hw_page _ (proj1 Hh1)) Hv1) as (x2 & _ & Hwf2 & _ & _ & Hva).
    destruct (io_write_ok x2 b q2 Hwf2) as (x3 & _ & Hwf3 & _ & _ & Hvb); [|apply hw_page, Hh2|done|].
    { rewrite Hva. case_decide; [by eexists|done]. }
    exists x3. split_and!; [done| |by rewrite Hvb, decide_True]. by rewrite Hvb, decide_False, Hva, decide_True. }
  destruct (decide (root < n)) as [Hlt|Hge].
  - destruct (Hput root n Hne Hr1 Hn1) as (x' & H & H1 & H2). by exists x', root, n.
  - destruct (Hput n root (not_eq_sym Hne) Hn1 Hr1) as (x' & H & H1 & H2). exists x', n, root. split_and!; [done|lia|done|done].
Qed.

Lemma sample_heap_page : heap_page sample_page /\ chain_next_page sample_page = 0 /\ verify_checksum sample_page = Ok tt.
Proof.
  split; [split; [apply sample_page_wf|vm_compute; reflexivity]|]. split; vm_compute; reflexivity.
Qed.

(** A row that fits into an empty page, but not next to another row. *)
Definition big_row : bytes := replicate (Z.to_nat 16270) 0.
Lemma big_row_ok : row_ok big_row /\ row_need big_row = 16300.
Proof.
  assert (Hn : row_need big_row = 16300) by (unfold row_need, big_row; rewrite length_replicate, Z2Nat.id by lia; reflexivity).
  split; [split; [apply Forall_replicate; unfold byte_ok; lia|by rewrite Hn]|done].
Qed.

Lemma heap_chain_races_witness :
  exists (x : Io MemoryStorage) root x1 r1 r2 x2 ps2,
    scan_during_insert root (snap_committed 6) [7] 9 x = Some (Ok ([(0, [1; 2; 3])], Some 1), x1) /\
    read_row root 1 x1 = Some (Err (InvalidSlot 7 1 1), x1) /\
    two_growing_inserts root big_row 9 big_row 10 x = Some (Ok (r1, r2), x2) /\
    heap_chain (vw x2) root ps2 /\ ~ r1.1 ∈ ps2.*1.
Proof.
  destruct sample_heap_page as (Hh & Hn & Hv). destruct (sample_one_page sample_page Hh Hn Hv) as (x & root & Hwf & Hpr & Hc).
  assert (Hns : num_slots sample_page = 1) by apply sample_page_wf.
  assert (Hfs : free_space sample_page = 16284) by (vm_compute; reflexivity).
  assert (Hid : hdr_page_id sample_page = 7) by (vm_compute; reflexivity).
  assert (Hscan : scan_slow sample_page (snap_committed 6) (seqZ 0 1) true false = Some (true, true, [(0, [1; 2; 3])])) by (vm_compute; reflexivity).
  destruct big_row_ok as [Hbig Hneed].
  destruct (heap_chain_races root [] root sample_page (snap_committed 6) [7] [(0, [1; 2; 3])] big_row 9 big_row 10 x Hwf Hc
    ltac:(widths) ltac:(widths)) as [H1 H2]. rewrite Hns, Hid, Hfs in H1. rewrite Hfs, Hneed in H2.
  destruct H1 as (x1 & ps1 & H1 & _ & _ & Hrd).
  { split; [repeat constructor; unfold byte_ok; lia|]. split; [cbn; lia|]. split; [vm_compute; congruence|]. split; [lia|exact Hscan]. }
  destruct H2 as (r1 & r2 & x2 & ps2 & H2 & Hc2 & _ & Hni & _).
  { split; [exact Hbig|]. split; [exact Hbig|]. split; [lia|]. split; [lia|]. eapply pr_mono; [exact Hpr|lia]. }
  exists x, root, x1, r1, r2, x2, ps2. split; [exact H1|]. split; [exact Hrd|]. split; [exact H2|]. split; [exact Hc2|exact Hni].
Defined.

Lemma delete_batch_not_atomic_witness :
  exists (x : Io MemoryStorage) i k x' p', i < k /\ delete_batch [(i, 0); (k, 0)] 9 x = Some (Err (AlreadyDeleted k 0), x') /\
    vw x' i = Some p' /\ tuple_at p' 0 = Some (mkRow 5 9 0 0, [1; 2; 3]).
Proof.
  destruct sample_heap_page as (Hh & Hn & Hv). destruct sample_page_wf as (Hw & Hns & Hrd).
  destruct (mark_slot_dead_spec sample_page 0 Hw ltac:(lia)) as (r & q & Hq & H). rewrite Hns in H. cbn [Z.leb Z.compare] in H.
  destruct H as (-> & Hup & Hcs). assert (H01 : 0 <= 0 < num_slots sample_page) by (rewrite Hns; lia). pose proof (updated_mapped _ _ _ _ Hh H01 Hup) as Hm.
  destruct (sample_two_pages sample_page q Hh Hv (pm_heap _ _ _ Hm) (checksum_valid_verify _ Hcs)) as (x & i & k & Hwf & Hik & Hi & Hk).
  assert (Htup : tuple_at sample_page 0 = Some (mkRow 5 0 0 0, [1; 2; 3])) by (vm_compute; reflexivity).
  destruct (delete_batch_not_atomic i 0 k 0 sample_page q 9 x Hwf Hi Hh) as (x' & p' & Hd & _ & Hp' & Ht').
  - apply live_tuple; [done|rewrite Hns; lia|by rewrite Htup].
  - exact Hk.
  - apply Hm.
  - exact Hik.
  - rewrite (up_n _ _ _ _ Hup), Hns. lia.
  - apply Hup.
  - widths.
  - exists x, i, k, x', p'. split; [exact Hik|]. split; [exact Hd|]. split; [exact Hp'|]. rewrite Ht', Htup. reflexivity.
Defined.

(** A page with a zone map that covers its row. *)
Definition sample_zone : Page := update_checksum (update_zone_map sample_page 0 5).

Lemma zone_map_goes_stale_witness :
  exists (x x1 x2 : Io MemoryStorage) i img,
    insert_try i [9] 8 x = Some (Ok (Some 1), x1) /\ rewrite_batch_same_slot [((i, 0), [9])] 8 x = Some (Ok [Some img], x2) /\
    (exists p', vw x1 i = Some p' /\ zone_map_skips p' (Some (0, ZEq 9)) = true) /\
    (exists p', vw x2 i = Some p' /\ zone_map_skips p' (Some (0, ZEq 9)) = true).
Proof.
  destruct sample_heap_page as (Hh & Hn & Hv). destruct sample_page_wf as (Hw & Hns & _).
  destruct (update_zone_map_spec sample_page 0 5 (hw_page _ Hw) ltac:(lia)) as [Hrz _]; [unfold in_i64; lia|].
  destruct (rezoned_heap_page sample_page _ Hh Hrz) as (Hh1 & Hn1 & _). pose proof (hw_page _ (proj1 Hh1)) as Hok1.
  destruct (quiet_heap_page _ sample_zone Hh1) as (Hhz & Hnz & _); [exact (quiet_checksum _ Hok1)|].
  destruct (sample_one_page sample_zone Hhz) as (x & root & Hwf & Hpr & Hc); [rewrite Hnz, Hn1; exact Hn|exact (verify_updated _ Hok1)|].
  destruct (linked_in _ _ 0 root sample_zone (hc_linked _ _ _ Hc)) as (_ & Hp & _); [left|].
  assert (Hzm : read_zone_map sample_zone = Some (mkZone 0 5 5)) by (vm_compute; reflexivity).
  assert (Hnz1 : num_slots sample_zone = 1) by (vm_compute; reflexivity).
  destruct (zone_map_goes_stale root sample_zone (fun d => head d) (mkZone 0 5 5) [9] 9 0 8 x Hwf Hp Hhz Hzm) as [H1 H2].
  - split; [repeat constructor; unfold byte_ok; lia|cbn; lia].
  - widths.
  - reflexivity.
  - right. cbn. lia.
  - rewrite Hnz1 in H1. destruct H1 as (x1 & Hi & p1 & Hp1 & _ & Hs1 & _); [vm_compute; congruence|].
    destruct H2 as (x2 & img & Hr & p2 & Hp2 & _ & Hs2 & _).
    + split; [rewrite Hnz1; lia|vm_compute; reflexivity].
    + vm_compute. reflexivity.
    + exists x, x1, x2, root, img. split; [exact Hi|]. split; [exact Hr|]. split; [exists p1; split; [exact Hp1|exact Hs1]|exists p2; split; [exact Hp2|exact Hs2]].
Defined.
