(* ===== verification/TableWrite.v ===== *)
(** * Statements that change a heap table

    crates/axiomdb-sql/src/table_write.rs, table_ctx.rs and table.rs: insertions, deletions
    and updates of rows of a heap table, after the rows have been coerced and encoded; with
    the batch records of crates/axiomdb-wal/src/txn_record_heap.rs.  A statement changes the
    chain of pages of the table, hands records to the log writer and pushes undo operations
    onto the log of its transaction. *)

From stdpp Require Import sorting.
From S2P Require Import Prelude SlotBitmap Page FreeList Heap PageRows WalEntry Storage PageIo Undo.
From S2P Require Import ZoneMap HeapChain HeapBatch HeapUpdate.

(** ** The state of a statement *)

(** The storage engine with the page batch of the connection, the undo log of the
    connection's transaction, and the log writer: the records handed to it, and its
    counter. *)
Record Session (St : Type) : Type := mkSession {
  ss_io : Io St;
  ss_undo : list UndoOp;
  ss_wal : list WalEntry;
  ss_next_lsn : Z
}.
Arguments mkSession {_} _ _ _ _.
Arguments ss_io {_} _.
Arguments ss_undo {_} _.
Arguments ss_wal {_} _.
Arguments ss_next_lsn {_} _.

Definition set_io {St} (s : Session St) (x : Io St) : Session St := mkSession x (ss_undo s) (ss_wal s) (ss_next_lsn s).

Definition Stmt (St A : Type) : Type := Session St -> option (Result A * Session St).

Definition s_ret {St A} (a : A) : Stmt St A := fun s => Some (Ok a, s).
Definition s_fail {St A} (e : DbError) : Stmt St A := fun s => Some (Err e, s).
Definition s_bind {St A B} (m : Stmt St A) (k : A -> Stmt St B) : Stmt St B :=
  fun s => match m s with
           | None => None
           | Some (Err e, s') => Some (Err e, s')
           | Some (Ok a, s') => k a s'
           end.

Notation "'stmt!' x := m 'in' k" := (s_bind m (fun x => k))
  (at level 10, x name, m at level 100, k at level 200) : rust_scope.

(** Operations on the pages. *)
Definition heap_op {St A} (m : M St A) : Stmt St A :=
  fun s => match m (ss_io s) with
           | None => None
           | Some (r, x) => Some (r, set_io s x)
           end.
Definition store_op {St A} (f : St -> option (Result A * St)) : Stmt St A :=
  fun s => match f (io_store (ss_io s)) with
           | None => None
           | Some (r, st) => Some (r, set_io s (mkIo (io_batch (ss_io s)) st))
           end.

(** ** Records *)

Definition with_lsn (l : Z) (e : WalEntry) : WalEntry :=
  mkWal l (txn_id e) (entry_type e) (table_id e) (key e) (old_value e) (new_value e).

Definition append_with_buf {St} (entry : WalEntry) : Stmt St unit :=
  fun s => Some (Ok tt, mkSession (ss_io s) (ss_undo s) (ss_wal s ++ [with_lsn (ss_next_lsn s) entry]) (wrap64 (ss_next_lsn s + 1))).

(** [reserve_lsns], stamping and [write_batch]. *)
Definition log_batch {St} (entries : list WalEntry) : Stmt St unit :=
  fun s => let lsn_base := ss_next_lsn s in
    Some (Ok tt, mkSession (ss_io s) (ss_undo s)
      (ss_wal s ++ imap (fun i e => with_lsn (wrap64 (lsn_base + Z.of_nat i)) e) entries)
      (wrap64 (lsn_base + zlen entries))).

Definition push_undo {St} (ops : list UndoOp) : Stmt St unit :=
  fun s => Some (Ok tt, mkSession (ss_io s) (ss_undo s ++ ops) (ss_wal s) (ss_next_lsn s)).

(** A record of one row, and its undo operation. *)
Definition log_change {St} (r : WalEntry * UndoOp) : Stmt St unit :=
  stmt! _ := append_with_buf r.1 in
  push_undo [r.2].

(** [[num_slots][slot_id]*], both in 16 bits. *)
Definition slot_list (slot_ids : list Z) : bytes :=
  le_bytes 2 (wrap16 (zlen slot_ids)) ++ concat (le_bytes 2 <$> slot_ids).

Section Records.
Context {St : Type}.
Context (own : Z).

Definition record_insert_batch (tid : Z) (phys_locs : list (Z * Z)) (values : list bytes) : Stmt St unit :=
  match phys_locs with
  | [] => s_ret tt
  | _ =>
      stmt! _ := log_batch (zip_with (fun loc value =>
        mkWal 0 own Insert tid (encode_physical_loc loc.1 loc.2) [] (encode_physical_loc loc.1 loc.2 ++ value)) phys_locs values) in
      push_undo ((fun loc => UndoInsert loc.1 loc.2) <$> phys_locs)
  end.

Definition record_page_writes (tid : Z) (page_writes : list (Z * list Z)) : Stmt St unit :=
  match page_writes with
  | [] => s_ret tt
  | _ =>
      stmt! _ := log_batch ((fun pw => mkWal 0 own PageWrite tid (le_bytes 8 pw.1) [] (slot_list pw.2)) <$> page_writes) in
      push_undo (page_writes ≫= fun pw => (fun slot_id => UndoInsert pw.1 slot_id) <$> pw.2)
  end.

Definition record_delete_batch (tid : Z) (page_deletes : list (Z * list Z)) : Stmt St unit :=
  match page_deletes with
  | [] => s_ret tt
  | _ =>
      stmt! _ := log_batch ((fun pd => mkWal 0 own PageDelete tid (le_bytes 8 pd.1) [] (slot_list pd.2)) <$> page_deletes) in
      push_undo (page_deletes ≫= fun pd => (fun slot_id => UndoDelete pd.1 slot_id) <$> pd.2)
  end.

(** Key, old image, new image and location. *)
Definition StableImage : Type := bytes * bytes * bytes * (Z * Z).

Definition record_update_in_place_batch (tid : Z) (images : list StableImage) : Stmt St unit :=
  match images with
  | [] => s_ret tt
  | _ =>
      stmt! _ := log_batch ((fun '(key, old_image, new_image, loc) =>
        mkWal 0 own UpdateInPlace tid key (encode_physical_loc loc.1 loc.2 ++ old_image)
          (encode_physical_loc loc.1 loc.2 ++ new_image)) <$> images) in
      push_undo ((fun '(_, old_image, _, loc) => UndoUpdateInPlace loc.1 loc.2 old_image) <$> images)
  end.
End Records.

(** ** Statements *)

(** [HashSet::iter().next()]: some element, in an order of the hash table's own. *)
Class SetIter : Type := {
  set_first : gset Z -> option Z;
  set_first_in s t : set_first s = Some t -> t ∈ s;
  set_first_none s : set_first s = None -> s = ∅
}.

Definition set_iter_elements : SetIter.
Proof.
  refine {| set_first s := head (elements s) |}.
  - intros s t Ht. apply elem_of_elements. destruct (elements s) as [|a l]; [done|]. injection Ht as ->. left.
  - intros s Hs. apply leibniz_equiv, elements_empty_inv. by destruct (elements s).
Defined.

(** Locations grouped by page: adjacent ones for a deletion, through a map for an insertion. *)
Definition push_slot (page_deletes : list (Z * list Z)) (loc : Z * Z) : list (Z * list Z) :=
  match last page_deletes with
  | Some (last_pid, slots) =>
      if last_pid =? loc.1 then take (pred (length page_deletes)) page_deletes ++ [(last_pid, slots ++ [loc.2])]
      else page_deletes ++ [(loc.1, [loc.2])]
  | None => page_deletes ++ [(loc.1, [loc.2])]
  end.
Definition group_deletes (deleted : list (Z * Z * bytes)) : list (Z * list Z) := foldl push_slot [] deleted.*1.

Definition page_le (a b : Z * list Z) : Prop := a.1 <= b.1.
#[export] Instance page_le_dec a b : Decision (page_le a b).
Proof. unfold page_le. apply _. Defined.

Definition page_slot_map (phys_locs : list (Z * Z)) : gmap Z (list Z) :=
  foldl (fun m loc => <[loc.1 := default [] (m !! loc.1) ++ [loc.2]]> m) ∅ phys_locs.
Definition sorted_pages (phys_locs : list (Z * Z)) : list (Z * list Z) :=
  merge_sort page_le (map_to_list (page_slot_map phys_locs)).

Record TableDef : Type := mkTable { td_id : Z; td_root_page_id : Z }.

Section Statements.
Context {St : Type} {C : Crc32c} {E : StorageEngine St} {SI : SetIter}.
(** The transaction of the connection, and the set of running transactions. *)
Context (own : Z) (active_set : gset Z).
Context (fuel : nat) (table_def : TableDef).

Definition active_txn_id : option Z := set_first active_set.

(** [txn.active_txn_id().ok_or(NoActiveTransaction)?] *)
Definition stmt_txn_id : Stmt St Z :=
  match active_txn_id with
  | Some t => s_ret t
  | None => s_fail NoActiveTransaction
  end.

Definition delete_rows_batch (rids : list (Z * Z)) : Stmt St Z :=
  match rids with
  | [] => s_ret 0
  | _ =>
      stmt! t := stmt_txn_id in
      stmt! deleted := heap_op (delete_batch rids t) in
      stmt! _ := record_delete_batch own (td_id table_def) (group_deletes deleted) in
      s_ret (zlen deleted)
  end.

(** The rows are inserted past the page batch of the connection. *)
Definition insert_rows_batch (encoded_rows : list bytes) : Stmt St (list (Z * Z)) :=
  match encoded_rows with
  | [] => s_ret []
  | _ =>
      stmt! t := stmt_txn_id in
      stmt! phys_locs := heap_op (insert_batch fuel (td_root_page_id table_def) encoded_rows t) in
      stmt! _ := record_page_writes own (td_id table_def) (sorted_pages phys_locs) in
      s_ret phys_locs
  end.

Definition insert_rows_batch_with_ctx (encoded_rows : list bytes) (zm_values : list (option (Z * Z))) : Stmt St (list (Z * Z)) :=
  match encoded_rows with
  | [] => s_ret []
  | _ =>
      stmt! t := stmt_txn_id in
      stmt! phys_locs := heap_op (insert_batch_with_zm fuel (td_root_page_id table_def) encoded_rows t zm_values) in
      stmt! _ := record_page_writes own (td_id table_def) (sorted_pages phys_locs) in
      s_ret phys_locs
  end.

Definition update_rows_batch (rids : list (Z * Z)) (encoded_rows : list bytes) : Stmt St Z :=
  match rids with
  | [] => s_ret 0
  | _ =>
      stmt! _ := delete_rows_batch rids in
      stmt! _ := insert_rows_batch encoded_rows in
      s_ret (zlen rids)
  end.

(** [HeapChain::insert_with_hint], with the hint as it was left. *)
Definition insert_hint_op (data : bytes) (t : Z) (hint : option HeapAppendHint) : Stmt St (Z * Z * option HeapAppendHint) :=
  fun s => match insert_with_hint fuel (td_root_page_id table_def) data t hint (ss_io s) with
           | None => None
           | Some (Err e, _, x) => Some (Err e, set_io s x)
           | Some (Ok rid, hint', x) => Some (Ok (rid, hint'), set_io s x)
           end.

(** The row inserted, and the hint the session keeps. *)
Definition insert_row_with_ctx (encoded : bytes) (hint : option HeapAppendHint) : Stmt St (Z * Z * HeapAppendHint) :=
  stmt! t := stmt_txn_id in
  stmt! r := insert_hint_op encoded t hint in
  stmt! _ := log_change (record_insert own (td_id table_def) (encode_physical_loc r.1.1 r.1.2) encoded r.1.1 r.1.2) in
  s_ret (r.1, default (mkHint (td_root_page_id table_def) r.1.1) r.2).

Definition update_encoded_row_with_hint (record_id : Z * Z) (new_encoded : bytes) (hint : option HeapAppendHint)
    : Stmt St (Z * Z * option HeapAppendHint) :=
  stmt! old := heap_op (read_row record_id.1 record_id.2) in
  match old with
  | None => s_fail (AlreadyDeleted record_id.1 record_id.2)
  | Some old_bytes =>
      stmt! t := stmt_txn_id in
      stmt! _ := store_op (fun st => chain_delete st record_id.1 record_id.2 t) in
      stmt! _ := log_change (record_delete own (td_id table_def) (encode_physical_loc record_id.1 record_id.2) old_bytes
                   record_id.1 record_id.2) in
      stmt! r := (match hint with
                  | Some _ => insert_hint_op new_encoded t hint
                  | None => stmt! rid := heap_op (chain_insert fuel (td_root_page_id table_def) new_encoded t) in s_ret (rid, None)
                  end) in
      stmt! _ := log_change (record_insert own (td_id table_def) (encode_physical_loc r.1.1 r.1.2) new_encoded r.1.1 r.1.2) in
      s_ret r
  end.

Definition build_in_place_tuple_image (old_tuple_image new_encoded : bytes) (t : Z) : Result bytes :=
  if zlen old_tuple_image <? ROW_HEADER_SIZE then Err Internal
  else
    let old_header := row_header_of old_tuple_image in
    Ok (row_header_bytes (mkRow t 0 (saturating_add32 (row_version old_header) 1) (rh_flags old_header)) ++ new_encoded).

(** The loop over the results of the rewriting: [stable_images] are rows rewritten in
    place whose records are not written yet.  The code discards the result of recording
    them; handing records to the writer does not fail. *)
Fixpoint preserve_loop (t : Z) (prepared : list ((Z * Z) * bytes)) (rewrite_results : list (option bytes))
    (stable_images : list StableImage) (hint : option HeapAppendHint) : Stmt St (list (Z * Z) * option HeapAppendHint) :=
  match prepared, rewrite_results with
  | (rid, new_encoded) :: prepared', Some old_image :: results' =>
      match build_in_place_tuple_image old_image new_encoded t with
      | Err e => s_fail e
      | Ok new_image =>
          stmt! r := preserve_loop t prepared' results'
            (stable_images ++ [(encode_physical_loc rid.1 rid.2, old_image, new_image, rid)]) hint in
          s_ret (rid :: r.1, r.2)
      end
  | (rid, new_encoded) :: prepared', None :: results' =>
      stmt! _ := record_update_in_place_batch own (td_id table_def) stable_images in
      stmt! u := update_encoded_row_with_hint rid new_encoded hint in
      stmt! r := preserve_loop t prepared' results' [] u.2 in
      s_ret (u.1 :: r.1, r.2)
  | _, _ =>
      stmt! _ := record_update_in_place_batch own (td_id table_def) stable_images in
      s_ret ([], hint)
  end.

Definition apply_prepared_updates_preserve_rid (prepared : list ((Z * Z) * bytes)) (hint : option HeapAppendHint)
    : Stmt St (list (Z * Z) * option HeapAppendHint) :=
  match prepared with
  | [] => s_ret ([], hint)
  | _ =>
      stmt! t := stmt_txn_id in
      stmt! rewrite_results := heap_op (rewrite_batch_same_slot prepared t) in
      preserve_loop t prepared rewrite_results [] hint
  end.
End Statements.

(** ** Transactions *)

Inductive Statement : Type :=
| InsertRow (encoded : bytes) (hint : option HeapAppendHint)
| InsertRows (encoded_rows : list bytes)
| InsertRowsCtx (encoded_rows : list bytes) (zm_values : list (option (Z * Z)))
| DeleteRows (rids : list (Z * Z))
| UpdateRow (record_id : Z * Z) (new_encoded : bytes) (hint : option HeapAppendHint)
| UpdateRows (rids : list (Z * Z)) (encoded_rows : list bytes)
| UpdatePrepared (prepared : list ((Z * Z) * bytes)) (hint : option HeapAppendHint).

Section Transactions.
Context {St : Type} {C : Crc32c} {E : StorageEngine St} {SI : SetIter}.
Context (own : Z).

Definition run_statement (active_set : gset Z) (fuel : nat) (table_def : TableDef) (stmt : Statement) : Stmt St unit :=
  let done {A} (m : Stmt St A) : Stmt St unit := stmt! _ := m in s_ret tt in
  match stmt with
  | InsertRow encoded hint => done (insert_row_with_ctx own active_set fuel table_def encoded hint)
  | InsertRows rows => done (insert_rows_batch own active_set fuel table_def rows)
  | InsertRowsCtx rows zm_values => done (insert_rows_batch_with_ctx own active_set fuel table_def rows zm_values)
  | DeleteRows rids => done (delete_rows_batch own active_set table_def rids)
  | UpdateRow record_id row hint => done (update_encoded_row_with_hint own active_set fuel table_def record_id row hint)
  | UpdateRows rids rows => done (update_rows_batch own active_set fuel table_def rids rows)
  | UpdatePrepared prepared hint => done (apply_prepared_updates_preserve_rid own active_set fuel table_def prepared hint)
  end.

(** [TxnManager::rollback]: the record, the pages set aside, then the undo log from its
    end.  The log of the transaction is consumed. *)
Definition free_unused : Stmt St unit :=
  fun s => match io_batch (ss_io s) with
           | None => Some (Ok tt, s)
           | Some b =>
               let s := set_io s (mkIo (Some (take_for_rollback b).2) (io_store (ss_io s))) in
               match (take_for_rollback b).1 with
               | [] => Some (Ok tt, s)
               | avail => store_op (fun st => free_page_batch st avail) s
               end
           end.
Definition take_undo : Stmt St (list UndoOp) := fun s => Some (Ok (ss_undo s), mkSession (ss_io s) [] (ss_wal s) (ss_next_lsn s)).

Definition rollback : Stmt St unit :=
  stmt! _ := append_with_buf (mkWal 0 own Rollback 0 [] [] []) in
  stmt! _ := free_unused in
  stmt! undo_ops := take_undo in
  store_op (fun st => rollback_heap st undo_ops).
End Transactions.

(** ** Records and locations *)

(** The locations of pages with their slots. *)
Definition page_locs (pages : list (Z * list Z)) : list (Z * Z) := pages ≫= fun pw => (fun slot_id => (pw.1, slot_id)) <$> pw.2.

Lemma page_locs_app a b : page_locs (a ++ b) = page_locs a ++ page_locs b.
Proof. apply bind_app. Qed.

Lemma page_locs_cons pg slots l : page_locs ((pg, slots) :: l) = ((fun slot_id => (pg, slot_id)) <$> slots) ++ page_locs l.
Proof. done. Qed.

#[export] Instance page_locs_proper : Proper ((≡ₚ) ==> (≡ₚ)) page_locs.
Proof. intros a b Hab. unfold page_locs. by rewrite Hab. Qed.

Lemma page_locs_fmap {A} (f : Z * Z -> A) pages : f <$> page_locs pages = pages ≫= fun pw => (fun slot_id => f (pw.1, slot_id)) <$> pw.2.
Proof.
  induction pages as [|[pg slots] pages IH]; [done|]. rewrite page_locs_cons, fmap_app, IH, <-list_fmap_compose. done.
Qed.

(** Grouping loses no location and keeps the order. *)
Lemma push_slot_locs pages loc : page_locs (push_slot pages loc) = page_locs pages ++ [loc].
Proof.
  unfold push_slot. destruct loc as [pg i]. cbn [fst snd]. destruct (last pages) as [[pg' slots]|] eqn:Hl.
  - apply last_Some in Hl as [l ->]. destruct (Z.eqb_spec pg' pg) as [->|_]; [|by rewrite page_locs_app].
    rewrite length_app. cbn [length]. replace (pred (length l + 1)) with (length l) by lia. rewrite take_app_length.
    rewrite !page_locs_app, !page_locs_cons, fmap_app, <-!app_assoc. done.
  - by rewrite page_locs_app.
Qed.

Lemma group_deletes_locs deleted : page_locs (group_deletes deleted) = deleted.*1.
Proof.
  unfold group_deletes. generalize deleted.*1. intros locs. induction locs as [|loc locs IH] using rev_ind; [done|].
  by rewrite foldl_snoc, push_slot_locs, IH.
Qed.

Lemma sorted_snoc {A} (R : A -> A -> Prop) l a :
  StronglySorted R (l ++ [a]) <-> StronglySorted R l /\ Forall (fun b => R b a) l.
Proof.
  induction l as [|b l IH]; cbn [app].
  - split; [intros _; split; constructor|]. intros _. repeat constructor.
  - split.
    + intros [Hs Ha]%StronglySorted_inv. apply IH in Hs as [Hs Hl]. apply Forall_app in Ha as [Hb Ha].
      split; [by constructor|]. constructor; [exact (proj1 (Forall_singleton _ _) Ha)|done].
    + intros [[Hs Hb]%StronglySorted_inv [Hba Hl]%Forall_cons]. constructor; [by apply IH|]. apply Forall_app. split; [done|]. by apply Forall_singleton.
Qed.

(** The locations come sorted, so each page is one group. *)
Lemma group_sorted locs :
  StronglySorted rid_le locs -> StronglySorted (fun a b => a.1 < b.1) (foldl push_slot [] locs) /\
    (forall a loc, last (foldl push_slot [] locs) = Some a -> last locs = Some loc -> a.1 = loc.1).
Proof.
  induction locs as [|loc locs IH] using rev_ind; intros Hs; [split; [constructor|done]|].
  apply sorted_snoc in Hs as [Hs Hloc]. destruct (IH Hs) as [Hg Hlast]. rewrite foldl_snoc.
  set (g := foldl push_slot [] locs) in *. unfold push_slot. destruct (last g) as [[pg slots]|] eqn:Hl.
  - apply last_Some in Hl as [l Hl]. rewrite Hl in *. apply sorted_snoc in Hg as [Hg Hpg].
    destruct (last locs) as [loc0|] eqn:Hl0.
    2:{ apply last_None in Hl0. subst g. rewrite Hl0 in Hl. by destruct l. }
    specialize (Hlast (pg, slots) loc0 eq_refl eq_refl). cbn in Hlast. apply last_Some in Hl0 as [locs0 Hl0]. rewrite Hl0 in Hloc.
    apply Forall_app in Hloc as [_ Hle]. apply Forall_cons in Hle as [Hle _]. unfold rid_le in Hle.
    rewrite length_app. cbn [length]. replace (pred (length l + 1)) with (length l) by lia. rewrite take_app_length.
    destruct (Z.eqb_spec pg loc.1) as [Heq|Hne].
    + split; [by apply sorted_snoc|]. intros a loc'. rewrite !last_snoc. by intros [= <-] [= <-].
    + split; [|intros a loc'; rewrite !last_snoc; by intros [= <-] [= <-]]. apply sorted_snoc. split; [by apply sorted_snoc|].
      cbn [fst]. apply Forall_app. assert (pg < loc.1) by (destruct Hle as [?|[? _]]; lia).
      split; [|by apply Forall_singleton]. eapply Forall_impl; [exact Hpg|]. cbn. intros; lia.
  - apply last_None in Hl. rewrite Hl. cbn [app]. split; [repeat constructor|]. intros a loc'. rewrite last_snoc. by intros [= <-] [= <-].
Qed.

Lemma page_slot_map_locs locs : page_locs (map_to_list (page_slot_map locs)) ≡ₚ locs.
Proof.
  unfold page_slot_map. induction locs as [|[pg i] locs IH] using rev_ind; [cbn [foldl]; by rewrite map_to_list_empty|].
  rewrite foldl_snoc. set (m := foldl _ _ _) in *. cbn [fst snd]. destruct (m !! pg) as [slots|] eqn:Hm; cbn [default from_option id].
  - rewrite <-(map_to_list_delete m pg slots Hm), page_locs_cons in IH.
    rewrite <-insert_delete_eq, map_to_list_insert, page_locs_cons, fmap_app by apply lookup_delete_eq.
    rewrite <-IH, (Permutation_app_comm (_ ++ _) [(pg, i)]), app_assoc. f_equiv. by rewrite (Permutation_app_comm _ (_ <$> [i])).
  - rewrite map_to_list_insert, page_locs_cons, IH by done. by rewrite Permutation_app_comm.
Qed.

Lemma sorted_pages_locs locs : page_locs (sorted_pages locs) ≡ₚ locs.
Proof. unfold sorted_pages. by rewrite merge_sort_Permutation, page_slot_map_locs. Qed.

#[export] Instance page_le_trans : Transitive page_le.
Proof. intros a b c. unfold page_le. lia. Qed.
#[export] Instance page_le_total : Total page_le.
Proof. intros a b. unfold page_le. lia. Qed.

Lemma sorted_pages_sorted locs : StronglySorted (fun a b => a.1 < b.1) (sorted_pages locs).
Proof.
  unfold sorted_pages. set (l := merge_sort page_le _).
  assert (Hs : StronglySorted page_le l).
  { apply (StronglySorted_merge_sort page_le). }
  assert (Hnd : NoDup l.*1) by (unfold l; rewrite merge_sort_Permutation; apply NoDup_fst_map_to_list).
  revert Hs Hnd. generalize l. clear l. intros l Hs. induction Hs as [|a l Hs IH Ha]; [constructor|]. rewrite fmap_cons. intros [Hni Hnd]%NoDup_cons.
  constructor; [by apply IH|]. rewrite Forall_forall in Ha |- *. intros b Hb. specialize (Ha b Hb). unfold page_le in Ha.
  assert (a.1 ≠ b.1); [|lia]. intros Heq. apply Hni. rewrite Heq. apply list_elem_of_fmap. by exists b.
Qed.

(** Binding. *)
Lemma s_bind_ok {St A B} (m : Stmt St A) (k : A -> Stmt St B) s r s' :
  s_bind m k s = Some (Ok r, s') -> exists a s1, m s = Some (Ok a, s1) /\ k a s1 = Some (Ok r, s').
Proof. unfold s_bind. destruct (m s) as [[[a|e] s1]|]; [|done|done]. by exists a, s1. Qed.

Lemma heap_op_ok {St A} (m : M St A) s r s' :
  heap_op m s = Some (Ok r, s') -> exists x, m (ss_io s) = Some (Ok r, x) /\ s' = set_io s x.
Proof. unfold heap_op. destruct (m (ss_io s)) as [[[a|e] x]|]; [|done|done]. intros [= <- <-]. by exists x. Qed.

(** What a record does to the state. *)
Definition logs {St} (m : Stmt St unit) (entries : Z -> list WalEntry) (ops : list UndoOp) : Prop :=
  forall s, exists next, m s = Some (Ok tt, mkSession (ss_io s) (ss_undo s ++ ops) (ss_wal s ++ entries (ss_next_lsn s)) next).

Definition batch_entries (entries : list WalEntry) (lsn_base : Z) : list WalEntry :=
  imap (fun i e => with_lsn (wrap64 (lsn_base + Z.of_nat i)) e) entries.

Lemma logs_nil {St} : logs (s_ret tt : Stmt St unit) (fun _ => []) [].
Proof. intros s. exists (ss_next_lsn s). unfold s_ret. rewrite !app_nil_r. by destruct s. Qed.

Lemma logs_batch {St} entries ops :
  logs (St := St) (s_bind (log_batch entries) (fun _ => push_undo ops)) (batch_entries entries) ops.
Proof. intros s. by eexists. Qed.

Lemma logs_ext {St} (m : Stmt St unit) entries ops ops' : logs m entries ops -> ops = ops' -> logs m entries ops'.
Proof. by intros ? <-. Qed.

Lemma record_page_writes_logs {St} own tid pages :
  logs (St := St) (record_page_writes own tid pages)
    (batch_entries ((fun pw => mkWal 0 own PageWrite tid (le_bytes 8 pw.1) [] (slot_list pw.2)) <$> pages))
    ((fun x => UndoInsert x.1 x.2) <$> page_locs pages).
Proof.
  destruct pages as [|pw pages]; [apply logs_nil|]. eapply logs_ext; [apply logs_batch|]. by rewrite page_locs_fmap.
Qed.

Lemma record_delete_batch_logs {St} own tid pages :
  logs (St := St) (record_delete_batch own tid pages)
    (batch_entries ((fun pd => mkWal 0 own PageDelete tid (le_bytes 8 pd.1) [] (slot_list pd.2)) <$> pages))
    ((fun x => UndoDelete x.1 x.2) <$> page_locs pages).
Proof.
  destruct pages as [|pw pages]; [apply logs_nil|]. eapply logs_ext; [apply logs_batch|]. by rewrite page_locs_fmap.
Qed.

Definition image_undo (i : StableImage) : UndoOp := UndoUpdateInPlace i.2.1 i.2.2 i.1.1.2.

Lemma record_update_batch_logs {St} own tid images : exists entries,
  logs (St := St) (record_update_in_place_batch own tid images) entries (image_undo <$> images).
Proof.
  destruct images as [|im images]; [by eexists; apply logs_nil|]. eexists. eapply logs_ext; [apply logs_batch|].
  apply list_fmap_ext. intros k [[[? ?] ?] ?] _. done.
Qed.

Lemma log_change_logs {St} r : logs (St := St) (log_change r) (fun l => [with_lsn l r.1]) [r.2].
Proof. intros s. by eexists. Qed.

Lemma logs_run {St} (m : Stmt St unit) entries ops s u s' :
  logs m entries ops -> m s = Some (Ok u, s') ->
  ss_io s' = ss_io s /\ ss_undo s' = ss_undo s ++ ops /\ ss_wal s' = ss_wal s ++ entries (ss_next_lsn s).
Proof. intros Hl Hm. destruct (Hl s) as [next Heq]. rewrite Heq in Hm. by simplify_eq. Qed.

Lemma logs_bind {St A} (m : Stmt St unit) entries ops (k : unit -> Stmt St A) s :
  logs m entries ops -> exists next,
    s_bind m k s = k tt (mkSession (ss_io s) (ss_undo s ++ ops) (ss_wal s ++ entries (ss_next_lsn s)) next).
Proof. intros Hl. destruct (Hl s) as [next Heq]. exists next. unfold s_bind. by rewrite Heq. Qed.
