(* ===== verification/TableForward.v ===== *)
(** * Changes of a heap table that an undo log takes back

    Which changes of a chain of pages are [forward] steps in the sense of Undo: rows
    stamped, appended and rewritten, with the operations that crates/axiomdb-wal/src/
    txn_record_heap.rs records for them; how chains and their rows fare under such steps;
    and [stepped], what a statement that succeeds does to a session. *)

From stdpp Require Import sorting.
From S2P Require Import Prelude SlotBitmap Page FreeList Heap PageRows WalEntry Storage PageIo Undo.
From S2P Require Import ZoneMap HeapChain HeapBatch HeapUpdate TableWrite.

(** ** Forward steps *)

(** Operations on one row that agree about its old contents. *)
Lemma undo_values_agree x ops T0 : forall T,
  (exists op, op ∈ ops /\ target op = Some x) ->
  (forall op, op ∈ ops -> target op = Some x -> undo_value op T = T0 /\ undo_value op T0 = T0) ->
  undo_values x ops T = T0.
Proof.
  assert (Hfix : forall ops, (forall op, op ∈ ops -> target op = Some x -> undo_value op T0 = T0) -> undo_values x ops T0 = T0).
  { clear ops. induction ops as [|op ops IH]; intros Hall; cbn [undo_values]; [done|].
    case_decide as Ht; [rewrite Hall by (done || left)|]; apply IH; intros op' Hop'; apply Hall; by right. }
  induction ops as [|op ops IH]; intros T [op' [Hop' Ht']] Hall; [by apply not_elem_of_nil in Hop'|]. cbn [undo_values].
  case_decide as Ht.
  - rewrite (proj1 (Hall op ltac:(left) Ht)). apply Hfix. intros o Ho Hto. apply Hall; [by right|done].
  - apply elem_of_cons in Hop' as [->|Hop']; [done|]. apply IH; [by exists op'|]. intros o Ho. apply Hall. by right.
Qed.

Lemma forward_intro v v' ops :
  (forall pg p, v pg = Some p -> exists p', v' pg = Some p' /\ (p' = p \/ heap_page p /\ kept p p')) ->
  (forall op, op ∈ ops -> ready v' op) -> insert_first ops ->
  (forall pg i, UndoInsert pg i ∈ ops -> row v (pg, i) = None) ->
  (forall x T, row v' x = Some T -> (forall op, op ∈ ops -> target op ≠ Some x) -> row v x = Some T) ->
  (forall op x T, op ∈ ops -> target op = Some x -> row v' x = Some T ->
     let U := cleared ops x (default None (row v x)) in undo_value op T = U /\ undo_value op U = U) ->
  forward v v' ops.
Proof.
  intros Hpg Hr Hfi Hfr Hsame Hun. split; [done..|]. intros x T HT.
  destruct (target_cases ops x) as [(op & Hop & Ht)|Hn].
  - apply undo_values_agree; [exists op; split; [by apply elem_in_rev|done]|].
    intros op' Hop'%in_rev_elem Ht'. by apply Hun.
  - rewrite undo_values_none, cleared_none; [by rewrite (Hsame x T HT Hn)|done|]. intros op Hop%in_rev_elem. by apply Hn.
Qed.

(** When the stamp of a row stays, and when it goes. *)
Lemma cleared_keep ops x T : ~ UndoDelete x.1 x.2 ∈ ops -> cleared ops x T = T.
Proof.
  induction ops as [|op ops IH]; intros Hn; cbn [cleared]; [done|]. case_decide as Ht; [|apply IH; set_solver].
  destruct op as [|pg i| | |]; try done. cbn in Ht. injection Ht as <-. destruct Hn. left.
Qed.

Lemma cleared_drop ops x T op :
  op ∈ ops -> target op = Some x -> (forall op', op' ∈ ops -> exists pg i, op' = UndoDelete pg i) -> cleared ops x T = set_deleted 0 <$> T.
Proof.
  induction ops as [|op1 ops IH]; intros Hop Ht Hall; cbn [cleared]; [by apply not_elem_of_nil in Hop|]. case_decide as Ht1.
  - by destruct (Hall op1 ltac:(left)) as (pg & i & ->).
  - apply IH; [by apply elem_of_cons in Hop as [->|?]|done|]. intros op' Hop'. apply Hall. by right.
Qed.

Lemma cleared_swap a b c x T :
  (forall op op', op ∈ b -> op' ∈ c -> target op = Some x -> target op' ≠ Some x) ->
  cleared (a ++ b ++ c) x T = cleared (a ++ c ++ b) x T.
Proof.
  intros Hd. destruct (target_cases a x) as [(op & Hop & Ht)|Hna]; [by rewrite !(cleared_app_found a _ x T op)|].
  rewrite !(cleared_app_skip a) by done. destruct (target_cases b x) as [(op & Hop & Ht)|Hnb].
  - rewrite (cleared_app_found b _ x T op), (cleared_app_skip c); [done| |done|done]. intros op' Hop'. by apply (Hd op op').
  - rewrite (cleared_app_skip b) by done. destruct (target_cases c x) as [(op & Hop & Ht)|Hnc].
    + by rewrite (cleared_app_found c _ x T op).
    + by rewrite (cleared_app_skip c), !cleared_none.
Qed.

(** The records of changes to different rows may be written in another order. *)
Lemma forward_swap v v' a b c :
  forward v v' (a ++ b ++ c) ->
  (forall op op' x, op ∈ b -> op' ∈ c -> target op = Some x -> target op' ≠ Some x) ->
  forward v v' (a ++ c ++ b).
Proof.
  intros Hf Hd. pose proof (fw_first _ _ _ Hf) as Hfi.
  assert (Hp : forall op, op ∈ a ++ c ++ b <-> op ∈ a ++ b ++ c) by set_solver.
  split; [apply Hf| | | |].
  - intros op Hop%Hp. by apply Hf.
  - intros l1 pg i l2 Heq op Hop Ht.
    assert (Hc : forall c1 c2, c = c1 ++ UndoInsert pg i :: c2 -> op ∈ a ++ b ++ c1 -> False).
    { intros c1 c2 -> Hin. by apply (Hfi (a ++ b ++ c1) pg i c2) in Ht; [|by rewrite <-!app_assoc|]. }
    assert (Hb : forall b1 b2, b = b1 ++ UndoInsert pg i :: b2 -> op ∈ a ++ b1 \/ op ∈ c -> False).
    { intros b1 b2 -> [Hin|Hin]; [by apply (Hfi (a ++ b1) pg i (b2 ++ c)) in Ht; [|by rewrite <-!app_assoc|]|].
      by apply (Hd (UndoInsert pg i) op (pg, i) ltac:(set_solver) Hin). }
    apply app_eq_app in Heq as (k & [[-> Heq]|[-> Heq]]).
    + destruct k as [|o k]; cbn in Heq.
      * rewrite app_nil_r in *. destruct c as [|o c].
        -- cbn in Heq. destruct b as [|o b]; [done|]. injection Heq as <- ->. apply (Hb [] b); [done|]. left. by rewrite app_nil_r.
        -- injection Heq as <- ->. apply (Hc [] c); [done|]. set_solver.
      * injection Heq as <- ->. by apply (Hfi l1 pg i (k ++ b ++ c)) in Ht; [|by rewrite <-app_assoc|].
    + apply app_eq_app in Heq as (m & [[Hm Heq]|[Hm Heq]]).
      * destruct m as [|o m]; cbn in Heq.
        -- rewrite app_nil_r in Hm. subst k. apply (Hb [] l2); [done|]. set_solver.
        -- injection Heq as <- ->. apply (Hc k m); [done|]. set_solver.
      * subst k. apply (Hb m l2); [done|]. set_solver.
  - intros pg i Hi%Hp. by apply (fw_fresh _ _ _ Hf).
  - intros x T HT. rewrite <-(cleared_swap a b c x), <-(fw_undo _ _ _ Hf x T HT), !rev_app_distr, !undo_values_app by (intros op op'; apply Hd). f_equal.
    destruct (decide (Some x ∈ target <$> b)) as [Hin|Hout].
    + apply list_elem_of_fmap in Hin as (op & Ht & Hop).
      assert (Hn : forall T1, undo_values x (rev c) T1 = T1).
      { intros T1. apply undo_values_none. intros op' Hop'%in_rev_elem. by apply (Hd op op' x). }
      by rewrite !Hn.
    + assert (Hn : forall T1, undo_values x (rev b) T1 = T1).
      { intros T1. apply undo_values_none. intros op Hop%in_rev_elem Ht. apply Hout, list_elem_of_fmap. by exists op. }
      by rewrite !Hn.
Qed.

(** *** Rows of a chain *)

Lemma chain_row v ps next x T :
  linked v ps next -> (x, T) ∈ chain_rows ps <-> x.1 ∈ ps.*1 /\ row v x = Some T.
Proof.
  intros Hl. destruct x as [i j]. cbn [fst]. unfold chain_rows. rewrite list_elem_of_bind. split.
  - intros ([k p] & (j' & Heq & Hj)%list_elem_of_fmap & Hin). cbn in Heq. simplify_eq.
    destruct (linked_in _ _ _ _ _ Hl Hin) as (_ & Hp & _). apply elem_of_seqZ in Hj. split; [apply list_elem_of_fmap; by exists (k, p)|].
    cbn [fst snd] in Hj. apply row_at; [done|lia].
  - intros [([k p] & -> & Hin)%list_elem_of_fmap (q & Hq & Hj & <-)%row_Some]. cbn [fst snd] in *.
    destruct (linked_in _ _ _ _ _ Hl Hin) as (_ & Hp & _). assert (q = p) as -> by congruence.
    exists (k, p). split; [|done]. apply list_elem_of_fmap. exists j. split; [done|]. apply elem_of_seqZ. cbn [snd]. lia.
Qed.

Lemma chain_locs_nodup ps : NoDup ps.*1 -> NoDup (chain_rows ps).*1.
Proof.
  induction ps as [|[i p] ps IH]; intros Hnd; [constructor|]. rewrite fmap_cons in Hnd. apply NoDup_cons in Hnd as [Hni Hnd].
  change (chain_rows ((i, p) :: ps)) with (page_rows i p ++ chain_rows ps). rewrite fmap_app. apply NoDup_app. split_and!.
  - unfold page_rows. rewrite <-list_fmap_compose. apply NoDup_fmap_2; [intros a b; cbn; congruence|apply NoDup_seqZ].
  - intros x (r & -> & (j & -> & _)%list_elem_of_fmap)%list_elem_of_fmap (r' & Hr & ([k q] & (j' & -> & _)%list_elem_of_fmap & Hin)%list_elem_of_bind)%list_elem_of_fmap.
    cbn in Hr. apply Hni, list_elem_of_fmap. exists (k, q). split; [cbn; congruence|done].
  - by apply IH.
Qed.

(** *** Deletions, insertions and rewritings *)

Lemma mapped_row f ids v v' x T :
  mapped f ids v v' -> row v' x = Some T -> exists T0, row v x = Some T0 /\ T = if decide (x.1 ∈ ids) then f x T0 else T0.
Proof.
  intros [Hin Hout] (p' & Hp' & Hx & HT)%row_Some. destruct x as [i j]. cbn [fst snd] in *.
  case_decide as Hi; [|by rewrite Hout in Hp'; [exists T; split; [rewrite <-HT; by apply row_at|]|]].
  destruct (Hin i Hi) as (p & q & Hp & Hq & Hm). assert (q = p') as -> by congruence.
  rewrite (pm_n _ _ _ Hm) in Hx. exists (tuple_at p j). split; [by apply row_at|]. by rewrite <-HT, (pm_rows _ _ _ Hm).
Qed.

Lemma mapped_row_at f ids v v' x T :
  mapped f ids v v' -> row v x = Some T -> row v' x = Some (if decide (x.1 ∈ ids) then f x T else T).
Proof.
  intros [Hin Hout] (p & Hp & Hx & <-)%row_Some. destruct x as [i j]. cbn [fst snd] in *.
  case_decide as Hi; [|by apply row_at; [rewrite Hout|]].
  destruct (Hin i Hi) as (q & p' & Hq & Hp' & Hm). assert (q = p) as -> by congruence.
  rewrite <-(pm_rows _ _ _ Hm) by done. apply row_at; [done|by rewrite (pm_n _ _ _ Hm)].
Qed.

Lemma mapped_kept f ids v v' pg p :
  mapped f ids v v' -> (forall i, i ∈ ids -> on_heap v i) -> (forall x T, f x T = None -> T = None) ->
  v pg = Some p -> exists p', v' pg = Some p' /\ (p' = p \/ heap_page p /\ kept p p').
Proof.
  intros [Hin Hout] Hh Hf Hp. destruct (decide (pg ∈ ids)) as [Hi|Hi]; [|exists p; rewrite Hout by done; by split; [|left]].
  destruct (Hin pg Hi) as (q & p' & Hq & Hp' & Hm). destruct (Hh pg Hi) as (r & Hr & Hpage).
  assert (q = p) as -> by congruence. assert (r = p) as -> by congruence. exists p'. split; [done|]. right. split; [done|].
  split; [apply Hm|by rewrite (pm_n _ _ _ Hm)| |apply Hm].
  intros j Hj. eapply mapped_live; [exact Hm|apply Hf|apply Hpage|done].
Qed.

Lemma insert_first_none ops : (forall pg i, ~ UndoInsert pg i ∈ ops) -> insert_first ops.
Proof. intros Hn l1 pg i l2 ->. destruct (Hn pg i). set_solver. Qed.

(** The row is there and nobody deleted it. *)
Definition undeleted (v : Z -> option Page) (x : Z * Z) : Prop :=
  on_heap v x.1 /\ exists u, row v x = Some (Some u) /\ txn_id_deleted u.1 = 0.

Lemma undeleted_live v x : undeleted v x -> row_live v x.
Proof.
  intros [(p & Hp & Hh) (u & Hu & _)]. exists p. split_and!; [done|done|]. apply row_Some in Hu as (q & Hq & Hx & Hu).
  assert (q = p) as -> by congruence. apply live_tuple; [apply Hh|done|by rewrite Hu].
Qed.

Lemma delete_forward t rids ops v v' :
  mapped (stamp t rids) rids.*1 v v' -> (forall r, r ∈ rids -> row_live v r) ->
  (forall op, op ∈ ops <-> exists r, r ∈ rids /\ op = UndoDelete r.1 r.2) -> forward v v' ops.
Proof.
  intros Hm Hr Hops.
  assert (Hf : forall x T, stamp t rids x T = None -> T = None).
  { intros x T. unfold stamp. case_decide; [|done]. by destruct T. }
  assert (Hh : forall i, i ∈ rids.*1 -> on_heap v i).
  { intros i (r & -> & Hin)%list_elem_of_fmap. destruct (Hr r Hin) as (p & ? & ? & _). by exists p. }
  apply forward_intro.
  - intros pg p Hp. by eapply mapped_kept.
  - intros op (r & Hin & ->)%Hops. destruct (Hr r Hin) as (p & Hp & Hhp & Hl).
    destruct (md_in _ _ _ _ Hm r.1) as (q & p' & Hq & Hp' & Hpm); [by apply list_elem_of_fmap; exists r|].
    assert (q = p) as -> by congruence. exists p'. split_and!; [done|apply Hpm|]. cbn.
    eapply mapped_live; [exact Hpm|apply Hf|apply Hhp|done].
  - apply insert_first_none. intros pg i (r & _ & ?)%Hops. done.
  - intros pg i (r & _ & ?)%Hops. done.
  - intros x T (T0 & HT0 & ->)%(mapped_row _ _ _ _ _ _ Hm) Hn. rewrite HT0. f_equal. unfold stamp. case_decide; [|done].
    rewrite decide_False; [done|]. intros Hin. destruct x as [pg i]. apply (Hn (UndoDelete pg i)); [|done]. apply Hops. by exists (pg, i).
  - intros op x T (r & Hin & ->)%Hops Ht HT. cbn in Ht. injection Ht as <-. rewrite <-surjective_pairing in *.
    apply (mapped_row _ _ _ _ _ _ Hm) in HT as (T0 & HT0 & ->). rewrite HT0.
    rewrite decide_True by (apply list_elem_of_fmap; by exists r).
    rewrite (cleared_drop ops r _ (UndoDelete r.1 r.2)); [|apply Hops; by exists r|by destruct r|intros op (r' & _ & ->)%Hops; by eexists _, _].
    unfold stamp. rewrite decide_True by done. cbn. by destruct T0.
Qed.

Lemma extended_fresh v v' root ps ps' new x :
  heap_chain v root ps -> extended v v' root ps ps' new -> x ∈ new.*1 -> row v x = None.
Proof.
  intros Hc [Hc' Hrs Hmv Hpre Hk] Hx. apply eq_None_not_Some. intros [T HT].
  apply list_elem_of_fmap in Hx as ([y T1] & -> & Hin). cbn [fst] in *. pose proof (chain_locs_nodup ps' (hc_nodup _ _ _ Hc')) as Hnd.
  destruct (decide (y.1 ∈ ps.*1)) as [Hy|Hy].
  - rewrite Hrs, fmap_app in Hnd. apply NoDup_app in Hnd as (_ & Hd & _). apply (Hd y).
    + apply list_elem_of_fmap. exists (y, T). split; [done|]. by apply (chain_row v ps 0); [apply Hc|].
    + apply list_elem_of_fmap. by exists (y, T1).
  - assert (Hy' : (y, T1) ∈ chain_rows ps') by (rewrite Hrs; set_solver).
    apply (chain_row v' ps' 0) in Hy' as [Hy' _]; [|apply Hc']. apply row_Some in HT as (p & Hp & _).
    by rewrite (mv_new _ _ _ _ Hmv) in Hp.
Qed.

Lemma extended_row v v' root ps ps' new x T :
  heap_chain v root ps -> extended v v' root ps ps' new -> row v' x = Some T -> (x, T) ∈ new \/ row v x = Some T.
Proof.
  intros Hc [Hc' Hrs Hmv Hpre Hk] HT. destruct (decide (x.1 ∈ ps'.*1)) as [Hx|Hx].
  - assert (Hin : (x, T) ∈ chain_rows ps') by (by apply (chain_row v' ps' 0); [apply Hc'|]).
    rewrite Hrs in Hin. apply elem_of_app in Hin as [Hin|Hin]; [right|by left].
    apply (chain_row v ps 0) in Hin as [_ ?]; [done|apply Hc].
  - right. unfold row in *. rewrite (mv_keep _ _ _ _ Hmv) in HT; [done| |done]. intros Hp. apply Hx. destruct Hpre as [k ->]. set_solver.
Qed.

Lemma extended_pages v v' root ps ps' new pg p :
  heap_chain v root ps -> extended v v' root ps ps' new ->
  v pg = Some p -> exists p', v' pg = Some p' /\ (p' = p \/ heap_page p /\ kept p p').
Proof.
  intros Hc [Hc' Hrs Hmv Hpre Hk] Hp. destruct (decide (pg ∈ ps.*1)) as [Hin|Hout].
  - apply list_elem_of_fmap in Hin as ([i q] & -> & Hin). destruct (linked_in _ _ _ _ _ (hc_linked _ _ _ Hc) Hin) as (_ & Hq & Hh).
    cbn [fst] in *. assert (q = p) as -> by congruence. destruct (Hk i p Hin) as (p' & Hin' & Hkp).
    destruct (linked_in _ _ _ _ _ (hc_linked _ _ _ Hc') Hin') as (_ & Hp' & _). exists p'. split; [done|by right].
  - exists p. split; [|by left]. rewrite (mv_keep _ _ _ _ Hmv); [done|done|].
    intros Hin'. by rewrite (mv_new _ _ _ _ Hmv) in Hp.
Qed.

Lemma insert_forward v v' root ps ps' new ops :
  heap_chain v root ps -> extended v v' root ps ps' new ->
  ops ≡ₚ (fun x => UndoInsert x.1 x.2) <$> new.*1 -> forward v v' ops.
Proof.
  intros Hc Hex Hops. pose proof Hex as [Hc' Hrs Hmv Hpre Hk].
  assert (Hin : forall op, op ∈ ops -> exists x T, (x, T) ∈ new /\ op = UndoInsert x.1 x.2).
  { intros op. rewrite Hops. intros (x & -> & ([y T] & -> & Hy)%list_elem_of_fmap)%list_elem_of_fmap. by exists y, T. }
  assert (Hrow : forall x T, (x, T) ∈ new -> x.1 ∈ ps'.*1 /\ row v' x = Some T).
  { intros x T Hx. apply (chain_row v' ps' 0); [apply Hc'|]. rewrite Hrs. set_solver. }
  apply forward_intro.
  - intros pg p. by eapply extended_pages.
  - intros op (x & T & Hx & ->)%Hin. destruct (Hrow x T Hx) as [Hp HT]. apply row_Some in HT as (p & Hpg & Hr & _).
    apply list_elem_of_fmap in Hp as ([i q] & Hi & Hq). destruct (linked_in _ _ _ _ _ (hc_linked _ _ _ Hc') Hq) as (_ & Hq' & Hh).
    cbn [fst] in Hi. subst i. assert (q = p) as -> by congruence. exists p. by split_and!.
  - assert (Hnd : NoDup new.*1).
    { pose proof (chain_locs_nodup ps' (hc_nodup _ _ _ Hc')) as Hnd. rewrite Hrs, fmap_app in Hnd. by apply NoDup_app in Hnd as (_ & _ & ?). }
    intros l1 pg i l2 -> op Hop Ht. assert (Hnd' : NoDup (l1 ++ UndoInsert pg i :: l2)).
    { rewrite Hops. apply NoDup_fmap_2; [|done]. intros [a b] [a' b']. cbn. congruence. }
    apply NoDup_app in Hnd' as (_ & Hd & _). apply (Hd op Hop). destruct (Hin op ltac:(set_solver)) as ([a b] & T & _ & ->).
    cbn in Ht. simplify_eq. left.
  - intros pg i (x & T & Hx & Heq)%Hin. destruct x as [a b]. injection Heq as -> ->.
    eapply extended_fresh; [exact Hc|exact Hex|]. apply list_elem_of_fmap. by exists (a, b, T).
  - intros x T HT Hn. destruct (extended_row _ _ _ _ _ _ x T Hc Hex HT) as [Hx|]; [|done]. exfalso.
    apply (Hn (UndoInsert x.1 x.2)); [|by destruct x]. rewrite Hops. apply list_elem_of_fmap. exists x. split; [done|].
    apply list_elem_of_fmap. by exists (x, T).
  - intros op x T (y & T1 & Hy & ->)%Hin Ht HT. cbn in Ht. injection Ht as <-. rewrite <-surjective_pairing in *.
    rewrite (extended_fresh _ _ _ _ _ _ y Hc Hex); [by cbn; rewrite cleared_None|]. apply list_elem_of_fmap. by exists (y, T1).
Qed.

(** The old image of a row is what undoing its rewriting restores. *)
Lemma image_ready p p' pg j :
  heap_page p -> live p j -> settled p p' -> heap_page p' -> live p' j -> undo_ready p' (UndoUpdateInPlace pg j (image_at p j)).
Proof.
  intros [Hw Hm] Hj Hs [Hw' Hm'] Hj'. pose proof (live_image p j Hw Hj) as Hold. pose proof (slice_inv _ _ _ _ Hold) as (_ & _ & _ & Hlo).
  destruct (hw_live _ Hw j Hj) as [Hlow Hal Hlen Hhigh].
  destruct (room_settled p p' j _ Hw Hw' Hs Hj Hj' (own_room p j Hw Hj)) as [Ho Hroom].
  cbn [undo_ready]. split; [done|]. split; [eapply slice_bytes_ok; [apply Hw|exact Hold]|]. split; [split; [lia|]|by rewrite Ho, Hlo].
  pose proof (hw_end _ Hw). pose proof (hw_start _ Hw). pose proof (num_slots_range p Hw). unfold PAGE_SIZE in *. lia.
Qed.

Lemma image_value p pg j T : heap_wf p -> live p j -> undo_value (UndoUpdateInPlace pg j (image_at p j)) T = tuple_at p j.
Proof.
  intros Hw Hj. pose proof (live_image p j Hw Hj) as Hold. pose proof (slice_inv _ _ _ _ Hold) as (_ & _ & _ & Hlo).
  pose proof (lo_len _ _ (hw_live _ Hw j Hj)). cbn [undo_value]. unfold tuple_at. by rewrite (tuple_of_slice _ _ (image_at p j)) by (done || lia || apply Hj).
Qed.

Lemma rewrite_row_none t f l r T : rewrite_row t f l r T = None -> T = None.
Proof. unfold rewrite_row. destruct (_ !! r) as [d|]; [|done]. destruct (f r d); [|done]. by destruct T. Qed.

Lemma rewrite_forward t updates ops v v' :
  mapped (rewrite_row t (fits_in v) updates) updates.*1.*1 v v' -> NoDup updates.*1 -> Forall (fun u => row_live v u.1) updates ->
  (forall op, op ∈ ops <-> exists r d, (r, d) ∈ updates /\ fits_in v r d = true /\ op = UndoUpdateInPlace r.1 r.2 (image_in v r)) ->
  forward v v' ops.
Proof.
  intros Hm Hnd Hlv Hops. rewrite Forall_forall in Hlv.
  assert (Hh : forall i, i ∈ updates.*1.*1 -> on_heap v i).
  { intros i (r & -> & (u & -> & Hu)%list_elem_of_fmap)%list_elem_of_fmap. destruct (Hlv u Hu) as (p & ? & ? & _). by exists p. }
  apply forward_intro.
  - intros pg p Hp. eapply mapped_kept; [exact Hm|done|apply rewrite_row_none|done].
  - intros op (r & d & Hin & _ & ->)%Hops. destruct (Hlv _ Hin) as (p & Hp & Hhp & Hl). cbn [fst] in *.
    destruct (md_in _ _ _ _ Hm r.1) as (q & p' & Hq & Hp' & Hpm).
    { apply list_elem_of_fmap. exists r. split; [done|]. apply list_elem_of_fmap. by exists (r, d). }
    assert (q = p) as -> by congruence. exists p'. split_and!; [done|apply Hpm|]. unfold image_in. rewrite Hp.
    apply image_ready; [done|done|apply Hpm|apply Hpm|]. eapply mapped_live; [exact Hpm|intros T; apply rewrite_row_none|apply Hhp|done].
  - apply insert_first_none. intros pg i (r & d & _ & _ & ?)%Hops. done.
  - intros pg i (r & d & _ & _ & ?)%Hops. done.
  - intros x T (T0 & HT0 & ->)%(mapped_row _ _ _ _ _ _ Hm) Hn. rewrite HT0. f_equal. case_decide; [|done]. unfold rewrite_row.
    destruct (list_to_map updates !! x) as [d|] eqn:Hd; [|done]. destruct (fits_in v x d) eqn:Hfit; [|done]. exfalso.
    apply elem_of_list_to_map in Hd; [|done]. destruct x as [pg i].
    apply (Hn (UndoUpdateInPlace pg i (image_in v (pg, i)))); [|done]. apply Hops. by exists (pg, i), d.
  - intros op x T (r & d & Hin & Hfit & ->)%Hops Ht HT. cbn [target] in Ht. injection Ht as <-. rewrite <-surjective_pairing in *.
    destruct (Hlv _ Hin) as (p & Hp & Hhp & Hl). cbn [fst] in *. rewrite cleared_keep by (intros (r' & d' & _ & _ & ?)%Hops; done).
    unfold image_in. rewrite Hp. rewrite !(image_value p r.1 r.2) by (done || apply Hhp). destruct r as [pg i]. by rewrite (row_at v pg p i Hp (proj1 Hl)).
Qed.

(** ** Chains under undoable changes *)

(** A chain keeps its pages when the links stay. *)
Lemma links_same_chain v v' root ps :
  heap_chain v root ps -> links_same v v' -> exists ps', heap_chain v' root ps' /\ ps'.*1 = ps.*1.
Proof.
  intros [Hr Hne Hnd Hl] Hs.
  assert (exists ps', linked v' ps' 0 /\ ps'.*1 = ps.*1 /\ next_of ps' 0 = next_of ps 0) as (ps' & Hl' & Hids & Hnx).
  { clear Hr Hne Hnd. induction ps as [|[i p] ps IH]; [by exists []|]. destruct Hl as (Hi & Hp & Hh & Hn & Hl).
    destruct (IH Hl) as (ps' & Hl' & Hids & Hnx). specialize (Hs i). rewrite Hp in Hs. destruct (v' i) as [p'|] eqn:Hp'; [|done].
    destruct Hs as [Hres Hh']. exists ((i, p') :: ps'). cbn [linked next_of]. split_and!; [done|done|by apply Hh'| |done|cbn; by f_equal|done].
    rewrite Hnx, <-Hn. apply reserved_next; [apply hw_page, Hh|done]. }
  exists ps'. split; [|done]. split; [by rewrite Hnx|intros ->; by destruct ps|by rewrite Hids|done].
Qed.

Lemma mapped_links f ids v v' : mapped f ids v v' -> links_same v v'.
Proof.
  intros [Hin Hout] pg. destruct (decide (pg ∈ ids)) as [Hi|Hi].
  - destruct (Hin pg Hi) as (p & p' & -> & -> & Hm). split; [apply Hm|]. intros _. apply Hm.
  - rewrite Hout by done. by destruct (v pg).
Qed.

(** A view has one chain from a page. *)
Lemma chain_unique v root ps qs : heap_chain v root ps -> heap_chain v root qs -> ps = qs.
Proof.
  assert (Hl : forall ps qs, linked v ps 0 -> linked v qs 0 -> next_of ps 0 = next_of qs 0 -> ps = qs).
  { clear. induction ps as [|[i p] ps IH]; intros [|[j q] qs]; cbn [linked next_of]; [done| | |].
    - intros _ (Hj & _) <-. unfold page_num in Hj. lia.
    - intros (Hi & _) _ ->. unfold page_num in Hi. lia.
    - intros (_ & Hp & _ & Hn & Hl) (_ & Hq & _ & Hn' & Hl') ->. assert (p = q) as -> by congruence. f_equal.
      apply IH; [done|done|congruence]. }
  intros [R1 _ _ L1] [R2 _ _ L2]. apply Hl; [done|done|congruence].
Qed.

(** [ps'] has the pages of [ps] first, then pages that were not in use. *)
Definition grown (v : Z -> option Page) (ps ps' : list (Z * Page)) : Prop :=
  ps.*1 `prefix_of` ps'.*1 /\ forall i, i ∈ ps'.*1 -> ~ i ∈ ps.*1 -> v i = None.

Lemma same_grown v ps ps' : ps'.*1 = ps.*1 -> grown v ps ps'.
Proof. intros Hids. split; [by rewrite Hids|]. intros i Hi Hn. congruence. Qed.

Lemma extended_grown v v' root ps ps' new : extended v v' root ps ps' new -> grown v ps ps'.
Proof. intros Hex. split; [apply Hex|]. apply (ex_moved _ _ _ _ _ _ Hex). Qed.

Lemma grown_trans v1 v2 ops ps1 ps2 ps3 : forward v1 v2 ops -> grown v1 ps1 ps2 -> grown v2 ps2 ps3 -> grown v1 ps1 ps3.
Proof.
  intros Hf [P1 N1] [P2 N2]. split; [by etrans|]. intros i Hi Hn. destruct (decide (i ∈ ps2.*1)) as [Hi2|Hi2]; [by apply N1|].
  specialize (N2 i Hi Hi2). apply eq_None_not_Some. intros [p Hp]. destruct (fw_pages _ _ _ Hf i p Hp) as (p' & ? & _). congruence.
Qed.

(** A live row stays live. *)
Lemma live_forward v v' ops x : forward v v' ops -> row_live v x -> row_live v' x.
Proof.
  intros Hf (p & Hp & Hh & Hl). destruct (fw_pages _ _ _ Hf _ p Hp) as (p' & Hp' & [->|[_ Hk]]); [by exists p|].
  exists p'. split_and!; [done|apply Hk|by apply Hk].
Qed.

(** Some pages set aside. *)
Definition hide (ids : list Z) (v : Z -> option Page) (i : Z) : option Page := if decide (i ∈ ids) then None else v i.

Lemma row_hide ids v x : row (hide ids v) x = if decide (x.1 ∈ ids) then None else row v x.
Proof. unfold row, hide. by case_decide. Qed.

Lemma forward_hide ids v v' ops :
  forward v v' ops -> (forall op x, op ∈ ops -> target op = Some x -> ~ x.1 ∈ ids) -> forward (hide ids v) (hide ids v') ops.
Proof.
  intros [Hp Hr Hf Hn Hu] Hoff. split; [| |done| |].
  - intros pg p. unfold hide. case_decide; [done|]. apply Hp.
  - intros op Hop. specialize (Hr op Hop). unfold ready in *. destruct (target op) as [[pg i]|] eqn:Ht; [|done].
    unfold hide. rewrite decide_False; [done|]. by apply (Hoff op (pg, i)).
  - intros pg i Hi. rewrite row_hide. case_decide; [done|by apply Hn].
  - intros x T. rewrite !row_hide. case_decide; [done|]. apply Hu.
Qed.

Section Steps.
Context {St : Type} {C : Crc32c} {CR : Crc32cRange C} {E : StorageEngine St} {L : StorageLaws St}.

(** A batch of pages survives changes elsewhere. *)
Lemma batch_survives x st' ops :
  io_wf x -> st_wf st' -> forward (st_page (io_store x)) (st_page st') ops -> io_wf (mkIo (io_batch x) st').
Proof.
  intros [Hwf Hb] Hwf' Hf. split; [done|]. intros b Heq. destruct (Hb b Heq) as [[Hnd Hin] Hnum]. split; [|done]. split; [done|].
  intros i Hi. destruct (Hin i Hi) as [p Hp]. destruct (fw_pages _ _ _ Hf i p Hp) as (p' & Hp' & _). by eexists.
Qed.

(** What a statement does when it succeeds: [ops] undo its changes. *)
Record stepped (root : Z) (s s' : Session St) (ops : list UndoOp) : Prop := {
  sp_wf : io_wf (ss_io s');
  sp_undo : ss_undo s' = ss_undo s ++ ops;
  sp_forward : forward (vw (ss_io s)) (vw (ss_io s')) ops;
  sp_chain : forall ps, heap_chain (vw (ss_io s)) root ps -> exists ps', heap_chain (vw (ss_io s')) root ps' /\ grown (vw (ss_io s)) ps ps'
}.

Lemma stepped_nil root s : io_wf (ss_io s) -> stepped root s s [].
Proof.
  intros Hwf. split; [done|by rewrite app_nil_r|apply forward_nil|]. intros ps Hc. exists ps. split; [done|by apply same_grown].
Qed.

Lemma stepped_trans root s1 s2 s3 ops1 ops2 :
  stepped root s1 s2 ops1 -> stepped root s2 s3 ops2 -> stepped root s1 s3 (ops1 ++ ops2).
Proof.
  intros [W1 U1 F1 C1] [W2 U2 F2 C2]. split; [done|by rewrite U2, U1, app_assoc|by eapply forward_trans|].
  intros ps Hc. destruct (C1 ps Hc) as (ps2 & Hc2 & G1). destruct (C2 ps2 Hc2) as (ps3 & Hc3 & G2).
  exists ps3. split; [done|]. by eapply grown_trans.
Qed.

(** Changes of the pages, and their record. *)
Lemma stepped_logged {A} root (s s' : Session St) x (m : Stmt St unit) entries ops u :
  s_bind m (fun _ => s_ret (u : A)) (set_io s x) = Some (Ok u, s') -> logs m entries ops ->
  io_wf x -> forward (vw (ss_io s)) (vw x) ops ->
  (forall ps, heap_chain (vw (ss_io s)) root ps -> exists ps', heap_chain (vw x) root ps' /\ grown (vw (ss_io s)) ps ps') ->
  stepped root s s' ops.
Proof.
  intros Hm Hl Hwf Hf Hc. destruct (logs_bind m entries ops (fun _ => s_ret u) (set_io s x) Hl) as [next Heq].
  rewrite Heq in Hm. unfold s_ret in Hm. injection Hm as <-. by split.
Qed.
End Steps.

