(* ===== verification/TableRollback.v ===== *)
(** * Rolling back the statements on a heap table

    The statements of TableWrite change the chain of a table and push undo operations; the
    changes are [forward] steps in the sense of Undo, so the undo log of any sequence of
    successful statements takes the table back.  A statement that fails, and a statement
    that runs beside another transaction, may leave changes that nothing undoes. *)

From stdpp Require Import sorting.
From S2P Require Import Prelude SlotBitmap Page FreeList Heap PageRows WalEntry Storage PageIo Undo.
From S2P Require Import ZoneMap HeapChain HeapBatch HeapUpdate TableWrite TableForward.

Create HintDb unbatched.

(** ** Statements *)

Lemma zip_tagged {A B} (f : A -> B) l : zip l (f <$> l) = (fun a => (a, f a)) <$> l.
Proof. induction l as [|a l IH]; [done|]. cbn. by f_equal. Qed.

(** Programs that leave a missing batch missing. *)
Definition unbatched {St A} (m : M St A) : Prop := forall x r x', io_batch x = None -> m x = Some (r, x') -> io_batch x' = None.

Section Unbatched.
Context {St : Type} {C : Crc32c} {E : StorageEngine St}.

Lemma unbatched_bind {A B} (m : M St A) (k : A -> M St B) : unbatched m -> (forall a, unbatched (k a)) -> unbatched (io_bind m k).
Proof.
  intros Hm Hk x r x' Hx. unfold io_bind. destruct (m x) as [[[a|e] x1]|] eqn:Hm1; [| |done].
  - intros Hk1. eapply Hk; [|exact Hk1]. by eapply Hm.
  - intros [= <- <-]. by eapply Hm.
Qed.

Lemma unbatched_same {A} (m : M St A) : (forall x r x', m x = Some (r, x') -> io_batch x' = io_batch x) -> unbatched m.
Proof. intros Hm x r x' Hx Hr. by rewrite (Hm x r x' Hr). Qed.

Lemma unbatched_ret {A} (a : A) : unbatched (io_ret a : M St A).
Proof. apply unbatched_same. by intros x r x' [= _ <-]. Qed.
Lemma unbatched_fail {A} e : unbatched (io_fail e : M St A).
Proof. apply unbatched_same. by intros x r x' [= _ <-]. Qed.
Lemma unbatched_panic {A} : unbatched (io_panic : M St A).
Proof. by intros x r x'. Qed.
Lemma unbatched_read i : unbatched (io_read i : M St Page).
Proof. apply unbatched_same. intros x r x'. unfold io_read. destruct (read_page _ _); [|done]. by intros [= _ <-]. Qed.
Lemma unbatched_write i p : unbatched (io_write i p : M St unit).
Proof. apply unbatched_same. intros x r x'. unfold io_write. destruct (write_page _ _ _) as [[]|]; [|done]. by intros [= _ <-]. Qed.
Lemma unbatched_alloc ty : unbatched (io_alloc ty : M St Z).
Proof. intros x r x' Hx. unfold io_alloc. rewrite Hx. cbn. destruct (alloc_page _ _) as [[]|]; [|done]. by intros [= _ <-]. Qed.

Hint Resolve unbatched_bind unbatched_ret unbatched_fail unbatched_panic unbatched_read unbatched_write unbatched_alloc : unbatched.

Lemma unbatched_load i : unbatched (load_checked i : M St Page).
Proof. apply unbatched_bind; [auto with unbatched|]. intros p. destruct (page_from_bytes p); auto with unbatched. Qed.
Lemma unbatched_link l i : unbatched (insert_link l i : M St unit).
Proof. apply unbatched_bind; [apply unbatched_load|]. auto with unbatched. Qed.
Lemma unbatched_op {A} (r : option (Result A * Page)) : unbatched (page_op r : M St (A * Page)).
Proof. destruct r as [[[a|e] p]|]; cbn; auto with unbatched. Qed.

Hint Resolve unbatched_load unbatched_link unbatched_op : unbatched.

Lemma unbatched_last fuel : forall i, unbatched (last_page_id fuel i : M St Z).
Proof. induction fuel as [|fuel IH]; intros i; cbn [last_page_id]; [auto with unbatched|]. apply unbatched_bind; [auto with unbatched|]. intros p. destruct (_ =? _); auto with unbatched. Qed.

Lemma unbatched_loop t zm rows : forall k l q d, unbatched (batch_loop t zm rows k l q d : M St _).
Proof.
  induction rows as [|row rows IH]; intros k l q d; cbn [batch_loop]; [auto with unbatched|].
  destruct (insert_tuple q row t) as [[[i|e] q']|]; [auto with unbatched| |auto with unbatched].
  destruct e; auto 10 with unbatched.
Qed.

Lemma unbatched_insert fuel root rows t zm : unbatched (insert_batch_with_zm fuel root rows t zm : M St _).
Proof.
  destruct rows as [|row rows]; cbn [insert_batch_with_zm]; [auto with unbatched|].
  apply unbatched_bind; [apply unbatched_last|]. intros l. apply unbatched_bind; [auto with unbatched|]. intros p.
  apply unbatched_bind; [apply unbatched_loop|]. intros r. apply unbatched_bind; [destruct r.2.2; auto with unbatched|auto with unbatched].
Qed.
End Unbatched.

Lemma fst_tagged {A B} (f : A -> B) l : ((fun a => (a, f a)) <$> l).*1 = l.
Proof. induction l as [|a l IH]; [done|]. cbn. by f_equal. Qed.

Section Statements.
Context {St : Type} {C : Crc32c} {CR : Crc32cRange C} {E : StorageEngine St} {L : StorageLaws St} {SI : SetIter}.
Context (own : Z) (active_set : gset Z) (fuel : nat) (table_def : TableDef).
Hypothesis Hact : forall t, t ∈ active_set -> in_u64 t.
Let root := td_root_page_id table_def.

Lemma stmt_txn_ok (s s1 : Session St) t : stmt_txn_id active_set s = Some (Ok t, s1) -> s1 = s /\ in_u64 t.
Proof.
  unfold stmt_txn_id, active_txn_id. destruct (set_first active_set) as [t0|] eqn:Ht; [|done]. intros [= <- <-]. split; [done|].
  by apply Hact, set_first_in.
Qed.

Lemma delete_rows_batch_stepped rids s n s' :
  io_wf (ss_io s) -> (forall r, r ∈ rids -> row_live (vw (ss_io s)) r) ->
  delete_rows_batch own active_set table_def rids s = Some (Ok n, s') -> (exists ops, stepped root s s' ops) /\ links_same (vw (ss_io s)) (vw (ss_io s')).
Proof.
  intros Hwf Hr Hrun. unfold delete_rows_batch in Hrun.
  destruct rids as [|r0 rids0]; [injection Hrun as <- <-; split; [by exists []; apply stepped_nil|apply links_same_refl]|].
  set (rids := r0 :: rids0) in *. apply s_bind_ok in Hrun as (t & s1 & Ht & Hrun). apply stmt_txn_ok in Ht as [-> Ht].
  apply s_bind_ok in Hrun as (deleted & s2 & (x & Hd & ->)%heap_op_ok & Hrun).
  destruct (delete_batch_spec t Ht rids (ss_io s) Hwf) as (sorted & x' & Hp & _ & Hd' & Hwf' & _ & Hm).
  { by apply Forall_forall. }
  rewrite Hd in Hd'. injection Hd' as -> ->. pose proof Hrun as (u & s3 & _ & [= <- _])%s_bind_ok.
  split.
  2:{ destruct (logs_bind _ _ _ (fun _ => s_ret (zlen ((fun r => (r, data_of (vw (ss_io s)) r)) <$> sorted))) (set_io s x')
        (record_delete_batch_logs own (td_id table_def) (group_deletes ((fun r => (r, data_of (vw (ss_io s)) r)) <$> sorted)))) as [next Heq].
      rewrite Heq in Hrun. injection Hrun as <-. by eapply mapped_links. }
  eexists. eapply stepped_logged; [exact Hrun|apply record_delete_batch_logs|done| |].
  - rewrite group_deletes_locs, fst_tagged. eapply delete_forward; [exact Hm|done|]. intros op. rewrite list_elem_of_fmap. setoid_rewrite Hp. naive_solver.
  - intros ps Hc. destruct (links_same_chain _ _ _ _ Hc (mapped_links _ _ _ _ Hm)) as (ps' & Hc' & Hids). exists ps'. split; [done|by apply same_grown].
Qed.

Lemma inserted_locs t rids rows : length rids = length rows -> (inserted_rows t rids rows).*1 = rids.
Proof.
  revert rows. induction rids as [|r rids IH]; intros [|d rows] Hlen; try done. cbn. f_equal. apply IH. by injection Hlen.
Qed.

(** Rows appended to the chain, and the records of their pages. *)
Lemma insert_logged s s' x tid ps ps' t rids rows :
  io_wf x -> heap_chain (vw (ss_io s)) root ps -> length rids = length rows ->
  extended (vw (ss_io s)) (vw x) root ps ps' (inserted_rows t rids rows) ->
  s_bind (record_page_writes own tid (sorted_pages rids)) (fun _ => s_ret rids) (set_io s x) = Some (Ok rids, s') ->
  exists ops, stepped root s s' ops.
Proof.
  intros Hwf Hc Hlen Hex Hrun. eexists. eapply stepped_logged; [exact Hrun|apply record_page_writes_logs|done| |].
  - eapply insert_forward; [exact Hc|exact Hex|]. by rewrite inserted_locs, sorted_pages_locs.
  - intros ps0 Hc0. exists ps'. split; [apply Hex|]. assert (ps0 = ps) as -> by (by eapply chain_unique). by eapply extended_grown.
Qed.

Lemma insert_rows_batch_with_ctx_stepped encoded_rows zm_values s rids s' ps :
  io_wf (ss_io s) -> heap_chain (vw (ss_io s)) root ps -> (length ps <= fuel)%nat -> Forall row_ok encoded_rows -> zm_typed zm_values ->
  insert_rows_batch_with_ctx own active_set fuel table_def encoded_rows zm_values s = Some (Ok rids, s') ->
  exists ops, stepped root s s' ops.
Proof.
  intros Hwf Hc Hf Hrows Hzm Hrun. unfold insert_rows_batch_with_ctx in Hrun.
  destruct encoded_rows as [|d0 rows0]; [injection Hrun as <- <-; by exists []; apply stepped_nil|].
  set (rows := d0 :: rows0) in *. apply s_bind_ok in Hrun as (t & s1 & Ht & Hrun). apply stmt_txn_ok in Ht as [-> Ht].
  apply s_bind_ok in Hrun as (locs & s2 & (x & Hi & ->)%heap_op_ok & Hrun).
  pose proof (insert_batch_spec (R := no_room) root t zm_values Ht Hzm fuel ps rows (ss_io s) Hwf Hc Hrows Hf) as Hw.
  unfold wp in Hw. unfold root in Hw. rewrite Hi in Hw. destruct Hw as (Hwf' & _ & Hlen & ps' & Hex & _).
  pose proof Hrun as (u & s3 & _ & [= <- _])%s_bind_ok. by eapply insert_logged.
Qed.

(** The pages of the batch are in nobody's chain, with or without it. *)
Lemma hide_chain ids v ps : heap_chain v root ps -> (forall i, i ∈ ids -> ~ i ∈ ps.*1) -> heap_chain (hide ids v) root ps.
Proof.
  intros [Hr Hne Hnd Hl] Hd. split; [done..|]. eapply linked_ext; [|exact Hl]. intros i Hi. unfold hide.
  rewrite decide_False; [done|]. intros Hin. by apply (Hd i).
Qed.

Lemma unhide_chain ids v ps : heap_chain (hide ids v) root ps -> heap_chain v root ps /\ forall i, i ∈ ids -> ~ i ∈ ps.*1.
Proof.
  intros [Hr Hne Hnd Hl].
  assert (Hin : forall i, i ∈ ps.*1 -> ~ i ∈ ids).
  { intros i ([j p] & -> & Hi)%list_elem_of_fmap. destruct (linked_in _ _ _ _ _ Hl Hi) as (_ & Hp & _). cbn. unfold hide in Hp. by case_decide. }
  split; [|intros i Hi Hi'; by apply (Hin i)]. split; [done..|]. eapply linked_ext; [|exact Hl]. intros i Hi. unfold hide.
  rewrite decide_False; [done|]. by apply Hin.
Qed.

Lemma hide_extended ids (v v' w w' : Z -> option Page) ps ps' new :
  (forall i, w i = v i) -> (forall i, w' i = v' i) -> heap_chain (hide ids v) root ps -> (forall i, i ∈ ids -> is_Some (v i)) ->
  extended w w' root ps ps' new -> extended (hide ids v) (hide ids v') root ps ps' new.
Proof.
  intros Hw Hw' Hc Hs [Hc' Hrs [M1 M2 M3 M4 M5 M6] Hpre Hk]. destruct (unhide_chain _ _ _ Hc) as [_ Hd].
  assert (Hd' : forall i, i ∈ ids -> ~ i ∈ ps'.*1).
  { intros i Hi Hi'. destruct (decide (i ∈ ps.*1)) as [Hp|Hp]; [by apply (Hd i)|]. destruct (Hs i Hi) as [q Hq]. rewrite <-Hw, M2 in Hq; done. }
  split; [|done| |done|done].
  { apply hide_chain; [|done]. destruct Hc' as [R1 N1 D1 L1]. split; [done..|]. eapply linked_ext; [|exact L1]. intros i _. by rewrite Hw'. }
  unfold hide. split; [| | | |done|done].
  - intros j Hj Hj'. case_decide; [done|]. rewrite <-Hw, <-Hw'. by apply M1.
  - intros j Hj Hj'. case_decide; [done|]. rewrite <-Hw. by apply M2.
  - intros j Hj Hj'. case_decide; [done|]. rewrite <-Hw'. by apply M3.
  - intros j Hj. rewrite decide_False; [rewrite <-Hw'; by apply M4|]. intros Hi. by apply (Hd' j).
Qed.

Lemma insert_rows_batch_stepped encoded_rows s rids s' ps :
  io_wf (ss_io s) -> heap_chain (vw (ss_io s)) root ps -> (length ps <= fuel)%nat -> Forall row_ok encoded_rows ->
  insert_rows_batch own active_set fuel table_def encoded_rows s = Some (Ok rids, s') -> exists ops, stepped root s s' ops.
Proof.
  intros Hwf Hc Hf Hrows Hrun. unfold insert_rows_batch in Hrun.
  destruct encoded_rows as [|d0 rows0]; [injection Hrun as <- <-; by exists []; apply stepped_nil|].
  set (rows := d0 :: rows0) in *. apply s_bind_ok in Hrun as (t & s1 & Ht & Hrun). apply stmt_txn_ok in Ht as [-> Ht].
  apply s_bind_ok in Hrun as (locs & s2 & (x & Hi & ->)%heap_op_ok & Hrun). unfold insert_batch in Hi.
  pose proof Hrun as (u & s3 & _ & [= <- _])%s_bind_ok.
  assert (Hx : io_wf x /\ length locs = length rows /\
    exists ps', extended (vw (ss_io s)) (vw x) root ps ps' (inserted_rows t locs rows));
    [|destruct Hx as (Hwf' & Hlen & ps' & Hex); by eapply insert_logged].
  clear Hrun. unfold without_batch in Hi. set (x0 := mkIo None (io_store (ss_io s))) in *.
  assert (Hwf0 : io_wf x0) by (split; [apply Hwf|done]).
  assert (Hc0 : heap_chain (vw x0) root ps).
  { apply (hide_chain []); [by apply (unhide_chain _ _ _ Hc)|]. by intros i ?%not_elem_of_nil. }
  pose proof (insert_batch_spec (R := no_room) root t [] Ht ltac:(by constructor) fuel ps rows x0 Hwf0 Hc0 Hrows Hf) as Hw.
  unfold wp in Hw. unfold root in Hw. destruct (insert_batch_with_zm fuel (td_root_page_id table_def) rows t [] x0) as [[[r|e] x1]|] eqn:Hx1; [|done|done].
  pose proof (unbatched_insert _ _ _ _ _ x0 _ _ eq_refl Hx1) as Hb1. cbn in Hi. injection Hi as -> <-.
  destruct Hw as (Hwf' & _ & Hlen & ps' & Hex & _).
  assert (Hn : forall (y : Io St) i, io_batch y = None -> vw y i = st_page (io_store y) i).
  { intros y i Hy. unfold vw. by rewrite Hy. }
  split; [|split; [done|exists ps'; apply (hide_extended (batch_pages (io_batch (ss_io s))) (st_page (io_store (ss_io s))) (st_page (io_store x1)) (vw x0) (vw x1)); [| |exact Hc| |exact Hex]]].
  - split; [apply Hwf'|]. intros b Hb. destruct (iw_batch _ Hwf b Hb) as [[Hnd Hin] Hnum]. split; [|done]. split; [done|]. intros i Hi.
    destruct (Hin i Hi) as [p Hp]. destruct (extended_pages _ _ _ _ _ _ i p Hc0 Hex) as (p' & Hp' & _); [by rewrite Hn|].
    rewrite Hn in Hp' by done. by eexists.
  - intros i. by apply (Hn x0).
  - intros i. by apply Hn.
  - intros i Hi. destruct (io_batch (ss_io s)) as [b|] eqn:Hb; [|by apply not_elem_of_nil in Hi].
    by apply (iw_batch _ Hwf b Hb).
Qed.

Lemma update_rows_batch_stepped rids encoded_rows s n s' ps :
  io_wf (ss_io s) -> heap_chain (vw (ss_io s)) root ps -> (length ps <= fuel)%nat -> Forall row_ok encoded_rows ->
  (forall r, r ∈ rids -> row_live (vw (ss_io s)) r) ->
  update_rows_batch own active_set fuel table_def rids encoded_rows s = Some (Ok n, s') -> exists ops, stepped root s s' ops.
Proof.
  intros Hwf Hc Hf Hrows Hr Hrun. unfold update_rows_batch in Hrun.
  destruct rids as [|r0 rids0]; [injection Hrun as <- <-; by exists []; apply stepped_nil|]. set (rids := r0 :: rids0) in *.
  apply s_bind_ok in Hrun as (n1 & s1 & Hd & Hrun). destruct (delete_rows_batch_stepped _ _ _ _ Hwf Hr Hd) as [[ops1 H1] Hlk].
  apply s_bind_ok in Hrun as (locs & s2 & Hi & [= _ <-]). destruct (links_same_chain _ _ _ _ Hc Hlk) as (ps1 & Hc1 & Hids).
  destruct (insert_rows_batch_stepped _ _ _ _ _ (sp_wf _ _ _ _ H1) Hc1 ltac:(by rewrite <-(length_fmap fst), Hids, length_fmap) Hrows Hi) as [ops2 H2].
  exists (ops1 ++ ops2). by eapply stepped_trans.
Qed.

(** *** One row *)

(** The hint of the session names a page of the table, or another table. *)
Definition hint_in (ps : list (Z * Page)) (hint : option HeapAppendHint) : Prop :=
  forall h, hint = Some h -> 0 <= hint_tail_page_id h /\ (hint_root_page_id h = root -> hint_tail_page_id h ∈ ps.*1).

Lemma hint_in_ok (x : Io St) ps hint : hint_in ps hint -> hint_ok x root ps hint.
Proof. intros Hh h p Heq. destruct (Hh h Heq) as [H0 H1]. split; [done|]. intros Hr _ _. by apply H1. Qed.

Lemma hint_in_grown v ps ps' hint : grown v ps ps' -> hint_in ps hint -> hint_in ps' hint.
Proof.
  intros [[k Hk] _] Hh h Heq. destruct (Hh h Heq) as [H0 H1]. split; [done|]. intros Hr. rewrite Hk. apply elem_of_app. left. by apply H1.
Qed.

Lemma new_row_grown (s s' : Session St) x r t d ps ps' :
  io_wf x -> heap_chain (vw (ss_io s)) root ps -> extended (vw (ss_io s)) (vw x) root ps ps' [(r, new_tuple t d)] ->
  ss_io s' = x -> ss_undo s' = ss_undo s ++ [UndoInsert r.1 r.2] ->
  stepped root s s' [UndoInsert r.1 r.2] /\ r.1 ∈ ps'.*1 /\ row (vw (ss_io s)) r = None.
Proof.
  intros Hwf Hc Hex Hx Hu. split_and!.
  - rewrite <-Hx in *. split; [done|done|eapply insert_forward; [exact Hc|exact Hex|done]|].
    intros ps0 Hc0. exists ps'. split; [apply Hex|]. assert (ps0 = ps) as -> by (by eapply chain_unique). by eapply extended_grown.
  - assert (Hin : (r, new_tuple t d) ∈ chain_rows ps') by (rewrite (ex_rows _ _ _ _ _ _ Hex); set_solver).
    apply (chain_row (vw x) ps' 0) in Hin as [? _]; [done|]. apply (ex_chain _ _ _ _ _ _ Hex).
  - eapply extended_fresh; [exact Hc|exact Hex|]. cbn. set_solver.
Qed.

(** An insertion at the tail, with its record. *)
Lemma insert_hint_logged s s1 s' tid key t d hint r ps u :
  io_wf (ss_io s) -> heap_chain (vw (ss_io s)) root ps -> (length ps <= fuel)%nat -> row_ok d -> in_u64 t -> hint_in ps hint ->
  insert_hint_op fuel table_def d t hint s = Some (Ok r, s1) ->
  log_change (record_insert own tid key d r.1.1 r.1.2) s1 = Some (Ok u, s') ->
  stepped root s s' [UndoInsert r.1.1 r.1.2] /\ row (vw (ss_io s)) r.1 = None /\
  exists ps', heap_chain (vw (ss_io s')) root ps' /\ grown (vw (ss_io s)) ps ps' /\ (length ps' <= length ps + 1)%nat /\ hint_in ps' r.2.
Proof.
  intros Hwf Hc Hf Hrow Ht Hh Hi Hlog. unfold insert_hint_op in Hi.
  pose proof (insert_with_hint_spec (R := no_room) fuel root ps d t hint (ss_io s) Hwf Hc Hrow Ht (hint_in_ok _ _ _ Hh) Hf) as Hw.
  unfold root in Hw. destruct (insert_with_hint _ _ _ _ _ _) as [[[[rid|e] hint'] x]|]; [|done|done]. injection Hi as <- <-. cbn [fst snd] in *.
  destruct Hw as (Hwf' & Hh' & ps' & Hex & Hlen & _). destruct (logs_run _ _ _ _ _ _ (log_change_logs _) Hlog) as (Hx & Hu & _).
  cbn [record_insert snd set_io ss_undo ss_io] in Hx, Hu. destruct (new_row_grown s s' x rid t d ps ps' Hwf' Hc Hex Hx Hu) as (Hst & Hin & Hnone).
  split; [done|]. split; [done|]. exists ps'. split_and!; [rewrite Hx; apply Hex|by eapply extended_grown|done|].
  subst hint'. destruct hint as [h|]; [|done]. intros h' [= <-]. cbn. split; [|done].
  pose proof (mv_num _ _ _ _ (ex_moved _ _ _ _ _ _ Hex)) as Hnum. rewrite Forall_forall in Hnum. specialize (Hnum _ Hin). unfold page_num in Hnum. lia.
Qed.

Lemma insert_row_with_ctx_stepped encoded hint s r s' ps :
  io_wf (ss_io s) -> heap_chain (vw (ss_io s)) root ps -> (length ps <= fuel)%nat -> row_ok encoded -> hint_in ps hint ->
  insert_row_with_ctx own active_set fuel table_def encoded hint s = Some (Ok r, s') -> exists ops, stepped root s s' ops.
Proof.
  intros Hwf Hc Hf Hrow Hh Hrun. unfold insert_row_with_ctx in Hrun.
  apply s_bind_ok in Hrun as (t & s1 & Ht & Hrun). apply stmt_txn_ok in Ht as [-> Ht].
  apply s_bind_ok in Hrun as ([rid hint'] & s1 & Hi & Hrun). apply s_bind_ok in Hrun as (u & s2 & Hlog & [= _ <-]).
  eexists. by eapply insert_hint_logged.
Qed.

Lemma chain_delete_logged s s1 s' tid key old r t u v :
  io_wf (ss_io s) -> row_live (vw (ss_io s)) r -> in_u64 t ->
  store_op (fun st => chain_delete st r.1 r.2 t) s = Some (Ok u, s1) ->
  log_change (record_delete own tid key old r.1 r.2) s1 = Some (Ok v, s') ->
  stepped root s s' [UndoDelete r.1 r.2] /\ links_same (vw (ss_io s)) (vw (ss_io s')).
Proof.
  intros Hwf Hr Ht Hd Hlog. unfold store_op in Hd. set (st := io_store (ss_io s)) in *.
  destruct (chain_delete st r.1 r.2 t) as [[[u'|e] st']|] eqn:Hcd; [|done|done]. injection Hd as -> <-.
  destruct (logs_run _ _ _ _ _ _ (log_change_logs _) Hlog) as (Hx & Hu & _). cbn [record_delete snd set_io ss_undo ss_io] in Hx, Hu.
  destruct Hr as (p & Hp & Hh & Hl). apply vw_Some in Hp as [Hnb Hp]. fold st in Hp.
  pose proof (delete_changed st t r.1 r.2 (Ok (Some (UndoDelete r.1 r.2))) st' (iw_store _ Hwf)) as Hch. cbn [do_action] in Hch.
  rewrite Hcd in Hch. destruct Hch as (y & Hch); [by split; [|split; [by exists p|apply Hl]]|done|].
  assert (y = r) as -> by (rewrite (ch_slot _ _ _ _ _ Hch); by destruct r).
  assert (Hfw : forward (st_page st) (st_page st') [UndoDelete r.1 r.2]).
  { by eapply changed_forward. }
  assert (Hlk : links_same (vw (ss_io s)) (vw (ss_io s'))).
  { destruct (ch_moved _ _ _ _ _ Hch) as [w' Hmv]. rewrite Hx. intros pg. unfold vw. cbn [io_batch io_store]. case_decide; [done|]. by apply (set_row_links _ _ _ _ Hmv). }
  split; [|done]. split; [| |rewrite Hx; apply forward_hide; [done|]|].
  - rewrite Hx. eapply batch_survives; [done|apply Hch|exact Hfw].
  - done.
  - intros op x ->%list_elem_of_singleton [= <-]. done.
  - intros ps Hc. destruct (links_same_chain _ _ _ _ Hc Hlk) as (ps' & Hc' & Hids). exists ps'. split; [done|by apply same_grown].
Qed.

Lemma read_row_same pg i (x x' : Io St) r : read_row pg i x = Some (r, x') -> x' = x.
Proof.
  unfold read_row, load_checked, io_bind, io_read. destruct (read_page _ _) as [[p|e]|]; [|by intros [= _ <-]|done].
  destruct (page_from_bytes p) as [q|e]; cbn; [|by intros [= _ <-]].
  destruct (read_tuple q i) as [[u|e]|]; cbn; [by intros [= _ <-]|by intros [= _ <-]|done].
Qed.

(** An insertion without a hint, with its record. *)
Lemma insert_chain_logged s s1 s' tid key t d r ps u :
  io_wf (ss_io s) -> heap_chain (vw (ss_io s)) root ps -> (length ps <= fuel)%nat -> row_ok d -> in_u64 t ->
  heap_op (chain_insert fuel root d t) s = Some (Ok r, s1) ->
  log_change (record_insert own tid key d r.1 r.2) s1 = Some (Ok u, s') ->
  stepped root s s' [UndoInsert r.1 r.2] /\ row (vw (ss_io s)) r = None /\
  exists ps', heap_chain (vw (ss_io s')) root ps' /\ grown (vw (ss_io s)) ps ps' /\ (length ps' <= length ps + 1)%nat.
Proof.
  intros Hwf Hc Hf Hrow Ht (x & Hi & ->)%heap_op_ok Hlog.
  pose proof (chain_insert_spec (R := no_room) fuel root ps d t (ss_io s) Hwf Hc Hrow Ht Hf) as Hw. unfold wp in Hw. rewrite Hi in Hw.
  destruct Hw as (Hwf' & _ & ps' & Hex & Hlen). destruct (logs_run _ _ _ _ _ _ (log_change_logs _) Hlog) as (Hx & Hu & _).
  cbn [record_insert snd set_io ss_undo ss_io] in Hx, Hu. destruct (new_row_grown s s' x r t d ps ps' Hwf' Hc Hex Hx Hu) as (Hst & Hin & Hnone).
  split; [done|]. split; [done|]. exists ps'. split_and!; [rewrite Hx; apply Hex|by eapply extended_grown|done].
Qed.

(** Both insertions of an update. *)
Lemma insert_again_logged s s1 s' tid key t d hint r ps u :
  io_wf (ss_io s) -> heap_chain (vw (ss_io s)) root ps -> (length ps <= fuel)%nat -> row_ok d -> in_u64 t -> hint_in ps hint ->
  (match hint with
   | Some _ => insert_hint_op fuel table_def d t hint
   | None => stmt! rid := heap_op (chain_insert fuel root d t) in s_ret (rid, None)
   end) s = Some (Ok r, s1) ->
  log_change (record_insert own tid key d r.1.1 r.1.2) s1 = Some (Ok u, s') ->
  stepped root s s' [UndoInsert r.1.1 r.1.2] /\ row (vw (ss_io s)) r.1 = None /\
  exists ps', heap_chain (vw (ss_io s')) root ps' /\ grown (vw (ss_io s)) ps ps' /\ (length ps' <= length ps + 1)%nat /\ hint_in ps' r.2.
Proof.
  intros Hwf Hc Hf Hrow Ht Hh Hi Hlog. destruct hint as [h|]; [by eapply insert_hint_logged|].
  apply s_bind_ok in Hi as (rid & s2 & Hi & [= <- <-]). cbn [fst snd] in *.
  destruct (insert_chain_logged s s2 s' tid key t d rid ps u Hwf Hc Hf Hrow Ht Hi Hlog) as (Hst & Hn & ps' & ? & ? & ?).
  split; [done|]. split; [done|]. exists ps'. by split_and!.
Qed.

Lemma update_row_stepped r d hint s res s' ps :
  io_wf (ss_io s) -> heap_chain (vw (ss_io s)) root ps -> (length ps <= fuel)%nat -> row_ok d -> row_live (vw (ss_io s)) r -> hint_in ps hint ->
  update_encoded_row_with_hint own active_set fuel table_def r d hint s = Some (Ok res, s') ->
  stepped root s s' [UndoDelete r.1 r.2; UndoInsert res.1.1 res.1.2] /\ row (vw (ss_io s)) res.1 = None /\
  exists ps', heap_chain (vw (ss_io s')) root ps' /\ grown (vw (ss_io s)) ps ps' /\ (length ps' <= length ps + 1)%nat /\ hint_in ps' res.2.
Proof.
  intros Hwf Hc Hf Hrow Hr Hh Hrun. unfold update_encoded_row_with_hint in Hrun.
  apply s_bind_ok in Hrun as (old & s1 & (x1 & Hread%read_row_same & ->)%heap_op_ok & Hrun). subst x1.
  assert (set_io s (ss_io s) = s) as Hs by (by destruct s). rewrite Hs in Hrun.
  destruct old as [old|]; [|done]. apply s_bind_ok in Hrun as (t & s1 & Ht & Hrun). apply stmt_txn_ok in Ht as [-> Ht].
  apply s_bind_ok in Hrun as (u1 & s1 & Hd & Hrun). apply s_bind_ok in Hrun as (u2 & s2 & Hlog1 & Hrun).
  apply s_bind_ok in Hrun as (r' & s3 & Hi & Hrun). apply s_bind_ok in Hrun as (u3 & s4 & Hlog2 & [= <- <-]).
  destruct (chain_delete_logged _ _ _ _ _ _ _ _ _ _ Hwf Hr Ht Hd Hlog1) as [H1 Hlk].
  destruct (links_same_chain _ _ _ _ Hc Hlk) as (ps1 & Hc1 & Hids).
  assert (Hlen1 : length ps1 = length ps) by (by rewrite <-(length_fmap fst), Hids, length_fmap).
  destruct (insert_again_logged s2 s3 s4 (td_id table_def) (encode_physical_loc r'.1.1 r'.1.2) t d hint r' ps1 u3 (sp_wf _ _ _ _ H1) Hc1 ltac:(lia) Hrow Ht) as (H2 & Hn & ps2 & Hc2 & Hg2 & Hlen2 & Hh2);
    [by eapply hint_in_grown; [eapply (same_grown (vw (ss_io s)))|]|done|done|].
  pose proof (stepped_trans _ _ _ _ _ _ H1 H2) as H12. split; [done|].
  assert (Hn0 : row (vw (ss_io s)) r'.1 = None).
  { apply eq_None_not_Some. intros Hs1. destruct (forward_exists _ _ _ r'.1 (sp_forward _ _ _ _ H1) Hs1). congruence. }
  split; [done|]. exists ps2. split_and!; [done| |lia|done].
  destruct (sp_chain _ _ _ _ H12 ps Hc) as (ps2' & Hc2' & Hg). by assert (ps2' = ps2) as -> by (by eapply chain_unique).
Qed.

(** *** Rows rewritten in place *)

(** The undo operations of the rows rewritten, in the order of the statement. *)
Definition pending (prepared : list ((Z * Z) * bytes)) (results : list (option bytes)) : list UndoOp :=
  omap (fun ur => UndoUpdateInPlace ur.1.1.1 ur.1.1.2 <$> ur.2) (zip prepared results).

Lemma pending_target prepared results op :
  op ∈ pending prepared results -> exists u img, u ∈ prepared /\ op = UndoUpdateInPlace u.1.1 u.1.2 img.
Proof.
  intros ([u [img|]] & Hin & Heq)%list_elem_of_omap; [|done]. injection Heq as <-. exists u, img. split; [|done].
  by apply elem_of_zip_l in Hin.
Qed.

(** Rows to be moved: those the rewriting left. *)
Definition movable (v : Z -> option Page) (prepared : list ((Z * Z) * bytes)) (results : list (option bytes)) : Prop :=
  forall r d, (r, d, None) ∈ zip prepared results -> row_ok d /\ row_live v r.

(** A row that is moved is none of those rewritten, nor is its new place. *)
Lemma moved_disjoint v logged prepared results r r' :
  (forall op, op ∈ logged ++ pending prepared results -> ready v op) -> ~ r ∈ prepared.*1 -> row v r' = None ->
  forall op op' x, op ∈ pending prepared results -> op' ∈ [UndoDelete r.1 r.2; UndoInsert r'.1 r'.2] -> target op = Some x -> target op' ≠ Some x.
Proof.
  intros Hrd Hni Hn op op' x Hop Hop' Htx Htx'. pose proof (pending_target _ _ _ Hop) as (u & img & Hu & ->). injection Htx as <-.
  assert (Hs : is_Some (row v (u.1.1, u.1.2))) by (eapply ready_row; [apply Hrd, elem_of_app; right; exact Hop|done]).
  apply elem_of_cons in Hop' as [-> | ->%list_elem_of_singleton]; cbn in Htx'; rewrite <-!surjective_pairing in *; injection Htx' as Heq.
  - apply Hni. rewrite Heq. apply list_elem_of_fmap. by exists u.
  - rewrite <-Heq, Hn in Hs. by destruct Hs.
Qed.

Lemma movable_forward v v' ops prepared results : forward v v' ops -> movable v prepared results -> movable v' prepared results.
Proof. intros Hf Hmv x d Hin. destruct (Hmv x d Hin) as [Hrow Hl]. split; [done|by eapply live_forward]. Qed.

Lemma preserve_loop_spec t prepared : forall results stable hint s r s' ps v logged,
  io_wf (ss_io s) -> heap_chain (vw (ss_io s)) root ps -> (length ps + length prepared <= fuel)%nat -> hint_in ps hint ->
  NoDup prepared.*1 -> length results = length prepared ->
  forward v (vw (ss_io s)) (logged ++ (image_undo <$> stable) ++ pending prepared results) ->
  movable (vw (ss_io s)) prepared results ->
  preserve_loop own active_set fuel table_def t prepared results stable hint s = Some (Ok r, s') ->
  exists ops ps', ss_undo s' = ss_undo s ++ ops /\ io_wf (ss_io s') /\ forward v (vw (ss_io s')) (logged ++ ops) /\
    heap_chain (vw (ss_io s')) root ps' /\ grown (vw (ss_io s)) ps ps'.
Proof.
  induction prepared as [|[rid d] prepared IH]; intros [|res results] stable hint s r s' ps v logged Hwf Hc Hf Hh Hnd Hlen Hfw Hmv Hrun; try done.
  - cbn [preserve_loop] in Hrun. apply s_bind_ok in Hrun as (u & s1 & Hlog & [= _ <-]).
    destruct (record_update_batch_logs (St := St) own (td_id table_def) stable) as [en Hl].
    destruct (logs_run _ _ _ _ _ _ Hl Hlog) as (Hx & Hu & _). rewrite Hx. exists (image_undo <$> stable), ps.
    cbn in Hfw. rewrite app_nil_r in Hfw. split_and!; [done|done|done|done|by apply same_grown].
  - rewrite fmap_cons in Hnd. apply NoDup_cons in Hnd as [Hni Hnd]. injection Hlen as Hlen. cbn [length] in Hf.
    assert (Hmv' : movable (vw (ss_io s)) prepared results) by (intros r' d' Hin; apply Hmv; by right).
    destruct res as [old|]; cbn [preserve_loop] in Hrun.
    + destruct (build_in_place_tuple_image old d t) as [new_image|e]; [|done].
      apply s_bind_ok in Hrun as (r1 & s1 & Hrec & [= _ <-]).
      apply (IH results (stable ++ [(encode_physical_loc rid.1 rid.2, old, new_image, rid)]) hint s r1 s1 ps v logged); try done; [lia|].
      rewrite fmap_app, <-app_assoc. exact Hfw.
    + apply s_bind_ok in Hrun as (u & s1 & Hlog & Hrun). apply s_bind_ok in Hrun as (w & s2 & Hup & Hrun).
      apply s_bind_ok in Hrun as (r1 & s3 & Hrec & [= _ <-]).
      destruct (record_update_batch_logs (St := St) own (td_id table_def) stable) as [en Hl].
      destruct (logs_run _ _ _ _ _ _ Hl Hlog) as (Hx & Hu & _). rewrite <-Hx in *. rewrite app_assoc in Hfw.
      destruct (Hmv rid d) as [Hrow Hr]; [left|].
      destruct (update_row_stepped rid d hint s1 w s2 ps Hwf Hc ltac:(lia) Hrow Hr Hh Hup) as (H1 & Hn & ps1 & Hc1 & Hg1 & Hlen1 & Hh1).
      pose proof (forward_trans _ _ _ _ _ Hfw (sp_forward _ _ _ _ H1)) as Hfw2. rewrite <-app_assoc in Hfw2.
      apply forward_swap in Hfw2; [|by apply (moved_disjoint (vw (ss_io s1)) (logged ++ (image_undo <$> stable)) prepared results); [exact (fw_ready _ _ _ Hfw)| |]].
      destruct (IH results [] w.2 s2 r1 s3 ps1 v (logged ++ (image_undo <$> stable) ++ [UndoDelete rid.1 rid.2; UndoInsert w.1.1 w.1.2]))
        as (ops & ps' & Hu3 & Hwf3 & Hfw3 & Hc3 & Hg3); [apply H1|done|lia|done|done|done| | |done|].
      * rewrite <-!app_assoc in Hfw2. rewrite <-!app_assoc. exact Hfw2.
      * eapply movable_forward; [apply H1|done].
      * exists ((image_undo <$> stable) ++ [UndoDelete rid.1 rid.2; UndoInsert w.1.1 w.1.2] ++ ops), ps'.
        split_and!; [by rewrite Hu3, (sp_undo _ _ _ _ H1), Hu, <-!app_assoc|done| |done|by eapply grown_trans; [apply H1| |]].
        rewrite <-!app_assoc in Hfw3. exact Hfw3.
Qed.

Lemma apply_prepared_stepped prepared hint s r s' ps :
  io_wf (ss_io s) -> heap_chain (vw (ss_io s)) root ps -> (length ps + length prepared <= fuel)%nat -> hint_in ps hint ->
  NoDup prepared.*1 -> (forall x d, (x, d) ∈ prepared -> row_ok d /\ row_live (vw (ss_io s)) x) ->
  apply_prepared_updates_preserve_rid own active_set fuel table_def prepared hint s = Some (Ok r, s') ->
  exists ops, stepped root s s' ops.
Proof.
  intros Hwf Hc Hf Hh Hnd Hr Hrun. unfold apply_prepared_updates_preserve_rid in Hrun.
  destruct prepared as [|u0 us]; [injection Hrun as <- <-; by exists []; apply stepped_nil|]. set (prepared := u0 :: us) in *.
  apply s_bind_ok in Hrun as (t & s1 & Ht & Hrun). apply stmt_txn_ok in Ht as [-> Ht].
  apply s_bind_ok in Hrun as (results & s1 & (x & Hrw & ->)%heap_op_ok & Hrun).
  destruct (rewrite_batch_spec t Ht prepared (ss_io s) Hwf Hnd) as (x' & Hrw' & Hwf' & _ & Hm).
  { apply Forall_forall. intros [y d] Hin. destruct (Hr y d Hin) as [Hrow Hu]. split; [done|].
    split; [apply Hrow|by apply row_ok_len]. }
  rewrite Hrw in Hrw'. injection Hrw' as -> ->. 
  destruct (links_same_chain _ _ _ _ Hc (mapped_links _ _ _ _ Hm)) as (ps1 & Hc1 & Hids).
  assert (Hlen1 : length ps1 = length ps) by (by rewrite <-(length_fmap fst), Hids, length_fmap).
  assert (Hops : forall op, op ∈ pending prepared (upd_value (fits_in (vw (ss_io s))) (image_in (vw (ss_io s))) <$> prepared) <->
    exists y d, (y, d) ∈ prepared /\ fits_in (vw (ss_io s)) y d = true /\ op = UndoUpdateInPlace y.1 y.2 (image_in (vw (ss_io s)) y)).
  { intros op. unfold pending. rewrite zip_tagged, list_elem_of_omap. setoid_rewrite list_elem_of_fmap. split.
    - intros (z & ([y d] & -> & Hin) & Heq). cbn in Heq. unfold upd_value in Heq. cbn in Heq. destruct (fits_in _ y d) eqn:Hfit; [|done].
      injection Heq as <-. by exists y, d.
    - intros (y & d & Hin & Hfit & ->). eexists. split; [by exists (y, d)|]. cbn. unfold upd_value. cbn. by rewrite Hfit. }
  pose proof (rewrite_forward t prepared _ _ _ Hm Hnd ltac:(apply Forall_forall; intros [y d] Hin; by apply (Hr y d)) Hops) as Hfw.
  destruct (preserve_loop_spec t prepared (upd_value (fits_in (vw (ss_io s))) (image_in (vw (ss_io s))) <$> prepared) [] hint (set_io s x') r s' ps1 (vw (ss_io s)) [] Hwf' Hc1 ltac:(lia)
    ltac:(by eapply hint_in_grown; [eapply (same_grown (vw (ss_io s)))|]) Hnd ltac:(by rewrite length_fmap) Hfw) as (ops & ps' & Hu & Hwf2 & Hfw2 & Hc2 & Hg2); [|done|].
  - intros y d Hin. rewrite zip_tagged in Hin. apply list_elem_of_fmap in Hin as ([y' d'] & Heq & Hin). injection Heq as -> -> Hnf.
    destruct (Hr y' d' Hin) as [Hrow Hun]. split; [done|]. by eapply live_forward.
  - exists ops. split; [done|done|done|]. intros ps0 Hc0. assert (ps0 = ps) as -> by (by eapply chain_unique). exists ps'. split; [done|].
    eapply grown_trans; [exact Hfw|by apply same_grown|done].
Qed.
End Statements.

(** ** Transactions *)

(** The rows of a chain without the dead slots. *)
Definition live_rows (ps : list (Z * Page)) : list (Z * Z * Tuple) := filter (fun r => r.2 ≠ None) (chain_rows ps).

Lemma live_rows_visible snap ps : omap (visible_of snap) (live_rows ps) = omap (visible_of snap) (chain_rows ps).
Proof.
  unfold live_rows. induction (chain_rows ps) as [|[x T] rs IH]; [done|]. rewrite filter_cons. cbn [snd].
  destruct T as [[h d]|]; [rewrite decide_True by done|rewrite decide_False by tauto]; cbn; [by rewrite IH|done].
Qed.

Lemma filter_all_out {A} (P : A -> Prop) `{!forall x, Decision (P x)} l : (forall a, a ∈ l -> ~ P a) -> filter P l = [].
Proof.
  induction l as [|a l IH]; intros Hn; [done|]. rewrite filter_cons, decide_False by (apply Hn; left). apply IH. intros b Hb. apply Hn. by right.
Qed.

(** Rows whose contents are back, up to the stamps that [ops] cleared: new rows are dead. *)
Definition restored (ops : list UndoOp) (v v' : Z -> option Page) : Prop :=
  (forall x T, row v' x = Some T -> T = cleared ops x (default None (row v x))) /\ (forall x, is_Some (row v x) -> is_Some (row v' x)).

Definition clear_row (ops : list UndoOp) (r : Z * Z * Tuple) : Z * Z * Tuple := (r.1, cleared ops r.1 r.2).

Lemma clear_row_live ops (l : list (Z * Z * Tuple)) :
  filter (fun r => r.2 ≠ None) (clear_row ops <$> l) = clear_row ops <$> filter (fun r => r.2 ≠ None) l.
Proof.
  induction l as [|[x T] l IH]; [done|]. rewrite fmap_cons, !filter_cons. unfold clear_row at 1. cbn [fst snd].
  assert (Hiff : cleared ops x T ≠ None <-> T ≠ None).
  { destruct (cleared_cases ops x T) as [-> | ->]; [done|]. by destruct T. }
  destruct (decide (T ≠ None)) as [HT|HT].
  - rewrite decide_True by (by apply Hiff). by rewrite fmap_cons, IH.
  - rewrite decide_False by (by rewrite Hiff). exact IH.
Qed.

Lemma restored_page ops v v' i p p' :
  restored ops v v' -> v i = Some p -> v' i = Some p' -> heap_wf p -> heap_wf p' ->
  filter (fun r => r.2 ≠ None) (page_rows i p') = clear_row ops <$> filter (fun r => r.2 ≠ None) (page_rows i p).
Proof.
  intros [Hv Hs] Hp Hp' Hw Hw'. pose proof (num_slots_range p Hw) as Hn. pose proof (num_slots_range p' Hw') as Hn'.
  assert (Hle : num_slots p <= num_slots p').
  { destruct (decide (num_slots p = 0)) as [Hz|Hz]; [lia|].
    destruct (Hs (i, num_slots p - 1)) as [T (q & Hq & Hr & _)%row_Some]; [rewrite (row_at v i p) by (done || lia); by eexists|].
    cbn [fst snd] in *. assert (q = p') as -> by congruence. lia. }
  assert (HT : forall j, 0 <= j < num_slots p' -> tuple_at p' j = if decide (j < num_slots p) then cleared ops (i, j) (tuple_at p j) else None).
  { intros j Hj. rewrite (Hv (i, j) (tuple_at p' j)) by (by apply row_at). unfold row. cbn [fst snd]. rewrite Hp.
    destruct (decide (j < num_slots p)); [by rewrite decide_True by lia|rewrite decide_False by lia; apply cleared_None]. }
  rewrite <-clear_row_live.
  unfold page_rows. replace (num_slots p') with (num_slots p + (num_slots p' - num_slots p)) by lia.
  rewrite seqZ_app, fmap_app, filter_app by lia. rewrite (filter_all_out _ (_ <$> seqZ (0 + num_slots p) _)), app_nil_r.
  - f_equal. rewrite <-list_fmap_compose. apply list_fmap_ext. intros k j Hj%list_elem_of_lookup_2%elem_of_seqZ. rewrite HT, decide_True by lia. done.
  - intros r (j & -> & Hj%elem_of_seqZ)%list_elem_of_fmap. cbn [snd]. rewrite HT, decide_False by lia. tauto.
Qed.

Lemma restored_rows ops v v' : restored ops v v' -> forall ps ps' next next' k,
  linked v ps next -> linked v' ps' next' -> ps'.*1 = ps.*1 ++ k -> (forall i, i ∈ k -> v i = None) ->
  live_rows ps' = clear_row ops <$> live_rows ps.
Proof.
  intros Hr. induction ps as [|[i p] ps IH]; intros ps' next next' k Hl Hl' Hids Hk.
  - cbn in Hids. unfold live_rows at 2. cbn. apply filter_all_out. intros [[i j] T] (Hi & HT)%(chain_row v' ps' next'); [|done]. cbn [fst snd] in *.
    rewrite (proj1 Hr _ _ HT). unfold row. cbn [fst]. rewrite Hk; [cbn; rewrite cleared_None; tauto|by rewrite <-Hids].
  - destruct ps' as [|[i' p'] ps']; [done|]. injection Hids as -> Hids. destruct Hl as (_ & Hp & Hh & _ & Hl). destruct Hl' as (_ & Hp' & Hh' & _ & Hl').
    unfold live_rows. change (chain_rows ((i, p') :: ps')) with (page_rows i p' ++ chain_rows ps').
    change (chain_rows ((i, p) :: ps)) with (page_rows i p ++ chain_rows ps). rewrite !filter_app, fmap_app. f_equal.
    + eapply restored_page; [done|done|done|apply Hh|apply Hh'].
    + by eapply IH.
Qed.

(** Without a stamp a row is seen by whoever saw it with one. *)
Lemma cleared_visible ops snap l :
  omap (visible_of snap) l `sublist_of` omap (visible_of snap) (clear_row ops <$> l).
Proof.
  induction l as [|[x T] l IH]; [done|]. rewrite fmap_cons. change (clear_row ops (x, T)) with (x, cleared ops x T).
  destruct T as [[h d]|]; [|by rewrite cleared_None]. destruct (cleared_cases ops x (Some (h, d))) as [-> | ->].
  - cbn [omap list_omap]. destruct (visible_of snap (x, Some (h, d))); [by constructor|done].
  - assert (H1 : visible_of snap (x, Some (h, d)) = if is_visible h snap then Some (x, d) else None) by done.
    assert (H2 : visible_of snap (x, set_deleted 0 <$> Some (h, d)) = if is_visible (set_deleted 0 (h, d)).1 snap then Some (x, d) else None) by done.
    cbn [omap list_omap]. rewrite H1, H2. destruct (is_visible h snap) eqn:Hv.
    + rewrite (proj2 (is_visible_spec _ snap)); [by constructor|]. apply is_visible_spec in Hv as [Hc _]. split; [done|by left].
    + destruct (is_visible (set_deleted 0 (h, d)).1 snap); [by apply sublist_cons|done].
Qed.

(** The rows the log deletes carried no stamp. *)
Definition stamp_free (v : Z -> option Page) (ops : list UndoOp) : Prop :=
  forall pg i u, UndoDelete pg i ∈ ops -> row v (pg, i) = Some (Some u) -> txn_id_deleted u.1 = 0.

Lemma clear_row_free ops v ps next : linked v ps next -> stamp_free v ops -> clear_row ops <$> live_rows ps = live_rows ps.
Proof.
  intros Hl Hf. rewrite <-list_fmap_id. apply list_fmap_ext. intros k [[pg i] T] Hin%list_elem_of_lookup_2. unfold clear_row. cbn [fst snd id].
  f_equal. destruct (decide (UndoDelete pg i ∈ ops)) as [Hd|Hd]; [|by apply cleared_keep].
  apply list_elem_of_filter in Hin as [_ Hin]. apply (chain_row v ps next) in Hin as [_ Hrow]; [|done].
  apply cleared_fresh. intros u ->. by eapply Hf.
Qed.

Section Transactions.
Context {St : Type} {C : Crc32c} {CR : Crc32cRange C} {E : StorageEngine St} {L : StorageLaws St} {SI : SetIter}.
Context (own : Z) (table_def : TableDef).
Let root := td_root_page_id table_def.

(** What a statement relies on: rows that fit into a page, rows to delete or rewrite whose
    slots are live, a hint that names a page of the table or another table, no row twice
    among prepared updates, and a chain the fuel is enough for. *)
Definition statement_ok (v : Z -> option Page) (ps : list (Z * Page)) (fuel : nat) (stmt : Statement) : Prop :=
  match stmt with
  | InsertRow encoded hint => (length ps <= fuel)%nat /\ row_ok encoded /\ hint_in table_def ps hint
  | InsertRows rows => (length ps <= fuel)%nat /\ Forall row_ok rows
  | InsertRowsCtx rows zm_values => (length ps <= fuel)%nat /\ Forall row_ok rows /\ zm_typed zm_values
  | DeleteRows rids => forall r, r ∈ rids -> row_live v r
  | UpdateRow r d hint => (length ps <= fuel)%nat /\ row_ok d /\ row_live v r /\ hint_in table_def ps hint
  | UpdateRows rids rows => (length ps <= fuel)%nat /\ Forall row_ok rows /\ forall r, r ∈ rids -> row_live v r
  | UpdatePrepared prepared hint => (length ps + length prepared <= fuel)%nat /\ hint_in table_def ps hint /\
      NoDup prepared.*1 /\ forall r d, (r, d) ∈ prepared -> row_ok d /\ row_live v r
  end.

Lemma run_statement_stepped active_set fuel stmt s u s' ps :
  io_wf (ss_io s) -> heap_chain (vw (ss_io s)) root ps -> (forall t, t ∈ active_set -> in_u64 t) -> statement_ok (vw (ss_io s)) ps fuel stmt ->
  run_statement own active_set fuel table_def stmt s = Some (Ok u, s') -> exists ops, stepped root s s' ops.
Proof.
  intros Hwf Hc Hact Hok Hrun.
  destruct stmt; cbn [run_statement statement_ok] in *; apply s_bind_ok in Hrun as (r & s1 & Hrun & [= _ <-]).
  - destruct Hok as (? & ? & ?). by eapply insert_row_with_ctx_stepped.
  - destruct Hok as (? & ?). by eapply insert_rows_batch_stepped.
  - destruct Hok as (? & ? & ?). by eapply insert_rows_batch_with_ctx_stepped.
  - by eapply delete_rows_batch_stepped.
  - destruct Hok as (? & ? & Hu & ?). eexists. by eapply update_row_stepped.
  - destruct Hok as (? & ? & ?). by eapply update_rows_batch_stepped.
  - destruct Hok as (? & ? & ? & Hr). by eapply apply_prepared_stepped.
Qed.

(** Statements of one transaction that succeed, one after the other; other transactions
    may begin and end meanwhile. *)
Inductive statements : Session St -> list Statement -> Session St -> Prop :=
| statements_nil s : statements s [] s
| statements_cons s s1 s2 active_set fuel ps stmt stmts :
    heap_chain (vw (ss_io s)) root ps -> (forall t, t ∈ active_set -> in_u64 t) -> statement_ok (vw (ss_io s)) ps fuel stmt ->
    run_statement own active_set fuel table_def stmt s = Some (Ok tt, s1) -> statements s1 stmts s2 -> statements s (stmt :: stmts) s2.

Lemma statements_stepped s stmts s' : io_wf (ss_io s) -> statements s stmts s' -> exists ops, stepped root s s' ops.
Proof.
  intros Hwf Hs. induction Hs as [s|s s1 s2 active_set fuel ps stmt stmts Hc Hact Hok Hrun Hs IH]; [by exists []; apply stepped_nil|].
  destruct (run_statement_stepped _ _ _ _ _ _ _ Hwf Hc Hact Hok Hrun) as [ops1 H1]. destruct (IH (sp_wf _ _ _ _ H1)) as [ops2 H2].
  exists (ops1 ++ ops2). by eapply stepped_trans.
Qed.

Lemma free_unused_spec s :
  io_wf (ss_io s) ->
  exists x, free_unused s = Some (Ok tt, set_io s x) /\ io_wf x /\ batch_pages (io_batch x) = [] /\ forall i, st_page (io_store x) i = vw (ss_io s) i.
Proof.
  intros Hwf. unfold free_unused. destruct (io_batch (ss_io s)) as [b|] eqn:Hb.
  - assert (Hempty : forall st, io_wf (mkIo (Some batch_new) st) <-> st_wf st).
    { intros st. split; [by intros []|]. intros Hst. split; [done|]. intros b' [= <-]. split; [|constructor].
      split; [constructor|]. intros i Hi. by apply not_elem_of_nil in Hi. }
    unfold take_for_rollback. cbn [fst snd].
    destruct (available b) as [|i0 ids] eqn:Hav.
    + eexists. split; [done|]. cbn. split; [by apply Hempty, Hwf|]. split; [done|]. intros i. unfold vw. rewrite Hb. cbn. rewrite Hav.
      by rewrite decide_False by apply not_elem_of_nil.
    + destruct (iw_batch _ Hwf b Hb) as [[Hnd Hin0] Hnum]. rewrite Hav in Hnum, Hnd, Hin0.
      destruct (law_free_batch_ok (io_store (ss_io s)) (i0 :: ids) (iw_store _ Hwf) Hnd) as [st Hfree].
      { rewrite Forall_forall in Hnum |- *. intros i Hi. split; [apply (Hnum i Hi)|by apply Hin0]. }
      destruct (law_free_batch _ _ _ _ (iw_store _ Hwf) ltac:(eapply Forall_impl; [exact Hnum|]; intros i Hi; unfold page_num in Hi; lia) Hfree) as (Hst & Hout & Hin).
      exists (mkIo (Some batch_new) st). unfold store_op. cbn [set_io ss_io io_store io_batch ss_undo ss_wal ss_next_lsn]. rewrite Hfree. split; [done|]. split; [by apply Hempty|].
      split; [done|]. intros i. unfold vw. rewrite Hb. cbn [batch_pages io_store]. rewrite Hav. case_decide as Hi; [by apply Hin|by apply Hout].
  - exists (ss_io s). split; [by destruct s|]. split; [done|]. rewrite Hb. split; [done|]. intros i. unfold vw. rewrite Hb. cbn.
    by rewrite decide_False by apply not_elem_of_nil.
Qed.

Lemma row_ext (v w : Z -> option Page) x : (forall i, v i = w i) -> row v x = row w x.
Proof. intros Hvw. unfold row. by rewrite Hvw. Qed.

(** Undoing what the log says. *)
Lemma rollback_log s :
  io_wf (ss_io s) -> (forall op, op ∈ ss_undo s -> ready (vw (ss_io s)) op) -> insert_first (ss_undo s) ->
  exists s', rollback own s = Some (Ok tt, s') /\ io_wf (ss_io s') /\ links_same (vw (ss_io s)) (vw (ss_io s')) /\
    forall x, row (vw (ss_io s')) x = undo_values x (rev (ss_undo s)) <$> row (vw (ss_io s)) x.
Proof.
  intros Hwf Hrd Hfirst. unfold rollback, s_bind at 1, append_with_buf. set (s1 := mkSession _ _ _ _).
  destruct (free_unused_spec s1 Hwf) as (x & Hfree & Hwfx & Hbx & Hvx). unfold s_bind at 1. rewrite Hfree. unfold s_bind, take_undo.
  unfold store_op. cbn [set_io ss_io ss_undo ss_wal ss_next_lsn s1]. unfold rollback_heap.
  assert (Hvw : forall st i, vw (mkIo (io_batch x) st) i = st_page st i).
  { intros st i. unfold vw. cbn [io_batch io_store]. rewrite Hbx. by rewrite decide_False by apply not_elem_of_nil. }
  assert (Hv1 : forall i, st_page (io_store x) i = vw (ss_io s) i) by (intros i; by rewrite Hvx).
  destruct (undo_loop_spec (ss_undo s) (io_store x) (iw_store _ Hwfx)) as (st & -> & Hst & Hlk & Hrow); [|done|].
  { intros op Hop. specialize (Hrd op Hop). unfold ready in *. destruct (target op) as [[pg i]|]; [|done]. by rewrite Hv1. }
  eexists. split; [done|]. cbn [ss_io]. split_and!.
  - split; [done|]. cbn. intros b Hb. destruct (iw_batch _ Hwfx b Hb) as [[Hnd _] Hnum]. split; [|done]. split; [done|].
    intros i Hi. rewrite Hb in Hbx. cbn in Hbx. rewrite Hbx in Hi. by apply not_elem_of_nil in Hi.
  - intros pg. specialize (Hlk pg). rewrite Hv1, <-(Hvw st pg) in Hlk. exact Hlk.
  - intros y. change (row (vw (mkIo (io_batch x) st)) y = undo_values y (rev (ss_undo s)) <$> row (vw (ss_io s)) y).
    by rewrite (row_ext _ (st_page st)), Hrow, (row_ext (st_page (io_store x)) (vw (ss_io s))).
Qed.

(** Undoing a transaction. *)
Lemma rollback_stepped s s' ops :
  stepped root s s' ops -> ss_undo s = [] ->
  exists s'', rollback own s' = Some (Ok tt, s'') /\ io_wf (ss_io s'') /\ restored ops (vw (ss_io s)) (vw (ss_io s'')) /\
    links_same (vw (ss_io s')) (vw (ss_io s'')).
Proof.
  intros [Hwf Hu Hfw _] Hnil. rewrite Hnil in Hu. cbn in Hu.
  destruct (rollback_log s' Hwf) as (s'' & Hrb & Hwf'' & Hlk & Hrow); [rewrite Hu; apply Hfw|rewrite Hu; apply Hfw|].
  exists s''. split_and!; [done|done| |done]. rewrite Hu in Hrow. split; intros y; rewrite Hrow.
  - intros T HT. apply fmap_Some in HT as (T0 & HT0 & ->). by apply (fw_undo _ _ _ Hfw).
  - intros Hs. destruct (forward_exists _ _ _ y Hfw Hs) as [T0 ->]. by eexists.
Qed.

(** The chain of the table, with its rows back. *)
Lemma chain_restored (s s' : Session St) ops cl v ps :
  stepped root s s' ops -> restored cl (vw (ss_io s)) v -> links_same (vw (ss_io s')) v -> heap_chain (vw (ss_io s)) root ps ->
  exists ps' k, heap_chain v root ps' /\ ps'.*1 = ps.*1 ++ k /\ live_rows ps' = clear_row cl <$> live_rows ps.
Proof.
  intros Hst Hres Hlk Hc. destruct (sp_chain _ _ _ _ Hst ps Hc) as (ps1 & Hc1 & [[k Hk] Hnew]).
  destruct (links_same_chain _ _ _ _ Hc1 Hlk) as (ps' & Hc' & Hids). exists ps', k. split_and!; [done|congruence|].
  eapply (restored_rows _ _ _ Hres ps ps' 0 0 k); [apply Hc|apply Hc'|congruence|]. intros i Hi. apply Hnew; [rewrite Hk; set_solver|].
  intros Hin. pose proof (hc_nodup _ _ _ Hc1) as Hnd. rewrite Hk in Hnd. apply NoDup_app in Hnd as (_ & Hd & _). by apply (Hd i).
Qed.

(** C2: a transaction that runs any sequence of statements on a heap table (insertions of
    one row and of many, with and without the page batch and the tail hint, deletions, and
    updates that rewrite rows in place or move them), all successful, and is then rolled
    back. The rows it deletes or updates need only have live slots; rows fit into a page,
    a tail hint names a page of the table or another table, prepared updates name no row
    twice, and the fuel covers the chain. The rollback succeeds; no row it inserted is
    live, and every row that was live is where it was with its old contents, except that
    a row whose first change was a deletion comes back without a deletion stamp. So every
    snapshot scans at least the rows it scanned before, and exactly those when no row the
    transaction deleted carried the stamp of an earlier deletion. *)
Theorem transaction_rolls_back s s' stmts ps :
  io_wf (ss_io s) -> heap_chain (vw (ss_io s)) root ps -> ss_undo s = [] -> statements s stmts s' ->
  exists s'' ps'', rollback own s' = Some (Ok tt, s'') /\ io_wf (ss_io s'') /\ heap_chain (vw (ss_io s'')) root ps'' /\
    live_rows ps'' = clear_row (ss_undo s') <$> live_rows ps /\ (stamp_free (vw (ss_io s)) (ss_undo s') -> live_rows ps'' = live_rows ps) /\
    forall fuel snap, (length ps'' < fuel)%nat ->
      exists rows rows'', scan_visible_ro fuel root snap (ss_io s) = Some (Ok rows, ss_io s) /\
        scan_visible_ro fuel root snap (ss_io s'') = Some (Ok rows'', ss_io s'') /\
        rows `sublist_of` rows'' /\ (stamp_free (vw (ss_io s)) (ss_undo s') -> rows'' = rows).
Proof.
  intros Hwf Hc Hnil Hs. destruct (statements_stepped _ _ _ Hwf Hs) as [ops Hst].
  assert (Hu : ss_undo s' = ops) by (by rewrite (sp_undo _ _ _ _ Hst), Hnil). rewrite Hu.
  destruct (rollback_stepped s s' ops Hst Hnil) as (s'' & Hrb & Hwf'' & Hres & Hlk).
  destruct (chain_restored s s' ops ops _ ps Hst Hres Hlk Hc) as (ps'' & k & Hc'' & Hids & Hlive).
  pose proof (clear_row_free ops _ ps 0 (hc_linked _ _ _ Hc)) as Hfree.
  exists s'', ps''. split_and!; [done|done|done|done|by intros Hf; rewrite Hlive, Hfree|]. intros fuel snap Hf.
  exists (omap (visible_of snap) (chain_rows ps)), (omap (visible_of snap) (chain_rows ps'')). split_and!.
  - rewrite <-(hc_root _ _ _ Hc). apply (chain_scan_ro_spec snap ps); [done|apply Hc|].
    assert (length ps'' = length ps + length k)%nat; [|lia]. rewrite <-(length_fmap fst ps''), Hids, length_app, length_fmap. done.
  - rewrite <-(hc_root _ _ _ Hc''). by apply (chain_scan_ro_spec snap ps''); [|apply Hc''|].
  - rewrite <-!(live_rows_visible snap), Hlive. apply cleared_visible.
  - intros Hsf. rewrite <-!(live_rows_visible snap), Hlive. by rewrite Hfree.
Qed.
End Transactions.

(** ** Statements that succeed *)

Section Success.
Context {St : Type} {C : Crc32c} {CR : Crc32cRange C} {E : StorageEngine St} {L : StorageLaws St} {R : PageRoom St} {SI : SetIter}.
Context (own : Z) (active_set : gset Z) (fuel : nat) (table_def : TableDef).
Hypothesis Hact : forall t, t ∈ active_set -> in_u64 t.
Hypothesis Hsome : active_set ≠ ∅.
Let root := td_root_page_id table_def.

Lemma stmt_txn_runs : exists t, set_first active_set = Some t /\ forall s : Session St, stmt_txn_id active_set s = Some (Ok t, s).
Proof.
  unfold stmt_txn_id, active_txn_id. destruct (set_first active_set) as [t|] eqn:Ht; [|by apply set_first_none in Ht].
  by exists t.
Qed.

Lemma bind_run {A B} (m : Stmt St A) (k : A -> Stmt St B) s a s1 : m s = Some (Ok a, s1) -> s_bind m k s = k a s1.
Proof. unfold s_bind. by intros ->. Qed.

Lemma heap_op_run {A} (m : M St A) s a x : m (ss_io s) = Some (Ok a, x) -> heap_op m s = Some (Ok a, set_io s x).
Proof. unfold heap_op. by intros ->. Qed.

(** The record of a page whose rows were inserted, or deleted. *)
Definition page_record (ty : EntryType) (pw : Z * list Z) : WalEntry :=
  mkWal 0 own ty (td_id table_def) (le_bytes 8 pw.1) [] (slot_list pw.2).

Lemma insert_statement_runs rows zm_values s ps :
  io_wf (ss_io s) -> heap_chain (vw (ss_io s)) root ps -> (length ps <= fuel)%nat -> Forall row_ok rows -> zm_typed zm_values ->
  pr (ss_io s) (zlen rows) ->
  exists t rids s' ps', set_first active_set = Some t /\ insert_rows_batch_with_ctx own active_set fuel table_def rows zm_values s = Some (Ok rids, s') /\
    io_wf (ss_io s') /\ (forall m, zlen rows <= m -> pr (ss_io s) m -> pr (ss_io s') (m - zlen rows)) /\
    length rids = length rows /\ extended (vw (ss_io s)) (vw (ss_io s')) root ps ps' (inserted_rows t rids rows) /\
    ss_undo s' = ss_undo s ++ ((fun x => UndoInsert x.1 x.2) <$> page_locs (sorted_pages rids)) /\
    ss_wal s' = ss_wal s ++ batch_entries (page_record PageWrite <$> sorted_pages rids) (ss_next_lsn s).
Proof.
  intros Hwf Hc Hf Hrows Hzm Hpr. destruct stmt_txn_runs as (t & Hin & Ht).
  pose proof (insert_batch_spec root t zm_values (Hact t (set_first_in _ _ Hin)) Hzm fuel ps rows (ss_io s) Hwf Hc Hrows Hf) as Hw. unfold wp in Hw.
  unfold insert_rows_batch_with_ctx. destruct rows as [|d0 rows0].
  { exists t, [], s, ps. split_and!; [done|done|done| |done| |by rewrite app_nil_r|by rewrite app_nil_r].
    { intros m Hm Hx. eapply pr_mono; [exact Hx|]. unfold zlen. cbn. lia. }
    split; [done|by rewrite app_nil_r|by apply linked_moved with 0; apply Hc|done|by eapply chain_kept_refl, linked_heap, Hc]. }
  set (rows := d0 :: rows0) in *. rewrite (bind_run _ _ _ _ _ (Ht s)). unfold root in Hw. unfold zlen in Hpr.
  destruct (insert_batch_with_zm fuel (td_root_page_id table_def) rows t zm_values (ss_io s)) as [[[rids|e] x]|] eqn:Hi; [|tauto|done].
  destruct Hw as (Hwf' & Hroom & Hlen & ps' & Hex & _). rewrite (bind_run _ _ _ _ _ (heap_op_run _ _ _ _ Hi)).
  destruct (logs_bind _ _ _ (fun _ => s_ret rids) (set_io s x) (record_page_writes_logs own (td_id table_def) (sorted_pages rids))) as [next Heq].
  rewrite Heq. eexists t, rids, _, ps'. by split_and!.
Qed.

Lemma delete_statement_runs rids s :
  io_wf (ss_io s) -> Forall (row_live (vw (ss_io s))) rids ->
  exists t sorted pages s', set_first active_set = Some t /\ delete_rows_batch own active_set table_def rids s = Some (Ok (zlen rids), s') /\
    io_wf (ss_io s') /\ room_kept (ss_io s) (ss_io s') /\ mapped (stamp t rids) rids.*1 (vw (ss_io s)) (vw (ss_io s')) /\
    sorted ≡ₚ rids /\ StronglySorted rid_le sorted /\ page_locs pages = sorted /\ StronglySorted (fun a b => a.1 < b.1) pages /\
    ss_undo s' = ss_undo s ++ ((fun x => UndoDelete x.1 x.2) <$> sorted) /\
    ss_wal s' = ss_wal s ++ batch_entries (page_record PageDelete <$> pages) (ss_next_lsn s).
Proof.
  intros Hwf Hlv. destruct stmt_txn_runs as (t & Hin & Ht). unfold delete_rows_batch. destruct rids as [|r0 rids0].
  { exists t, [], [], s. split_and!; [done|done|done|apply room_kept_refl|apply mapped_nil|done|constructor|done|constructor|by rewrite app_nil_r|by rewrite app_nil_r]. }
  set (rids := r0 :: rids0) in *. rewrite (bind_run _ _ _ _ _ (Ht s)).
  destruct (delete_batch_spec t (Hact t (set_first_in _ _ Hin)) rids (ss_io s) Hwf Hlv) as (sorted & x & Hp & Hs & Hd & Hwf' & Hrk & Hm).
  rewrite (bind_run _ _ _ _ _ (heap_op_run _ _ _ _ Hd)). set (deleted := _ <$> sorted) in *.
  assert (Hlen : zlen deleted = zlen rids) by (unfold deleted, zlen; by rewrite length_fmap, Hp).
  destruct (logs_bind _ _ _ (fun _ => s_ret (zlen deleted)) (set_io s x) (record_delete_batch_logs own (td_id table_def) (group_deletes deleted))) as [next Heq].
  rewrite Heq, Hlen. assert (Hl : page_locs (group_deletes deleted) = sorted) by (unfold deleted; by rewrite group_deletes_locs, fst_tagged).
  assert (Hg : StronglySorted (fun a b => a.1 < b.1) (group_deletes deleted)).
  { unfold group_deletes, deleted. rewrite fst_tagged. by apply group_sorted. }
  eexists t, sorted, (group_deletes deleted), _. rewrite Hl. by split_and!.
Qed.
End Success.

(** ** Properties *)

Section Properties.
Context {St : Type} {C : Crc32c} {CR : Crc32cRange C} {E : StorageEngine St} {L : StorageLaws St} {R : PageRoom St} {SI : SetIter}.

(** C18: with a running transaction and room for a page per row, inserting many rows
    succeeds: the rows follow those of the chain, created by the transaction chosen, and
    one record per page touched goes to the log, in ascending order of the pages, whose
    slots are those of the new rows.  Deleting rows whose slots are live succeeds: exactly
    they are stamped, and again one record per page touched, in ascending order of the
    pages, names the slots of its rows in order.  The undo operations pushed are those of
    the rows changed. *)
Theorem batch_statements_correct own active_set fuel table_def rows zm_values rids (s : Session St) ps :
  (forall t, t ∈ active_set -> in_u64 t) -> active_set ≠ ∅ ->
  io_wf (ss_io s) -> heap_chain (vw (ss_io s)) (td_root_page_id table_def) ps -> (length ps <= fuel)%nat ->
  Forall row_ok rows -> zm_typed zm_values -> pr (ss_io s) (zlen rows) ->
  (forall r, r ∈ rids -> exists u, (r, Some u) ∈ chain_rows ps) ->
  (exists t locs pages s' ps', t ∈ active_set /\
     insert_rows_batch_with_ctx own active_set fuel table_def rows zm_values s = Some (Ok locs, s') /\ io_wf (ss_io s') /\ length locs = length rows /\
     extended (vw (ss_io s)) (vw (ss_io s')) (td_root_page_id table_def) ps ps' (inserted_rows t locs rows) /\
     page_locs pages ≡ₚ locs /\ StronglySorted (fun a b => a.1 < b.1) pages /\
     ss_undo s' = ss_undo s ++ ((fun x => UndoInsert x.1 x.2) <$> page_locs pages) /\
     ss_wal s' = ss_wal s ++ batch_entries (page_record own table_def PageWrite <$> pages) (ss_next_lsn s)) /\
  (exists t pages s' ps', t ∈ active_set /\ delete_rows_batch own active_set table_def rids s = Some (Ok (zlen rids), s') /\
     io_wf (ss_io s') /\ heap_chain (vw (ss_io s')) (td_root_page_id table_def) ps' /\ chain_rows ps' = map_rows (stamp t rids) (chain_rows ps) /\
     page_locs pages ≡ₚ rids /\ StronglySorted rid_le (page_locs pages) /\ StronglySorted (fun a b => a.1 < b.1) pages /\
     ss_undo s' = ss_undo s ++ ((fun x => UndoDelete x.1 x.2) <$> page_locs pages) /\
     ss_wal s' = ss_wal s ++ batch_entries (page_record own table_def PageDelete <$> pages) (ss_next_lsn s)).
Proof.
  intros Hact Hsome Hwf Hc Hf Hrows Hzm Hpr Hrids. split.
  - destruct (insert_statement_runs own active_set fuel table_def Hact Hsome rows zm_values s ps) as (t & locs & s' & ps' & Ht & Hi & Hwf' & _ & Hlen & Hex & Hu & Hw); [done..|].
    exists t, locs, (sorted_pages locs), s', ps'. split_and!; [by apply set_first_in|done|done|done|done|apply sorted_pages_locs|apply sorted_pages_sorted|done|done].
  - destruct (delete_statement_runs own active_set table_def Hact Hsome rids s Hwf) as (t & sorted & pages & s' & Ht & Hd & Hwf' & _ & Hm & Hp & Hs & <- & Hg & Hu & Hw).
    { apply Forall_forall. intros r Hr. destruct (Hrids r Hr) as [u Hu]. eapply chain_row_live; [apply Hc|exact Hu]. }
    destruct (heap_chain_mapped _ _ _ _ _ _ Hc Hm) as (ps' & Hc' & _ & Hrs & _).
    { intros i j T Hi _. unfold stamp. rewrite decide_False; [done|]. intros Hin. apply Hi, list_elem_of_fmap. by exists (i, j). }
    exists t, pages, s', ps'. split_and!; [by apply set_first_in|done..].
Qed.
End Properties.

(** *** Witnesses *)

#[local] Existing Instance crc32c_ref.
#[local] Existing Instance crc32c_ref_range.
#[local] Existing Instance engine_room.
#[local] Existing Instance set_iter_elements.

(** A row of a chain that nobody deleted. *)
Lemma chain_undeleted v root ps r u : heap_chain v root ps -> (r, Some u) ∈ chain_rows ps -> txn_id_deleted u.1 = 0 -> undeleted v r.
Proof.
  intros Hc Hin Hz. pose proof (chain_row_live _ _ _ _ _ (hc_linked _ _ _ Hc) Hin) as (p & Hp & Hh & _).
  apply (chain_row v ps 0) in Hin as [_ Hrow]; [|apply Hc]. split; [by exists p|by exists u].
Qed.

Lemma sample_rows : Forall row_ok [[4; 5]].
Proof. repeat constructor; try (unfold byte_ok; lia); vm_compute; congruence. Qed.

Lemma batch_statements_correct_witness :
  exists (s s1 s2 : Session MemoryStorage) table_def locs, length locs = 1%nat /\
    insert_rows_batch_with_ctx 7 {[7]} 2 table_def [[4; 5]] [] s = Some (Ok locs, s1) /\
    exists rid, delete_rows_batch 7 {[7]} table_def [rid] s = Some (Ok 1, s2) /\ ss_undo s2 = [UndoDelete rid.1 rid.2].
Proof.
  destruct (sample_chain_row 5 ltac:(widths)) as (x & root & ps & rid & Hwf & Hpr & Hc & Hrs & Hlen).
  set (s := mkSession x [] [] 1). set (td := mkTable 3 root).
  destruct (batch_statements_correct 7 {[7]} 2 td [[4; 5]] [] [rid] s ps) as [Hins Hdel].
  - intros t ->%elem_of_singleton. widths.
  - set_solver.
  - done.
  - done.
  - done.
  - apply sample_rows.
  - constructor.
  - eapply pr_mono; [exact Hpr|vm_compute; congruence].
  - intros r ->%list_elem_of_singleton. eexists. rewrite Hrs. by left.
  - destruct Hins as (t & locs & pages & s1 & ps1 & _ & Hi & _ & Hl & _).
    destruct Hdel as (t2 & pages2 & s2 & ps2 & _ & Hd & _ & _ & _ & Hp & _ & _ & Hu & _).
    exists s, s1, s2, td, locs. split; [exact Hl|]. split; [exact Hi|]. exists rid. split; [exact Hd|].
    rewrite Hu. apply Permutation_singleton_r in Hp. by rewrite Hp.
Defined.

(** A row is inserted, another one deleted, and the transaction rolled back. *)
Lemma transaction_rolls_back_witness :
  exists (s s' s'' : Session MemoryStorage) table_def rid ps'',
    statements 7 table_def s [InsertRowsCtx [[4; 5]] []; DeleteRows [rid]] s' /\ rollback 7 s' = Some (Ok tt, s'') /\
    heap_chain (vw (ss_io s'')) (td_root_page_id table_def) ps'' /\ live_rows ps'' = [(rid, new_tuple 5 [1; 2; 3])].
Proof.
  destruct (sample_chain_row 5 ltac:(widths)) as (x & root & ps & rid & Hwf & Hpr & Hc & Hrs & Hlen).
  set (s := mkSession x [] [] 1). set (td := mkTable 3 root).
  assert (Hact : forall t, t ∈ ({[7]} : gset Z) -> in_u64 t) by (intros t ->%elem_of_singleton; widths).
  assert (Hsome : ({[7]} : gset Z) ≠ ∅) by set_solver.
  assert (Hzm : zm_typed []) by constructor.
  destruct (insert_statement_runs 7 {[7]} 2 td Hact Hsome [[4; 5]] [] s ps Hwf Hc Hlen sample_rows Hzm) as (t & locs & s1 & ps1 & _ & Hi & Hwf1 & Hroom & _ & Hex & _).
  { eapply pr_mono; [exact Hpr|vm_compute; congruence]. }
  assert (Hin : (rid, new_tuple 5 [1; 2; 3]) ∈ chain_rows ps1) by (rewrite (ex_rows _ _ _ _ _ _ Hex), Hrs; by left).
  pose proof (chain_undeleted _ _ _ _ _ (ex_chain _ _ _ _ _ _ Hex) Hin eq_refl) as Hun.
  destruct (delete_statement_runs 7 {[7]} td Hact Hsome [rid] s1 Hwf1) as (t2 & sorted & pages & s2 & _ & Hd & Hwf2 & Hrk & _).
  { constructor; [by apply undeleted_live|constructor]. }
  assert (Hs : statements 7 td s [InsertRowsCtx [[4; 5]] []; DeleteRows [rid]] s2).
  { eapply (statements_cons _ _ s s1 s2 {[7]} 2 ps); [exact Hc|exact Hact|split; [exact Hlen|split; [exact sample_rows|exact Hzm]]| |].
    - cbn [run_statement]. unfold s_bind. rewrite Hi. reflexivity.
    - eapply (statements_cons _ _ s1 s2 s2 {[7]} 2 ps1); [apply Hex|exact Hact| | |apply statements_nil].
      + intros r ->%list_elem_of_singleton. exact (undeleted_live _ _ Hun).
      + cbn [run_statement]. unfold s_bind. rewrite Hd. reflexivity. }
  destruct (transaction_rolls_back 7 td s s2 _ ps Hwf Hc eq_refl Hs) as (s3 & ps3 & Hrb & _ & Hc3 & Hl3 & _).
  exists s, s2, s3, td, rid, ps3. split; [exact Hs|]. split; [exact Hrb|]. split; [exact Hc3|]. rewrite Hl3. unfold live_rows. rewrite Hrs.
  change (filter _ _) with [(rid, new_tuple 5 [1; 2; 3])]. cbn [fmap list_fmap]. unfold clear_row. cbn [fst snd].
  rewrite cleared_fresh; [reflexivity|]. intros u [= <-]. reflexivity.
Defined.
