(* ===== verification/TableFlaws.v ===== *)
(** * What the statements on a heap table do not promise

    Executions of the statements of TableWrite that break isolation or atomicity: the
    transaction whose identifier the rows get is any of those running; a statement that
    fails half-way has changed rows that no undo operation is about, so that rolling back
    does not restore them; and rolling back a second deletion of a row takes back the first
    one with it. *)

From stdpp Require Import sorting.
From S2P Require Import Prelude SlotBitmap Page FreeList Heap PageRows WalEntry Storage PageIo Undo.
From S2P Require Import ZoneMap HeapChain HeapBatch HeapUpdate HeapRaces TableWrite TableForward TableRollback.

Section Helpers.
Context {St : Type} {C : Crc32c} {CR : Crc32cRange C} {E : StorageEngine St} {L : StorageLaws St}.

Lemma read_row_runs r (x : Io St) : io_wf x -> undeleted (vw x) r -> exists d, read_row r.1 r.2 x = Some (Ok (Some d), x).
Proof.
  intros Hwf [(p & Hp & Hh) ([h d] & (q & Hq & Hr & Ht)%row_Some & _)]. assert (q = p) as -> by congruence. exists d.
  unfold read_row, io_bind. rewrite (load_checked_ok x r.1 p Hwf Hp Hh), (read_tuple_at p r.2 _ (proj1 Hh) Hr Ht). done.
Qed.

Lemma chain_delete_runs r t (x : Io St) :
  io_wf x -> undeleted (vw x) r -> in_u64 t ->
  exists st, chain_delete (io_store x) r.1 r.2 t = Some (Ok tt, st) /\ room_kept x (mkIo (io_batch x) st).
Proof.
  intros Hwf [(p & Hp & Hh) ([h d] & (q & Hq & Hr & Ht)%row_Some & _)] Htx. assert (q = p) as -> by congruence.
  apply vw_Some in Hp as [_ Hp]. destruct (load_page_spec _ _ _ (iw_store _ Hwf) Hp (proj2 Hh)) as [Hld _].
  unfold chain_delete, with_page. rewrite Hld. destruct (delete_tuple_spec p r.2 t (proj1 Hh) ltac:(lia) Htx) as (r0 & p' & -> & _ & Hsp).
  rewrite (proj2 (Z.leb_gt _ _)), Ht in Hsp by lia. destruct Hsp as (-> & Hup & Hc). cbn [then_checksum].
  rewrite update_checksum_id by (done || apply hw_page, Hup).
  destruct (write_moved (io_store x) r.1 r.2 p p' (iw_store _ Hwf) Hp Hh (updated_touched _ _ _ _ Hh Hr Hup) Hc) as (st & Hw & _). rewrite Hw.
  exists st. split; [done|]. apply (room_kept_write x _ r.1 p' Hwf). unfold io_write. by rewrite Hw.
Qed.

(** A row that is not longer fits into its slot. *)
Lemma shorter_fits p j h d d' :
  heap_wf p -> live p j -> tuple_at p j = Some (h, d) -> zlen (row_header_bytes h) = 24 -> zlen d' <= zlen d -> fits p j d' = true.
Proof.
  intros Hw Hj Ht Hh Hle. unfold fits. destruct (slot_capacity_spec p j Hw Hj) as (cap & -> & _ & Hcap).
  pose proof (slice_inv _ _ _ _ (live_image p j Hw Hj)) as (_ & _ & _ & Hl). unfold image_at in Hl. rewrite Ht, length_app in Hl.
  rewrite Nat2Z.inj_add, Hh in Hl. apply negb_true_iff, Z.ltb_ge. rewrite <-Hl in Hcap.
  pose proof (Z.div_le_mono (24 + zlen d' + 7) (24 + zlen d + 7) 8 ltac:(lia) ltac:(lia)). lia.
Qed.

(** A row that fits into no page does not fit into a slot. *)
Lemma too_large_slot p j d : heap_wf p -> live p j -> EMPTY_ROOM < row_need d -> fits p j d = false.
Proof.
  intros Hw Hj Hbig. unfold fits. destruct (slot_capacity_spec p j Hw Hj) as (cap & -> & [Hb _] & _).
  pose proof (lo_low _ _ (hw_live _ Hw j Hj)). pose proof (hw_start _ Hw). pose proof (hw_end _ Hw). pose proof (proj1 Hj).
  apply negb_false_iff, Z.ltb_lt. unfold EMPTY_ROOM, row_need, HEADER_SIZE in Hbig. lia.
Qed.
End Helpers.

(** ** Properties *)

(** What a scan returns to a snapshot. *)
Definition seen (snap : TransactionSnapshot) (ps : list (Z * Page)) : list (Z * Z * bytes) := omap (visible_of snap) (chain_rows ps).

Lemma seen_inserted snap t rids rows :
  (forall d, visible_of snap ((0, 0), new_tuple t d) = None) -> omap (visible_of snap) (inserted_rows t rids rows) = [].
Proof.
  intros Hn. unfold inserted_rows. revert rows. induction rids as [|r rids IH]; intros [|d rows]; [done..|]. cbn.
  specialize (Hn d). unfold visible_of, new_tuple in Hn. cbn in Hn. destruct (is_visible _ _); [done|]. apply IH.
Qed.

Lemma seen_inserted_own snap t rids rows :
  current_txn_id snap = t -> t ≠ 0 -> omap (visible_of snap) (inserted_rows t rids rows) = zip rids rows.
Proof.
  intros Ht H0. assert (Hv : is_visible (mkRow t 0 0 0) snap = true).
  { unfold is_visible. cbn. rewrite Ht, Z.eqb_refl, (proj2 (Z.eqb_neq t 0)) by done. done. }
  unfold inserted_rows. revert rows. induction rids as [|r rids IH]; intros [|d rows]; [done..|]. cbn. rewrite Hv. by rewrite IH.
Qed.

(** No operation of the log is about row [r]. *)
Definition unrecorded (log : list UndoOp) (r : Z * Z) : Prop := forall op, op ∈ log -> target op ≠ Some r.

Section Properties.
Context {St : Type} {C : Crc32c} {CR : Crc32cRange C} {E : StorageEngine St} {L : StorageLaws St} {R : PageRoom St} {SI : SetIter}.

(** C36: with two transactions running, one of them writes rows in the name of the other,
    whatever the order in which the set of running transactions is traversed: it does not
    see the rows it inserted, and the other transaction does, before the first commits. *)
Theorem rows_of_another_transaction a b fuel table_def rows zm_values (s : Session St) ps :
  in_u64 a -> in_u64 b -> a ≠ 0 -> b ≠ 0 -> a ≠ b ->
  io_wf (ss_io s) -> heap_chain (vw (ss_io s)) (td_root_page_id table_def) ps -> (length ps <= fuel)%nat ->
  Forall row_ok rows -> zm_typed zm_values -> pr (ss_io s) (zlen rows) ->
  exists own other locs s' ps', {[own; other]} = ({[a; b]} : gset Z) /\ own ≠ other /\ length locs = length rows /\
    insert_rows_batch_with_ctx own {[a; b]} fuel table_def rows zm_values s = Some (Ok locs, s') /\
    heap_chain (vw (ss_io s')) (td_root_page_id table_def) ps' /\
    (forall snap, current_txn_id snap = own -> other ∈ active_ids snap \/ snapshot_id snap <= other -> seen snap ps' = seen snap ps) /\
    (forall snap, current_txn_id snap = other -> seen snap ps' = seen snap ps ++ zip locs rows).
Proof.
  intros Ha Hb Ha0 Hb0 Hab Hwf Hc Hf Hrows Hzm Hpr. set (active := {[a; b]} : gset Z).
  assert (Hact : forall t, t ∈ active -> in_u64 t) by set_solver. assert (Hsome : active ≠ ∅) by set_solver.
  assert (exists other, set_first active = Some other /\ other ∈ active) as (other & Hfst & Hin).
  { destruct (set_first active) as [t|] eqn:Ht; [|by apply set_first_none in Ht]. exists t. split; [done|by apply set_first_in]. }
  assert (exists own, {[own; other]} = active /\ own ≠ other) as (own & Hset & Hne).
  { apply elem_of_union in Hin as [->%elem_of_singleton | ->%elem_of_singleton]; [exists b|exists a]; set_solver. }
  destruct (insert_statement_runs own active fuel table_def Hact Hsome rows zm_values s ps) as (t & locs & s' & ps' & Ht & Hi & Hwf' & _ & Hlen & Hex & _); [done..|].
  assert (t = other) as -> by congruence. exists own, other, locs, s', ps'.
  assert (Hseen : forall snap, seen snap ps' = seen snap ps ++ omap (visible_of snap) (inserted_rows other locs rows)).
  { intros snap. unfold seen. by rewrite (ex_rows _ _ _ _ _ _ Hex), omap_app. }
  split_and!; [done|done|done|done|apply Hex| |]; intros snap Hcur; rewrite Hseen.
  - intros Hun. rewrite seen_inserted, app_nil_r; [done|]. intros d. unfold visible_of, new_tuple, is_visible. cbn.
    rewrite Hcur, (proj2 (Z.eqb_neq other own)), andb_false_r by done. cbn [negb andb].
    destruct Hun as [Hun|Hle]; [by rewrite bool_decide_true, andb_false_r by done|by rewrite (proj2 (Z.ltb_ge _ _)) by lia].
  - f_equal. apply seen_inserted_own; [done|set_solver].
Qed.

(** Moving a row that fits into no page: the old version is deleted and recorded. *)
Lemma moving_fails own active_set fuel table_def t r d (s : Session St) ps :
  (forall s : Session St, stmt_txn_id active_set s = Some (Ok t, s)) -> in_u64 t ->
  io_wf (ss_io s) -> heap_chain (vw (ss_io s)) (td_root_page_id table_def) ps -> (length ps <= fuel)%nat ->
  undeleted (vw (ss_io s)) r -> row_len_ok d -> EMPTY_ROOM < row_need d -> pr (ss_io s) 1 ->
  exists i s', update_encoded_row_with_hint own active_set fuel table_def r d None s = Some (Err (HeapPageFull i (row_need d) EMPTY_ROOM), s') /\
    io_wf (ss_io s') /\ pr (ss_io s') 0 /\ ss_undo s' = ss_undo s ++ [UndoDelete r.1 r.2] /\ ready (vw (ss_io s')) (UndoDelete r.1 r.2) /\
    forall y T, y ≠ r -> row (vw (ss_io s)) y = Some T -> row (vw (ss_io s')) y = Some T.
Proof.
  intros Htx Ht Hwf Hc Hf Hr Hd Hbig Hpr. destruct (read_row_runs r (ss_io s) Hwf Hr) as [old Hread].
  unfold update_encoded_row_with_hint. rewrite (bind_run _ _ _ _ _ (heap_op_run _ _ _ _ Hread)). rewrite (bind_run _ _ _ _ _ (Htx _)).
  destruct (chain_delete_runs r t (ss_io s) Hwf Hr Ht) as (st & Hd1 & Hrk).
  set (s1 := set_io s (mkIo (io_batch (ss_io s)) st)).
  assert (Hs : store_op (fun st => chain_delete st r.1 r.2 t) s = Some (Ok tt, s1)) by (unfold store_op; by rewrite Hd1).
  assert (set_io s (ss_io s) = s) as -> by (by destruct s). rewrite (bind_run _ _ _ _ _ Hs).
  set (rec := record_delete own (td_id table_def) (encode_physical_loc r.1 r.2) old r.1 r.2).
  destruct (log_change_logs (St := St) rec s1) as [next Hlog]. rewrite (bind_run _ _ _ _ _ Hlog). set (s2 := mkSession _ _ _ next) in *.
  destruct (chain_delete_logged own table_def s s1 s2 (td_id table_def) (encode_physical_loc r.1 r.2) old r t tt tt Hwf (undeleted_live _ _ Hr) Ht Hs Hlog)
    as [[Hwf2 Hu2 Hfw _] Hlk].
  destruct (links_same_chain _ _ _ _ Hc Hlk) as (ps1 & Hc1 & Hids).
  assert (Hlen : length ps1 = length ps) by (by rewrite <-(length_fmap fst), Hids, length_fmap).
  destruct (chain_insert_too_large fuel (td_root_page_id table_def) ps1 d t (ss_io s2) Hwf2 Hc1 (proj1 Hd) (proj2 Hd) Hbig Ht ltac:(lia)) as (i & x3 & Hi & Hwf3 & Hpr3 & _ & Hv0 & _ & Hv).
  { by apply Hrk. }
  assert (Hsame : forall j p, vw (ss_io s2) j = Some p -> vw x3 j = Some p) by (intros j p Hj; rewrite Hv; [done|]; intros ->; congruence).
  exists i, (set_io s2 x3). split_and!.
  - unfold s_bind, heap_op. by rewrite Hi.
  - done.
  - done.
  - done.
  - destruct (fw_ready _ _ _ Hfw (UndoDelete r.1 r.2) ltac:(left)) as (p & Hp & Hrest). exists p. split; [by apply Hsame|done].
  - intros y T Hy HT. assert (HT2 : row (vw (ss_io s2)) y = Some T).
    { eapply forward_other; [exact Hfw| |done]. intros op ->%list_elem_of_singleton. cbn. rewrite <-surjective_pairing. congruence. }
    apply row_Some in HT2 as (p & Hp & Hy2 & <-). destruct y as [j k]. apply row_at; [by apply Hsame|done].
Qed.

(** An update that fails is not undone.  Rows are first rewritten in place where they
    fit, all of them, and their old images recorded only as the loop over the rows comes to
    them.  When the new image of an earlier row fits into no page, the statement fails
    there; the later row stays rewritten, no operation of the undo log is about it, and
    rolling the transaction back leaves the new row in place of the old one. *)
Theorem failed_update_not_undone own active_set fuel table_def r1 d1 r2 d2 T2 (s : Session St) ps :
  (forall t, t ∈ active_set -> in_u64 t) -> active_set ≠ ∅ -> ss_undo s = [] ->
  io_wf (ss_io s) -> heap_chain (vw (ss_io s)) (td_root_page_id table_def) ps -> (length ps <= fuel)%nat ->
  undeleted (vw (ss_io s)) r1 -> undeleted (vw (ss_io s)) r2 -> r1 ≠ r2 -> row (vw (ss_io s)) r2 = Some T2 ->
  row_len_ok d1 -> EMPTY_ROOM < row_need d1 -> row_len_ok d2 -> fits_in (vw (ss_io s)) r2 d2 = true -> pr (ss_io s) 1 ->
  exists t i s', t ∈ active_set /\
    apply_prepared_updates_preserve_rid own active_set fuel table_def [(r1, d1); (r2, d2)] None s =
      Some (Err (HeapPageFull i (row_need d1) EMPTY_ROOM), s') /\
    pr (ss_io s') 0 /\ unrecorded (ss_undo s') r2 /\
    exists s'', rollback own s' = Some (Ok tt, s'') /\ row (vw (ss_io s'')) r2 = Some (rewritten t d2 T2).
Proof.
  intros Hact Hsome Hnil Hwf Hc Hf Hr1 Hr2 Hne HT2 Hd1 Hbig Hd2 Hfit Hpr.
  destruct (stmt_txn_runs active_set Hsome (St := St)) as (t & Hin%set_first_in & Htx). pose proof (Hact t Hin) as Ht.
  set (ups := [(r1, d1); (r2, d2)]). assert (Hnd : NoDup ups.*1).
  { apply NoDup_cons. split; [|apply NoDup_singleton]. by rewrite list_elem_of_singleton. }
  destruct (rewrite_batch_spec t Ht ups (ss_io s) Hwf Hnd) as (x1 & Hrw & Hwf1 & Hrk1 & Hm).
  { apply Forall_cons. split; [by split; [apply undeleted_live|]|]. apply Forall_singleton. by split; [apply undeleted_live|]. }
  assert (Hfit1 : fits_in (vw (ss_io s)) r1 d1 = false).
  { destruct (undeleted_live _ _ Hr1) as (p & Hp & Hh & Hl). unfold fits_in. rewrite Hp. by apply too_large_slot; [apply Hh| |]. }
  destruct Hr1 as [(p1 & Hp1 & Hh1) (u1 & Hu1 & Hz1)].
  assert (Hrow1 : row (vw x1) r1 = Some (Some u1)).
  { rewrite (mapped_row_at _ _ _ _ _ _ Hm Hu1). unfold rewrite_row, ups. cbn [list_to_map foldr]. cbn [fst snd]. rewrite lookup_insert_eq. cbv beta iota. rewrite Hfit1. by case_decide. }
  assert (Hrow2 : row (vw x1) r2 = Some (rewritten t d2 T2)).
  { rewrite (mapped_row_at _ _ _ _ _ _ Hm HT2), decide_True by (cbn; set_solver). unfold rewrite_row, ups. cbn [list_to_map foldr].
    cbn [fst snd]. rewrite lookup_insert_ne, lookup_insert_eq by done. cbv beta iota. by rewrite Hfit. }
  destruct (links_same_chain _ _ _ _ Hc (mapped_links _ _ _ _ Hm)) as (ps1 & Hc1 & Hids).
  assert (Hlen : length ps1 = length ps) by (by rewrite <-(length_fmap fst), Hids, length_fmap).
  destruct (moving_fails own active_set fuel table_def t r1 d1 (set_io s x1) ps1 Htx Ht Hwf1 Hc1 ltac:(lia)) as (i & s' & Hup & Hwf' & Hpr' & Hu & Hrd & Hkeep); [|done|done|by apply Hrk1|].
  { split; [|by exists u1]. destruct (md_in _ _ _ _ Hm r1.1) as (q & p' & _ & Hp' & Hpm); [cbn; left|]. exists p'. split; [done|apply Hpm]. }
  exists t, i, s'. split_and!; [done| |done| |].
  - assert (Hres : upd_value (fits_in (vw (ss_io s))) (image_in (vw (ss_io s))) <$> ups = [None; Some (image_in (vw (ss_io s)) r2)]).
    { unfold ups, upd_value. cbn [fmap list_fmap fst snd]. by rewrite Hfit1, Hfit. }
    rewrite Hres in Hrw. unfold apply_prepared_updates_preserve_rid. fold ups.
    change (s_bind (stmt_txn_id active_set) (fun t => s_bind (heap_op (rewrite_batch_same_slot ups t)) (fun rs =>
      preserve_loop own active_set fuel table_def t ups rs [] None)) s = Some (Err (HeapPageFull i (row_need d1) EMPTY_ROOM), s')).
    rewrite (bind_run _ _ _ _ _ (Htx _)), (bind_run _ _ _ _ _ (heap_op_run _ _ _ _ Hrw)).
    unfold ups. cbn [preserve_loop record_update_in_place_batch]. unfold s_bind, s_ret. by rewrite Hup.
  - rewrite Hu. cbn [set_io ss_undo]. rewrite Hnil. intros op ->%list_elem_of_singleton. cbn. rewrite <-surjective_pairing. congruence.
  - cbn [set_io ss_undo] in Hu. rewrite Hnil in Hu. cbn [app] in Hu.
    destruct (rollback_log own table_def s' Hwf') as (s'' & Hrb & _ & _ & Hrows); [|apply insert_first_none|].
    + rewrite Hu. by intros op ->%list_elem_of_singleton.
    + rewrite Hu. by intros pg j ?%list_elem_of_singleton.
    + exists s''. split; [done|]. rewrite Hrows, Hu, (Hkeep r2 (rewritten t d2 T2)); [|done|].
      * cbn. rewrite decide_False; [done|]. rewrite <-surjective_pairing. congruence.
      * exact Hrow2.
Qed.

(** C35: a committed deletion can be lost. A row whose deletion a snapshot sees has a live
    slot until it is vacuumed, so deleting it again succeeds and overwrites the stamp; when
    that second transaction rolls back, the stamp is cleared. The snapshot, which did not
    scan the row before, scans it now. *)
Theorem redeletion_revives_row own active_set table_def snap r u (s : Session St) ps :
  (forall t, t ∈ active_set -> in_u64 t) -> active_set ≠ ∅ -> ss_undo s = [] ->
  io_wf (ss_io s) -> heap_chain (vw (ss_io s)) (td_root_page_id table_def) ps ->
  (r, Some u) ∈ chain_rows ps -> gone snap u.1 ->
  exists s' s'', delete_rows_batch own active_set table_def [r] s = Some (Ok 1, s') /\ rollback own s' = Some (Ok tt, s'') /\
    forall fuel, (length ps < fuel)%nat -> exists rows rows'',
      scan_visible_ro fuel (td_root_page_id table_def) snap (ss_io s) = Some (Ok rows, ss_io s) /\ ~ (r, u.2) ∈ rows /\
      scan_visible_ro fuel (td_root_page_id table_def) snap (ss_io s'') = Some (Ok rows'', ss_io s'') /\ (r, u.2) ∈ rows''.
Proof.
  intros Hact Hsome Hnil Hwf Hc Hin Hg. pose proof (chain_row_live (vw (ss_io s)) ps 0 r u (hc_linked _ _ _ Hc) Hin) as Hl.
  destruct (delete_statement_runs own active_set table_def Hact Hsome [r] s Hwf) as (t & sorted & pages & s' & _ & Hd & _ & _ & _ & Hp & _ & _ & _ & Hu & _); [by constructor|].
  symmetry in Hp. apply Permutation_singleton_l in Hp. subst sorted.
  destruct (delete_rows_batch_stepped own active_set table_def Hact [r] s 1 s' Hwf) as [[ops Hst] Hlk0]; [by intros r' ->%list_elem_of_singleton|exact Hd|].
  destruct (rollback_stepped own table_def s s' ops Hst Hnil) as (s'' & Hrb & Hwf'' & Hres & Hlk).
  destruct (chain_restored table_def s s' ops ops _ ps Hst Hres Hlk Hc) as (ps'' & k & Hc'' & _ & Hlive).
  assert (Hops : ops = [UndoDelete r.1 r.2]) by (rewrite (sp_undo _ _ _ _ Hst), Hnil in Hu; exact Hu).
  destruct (links_same_chain _ _ _ _ Hc (links_same_trans _ _ _ Hlk0 Hlk)) as (qs & Hq & Hqs).
  assert (qs = ps'') as -> by (by eapply chain_unique). exists s', s''. split_and!; [exact Hd|done|]. intros fuel Hf.
  exists (omap (visible_of snap) (chain_rows ps)), (omap (visible_of snap) (chain_rows ps'')). split_and!.
  - rewrite <-(hc_root _ _ _ Hc). by apply (chain_scan_ro_spec snap ps); [|apply Hc|].
  - intros ([y T] & Hy & Hv)%list_elem_of_omap. unfold visible_of in Hv. cbn [fst snd] in Hv. destruct T as [[h d]|]; [|done].
    destruct (is_visible h snap) eqn:Hvis; [|done]. injection Hv as -> Hd2.
    destruct (proj1 (chain_row _ ps 0 _ _ (hc_linked _ _ _ Hc)) Hin) as [_ Hrow].
    destruct (proj1 (chain_row _ ps 0 _ _ (hc_linked _ _ _ Hc)) Hy) as [_ Hrow'].
    assert (h = u.1) as -> by (destruct u as [h' d']; cbn in *; congruence). apply is_visible_spec in Hvis as [_ [?|?]]; by destruct Hg as (_ & ? & ?).
  - rewrite <-(hc_root _ _ _ Hc''). apply (chain_scan_ro_spec snap ps''); [done|apply Hc''|]. by rewrite <-(length_fmap fst), Hqs, length_fmap.
  - rewrite <-(live_rows_visible snap), Hlive. apply list_elem_of_omap. exists (clear_row ops (r, Some u)). split.
    + apply list_elem_of_fmap. exists (r, Some u). split; [done|]. by apply list_elem_of_filter.
    + unfold clear_row, visible_of. subst ops. cbn [fst snd cleared target]. rewrite <-surjective_pairing, decide_True by done. cbn.
      rewrite (proj2 (is_visible_spec _ snap)); [done|]. split; [apply Hg|by left].
Qed.
End Properties.

(** *** Witnesses *)

#[local] Existing Instance crc32c_ref.
#[local] Existing Instance crc32c_ref_range.
#[local] Existing Instance engine_room.
#[local] Existing Instance set_iter_elements.

Lemma rows_of_another_transaction_witness :
  exists (s s' : Session MemoryStorage) table_def own other rid locs ps', own ≠ other /\
    insert_rows_batch_with_ctx own {[7; 8]} 2 table_def [[4; 5]] [] s = Some (Ok locs, s') /\
    heap_chain (vw (ss_io s')) (td_root_page_id table_def) ps' /\
    seen (mkSnap 6 own {[7; 8]}) ps' = [(rid, [1; 2; 3])] /\
    seen (mkSnap 6 other {[7; 8]}) ps' = [(rid, [1; 2; 3])] ++ zip locs [[4; 5]].
Proof.
  destruct (sample_chain_row 5 ltac:(widths)) as (x & root & ps & rid & Hwf & Hpr & Hc & Hrs & Hlen).
  set (s := mkSession x [] [] 1). set (td := mkTable 3 root).
  destruct (rows_of_another_transaction 7 8 2 td [[4; 5]] [] s ps) as (own & other & locs & s' & ps' & Hset & Hne & _ & Hi & Hc' & H1 & H2);
    [widths|widths|lia|lia|lia|exact Hwf|exact Hc|exact Hlen|exact sample_rows|constructor|eapply pr_mono; [exact Hpr|vm_compute; congruence]|].
  assert (Hseen : forall u, u ∈ ({[7; 8]} : gset Z) -> seen (mkSnap 6 u {[7; 8]}) ps = [(rid, [1; 2; 3])]).
  { intros u Hu. unfold seen. rewrite Hrs. apply elem_of_union in Hu as [->%elem_of_singleton | ->%elem_of_singleton]; reflexivity. }
  exists s, s', td, own, other, rid, locs, ps'. split; [exact Hne|]. split; [exact Hi|]. split; [exact Hc'|].
  assert (Hown : own ∈ ({[7; 8]} : gset Z)) by (rewrite <-Hset; set_solver -).
  assert (Hother : other ∈ ({[7; 8]} : gset Z)) by (rewrite <-Hset; set_solver -).
  rewrite <-(Hseen own Hown). split; [apply H1; [reflexivity|left; exact Hother]|].
  rewrite (Hseen own Hown), <-(Hseen other Hother). apply H2. reflexivity.
Defined.

(** A row that fits into no page. *)
Definition giant_row : bytes := replicate (Z.to_nat 16300) 0.
Lemma giant_row_ok : row_len_ok giant_row /\ EMPTY_ROOM < row_need giant_row.
Proof.
  assert (Hn : row_need giant_row = 16332) by (unfold row_need, giant_row; rewrite length_replicate, Z2Nat.id by lia; reflexivity).
  split; [split|].
  - apply Forall_replicate. unfold byte_ok. lia.
  - unfold giant_row. rewrite length_replicate, Z2Nat.id by lia. reflexivity.
  - by rewrite Hn.
Qed.

(** A table with two rows. *)
Lemma sample_chain_rows : exists (x : Io MemoryStorage) root ps r1 r2, io_wf x /\ pr x 38 /\ heap_chain (vw x) root ps /\
  chain_rows ps = [(r1, new_tuple 5 [1; 2; 3]); (r2, new_tuple 5 [4; 5])] /\ (length ps <= 3)%nat.
Proof.
  destruct (sample_chain_row 5 ltac:(widths)) as (x & root & ps & rid & Hwf & Hpr & Hc & Hrs & Hlen).
  pose proof sample_rows as [Hrow _]%Forall_cons.
  pose proof (chain_insert_spec 2 root ps [4; 5] 5 x Hwf Hc Hrow ltac:(widths) Hlen) as Hw. unfold wp in Hw.
  assert (Hpr1 : pr x 1) by (eapply pr_mono; [exact Hpr|lia]).
  destruct (chain_insert 2 root [4; 5] 5 x) as [[[r2|e] x']|]; [|tauto|done].
  destruct Hw as (Hwf' & Hpr' & ps' & Hex & Hlen'). exists x', root, ps', rid, r2.
  split_and!; [done|by apply (Hpr' 39); [lia|]|apply Hex| |lia]. by rewrite (ex_rows _ _ _ _ _ _ Hex), Hrs.
Qed.

Lemma failed_update_not_undone_witness :
  exists (s s' s'' : Session MemoryStorage) table_def r1 r2 e u,
    row (vw (ss_io s)) r2 = Some (new_tuple 5 [4; 5]) /\
    apply_prepared_updates_preserve_rid 7 {[7]} 3 table_def [(r1, giant_row); (r2, [6])] None s = Some (Err e, s') /\
    rollback 7 s' = Some (Ok tt, s'') /\ row (vw (ss_io s'')) r2 = Some (Some (u, [6])).
Proof.
  destruct sample_chain_rows as (x & root & ps & r1 & r2 & Hwf & Hpr & Hc & Hrs & Hlen). set (s := mkSession x [] [] 1). set (td := mkTable 3 root).
  pose proof (chain_locs_nodup ps (hc_nodup _ _ _ Hc)) as Hnd. rewrite Hrs in Hnd. apply NoDup_cons in Hnd as [Hne _]. 
  assert (H1 : (r1, new_tuple 5 [1; 2; 3]) ∈ chain_rows ps) by (rewrite Hrs; left).
  assert (H2 : (r2, new_tuple 5 [4; 5]) ∈ chain_rows ps) by (rewrite Hrs; right; left).
  destruct giant_row_ok as [Hg1 Hg2].
  destruct (failed_update_not_undone 7 {[7]} 3 td r1 giant_row r2 [6] (new_tuple 5 [4; 5]) s ps) as (t & i & s' & _ & Hup & Hpr' & _ & Hrb).
  - intros t ->%elem_of_singleton. widths.
  - set_solver -.
  - reflexivity.
  - exact Hwf.
  - exact Hc.
  - exact Hlen.
  - exact (chain_undeleted _ _ _ _ _ Hc H1 eq_refl).
  - exact (chain_undeleted _ _ _ _ _ Hc H2 eq_refl).
  - intros ->. apply Hne. left.
  - apply (chain_row _ _ _ _ _ (hc_linked _ _ _ Hc)). exact H2.
  - exact Hg1.
  - exact Hg2.
  - split; [repeat constructor; unfold byte_ok; lia|cbn; lia].
  - unfold fits_in. destruct (undeleted_live _ _ (chain_undeleted _ _ _ _ _ Hc H2 eq_refl)) as (p & Hp & Hh & Hl).
    change (vw (ss_io s)) with (vw x). rewrite Hp.
    apply (chain_row _ _ _ _ _ (hc_linked _ _ _ Hc)) in H2 as [_ (q & Hq & Hr & Ht)%row_Some]. assert (q = p) as -> by congruence.
    apply (shorter_fits p r2.2 (mkRow 5 0 0 0) [4; 5] [6] (proj1 Hh) Hl Ht); [vm_compute; reflexivity|vm_compute; congruence].
  - eapply pr_mono; [exact Hpr|lia].
  - destruct Hrb as (s'' & Hrb & Hrow).
    exists s, s', s'', td, r1, r2. eexists. eexists. split; [|split; [exact Hup|split; [exact Hrb|exact Hrow]]].
    apply (chain_row _ _ _ _ _ (hc_linked _ _ _ Hc)). exact H2.
Defined.

(** Transaction 6 deletes the row of 5 and commits; then 7 deletes it again and rolls back. *)
Lemma redeletion_revives_row_witness :
  exists (s s' s'' : Session MemoryStorage) table_def r rows rows'',
    delete_rows_batch 7 {[7]} table_def [r] s = Some (Ok 1, s') /\ rollback 7 s' = Some (Ok tt, s'') /\
    scan_visible_ro 9 (td_root_page_id table_def) (snap_committed 6) (ss_io s) = Some (Ok rows, ss_io s) /\ ~ (r, [1; 2; 3]) ∈ rows /\
    scan_visible_ro 9 (td_root_page_id table_def) (snap_committed 6) (ss_io s'') = Some (Ok rows'', ss_io s'') /\ (r, [1; 2; 3]) ∈ rows''.
Proof.
  destruct (sample_chain_row 5 ltac:(widths)) as (x & root & ps & rid & Hwf & Hpr & Hc & Hrs & Hlen).
  set (s0 := mkSession x [] [] 1). set (td := mkTable 3 root).
  assert (Hin : (rid, new_tuple 5 [1; 2; 3]) ∈ chain_rows ps) by (rewrite Hrs; left).
  destruct (delete_statement_runs 6 {[6]} td ltac:(intros t ->%elem_of_singleton; widths) ltac:(set_solver -) [rid] s0 Hwf)
    as (t & sorted & pages & s1 & Ht%set_first_in & _ & Hwf1 & _ & Hm & _).
  { constructor; [exact (chain_row_live _ _ _ _ _ (hc_linked _ _ _ Hc) Hin)|constructor]. }
  apply elem_of_singleton in Ht. subst t.
  destruct (heap_chain_mapped _ _ _ _ _ _ Hc Hm) as (ps1 & Hc1 & Hids1 & Hrs1 & _).
  { intros i j T Hi _. unfold stamp. rewrite decide_False; [done|]. intros Hr. apply Hi, list_elem_of_fmap. by exists (i, j). }
  assert (Hin1 : (rid, Some (mkRow 5 6 0 0, [1; 2; 3])) ∈ chain_rows ps1).
  { rewrite Hrs1, Hrs. unfold map_rows, stamp. cbn. rewrite decide_True by left. left. }
  assert (Hlen1 : (length ps1 < 9)%nat) by (rewrite <-(length_fmap fst ps1), Hids1, length_fmap; lia).
  assert (Hg : gone (snap_committed 6) (mkRow 5 6 0 0)).
  { split_and!; [|done|]; right; (split; [done|apply not_elem_of_empty]). }
  destruct (redeletion_revives_row 7 {[7]} td (snap_committed 6) rid _ (mkSession (ss_io s1) [] [] 1) ps1
    ltac:(intros t ->%elem_of_singleton; widths) ltac:(set_solver -) eq_refl Hwf1 Hc1 Hin1 Hg) as (s' & s'' & Hd & Hrb & Hscan).
  destruct (Hscan 9%nat Hlen1) as (rows & rows'' & H1 & H2 & H3 & H4).
  exists (mkSession (ss_io s1) [] [] 1), s', s'', td, rid, rows, rows''. split; [exact Hd|]. split; [exact Hrb|].
  split; [exact H1|]. split; [exact H2|]. split; [exact H3|exact H4].
Defined.
