(* ===== verification/WalLog.v ===== *)
(** * The log file: header, tail recovery and readers

    crates/axiomdb-wal/src/writer.rs (file header, [scan_valid_tail], [round_up]) and
    crates/axiomdb-wal/src/reader.rs ([WalReader] with its forward and backward
    iterators).  A file is its bytes; a read past its end is [read_exact]'s
    [UnexpectedEof].  Other I/O errors are not modelled. *)

From S2P Require Import Prelude Page WalEntry.

(** ** File header *)

Definition WAL_MAGIC : Z := 0x4C41574D4F495841.
Definition WAL_VERSION : Z := 2.
Definition WAL_HEADER_SIZE : Z := 24.
Definition START_LSN_OFFSET : Z := 14.
Definition PREALLOC_CHUNK : Z := 256 * 1024.

Definition round_up (value quantum : Z) : Z :=
  if value =? 0 then 0 else (value + quantum - 1) / quantum * quantum.

(** The bytes [write_header] writes: magic, version, four reserved bytes, [start_lsn]
    at [START_LSN_OFFSET], two bytes of padding. *)
Definition write_header (start_lsn : Z) : bytes :=
  le_bytes 8 WAL_MAGIC ++ le_bytes 2 WAL_VERSION ++ replicate 4 0 ++ le_bytes 8 start_lsn
  ++ replicate 2 0.

Definition read_and_verify_header (file : bytes) : Result Z :=
  match slice 0 WAL_HEADER_SIZE file with
  | None => Err WalInvalidHeader
  | Some header =>
      let magic := get_le 0 8 header in
      let version := get_le 8 2 header in
      if negb (magic =? WAL_MAGIC) || negb (version =? WAL_VERSION) then Err WalInvalidHeader
      else Ok (get_le START_LSN_OFFSET 8 header)
  end.

(** ** Tail recovery *)

Record WalTailInfo : Type := mkTail {
  last_lsn : Z;
  logical_end : Z;
  reserved_end : Z
}.

(** What [Iterator::next] returns. *)
Abbreviation Item := (option (Result WalEntry)).

Section Reading.
Context {C : Crc32c}.

(** One iteration of the loop of [scan_valid_tail]: [inl] continues, [inr None] panics. *)
Definition tail_step (buf : bytes) (st : Z * Z) : (Z * Z) + option (Z * Z) :=
  let '(pos, last) := st in
  if negb (pos <? zlen buf) then inr (Some st)
  else if zlen buf - pos <? 4 then inr (Some st)
  else match slice pos 4 buf with
       | None => inr None
       | Some hd =>
           if bool_decide (hd = [0; 0; 0; 0]) then inr (Some st)
           else match from_bytes (drop (Z.to_nat pos) buf) with
                | None => inr None
                | Some (Ok (entry, consumed)) => inl (pos + consumed, lsn entry)
                | Some (Err _) => inr (Some st)
                end
       end.

(** Every record has at least one byte, so as many iterations as the buffer has bytes,
    and one more, are enough. *)
Definition scan_valid_tail (file : bytes) : option WalTailInfo :=
  let file_len := zlen file in
  let data_len := Z.max 0 (file_len - WAL_HEADER_SIZE) in
  if data_len =? 0 then Some (mkTail 0 WAL_HEADER_SIZE file_len)
  else
    let buf := drop (Z.to_nat WAL_HEADER_SIZE) file in
    match loop_nat (S (length buf)) (tail_step buf) (0, 0) with
    | inr (Some (pos, last)) => Some (mkTail last (WAL_HEADER_SIZE + pos) file_len)
    | _ => None
    end.

(** ** Readers *)

Record WalReader : Type := mkReader {
  rd_file : bytes;
  rd_logical_end : Z
}.

Definition verify_header (file : bytes) : Result unit :=
  match slice 0 WAL_HEADER_SIZE file with
  | None => Err WalInvalidHeader
  | Some header =>
      if negb (get_le 0 8 header =? WAL_MAGIC) || negb (get_le 8 2 header =? WAL_VERSION)
      then Err WalInvalidHeader else Ok tt
  end.

Definition reader_open (file : bytes) : option (Result WalReader) :=
  match verify_header file with
  | Err e => Some (Err e)
  | Ok _ => let! tail := scan_valid_tail file in
            Some (Ok (mkReader file (logical_end tail)))
  end.

(** The buffered reader is at [cursor] whenever a record is read. *)
Record ForwardIter : Type := mkForward {
  fi_from_lsn : Z;
  fi_cursor : Z;
  fi_done : bool
}.
Definition scan_forward (from_lsn : Z) : ForwardIter := mkForward from_lsn WAL_HEADER_SIZE false.

(** The body of the loop of [ForwardIter::next]: [inl] skips a record. *)
Definition forward_step (r : WalReader) (it : ForwardIter)
    : ForwardIter + option (Item * ForwardIter) :=
  let cursor := fi_cursor it in
  let stop := mkForward (fi_from_lsn it) cursor true in
  if rd_logical_end r <=? cursor then inr (Some (None, it))
  else if rd_logical_end r <? cursor + 4 then inr (Some (None, stop))
  else match slice cursor 4 (rd_file r) with
       | None => inr (Some (None, it))
       | Some len_buf =>
           let entry_len := le_val len_buf in
           if rd_logical_end r <? cursor + entry_len
           then inr (Some (Some (Err (WalEntryTruncated 0)), stop))
           else if entry_len <? MIN_ENTRY_LEN
           then inr (Some (Some (Err (WalEntryTruncated 0)), stop))
           else match slice (cursor + 4) (entry_len - 4) (rd_file r) with
                | None => inr (Some (Some (Err (WalEntryTruncated 0)), stop))
                | Some rest =>
                    match from_bytes (len_buf ++ rest) with
                    | None => inr None
                    | Some (Ok (entry, _)) =>
                        let it' := mkForward (fi_from_lsn it) (cursor + entry_len) (fi_done it) in
                        if lsn entry <? fi_from_lsn it then inl it'
                        else inr (Some (Some (Ok entry), it'))
                    | Some (Err e) => inr (Some (Some (Err e), stop))
                    end
                end
       end.

Definition forward_next (r : WalReader) (it : ForwardIter) : option (Item * ForwardIter) :=
  if fi_done it then Some (None, it)
  else if rd_logical_end r <=? fi_cursor it then Some (None, it)
  else match loop_nat (S (length (rd_file r))) (forward_step r) it with
       | inr res => res
       | inl _ => None
       end.

Record BackwardIter : Type := mkBackward { bi_cursor : Z; bi_done : bool }.
Definition scan_backward (r : WalReader) : BackwardIter := mkBackward (rd_logical_end r) false.

Definition backward_next (r : WalReader) (it : BackwardIter) : option (Item * BackwardIter) :=
  let cursor := bi_cursor it in
  let fail := Some (Some (Err (WalEntryTruncated 0)), mkBackward cursor true) in
  if bi_done it then Some (None, it)
  else if cursor <=? WAL_HEADER_SIZE then Some (None, it)
  else if cursor <? WAL_HEADER_SIZE + 4 then fail
  else match slice (cursor - 4) 4 (rd_file r) with
       | None => fail
       | Some len_buf =>
           let entry_len := le_val len_buf in
           if entry_len <? MIN_ENTRY_LEN then fail
           else if cursor <? entry_len then fail
           else
             let entry_start := cursor - entry_len in
             if entry_start <? WAL_HEADER_SIZE then fail
             else match slice entry_start entry_len (rd_file r) with
                  | None => fail
                  | Some buf =>
                      match from_bytes buf with
                      | None => None
                      | Some (Ok (entry, _)) => Some (Some (Ok entry), mkBackward entry_start false)
                      | Some (Err e) => Some (Some (Err e), mkBackward cursor true)
                      end
                  end
       end.

(** Driving an iterator to its end. *)
Fixpoint collect {I : Type} (next : I -> option (Item * I)) (fuel : nat) (it : I)
    : option (list (Result WalEntry)) :=
  match fuel with
  | O => None
  | S f =>
      match next it with
      | None => None
      | Some (None, _) => Some []
      | Some (Some x, it') => match collect next f it' with Some l => Some (x :: l) | None => None end
      end
  end.
End Reading.

(** ** The layout of a log file *)

Lemma len_write_header start : zlen (write_header start) = WAL_HEADER_SIZE.
Proof. unfold write_header. rewrite !length_app, !length_replicate, !length_le_bytes by lia. done. Qed.

Section Layout.
Context {C : Crc32c} {CR : Crc32cRange C}.

(** The bytes of a sequence of entries. *)
Definition enc (es : list WalEntry) : bytes := concat (to_bytes <$> es).

(** Where scanning stops: fewer than four bytes, the zeros of preallocated space, or
    bytes that are not a record (such as one torn by a crash). *)
Definition stops (tail : bytes) : Prop :=
  zlen tail < 4 \/ (exists r, tail = [0; 0; 0; 0] ++ r) \/
  (exists err, from_bytes tail = Some (Err err)).

Definition layout (start : Z) (es : list WalEntry) (tail : bytes) : bytes :=
  write_header start ++ enc es ++ tail.

Lemma enc_cons e es : enc (e :: es) = to_bytes e ++ enc es.
Proof. done. Qed.
Lemma enc_app es1 es2 : enc (es1 ++ es2) = enc es1 ++ enc es2.
Proof. unfold enc. by rewrite fmap_app, concat_app. Qed.
Lemma enc_snoc es e : zlen (enc (es ++ [e])) = zlen (enc es) + serialized_len e.
Proof.
  rewrite enc_app, enc_cons, length_app, Nat2Z.inj_add. unfold enc at 2. cbn. rewrite app_nil_r.
  by rewrite len_to_bytes.
Qed.

Lemma len_enc_ge es : Z.of_nat (length es) <= zlen (enc es).
Proof.
  induction es as [|e es IH]; [done|]. rewrite enc_cons, length_app, Nat2Z.inj_add, len_to_bytes.
  unfold serialized_len, MIN_ENTRY_LEN. cbn [length]. lia.
Qed.

Lemma serialized_len_pos e : 43 <= serialized_len e.
Proof. unfold serialized_len, MIN_ENTRY_LEN. lia. Qed.

Lemma wal_len_fields e :
  wal_ok e ->
  slice 0 4 (to_bytes e) = Some (le_bytes 4 (serialized_len e)) /\
  slice (serialized_len e - 4) 4 (to_bytes e) = Some (le_bytes 4 (serialized_len e)).
Proof.
  intros Hok. pose proof (serialized_len_pos e) as Hp.
  assert (Hw : wrap32 (serialized_len e) = serialized_len e)
    by (apply Z.mod_small; pose proof (wo_len _ Hok); lia).
  split.
  - unfold to_bytes, wal_fields. rewrite Hw, <-!app_assoc. apply slice_app_head. by rewrite len_le_bytes.
  - pose proof (len_to_bytes e) as Hl. unfold to_bytes in *. rewrite Hw, app_assoc in *.
    rewrite length_app, Nat2Z.inj_add, len_le_bytes in Hl by lia.
    rewrite slice_app_r by lia. replace (_ - _ - _) with 0 by lia.
    rewrite <-(len_le_bytes 4 (serialized_len e)) at 1 by lia. apply slice_full.
Qed.

(** A record inside a larger buffer. *)
Lemma slice_record pre e rest off :
  off = zlen pre -> slice off (serialized_len e) (pre ++ to_bytes e ++ rest) = Some (to_bytes e).
Proof.
  intros ->. rewrite slice_app_r by lia. rewrite Z.sub_diag. apply slice_app_head. by rewrite len_to_bytes.
Qed.

Lemma slice_record_head pre e rest off :
  wal_ok e -> off = zlen pre ->
  slice off 4 (pre ++ to_bytes e ++ rest) = Some (le_bytes 4 (serialized_len e)).
Proof.
  intros Hok ->. pose proof (serialized_len_pos e).
  pose proof (slice_record pre e rest _ eq_refl) as Hr.
  rewrite <-(proj1 (wal_len_fields e Hok)). rewrite (slice_slice _ _ _ _ 0 4 Hr) by lia.
  f_equal. lia.
Qed.

Lemma slice_record_rest pre e rest off :
  wal_ok e -> off = zlen pre ->
  slice (off + 4) (serialized_len e - 4) (pre ++ to_bytes e ++ rest) = Some (drop 4 (to_bytes e)).
Proof.
  intros Hok ->. pose proof (serialized_len_pos e). pose proof (len_to_bytes e).
  pose proof (slice_record pre e rest _ eq_refl) as Hr.
  rewrite <-(slice_slice _ _ _ _ 4 (serialized_len e - 4) Hr) by lia.
  rewrite slice_ok by lia. f_equal. apply take_ge. rewrite length_drop. lia.
Qed.

Lemma slice_record_tail pre e rest off :
  wal_ok e -> off = zlen pre + serialized_len e ->
  slice (off - 4) 4 (pre ++ to_bytes e ++ rest) = Some (le_bytes 4 (serialized_len e)).
Proof.
  intros Hok ->. pose proof (serialized_len_pos e).
  pose proof (slice_record pre e rest _ eq_refl) as Hr.
  rewrite <-(proj2 (wal_len_fields e Hok)). rewrite (slice_slice _ _ _ _ _ _ Hr) by lia.
  f_equal. lia.
Qed.

Lemma record_head_rest e :
  wal_ok e -> le_bytes 4 (serialized_len e) ++ drop 4 (to_bytes e) = to_bytes e.
Proof.
  intros Hok. destruct (wal_len_fields e Hok) as [H _]. pose proof (len_to_bytes e).
  pose proof (serialized_len_pos e). rewrite slice_ok in H by lia. apply (inj Some) in H.
  change (Z.to_nat 0) with 0%nat in H. rewrite drop_0 in H. rewrite <-H. apply take_drop.
Qed.

Lemma len_le_val e : wal_ok e -> le_val (le_bytes 4 (serialized_len e)) = serialized_len e.
Proof. intros Hok. pose proof (wo_len _ Hok). pose proof (serialized_len_pos e). apply le_val_le_bytes; lia. Qed.

(** *** Tail recovery *)

Definition last_lsn_of (es : list WalEntry) (d : Z) : Z := from_option lsn d (last es).

Lemma last_lsn_of_cons e es d : last_lsn_of (e :: es) d = last_lsn_of es (lsn e).
Proof. unfold last_lsn_of. rewrite last_cons. by destruct (last es). Qed.

Lemma tail_step_record es1 e es2 tail last :
  wal_ok e ->
  tail_step (enc es1 ++ enc (e :: es2) ++ tail) (zlen (enc es1), last) =
  inl (zlen (enc (es1 ++ [e])), lsn e).
Proof.
  intros Hok. pose proof (serialized_len_pos e) as Hp. unfold tail_step.
  rewrite enc_cons, <-app_assoc.
  assert (Hz : zlen (enc es1 ++ to_bytes e ++ enc es2 ++ tail) =
    zlen (enc es1) + serialized_len e + zlen (enc es2 ++ tail)).
  { rewrite !length_app, !Nat2Z.inj_add, len_to_bytes. lia. }
  rewrite Hz, (proj2 (Z.ltb_lt _ _)) by lia. cbn [negb]. rewrite (proj2 (Z.ltb_ge _ _)) by lia.
  rewrite slice_record_head by done.
  rewrite bool_decide_eq_false_2.
  - rewrite Nat2Z.id, drop_app_length, from_bytes_to_bytes by done. by rewrite enc_snoc.
  - intros H0. apply (f_equal le_val) in H0. rewrite len_le_val in H0 by done. change (le_val [0; 0; 0; 0]) with 0 in H0. lia.
Qed.

Lemma tail_step_stop es tail last :
  stops tail -> tail_step (enc es ++ tail) (zlen (enc es), last) = inr (Some (zlen (enc es), last)).
Proof.
  intros Hs. unfold tail_step. rewrite length_app, Nat2Z.inj_add.
  destruct (Z.ltb_spec (zlen (enc es)) (zlen (enc es) + zlen tail)); [|done]. cbn [negb].
  destruct (Z.ltb_spec (zlen (enc es) + zlen tail - zlen (enc es)) 4); [done|].
  rewrite slice_app_r by lia. rewrite Z.sub_diag, Nat2Z.id, drop_app_length.
  destruct (slice_is_Some 0 4 tail) as [hd Hhd]; [lia..|]. rewrite Hhd.
  destruct Hs as [Hs|[(r & ->)|(err & ->)]]; [lia| |by case_bool_decide].
  rewrite slice_app_head in Hhd by done. apply (inj Some) in Hhd. subst hd.
  by rewrite bool_decide_eq_true_2.
Qed.

Lemma tail_loop es2 : forall es1 tail last fuel,
  Forall wal_ok es2 -> stops tail -> (length es2 < fuel)%nat ->
  loop_nat fuel (tail_step (enc es1 ++ enc es2 ++ tail)) (zlen (enc es1), last) =
  inr (Some (zlen (enc (es1 ++ es2)), last_lsn_of es2 last)).
Proof.
  induction es2 as [|e es2 IH]; intros es1 tail last [|fuel] Hok Hs Hf; cbn [length] in Hf; try lia.
  - cbn [loop_nat]. change (enc [] ++ tail) with tail. rewrite tail_step_stop by done. by rewrite app_nil_r.
  - apply Forall_cons in Hok as [He Hok]. cbn [loop_nat]. rewrite tail_step_record by done.
    specialize (IH (es1 ++ [e]) tail (lsn e) fuel Hok Hs ltac:(lia)).
    replace (enc es1 ++ enc (e :: es2) ++ tail) with (enc (es1 ++ [e]) ++ enc es2 ++ tail).
    + by rewrite IH, <-app_assoc, last_lsn_of_cons.
    + rewrite enc_app, enc_cons, enc_cons. unfold enc at 2. cbn. by rewrite app_nil_r, <-!app_assoc.
Qed.

Lemma scan_valid_tail_layout start es tail :
  Forall wal_ok es -> stops tail ->
  scan_valid_tail (layout start es tail) =
  Some (mkTail (last_lsn_of es 0) (WAL_HEADER_SIZE + zlen (enc es)) (zlen (layout start es tail))).
Proof.
  intros Hok Hs. unfold scan_valid_tail. pose proof (len_write_header start) as Hh.
  set (file := layout start es tail).
  assert (Hz : zlen file = WAL_HEADER_SIZE + zlen (enc es) + zlen tail).
  { unfold file, layout. rewrite !length_app, !Nat2Z.inj_add. lia. }
  destruct (Z.eqb_spec (Z.max 0 (zlen file - WAL_HEADER_SIZE)) 0) as [H0|H0].
  - assert (Hnil : enc es = []) by (apply length_zero_iff_nil; lia). rewrite Hnil.
    pose proof (len_enc_ge es) as Hge. rewrite Hnil in Hge. destruct es; [done|cbn in Hge; lia].
  - assert (Hd : drop (Z.to_nat WAL_HEADER_SIZE) file = enc [] ++ enc es ++ tail).
    { unfold file, layout. rewrite drop_app_length'; [done|]. lia. }
    rewrite Hd. pose proof (tail_loop es [] tail 0 (S (length (enc [] ++ enc es ++ tail))) Hok Hs) as Hl.
    change (zlen (enc [])) with 0 in Hl. rewrite Hl; [done|]. pose proof (len_enc_ge es). rewrite !length_app. lia.
Qed.

(** *** Reading forwards *)

Section Reader.
Context (start : Z) (es : list WalEntry) (tail : bytes).
Hypothesis Hok : Forall wal_ok es.
Let file := layout start es tail.
Let r := mkReader file (WAL_HEADER_SIZE + zlen (enc es)).

(** The position after the entries [es1]. *)
Definition at_pos (es1 : list WalEntry) : Z := WAL_HEADER_SIZE + zlen (enc es1).

Lemma file_split es1 e es2 :
  es = es1 ++ e :: es2 ->
  file = (write_header start ++ enc es1) ++ to_bytes e ++ enc es2 ++ tail /\
  zlen (write_header start ++ enc es1) = at_pos es1 /\ wal_ok e /\
  at_pos (es1 ++ [e]) = at_pos es1 + serialized_len e /\
  at_pos (es1 ++ [e]) <= rd_logical_end r.
Proof.
  intros Hes. unfold file, layout, at_pos. cbn [rd_logical_end r]. subst es.
  apply Forall_app in Hok as [_ [He _]%Forall_cons]. rewrite enc_snoc.
  split_and!; [|rewrite length_app, Nat2Z.inj_add, len_write_header; done|done|lia|].
  - by rewrite enc_app, enc_cons, <-!app_assoc.
  - rewrite enc_app, enc_cons, !length_app, !Nat2Z.inj_add, len_to_bytes. lia.
Qed.

Definition fi_at (from : Z) (es1 : list WalEntry) : ForwardIter := mkForward from (at_pos es1) false.

Lemma forward_step_record from es1 e es2 :
  es = es1 ++ e :: es2 ->
  forward_step r (fi_at from es1) =
  if lsn e <? from then inl (fi_at from (es1 ++ [e]))
  else inr (Some (Some (Ok e), fi_at from (es1 ++ [e]))).
Proof.
  intros Hes. destruct (file_split es1 e es2 Hes) as (Hf & Hpre & He & Hpos & Hle).
  pose proof (serialized_len_pos e) as Hp. unfold forward_step. cbn [fi_cursor fi_at fi_from_lsn fi_done].
  rewrite !(proj2 (Z.leb_gt _ _)), (proj2 (Z.ltb_ge _ _)) by lia.
  cbn [rd_file r]. rewrite Hf, slice_record_head, len_le_val by done.
  rewrite (proj2 (Z.ltb_ge _ _)) by lia. unfold MIN_ENTRY_LEN. rewrite (proj2 (Z.ltb_ge _ _)) by lia.
  rewrite slice_record_rest, record_head_rest by done.
  rewrite <-(app_nil_r (to_bytes e)), from_bytes_to_bytes by done. by rewrite <-Hpos.
Qed.

(** What [next] yields after the entries [es1]. *)
Fixpoint forward_result (from : Z) (es1 es2 : list WalEntry) : Item * ForwardIter :=
  match es2 with
  | [] => (None, fi_at from es1)
  | e :: es2' =>
      if lsn e <? from then forward_result from (es1 ++ [e]) es2'
      else (Some (Ok e), fi_at from (es1 ++ [e]))
  end.

Lemma forward_loop from es2 : forall es1 fuel,
  es = es1 ++ es2 -> (length es2 < fuel)%nat ->
  loop_nat fuel (forward_step r) (fi_at from es1) = inr (Some (forward_result from es1 es2)).
Proof.
  induction es2 as [|e es2 IH]; intros es1 [|fuel] Hes Hf; cbn [length] in Hf; try lia; cbn [loop_nat].
  - unfold forward_step. cbn [fi_cursor fi_at rd_logical_end r]. rewrite app_nil_r in Hes. subst es1.
    by rewrite (proj2 (Z.leb_le _ _)) by (unfold at_pos; lia).
  - rewrite (forward_step_record from es1 e es2 Hes). cbn [forward_result].
    destruct (lsn e <? from); [|done]. apply IH; [by rewrite <-app_assoc|lia].
Qed.

Lemma forward_next_spec from es1 es2 :
  es = es1 ++ es2 -> forward_next r (fi_at from es1) = Some (forward_result from es1 es2).
Proof.
  intros Hes. unfold forward_next. cbn [fi_done fi_cursor fi_at rd_logical_end r].
  destruct (Z.leb_spec (WAL_HEADER_SIZE + zlen (enc es)) (at_pos es1)).
  - destruct es2 as [|e es2]; [done|]. destruct (file_split es1 e es2 Hes) as (_ & _ & _ & Hpos & Hle).
    pose proof (serialized_len_pos e). cbn [rd_logical_end r] in Hle. lia.
  - rewrite (forward_loop from es2 es1); [done|done|]. pose proof (len_enc_ge es).
    cbn [rd_file r]. unfold file, layout. rewrite !length_app.
    assert (length es2 <= length es)%nat by (rewrite Hes, length_app; lia). lia.
Qed.

Lemma forward_collect from es2 : forall es1 fuel,
  es = es1 ++ es2 -> (length es2 < fuel)%nat ->
  collect (forward_next r) fuel (fi_at from es1) = Some (Ok <$> filter (fun e => from <= lsn e) es2).
Proof.
  induction es2 as [|e es2 IH]; intros es1 [|fuel] Hes Hf; cbn [length] in Hf; try lia.
  - cbn [collect]. by rewrite (forward_next_spec from es1 []).
  - assert (Hes' : es = (es1 ++ [e]) ++ es2) by (by rewrite <-app_assoc).
    cbn [collect]. rewrite (forward_next_spec from es1 (e :: es2)) by done. cbn [forward_result].
    rewrite filter_cons. destruct (Z.ltb_spec (lsn e) from).
    + rewrite decide_False by lia. rewrite <-(IH (es1 ++ [e]) (S fuel)) by (done || lia).
      cbn [collect]. by rewrite (forward_next_spec from (es1 ++ [e]) es2).
    + rewrite decide_True by lia. by rewrite (IH (es1 ++ [e]) fuel) by (done || lia).
Qed.

(** *** Reading backwards *)

Lemma backward_next_record es1 e es2 :
  es = es1 ++ e :: es2 ->
  backward_next r (mkBackward (at_pos (es1 ++ [e])) false) = Some (Some (Ok e), mkBackward (at_pos es1) false).
Proof.
  intros Hes. destruct (file_split es1 e es2 Hes) as (Hf & Hpre & He & Hpos & Hle).
  pose proof (serialized_len_pos e) as Hp. assert (Hge : WAL_HEADER_SIZE <= at_pos es1) by (unfold at_pos; lia).
  unfold backward_next. cbn [bi_done bi_cursor]. unfold WAL_HEADER_SIZE in *.
  rewrite (proj2 (Z.leb_gt _ _)), (proj2 (Z.ltb_ge _ _)) by lia.
  cbn [rd_file r]. rewrite Hf, slice_record_tail, len_le_val by (done || lia).
  unfold MIN_ENTRY_LEN. rewrite !(proj2 (Z.ltb_ge _ _)) by lia.
  replace (at_pos (es1 ++ [e]) - serialized_len e) with (at_pos es1) by lia.
  rewrite slice_record by done. by rewrite <-(app_nil_r (to_bytes e)), from_bytes_to_bytes by done.
Qed.

Lemma backward_collect es1 : forall es2 fuel,
  es = es1 ++ es2 -> (length es1 < fuel)%nat ->
  collect (backward_next r) fuel (mkBackward (at_pos es1) false) = Some (Ok <$> reverse es1).
Proof.
  induction es1 as [|e es1 IH] using rev_ind; intros es2 [|fuel] Hes Hf; try lia.
  - done.
  - rewrite length_app in Hf. cbn [length] in Hf. rewrite <-app_assoc in Hes.
    cbn [collect]. rewrite (backward_next_record es1 e es2) by done.
    rewrite (IH (e :: es2) fuel) by (done || lia). by rewrite reverse_app.
Qed.
End Reader.
End Layout.

(** ** Properties *)

Section Recovery.
Context {C : Crc32c} {CR : Crc32cRange C}.

(** Preallocated space and a record torn at the end of the file both stop the scan. *)
Lemma stops_zeros n : stops (replicate n 0).
Proof.
  destruct (decide (Z.of_nat n < 4)); [left; by rewrite length_replicate|]. right. left.
  exists (replicate (n - 4) 0). replace n with (4 + (n - 4))%nat at 1 by lia. by rewrite replicate_add.
Qed.

Lemma stops_torn e m :
  wal_ok e -> 0 <= m < serialized_len e -> stops (take (Z.to_nat m) (to_bytes e)).
Proof. intros Hok Hm. right. right. eexists. by apply from_bytes_torn. Qed.

Lemma header_roundtrip start rest :
  in_u64 start ->
  verify_header (write_header start ++ rest) = Ok tt /\
  read_and_verify_header (write_header start ++ rest) = Ok start.
Proof.
  intros Hs. unfold verify_header, read_and_verify_header, WAL_HEADER_SIZE, START_LSN_OFFSET.
  rewrite slice_app_head by (by rewrite len_write_header).
  set (cs := [le_bytes 8 WAL_MAGIC; le_bytes 2 WAL_VERSION; replicate 4 0; le_bytes 8 start; replicate 2 0]).
  assert (Hcs : write_header start = concat cs ++ []).
  { unfold write_header, cs. cbn [concat]. by rewrite !app_nil_r. }
  assert (Hget : forall i off n v, 0 <= n -> 0 <= v < 2 ^ (n * 8) -> cs !! i = Some (le_bytes n v) ->
    off = zlen (concat (take i cs)) -> get_le off n (write_header start) = v).
  { intros i off n v Hn Hv Hi ->. rewrite Hcs.
    assert (Hl : slice (zlen (concat (take i cs))) n (concat cs ++ []) = Some (le_bytes n v)).
    { rewrite <-(len_le_bytes n v) at 1 by done. by apply slice_concat. }
    rewrite (get_le_slice _ _ _ _ Hl). by apply le_val_le_bytes. }
  rewrite (Hget 0%nat 0 8 WAL_MAGIC), (Hget 1%nat 8 2 WAL_VERSION) by (done || unfold WAL_MAGIC; lia).
  rewrite !Z.eqb_refl. cbn [negb orb]. split; [done|]. f_equal.
  apply (Hget 3%nat); [lia|done|done|]. unfold cs. cbn [take concat].
  rewrite !length_app, !length_le_bytes, length_replicate by lia. done.
Qed.

(** C6: a log file recovers exactly what was written to it. For a header, any sequence of
    well-formed entries and a tail that stops scanning (preallocated zeros, or a
    record torn by a crash), opening finds the start LSN of the header, the LSN of
    the last entry and the logical end right after it; the forward reader then
    yields exactly the entries with LSN at least the requested one, in order, the
    backward reader yields all entries in reverse, and both end without an error. *)
Theorem wal_log_recovery start es tail from :
  in_u64 start -> Forall wal_ok es -> stops tail ->
  let file := layout start es tail in
  read_and_verify_header file = Ok start /\
  scan_valid_tail file =
    Some (mkTail (from_option lsn 0 (last es)) (WAL_HEADER_SIZE + zlen (enc es)) (zlen file)) /\
  exists r, reader_open file = Some (Ok r) /\
    collect (forward_next r) (S (length es)) (scan_forward from) =
      Some (Ok <$> filter (fun e => from <= lsn e) es) /\
    collect (backward_next r) (S (length es)) (scan_backward r) = Some (Ok <$> reverse es).
Proof.
  intros Hs Hok Ht file. destruct (header_roundtrip start (enc es ++ tail) Hs) as [Hv Hh].
  split; [done|]. split; [by apply scan_valid_tail_layout|].
  exists (mkReader file (WAL_HEADER_SIZE + zlen (enc es))). split_and!.
  - unfold reader_open, file. unfold layout at 1. rewrite Hv. by rewrite scan_valid_tail_layout.
  - by apply (forward_collect start es tail Hok from es []); [|lia].
  - by apply (backward_collect start es tail Hok es []); [rewrite app_nil_r|lia].
Qed.
End Recovery.

Lemma wal_log_recovery_witness :
  exists r, @reader_open crc32c_ref
      (@layout crc32c_ref 4 [sample_entry] (take 20 (@to_bytes crc32c_ref sample_entry))) = Some (Ok r) /\
    collect (@backward_next crc32c_ref r) 2 (scan_backward r) = Some [Ok sample_entry].
Proof.
  assert (H4 : in_u64 4) by widths.
  assert (Hok : Forall wal_ok [sample_entry]) by (repeat constructor; apply sample_entry_ok).
  assert (Hm : 0 <= 20 < serialized_len sample_entry) by done.
  destruct (@wal_log_recovery crc32c_ref crc32c_ref_range 4 [sample_entry] _ 0 H4 Hok
    (stops_torn sample_entry 20 sample_entry_ok Hm)) as (_ & _ & r & Hr & _ & Hb).
  exists r. split; [exact Hr|exact Hb].
Defined.
