(* ===== verification/WalWriter.v ===== *)
(** * The concurrent log writer

    crates/axiomdb-wal/src/concurrent_writer.rs: lock-free LSN reservation, a queue of
    serialized records, and the group-commit leader that drains it, writes and syncs.
    Every atomic operation and every mutex section is one step; [WalWorld] interleaves
    the steps of any number of threads.  [ws_file] is what the operating system holds
    for the file, [ws_disk] what survives a power loss.  I/O errors are not modelled. *)

From stdpp Require Import sorting.
From S2P Require Import Prelude Page WalEntry WalLog.

(** ** Buffered file output *)

Definition BUF_CAPACITY : Z := 64 * 1024.

(** [File::set_len]: cut, or extend with zeros. *)
Definition set_len (n : Z) (f : bytes) : bytes :=
  take (Z.to_nat n) f ++ replicate (Z.to_nat n - length f) 0.

(** Writing at a file position, extending the file when needed. *)
Definition write_at (pos : Z) (bs f : bytes) : bytes :=
  set_len pos f ++ bs ++ drop (Z.to_nat pos + length bs)%nat f.

Record WriterState : Type := mkWs {
  ws_file : bytes;
  ws_disk : bytes;
  ws_pos : Z;
  ws_buf : bytes;
  ws_logical_end : Z;
  ws_reserved_end : Z
}.

(** [BufWriter::flush] *)
Definition bw_flush (w : WriterState) : WriterState :=
  mkWs (write_at (ws_pos w) (ws_buf w) (ws_file w)) (ws_disk w) (ws_pos w + zlen (ws_buf w)) []
    (ws_logical_end w) (ws_reserved_end w).

Definition bw_push (bs : bytes) (w : WriterState) : WriterState :=
  mkWs (ws_file w) (ws_disk w) (ws_pos w) (ws_buf w ++ bs) (ws_logical_end w) (ws_reserved_end w).

(** [BufWriter::write_all]: buffer when it fits, flush first otherwise, and bypass the
    buffer for a large slice. *)
Definition bw_write_all (bs : bytes) (w : WriterState) : WriterState :=
  let spare := BUF_CAPACITY - zlen (ws_buf w) in
  if zlen bs <? spare then bw_push bs w
  else
    let w1 := if spare <? zlen bs then bw_flush w else w in
    if BUF_CAPACITY <=? zlen bs then
      mkWs (write_at (ws_pos w1) bs (ws_file w1)) (ws_disk w1) (ws_pos w1 + zlen bs) (ws_buf w1)
        (ws_logical_end w1) (ws_reserved_end w1)
    else bw_push bs w1.

(** [sync_all] and [sync_wal_data]: the file content reaches the disk. *)
Definition ws_sync (w : WriterState) : WriterState :=
  mkWs (ws_file w) (ws_file w) (ws_pos w) (ws_buf w) (ws_logical_end w) (ws_reserved_end w).

Definition ensure_capacity (w : WriterState) (required_end : Z) : WriterState :=
  if required_end <=? ws_reserved_end w then w
  else
    let w := bw_flush w in
    let new_reserved_end := round_up required_end PREALLOC_CHUNK in
    let f := set_len new_reserved_end (ws_file w) in
    mkWs f f (ws_logical_end w) (ws_buf w) (ws_logical_end w) new_reserved_end.

Definition write_entry (w : WriterState) (bs : bytes) : WriterState :=
  let w := bw_write_all bs w in
  mkWs (ws_file w) (ws_disk w) (ws_pos w) (ws_buf w) (ws_logical_end w + zlen bs) (ws_reserved_end w).

Definition total_len (entries : list (Z * bytes)) : Z :=
  foldr (fun x acc => zlen x.2 + acc) 0 entries.

Definition write_entries (w : WriterState) (entries : list (Z * bytes)) : WriterState :=
  match entries with
  | [] => w
  | _ => foldl write_entry (ensure_capacity w (ws_logical_end w + total_len entries)) entries.*2
  end.

(** ** The writer *)

Record WriteQueue : Type := mkWq { wq_entries : list (Z * bytes); wq_total_bytes : Z }.

Definition wq_new : WriteQueue := mkWq [] 0.
Definition wq_push (q : WriteQueue) (base_lsn : Z) (bs : bytes) : WriteQueue :=
  mkWq (wq_entries q ++ [(base_lsn, bs)]) (wq_total_bytes q + zlen bs).

Definition lsn_le (a b : Z * bytes) : Prop := a.1 <= b.1.
#[export] Instance lsn_le_dec : RelDecision lsn_le.
Proof. intros a b. unfold lsn_le. apply _. Defined.

(** [sort_unstable_by_key]; the keys are distinct, so stability does not matter. *)
Definition drain_sorted (q : WriteQueue) : list (Z * bytes) * WriteQueue :=
  (merge_sort lsn_le (wq_entries q), wq_new).

Record ConcurrentWalWriter : Type := mkCw {
  next_lsn : Z;
  flushed_lsn : Z;
  cw_queue : WriteQueue;
  cw_writer : WriterState
}.

Definition cw_create : ConcurrentWalWriter :=
  let f := set_len (round_up WAL_HEADER_SIZE PREALLOC_CHUNK) (write_header 0) in
  mkCw 1 0 wq_new (mkWs f f WAL_HEADER_SIZE [] WAL_HEADER_SIZE (round_up WAL_HEADER_SIZE PREALLOC_CHUNK)).

(** [rotate_file] on the file's content. *)
Definition rotate_file (start_lsn : Z) (file : bytes) : bytes :=
  set_len (round_up WAL_HEADER_SIZE PREALLOC_CHUNK) (write_at 0 (write_header start_lsn) (set_len 0 file)).

Section Writer.
Context {C : Crc32c}.

(** [open] on a file that is on disk. *)
Definition cw_open (file : bytes) : option (Result ConcurrentWalWriter) :=
  match read_and_verify_header file with
  | Err e => Some (Err e)
  | Ok start_lsn =>
      let! tail := scan_valid_tail file in
      Some (Ok (mkCw (Z.max (last_lsn tail) start_lsn + 1) (last_lsn tail) wq_new
        (mkWs file file (logical_end tail) [] (logical_end tail) (reserved_end tail))))
  end.

Definition current_lsn (w : ConcurrentWalWriter) : Z := Z.max 0 (next_lsn w - 1).

(** [fetch_add(n)] on [next_lsn], wrapping like the atomic; the first of the [n] LSNs. *)
Definition reserve_lsns (n : Z) (w : ConcurrentWalWriter) : Z * ConcurrentWalWriter :=
  (next_lsn w, mkCw (wrap64 (next_lsn w + n)) (flushed_lsn w) (cw_queue w) (cw_writer w)).

Definition enqueue (base_lsn : Z) (bs : bytes) (w : ConcurrentWalWriter) : ConcurrentWalWriter :=
  mkCw (next_lsn w) (flushed_lsn w) (wq_push (cw_queue w) base_lsn bs) (cw_writer w).

(** The entries of a batch with their LSNs filled in. *)
Definition set_lsn (e : WalEntry) (l : Z) : WalEntry :=
  mkWal l (txn_id e) (entry_type e) (table_id e) (key e) (old_value e) (new_value e).
Definition stamp (base : Z) (es : list WalEntry) : list WalEntry :=
  zip_with set_lsn es (seqZ base (zlen es)).

(** [append] after its reservation. *)
Definition append_reserved (lsn : Z) (e : WalEntry) (w : ConcurrentWalWriter) : ConcurrentWalWriter :=
  enqueue lsn (to_bytes (set_lsn e lsn)) w.

(** [append_with_buf] after its reservation: the same, through a scratch buffer. *)
Definition append_with_buf_reserved (lsn : Z) (e : WalEntry) (w : ConcurrentWalWriter)
    : ConcurrentWalWriter :=
  enqueue lsn (serialize_into (set_lsn e lsn) []) w.

(** [write_batch] of entries serialized one after the other. *)
Definition write_batch (base_lsn : Z) (batch : bytes) (w : ConcurrentWalWriter) : ConcurrentWalWriter :=
  match batch with [] => w | _ => enqueue base_lsn batch w end.

Definition set_queue (w : ConcurrentWalWriter) (q : WriteQueue) : ConcurrentWalWriter :=
  mkCw (next_lsn w) (flushed_lsn w) q (cw_writer w).
Definition set_writer (w : ConcurrentWalWriter) (s : WriterState) : ConcurrentWalWriter :=
  mkCw (next_lsn w) (flushed_lsn w) (cw_queue w) s.

(** The sections of [flush_and_sync] and [flush_no_sync]. *)
Definition drain (w : ConcurrentWalWriter) : list (Z * bytes) * ConcurrentWalWriter :=
  let '(entries, q) := drain_sorted (cw_queue w) in (entries, set_queue w q).
Definition write_and_flush (entries : list (Z * bytes)) (w : ConcurrentWalWriter) : ConcurrentWalWriter :=
  set_writer w (bw_flush (write_entries (cw_writer w) entries)).
Definition sync (w : ConcurrentWalWriter) : ConcurrentWalWriter := set_writer w (ws_sync (cw_writer w)).
Definition advance_flushed (entries : list (Z * bytes)) (w : ConcurrentWalWriter) : ConcurrentWalWriter :=
  match last entries with
  | Some (max_lsn, _) => mkCw (next_lsn w) (Z.max (flushed_lsn w) max_lsn) (cw_queue w) (cw_writer w)
  | None => w
  end.

(** ** Interleaved calls *)

(** Where a thread is: between calls (after reserving LSNs it still has to submit), or
    inside a flush.  [FsLocked] holds the writer mutex, [NsDrained] waits for it. *)
Inductive WPc : Type :=
| WIdle
| WReserved (base n : Z)
| FsLocked
| FsDrained (entries : list (Z * bytes))
| FsWritten (entries : list (Z * bytes))
| FsSynced (entries : list (Z * bytes))
| NsDrained (entries : list (Z * bytes))
| NsWritten (entries : list (Z * bytes)).

Record WalWorld : Type := mkWw {
  ww_writer : ConcurrentWalWriter;
  ww_owner : option Z;
  ww_pcs : gmap Z WPc
}.

Inductive WalEvent : Type :=
| EvReserve (t n : Z)
| EvSubmit (t : Z) (es : list WalEntry)
| EvFlushAndSync (t : Z)
| EvFlushNoSync (t : Z)
| EvFlushStep (t : Z).

Definition wpc (w : WalWorld) (t : Z) : WPc := default WIdle (ww_pcs w !! t).
Definition wset (w : WalWorld) (c : ConcurrentWalWriter) (o : option Z) (t : Z) (pc : WPc) : WalWorld :=
  mkWw c o (<[t := pc]> (ww_pcs w)).

Definition wal_exec (w : WalWorld) (ev : WalEvent) : option WalWorld :=
  let c := ww_writer w in
  match ev with
  | EvReserve t n =>
      match wpc w t with
      | WIdle => let '(base, c') := reserve_lsns n c in Some (wset w c' (ww_owner w) t (WReserved base n))
      | _ => None
      end
  | EvSubmit t es =>
      match wpc w t with
      | WReserved base n =>
          if bool_decide (zlen es = n)
          then Some (wset w (write_batch base (enc (stamp base es)) c) (ww_owner w) t WIdle)
          else None
      | _ => None
      end
  | EvFlushAndSync t =>
      match wpc w t, ww_owner w with
      | WIdle, None => Some (wset w c (Some t) t FsLocked)
      | _, _ => None
      end
  | EvFlushNoSync t =>
      match wpc w t with
      | WIdle => let '(entries, c') := drain c in Some (wset w c' (ww_owner w) t (NsDrained entries))
      | _ => None
      end
  | EvFlushStep t =>
      match wpc w t, ww_owner w with
      | FsLocked, o => let '(entries, c') := drain c in Some (wset w c' o t (FsDrained entries))
      | FsDrained entries, o => Some (wset w (write_and_flush entries c) o t (FsWritten entries))
      | FsWritten entries, o => Some (wset w (sync c) o t (FsSynced entries))
      | FsSynced entries, o => Some (wset w (advance_flushed entries c) None t WIdle)
      | NsDrained entries, None => Some (wset w (write_and_flush entries c) (Some t) t (NsWritten entries))
      | NsWritten entries, o => Some (wset w (advance_flushed entries c) None t WIdle)
      | _, _ => None
      end
  end.

Fixpoint wal_run (w : WalWorld) (evs : list WalEvent) : option WalWorld :=
  match evs with
  | [] => Some w
  | ev :: evs' => let! w' := wal_exec w ev in wal_run w' evs'
  end.

Definition wal_init : WalWorld := mkWw cw_create None ∅.
End Writer.

(** ** The file under the writer *)

(** [content] is what the log holds: its prefix [pre] is in the file, the rest in the
    buffer, and the file is padded with zeros up to the reserved end. *)
Record repr (w : WriterState) (pre content : bytes) : Prop := {
  rp_content : content = pre ++ ws_buf w;
  rp_pos : ws_pos w = zlen pre;
  rp_end : ws_logical_end w = zlen content;
  rp_file : ws_file w = pre ++ replicate (Z.to_nat (ws_reserved_end w - zlen pre)) 0;
  rp_reserved : zlen content <= ws_reserved_end w
}.

Lemma take_padded (pre : bytes) k n : (length pre <= n)%nat ->
  set_len (Z.of_nat n) (pre ++ replicate k 0) = pre ++ replicate (n - length pre) 0.
Proof.
  intros Hn. unfold set_len. rewrite Nat2Z.id, take_app_ge by done. rewrite take_replicate, <-app_assoc.
  f_equal. rewrite <-replicate_add, length_app, length_replicate. f_equal. lia.
Qed.

Lemma set_len_pad n (h : bytes) : zlen h <= n -> set_len n h = h ++ replicate (Z.to_nat (n - zlen h)) 0.
Proof. intros Hn. unfold set_len. rewrite take_ge by lia. do 2 f_equal. lia. Qed.

(** Writing right after the prefix. *)
Lemma write_at_padded (pre bs : bytes) k :
  (length bs <= k)%nat ->
  write_at (zlen pre) bs (pre ++ replicate k 0) = (pre ++ bs) ++ replicate (k - length bs) 0.
Proof.
  intros Hk. unfold write_at. rewrite take_padded by lia. rewrite Nat.sub_diag, Nat2Z.id, app_nil_r.
  rewrite <-app_assoc. do 2 f_equal. rewrite drop_app_ge by lia. rewrite drop_replicate. f_equal. lia.
Qed.

Lemma repr_flush w pre content : repr w pre content -> repr (bw_flush w) content content.
Proof.
  intros [Hc Hp He Hf Hr]. split; cbn; [by rewrite app_nil_r|subst; rewrite length_app; lia|done| |done].
  rewrite Hp, Hf. rewrite Hc in Hr. rewrite length_app in Hr.
  rewrite write_at_padded by lia. rewrite <-Hc. f_equal. f_equal. subst content. rewrite length_app. lia.
Qed.

Lemma repr_sync w pre content : repr w pre content -> repr (ws_sync w) pre content.
Proof. by intros []. Qed.

Lemma round_up_spec v q : 0 < q -> 0 <= v -> v <= round_up v q.
Proof.
  intros Hq Hv. unfold round_up. destruct (Z.eqb_spec v 0); [lia|].
  pose proof (Z.div_mod (v + q - 1) q ltac:(lia)). pose proof (Z.mod_pos_bound (v + q - 1) q Hq). lia.
Qed.

Lemma repr_ensure w pre content req :
  repr w pre content -> zlen content <= req ->
  exists pre', repr (ensure_capacity w req) pre' content /\ req <= ws_reserved_end (ensure_capacity w req).
Proof.
  intros Hr Hreq. unfold ensure_capacity. destruct (Z.leb_spec req (ws_reserved_end w)); [by exists pre|].
  pose proof (round_up_spec req PREALLOC_CHUNK ltac:(done) ltac:(lia)) as Hup.
  exists content. cbn [ws_reserved_end]. split; [|done].
  destruct (repr_flush w pre content Hr) as [Hc Hp He Hf Hrs].
  split; cbn [ws_buf ws_pos ws_logical_end ws_file ws_reserved_end]; [done|done|done| |lia].
  rewrite Hf. replace (round_up req PREALLOC_CHUNK) with (Z.of_nat (Z.to_nat (round_up req PREALLOC_CHUNK))) at 1 by lia.
  rewrite take_padded by lia. do 2 f_equal. lia.
Qed.

Lemma repr_push w pre content bs :
  repr w pre content -> ws_logical_end w + zlen bs <= ws_reserved_end w ->
  exists pre', repr (mkWs (ws_file (bw_write_all bs w)) (ws_disk (bw_write_all bs w)) (ws_pos (bw_write_all bs w))
      (ws_buf (bw_write_all bs w)) (ws_logical_end w + zlen bs) (ws_reserved_end w)) pre' (content ++ bs) /\
    ws_logical_end (bw_write_all bs w) = ws_logical_end w /\ ws_reserved_end (bw_write_all bs w) = ws_reserved_end w.
Proof.
  intros Hr Hcap. pose proof (rp_end _ _ _ Hr) as He.
  assert (Hpush : forall v pv, repr v pv content -> ws_reserved_end v = ws_reserved_end w ->
    repr (mkWs (ws_file v) (ws_disk v) (ws_pos v) (ws_buf v ++ bs) (ws_logical_end w + zlen bs) (ws_reserved_end w))
      pv (content ++ bs)).
  { intros v pv [Hc Hp _ Hf _] Hrs. split; cbn; [by rewrite Hc, <-app_assoc|done|rewrite length_app; lia| |rewrite length_app; lia].
    by rewrite Hf, Hrs. }
  assert (Hdirect : forall v, repr v content content -> ws_reserved_end v = ws_reserved_end w ->
    repr (mkWs (write_at (ws_pos v) bs (ws_file v)) (ws_disk v) (ws_pos v + zlen bs) (ws_buf v)
      (ws_logical_end w + zlen bs) (ws_reserved_end w)) (content ++ bs) (content ++ bs)).
  { intros v [Hc Hp _ Hf _] Hrs. assert (Hnil : ws_buf v = []).
    { apply (app_inv_head content). by rewrite <-Hc, app_nil_r. }
    split; cbn; [by rewrite Hnil, app_nil_r|rewrite Hp, length_app; lia|rewrite length_app; lia| |rewrite length_app; lia].
    rewrite Hp, Hf, write_at_padded by lia. f_equal. f_equal. rewrite length_app. lia. }
  pose proof (repr_flush w pre content Hr) as Hfl.
  unfold bw_write_all. destruct (zlen bs <? _) eqn:Hfit; [exists pre; split; [by apply (Hpush w)|done]|].
  destruct (_ <? zlen bs) eqn:Hsp; destruct (BUF_CAPACITY <=? zlen bs) eqn:Hbig.
  - exists (content ++ bs). split; [|done]. by apply (Hdirect (bw_flush w)).
  - exists content. split; [|done]. by apply (Hpush (bw_flush w)).
  - exists (content ++ bs). split; [|done]. apply Z.ltb_ge in Hsp, Hfit. apply Z.leb_le in Hbig.
    apply (Hdirect w); [|done]. assert (Hnil : ws_buf w = []) by (apply length_zero_iff_nil; lia).
    assert (pre = content) as <- by (rewrite (rp_content _ _ _ Hr), Hnil, app_nil_r; done). done.
  - exists pre. split; [|done]. by apply (Hpush w).
Qed.

Lemma repr_entries entries : forall w pre content,
  repr w pre content -> ws_logical_end w + zlen (concat entries) <= ws_reserved_end w ->
  exists pre', repr (foldl write_entry w entries) pre' (content ++ concat entries).
Proof.
  induction entries as [|bs entries IH]; intros w pre content Hr Hcap; cbn [foldl concat].
  { exists pre. by rewrite app_nil_r. }
  cbn [concat] in Hcap. rewrite length_app in Hcap.
  destruct (repr_push w pre content bs Hr) as (pre' & Hr' & Hle & Hre); [lia|].
  rewrite app_assoc. apply (IH _ pre'); unfold write_entry; rewrite Hle, Hre; [done|cbn; lia].
Qed.

Lemma total_len_concat entries : total_len entries = zlen (concat entries.*2).
Proof.
  induction entries as [|[l bs] entries IH]; [done|]. cbn [fmap list_fmap concat]. rewrite length_app.
  unfold total_len in *. cbn [foldr snd]. cbn in *. lia.
Qed.

(** Writing a list of records and flushing leaves everything in the file. *)
Lemma repr_write_flush w content entries :
  repr w content content ->
  repr (bw_flush (write_entries w entries)) (content ++ concat entries.*2) (content ++ concat entries.*2).
Proof.
  intros Hr. destruct entries as [|x entries].
  - cbn. rewrite app_nil_r. by apply repr_flush in Hr.
  - unfold write_entries. set (es := x :: entries).
    destruct (repr_ensure w content content (ws_logical_end w + total_len es) Hr) as (pre' & Hr' & Hcap).
    { rewrite (rp_end _ _ _ Hr), total_len_concat. lia. }
    destruct (repr_entries es.*2 _ _ _ Hr') as (pre'' & Hr'').
    { rewrite (rp_end _ _ _ Hr'), <-(rp_end _ _ _ Hr), <-total_len_concat. done. }
    by apply repr_flush in Hr''.
Qed.

(** ** Executions and their history *)

(** A batch: its first LSN and its entries. *)
Abbreviation Batch := ((Z * list WalEntry)%type).

(** What happened so far: the batches submitted; for a thread inside [flush_and_sync],
    those submitted before its call; and those a completed [flush_and_sync] covered. *)
Record Hist : Type := mkHist {
  h_sub : list Batch;
  h_since : gmap Z (list Batch);
  h_acked : list Batch
}.

Definition hist_step (w : WalWorld) (ev : WalEvent) (h : Hist) : Hist :=
  match ev with
  | EvSubmit t ((_ :: _) as es) =>
      match wpc w t with
      | WReserved base _ => mkHist (h_sub h ++ [(base, stamp base es)]) (h_since h) (h_acked h)
      | _ => h
      end
  | EvFlushAndSync t => mkHist (h_sub h) (<[t := h_sub h]> (h_since h)) (h_acked h)
  | EvFlushStep t =>
      match wpc w t with
      | FsSynced _ => mkHist (h_sub h) (h_since h) (h_acked h ++ default [] (h_since h !! t))
      | _ => h
      end
  | _ => h
  end.

(** Reservations do not overflow, and the entries have the widths of their types. *)
Definition ev_ok (w : WalWorld) (ev : WalEvent) : Prop :=
  match ev with
  | EvReserve _ n => 0 <= n /\ next_lsn (ww_writer w) + n < 2 ^ 64
  | EvSubmit _ es => Forall wal_ok es
  | _ => True
  end.

Section Executions.
Context {C : Crc32c}.

(** States reached by events that satisfy [P], with their history. *)
Inductive wreach (P : WalEvent -> Prop) : WalWorld -> Hist -> Prop :=
| wr_init : wreach P wal_init (mkHist [] ∅ [])
| wr_step w h ev w' :
    wreach P w h -> P ev -> ev_ok w ev -> wal_exec w ev = Some w' -> wreach P w' (hist_step w ev h).
End Executions.

(** *** Flattening a map of lists *)

Definition mflat {A B} (f : A -> list B) (m : gmap Z A) : list B := map_to_list m ≫= (fun x => f x.2).

Lemma mflat_delete {A B} (f : A -> list B) m t :
  mflat f m ≡ₚ from_option f [] (m !! t) ++ mflat f (delete t m).
Proof.
  unfold mflat. destruct (m !! t) as [x|] eqn:Ht; cbn [from_option].
  - by rewrite <-(map_to_list_delete m t x Ht).
  - by rewrite delete_id.
Qed.

Lemma mflat_insert {A B} (f : A -> list B) m t x :
  mflat f (<[t := x]> m) ≡ₚ f x ++ mflat f (delete t m).
Proof. by rewrite (mflat_delete f _ t), lookup_insert_eq, delete_insert_eq. Qed.

(** *** Batches *)

Section Batches.
Context {C : Crc32c}.

Definition bbytes (b : Batch) : Z * bytes := (b.1, enc b.2).

Lemma concat_bbytes bs : concat (bbytes <$> bs).*2 = enc (concat bs.*2).
Proof.
  induction bs as [|b bs IH]; [done|]. rewrite !fmap_cons. cbn [concat]. by rewrite enc_app, <-IH.
Qed.

Lemma stamp_spec base es :
  length (stamp base es) = length es /\ lsn <$> stamp base es = seqZ base (zlen es).
Proof.
  unfold stamp. split; [rewrite length_zip_with, length_seqZ; lia|].
  rewrite fmap_zip_with_r; [done|done|rewrite length_seqZ; lia].
Qed.

Lemma stamp_ok base es :
  0 <= base -> base + zlen es <= 2 ^ 64 -> Forall wal_ok es -> Forall wal_ok (stamp base es).
Proof.
  intros Hb Hlim Hes. apply Forall_forall. intros e (e0 & l & -> & He & Hl)%elem_of_zip_with.
  apply elem_of_seqZ in Hl. eapply Forall_forall in Hes as [ ]; [|exact He]. split; try done.
  cbn [lsn set_lsn]. widths.
Qed.
End Batches.

(** ** Conservation *)

Section Conservation.
Context {C : Crc32c}.

(** Records drained from the queue but not yet written. *)
Definition inflight (pc : WPc) : list (Z * bytes) :=
  match pc with FsDrained entries | NsDrained entries => entries | _ => [] end.

(** LSNs reserved but not yet submitted. *)
Definition reserved_lsns (pc : WPc) : list Z :=
  match pc with WReserved base n => seqZ base n | _ => [] end.

Definition log_content (wr : list Batch) : bytes := write_header 0 ++ enc (concat wr.*2).

(** The batches written to the file [wr], drained per thread [ds] and queued [qs]. *)
Record winv (w : WalWorld) (h : Hist) (wr : list Batch) (ds : gmap Z (list Batch)) (qs : list Batch)
    : Prop := {
  wi_repr : repr (cw_writer (ww_writer w)) (log_content wr) (log_content wr);
  wi_queue : wq_entries (cw_queue (ww_writer w)) = bbytes <$> qs;
  wi_flight : forall t, inflight (wpc w t) = bbytes <$> default [] (ds !! t);
  wi_perm : wr ++ mflat id ds ++ qs ≡ₚ h_sub h
}.

Lemma wpc_wset w c o t pc t' : wpc (wset w c o t pc) t' = if decide (t' = t) then pc else wpc w t'.
Proof.
  unfold wpc, wset. cbn. destruct (decide (t' = t)) as [->|].
  - by rewrite lookup_insert_eq.
  - by rewrite lookup_insert_ne.
Qed.

Lemma log_content_app wr bs : log_content (wr ++ bs) = log_content wr ++ concat (bbytes <$> bs).*2.
Proof. unfold log_content. by rewrite concat_bbytes, fmap_app, concat_app, enc_app, app_assoc. Qed.

(** A step of thread [t] that leaves the file and the queue alone. *)
Lemma winv_pc w h wr ds qs c o t pc h' :
  winv w h wr ds qs ->
  (forall a b, repr (cw_writer (ww_writer w)) a b -> repr (cw_writer c) a b) ->
  cw_queue c = cw_queue (ww_writer w) -> inflight pc = inflight (wpc w t) -> h_sub h' = h_sub h ->
  winv (wset w c o t pc) h' wr ds qs.
Proof.
  intros [Hr Hq Hf Hp] Hw Hcq Hpc Hh.
  split; cbn [ww_writer wset]; [by apply Hw|by rewrite Hcq| |by rewrite Hh].
  intros t'. rewrite wpc_wset. destruct (decide (t' = t)) as [->|]; [by rewrite Hpc|done].
Qed.

Lemma drain_batches qs :
  exists ds, merge_sort lsn_le (bbytes <$> qs) = bbytes <$> ds /\ ds ≡ₚ qs.
Proof.
  pose proof (merge_sort_Permutation lsn_le (bbytes <$> qs)) as Hp.
  destruct (Permutation_map_inv _ _ Hp) as (ds & Heq & Hds). by exists ds.
Qed.

Lemma winv_drain w h wr ds qs t pc entries c o :
  winv w h wr ds qs -> drain (ww_writer w) = (entries, c) -> inflight (wpc w t) = [] ->
  inflight pc = entries ->
  exists ds' d, winv (wset w c o t pc) h wr ds' [] /\ ds' = <[t := d]> ds /\ d ≡ₚ qs.
Proof.
  intros [Hr Hq Hf Hp] Hdr Hpc Hin. unfold drain, drain_sorted in Hdr. rewrite Hq in Hdr. apply (inj2 pair) in Hdr as [<- <-].
  destruct (drain_batches qs) as (d & Hd & Hperm). exists (<[t := d]> ds), d. split; [|done].
  split; cbn [ww_writer wset set_queue cw_writer cw_queue wq_entries wq_new]; [done|done| |].
  - intros t'. rewrite wpc_wset. destruct (decide (t' = t)) as [->|].
    + by rewrite lookup_insert_eq, Hin.
    + by rewrite lookup_insert_ne.
  - rewrite <-Hp, app_nil_r, mflat_insert, (mflat_delete id ds t).
    assert (Hnil : from_option id [] (ds !! t) = []).
    { specialize (Hf t). rewrite Hpc in Hf. destruct (ds !! t) as [x|]; [|done]. cbn in *. by destruct x. }
    rewrite Hnil. cbn [app id]. rewrite Hperm. by rewrite (Permutation_app_comm qs).
Qed.

Lemma winv_write w h wr ds qs t pc entries o :
  winv w h wr ds qs -> inflight (wpc w t) = entries -> inflight pc = [] ->
  winv (wset w (write_and_flush entries (ww_writer w)) o t pc) h
    (wr ++ default [] (ds !! t)) (delete t ds) qs.
Proof.
  intros [Hr Hq Hf Hp] Hpc Hin. pose proof (Hf t) as Hft. rewrite Hpc in Hft. subst entries.
  split; cbn [ww_writer wset write_and_flush set_writer cw_writer cw_queue]; [|done| |].
  - rewrite Hft, log_content_app. by apply repr_write_flush.
  - intros t'. rewrite wpc_wset. destruct (decide (t' = t)) as [->|].
    + by rewrite lookup_delete_eq, Hin.
    + by rewrite lookup_delete_ne.
  - rewrite <-Hp, (mflat_delete id ds t). rewrite <-!app_assoc. by destruct (ds !! t).
Qed.

Lemma write_batch_cons base e es c :
  write_batch base (enc (stamp base (e :: es))) c = enqueue base (enc (stamp base (e :: es))) c.
Proof.
  pose proof (len_enc_ge (stamp base (e :: es))) as Hl. rewrite (proj1 (stamp_spec _ _)) in Hl.
  unfold write_batch. destruct (enc _); [cbn in Hl; lia|done].
Qed.

Lemma winv_submit w h wr ds qs base n t es :
  winv w h wr ds qs -> wpc w t = WReserved base n ->
  exists qs', winv (wset w (write_batch base (enc (stamp base es)) (ww_writer w)) (ww_owner w) t WIdle)
    (hist_step w (EvSubmit t es) h) wr ds qs' /\ qs ⊆ qs'.
Proof.
  intros Hi Hpc. destruct es as [|e es].
  { exists qs. cbn [hist_step]. split; [|done]. eapply winv_pc; [done|done|done|by rewrite Hpc|done]. }
  exists (qs ++ [(base, stamp base (e :: es))]). split; [|by apply list_subseteq_app_l]. rewrite write_batch_cons. destruct Hi as [Hr Hq Hf Hp].
  cbn [hist_step]. rewrite Hpc. split; cbn [ww_writer wset enqueue cw_writer cw_queue wq_entries wq_push h_sub].
  - done.
  - by rewrite fmap_app, Hq.
  - intros t'. rewrite wpc_wset. destruct (decide (t' = t)) as [->|]; [|done]. rewrite <-Hf. by rewrite Hpc.
  - rewrite <-Hp. by rewrite <-!app_assoc.
Qed.

(** Every step keeps the bookkeeping; the written batches only grow. *)
Lemma winv_step w h wr ds qs ev w' :
  winv w h wr ds qs -> wal_exec w ev = Some w' ->
  exists wr' ds' qs', winv w' (hist_step w ev h) wr' ds' qs' /\ wr `prefix_of` wr'.
Proof.
  intros Hi He. destruct ev as [t n|t es|t|t|t]; cbn [wal_exec] in He; destruct (wpc w t) as [|base n'| |en|en|en|en|en] eqn:Hpc;
    try done; cbn [hist_step].
  - destruct (reserve_lsns n (ww_writer w)) as [b c] eqn:Hr. simplify_eq. exists wr, ds, qs. split; [|done].
    unfold reserve_lsns in Hr. simplify_eq. eapply winv_pc; [done|done|done|by rewrite Hpc|done].
  - case_bool_decide; [|done]. apply (inj Some) in He. subst w'.
    destruct (winv_submit w h wr ds qs base n' t es Hi Hpc) as (qs' & Hs & _). by exists wr, ds, qs'.
  - destruct (ww_owner w); [done|]. simplify_eq. exists wr, ds, qs. split; [|done].
    eapply winv_pc; [done|done|done|by rewrite Hpc|done].
  - destruct (drain (ww_writer w)) as [entries c] eqn:Hd. simplify_eq.
    destruct (winv_drain w h wr ds qs t (NsDrained entries) entries c (ww_owner w) Hi Hd)
      as (ds' & d & Hs & _); [by rewrite Hpc|done|]. by exists wr, ds', [].
  - destruct (drain (ww_writer w)) as [entries c] eqn:Hd. simplify_eq. rewrite Hpc.
    destruct (winv_drain w h wr ds qs t (FsDrained entries) entries c (ww_owner w) Hi Hd)
      as (ds' & d & Hs & _); [by rewrite Hpc|done|]. by exists wr, ds', [].
  - simplify_eq. rewrite Hpc. eexists _, _, qs. split; [|by apply prefix_app_r].
    eapply winv_write; [done|by rewrite Hpc|done].
  - simplify_eq. rewrite Hpc. exists wr, ds, qs. split; [|done].
    eapply winv_pc; [done|intros a b; apply repr_sync|done|by rewrite Hpc|done].
  - simplify_eq. rewrite Hpc. exists wr, ds, qs. split; [|done].
    eapply winv_pc; [done| | |by rewrite Hpc|done]; unfold advance_flushed; by destruct (last en) as [[]|].
  - destruct (ww_owner w); [done|]. simplify_eq. rewrite Hpc. eexists _, _, qs. split; [|by apply prefix_app_r].
    eapply winv_write; [done|by rewrite Hpc|done].
  - simplify_eq. rewrite Hpc. exists wr, ds, qs. split; [|done].
    eapply winv_pc; [done| | |by rewrite Hpc|done]; unfold advance_flushed; by destruct (last en) as [[]|].
Qed.

Lemma winv_init : winv wal_init (mkHist [] ∅ []) [] ∅ [].
Proof.
  split; [|done|done|done]. unfold log_content, wal_init, cw_create, enc. cbn [ww_writer cw_writer concat fmap list_fmap].
  pose proof (len_write_header 0) as Hh. rewrite app_nil_r.
  split; cbn [ws_buf ws_pos ws_logical_end ws_file ws_reserved_end]; [by rewrite app_nil_r|done|done| |rewrite Hh; by vm_compute].
  apply set_len_pad. by rewrite Hh.
Qed.
End Conservation.

(** ** LSNs *)

Section Lsns.
Context {C : Crc32c}.

Definition all_lsns (h : Hist) : list Z := lsn <$> concat (h_sub h).*2.

Record linv (w : WalWorld) (h : Hist) : Prop := {
  li_next : 1 <= next_lsn (ww_writer w) < 2 ^ 64;
  li_ok : Forall wal_ok (concat (h_sub h).*2);
  li_nodup : NoDup (all_lsns h ++ mflat reserved_lsns (ww_pcs w));
  li_lt : Forall (fun l => 1 <= l < next_lsn (ww_writer w)) (all_lsns h ++ mflat reserved_lsns (ww_pcs w))
}.

Lemma linv_perm w h w' h' :
  linv w h -> next_lsn (ww_writer w') = next_lsn (ww_writer w) -> Forall wal_ok (concat (h_sub h').*2) ->
  all_lsns h' ++ mflat reserved_lsns (ww_pcs w') ≡ₚ all_lsns h ++ mflat reserved_lsns (ww_pcs w) ->
  linv w' h'.
Proof.
  intros [Hn Hok Hnd Hlt] Hn' Hok' Hp. split; rewrite ?Hn', ?Hp; done.
Qed.

Lemma reserved_at w t :
  mflat reserved_lsns (ww_pcs w) ≡ₚ reserved_lsns (wpc w t) ++ mflat reserved_lsns (delete t (ww_pcs w)).
Proof. rewrite (mflat_delete _ _ t) at 1. unfold wpc. by destruct (ww_pcs w !! t). Qed.

(** A step that neither reserves nor submits. *)
Lemma linv_pc w h c o t pc h' :
  linv w h -> next_lsn c = next_lsn (ww_writer w) -> reserved_lsns pc = reserved_lsns (wpc w t) ->
  h_sub h' = h_sub h -> linv (wset w c o t pc) h'.
Proof.
  intros Hi Hn Hpc Hh. eapply linv_perm; [done|done|rewrite Hh; apply Hi|].
  unfold all_lsns. rewrite Hh. cbn [ww_pcs wset]. by rewrite mflat_insert, (reserved_at w t), Hpc.
Qed.

Lemma linv_reserve w h t n o :
  linv w h -> wpc w t = WIdle -> 0 <= n -> next_lsn (ww_writer w) + n < 2 ^ 64 ->
  linv (wset w (reserve_lsns n (ww_writer w)).2 o t (WReserved (next_lsn (ww_writer w)) n)) h.
Proof.
  intros [Hn Hok Hnd Hlt] Hpc Hn0 Hlim. rewrite (reserved_at w t), Hpc in Hnd, Hlt. cbn [reserved_lsns app] in Hnd, Hlt.
  assert (Hw : wrap64 (next_lsn (ww_writer w) + n) = next_lsn (ww_writer w) + n) by (apply Z.mod_small; lia).
  split; cbn [ww_writer ww_pcs wset reserve_lsns snd next_lsn]; rewrite ?Hw; [lia|done| |].
  - rewrite mflat_insert. cbn [reserved_lsns]. rewrite Permutation_app_swap_app. apply NoDup_app.
    split_and!; [apply NoDup_seqZ| |done]. intros l Hl Hin. apply elem_of_seqZ in Hl.
    eapply Forall_forall in Hlt; [|exact Hin]. lia.
  - rewrite mflat_insert. cbn [reserved_lsns]. rewrite Permutation_app_swap_app. apply Forall_app. split.
    + apply Forall_seqZ. lia.
    + eapply Forall_impl; [exact Hlt|]. cbn. lia.
Qed.

Lemma linv_submit w h base t es c o :
  linv w h -> wpc w t = WReserved base (zlen es) -> Forall wal_ok es -> next_lsn c = next_lsn (ww_writer w) ->
  linv (wset w c o t WIdle) (hist_step w (EvSubmit t es) h).
Proof.
  intros Hi Hpc Hes Hn. pose proof Hi as [Hnx Hok Hnd Hlt]. rewrite (reserved_at w t), Hpc in Hlt.
  cbn [reserved_lsns] in Hlt.
  destruct es as [|e es].
  { cbn [hist_step]. eapply linv_pc; [done|done|by rewrite Hpc|done]. }
  set (es' := e :: es) in *.
  assert (Hrange : 1 <= base /\ base + zlen es' <= 2 ^ 64).
  { apply Forall_app in Hlt as [_ Hlt]. apply Forall_app in Hlt as [Hlt _]. rewrite Forall_seqZ in Hlt.
    assert (0 < zlen es') by (cbn; lia).
    pose proof (Hlt base ltac:(lia)). pose proof (Hlt (base + zlen es' - 1) ltac:(lia)). lia. }
  eapply linv_perm; [done|done| |].
  - cbn [hist_step es']. rewrite Hpc. cbn [h_sub]. rewrite fmap_app, concat_app. apply Forall_app. split; [done|].
    cbn [concat fmap list_fmap snd]. rewrite app_nil_r. apply stamp_ok; [lia|lia|done].
  - cbn [hist_step es']. rewrite Hpc. unfold all_lsns. cbn [h_sub ww_pcs wset].
    rewrite mflat_insert, (reserved_at w t), Hpc. cbn [reserved_lsns app].
    rewrite fmap_app, concat_app, fmap_app, <-app_assoc. f_equiv.
    cbn [concat fmap list_fmap snd]. rewrite app_nil_r. f_equiv.
    fold es'. by rewrite (proj2 (stamp_spec base es')).
Qed.

Lemma linv_step w h ev w' :
  linv w h -> ev_ok w ev -> wal_exec w ev = Some w' -> linv w' (hist_step w ev h).
Proof.
  intros Hi Hok He.
  destruct ev as [t n|t es|t|t|t]; cbn [wal_exec] in He;
    destruct (wpc w t) as [|base n'| |en|en|en|en|en] eqn:Hpc; try done; cbn [ev_ok] in Hok.
  - destruct (reserve_lsns n (ww_writer w)) as [b c] eqn:Hr. apply (inj Some) in He. subst w'.
    pose proof (linv_reserve w h t n (ww_owner w) Hi Hpc (proj1 Hok) (proj2 Hok)) as Hl. rewrite Hr in Hl.
    unfold reserve_lsns in Hr. apply (inj2 pair) in Hr as [<- _]. done.
  - case_bool_decide as Hz; [|done]. apply (inj Some) in He. subst w' n'.
    apply (linv_submit w h base t es _ _ Hi Hpc Hok). destruct es; [done|]. by rewrite write_batch_cons.
  - destruct (ww_owner w); [done|]. apply (inj Some) in He. subst w'. eapply linv_pc; [done|done|by rewrite Hpc|done].
  - unfold drain, drain_sorted in He. apply (inj Some) in He. subst w'. eapply linv_pc; [done|done|by rewrite Hpc|done].
  - unfold drain, drain_sorted in He. apply (inj Some) in He. subst w'. eapply linv_pc; [done|done|by rewrite Hpc|].
    cbn [hist_step]. by rewrite Hpc.
  - apply (inj Some) in He. subst w'. eapply linv_pc; [done|done|by rewrite Hpc|]. cbn [hist_step]. by rewrite Hpc.
  - apply (inj Some) in He. subst w'. eapply linv_pc; [done|done|by rewrite Hpc|]. cbn [hist_step]. by rewrite Hpc.
  - apply (inj Some) in He. subst w'. eapply linv_pc; [done| |by rewrite Hpc|].
    + unfold advance_flushed. by destruct (last en) as [[]|].
    + cbn [hist_step]. by rewrite Hpc.
  - destruct (ww_owner w); [done|]. apply (inj Some) in He. subst w'. eapply linv_pc; [done|done|by rewrite Hpc|].
    cbn [hist_step]. by rewrite Hpc.
  - apply (inj Some) in He. subst w'. eapply linv_pc; [done| |by rewrite Hpc|].
    + unfold advance_flushed. by destruct (last en) as [[]|].
    + cbn [hist_step]. by rewrite Hpc.
Qed.

Lemma linv_init : linv wal_init (mkHist [] ∅ []).
Proof. split; [cbn; lia|constructor|constructor|constructor]. Qed.

(** Both invariants hold of every execution. *)
Lemma wreach_inv P w h :
  wreach P w h -> linv w h /\ exists wr ds qs, winv w h wr ds qs.
Proof.
  induction 1 as [|w h ev w' _ [Hl (wr & ds & qs & Hi)] HP Hok He].
  - split; [apply linv_init|]. exists [], ∅, []. apply winv_init.
  - split; [by eapply linv_step|]. destruct (winv_step _ _ _ _ _ _ _ Hi He) as (wr' & ds' & qs' & H & _). eauto.
Qed.
End Lsns.

(** ** What a completed flush guarantees *)

Section Durability.
Context {C : Crc32c}.

Definition since (h : Hist) (t : Z) : list Batch := default [] (h_since h !! t).

(** Where the batches of a flush in progress are. *)
Definition flush_promise (h : Hist) (wr wd qs : list Batch) (ds : gmap Z (list Batch)) (t : Z) (pc : WPc) : Prop :=
  match pc with
  | FsLocked => since h t ⊆ wr ++ qs
  | FsDrained _ => since h t ⊆ wr ++ default [] (ds !! t)
  | FsWritten _ => since h t ⊆ wr
  | FsSynced _ => since h t ⊆ wd
  | NsDrained _ | NsWritten _ => False
  | _ => True
  end.

Definition in_flush (pc : WPc) : bool :=
  match pc with FsLocked | FsDrained _ | FsWritten _ | FsSynced _ => true | _ => false end.

(** [wd] is what is on disk. *)
Record dinv (w : WalWorld) (h : Hist) (wr wd qs : list Batch) (ds : gmap Z (list Batch)) : Prop := {
  di_disk : exists k, ws_disk (cw_writer (ww_writer w)) = log_content wd ++ replicate k 0;
  di_prefix : wd `prefix_of` wr;
  di_owner : forall t, in_flush (wpc w t) = true -> ww_owner w = Some t;
  di_promise : forall t, flush_promise h wr wd qs ds t (wpc w t);
  di_acked : h_acked h ⊆ wd
}.

Lemma bw_write_all_disk bs w : ws_disk (bw_write_all bs w) = ws_disk w.
Proof. unfold bw_write_all. by repeat case_match. Qed.

Lemma foldl_write_disk bss : forall w, ws_disk (foldl write_entry w bss) = ws_disk w.
Proof.
  induction bss as [|bs bss IH]; intros w; cbn [foldl]; [done|]. rewrite IH. cbn. apply bw_write_all_disk.
Qed.

(** Growing the file syncs what was already in it; nothing else reaches the disk. *)
Lemma write_flush_disk w content entries :
  repr w content content ->
  ws_disk (bw_flush (write_entries w entries)) = ws_disk w \/
  exists k, ws_disk (bw_flush (write_entries w entries)) = content ++ replicate k 0.
Proof.
  intros Hr. cbn [bw_flush ws_disk]. unfold write_entries. destruct entries as [|x entries]; [by left|].
  rewrite foldl_write_disk. set (req := ws_logical_end w + _).
  destruct (repr_ensure w content content req Hr) as (pre & Hre & Hcap).
  { unfold req. rewrite (rp_end _ _ _ Hr), total_len_concat. lia. }
  unfold ensure_capacity in *. destruct (req <=? ws_reserved_end w); [by left|right].
  cbn [ws_disk]. pose proof (repr_flush _ _ _ Hr) as Hfl.
  rewrite (rp_file _ _ _ Hfl). set (R := round_up req PREALLOC_CHUNK) in *.
  cbn [ws_reserved_end] in Hcap. assert (zlen content <= R).
  { unfold req in Hcap. rewrite (rp_end _ _ _ Hr), total_len_concat in Hcap. lia. }
  replace R with (Z.of_nat (Z.to_nat R)) by lia. rewrite take_padded by lia. eauto.
Qed.

Lemma promise_mono h h' wr wr' wd wd' qs qs' ds t pc :
  flush_promise h wr wd qs ds t pc -> since h' t = since h t -> wr ⊆ wr' -> wd ⊆ wd' -> qs ⊆ qs' ->
  flush_promise h' wr' wd' qs' ds t pc.
Proof. intros Hp Hs H1 H2 H3. destruct pc; cbn in *; rewrite ?Hs; set_solver. Qed.

Lemma prefix_sub (l k : list Batch) : l `prefix_of` k -> l ⊆ k.
Proof. intros [x ->] b Hb. apply elem_of_app. by left. Qed.

(** The flush in progress belongs to the owner of the writer mutex; every other thread
    is between calls. *)
Lemma dinv_others w h wr wd qs ds t t' :
  dinv w h wr wd qs ds -> ww_owner w = Some t -> t' ≠ t ->
  forall h' wr' wd' qs' ds', flush_promise h' wr' wd' qs' ds' t' (wpc w t').
Proof.
  intros Hd Ho Hne h' wr' wd' qs' ds'. pose proof (di_owner _ _ _ _ _ _ Hd t') as Hown.
  pose proof (di_promise _ _ _ _ _ _ Hd t') as Hp. rewrite Ho in Hown.
  destruct (wpc w t'); cbn in *; try done; exfalso; apply Hne; by injection (Hown eq_refl).
Qed.

(** A step of the owner inside its flush. *)
Lemma dinv_owner w h wr wd qs ds t c o pc h' wr' wd' qs' ds' :
  dinv w h wr wd qs ds -> ww_owner w = Some t ->
  (exists k, ws_disk (cw_writer c) = log_content wd' ++ replicate k 0) -> wd' `prefix_of` wr' ->
  (in_flush pc = true -> o = Some t) -> flush_promise h' wr' wd' qs' ds' t pc -> h_acked h' ⊆ wd' ->
  dinv (wset w c o t pc) h' wr' wd' qs' ds'.
Proof.
  intros Hd Ho Hdisk Hpre Hpc Hprom Hack. split; [done|done| | |done].
  - intros t'. rewrite wpc_wset. destruct (decide (t' = t)) as [->|Hne]; [done|].
    intros Hf. pose proof (di_owner _ _ _ _ _ _ Hd t' Hf). congruence.
  - intros t'. rewrite wpc_wset. destruct (decide (t' = t)) as [->|Hne]; [done|]. by eapply dinv_others.
Qed.

(** A step of a thread between calls. *)
Lemma dinv_idle w h wr wd qs ds t c pc h' qs' :
  dinv w h wr wd qs ds -> in_flush (wpc w t) = false -> in_flush pc = false ->
  flush_promise h' wr wd qs' ds t pc -> ws_disk (cw_writer c) = ws_disk (cw_writer (ww_writer w)) ->
  h_since h' = h_since h -> h_acked h' = h_acked h -> qs ⊆ qs' ->
  dinv (wset w c (ww_owner w) t pc) h' wr wd qs' ds.
Proof.
  intros [Hdisk Hpre Hown Hprom Hack] Ht Hpc Hpp Hc Hs Ha Hq. split; cbn [ww_writer ww_owner wset]; [by rewrite Hc|done| | |by rewrite Ha].
  - intros t'. rewrite wpc_wset. destruct (decide (t' = t)) as [->|]; [congruence|]. apply Hown.
  - intros t'. rewrite wpc_wset. destruct (decide (t' = t)) as [->|]; [done|].
    eapply promise_mono; [apply Hprom|unfold since; by rewrite Hs|done..].
Qed.

Lemma no_flight w h wr wd qs ds :
  winv w h wr ds qs -> dinv w h wr wd qs ds -> ww_owner w = None -> h_sub h ⊆ wr ++ qs.
Proof.
  intros [_ _ Hf Hp] Hd Ho.
  assert (Hnil : mflat id ds = []).
  { apply elem_of_nil_inv. intros b ([t x] & Hb & Hx%elem_of_map_to_list)%list_elem_of_bind.
    specialize (Hf t). rewrite Hx in Hf. cbn in Hf, Hb. pose proof (di_owner _ _ _ _ _ _ Hd t) as Hown.
    pose proof (di_promise _ _ _ _ _ _ Hd t) as Hprom. rewrite Ho in Hown.
    destruct (wpc w t); cbn in *; try done; try (specialize (Hown eq_refl); done); destruct x; by set_solver. }
  rewrite Hnil in Hp. intros b Hb. rewrite <-Hp in Hb. done.
Qed.

Lemma dinv_init : dinv wal_init (mkHist [] ∅ []) [] [] [] ∅.
Proof.
  split; [|done|done|done|done]. pose proof (rp_file _ _ _ (wi_repr _ _ _ _ _ winv_init)) as Hf.
  exists (Z.to_nat (ws_reserved_end (cw_writer (ww_writer wal_init)) - zlen (log_content []))). rewrite <-Hf.
  unfold wal_init, cw_create. cbn [ww_writer cw_writer ws_disk ws_file]. reflexivity.
Qed.

Lemma dinv_step w h wr wd qs ds ev w' :
  winv w h wr ds qs -> dinv w h wr wd qs ds -> (forall t, ev ≠ EvFlushNoSync t) -> wal_exec w ev = Some w' ->
  exists wr' wd' qs' ds', winv w' (hist_step w ev h) wr' ds' qs' /\ dinv w' (hist_step w ev h) wr' wd' qs' ds'.
Proof.
  intros Hi Hd Hns He. pose proof (wi_repr _ _ _ _ _ Hi) as Hr.
  destruct ev as [t n|t es|t|t|t]; cbn [wal_exec] in He; [| | |by destruct (Hns t)|];
    destruct (wpc w t) as [|base n'| |en|en|en|en|en] eqn:Hpc; try done;
    pose proof (di_promise _ _ _ _ _ _ Hd t) as Hprom; pose proof (di_owner _ _ _ _ _ _ Hd t) as Hown;
    rewrite Hpc in Hprom, Hown; cbn in Hprom, Hown; try done.
  - destruct (reserve_lsns n (ww_writer w)) as [b c] eqn:Hrs. unfold reserve_lsns in Hrs. simplify_eq.
    exists wr, wd, qs, ds. split; [eapply winv_pc; [done|done|done|by rewrite Hpc|done]|].
    eapply dinv_idle; [done|by rewrite Hpc|done..].
  - case_bool_decide; [|done]. apply (inj Some) in He. subst w'.
    destruct (winv_submit w h wr ds qs base n' t es Hi Hpc) as (qs' & Hs & Hq). exists wr, wd, qs', ds. split; [done|].
    eapply dinv_idle; [done|by rewrite Hpc|done|done| | | |done].
    + destruct es; [done|]. by rewrite write_batch_cons.
    + destruct es; [done|]. cbn [hist_step]. by rewrite Hpc.
    + destruct es; [done|]. cbn [hist_step]. by rewrite Hpc.
  - destruct (ww_owner w) eqn:Ho; [done|]. simplify_eq. exists wr, wd, qs, ds. cbn [hist_step].
    split; [eapply winv_pc; [done|done|done|by rewrite Hpc|done]|].
    pose proof (no_flight _ _ _ _ _ _ Hi Hd Ho) as Hnf. destruct Hd as [Hdisk Hpre Howns Hproms Hack].
    split; cbn [ww_writer ww_owner wset h_acked]; [done|done| | |done].
    + intros t'. rewrite wpc_wset. destruct (decide (t' = t)) as [->|]; [done|]. intros Hf. by rewrite (Howns _ Hf) in Ho.
    + intros t'. rewrite wpc_wset. destruct (decide (t' = t)) as [->|Hne].
      * cbn. unfold since. cbn [h_since]. by rewrite lookup_insert_eq.
      * eapply promise_mono; [apply Hproms| |done..]. unfold since. cbn [h_since]. by rewrite lookup_insert_ne.
  - specialize (Hown eq_refl). destruct (drain (ww_writer w)) as [entries c] eqn:Hdr. simplify_eq.
    cbn [hist_step]. rewrite Hpc.
    destruct (winv_drain w h wr ds qs t (FsDrained entries) entries c (ww_owner w) Hi Hdr)
      as (ds' & d & Hs & -> & Hperm); [by rewrite Hpc|done|].
    exists wr, wd, [], (<[t := d]> ds). split; [done|]. unfold drain, drain_sorted in Hdr. simplify_eq.
    eapply dinv_owner; [done|done|apply Hd|apply Hd|done| |apply Hd].
    cbn. rewrite lookup_insert_eq. cbn. intros b Hb. rewrite Hperm. by apply Hprom.
  - specialize (Hown eq_refl). simplify_eq. cbn [hist_step]. rewrite Hpc.
    pose proof (winv_write w h wr ds qs t (FsWritten en) en (ww_owner w) Hi ltac:(by rewrite Hpc) eq_refl) as Hw.
    destruct (write_flush_disk (cw_writer (ww_writer w)) (log_content wr) en Hr) as [Hdk|[k Hdk]].
    + exists (wr ++ default [] (ds !! t)), wd, qs, (delete t ds). split; [done|].
      eapply dinv_owner; [done|done| | |done|done|apply Hd].
      * cbn [cw_writer set_writer write_and_flush]. rewrite Hdk. apply Hd.
      * apply prefix_app_r, Hd.
    + exists (wr ++ default [] (ds !! t)), wr, qs, (delete t ds). split; [done|].
      eapply dinv_owner; [done|done| |by apply prefix_app_r|done|done|].
      * exists k. done.
      * etransitivity; [apply Hd|]. apply prefix_sub, Hd.
  - specialize (Hown eq_refl). simplify_eq. cbn [hist_step]. rewrite Hpc. exists wr, wr, qs, ds.
    split; [eapply winv_pc; [done|intros a b; apply repr_sync|done|by rewrite Hpc|done]|].
    eapply dinv_owner; [done|done| |done|done|done|].
    + eexists. cbn [sync set_writer cw_writer ws_sync ws_disk]. apply (rp_file _ _ _ Hr).
    + etransitivity; [apply Hd|]. apply prefix_sub, Hd.
  - specialize (Hown eq_refl). simplify_eq. cbn [hist_step]. rewrite Hpc. exists wr, wd, qs, ds.
    assert (Hadv : cw_writer (advance_flushed en (ww_writer w)) = cw_writer (ww_writer w) /\
      cw_queue (advance_flushed en (ww_writer w)) = cw_queue (ww_writer w))
      by (unfold advance_flushed; by destruct (last en) as [[]|]).
    destruct Hadv as [Hadv1 Hadv2].
    split; [eapply winv_pc; [done|by rewrite Hadv1|done|by rewrite Hpc|done]|].
    eapply dinv_owner; [done|done|rewrite Hadv1; apply Hd|apply Hd|done|done|].
    cbn [h_acked]. apply list_subseteq_app_iff_l. split; [apply Hd|done].
Qed.
End Durability.

(** ** Properties *)

Section Properties.
Context {C : Crc32c} {CR : Crc32cRange C}.

Lemma perm_written_ok w h wr ds qs :
  linv w h -> winv w h wr ds qs -> Forall wal_ok (concat wr.*2).
Proof.
  intros [_ Hok _ _] [_ _ _ Hp]. rewrite <-Hp in Hok. rewrite fmap_app, concat_app in Hok.
  by apply Forall_app in Hok as [Hok _].
Qed.

Lemma read_padded wr k :
  Forall wal_ok (concat wr.*2) ->
  exists r, reader_open (log_content wr ++ replicate k 0) = Some (Ok r) /\
    collect (forward_next r) (S (length (concat wr.*2))) (scan_forward 0) = Some (Ok <$> concat wr.*2).
Proof.
  intros Hok. assert (Hf : log_content wr ++ replicate k 0 = layout 0 (concat wr.*2) (replicate k 0)).
  { unfold log_content, layout. by rewrite app_assoc. }
  rewrite Hf. destruct (header_roundtrip 0 (enc (concat wr.*2) ++ replicate k 0) in_u64_0) as [Hv _].
  exists (mkReader (layout 0 (concat wr.*2) (replicate k 0)) (WAL_HEADER_SIZE + zlen (enc (concat wr.*2)))). split.
  - unfold reader_open. rewrite (scan_valid_tail_layout 0 _ _ Hok (stops_zeros k)). unfold layout at 1. by rewrite Hv.
  - rewrite (forward_collect 0 _ _ Hok 0 (concat wr.*2) []) by (done || lia). do 2 f_equal.
    clear Hf Hv. induction Hok as [|e es He _ IH]; [done|]. rewrite filter_cons, decide_True, IH; [done|].
    pose proof (wo_lsn _ He). widths.
Qed.

(** C27: whatever the interleaving of reservations, submissions and both kinds of flush,
    no log record is lost, duplicated or damaged. The batches submitted so far are
    exactly those in the file, those drained by a flush in progress and those still
    queued; all their LSNs are distinct; and the file can be opened and reads back
    exactly the entries of the batches written to it, in the order written. *)
Theorem wal_writer_conserves w h :
  wreach (fun _ => True) w h ->
  exists wr fl qs,
    wr ++ fl ++ qs ≡ₚ h_sub h /\
    wq_entries (cw_queue (ww_writer w)) = bbytes <$> qs /\
    ((forall t, inflight (wpc w t) = []) -> fl = []) /\
    NoDup (lsn <$> concat (h_sub h).*2) /\
    exists r, reader_open (ws_file (cw_writer (ww_writer w))) = Some (Ok r) /\
      collect (forward_next r) (S (length (concat wr.*2))) (scan_forward 0) = Some (Ok <$> concat wr.*2).
Proof.
  intros Hreach. destruct (wreach_inv _ _ _ Hreach) as [Hl (wr & ds & qs & Hi)].
  pose proof (perm_written_ok _ _ _ _ _ Hl Hi) as Hok.
  exists wr, (mflat id ds), qs. split_and!; [apply Hi|apply Hi| | |].
  - intros Hno. apply elem_of_nil_inv. intros b ([t x] & Hb & Hx%elem_of_map_to_list)%list_elem_of_bind.
    pose proof (wi_flight _ _ _ _ _ Hi t) as Hf. rewrite Hx, Hno in Hf. cbn in Hf, Hb. by destruct x; [set_solver|].
  - pose proof (li_nodup _ _ Hl) as Hnd. by apply NoDup_app in Hnd as [Hnd _].
  - rewrite (rp_file _ _ _ (wi_repr _ _ _ _ _ Hi)). by apply read_padded.
Qed.

(** C10: as long as no thread uses flush_no_sync, a completed flush_and_sync is durable:
    every batch submitted before the call started is on disk when it returns, and
    stays there; a scan of the disk image alone, as after a power loss, returns it. *)
Theorem wal_commit_durable w h :
  wreach (fun ev => forall t, ev ≠ EvFlushNoSync t) w h ->
  exists wd r, h_acked h ⊆ wd /\ wd ⊆ h_sub h /\
    reader_open (ws_disk (cw_writer (ww_writer w))) = Some (Ok r) /\
    collect (forward_next r) (S (length (concat wd.*2))) (scan_forward 0) = Some (Ok <$> concat wd.*2).
Proof.
  intros Hreach. assert (Hinv : linv w h /\ exists wr wd qs ds, winv w h wr ds qs /\ dinv w h wr wd qs ds).
  { induction Hreach as [|w h ev w' _ (Hl & wr & wd & qs & ds & Hi & Hd) Hns Hok He].
    - split; [apply linv_init|]. exists [], [], [], ∅. split; [apply winv_init|apply dinv_init].
    - split; [by eapply linv_step|].
      destruct (dinv_step _ _ _ _ _ _ _ _ Hi Hd Hns He) as (wr' & wd' & qs' & ds' & ? & ?). eauto 10. }
  destruct Hinv as (Hl & wr & wd & qs & ds & Hi & Hd). pose proof (perm_written_ok _ _ _ _ _ Hl Hi) as Hok.
  pose proof (di_prefix _ _ _ _ _ _ Hd) as Hpre. destruct (di_disk _ _ _ _ _ _ Hd) as [k Hdk].
  assert (Hokd : Forall wal_ok (concat wd.*2)).
  { destruct Hpre as [x ->]. rewrite fmap_app, concat_app in Hok. by apply Forall_app in Hok as [Hok _]. }
  destruct (read_padded wd k Hokd) as (r & Hr & Hc). exists wd, r.
  split_and!; [apply Hd| |by rewrite Hdk|done].
  intros b Hb. rewrite <-(wi_perm _ _ _ _ _ Hi). apply elem_of_app. left. by apply (prefix_sub wd wr).
Qed.
End Properties.

(** ** Concrete executions *)

Section Runs.
Context {C : Crc32c}.

Fixpoint hist_run (w : WalWorld) (evs : list WalEvent) (h : Hist) : Hist :=
  match evs with
  | [] => h
  | ev :: evs' =>
      match wal_exec w ev with Some w' => hist_run w' evs' (hist_step w ev h) | None => h end
  end.

Fixpoint evs_ok (w : WalWorld) (evs : list WalEvent) : Prop :=
  match evs with
  | [] => True
  | ev :: evs' =>
      ev_ok w ev /\ match wal_exec w ev with Some w' => evs_ok w' evs' | None => False end
  end.

Lemma wreach_run P evs : forall w h,
  wreach P w h -> Forall P evs -> evs_ok w evs ->
  exists w', wal_run w evs = Some w' /\ wreach P w' (hist_run w evs h).
Proof.
  induction evs as [|ev evs IH]; intros w h Hr HP Hok; cbn [wal_run hist_run evs_ok] in *; [eauto|].
  apply Forall_cons in HP as [HP1 HP2]. destruct Hok as [Ho Hok].
  destruct (wal_exec w ev) as [w'|] eqn:He; [|done]. apply IH; [by eapply wr_step|done|done].
Qed.
End Runs.

#[local] Existing Instance crc32c_ref.

(** One transaction appends a record and commits. *)
Definition one_commit : list WalEvent :=
  [EvReserve 1 1; EvSubmit 1 [sample_entry]; EvFlushAndSync 1;
   EvFlushStep 1; EvFlushStep 1; EvFlushStep 1; EvFlushStep 1].

Lemma one_commit_reach P :
  Forall P one_commit ->
  exists w h, wreach P w h /\ h_acked h = [(1, [set_lsn sample_entry 1])].
Proof.
  intros HP. destruct (wreach_run P one_commit wal_init (mkHist [] ∅ []) (wr_init P) HP) as (w & Hrun & Hr).
  - repeat split; try (vm_compute; lia); try (vm_compute; done).
    repeat constructor; apply sample_entry_ok.
  - exists w, (hist_run wal_init one_commit (mkHist [] ∅ [])). split; [exact Hr|]. vm_compute. reflexivity.
Qed.

Lemma wal_writer_conserves_witness :
  exists w h (wr : list Batch), wreach (fun _ => True) w h /\ h_acked h = [(1, [set_lsn sample_entry 1])] /\
    exists r, reader_open (ws_file (cw_writer (ww_writer w))) = Some (Ok r) /\
      collect (forward_next r) (S (length (concat wr.*2))) (scan_forward 0) = Some (Ok <$> concat wr.*2).
Proof.
  destruct (one_commit_reach (fun _ => True)) as (w & h & Hr & Ha); [by repeat constructor|].
  destruct (@wal_writer_conserves crc32c_ref crc32c_ref_range w h Hr) as (wr & fl & qs & _ & _ & _ & _ & H).
  exists w, h, wr. split; [exact Hr|]. split; [exact Ha|exact H].
Defined.

Lemma wal_commit_durable_witness :
  exists w h (wd : list Batch) r, h_acked h = [(1, [set_lsn sample_entry 1])] /\ h_acked h ⊆ wd /\
    reader_open (ws_disk (cw_writer (ww_writer w))) = Some (Ok r).
Proof.
  destruct (one_commit_reach (fun ev => forall t, ev ≠ EvFlushNoSync t)) as (w & h & Hr & Ha); [by repeat constructor|].
  destruct (@wal_commit_durable crc32c_ref crc32c_ref_range w h Hr) as (wd & r & H1 & _ & H2 & _).
  exists w, h, wd, r. split; [exact Ha|]. split; [exact H1|exact H2].
Defined.

(** The entries of the log file, and the LSN a reopened writer would assign next. *)
Definition reopened (file : bytes) : option (option (list (Result WalEntry)) * Z) :=
  match reader_open file, cw_open file with
  | Some (Ok r), Some (Ok c) => Some (collect (forward_next r) 8 (scan_forward 0), next_lsn c)
  | _, _ => None
  end.

Definition flush_by (t : Z) : list WalEvent :=
  [EvFlushAndSync t; EvFlushStep t; EvFlushStep t; EvFlushStep t; EvFlushStep t].

(** Transaction 1 reserves LSN 1, transaction 2 reserves LSN 2, submits and commits;
    then 1 submits and commits. *)
Definition late_submit : list WalEvent :=
  [EvReserve 1 1; EvReserve 2 1; EvSubmit 2 [sample_entry]] ++ flush_by 2
  ++ [EvSubmit 1 [sample_entry]] ++ flush_by 1.

(** The log file is not in LSN order, which the writer's documentation states as an
    invariant: a record whose LSN was reserved before, but submitted after, another
    one's flush follows it in the file. The tail scan then takes the smaller LSN
    for the last one, and a reopened writer assigns an LSN that is already in the
    log. *)
Theorem wal_lsn_order_broken :
  exists w, wal_run wal_init late_submit = Some w /\
    reopened (ws_disk (cw_writer (ww_writer w))) =
      Some (Some [Ok (set_lsn sample_entry 2); Ok (set_lsn sample_entry 1)], 2).
Proof.
  assert (H : (match wal_run wal_init late_submit with
               | Some w => reopened (ws_disk (cw_writer (ww_writer w))) | None => None end) =
    Some (Some [Ok (set_lsn sample_entry 2); Ok (set_lsn sample_entry 1)], 2)) by (vm_compute; reflexivity).
  destruct (wal_run wal_init late_submit) as [w|]; [|done]. exists w. split; [reflexivity|exact H].
Qed.

(** Transaction 1 submits its commit record; transaction 2, which only reads, drains the
    queue and is preempted; 1 runs its whole flush and sync. *)
Definition stolen_batch : list WalEvent :=
  [EvReserve 1 1; EvSubmit 1 [sample_entry]; EvFlushNoSync 2] ++ flush_by 1.

(** An acknowledged commit can be lost. flush_no_sync drains the queue before it takes
    the writer mutex, so another transaction's flush_and_sync in between finds the
    queue empty, syncs, and returns success with its record neither on disk nor
    even in the file: a crash at this point loses the commit. *)
Theorem wal_acknowledged_commit_lost :
  exists w h, wreach (fun _ => True) w h /\ h_acked h = [(1, [set_lsn sample_entry 1])] /\ wpc w 1 = WIdle /\
    reopened (ws_disk (cw_writer (ww_writer w))) = Some (Some [], 1) /\
    reopened (ws_file (cw_writer (ww_writer w))) = Some (Some [], 1).
Proof.
  destruct (wreach_run (fun _ => True) stolen_batch wal_init (mkHist [] ∅ []) (wr_init _)) as (w & Hrun & Hr).
  - by repeat constructor.
  - repeat split; try (vm_compute; lia); try (vm_compute; done). repeat constructor; apply sample_entry_ok.
  - assert (H : (match wal_run wal_init stolen_batch with
                 | Some w => Some (wpc w 1, reopened (ws_disk (cw_writer (ww_writer w))),
                     reopened (ws_file (cw_writer (ww_writer w)))) | None => None end) =
      Some (WIdle, Some (Some [], 1), Some (Some [], 1))) by (vm_compute; reflexivity).
    exists w, (hist_run wal_init stolen_batch (mkHist [] ∅ [])). rewrite Hrun in H. simplify_eq.
    split; [exact Hr|]. split; [vm_compute; reflexivity|]. done.
Qed.

(** ** Rotation *)

(** A rotated log opens as an empty one that continues after the checkpoint's LSN. *)
Lemma rotate_open {C : Crc32c} {CR : Crc32cRange C} start file :
  in_u64 start ->
  exists c, cw_open (rotate_file start file) = Some (Ok c) /\ next_lsn c = start + 1 /\
    repr (cw_writer c) (write_header start) (write_header start).
Proof.
  intros Hs. pose proof (len_write_header start) as Hh.
  assert (Hw : write_at 0 (write_header start) (set_len 0 file) = write_header start).
  { assert (H0 : forall f, set_len 0 f = []) by (intros f; unfold set_len; by rewrite take_0).
    unfold write_at. rewrite !H0, drop_nil. by rewrite app_nil_r. }
  unfold rotate_file. rewrite Hw. assert (HR : WAL_HEADER_SIZE <= round_up WAL_HEADER_SIZE PREALLOC_CHUNK) by done.
  revert HR. generalize (round_up WAL_HEADER_SIZE PREALLOC_CHUNK). intros R HR.
  set (k := Z.to_nat (R - zlen (write_header start))).
  assert (Hf : set_len R (write_header start) = layout start [] (replicate k 0)).
  { unfold layout. by rewrite set_len_pad by lia. }
  rewrite Hf. unfold cw_open. unfold layout at 1.
  destruct (header_roundtrip start (enc [] ++ replicate k 0) Hs) as [_ Hrd].
  rewrite Hrd, (scan_valid_tail_layout start [] _ ltac:(constructor) (stops_zeros k)).
  eexists. split; [reflexivity|]. cbn [next_lsn cw_writer last_lsn logical_end reserved_end].
  assert (Hl : zlen (layout start [] (replicate k 0)) = R).
  { unfold layout. rewrite !length_app, length_replicate. change (length (enc [])) with 0%nat. unfold k. lia. }
  split; [unfold last_lsn_of; cbn; widths|]. change (zlen (enc [])) with 0. rewrite Hl.
  split; cbn [ws_buf ws_pos ws_logical_end ws_file ws_reserved_end]; [by rewrite app_nil_r|lia|lia| |lia].
  unfold layout. done.
Qed.
