(* ===== verification/WalPipeline.v ===== *)
(** * The fsync pipeline

    crates/axiomdb-wal/src/fsync_pipeline.rs: leader election for group commit, and the
    commit path that drives it ([SharedDatabase::take_commit_rx] in
    crates/axiomdb-network/src/mysql/shared_db.rs), interleaved with the log writer.
    The oneshot channel of a waiter is represented by its transaction. *)

From S2P Require Import Prelude Page WalEntry WalLog WalWriter.

Record Waiter : Type := mkPw { wt_lsn : Z; wt_txn_id : Z }.

Record PipelineState : Type := mkPipe {
  p_flushed_lsn : Z;
  leader_active : bool;
  pending_lsn : Z;
  waiters : list Waiter
}.

Inductive AcquireResult : Type := Expired | Acquired | Queued.

Definition pipeline_new (initial_flushed_lsn : Z) : PipelineState :=
  mkPipe initial_flushed_lsn false initial_flushed_lsn [].

Definition acquire (st : PipelineState) (commit_lsn txn_id : Z) : AcquireResult * PipelineState :=
  if commit_lsn <=? p_flushed_lsn st then (Expired, st)
  else if negb (leader_active st) then
    let max_lsn := foldl (fun m l => if m <? l then l else m) (Z.max commit_lsn (pending_lsn st))
                     (wt_lsn <$> waiters st) in
    (Acquired, mkPipe (p_flushed_lsn st) true max_lsn (waiters st))
  else
    (Queued, mkPipe (p_flushed_lsn st) true (Z.max (pending_lsn st) commit_lsn)
               (waiters st ++ [mkPw commit_lsn txn_id])).

(** The transactions woken with success, and the new state. *)
Definition release_ok (st : PipelineState) (new_flushed_lsn : Z) : list Z * PipelineState :=
  let flushed := if p_flushed_lsn st <? new_flushed_lsn then new_flushed_lsn else p_flushed_lsn st in
  let satisfied := filter (fun w => wt_lsn w <= new_flushed_lsn) (waiters st) in
  let remaining := filter (fun w => ~ wt_lsn w <= new_flushed_lsn) (waiters st) in
  (wt_txn_id <$> satisfied, mkPipe flushed false (pending_lsn st) remaining).

(** The transactions woken with an error, and the new state. *)
Definition release_err (st : PipelineState) : list Z * PipelineState :=
  (wt_txn_id <$> waiters st, mkPipe (p_flushed_lsn st) false (pending_lsn st) []).

(** ** Commits in pipeline mode *)

(** Where a transaction is in [take_commit_rx] after its commit record was submitted. *)
Inductive PPc : Type :=
| PIdle
| PGotLsn (commit_lsn : Z)
| PLeading
| PSyncing
| PSynced (flushed_lsn : Z)
| PWaiting
| PAcked.

Record PipeWorld : Type := mkPww {
  pw_wal : WalWorld;
  pw_pipe : PipelineState;
  pw_pcs : gmap Z PPc
}.

Inductive PipeEvent : Type :=
(** reservations and submissions of any transaction *)
| PEvWal (ev : WalEvent)
(** [wal_current_lsn], then [acquire] *)
| PEvReadLsn (t : Z)
| PEvAcquire (t : Z)
(** the leader's [wal_flush_and_fsync], section by section *)
| PEvFlush (t : Z)
(** the leader reads [wal_current_lsn] again, then calls [release_ok] *)
| PEvReadFlushed (t : Z)
| PEvRelease (t : Z).

Definition ppc (w : PipeWorld) (t : Z) : PPc := default PIdle (pw_pcs w !! t).

(** Waking the transactions [ts]. *)
Definition wake (ts : list Z) (pcs : gmap Z PPc) : gmap Z PPc :=
  foldr (fun t m => <[t := PAcked]> m) pcs ts.

Section Commit.
Context {C : Crc32c}.

Definition pipe_exec (w : PipeWorld) (ev : PipeEvent) : option PipeWorld :=
  match ev with
  | PEvWal wev => let! wal := wal_exec (pw_wal w) wev in Some (mkPww wal (pw_pipe w) (pw_pcs w))
  | PEvReadLsn t =>
      match ppc w t with
      | PIdle => Some (mkPww (pw_wal w) (pw_pipe w)
                   (<[t := PGotLsn (current_lsn (ww_writer (pw_wal w)))]> (pw_pcs w)))
      | _ => None
      end
  | PEvAcquire t =>
      match ppc w t with
      | PGotLsn commit_lsn =>
          let '(r, p) := acquire (pw_pipe w) commit_lsn t in
          let pc := match r with Expired => PAcked | Acquired => PLeading | Queued => PWaiting end in
          Some (mkPww (pw_wal w) p (<[t := pc]> (pw_pcs w)))
      | _ => None
      end
  | PEvFlush t =>
      match ppc w t with
      | PLeading => let! wal := wal_exec (pw_wal w) (EvFlushAndSync t) in
                    Some (mkPww wal (pw_pipe w) (<[t := PSyncing]> (pw_pcs w)))
      | PSyncing => let! wal := wal_exec (pw_wal w) (EvFlushStep t) in
                    Some (mkPww wal (pw_pipe w) (pw_pcs w))
      | _ => None
      end
  | PEvReadFlushed t =>
      match ppc w t, wpc (pw_wal w) t with
      | PSyncing, WIdle =>
          Some (mkPww (pw_wal w) (pw_pipe w)
            (<[t := PSynced (current_lsn (ww_writer (pw_wal w)))]> (pw_pcs w)))
      | _, _ => None
      end
  | PEvRelease t =>
      match ppc w t with
      | PSynced flushed_lsn =>
          let '(woken, p) := release_ok (pw_pipe w) flushed_lsn in
          Some (mkPww (pw_wal w) p (wake woken (<[t := PAcked]> (pw_pcs w))))
      | _ => None
      end
  end.

Fixpoint pipe_run (w : PipeWorld) (evs : list PipeEvent) : option PipeWorld :=
  match evs with
  | [] => Some w
  | ev :: evs' => let! w' := pipe_exec w ev in pipe_run w' evs'
  end.

Definition pipe_init : PipeWorld := mkPww wal_init (pipeline_new 0) ∅.
End Commit.

(** ** The pipeline's invariant *)

(** No waiter is already covered, and the leader's target covers every waiter. *)
Record pipe_inv (st : PipelineState) : Prop := {
  pi_pending : Forall (fun w => p_flushed_lsn st < wt_lsn w <= pending_lsn st) (waiters st);
  pi_flushed : leader_active st = false \/ p_flushed_lsn st < pending_lsn st
}.

Lemma foldl_max ls m :
  let r := foldl (fun m l => if m <? l then l else m) m ls in m <= r /\ Forall (fun l => l <= r) ls.
Proof.
  revert m. induction ls as [|l ls IH]; intros m; cbn [foldl]; [split; [lia|constructor]|].
  destruct (IH (if m <? l then l else m)) as [H1 H2]. destruct (Z.ltb_spec m l); (split; [lia|constructor; [lia|done]]).
Qed.

Lemma acquire_spec st commit_lsn txn :
  pipe_inv st ->
  let '(r, st1) := acquire st commit_lsn txn in
  pipe_inv st1 /\
  match r with
  | Expired => commit_lsn <= p_flushed_lsn st /\ st1 = st
  | Acquired => p_flushed_lsn st < commit_lsn <= pending_lsn st1 /\ leader_active st = false /\
      leader_active st1 = true /\ p_flushed_lsn st1 = p_flushed_lsn st /\ waiters st1 = waiters st /\
      Forall (fun w => wt_lsn w <= pending_lsn st1) (waiters st1)
  | Queued => p_flushed_lsn st < commit_lsn <= pending_lsn st1 /\ leader_active st = true /\
      leader_active st1 = true /\ p_flushed_lsn st1 = p_flushed_lsn st /\ waiters st1 = waiters st ++ [mkPw commit_lsn txn]
  end.
Proof.
  intros [Hw Hf]. unfold acquire. destruct (Z.leb_spec commit_lsn (p_flushed_lsn st)); [done|].
  destruct (leader_active st) eqn:Hl; cbn [negb].
  - split; [|cbn; split_and!; [lia|lia|done..]]. split; cbn; [|right; lia]. apply Forall_app. split.
    + eapply Forall_impl; [exact Hw|]. cbn. lia.
    + constructor; [cbn; lia|constructor].
  - pose proof (foldl_max (wt_lsn <$> waiters st) (Z.max commit_lsn (pending_lsn st))) as [Hm Hall].
    rewrite Forall_fmap in Hall. cbn [waiters pending_lsn leader_active p_flushed_lsn].
    split; [|split_and!; [lia|lia|done..]]. split; cbn; [|right; lia].
    eapply Forall_impl; [exact (proj2 (Forall_and _ _) (conj Hw Hall))|]. cbn. lia.
Qed.

Lemma release_ok_spec st new_lsn :
  pipe_inv st ->
  let '(woken, st2) := release_ok st new_lsn in
  pipe_inv st2 /\ p_flushed_lsn st2 = Z.max (p_flushed_lsn st) new_lsn /\ leader_active st2 = false /\
  pending_lsn st2 = pending_lsn st /\ waiters st2 = filter (fun w => new_lsn < wt_lsn w) (waiters st) /\
  woken = wt_txn_id <$> filter (fun w => wt_lsn w <= new_lsn) (waiters st) /\
  zlen woken + zlen (waiters st2) = zlen (waiters st).
Proof.
  intros [Hw Hf]. unfold release_ok. cbn [waiters p_flushed_lsn leader_active].
  assert (Hmax : (if p_flushed_lsn st <? new_lsn then new_lsn else p_flushed_lsn st) = Z.max (p_flushed_lsn st) new_lsn)
    by (destruct (Z.ltb_spec (p_flushed_lsn st) new_lsn); lia).
  rewrite Hmax. split_and!; [|done|done|done| |done|].
  - split; [|by left]. cbn. apply Forall_forall. intros w [Hn Hin]%list_elem_of_filter.
    eapply Forall_forall in Hw; [|exact Hin]. cbn in Hw. lia.
  - apply list_filter_iff. intros w. lia.
  - rewrite length_fmap. clear. induction (waiters st) as [|w ws IH]; [done|]. rewrite !filter_cons.
    repeat case_decide; cbn [length]; try lia; tauto.
Qed.

(** C32: the group-commit pipeline keeps its books. A commit that is already covered is
    told so and changes nothing; otherwise it becomes the leader exactly when there
    is none, with a target that covers its own LSN and every waiter's, or it is queued
    at the end. A successful release wakes exactly the waiters at or below the new
    LSN, in the order of the queue, keeps the others in that order, never lowers the
    flushed LSN, keeps the target and frees the leadership, also when waiters remain: it
    appoints no next leader. A failed one wakes all with the error, leaves the flushed LSN
    and the target, and frees the leadership too. The invariant (every waiter lies above
    the flushed LSN and within the target) is kept throughout. *)
Theorem fsync_pipeline_correct st commit_lsn txn new_lsn :
  pipe_inv st ->
  let '(r, st1) := acquire st commit_lsn txn in
  let '(woken, st2) := release_ok st new_lsn in
  let '(failed, st3) := release_err st in
  pipe_inv st1 /\ pipe_inv st2 /\ pipe_inv st3 /\
  match r with
  | Expired => commit_lsn <= p_flushed_lsn st /\ st1 = st
  | Acquired => p_flushed_lsn st < commit_lsn <= pending_lsn st1 /\ leader_active st = false /\
      leader_active st1 = true /\ p_flushed_lsn st1 = p_flushed_lsn st /\ waiters st1 = waiters st /\
      Forall (fun w => wt_lsn w <= pending_lsn st1) (waiters st1)
  | Queued => p_flushed_lsn st < commit_lsn <= pending_lsn st1 /\ leader_active st = true /\
      leader_active st1 = true /\ p_flushed_lsn st1 = p_flushed_lsn st /\ waiters st1 = waiters st ++ [mkPw commit_lsn txn]
  end /\
  p_flushed_lsn st2 = Z.max (p_flushed_lsn st) new_lsn /\ leader_active st2 = false /\
  pending_lsn st2 = pending_lsn st /\ waiters st2 = filter (fun w => new_lsn < wt_lsn w) (waiters st) /\
  woken = wt_txn_id <$> filter (fun w => wt_lsn w <= new_lsn) (waiters st) /\
  zlen woken + zlen (waiters st2) = zlen (waiters st) /\
  failed = wt_txn_id <$> waiters st /\ waiters st3 = [] /\ p_flushed_lsn st3 = p_flushed_lsn st /\
  leader_active st3 = false /\ pending_lsn st3 = pending_lsn st.
Proof.
  intros Hi. pose proof (acquire_spec st commit_lsn txn Hi) as Ha. pose proof (release_ok_spec st new_lsn Hi) as Hr.
  destruct (acquire st commit_lsn txn) as [r st1]. destruct (release_ok st new_lsn) as [woken st2].
  cbn [release_err]. destruct Ha as [Ha1 Ha2], Hr as (Hr1 & Hr2 & Hr3 & Hr4 & Hr5 & Hr6 & Hr7).
  split_and!; try done. split; [constructor|by left].
Qed.

Lemma fsync_pipeline_correct_witness :
  let st := mkPipe 3 true 7 [mkPw 5 1; mkPw 7 2] in
  pipe_inv st /\ (release_ok st 6).1 = [1] /\ pipe_inv (release_ok st 6).2.
Proof.
  intros st.
  assert (Hi : pipe_inv st) by (split; [repeat constructor; cbn; lia|by right]).
  pose proof (fsync_pipeline_correct st 8 9 6 Hi) as H.
  destruct (acquire st 8 9) as [r st1]. destruct (release_ok st 6) as [woken st2] eqn:E.
  split; [exact Hi|]. cbn [release_err] in H. split; [|exact (proj1 (proj2 H))].
  vm_compute in E. injection E as <- _. reflexivity.
Defined.

(** ** Concrete executions *)

#[local] Existing Instance crc32c_ref.

(** A transaction submits its commit record, reads its LSN and enters the pipeline. *)
Definition commit_record (t : Z) : list PipeEvent :=
  [PEvWal (EvReserve t 1); PEvWal (EvSubmit t [sample_entry]); PEvReadLsn t; PEvAcquire t].

(** 1 leads and has drained the queue when 2 commits; 1 syncs, reads the current LSN,
    which is now 2's, and releases. *)
Definition late_follower : list PipeEvent :=
  commit_record 1 ++ [PEvFlush 1; PEvFlush 1] ++ commit_record 2
  ++ [PEvFlush 1; PEvFlush 1; PEvFlush 1; PEvReadFlushed 1; PEvRelease 1].

(** The pipeline acknowledges commits that are not durable. The leader takes the highest
    reserved LSN after its sync for the flushed one, so a follower whose record was
    submitted after the leader drained the queue is woken with success while the
    disk holds only the leader's record. *)
Theorem pipeline_acknowledges_undurable :
  exists w, pipe_run pipe_init late_follower = Some w /\ ppc w 1 = PAcked /\ ppc w 2 = PAcked /\
    reopened (ws_disk (cw_writer (ww_writer (pw_wal w)))) = Some (Some [Ok (set_lsn sample_entry 1)], 2) /\
    wq_entries (cw_queue (ww_writer (pw_wal w))) = [(2, to_bytes (set_lsn sample_entry 2))].
Proof.
  assert (H : (match pipe_run pipe_init late_follower with
     | Some w => Some (ppc w 1, ppc w 2, reopened (ws_disk (cw_writer (ww_writer (pw_wal w)))),
                   wq_entries (cw_queue (ww_writer (pw_wal w)))) | None => None end) =
    Some (PAcked, PAcked, Some (Some [Ok (set_lsn sample_entry 1)], 2), [(2, to_bytes (set_lsn sample_entry 2))]))
    by (vm_compute; reflexivity).
  destruct (pipe_run pipe_init late_follower) as [w|]; [|done]. exists w.
  apply (inj Some) in H. repeat (apply (inj2 pair) in H as [H ?]). done.
Qed.

(** 2 commits between the leader's reading of the current LSN and its release. *)
Definition stranded_follower : list PipeEvent :=
  commit_record 1 ++ [PEvFlush 1; PEvFlush 1; PEvFlush 1; PEvFlush 1; PEvFlush 1; PEvReadFlushed 1]
  ++ commit_record 2 ++ [PEvRelease 1].

(** A follower can be left waiting with no leader: nothing wakes it until some other
    transaction happens to commit. *)
Theorem pipeline_strands_follower :
  exists w, pipe_run pipe_init stranded_follower = Some w /\ ppc w 1 = PAcked /\ ppc w 2 = PWaiting /\
    leader_active (pw_pipe w) = false /\ waiters (pw_pipe w) = [mkPw 2 2].
Proof.
  assert (H : (match pipe_run pipe_init stranded_follower with
     | Some w => Some (ppc w 1, ppc w 2, leader_active (pw_pipe w), waiters (pw_pipe w)) | None => None end) =
    Some (PAcked, PWaiting, false, [mkPw 2 2])) by (vm_compute; reflexivity).
  destruct (pipe_run pipe_init stranded_follower) as [w|]; [|done]. exists w.
  apply (inj Some) in H. repeat (apply (inj2 pair) in H as [H ?]). done.
Qed.
