(* ===== verification/Txn.v ===== *)
(** * Transactions and snapshots

    crates/axiomdb-wal/src/txn.rs with txn_construction.rs, txn_begin_commit.rs,
    txn_rollback.rs and txn_inspect.rs: identifiers, the active set, snapshots, commit
    and rollback.  Every atomic operation and every critical section is one step and
    [TxnWorld] interleaves the steps of any number of connections.  The log is the list
    of lifecycle records appended (its writer is modelled in WalWriter).  Applying the
    undo log to the pages is modelled in Undo.  The map of clustered roots has a mutex of
    its own; it is read and written in the step next to it. *)

From S2P Require Import Prelude Page Heap WalEntry Storage Undo.

Inductive IsolationLevel : Type := ReadCommitted | RepeatableRead | Serializable.

Definition uses_frozen_snapshot (l : IsolationLevel) : bool :=
  match l with ReadCommitted => false | RepeatableRead | Serializable => true end.

Inductive WalDurabilityPolicy : Type := Strict | Normal | Off.

(** The log records of the transaction lifecycle. *)
Inductive LogRecord : Type := LogBegin (txn_id : Z) | LogCommit (txn_id : Z) | LogRollback (txn_id : Z).

(** Without the scratch buffer and two fields that are never written. *)
Record ConnectionTxn : Type := mkConn {
  ct_txn_id : Z;
  ct_snapshot_id_at_begin : Z;
  ct_isolation_level : IsolationLevel;
  ct_undo_ops : list UndoOp;
  ct_deferred_free_pages : list Z;
  ct_clustered_roots : gmap Z Z;
  ct_active_ids_at_begin : option (gset Z);
  ct_local_page_batch : LocalPageBatch;
  ct_deferred_commit_mode : bool;
  ct_durability_override : option WalDurabilityPolicy
}.

Record PostCommitBatches : Type := mkPost {
  committed_free_batches : list (Z * list Z);
  committed_steal_protection : list (list Z);
  committed_recycle_pages : list (list Z)
}.

Record TxnManager : Type := mkTxn {
  tm_log : list LogRecord;
  tm_next_txn_id : Z;
  tm_max_committed : Z;
  tm_active_set : gset Z;
  tm_lowest_active_id : Z;
  tm_deferred_commit_mode : bool;
  tm_post_commit : PostCommitBatches;
  tm_durability_policy : WalDurabilityPolicy;
  tm_last_clustered_roots : gmap Z Z
}.

(** [open] and [open_with_recovery] from the recovered [max_committed] and roots ([create]
    is the case 0 and no roots), then the two setters. *)
Definition txn_open (max_committed : Z) (roots : gmap Z Z) (deferred : bool) (policy : WalDurabilityPolicy)
    : TxnManager :=
  mkTxn [] (max_committed + 1) max_committed ∅ 0 deferred (mkPost [] [] []) policy roots.

Definition log_append (r : LogRecord) (m : TxnManager) : TxnManager :=
  mkTxn (tm_log m ++ [r]) (tm_next_txn_id m) (tm_max_committed m) (tm_active_set m)
    (tm_lowest_active_id m) (tm_deferred_commit_mode m) (tm_post_commit m) (tm_durability_policy m)
    (tm_last_clustered_roots m).

(** [for (table_id, root_pid) in roots { last_clustered_roots.insert(..) }] *)
Definition put_roots (roots : gmap Z Z) (m : TxnManager) : TxnManager :=
  mkTxn (tm_log m) (tm_next_txn_id m) (tm_max_committed m) (tm_active_set m)
    (tm_lowest_active_id m) (tm_deferred_commit_mode m) (tm_post_commit m) (tm_durability_policy m)
    (roots ∪ tm_last_clustered_roots m).

Definition set_post (p : PostCommitBatches) (m : TxnManager) : TxnManager :=
  mkTxn (tm_log m) (tm_next_txn_id m) (tm_max_committed m) (tm_active_set m)
    (tm_lowest_active_id m) (tm_deferred_commit_mode m) p (tm_durability_policy m)
    (tm_last_clustered_roots m).

(** The least element of a set of identifiers, 0 when empty. *)
Definition set_min (s : gset Z) : Z :=
  match elements s with [] => 0 | x :: xs => foldr Z.min x xs end.

(** *** Begin *)

(** [next_txn_id.fetch_add(1)] and the Begin record. *)
Definition begin_alloc (m : TxnManager) : Z * TxnManager :=
  let txn_id := tm_next_txn_id m in
  (txn_id, mkTxn (tm_log m ++ [LogBegin txn_id]) (wrap64 (txn_id + 1)) (tm_max_committed m)
     (tm_active_set m) (tm_lowest_active_id m) (tm_deferred_commit_mode m)
     (tm_post_commit m) (tm_durability_policy m) (tm_last_clustered_roots m)).

(** The section under the write lock of the active set. *)
Definition begin_register (isolation_level : IsolationLevel) (txn_id : Z) (m : TxnManager)
    : ConnectionTxn * TxnManager :=
  let mc := tm_max_committed m in
  let active_ids := if uses_frozen_snapshot isolation_level then Some (tm_active_set m) else None in
  let prev := tm_lowest_active_id m in
  let lowest := if (prev =? 0) || (txn_id <? prev) then txn_id else prev in
  (mkConn txn_id (mc + 1) isolation_level [] [] (tm_last_clustered_roots m) active_ids batch_new
     (tm_deferred_commit_mode m) None,
   mkTxn (tm_log m) (tm_next_txn_id m) mc ({[txn_id]} ∪ tm_active_set m) lowest
     (tm_deferred_commit_mode m) (tm_post_commit m) (tm_durability_policy m) (tm_last_clustered_roots m)).

(** *** Changes of the connection's own state *)

Inductive LocalOp : Type :=
(** a [record_*] method pushed an undo operation *)
| LoRecord (op : UndoOp)
(** [defer_free_pages] *)
| LoDeferFree (pages : list Z)
(** allocations and frees through the page batch *)
| LoBatch (b : LocalPageBatch)
(** a clustered tree got a new root *)
| LoRoot (table_id root_pid : Z)
| LoSetDurability (p : WalDurabilityPolicy)
(** the bookkeeping of [rollback_to_savepoint] *)
| LoSavepoint (sp : Savepoint).

Definition savepoint (c : ConnectionTxn) : Savepoint :=
  mkSavepoint (zlen (ct_undo_ops c)) (zlen (ct_deferred_free_pages c)) (freed_len (ct_local_page_batch c)).

Definition local_step (lo : LocalOp) (c : ConnectionTxn) (m : TxnManager) : option (ConnectionTxn * TxnManager) :=
  let '(mkConn id sn iso ops frees roots ids batch dm dur) := c in
  match lo with
  | LoRecord op => Some (mkConn id sn iso (ops ++ [op]) frees roots ids batch dm dur, m)
  | LoDeferFree pages => Some (mkConn id sn iso ops (frees ++ pages) roots ids batch dm dur, m)
  | LoBatch b => Some (mkConn id sn iso ops frees roots ids b dm dur, m)
  | LoRoot table_id root_pid => Some (mkConn id sn iso ops frees (<[table_id := root_pid]> roots) ids batch dm dur, m)
  | LoSetDurability p => Some (mkConn id sn iso ops frees roots ids batch dm (Some p), m)
  | LoSavepoint sp =>
      if zlen ops <? sp_undo_len sp then None
      else Some (mkConn id sn iso (take (Z.to_nat (sp_undo_len sp)) ops)
                   (take (Z.to_nat (sp_deferred_free_len sp)) frees) roots ids
                   (truncate_freed batch (sp_batch_freed_len sp)) dm dur, put_roots roots m)
  end.

(** *** Commit *)

(** The Commit record and the flush decision: whether [max_committed] advances now.
    Flushing is the log writer's. *)
Definition commit_log (c : ConnectionTxn) (m : TxnManager) : bool * TxnManager :=
  let advance_now :=
    match ct_undo_ops c with
    | [] => true
    | _ => match default (tm_durability_policy m) (ct_durability_override c) with
           | Strict => negb (ct_deferred_commit_mode c)
           | Normal => true
           | Off => true
           end
    end in
  (advance_now, log_append (LogCommit (ct_txn_id c)) (put_roots (ct_clustered_roots c) m)).

(** The section under the write lock of the active set. *)
Definition commit_publish (advance_now : bool) (c : ConnectionTxn) (m : TxnManager) : TxnManager :=
  let mc := if advance_now then Z.max (tm_max_committed m) (ct_txn_id c) else tm_max_committed m in
  let set := tm_active_set m ∖ {[ct_txn_id c]} in
  mkTxn (tm_log m) (tm_next_txn_id m) mc set (set_min set) (tm_deferred_commit_mode m)
    (tm_post_commit m) (tm_durability_policy m) (tm_last_clustered_roots m).

(** [if !l.is_empty() { v.push(x) }] *)
Definition push_nonempty {A B} (l : list A) (x : B) (v : list B) : list B :=
  match l with [] => v | _ => v ++ [x] end.

(** The section under the post-commit mutex. *)
Definition commit_post (c : ConnectionTxn) (m : TxnManager) : TxnManager :=
  let p := tm_post_commit m in
  let '(avail, freed) := (take_for_commit (ct_local_page_batch c)).1 in
  set_post (mkPost
    (push_nonempty (ct_deferred_free_pages c) (ct_txn_id c, ct_deferred_free_pages c) (committed_free_batches p))
    (push_nonempty avail avail (committed_steal_protection p))
    (push_nonempty freed freed (committed_recycle_pages p))) m.

(** [advance_committed] and [advance_committed_single]. *)
Definition advance_committed (txn_ids : list Z) (m : TxnManager) : TxnManager :=
  match txn_ids with
  | [] => m
  | t :: ts =>
      mkTxn (tm_log m) (tm_next_txn_id m) (Z.max (tm_max_committed m) (foldr Z.max t ts))
        (tm_active_set m) (tm_lowest_active_id m) (tm_deferred_commit_mode m)
        (tm_post_commit m) (tm_durability_policy m) (tm_last_clustered_roots m)
  end.

(** The pages to hand to [storage.free_page], in order, and the batches that remain. *)
Definition release_committed_frees (txn_ids : list Z) (m : TxnManager) : list Z * TxnManager :=
  let p := tm_post_commit m in
  if bool_decide (txn_ids = []) || bool_decide (committed_free_batches p = []) then ([], m)
  else
    (concat (filter (fun b => b.1 ∈ txn_ids) (committed_free_batches p)).*2,
     set_post (mkPost (filter (fun b => ~ b.1 ∈ txn_ids) (committed_free_batches p))
       (committed_steal_protection p) (committed_recycle_pages p)) m).

Definition release_immediate_committed_frees (txn_id : Z) (m : TxnManager) : list Z * TxnManager :=
  if tm_deferred_commit_mode m then ([], m) else release_committed_frees [txn_id] m.

(** The batches to hand to [free_page_batch] and the pages to [recycle_page], when the
    engine reports no error. *)
Definition drain_committed_page_batches (m : TxnManager) : (list (list Z) * list Z) * TxnManager :=
  let p := tm_post_commit m in
  ((committed_steal_protection p, concat (committed_recycle_pages p)),
   set_post (mkPost (committed_free_batches p) [] []) m).

(** *** Rollback: the section after the undo log was applied *)

Definition rollback_publish (c : ConnectionTxn) (m : TxnManager) : TxnManager :=
  let set := tm_active_set m ∖ {[ct_txn_id c]} in
  put_roots (ct_clustered_roots c)
    (mkTxn (tm_log m) (tm_next_txn_id m) (tm_max_committed m) set (set_min set)
       (tm_deferred_commit_mode m) (tm_post_commit m) (tm_durability_policy m) (tm_last_clustered_roots m)).

(** *** Snapshots *)

Definition snapshot (m : TxnManager) : TransactionSnapshot :=
  mkSnap (tm_max_committed m + 1) 0 (tm_active_set m).

Definition active_snapshot (c : ConnectionTxn) (m : TxnManager) : TransactionSnapshot :=
  if uses_frozen_snapshot (ct_isolation_level c) then
    mkSnap (ct_snapshot_id_at_begin c) (ct_txn_id c) (default ∅ (ct_active_ids_at_begin c))
  else mkSnap (tm_max_committed m + 1) (ct_txn_id c) (tm_active_set m).

Definition has_active_txn (m : TxnManager) : bool := negb (bool_decide (tm_active_set m = ∅)).

(** [clustered_root] and [clustered_root_for_conn]. *)
Definition clustered_root (m : TxnManager) (table_id : Z) : option Z := tm_last_clustered_roots m !! table_id.
Definition clustered_root_for_conn (m : TxnManager) (c : ConnectionTxn) (table_id : Z) : option Z :=
  match ct_clustered_roots c !! table_id with
  | Some r => Some r
  | None => tm_last_clustered_roots m !! table_id
  end.

(** ** Interleaved connections *)

Inductive TPc : Type :=
| TIdle
| TAllocated (txn_id : Z) (iso : IsolationLevel)
| TActive (c : ConnectionTxn)
| TCommitting (c : ConnectionTxn) (advance_now : bool)
| TPosting (c : ConnectionTxn)
| TRollingBack (c : ConnectionTxn).

Record TxnWorld : Type := mkTw { tw_mgr : TxnManager; tw_pcs : gmap Z TPc }.

Inductive TxnEvent : Type :=
| EvBeginAlloc (conn : Z) (iso : IsolationLevel)
| EvBeginRegister (conn : Z)
| EvLocal (conn : Z) (lo : LocalOp)
| EvCommitLog (conn : Z)
| EvCommitPublish (conn : Z)
| EvCommitPost (conn : Z)
| EvRollbackLog (conn : Z)
| EvRollbackPublish (conn : Z)
(** the fsync pipeline makes deferred commits visible *)
| EvAdvance (txn_ids : list Z)
| EvReleaseFrees (txn_ids : list Z)
| EvDrainBatches.

Definition tpc (w : TxnWorld) (conn : Z) : TPc := default TIdle (tw_pcs w !! conn).
Definition tset (w : TxnWorld) (m : TxnManager) (conn : Z) (pc : TPc) : TxnWorld :=
  mkTw m (<[conn := pc]> (tw_pcs w)).

Definition txn_exec (w : TxnWorld) (ev : TxnEvent) : option TxnWorld :=
  let m := tw_mgr w in
  match ev with
  | EvBeginAlloc k iso =>
      match tpc w k with
      | TIdle => let '(id, m') := begin_alloc m in Some (tset w m' k (TAllocated id iso))
      | _ => None
      end
  | EvBeginRegister k =>
      match tpc w k with
      | TAllocated id iso => let '(c, m') := begin_register iso id m in Some (tset w m' k (TActive c))
      | _ => None
      end
  | EvLocal k lo =>
      match tpc w k with
      | TActive c =>
          match local_step lo c m with
          | Some (c', m') => Some (tset w m' k (TActive c'))
          | None => None
          end
      | _ => None
      end
  | EvCommitLog k =>
      match tpc w k with
      | TActive c => let '(adv, m') := commit_log c m in Some (tset w m' k (TCommitting c adv))
      | _ => None
      end
  | EvCommitPublish k =>
      match tpc w k with
      | TCommitting c adv => Some (tset w (commit_publish adv c m) k (TPosting c))
      | _ => None
      end
  | EvCommitPost k =>
      match tpc w k with
      | TPosting c => Some (tset w (commit_post c m) k TIdle)
      | _ => None
      end
  | EvRollbackLog k =>
      match tpc w k with
      | TActive c => Some (tset w (log_append (LogRollback (ct_txn_id c)) m) k (TRollingBack c))
      | _ => None
      end
  | EvRollbackPublish k =>
      match tpc w k with
      | TRollingBack c => Some (tset w (rollback_publish c m) k TIdle)
      | _ => None
      end
  | EvAdvance ids => Some (mkTw (advance_committed ids m) (tw_pcs w))
  | EvReleaseFrees ids => Some (mkTw (release_committed_frees ids m).2 (tw_pcs w))
  | EvDrainBatches => Some (mkTw (drain_committed_page_batches m).2 (tw_pcs w))
  end.

Definition txn_init (max_committed : Z) (deferred : bool) (policy : WalDurabilityPolicy) : TxnWorld :=
  mkTw (txn_open max_committed ∅ deferred policy) ∅.

Fixpoint txn_run (w : TxnWorld) (evs : list TxnEvent) : option TxnWorld :=
  match evs with
  | [] => Some w
  | ev :: evs' => let! w' := txn_exec w ev in txn_run w' evs'
  end.

(** ** History *)

Record THist : Type := mkTh { th_committed : gset Z; th_rolled : gset Z }.

Definition thist_step (w : TxnWorld) (ev : TxnEvent) (h : THist) : THist :=
  match ev with
  | EvCommitPublish k =>
      match tpc w k with
      | TCommitting c _ => mkTh ({[ct_txn_id c]} ∪ th_committed h) (th_rolled h)
      | _ => h
      end
  | EvRollbackPublish k =>
      match tpc w k with
      | TRollingBack c => mkTh (th_committed h) ({[ct_txn_id c]} ∪ th_rolled h)
      | _ => h
      end
  | _ => h
  end.

(** A transaction that ended: before this manager was opened, committed, or rolled back
    (its changes undone before the rollback is published). *)
Definition ended (max0 : Z) (h : THist) (u : Z) : Prop :=
  u <= max0 \/ u ∈ th_committed h \/ u ∈ th_rolled h.

(** Guarded executions: identifiers do not overflow; a commit advances [max_committed]
    at once; and it does so only past transactions that are in the active set, that
    is no smaller identifier is still between allocation and registration. *)
Definition txn_guard (w : TxnWorld) (ev : TxnEvent) : Prop :=
  match ev with
  | EvBeginAlloc _ _ => tm_next_txn_id (tw_mgr w) + 1 < 2 ^ 64
  | EvCommitPublish k =>
      match tpc w k with
      | TCommitting c adv =>
          adv = true /\ forall k' id iso, tpc w k' = TAllocated id iso -> ct_txn_id c < id
      | _ => True
      end
  | EvAdvance ids => ids = []
  | _ => True
  end.

Inductive treach (max0 : Z) : TxnWorld -> THist -> Prop :=
| tr_init policy deferred :
    0 <= max0 < 2 ^ 64 - 1 -> treach max0 (txn_init max0 deferred policy) (mkTh ∅ ∅)
| tr_step w h ev w' :
    treach max0 w h -> txn_guard w ev -> txn_exec w ev = Some w' -> treach max0 w' (thist_step w ev h).

(** ** Invariant *)

Lemma local_step_same lo c m c' m' :
  local_step lo c m = Some (c', m') ->
  ct_txn_id c' = ct_txn_id c /\ ct_snapshot_id_at_begin c' = ct_snapshot_id_at_begin c /\
  ct_isolation_level c' = ct_isolation_level c /\ ct_active_ids_at_begin c' = ct_active_ids_at_begin c /\
  tm_next_txn_id m' = tm_next_txn_id m /\ tm_max_committed m' = tm_max_committed m /\
  tm_active_set m' = tm_active_set m /\ tm_lowest_active_id m' = tm_lowest_active_id m.
Proof.
  destruct c as [id sn iso ops frees roots ids batch dm dur], lo; cbn; try (by intros [= <- <-]).
  destruct (_ <? _); [done|]. by intros [= <- <-].
Qed.

(** The transaction a connection is running, and whether it is in the active set. *)
Definition pc_txn (pc : TPc) : option (Z * bool) :=
  match pc with
  | TIdle | TPosting _ => None
  | TAllocated id _ => Some (id, false)
  | TActive c | TCommitting c _ | TRollingBack c => Some (ct_txn_id c, true)
  end.

(** A frozen snapshot only sees what had ended. *)
Definition frozen_ok (max0 : Z) (h : THist) (pc : TPc) : Prop :=
  match pc with
  | TActive c | TCommitting c _ | TRollingBack c =>
      forall u, uses_frozen_snapshot (ct_isolation_level c) = true ->
        u < ct_snapshot_id_at_begin c -> u ∉ default ∅ (ct_active_ids_at_begin c) -> ended max0 h u
  | _ => True
  end.

Record tinv (max0 : Z) (w : TxnWorld) (h : THist) : Prop := {
  ti_max : 0 <= max0 <= tm_max_committed (tw_mgr w) /\ tm_max_committed (tw_mgr w) < tm_next_txn_id (tw_mgr w) < 2 ^ 64;
  ti_uniq : forall k1 k2 id r1 r2,
    pc_txn (tpc w k1) = Some (id, r1) -> pc_txn (tpc w k2) = Some (id, r2) -> k1 = k2;
  ti_run : forall k id r, pc_txn (tpc w k) = Some (id, r) ->
    max0 < id < tm_next_txn_id (tw_mgr w) /\ ~ ended max0 h id /\
    (id ∈ tm_active_set (tw_mgr w) <-> r = true) /\ (r = false -> tm_max_committed (tw_mgr w) < id);
  ti_active : forall u, u ∈ tm_active_set (tw_mgr w) -> exists k, pc_txn (tpc w k) = Some (u, true);
  ti_cover : forall u, u < tm_next_txn_id (tw_mgr w) -> ended max0 h u \/ exists k r, pc_txn (tpc w k) = Some (u, r);
  ti_committed : forall u, u ∈ th_committed h -> u <= tm_max_committed (tw_mgr w);
  ti_ended : forall u, ended max0 h u -> u < tm_next_txn_id (tw_mgr w) /\ u ∉ tm_active_set (tw_mgr w);
  ti_frozen : forall k, frozen_ok max0 h (tpc w k)
}.

Lemma tpc_tset w m k pc k' : tpc (tset w m k pc) k' = if decide (k' = k) then pc else tpc w k'.
Proof.
  unfold tpc, tset. cbn. destruct (decide (k' = k)) as [->|].
  - by rewrite lookup_insert_eq.
  - by rewrite lookup_insert_ne.
Qed.

(** Steps that change neither identifiers nor the set. *)
Lemma tinv_quiet max0 w h m k pc :
  tinv max0 w h -> tm_next_txn_id m = tm_next_txn_id (tw_mgr w) ->
  tm_max_committed m = tm_max_committed (tw_mgr w) -> tm_active_set m = tm_active_set (tw_mgr w) ->
  pc_txn pc = pc_txn (tpc w k) -> frozen_ok max0 h pc -> tinv max0 (tset w m k pc) h.
Proof.
  intros [H1 H2 H3 H4 H5 H6 H7 H8] Hn Hm Ha Hpc Hf.
  assert (Htxn : forall k', pc_txn (tpc (tset w m k pc) k') = pc_txn (tpc w k')).
  { intros k'. rewrite tpc_tset. by destruct (decide (k' = k)) as [->|]. }
  split; cbn [tw_mgr tset]; rewrite ?Hn, ?Hm, ?Ha; try done.
  - intros k1 k2 id r1 r2. rewrite !Htxn. apply H2.
  - intros k' id r. rewrite Htxn. apply H3.
  - intros u Hu. setoid_rewrite Htxn. by apply H4.
  - intros u Hu. setoid_rewrite Htxn. by apply H5.
  - intros k'. rewrite tpc_tset. by destruct (decide (k' = k)) as [->|].
Qed.

Lemma tinv_alloc max0 w h k iso :
  tinv max0 w h -> tpc w k = TIdle -> tm_next_txn_id (tw_mgr w) + 1 < 2 ^ 64 ->
  tinv max0 (tset w (begin_alloc (tw_mgr w)).2 k (TAllocated (tm_next_txn_id (tw_mgr w)) iso)) h.
Proof.
  intros [H1 H2 H3 H4 H5 H6 H7 H8] Hpc Hlim. set (n := tm_next_txn_id (tw_mgr w)) in *.
  assert (Hw : wrap64 (n + 1) = n + 1) by (apply Z.mod_small; lia).
  assert (Hold : forall k' id r, k' ≠ k -> pc_txn (tpc w k') = Some (id, r) -> id ≠ n).
  { intros k' id r _ Hk. destruct (H3 k' id r Hk) as [? _]. lia. }
  assert (Hnone : pc_txn (tpc w k) = None) by (by rewrite Hpc).
  split; cbn [tw_mgr tset begin_alloc snd tm_next_txn_id tm_max_committed tm_active_set];
    fold n; rewrite ?Hw; try done.
  - lia.
  - intros k1 k2 id r1 r2. rewrite !tpc_tset. destruct (decide (k1 = k)) as [->|], (decide (k2 = k)) as [->|]; try done.
    + intros [= <- <-] Hk2. by apply Hold in Hk2.
    + intros Hk1 [= <- <-]. by apply Hold in Hk1.
    + apply H2.
  - intros k' id r. rewrite tpc_tset. destruct (decide (k' = k)) as [->|].
    + cbn. intros [= <- <-]. split_and!; [lia|lia|intros He; destruct (H7 _ He); lia| |lia].
      split; [|done]. intros Hin. destruct (H4 _ Hin) as [k2 Hk2]. destruct (H3 _ _ _ Hk2) as [? _]. lia.
    + intros Hk. destruct (H3 k' id r Hk) as (? & ? & ? & ?). split_and!; [lia|lia|done..].
  - intros u Hu. destruct (H4 u Hu) as [k' Hk']. exists k'. rewrite tpc_tset.
    destruct (decide (k' = k)) as [->|]; [|done]. by rewrite Hnone in Hk'.
  - intros u Hu. destruct (decide (u = n)) as [->|].
    + right. exists k, false. rewrite tpc_tset. by rewrite decide_True.
    + destruct (H5 u ltac:(lia)) as [He|(k' & r & Hk')]; [by left|right]. exists k', r. rewrite tpc_tset.
      destruct (decide (k' = k)) as [->|]; [|done]. by rewrite Hnone in Hk'.
  - intros u He. destruct (H7 u He). split; [lia|done].
  - intros k'. rewrite tpc_tset. by destruct (decide (k' = k)) as [->|].
Qed.

(** What a snapshot taken now sees had ended. *)
Lemma tinv_sees max0 w h u :
  tinv max0 w h -> u < tm_max_committed (tw_mgr w) + 1 -> u ∉ tm_active_set (tw_mgr w) -> ended max0 h u.
Proof.
  intros [H1 _ H3 _ H5 _ _ _] Hu Hna. destruct (H5 u ltac:(lia)) as [He|(k & r & Hk)]; [done|exfalso].
  destruct (H3 k u r Hk) as (_ & _ & Hact & Hmax). destruct r; [by apply Hna, Hact|]. specialize (Hmax eq_refl). lia.
Qed.

Lemma tinv_register max0 w h k id iso :
  tinv max0 w h -> tpc w k = TAllocated id iso ->
  tinv max0 (tset w (begin_register iso id (tw_mgr w)).2 k (TActive (begin_register iso id (tw_mgr w)).1)) h.
Proof.
  intros Hi Hpc. pose proof (tinv_sees max0 w h) as Hsees. pose proof Hi as [H1 H2 H3 H4 H5 H6 H7 H8].
  assert (Hk : pc_txn (tpc w k) = Some (id, false)) by (by rewrite Hpc).
  destruct (H3 k id false Hk) as (Hid & Hnend & Hnact & _).
  set (w' := tset w _ k _).
  assert (Htxn : forall k', pc_txn (tpc w' k') = if decide (k' = k) then Some (id, true) else pc_txn (tpc w k')).
  { intros k'. unfold w'. rewrite tpc_tset. by destruct (decide (k' = k)). }
  assert (Hne : forall k' id' r, k' ≠ k -> pc_txn (tpc w k') = Some (id', r) -> id' ≠ id).
  { intros k' id' r Hkk Hk' ->. by apply Hkk, (H2 k' k id r false). }
  split; cbn [w' tw_mgr tset begin_register snd tm_next_txn_id tm_max_committed tm_active_set]; fold w'; try done.
  - intros k1 k2 id' r1 r2. rewrite !Htxn. destruct (decide (k1 = k)) as [->|], (decide (k2 = k)) as [->|]; try done.
    + intros [= <- <-] Hk2. by apply Hne in Hk2.
    + intros Hk1 [= <- <-]. by apply Hne in Hk1.
    + apply H2.
  - intros k' id' r. rewrite Htxn. destruct (decide (k' = k)) as [->|].
    + intros [= <- <-]. split_and!; [lia|lia|done| |done]. set_solver.
    + intros Hk'. destruct (H3 k' id' r Hk') as (? & ? & Ha & ?). split_and!; try done; try lia.
      pose proof (Hne k' id' r ltac:(done) Hk'). rewrite <-Ha. set_solver.
  - intros u [->%elem_of_singleton|Hu]%elem_of_union.
    + exists k. rewrite Htxn. by rewrite decide_True.
    + destruct (H4 u Hu) as [k' Hk']. exists k'. rewrite Htxn. destruct (decide (k' = k)) as [->|]; [|done].
      by rewrite Hk in Hk'.
  - intros u Hu. destruct (H5 u Hu) as [He|(k' & r & Hk')]; [by left|right].
    destruct (decide (k' = k)) as [->|].
    + rewrite Hk in Hk'. injection Hk' as <- <-. exists k, true. rewrite Htxn. by rewrite decide_True.
    + exists k', r. rewrite Htxn. by rewrite decide_False.
  - intros u He. destruct (H7 u He) as [? Hna]. split; [done|]. apply not_elem_of_union. split; [|done].
    apply not_elem_of_singleton. by intros ->.
  - intros k'. unfold w'. rewrite tpc_tset. destruct (decide (k' = k)) as [->|]; [|done].
    cbn. intros u Hfz Hu Hna. rewrite Hfz in Hna. cbn in Hna. by apply Hsees.
Qed.

Lemma ended_mono max0 h h' u :
  th_committed h ⊆ th_committed h' -> th_rolled h ⊆ th_rolled h' -> ended max0 h u -> ended max0 h' u.
Proof. unfold ended. set_solver. Qed.

(** Ending a registered transaction. *)
Lemma tinv_end max0 w h k id m pc h' :
  tinv max0 w h -> pc_txn (tpc w k) = Some (id, true) -> pc_txn pc = None -> frozen_ok max0 h' pc ->
  tm_next_txn_id m = tm_next_txn_id (tw_mgr w) -> tm_active_set m = tm_active_set (tw_mgr w) ∖ {[id]} ->
  tm_max_committed (tw_mgr w) <= tm_max_committed m <= Z.max (tm_max_committed (tw_mgr w)) id ->
  (tm_max_committed (tw_mgr w) < tm_max_committed m ->
     forall k' u, pc_txn (tpc w k') = Some (u, false) -> id < u) ->
  (forall u, ended max0 h' u <-> ended max0 h u \/ u = id) ->
  (forall u, u ∈ th_committed h' -> u ∈ th_committed h \/ u <= tm_max_committed m) ->
  tinv max0 (tset w m k pc) h'.
Proof.
  intros [H1 H2 H3 H4 H5 H6 H7 H8] Hk Hpc Hfz Hn Ha Hmax Hguard Hend Hcom.
  destruct (H3 k id true Hk) as (Hid & Hnend & _ & _).
  set (w' := tset w m k pc).
  assert (Htxn : forall k', pc_txn (tpc w' k') = if decide (k' = k) then None else pc_txn (tpc w k')).
  { intros k'. unfold w'. rewrite tpc_tset. by destruct (decide (k' = k)). }
  assert (Hne : forall k' id' r, k' ≠ k -> pc_txn (tpc w k') = Some (id', r) -> id' ≠ id).
  { intros k' id' r Hkk Hk' ->. by apply Hkk, (H2 k' k id r true). }
  split; cbn [w' tw_mgr tset]; fold w'; rewrite ?Hn, ?Ha.
  - lia.
  - intros k1 k2 id' r1 r2. rewrite !Htxn. destruct (decide (k1 = k)), (decide (k2 = k)); try done. apply H2.
  - intros k' id' r. rewrite Htxn. destruct (decide (k' = k)) as [->|]; [done|]. intros Hk'.
    destruct (H3 k' id' r Hk') as (? & ? & Hact & Hlt). pose proof (Hne k' id' r ltac:(done) Hk').
    split_and!; [lia|lia| |rewrite <-Hact; set_solver|].
    + rewrite Hend. tauto.
    + intros ->. specialize (Hlt eq_refl). destruct (decide (tm_max_committed (tw_mgr w) < tm_max_committed m)); [|lia].
      pose proof (Hguard ltac:(done) k' id' Hk'). lia.
  - intros u [Hu Hne']%elem_of_difference. destruct (H4 u Hu) as [k' Hk']. exists k'. rewrite Htxn.
    destruct (decide (k' = k)) as [->|]; [|done]. rewrite Hk in Hk'. set_solver.
  - intros u Hu. rewrite Hend. destruct (H5 u Hu) as [He|(k' & r & Hk')]; [by left; left|].
    destruct (decide (k' = k)) as [->|].
    + rewrite Hk in Hk'. injection Hk' as <- <-. left. by right.
    + right. exists k', r. rewrite Htxn. by rewrite decide_False.
  - intros u Hu. destruct (Hcom u Hu) as [Hu'|]; [|done]. specialize (H6 u Hu'). lia.
  - intros u [He| ->]%Hend; [destruct (H7 u He); split; [done|set_solver]|]. split; [lia|set_solver].
  - intros k'. unfold w'. rewrite tpc_tset. destruct (decide (k' = k)) as [->|]; [done|].
    specialize (H8 k'). destruct (tpc w k'); cbn in *; try done; intros u ???; apply Hend; left; by apply H8.
Qed.

Lemma tinv_step max0 w h ev w' :
  tinv max0 w h -> txn_guard w ev -> txn_exec w ev = Some w' -> tinv max0 w' (thist_step w ev h).
Proof.
  intros Hi Hg He. pose proof (ti_frozen _ _ _ Hi) as Hfz.
  destruct ev as [k iso|k|k lo|k|k|k|k|k|ids|ids|]; cbn [txn_exec] in He.
  1-8: specialize (Hfz k); destruct (tpc w k) as [|id iso'|c|c adv|c|c] eqn:Hpc; try done; cbn [thist_step].
  - cbn [begin_alloc] in He. apply (inj Some) in He. subst w'. by apply tinv_alloc.
  - cbn [begin_register] in He. apply (inj Some) in He. subst w'. by apply tinv_register.
  - destruct (local_step lo c (tw_mgr w)) as [[c' m']|] eqn:Hl; [|done]. apply (inj Some) in He. subst w'.
    apply local_step_same in Hl as (Hid & Hsn & Hiso & Hids & Hn & Hm & Ha & _).
    apply tinv_quiet; [done..|cbn; by rewrite Hpc, Hid|]. unfold frozen_ok in *. by rewrite Hsn, Hiso, Hids.
  - cbn [commit_log] in He. apply (inj Some) in He. subst w'. apply tinv_quiet; [done..|by rewrite Hpc|done].
  - apply (inj Some) in He. subst w'. rewrite Hpc. cbn [txn_guard] in Hg. rewrite Hpc in Hg. destruct Hg as [-> Hg].
    eapply tinv_end with (id := ct_txn_id c); [done|by rewrite Hpc|done|done|done|done| | | |];
      cbn [commit_publish tm_max_committed].
    + lia.
    + intros _ k' u Hk'. destruct (tpc w k') eqn:Hk; cbn in Hk'; try done. injection Hk' as ->. by eapply Hg.
    + intros u. unfold ended. cbn. set_solver.
    + intros u. cbn. intros [->%elem_of_singleton|]%elem_of_union; [right; lia|by left].
  - apply (inj Some) in He. subst w'. apply tinv_quiet; [done..|by rewrite Hpc|done].
  - apply (inj Some) in He. subst w'. apply tinv_quiet; [done..|by rewrite Hpc|done].
  - apply (inj Some) in He. subst w'. rewrite Hpc.
    eapply tinv_end with (id := ct_txn_id c); [done|by rewrite Hpc|done|done|done|done|cbn; lia|cbn; lia| |].
    + intros u. unfold ended. cbn. set_solver.
    + by left.
  - cbn [txn_guard] in Hg. subst ids. apply (inj Some) in He. subst w'. by destruct Hi.
  - apply (inj Some) in He. subst w'. unfold release_committed_frees.
    destruct (_ || _); by destruct Hi.
  - apply (inj Some) in He. subst w'. by destruct Hi.
Qed.

Lemma tinv_init max0 policy deferred :
  0 <= max0 < 2 ^ 64 - 1 -> tinv max0 (txn_init max0 deferred policy) (mkTh ∅ ∅).
Proof.
  intros Hm. split; cbn.
  - lia.
  - done.
  - done.
  - set_solver.
  - intros u Hu. left. left. lia.
  - set_solver.
  - intros u [|[|]]; [split; [lia|set_solver]|set_solver..].
  - done.
Qed.

Lemma treach_inv max0 w h : treach max0 w h -> tinv max0 w h.
Proof. induction 1; [by apply tinv_init|by eapply tinv_step]. Qed.

(** ** The garbage-collection horizon *)

Definition horizon_ok (m : TxnManager) : Prop :=
  (tm_active_set m = ∅ /\ tm_lowest_active_id m = 0) \/
  (tm_lowest_active_id m ∈ tm_active_set m /\ forall u, u ∈ tm_active_set m -> tm_lowest_active_id m <= u).

Lemma set_min_spec (s : gset Z) :
  (s = ∅ /\ set_min s = 0) \/ (set_min s ∈ s /\ forall u, u ∈ s -> set_min s <= u).
Proof.
  unfold set_min. destruct (elements s) as [|x xs] eqn:He; [left; split; [by apply elements_empty_inv, leibniz_equiv in He|done]|right].
  assert (Hin : forall u, u ∈ s <-> u ∈ x :: xs) by (intros u; rewrite <-He; by rewrite elem_of_elements).
  assert (Hf : foldr Z.min x xs ∈ x :: xs /\ forall u, u ∈ x :: xs -> foldr Z.min x xs <= u).
  { clear. induction xs as [|y xs [IH1 IH2]]; cbn [foldr].
    - split; [by left|]. intros u ->%list_elem_of_singleton. lia.
    - split.
      + destruct (Z.min_spec y (foldr Z.min x xs)) as [[_ ->]|[_ ->]]; [set_solver|].
        apply elem_of_cons in IH1 as [->|]; set_solver.
      + intros u Hu. apply elem_of_cons in Hu as [->|[->|Hu]%elem_of_cons].
        * pose proof (IH2 x ltac:(by left)). lia.
        * lia.
        * pose proof (IH2 u ltac:(by right)). lia. }
  split; [apply Hin, Hf|]. intros u Hu. by apply Hf, Hin.
Qed.

Lemma horizon_register iso id m :
  horizon_ok m -> (forall u, u ∈ tm_active_set m -> 0 < u) -> horizon_ok (begin_register iso id m).2.
Proof.
  intros Hh Hpos. unfold horizon_ok, begin_register. cbn [snd tm_active_set tm_lowest_active_id]. right.
  destruct Hh as [[He H0]|[Hin Hall]].
  - rewrite H0, He. cbn. split; set_solver by lia.
  - pose proof (Hpos _ Hin). rewrite (proj2 (Z.eqb_neq _ _)) by lia. cbn [orb].
    destruct (Z.ltb_spec id (tm_lowest_active_id m)); (split; [set_solver|]);
      intros u [->%elem_of_singleton|Hu]%elem_of_union; try lia; specialize (Hall u Hu); lia.
Qed.

Lemma treach_horizon max0 w h : treach max0 w h -> horizon_ok (tw_mgr w).
Proof.
  induction 1 as [policy deferred Hm|w h ev w' Hr IH Hg He]; [by left|].
  apply treach_inv in Hr.
  assert (Hpos : forall u, u ∈ tm_active_set (tw_mgr w) -> 0 < u).
  { intros u Hu. destruct (ti_active _ _ _ Hr u Hu) as [k Hk]. destruct (ti_run _ _ _ Hr k u true Hk) as [? _].
    pose proof (ti_max _ _ _ Hr). lia. }
  destruct ev as [k iso|k|k lo|k|k|k|k|k|ids|ids|]; cbn [txn_exec] in He.
  1-8: destruct (tpc w k) as [|id iso'|c|c adv|c|c] eqn:Hpc; try done.
  all: try (cbn [begin_alloc commit_log] in He; apply (inj Some) in He; subst w'; exact IH).
  - cbn [begin_register] in He. apply (inj Some) in He. subst w'. by apply (horizon_register iso' id).
  - destruct (local_step lo c (tw_mgr w)) as [[c' m']|] eqn:Hl; [|done]. apply (inj Some) in He. subst w'.
    apply local_step_same in Hl as (_ & _ & _ & _ & _ & _ & Ha & Hlow). unfold horizon_ok. cbn. by rewrite Ha, Hlow.
  - apply (inj Some) in He. subst w'. apply set_min_spec.
  - apply (inj Some) in He. subst w'. apply set_min_spec.
  - apply (inj Some) in He. subst w'. cbn [txn_guard] in Hg. by subst ids.
  - apply (inj Some) in He. subst w'. cbn [tw_mgr]. unfold release_committed_frees. by destruct (_ || _).
Qed.

(** ** Properties *)

(** A transaction in progress, or not yet begun, is invisible to everyone else. *)
Lemma unseen_running max0 w h k c u :
  tinv max0 w h -> tpc w k = TActive c -> u ≠ ct_txn_id c ->
  ~ ended max0 h u -> ~ sees (active_snapshot c (tw_mgr w)) u.
Proof.
  intros Hi Hpc Hne Hnend [[_ ->]|[Hu Hna]]; unfold active_snapshot in *.
  - destruct (uses_frozen_snapshot _); cbn in Hne; done.
  - destruct (uses_frozen_snapshot (ct_isolation_level c)) eqn:Hfz; cbn in Hu, Hna.
    + pose proof (ti_frozen _ _ _ Hi k) as Hf. rewrite Hpc in Hf. by apply Hnend, Hf.
    + by eapply Hnend, tinv_sees.
Qed.

(** C12: in every guarded execution, snapshots are exact. A snapshot sees every transaction
    that committed before it was taken, and sees no other transaction than those that
    had ended: never one in progress, nor one still to begin. The snapshot of a
    running transaction, frozen or fresh, adds only the transaction itself. The
    garbage-collection horizon is the least active identifier when a transaction is
    active, and 0 when none is. *)
Theorem txn_snapshot_exact max0 w h :
  treach max0 w h ->
  let m := tw_mgr w in
  (forall u, u ∈ th_committed h \/ u <= max0 -> sees (snapshot m) u) /\
  (forall u, sees (snapshot m) u -> ended max0 h u) /\
  (forall k c, tpc w k = TActive c -> forall u, sees (active_snapshot c m) u -> u = ct_txn_id c \/ ended max0 h u) /\
  (if decide (tm_active_set m = ∅) then tm_lowest_active_id m = 0
   else tm_lowest_active_id m ∈ tm_active_set m /\ forall u, u ∈ tm_active_set m -> tm_lowest_active_id m <= u).
Proof.
  intros Hr m. pose proof (treach_inv _ _ _ Hr) as Hi. pose proof (treach_horizon _ _ _ Hr) as Hh.
  pose proof Hi as [H1 H2 H3 H4 H5 H6 H7 H8]. split_and!.
  - intros u Hu. right. cbn. split.
    + destruct Hu as [Hu|]; [specialize (H6 u Hu); unfold m in *; lia|unfold m in *; lia].
    + apply H7. unfold ended. tauto.
  - intros u [[? _]|[Hu Hna]]; [done|]. by eapply tinv_sees.
  - intros k c Hpc u Hs. destruct (decide (u = ct_txn_id c)); [by left|right].
    destruct (decide (u <= max0 \/ u ∈ th_committed h \/ u ∈ th_rolled h)) as [He|He]; [done|].
    exfalso. by eapply unseen_running.
  - destruct Hh as [[He H0]|Hh]; [by rewrite decide_True by done|].
    rewrite decide_False; [done|]. intros He. unfold m in He. rewrite He in Hh. set_solver.
Qed.

Lemma own_row_visible c m d v f :
  ct_txn_id c ≠ 0 -> is_visible (mkRow (ct_txn_id c) 0 v f) (active_snapshot c m) = true /\
  (d = ct_txn_id c -> is_visible (mkRow (ct_txn_id c) d v f) (active_snapshot c m) = false).
Proof.
  intros H0.
  assert (Hs : sees (active_snapshot c m) (ct_txn_id c)).
  { left. unfold active_snapshot. by destruct (uses_frozen_snapshot _). }
  split; [apply is_visible_spec; split; [done|by left]|]. intros ->.
  apply not_true_is_false. rewrite is_visible_spec. cbn. intros [_ [?|?]]; done.
Qed.

Section Isolation.
Context {C : Crc32c} {CR : Crc32cRange C}.

(** C1: isolation end to end, in every guarded execution of the transaction manager: what
    another transaction that has not ended does to a page, as the scan of a running
    transaction shows it. Its insert leaves the scan as it is. Its delete of any row
    with a live slot succeeds and leaves the scan as it is, unless the running
    transaction saw that row created and already deleted, in which case the overwritten
    stamp brings the row back into the scan. Its in-place rewrite takes the row out of
    the scan when the new tuple fits in the slot, and leaves the scan as it is
    otherwise. A row the running transaction inserted itself is in its scan. *)
Theorem mvcc_isolation max0 w h k c t p data :
  treach max0 w h -> tpc w k = TActive c -> t ≠ ct_txn_id c -> ~ ended max0 h t ->
  heap_wf p -> bytes_ok data -> in_u64 t -> in_u64 (ct_txn_id c) -> zlen data < 2 ^ 62 ->
  let snap := active_snapshot c (tw_mgr w) in
  exists rows, scan_visible p snap = Some rows /\
  (exists r p', insert_tuple p data t = Some (r, p') /\ scan_visible p' snap = Some rows) /\
  (forall i row d, 0 <= i -> read_tuple p i = Some (Ok (Some (row, d))) ->
    (exists p' rows', delete_tuple p i t = Some (Ok tt, p') /\ scan_visible p' snap = Some rows' /\
      (~ gone snap row -> rows' = rows) /\ (gone snap row -> ~ (i, d) ∈ rows /\ rows' ≡ₚ ((i, d) :: rows))) /\
    (exists r p', try_rewrite_tuple_same_slot_no_checksum p i data t = Some (Ok r, p') /\
      scan_visible p' snap = Some (if r is Some _ then filter (fun x => x.1 ≠ i) rows else rows))) /\
  (forall slot p', insert_tuple p data (ct_txn_id c) = Some (Ok slot, p') ->
    exists rows, scan_visible p' snap = Some rows /\ (slot, data) ∈ rows).
Proof.
  intros Hr Hpc Hne Hnend Hwf Hd Ht Hc Hlen snap. pose proof (treach_inv _ _ _ Hr) as Hi.
  pose proof (unseen_running max0 w h k c t Hi Hpc Hne Hnend) as Hs. fold snap in Hs.
  pose proof (scan_visible_spec p snap Hwf) as Hscan. exists (visible_rows snap p). split_and!; [done|..].
  - destruct (insert_isolated p data t snap Hwf Hd Ht Hlen Hs) as (r & p' & ? & _ & Hsc). exists r, p'. by rewrite Hsc.
  - intros i row d Hi0 Hrd. split.
    + destruct (delete_scan p i row d t snap Hwf Hi0 Ht Hrd Hs) as (p' & rows & rows' & ? & Hrows & ? & ? & ?).
      assert (rows = visible_rows snap p) as -> by congruence. by exists p', rows'.
    + destruct (rewrite_scan p i data t snap Hwf (read_live p i row d Hwf Hi0 Hrd) Hd Ht Hlen Hs) as (r & p' & rows & ? & Hrows & ?).
      assert (rows = visible_rows snap p) as -> by congruence. by exists r, p'.
  - intros slot p' Hins. pose proof (insert_tuple_spec p data _ Hwf Hd Hc Hlen) as H. cbv zeta in H.
    destruct (free_space p <? _); [congruence|]. destruct H as (p1 & Hins' & [Hwf' Hn Hnew _] & _).
    assert (p1 = p' /\ num_slots p = slot) as [-> <-] by (split; congruence).
    exists (visible_rows snap p'). split; [by apply scan_visible_spec|]. unfold visible_rows.
    apply list_elem_of_omap. exists (num_slots p). pose proof (num_slots_range p Hwf).
    split; [apply elem_of_seqZ; lia|]. unfold visible_row. rewrite Hnew.
    destruct (ti_run _ _ _ Hi k (ct_txn_id c) true) as [Hid _]; [by rewrite Hpc|]. pose proof (ti_max _ _ _ Hi).
    destruct (own_row_visible c (tw_mgr w) 0 0 0 ltac:(lia)) as [Hv _]. fold snap in Hv. by rewrite Hv.
Qed.
End Isolation.

(** ** Concrete executions *)

Definition guardb (w : TxnWorld) (ev : TxnEvent) : bool :=
  match ev with
  | EvBeginAlloc _ _ => tm_next_txn_id (tw_mgr w) + 1 <? 2 ^ 64
  | EvCommitPublish k =>
      match tpc w k with
      | TCommitting c adv =>
          adv && forallb (fun x => match x.2 with TAllocated id _ => ct_txn_id c <? id | _ => true end)
                   (map_to_list (tw_pcs w))
      | _ => true
      end
  | EvAdvance ids => bool_decide (ids = [])
  | _ => true
  end.

Lemma guardb_sound w ev : guardb w ev = true -> txn_guard w ev.
Proof.
  destruct ev as [k iso|k|k lo|k|k|k|k|k|ids|ids|]; cbn [guardb txn_guard]; try done.
  - by intros ?%Z.ltb_lt.
  - destruct (tpc w k) as [| | |c adv| |]; try done. intros [Hadv Hall]%andb_prop. split; [done|].
    intros k' id iso Hpc. rewrite forallb_forall in Hall. unfold tpc in Hpc.
    destruct (tw_pcs w !! k') as [pc|] eqn:Hk; [|done]. cbn in Hpc. subst pc.
    apply elem_of_map_to_list, list_elem_of_In in Hk. specialize (Hall _ Hk). cbn in Hall. by apply Z.ltb_lt.
  - by intros ?%bool_decide_eq_true.
Qed.

(** Runs an execution, checking the guards. *)
Fixpoint run_guarded (w : TxnWorld) (evs : list TxnEvent) (h : THist) : option (TxnWorld * THist) :=
  match evs with
  | [] => Some (w, h)
  | ev :: evs' =>
      if guardb w ev then
        match txn_exec w ev with
        | Some w' => run_guarded w' evs' (thist_step w ev h)
        | None => None
        end
      else None
  end.

Lemma run_guarded_reach max0 evs : forall w h w' h',
  treach max0 w h -> run_guarded w evs h = Some (w', h') -> treach max0 w' h'.
Proof.
  induction evs as [|ev evs IH]; intros w h w' h' Hr; cbn [run_guarded].
  - by intros [= <- <-].
  - destruct (guardb w ev) eqn:Hg; [|done]. destruct (txn_exec w ev) as [w1|] eqn:He; [|done].
    apply IH. eapply tr_step; [done|by apply guardb_sound|done].
Qed.

Definition begin_txn (k : Z) (iso : IsolationLevel) : list TxnEvent := [EvBeginAlloc k iso; EvBeginRegister k].
Definition commit_txn (k : Z) : list TxnEvent := [EvCommitLog k; EvCommitPublish k; EvCommitPost k].

(** 1 commits a change while 2 runs; 3 begins afterwards. *)
Definition three_txns : list TxnEvent :=
  begin_txn 1 RepeatableRead ++ begin_txn 2 ReadCommitted ++ [EvLocal 1 (LoRecord (UndoInsert 9 0))] ++ commit_txn 1
  ++ begin_txn 3 RepeatableRead.

(** What the executions are checked to end in, by computation. *)
Definition active_in (w : TxnWorld) (k : Z) : option (Z * TransactionSnapshot) :=
  match tpc w k with TActive c => Some (ct_txn_id c, active_snapshot c (tw_mgr w)) | _ => None end.

Lemma active_in_inv w k id snap : active_in w k = Some (id, snap) ->
  exists c, tpc w k = TActive c /\ ct_txn_id c = id /\ active_snapshot c (tw_mgr w) = snap.
Proof. unfold active_in. destruct (tpc w k) as [| |c| | |]; try discriminate. intros [= <- <-]. by exists c. Qed.

Definition guarded_summary (evs : list TxnEvent) (k : Z) : option (option Z * gset Z * gset Z) :=
  match run_guarded (txn_init 0 false Strict) evs (mkTh ∅ ∅) with
  | Some (w, h) => Some (fst <$> active_in w k, th_committed h, th_rolled h)
  | None => None
  end.

Lemma guarded_summary_inv evs k id done rolled : guarded_summary evs k = Some (Some id, done, rolled) ->
  exists w h c, treach 0 w h /\ tpc w k = TActive c /\ ct_txn_id c = id /\ th_committed h = done /\ th_rolled h = rolled.
Proof.
  unfold guarded_summary. destruct (run_guarded _ _ _) as [[w h]|] eqn:Hrun; [|done].
  destruct (active_in w k) as [[id' snap]|] eqn:Ha; [|done].
  destruct (active_in_inv _ _ _ _ Ha) as (c & Hc & Hid & _). intros [= <- <- <-]. exists w, h, c. split_and!; try done.
  eapply run_guarded_reach; [|exact Hrun]. apply tr_init. lia.
Qed.

Lemma three_txns_reach :
  exists w h c, treach 0 w h /\ tpc w 3 = TActive c /\ ct_txn_id c = 3 /\ th_committed h = {[1]} /\ th_rolled h = ∅.
Proof. apply (guarded_summary_inv three_txns). vm_compute. reflexivity. Qed.

Lemma txn_snapshot_exact_witness :
  exists w h, treach 0 w h /\ sees (snapshot (tw_mgr w)) 1 /\ ~ sees (snapshot (tw_mgr w)) 2.
Proof.
  destruct three_txns_reach as (w & h & c & Hr & _ & _ & Hc & Hrb).
  destruct (txn_snapshot_exact 0 w h Hr) as (H1 & H2 & _).
  exists w, h. split; [exact Hr|]. split; [apply H1; left; rewrite Hc; set_solver|].
  intros Hs%H2. unfold ended in Hs. rewrite Hc, Hrb in Hs. destruct Hs as [?|[?|?]]; [lia|set_solver|set_solver].
Defined.

(** Transaction 2 still runs when 3 has begun: 3 scans the sample page, whose row 5
    inserted, as before although 2 deletes the row. *)
Lemma mvcc_isolation_witness :
  exists snap p' rows, @delete_tuple crc32c_ref sample_page 0 2 = Some (Ok tt, p') /\
    scan_visible sample_page snap = Some rows /\ scan_visible p' snap = Some rows.
Proof.
  destruct three_txns_reach as (w & h & c & Hr & Hpc & Hid & Hc & Hrb).
  destruct sample_page_wf as (Hwf & _ & Hrd).
  destruct sample_data as (Hd & _ & Hl). assert (H2 : in_u64 2) by widths.
  assert (Hne : 2 ≠ ct_txn_id c) by lia. assert (Hown : in_u64 (ct_txn_id c)) by widths.
  assert (Hnend : ~ ended 0 h 2).
  { unfold ended. rewrite Hc, Hrb. intros [?|[?|?]]; [lia|set_solver|set_solver]. }
  destruct (@mvcc_isolation crc32c_ref crc32c_ref_range 0 w h 3 c 2 sample_page [1; 2; 3] Hr Hpc Hne Hnend
    Hwf Hd H2 Hown Hl) as (rows & Hrows & _ & Hrow & _).
  destruct (Hrow 0 _ _ (Z.le_refl 0) Hrd) as [(p' & rows' & Hdel & Hs & He & _) _].
  exists (active_snapshot c (tw_mgr w)), p', rows. split; [exact Hdel|]. split; [exact Hrows|].
  rewrite Hs, He; [reflexivity|]. intros (_ & H0 & _). by apply H0.
Defined.

(** The state an unguarded execution ends in: who is active and with what snapshot, the
    log, the snapshot of a statement without a transaction. *)
Definition run_summary (deferred : bool) (evs : list TxnEvent) (k1 k2 : Z)
    : option (option Z * option (Z * TransactionSnapshot) * list LogRecord * TransactionSnapshot) :=
  match txn_run (txn_init 0 deferred Strict) evs with
  | Some w => Some (fst <$> active_in w k1, active_in w k2, tm_log (tw_mgr w), snapshot (tw_mgr w))
  | None => None
  end.

Lemma run_summary_inv deferred evs k1 k2 id1 act2 log snap :
  run_summary deferred evs k1 k2 = Some (id1, act2, log, snap) ->
  exists w, txn_run (txn_init 0 deferred Strict) evs = Some w /\
    fst <$> active_in w k1 = id1 /\ active_in w k2 = act2 /\ tm_log (tw_mgr w) = log /\ snapshot (tw_mgr w) = snap.
Proof. unfold run_summary. destruct (txn_run _ _) as [w|]; [|done]. intros [= <- <- <- <-]. by exists w. Qed.

(** 1 has allocated its identifier but not registered when 2 begins and commits; 3 begins,
    then 1 registers and starts to write. *)
Definition late_registration : list TxnEvent :=
  [EvBeginAlloc 1 RepeatableRead] ++ begin_txn 2 RepeatableRead ++ [EvLocal 2 (LoRecord (UndoInsert 9 0))] ++ commit_txn 2
  ++ begin_txn 3 RepeatableRead ++ [EvBeginRegister 1; EvLocal 1 (LoRecord (UndoInsert 9 0))].

(** Without the guard snapshots are not exact. Identifiers are allocated before they
    are entered in the active set, so a transaction that commits in between moves
    the snapshot horizon past an identifier that is not in the set: the frozen
    snapshot of 3 sees transaction 1, which is running and has committed nothing. *)
Theorem snapshot_sees_running_transaction :
  exists w c1 c3, txn_run (txn_init 0 false Strict) late_registration = Some w /\
    tpc w 1 = TActive c1 /\ tpc w 3 = TActive c3 /\ ct_txn_id c1 ≠ ct_txn_id c3 /\
    LogCommit (ct_txn_id c1) ∉ tm_log (tw_mgr w) /\
    sees (active_snapshot c3 (tw_mgr w)) (ct_txn_id c1).
Proof.
  assert (H : run_summary false late_registration 1 3 =
    Some (Some 1, Some (3, mkSnap 3 3 ∅), [LogBegin 1; LogBegin 2; LogCommit 2; LogBegin 3], mkSnap 3 0 {[1; 3]}))
    by (vm_compute; reflexivity).
  destruct (run_summary_inv _ _ _ _ _ _ _ _ H) as (w & Hrun & H1 & H3 & Hlog & _). clear H.
  destruct (active_in_inv _ _ _ _ H3) as (c3 & Hc3 & Hid3 & Hs3).
  destruct (active_in w 1) as [[i1 s1]|] eqn:Ha1; [|discriminate].
  destruct (active_in_inv _ _ _ _ Ha1) as (c1 & Hc1 & Hid1 & _). injection H1 as Hi.
  exists w, c1, c3. rewrite Hlog, Hs3, Hid1, Hid3, Hi. split; [exact Hrun|]. split; [exact Hc1|].
  split; [exact Hc3|]. split; [lia|]. split; [rewrite !elem_of_cons, elem_of_nil; intros [?|[?|[?|[?|?]]]]; congruence|].
  right. cbn. split; [lia|apply not_elem_of_empty].
Qed.

(** In pipeline mode 1 commits a change, which awaits its fsync; then the read-only 2 commits. *)
Definition reader_after_deferred : list TxnEvent :=
  begin_txn 1 RepeatableRead ++ begin_txn 2 RepeatableRead ++ [EvLocal 1 (LoRecord (UndoInsert 9 0))] ++ commit_txn 1 ++ commit_txn 2.

(** A deferred commit becomes visible before it is durable: the commit of a read-only
    transaction advances the horizon past it, though [advance_committed] was never
    called for it, whereas without the reader the commit stays invisible. *)
Theorem deferred_commit_visible_early :
  (exists w, txn_run (txn_init 0 true Strict) (begin_txn 1 RepeatableRead ++ [EvLocal 1 (LoRecord (UndoInsert 9 0))] ++ commit_txn 1) = Some w /\
     ~ sees (snapshot (tw_mgr w)) 1) /\
  exists w, txn_run (txn_init 0 true Strict) reader_after_deferred = Some w /\ sees (snapshot (tw_mgr w)) 1.
Proof.
  split.
  - assert (H : run_summary true (begin_txn 1 RepeatableRead ++ [EvLocal 1 (LoRecord (UndoInsert 9 0))] ++ commit_txn 1) 1 1 =
      Some (None, None, [LogBegin 1; LogCommit 1], mkSnap 1 0 ∅)) by (vm_compute; reflexivity).
    destruct (run_summary_inv _ _ _ _ _ _ _ _ H) as (w & Hrun & _ & _ & _ & Hs). exists w. rewrite Hs.
    split; [exact Hrun|]. unfold sees; cbn. intros [?|?]; lia.
  - assert (H : run_summary true reader_after_deferred 1 1 =
      Some (None, None, [LogBegin 1; LogBegin 2; LogCommit 1; LogCommit 2], mkSnap 3 0 ∅)) by (vm_compute; reflexivity).
    destruct (run_summary_inv _ _ _ _ _ _ _ _ H) as (w & Hrun & _ & _ & _ & Hs). exists w. rewrite Hs.
    split; [exact Hrun|]. right. cbn. split; [lia|apply not_elem_of_empty].
Qed.
