(* ===== verification/WalClustered.v ===== *)
(** * Records of clustered tables

    crates/axiomdb-wal/src/clustered.rs: the row images and field patches that the records
    of a clustered table carry. *)

From S2P Require Import Prelude Page Heap.

(** ** Data *)

Record ClusteredRowImage : Type := mkImage {
  im_root_pid : Z;
  im_row_header : RowHeader;
  im_row_data : bytes
}.

(** [old_bytes] and [new_bytes] are arrays of 8 bytes, of which the first [size] count. *)
Record FieldDelta : Type := mkDelta {
  fd_offset : Z;
  fd_size : Z;
  fd_old_bytes : bytes;
  fd_new_bytes : bytes
}.

Record ClusteredFieldPatchEntry : Type := mkPatch {
  cp_key : bytes;
  cp_old_header : RowHeader;
  cp_new_header : RowHeader;
  cp_old_row_data : bytes;
  cp_field_deltas : list FieldDelta
}.

(** ** Row images *)

Definition IMAGE_FIXED_LEN : Z := 8 + 8 + 8 + 4 + 4 + 4.

Definition image_to_bytes (im : ClusteredRowImage) : Result bytes :=
  if U32_MAX <? zlen (im_row_data im) then Err (ValueTooLarge (zlen (im_row_data im)) U32_MAX)
  else Ok (le_bytes 8 (im_root_pid im)
           ++ le_bytes 8 (txn_id_created (im_row_header im))
           ++ le_bytes 8 (txn_id_deleted (im_row_header im))
           ++ le_bytes 4 (row_version (im_row_header im))
           ++ le_bytes 4 (rh_flags (im_row_header im))
           ++ le_bytes 4 (wrap32 (zlen (im_row_data im)))
           ++ im_row_data im).

Definition image_from_bytes (bs : bytes) : Result ClusteredRowImage :=
  if zlen bs <? IMAGE_FIXED_LEN then Err InvalidValue
  else
    let root_pid := get_le 0 8 bs in
    let txn_id_created := get_le 8 8 bs in
    let txn_id_deleted := get_le 16 8 bs in
    let row_version := get_le 24 4 bs in
    let flags := get_le 28 4 bs in
    let row_len := get_le 32 4 bs in
    if negb (zlen bs =? IMAGE_FIXED_LEN + row_len) then Err InvalidValue
    else Ok (mkImage root_pid (mkRow txn_id_created txn_id_deleted row_version flags)
               (drop (Z.to_nat IMAGE_FIXED_LEN) bs)).

(** ** Field patches *)

Definition encode_header (hdr : RowHeader) : bytes :=
  le_bytes 8 (txn_id_created hdr) ++ le_bytes 8 (txn_id_deleted hdr)
  ++ le_bytes 4 (row_version hdr) ++ le_bytes 4 (rh_flags hdr).

(** Offset, size and the first [size] bytes of the array of each field, [None] when an
    array is shorter. *)
Fixpoint encode_fields (fields : list (Z * Z * bytes)) : option bytes :=
  match fields with
  | [] => Some []
  | (offset, size, arr) :: fields' =>
      let! bs := slice 0 size arr in
      let! rest := encode_fields fields' in
      Some (le_bytes 2 offset ++ [size] ++ bs ++ rest)
  end.

Definition encode_old_value (p : ClusteredFieldPatchEntry) : option bytes :=
  let! fields := encode_fields ((fun d => (fd_offset d, fd_size d, fd_old_bytes d)) <$> cp_field_deltas p) in
  Some (encode_header (cp_old_header p) ++ [wrap8 (zlen (cp_field_deltas p))] ++ fields).

Definition encode_new_value (p : ClusteredFieldPatchEntry) : option bytes :=
  let! fields := encode_fields ((fun d => (fd_offset d, fd_size d, fd_new_bytes d)) <$> cp_field_deltas p) in
  Some (encode_header (cp_new_header p) ++ [wrap8 (zlen (cp_field_deltas p))] ++ fields).

(** The loop over the fields, from [cursor] on. *)
Fixpoint decode_fields (num_fields : nat) (bs : bytes) (cursor : Z) : Result (list (Z * Z * bytes) * Z) :=
  match num_fields with
  | O => Ok ([], cursor)
  | S n =>
      if zlen bs <? cursor + 3 then Err InvalidValue
      else
        let offset := get_le cursor 2 bs in
        let size := get_le (cursor + 2) 1 bs in
        let cursor := cursor + 3 in
        if 8 <? size then Err InvalidValue
        else
          let e := cursor + size in
          if zlen bs <? e then Err InvalidValue
          else
            let arr := take (Z.to_nat size) (drop (Z.to_nat cursor) bs) ++ replicate (Z.to_nat (8 - size)) 0 in
            match decode_fields n bs e with
            | Err er => Err er
            | Ok (fields, c) => Ok ((offset, size, arr) :: fields, c)
            end
  end.

Definition decode_patch_value (bs : bytes) : Result (RowHeader * list (Z * Z * bytes)) :=
  if zlen bs <? 24 + 1 then Err InvalidValue
  else
    let row_header := mkRow (get_le 0 8 bs) (get_le 8 8 bs) (get_le 16 4 bs) (get_le 20 4 bs) in
    let num_fields := get_le 24 1 bs in
    match decode_fields (Z.to_nat num_fields) bs (24 + 1) with
    | Err e => Err e
    | Ok (fields, cursor) =>
        if negb (cursor =? zlen bs) then Err InvalidValue else Ok (row_header, fields)
    end.

(** The loop over the pairs of old and new fields. *)
Fixpoint zip_deltas (old new : list (Z * Z * bytes)) : Result (list FieldDelta) :=
  match old, new with
  | (old_offset, old_size, old_arr) :: old', (new_offset, new_size, new_arr) :: new' =>
      if negb (old_offset =? new_offset) || negb (old_size =? new_size) then Err InvalidValue
      else match zip_deltas old' new' with
           | Err e => Err e
           | Ok ds => Ok (mkDelta old_offset old_size old_arr new_arr :: ds)
           end
  | _, _ => Ok []
  end.

Definition from_wal_values (key old_value new_value : bytes) : Result ClusteredFieldPatchEntry :=
  match decode_patch_value old_value with
  | Err e => Err e
  | Ok (old_header, old_fields) =>
      match decode_patch_value new_value with
      | Err e => Err e
      | Ok (new_header, new_fields) =>
          if negb (zlen old_fields =? zlen new_fields) then Err InvalidValue
          else match zip_deltas old_fields new_fields with
               | Err e => Err e
               | Ok field_deltas => Ok (mkPatch key old_header new_header [] field_deltas)
               end
      end
  end.

(** ** Reading back *)

Lemma get_le_concat (cs : list bytes) rest i off n v :
  0 <= n -> 0 <= v < 2 ^ (n * 8) -> cs !! i = Some (le_bytes n v) -> off = zlen (concat (take i cs)) ->
  get_le off n (concat cs ++ rest) = v.
Proof.
  intros Hn Hv Hi ->. assert (Hl : slice (zlen (concat (take i cs))) n (concat cs ++ rest) = Some (le_bytes n v)).
  { rewrite <-(len_le_bytes n v) at 1 by done. by apply slice_concat. }
  rewrite (get_le_slice _ _ _ _ Hl). by apply le_val_le_bytes.
Qed.

(** A row image reads back; one that is too large for the length field is refused. *)
Lemma image_roundtrip im :
  in_u64 (im_root_pid im) -> row_header_ok (im_row_header im) ->
  if decide (zlen (im_row_data im) <= U32_MAX)
  then exists bs, image_to_bytes im = Ok bs /\ image_from_bytes bs = Ok im
  else image_to_bytes im = Err (ValueTooLarge (zlen (im_row_data im)) U32_MAX).
Proof.
  intros H0 (H1 & H2 & H3 & H4). unfold image_to_bytes. destruct im as [root [c d v f] data]. cbn in *. case_decide as Hl.
  2:{ by rewrite (proj2 (Z.ltb_lt _ _)) by lia. }
  rewrite (proj2 (Z.ltb_ge _ _)) by lia. eexists. split; [reflexivity|].
  assert (Hw : wrap32 (zlen data) = zlen data) by (apply Z.mod_small; unfold U32_MAX in Hl; lia). rewrite Hw.
  set (cs := [le_bytes 8 root; le_bytes 8 c; le_bytes 8 d; le_bytes 4 v; le_bytes 4 f; le_bytes 4 (zlen data)]).
  match goal with |- image_from_bytes ?b = _ => assert (Hb : b = concat cs ++ data) end.
  { unfold cs. cbn [concat]. by rewrite app_nil_r, <-!app_assoc. }
  assert (Hlen : length (concat cs) = 36%nat).
  { unfold cs. cbn [concat]. rewrite !length_app, !length_le_bytes by lia. done. }
  rewrite Hb. unfold image_from_bytes, IMAGE_FIXED_LEN. rewrite length_app, Hlen.
  rewrite (proj2 (Z.ltb_ge _ _)) by lia.
  assert (Hg : forall i off n w, 0 <= n -> 0 <= w < 2 ^ (n * 8) -> cs !! i = Some (le_bytes n w) ->
    off = zlen (concat (take i cs)) -> get_le off n (concat cs ++ data) = w) by (intros; by eapply get_le_concat).
  assert (Hpre : forall i, zlen (concat (take i cs)) = match i with 0%nat => 0 | 1%nat => 8 | 2%nat => 16 | 3%nat => 24 | 4%nat => 28 | 5%nat => 32 | _ => 36 end).
  { intros [|[|[|[|[|[|i]]]]]]; unfold cs; cbn [take concat]; rewrite ?firstn_nil; cbn [concat];
      rewrite ?length_app, ?length_le_bytes by lia; done. }
  unfold U32_MAX in Hl.
  rewrite (Hg 0%nat 0 8 root), (Hg 1%nat 8 8 c), (Hg 2%nat 16 8 d), (Hg 3%nat 24 4 v), (Hg 4%nat 28 4 f), (Hg 5%nat 32 4 (zlen data))
    by (done || lia || by rewrite Hpre).
  replace (Z.of_nat (36 + length data)) with (36 + zlen data) by lia. change (8 + 8 + 8 + 4 + 4 + 4) with 36. rewrite Z.eqb_refl. cbn [negb].
  do 2 f_equal.
Qed.

Lemma le_bytes_byte z : in_u8 z -> le_bytes 1 z = [z].
Proof.
  intros Hz. assert (Hl : le_val [z] = z) by (unfold le_val; cbn; by rewrite Z.lor_0_r). rewrite <-Hl at 1.
  apply le_bytes_le_val; [by repeat constructor; apply Hz|done].
Qed.

(** A field's offset and size fit, and its arrays have 8 bytes. *)
Definition field_ok (f : Z * Z * bytes) : Prop := in_u16 f.1.1 /\ 0 <= f.1.2 <= 8 /\ zlen f.2 = 8.

(** The bytes that count, padded with zeros. *)
Definition padded (f : Z * Z * bytes) : Z * Z * bytes :=
  (f.1, take (Z.to_nat f.1.2) f.2 ++ replicate (Z.to_nat (8 - f.1.2)) 0).

Definition field_bytes (f : Z * Z * bytes) : bytes := le_bytes 2 f.1.1 ++ [f.1.2] ++ take (Z.to_nat f.1.2) f.2.

Lemma encode_fields_ok fields : Forall field_ok fields -> encode_fields fields = Some (fields ≫= field_bytes).
Proof.
  induction 1 as [|[[o z] a] fields (H1 & H2 & H3) _ IH]; [done|]. cbn [fst snd] in *. cbn [encode_fields]. rewrite slice_ok by lia.
  rewrite IH, bind_cons. unfold field_bytes at 2. cbn [fst snd]. by rewrite <-!app_assoc.
Qed.

Lemma len_field_bytes f : field_ok f -> zlen (field_bytes f) = 3 + f.1.2.
Proof.
  intros (H1 & H2 & H3). unfold field_bytes. rewrite !length_app, length_le_bytes, length_take by lia. cbn [length]. lia.
Qed.

(** Fields that are there are decoded, whatever follows them. *)
Lemma decode_fields_ok fields : forall pre rest,
  Forall field_ok fields ->
  let bs := pre ++ (fields ≫= field_bytes) ++ rest in
  decode_fields (length fields) bs (zlen pre) = Ok (padded <$> fields, zlen bs - zlen rest).
Proof.
  induction fields as [|[[o z] a] fields IH]; intros pre rest Hok bs; subst bs.
  { cbn. rewrite length_app. do 3 f_equal. lia. }
  apply Forall_cons in Hok as [Hf Hok]. pose proof (len_field_bytes _ Hf) as Hlf. destruct Hf as (Ho & Hz & Ha). cbn [fst snd] in *.
  rewrite bind_cons, <-app_assoc. set (tl := (fields ≫= field_bytes) ++ rest). set (fb := field_bytes (o, z, a)) in *.
  set (bs := pre ++ fb ++ tl). set (body := take (Z.to_nat z) a).
  assert (Hbody : length body = Z.to_nat z) by (unfold body; rewrite length_take; lia).
  assert (Hbs : bs = concat [pre; le_bytes 2 o; le_bytes 1 z] ++ body ++ tl).
  { unfold bs, fb, field_bytes. cbn [concat fst snd]. rewrite app_nil_r, <-!app_assoc, le_bytes_byte by widths. done. }
  assert (Hlen : zlen bs = zlen pre + 3 + z + zlen tl) by (unfold bs; rewrite !length_app; lia).
  cbn [length decode_fields]. rewrite (proj2 (Z.ltb_ge _ _)) by lia.
  assert (get_le (zlen pre) 2 bs = o) as ->.
  { rewrite Hbs. apply (get_le_concat _ _ 1%nat); [lia|widths|done|]. cbn [take concat]. by rewrite app_nil_r. }
  assert (get_le (zlen pre + 2) 1 bs = z) as ->.
  { rewrite Hbs. apply (get_le_concat _ _ 2%nat); [lia|lia|done|]. cbn [take concat].
    rewrite app_nil_r, length_app, length_le_bytes by lia. cbn. lia. }
  rewrite (proj2 (Z.ltb_ge 8 z)), (proj2 (Z.ltb_ge (zlen bs) _)) by lia.
  specialize (IH (pre ++ fb) rest Hok). cbv zeta in IH. fold tl in IH. rewrite <-app_assoc in IH. fold bs in IH.
  replace (zlen (pre ++ fb)) with (zlen pre + 3 + z) in IH by (rewrite length_app; lia). rewrite IH.
  cbn [fmap list_fmap]. unfold padded at 2. cbn [fst snd]. do 4 f_equal.
  assert (Hd : drop (Z.to_nat (zlen pre + 3)) bs = body ++ tl).
  { rewrite Hbs. apply drop_app_length'. cbn [concat]. rewrite !length_app, !length_le_bytes by lia. cbn. lia. }
  rewrite Hd. rewrite <-Hbody at 1. by rewrite take_app_length.
Qed.

Definition patch_value (h : RowHeader) (fields : list (Z * Z * bytes)) : bytes :=
  encode_header h ++ [wrap8 (zlen fields)] ++ (fields ≫= field_bytes).

(** Up to 255 fields are read back.  The count of more wraps around, and the payload is
    refused for the bytes that are left over. *)
Lemma decode_patch_value_spec h fields :
  row_header_ok h -> Forall field_ok fields ->
  decode_patch_value (patch_value h fields) =
    if decide (length fields < 256)%nat then Ok (h, padded <$> fields) else Err InvalidValue.
Proof.
  intros Hh Hok. set (n := Z.to_nat (wrap8 (zlen fields))).
  destruct (row_header_roundtrip h ([wrap8 (zlen fields)] ++ (fields ≫= field_bytes)) Hh) as (Hr & Hl & _).
  change (row_header_bytes h) with (encode_header h) in *. fold (patch_value h fields) in Hr.
  assert (Hw : 0 <= wrap8 (zlen fields) < 2 ^ 8) by (apply Z.mod_pos_bound; lia).
  assert (Hn : (n <= length fields)%nat) by (unfold n, wrap8; pose proof (Z.mod_le (zlen fields) (2 ^ 8)); lia).
  pose proof (decode_fields_ok (take n fields) (encode_header h ++ [wrap8 (zlen fields)]) (drop n fields ≫= field_bytes) (Forall_take _ _ _ Hok)) as Hd.
  cbv zeta in Hd. rewrite <-bind_app, take_drop, <-app_assoc in Hd. fold (patch_value h fields) in Hd. rewrite length_take_le in Hd by done.
  set (bs := patch_value h fields) in *. unfold decode_patch_value.
  assert (Hlen : 25 <= zlen bs) by (unfold bs, patch_value; rewrite !length_app; cbn [length]; lia).
  rewrite (proj2 (Z.ltb_ge _ _)) by lia.
  assert (get_le 24 1 bs = wrap8 (zlen fields)) as ->.
  { rewrite (get_le_slice _ _ _ [wrap8 (zlen fields)]); [unfold le_val; cbn; by rewrite Z.lor_0_r|].
    unfold bs, patch_value. rewrite slice_app_r by lia. rewrite Hl. by apply slice_app_head. }
  fold n. replace (24 + 1) with (zlen (encode_header h ++ [wrap8 (zlen fields)])) by (rewrite length_app; cbn [length]; lia).
  rewrite Hd. unfold row_header_of in Hr. rewrite Hr. case_decide as Hsm.
  - assert (n = length fields) as -> by (unfold n, wrap8; rewrite Z.mod_small by lia; lia).
    rewrite drop_all, firstn_all. cbn. by rewrite Z.sub_0_r, Z.eqb_refl.
  - assert (Hlt : (n < length fields)%nat) by lia. destruct (drop n fields) as [|f rest] eqn:Hdr.
    { apply (f_equal length) in Hdr. rewrite length_drop in Hdr. cbn in Hdr. lia. }
    assert (Hf : field_ok f) by (apply (Forall_drop _ n) in Hok; rewrite Hdr in Hok; by apply Forall_cons in Hok as [? _]).
    rewrite bind_cons, length_app. pose proof (len_field_bytes f Hf). destruct Hf as (_ & ? & _).
    by rewrite (proj2 (Z.eqb_neq _ _)) by lia.
Qed.

Definition delta_ok (d : FieldDelta) : Prop :=
  in_u16 (fd_offset d) /\ 0 <= fd_size d <= 8 /\ zlen (fd_old_bytes d) = 8 /\ zlen (fd_new_bytes d) = 8.
Definition padded_delta (d : FieldDelta) : FieldDelta :=
  mkDelta (fd_offset d) (fd_size d) (padded (fd_offset d, fd_size d, fd_old_bytes d)).2 (padded (fd_offset d, fd_size d, fd_new_bytes d)).2.

Lemma zip_deltas_ok (ds : list FieldDelta) :
  zip_deltas (padded <$> ((fun d => (fd_offset d, fd_size d, fd_old_bytes d)) <$> ds))
    (padded <$> ((fun d => (fd_offset d, fd_size d, fd_new_bytes d)) <$> ds)) = Ok (padded_delta <$> ds).
Proof.
  induction ds as [|d ds IH]; [done|]. rewrite !fmap_cons. unfold padded at 1 3. cbn [zip_deltas fst snd].
  rewrite !Z.eqb_refl. cbn [negb orb]. by rewrite IH.
Qed.

Definition old_fields (p : ClusteredFieldPatchEntry) : list (Z * Z * bytes) :=
  (fun d => (fd_offset d, fd_size d, fd_old_bytes d)) <$> cp_field_deltas p.
Definition new_fields (p : ClusteredFieldPatchEntry) : list (Z * Z * bytes) :=
  (fun d => (fd_offset d, fd_size d, fd_new_bytes d)) <$> cp_field_deltas p.

(** C33: the record of a field patch holds up to 255 fields.  Such a patch reads back from
    its two values, the bytes past the size of a field cleared and without the old row.
    The count of more fields wraps around in its byte, and decoding refuses the record for
    the bytes that are left over. *)
Theorem field_patch_bounds p :
  row_header_ok (cp_old_header p) -> row_header_ok (cp_new_header p) -> Forall delta_ok (cp_field_deltas p) ->
  exists o n, encode_old_value p = Some o /\ encode_new_value p = Some n /\
    from_wal_values (cp_key p) o n =
      if decide (length (cp_field_deltas p) < 256)%nat
      then Ok (mkPatch (cp_key p) (cp_old_header p) (cp_new_header p) [] (padded_delta <$> cp_field_deltas p))
      else Err InvalidValue.
Proof.
  intros Ho Hn Hd.
  assert (Hof : Forall field_ok (old_fields p)) by (apply Forall_fmap; eapply Forall_impl; [exact Hd|]; by intros d (? & ? & ? & ?)).
  assert (Hnf : Forall field_ok (new_fields p)) by (apply Forall_fmap; eapply Forall_impl; [exact Hd|]; by intros d (? & ? & ? & ?)).
  unfold encode_old_value, encode_new_value. fold (old_fields p) (new_fields p). rewrite !encode_fields_ok by done.
  exists (patch_value (cp_old_header p) (old_fields p)), (patch_value (cp_new_header p) (new_fields p)).
  unfold patch_value at 1 2. unfold old_fields at 2. unfold new_fields at 2. rewrite !length_fmap. split_and!; [done|done|].
  unfold from_wal_values. rewrite !decode_patch_value_spec by done. unfold old_fields, new_fields. rewrite !length_fmap.
  case_decide; [|done]. rewrite !length_fmap, Z.eqb_refl. cbn [negb]. by rewrite zip_deltas_ok.
Qed.

(** One field is read back; 256 fields are not. *)
Lemma field_patch_bounds_witness :
  let d := mkDelta 3 2 [7; 8; 0; 0; 0; 0; 0; 0] [9; 9; 1; 0; 0; 0; 0; 0] in
  let patch ds := mkPatch [1] (mkRow 4 0 0 0) (mkRow 5 0 1 0) [] ds in
  (exists o n, encode_old_value (patch [d]) = Some o /\ encode_new_value (patch [d]) = Some n /\
    from_wal_values [1] o n = Ok (patch [mkDelta 3 2 [7; 8; 0; 0; 0; 0; 0; 0] [9; 9; 0; 0; 0; 0; 0; 0]])) /\
  exists o n, encode_old_value (patch (replicate 256 d)) = Some o /\ encode_new_value (patch (replicate 256 d)) = Some n /\
    from_wal_values [1] o n = Err InvalidValue.
Proof.
  intros d patch. assert (Hd : delta_ok d) by (repeat split; cbn; widths || lia).
  assert (Ho : row_header_ok (mkRow 4 0 0 0)) by (repeat split; cbn; widths || lia).
  assert (Hn : row_header_ok (mkRow 5 0 1 0)) by (repeat split; cbn; widths || lia). split.
  - destruct (field_patch_bounds (patch [d]) Ho Hn ltac:(by repeat constructor)) as (o & n & H1 & H2 & H3).
    exists o, n. split; [exact H1|]. split; [exact H2|exact H3].
  - destruct (field_patch_bounds (patch (replicate 256 d)) Ho Hn ltac:(by apply Forall_replicate)) as (o & n & H1 & H2 & H3).
    exists o, n. split; [exact H1|]. split; [exact H2|exact H3].
Defined.
