(* ===== verification/Recovery.v ===== *)
(** * Checkpoints and crash recovery

    crates/axiomdb-wal/src/recovery.rs (scanning the log and undoing what unfinished
    transactions did), checkpoint.rs, the checkpoint field of crates/axiomdb-storage/src/
    meta.rs, and what txn.rs, txn_construction.rs and txn_inspect.rs do with them when a
    database is opened, checkpointed and its log rotated.  The operations of recovery on
    clustered trees are an interface; everything else is over any engine that keeps the
    storage laws. *)

From S2P Require Import Prelude SlotBitmap Page FreeList Heap PageRows WalEntry Storage PageIo Undo.
From S2P Require Import ZoneMap HeapChain HeapBatch HeapUpdate TableWrite.
From S2P Require Import WalLog WalWriter Txn WalClustered.

(** ** The rest of the storage trait *)

Class StorageFlush (St : Type) : Type := { flush : St -> option (Result unit * St) }.

(** A flush succeeds and changes no page. *)
Class FlushLaws (St : Type) {C : Crc32c} {E : StorageEngine St} {L : StorageLaws St} {F : StorageFlush St} : Prop := {
  law_flush s : st_wf s -> exists s', flush s = Some (Ok tt, s') /\ st_wf s' /\ forall i, st_page s' i = st_page s i
}.

Definition mem_flush (s : MemoryStorage) : option (Result unit * MemoryStorage) := Some (Ok tt, s).
#[export] Instance MemoryFlush : StorageFlush MemoryStorage := {| flush := mem_flush |}.

#[export] Instance MemoryFlushLaws {C : Crc32c} {CR : Crc32cRange C} : FlushLaws MemoryStorage.
Proof. split. intros s Hwf. by exists s. Qed.

(** The operations of crates/axiomdb-storage/src/clustered_tree.rs that recovery calls:
    the new root when the key was there, the new root, and the data of a row. *)
Class ClusteredTree (St : Type) : Type := {
  delete_physical_by_key : Z -> bytes -> M St (option Z);
  restore_exact_row_image : Z -> bytes -> RowHeader -> bytes -> M St Z;
  lookup_physical : option Z -> bytes -> M St (option bytes)
}.

(** ** The checkpoint field of page 0 *)

Definition CHECKPOINT_LSN_BODY_OFFSET : Z := 24.
Definition CHECKPOINT_LSN_PAGE_OFFSET : Z := HEADER_SIZE + CHECKPOINT_LSN_BODY_OFFSET.

Section Meta.
Context {St : Type} {C : Crc32c} {E : StorageEngine St}.

(** Code that changes no page. *)
Definition lift_result {A} (r : option (Result A)) : M St A :=
  fun x => let! r := r in Some (r, x).

Definition io_flush {F : StorageFlush St} : M St unit :=
  fun x => match flush (io_store x) with
           | None => None
           | Some (r, s') => Some (r, mkIo (io_batch x) s')
           end.

Definition read_checkpoint_lsn : M St Z :=
  do! page := io_read 0 in
  io_pure (read_le CHECKPOINT_LSN_PAGE_OFFSET 8 page).

Definition write_checkpoint_lsn (lsn : Z) : M St unit :=
  do! page := load_checked 0 in
  do! page := io_pure (blit CHECKPOINT_LSN_PAGE_OFFSET (le_bytes 8 lsn) page) in
  io_write 0 (update_checksum page).
End Meta.

(** ** Checkpoints *)

(** [append] and [commit] of the log writer, by one caller. *)
Section LogCalls.
Context {C : Crc32c}.

Definition wal_append (e : WalEntry) (w : ConcurrentWalWriter) : Z * ConcurrentWalWriter :=
  let '(lsn, w) := reserve_lsns 1 w in
  (lsn, append_reserved lsn e w).

Definition wal_commit (w : ConcurrentWalWriter) : ConcurrentWalWriter :=
  let '(entries, w) := drain w in
  advance_flushed entries (sync (write_and_flush entries w)).
End LogCalls.

Section Checkpoint.
Context {St : Type} {C : Crc32c} {E : StorageEngine St} {F : StorageFlush St} {SI : SetIter}.

(** The LSN of the checkpoint, and the writer after it. *)
Definition checkpoint_at (w : ConcurrentWalWriter) : M St (Z * ConcurrentWalWriter) :=
  do! _ := io_flush in
  let '(checkpoint_lsn, w) := wal_append (mkWal 0 0 Checkpoint 0 [] [] []) w in
  let w := wal_commit w in
  do! _ := write_checkpoint_lsn checkpoint_lsn in
  do! _ := io_flush in
  io_ret (checkpoint_lsn, w).

Definition last_checkpoint_lsn : M St Z := read_checkpoint_lsn.

(** [TxnManager::checkpoint] and [rotate_wal]: some active transaction is named in the
    error. *)
Definition no_active (m : TxnManager) : M St unit :=
  match set_first (tm_active_set m) with
  | None => io_ret tt
  | Some t => io_fail (TransactionAlreadyActive t)
  end.

Definition checkpoint (m : TxnManager) (w : ConcurrentWalWriter) : M St (Z * ConcurrentWalWriter) :=
  do! _ := no_active m in
  checkpoint_at w.

(** The new writer reads the rotated file. *)
Definition rotate_wal (m : TxnManager) (w : ConcurrentWalWriter) : M St (Z * ConcurrentWalWriter) :=
  do! _ := no_active m in
  do! r := checkpoint m w in
  do! w' := lift_result (cw_open (rotate_file r.1 (ws_file (cw_writer r.2)))) in
  io_ret (r.1, w').

Definition check_and_rotate (m : TxnManager) (w : ConcurrentWalWriter) (max_wal_size : Z) : M St (bool * ConcurrentWalWriter) :=
  if max_wal_size <? ws_logical_end (cw_writer w)
  then do! r := rotate_wal m w in io_ret (true, r.2)
  else io_ret (false, w).
End Checkpoint.

(** ** Scanning the log *)

Inductive RecoveryOp : Type :=
| RInsert (page_id slot_id : Z)
| RDelete (page_id slot_id : Z)
| RUpdateInPlace (page_id slot_id : Z) (old_image : bytes)
| RTruncate (root_page_id txn_id : Z)
| RClusteredInsert (table_id : Z) (key : bytes)
| RClusteredRestore (table_id : Z) (key : bytes) (old_row : ClusteredRowImage)
| RClusteredFieldPatchRestore (table_id : Z) (patch : ClusteredFieldPatchEntry).

Record RecoveryResult : Type := mkRecovery {
  rr_max_committed : Z;
  rr_undone_txns : Z;
  rr_checkpoint_lsn : Z;
  rr_clustered_roots : gmap Z Z
}.

(** The variables of the scan. *)
Record Scan : Type := mkScan {
  sc_max_committed : Z;
  sc_active_txns : gset Z;
  sc_timeline : list (Z * RecoveryOp);
  sc_root_timeline : list (Z * Z * Z);
  sc_active_roots : gmap Z (gmap Z Z);
  sc_committed_roots : gmap Z Z
}.

Definition scan_init : Scan := mkScan 0 ∅ [] [] ∅ ∅.

(** [[num_slots][slot_id]*]: the list ends early when bytes are missing. *)
Fixpoint slots_from (n : nat) (slots_bytes : bytes) : list Z :=
  match n, slots_bytes with
  | S n', b0 :: b1 :: rest => le_val [b0; b1] :: slots_from n' rest
  | _, _ => []
  end.

(** The page and the slots of a [PageWrite] or [PageDelete] record, when it has both. *)
Definition page_slots (entry : WalEntry) : option (Z * list Z) :=
  if zlen (key entry) <? 8 then None
  else match new_value entry with
       | b0 :: b1 :: slots_bytes =>
           Some (le_val (take 8 (key entry)), slots_from (Z.to_nat (le_val [b0; b1])) slots_bytes)
       | _ => None
       end.

(** The operations that undo a heap record. *)
Definition heap_recovery_ops (entry : WalEntry) : list RecoveryOp :=
  match entry_type entry with
  | Insert => match decode_physical_loc (new_value entry) with Some (pg, i) => [RInsert pg i] | None => [] end
  | Delete => match decode_physical_loc (old_value entry) with Some (pg, i) => [RDelete pg i] | None => [] end
  | Update =>
      match decode_physical_loc (new_value entry) with Some (pg, i) => [RInsert pg i] | None => [] end
      ++ match decode_physical_loc (old_value entry) with Some (pg, i) => [RDelete pg i] | None => [] end
  | UpdateInPlace =>
      match decode_physical_loc (old_value entry) with
      | Some (pg, i) => [RUpdateInPlace pg i (drop (Z.to_nat PHYSICAL_LOC_LEN) (old_value entry))]
      | None => []
      end
  | PageWrite => match page_slots entry with Some (pg, slots) => RInsert pg <$> slots | None => [] end
  | PageDelete => match page_slots entry with Some (pg, slots) => RDelete pg <$> slots | None => [] end
  | Truncate => if 8 <=? zlen (key entry) then [RTruncate (le_val (take 8 (key entry))) (txn_id entry)] else []
  | _ => []
  end.

Definition push_ops (t : Z) (ops : list RecoveryOp) (sc : Scan) : Scan :=
  mkScan (sc_max_committed sc) (sc_active_txns sc) (sc_timeline sc ++ (pair t <$> ops)) (sc_root_timeline sc)
    (sc_active_roots sc) (sc_committed_roots sc).

(** A clustered record moves the root of its table for its transaction. *)
Definition set_root (t table_id root_pid : Z) (sc : Scan) : Scan :=
  mkScan (sc_max_committed sc) (sc_active_txns sc) (sc_timeline sc) (sc_root_timeline sc ++ [(t, table_id, root_pid)])
    (<[t := <[table_id := root_pid]> (default ∅ (sc_active_roots sc !! t))]> (sc_active_roots sc)) (sc_committed_roots sc).

Definition scan_entry (entry : WalEntry) (sc : Scan) : Result Scan :=
  let t := txn_id entry in
  let active := bool_decide (t ∈ sc_active_txns sc) in
  match entry_type entry with
  | Begin =>
      Ok (mkScan (sc_max_committed sc) ({[t]} ∪ sc_active_txns sc) (sc_timeline sc) (sc_root_timeline sc)
            (<[t := default ∅ (sc_active_roots sc !! t)]> (sc_active_roots sc)) (sc_committed_roots sc))
  | Commit =>
      Ok (mkScan (Z.max (sc_max_committed sc) t) (sc_active_txns sc ∖ {[t]}) (sc_timeline sc) (sc_root_timeline sc)
            (delete t (sc_active_roots sc)) (default ∅ (sc_active_roots sc !! t) ∪ sc_committed_roots sc))
  | Rollback =>
      Ok (mkScan (sc_max_committed sc) (sc_active_txns sc ∖ {[t]}) (sc_timeline sc) (sc_root_timeline sc)
            (delete t (sc_active_roots sc)) (sc_committed_roots sc))
  | Checkpoint => Ok sc
  | Insert | Delete | Update | UpdateInPlace | PageWrite | PageDelete | Truncate =>
      Ok (if active then push_ops t (heap_recovery_ops entry) sc else sc)
  | ClusteredInsert =>
      match image_from_bytes (new_value entry) with
      | Err e => Err e
      | Ok new_row =>
          Ok (if active
              then push_ops t [RClusteredInsert (table_id entry) (key entry)] (set_root t (table_id entry) (im_root_pid new_row) sc)
              else sc)
      end
  | ClusteredDeleteMark | ClusteredUpdate =>
      match image_from_bytes (old_value entry) with
      | Err e => Err e
      | Ok old_row =>
          match image_from_bytes (new_value entry) with
          | Err e => Err e
          | Ok new_row =>
              Ok (if active
                  then push_ops t [RClusteredRestore (table_id entry) (key entry) old_row] (set_root t (table_id entry) (im_root_pid new_row) sc)
                  else sc)
          end
      end
  | ClusteredFieldPatch =>
      match from_wal_values (key entry) (old_value entry) (new_value entry) with
      | Err e => Err e
      | Ok patch => Ok (if active then push_ops t [RClusteredFieldPatchRestore (table_id entry) patch] sc else sc)
      end
  end.

(** The loop over the records: a torn or corrupt one ends it, another error is returned. *)
Fixpoint scan_loop {A} (step : WalEntry -> A -> Result A) (items : list (Result WalEntry)) (a : A) : Result A :=
  match items with
  | [] => Ok a
  | Ok entry :: items' => match step entry a with Err e => Err e | Ok a' => scan_loop step items' a' end
  | Err (WalEntryTruncated _) :: _ | Err (WalChecksumMismatch _ _ _) :: _ => Ok a
  | Err e :: _ => Err e
  end.

Section Scanning.
Context {C : Crc32c}.

(** [WalReader::open] and [scan_forward], with the items the iterator yields.  Every item
    takes at least one byte of the file. *)
Definition log_items (wal : bytes) (from_lsn : Z) : option (Result (list (Result WalEntry))) :=
  match reader_open wal with
  | None => None
  | Some (Err e) => Some (Err e)
  | Some (Ok r) => let! items := collect (forward_next r) (S (length wal)) (scan_forward from_lsn) in Some (Ok items)
  end.

Definition scan_log {A} (step : WalEntry -> A -> Result A) (wal : bytes) (from_lsn : Z) (a : A) : option (Result A) :=
  match log_items wal from_lsn with
  | None => None
  | Some (Err e) => Some (Err e)
  | Some (Ok items) => Some (scan_loop step items a)
  end.
End Scanning.

(** The sets of [is_needed]. *)
Definition need_entry (entry : WalEntry) (sets : gset Z * gset Z) : Result (gset Z * gset Z) :=
  match entry_type entry with
  | Begin => Ok ({[txn_id entry]} ∪ sets.1, sets.2)
  | Commit | Rollback => Ok (sets.1, {[txn_id entry]} ∪ sets.2)
  | _ => Ok sets
  end.

(** The state of [scan_committed_state]: the highest committed transaction, and roots. *)
Definition committed_entry (entry : WalEntry) (st : Z * gmap Z (gmap Z Z) * gmap Z Z) : Result (Z * gmap Z (gmap Z Z) * gmap Z Z) :=
  let '(mx, active_roots, committed_roots) := st in
  let t := txn_id entry in
  match entry_type entry with
  | Begin => Ok (mx, <[t := default ∅ (active_roots !! t)]> active_roots, committed_roots)
  | Commit => Ok (Z.max mx t, delete t active_roots, default ∅ (active_roots !! t) ∪ committed_roots)
  | Rollback => Ok (mx, delete t active_roots, committed_roots)
  | ClusteredInsert | ClusteredDeleteMark | ClusteredUpdate =>
      match active_roots !! t with
      | Some roots =>
          match image_from_bytes (new_value entry) with
          | Err e => Err e
          | Ok new_row => Ok (mx, <[t := <[table_id entry := im_root_pid new_row]> roots]> active_roots, committed_roots)
          end
      | None => Ok st
      end
  | _ => Ok st
  end.

(** ** Undoing *)

Section Recover.
Context {St : Type} {C : Crc32c} {E : StorageEngine St} {F : StorageFlush St} {T : ClusteredTree St}.

Definition is_needed (wal : bytes) : M St bool :=
  do! checkpoint_lsn := last_checkpoint_lsn in
  do! sets := lift_result (scan_log need_entry wal checkpoint_lsn (∅, ∅)) in
  io_ret (bool_decide (~ sets.1 ⊆ sets.2)).

(** Load a page, change it, ignoring that the slot is dead already, and write it back. *)
Definition undo_slot (page_id : Z) (f : Page -> option (Result unit * Page)) : M St unit :=
  do! page := load_checked page_id in
  match f page with
  | None => io_panic
  | Some (Ok _, page) | Some (Err (AlreadyDeleted _ _), page) => io_write page_id page
  | Some (Err e, _) => io_fail e
  end.

(** Putting the old bytes of the fields back. *)
Fixpoint restore_fields (deltas : list FieldDelta) (row : bytes) : option (Result bytes) :=
  match deltas with
  | [] => Some (Ok row)
  | delta :: deltas' =>
      if zlen row <? fd_offset delta + fd_size delta then Some (Err BTreeCorrupted)
      else
        let! old := slice 0 (fd_size delta) (fd_old_bytes delta) in
        let! row := blit (fd_offset delta) old row in
        restore_fields deltas' row
  end.

(** [current_clustered_roots.get(&table_id).ok_or(..)?] *)
Definition current_root (table_id : Z) (roots : gmap Z Z) : M St Z :=
  match roots !! table_id with
  | Some root_pid => io_ret root_pid
  | None => io_fail BTreeCorrupted
  end.

(** One arm of the loop; [fuel] bounds the chain of a truncated table. *)
Definition undo_recovery_op (fuel : nat) (op : RecoveryOp) (roots : gmap Z Z) : M St (gmap Z Z) :=
  match op with
  | RInsert page_id slot_id => do! _ := undo_slot page_id (fun p => mark_slot_dead p slot_id) in io_ret roots
  | RDelete page_id slot_id => do! _ := undo_slot page_id (fun p => clear_deletion p slot_id) in io_ret roots
  | RUpdateInPlace page_id slot_id old_image =>
      do! page := load_checked page_id in
      do! r := page_op (restore_tuple_image page slot_id old_image) in
      do! _ := io_write page_id r.2 in
      io_ret roots
  | RTruncate root_page_id t => do! _ := clear_deletions_by_txn fuel root_page_id t in io_ret roots
  | RClusteredInsert table_id key =>
      do! root_pid := current_root table_id roots in
      do! new_root := delete_physical_by_key root_pid key in
      io_ret (<[table_id := default root_pid new_root]> roots)
  | RClusteredRestore table_id key old_row =>
      do! root_pid := current_root table_id roots in
      do! new_root := restore_exact_row_image root_pid key (im_row_header old_row) (im_row_data old_row) in
      io_ret (<[table_id := new_root]> roots)
  | RClusteredFieldPatchRestore table_id patch =>
      do! root_pid := current_root table_id roots in
      do! current_row := lookup_physical (Some root_pid) (cp_key patch) in
      match current_row with
      | None => io_ret roots
      | Some row_data =>
          do! restored := lift_result (restore_fields (cp_field_deltas patch) row_data) in
          do! new_root := restore_exact_row_image root_pid (cp_key patch) (cp_old_header patch) restored in
          io_ret (<[table_id := new_root]> roots)
      end
  end.

(** The loop over the timeline, last first, skipping finished transactions. *)
Fixpoint undo_timeline (fuel : nat) (active : gset Z) (timeline : list (Z * RecoveryOp)) (roots : gmap Z Z) : M St (gmap Z Z) :=
  match timeline with
  | [] => io_ret roots
  | (t, op) :: timeline' =>
      if bool_decide (t ∈ active)
      then do! roots := undo_recovery_op fuel op roots in undo_timeline fuel active timeline' roots
      else undo_timeline fuel active timeline' roots
  end.

Definition current_roots (sc : Scan) : gmap Z Z :=
  foldl (fun roots r => if bool_decide (r.1.1 ∈ sc_active_txns sc) then <[r.1.2 := r.2]> roots else roots)
    (sc_committed_roots sc) (sc_root_timeline sc).

Definition recover (fuel : nat) (wal : bytes) : M St RecoveryResult :=
  do! checkpoint_lsn := last_checkpoint_lsn in
  do! sc := lift_result (scan_log scan_entry wal checkpoint_lsn scan_init) in
  do! roots := undo_timeline fuel (sc_active_txns sc) (rev (sc_timeline sc)) (current_roots sc) in
  do! _ := io_flush in
  io_ret (mkRecovery (sc_max_committed sc) (wrap32 (Z.of_nat (size (sc_active_txns sc)))) checkpoint_lsn roots).

(** ** Opening a database *)

Definition open_with_recovery (fuel : nat) (wal : bytes) : M St (TxnManager * ConcurrentWalWriter * RecoveryResult) :=
  do! result := recover fuel wal in
  do! w := lift_result (cw_open wal) in
  io_ret (txn_open (rr_max_committed result) (rr_clustered_roots result) false Strict, w, result).
End Recover.

Definition scan_committed_state {C : Crc32c} (wal : bytes) : option (Result (Z * gmap Z Z)) :=
  match scan_log committed_entry wal 0 (0, ∅, ∅) with
  | None => None
  | Some (Err e) => Some (Err e)
  | Some (Ok (mx, _, committed_roots)) => Some (Ok (mx, committed_roots))
  end.

(** [TxnManager::open], which does not undo anything. *)
Definition txn_manager_open {C : Crc32c} (wal : bytes) : option (Result (TxnManager * ConcurrentWalWriter)) :=
  match scan_committed_state wal with
  | None => None
  | Some (Err e) => Some (Err e)
  | Some (Ok (max_committed, roots)) =>
      match cw_open wal with
      | None => None
      | Some (Err e) => Some (Err e)
      | Some (Ok w) => Some (Ok (txn_open max_committed roots false Strict, w))
      end
  end.

(** ** Reading the log *)

Section ReadLog.
Context {C : Crc32c} {CR : Crc32cRange C}.

Lemma log_items_layout start es tail from :
  in_u64 start -> Forall wal_ok es -> stops tail ->
  log_items (layout start es tail) from = Some (Ok (Ok <$> filter (fun e => from <= lsn e) es)).
Proof.
  intros Hs Hok Ht. destruct (header_roundtrip start (enc es ++ tail) Hs) as [Hv Hh].
  unfold log_items, reader_open. unfold layout at 1. rewrite Hv. rewrite scan_valid_tail_layout by done. cbn [WalLog.logical_end].
  change (scan_forward from) with (fi_at from []).
  rewrite (forward_collect start es tail Hok from es []); [done|done|].
  unfold layout. rewrite !length_app. pose proof (len_enc_ge es). lia.
Qed.

Lemma scan_log_layout {A} (step : WalEntry -> A -> Result A) start es tail from a :
  in_u64 start -> Forall wal_ok es -> stops tail ->
  scan_log step (layout start es tail) from a = Some (scan_loop step (Ok <$> filter (fun e => from <= lsn e) es) a).
Proof. intros Hs Hok Ht. unfold scan_log. by rewrite log_items_layout. Qed.
End ReadLog.

Lemma scan_loop_app {A} (step : WalEntry -> A -> Result A) es1 es2 a :
  scan_loop step (Ok <$> (es1 ++ es2)) a =
    match scan_loop step (Ok <$> es1) a with Ok a' => scan_loop step (Ok <$> es2) a' | Err e => Err e end.
Proof.
  revert a. induction es1 as [|e es1 IH]; intros a; [done|]. cbn [app fmap list_fmap scan_loop].
  destruct (step e a); [apply IH|done].
Qed.

(** ** Recovery operations and undo operations *)

Definition recovery_op (op : UndoOp) : option RecoveryOp :=
  match op with
  | UndoInsert pg i => Some (RInsert pg i)
  | UndoDelete pg i => Some (RDelete pg i)
  | UndoUpdateInPlace pg i img => Some (RUpdateInPlace pg i img)
  | UndoIndexInsert _ _ _ | UndoIndexDelete _ _ _ _ _ => None
  end.

Section Undoing.
Context {St : Type} {C : Crc32c} {E : StorageEngine St} {F : StorageFlush St} {T : ClusteredTree St}.

(** What [with_page] does, in the monad. *)
Lemma load_checked_store b s pg :
  load_checked pg (mkIo b s) = match load_page s pg with None => None | Some r => Some (r, mkIo b s) end.
Proof.
  unfold load_checked, load_page, io_bind, io_read. cbn [io_store]. destruct (read_page s pg) as [[p|e]|]; [|done|done].
  by destruct (page_from_bytes p).
Qed.

Lemma undo_recovery_op_run fuel op r roots b s s' :
  recovery_op op = Some r -> apply_undo s op = Some (Ok tt, s') ->
  undo_recovery_op fuel r roots (mkIo b s) = Some (Ok roots, mkIo b s').
Proof.
  destruct op as [pg i|pg i|pg i img| |]; intros [= <-]; cbn [apply_undo undo_recovery_op]; unfold with_page, undo_slot, io_bind;
    rewrite load_checked_store; (destruct (load_page s pg) as [[p|e]|]; [|done|done]).
  - destruct (mark_slot_dead p i) as [[[[]|e] p']|]; [|done|done]. unfold io_write. cbn [io_store io_batch].
    destruct (write_page s pg p') as [[[[]|e] s1]|]; [|done|done]. by intros [= <-].
  - destruct (clear_deletion p i) as [[[[]|e] p']|]; [|done|done]. unfold io_write. cbn [io_store io_batch].
    destruct (write_page s pg p') as [[[[]|e] s1]|]; [|done|done]. by intros [= <-].
  - destruct (restore_tuple_image p i img) as [[[[]|e] p']|]; [|done|done]. unfold page_op, io_ret, io_write. cbn [io_store io_batch snd].
    destruct (write_page s pg p') as [[[[]|e] s1]|]; [|done|done]. by intros [= <-].
Qed.

(** The operations of the running transactions. *)
Definition undone (active : gset Z) (timeline : list (Z * RecoveryOp)) : list RecoveryOp :=
  (filter (fun p => p.1 ∈ active) timeline).*2.

Lemma undone_app active l1 l2 : undone active (l1 ++ l2) = undone active l1 ++ undone active l2.
Proof. unfold undone. by rewrite filter_app, fmap_app. Qed.

Lemma undone_rev active l : undone active (rev l) = rev (undone active l).
Proof.
  induction l as [|p l IH]; [done|]. cbn [rev]. rewrite undone_app, IH. change (p :: l) with ([p] ++ l).
  rewrite undone_app, rev_app_distr. f_equal. unfold undone. rewrite filter_cons. by case_decide.
Qed.

Lemma undo_timeline_run fuel active roots b ops : forall tl s s',
  undone active tl = omap recovery_op ops -> undo_loop s ops = Some (Ok tt, s') ->
  undo_timeline fuel active tl roots (mkIo b s) = Some (Ok roots, mkIo b s').
Proof.
  induction ops as [|op ops IH]; intros tl s s' Htl; cbn [undo_loop].
  - intros [= <-]. induction tl as [|[t r] tl IHtl]; [done|]. unfold undone in Htl. cbn [omap list_omap] in Htl.
    rewrite filter_cons in Htl. cbn [fst] in Htl. cbn [undo_timeline]. case_decide as Ht; [done|].
    rewrite bool_decide_eq_false_2 by done. by apply IHtl.
  - destruct (apply_undo s op) as [[[[]|e] s1]|] eqn:Hop; [|done|done]. intros Hl.
    destruct (recovery_op op) as [r|] eqn:Hr.
    2:{ assert (s1 = s) as -> by (destruct op; [done..| |]; by simplify_eq/=). apply IH; [|done]. rewrite Htl. cbn. by rewrite Hr. }
    assert (Htl' : undone active tl = r :: omap recovery_op ops) by (rewrite Htl; cbn; by rewrite Hr). clear Htl.
    induction tl as [|[t r'] tl IHtl]; [done|]. unfold undone in Htl'. rewrite filter_cons in Htl'. cbn [fst] in Htl'. cbn [undo_timeline].
    case_decide as Ht.
    + rewrite bool_decide_eq_true_2 by done. cbn in Htl'. injection Htl' as -> Htl'. unfold io_bind.
      rewrite (undo_recovery_op_run fuel op r roots b s s1) by done. by apply IH.
    + rewrite bool_decide_eq_false_2 by done. by apply IHtl.
Qed.
End Undoing.

Lemma insert_first_sublist l k : l `sublist_of` k -> insert_first k -> insert_first l.
Proof.
  intros Hs Hf l1 pg i l2 -> op Hop. apply sublist_app_cons_l in Hs as (k1 & k2 & -> & Hk1 & _).
  eapply Hf; [reflexivity|]. by eapply elem_of_sublist.
Qed.

Section RecoverRuns.
Context {St : Type} {C : Crc32c} {CR : Crc32cRange C} {E : StorageEngine St} {L : StorageLaws St}.
Context {F : StorageFlush St} {FL : FlushLaws St} {T : ClusteredTree St}.

(** Undoing touches the pages of its rows only. *)
Lemma undo_loop_frame ops : forall s s' pg,
  st_wf s -> (forall o, o ∈ ops -> ready (st_page s) o) -> insert_first (rev ops) -> undo_loop s ops = Some (Ok tt, s') ->
  (forall op i, op ∈ ops -> target op ≠ Some (pg, i)) -> st_page s' pg = st_page s pg.
Proof.
  induction ops as [|o ops IH]; intros s s' pg Hwf Hr Hf; cbn [undo_loop]; [by intros [= <-]|].
  destruct (apply_undo_spec s o Hwf) as (s1 & -> & Hwf1 & Hs1); [apply Hr; left|]. intros Hl Hn.
  assert (Hf' : insert_first (rev ops)) by (eapply insert_first_sublist; [|exact Hf]; cbn [rev]; by apply sublist_inserts_r).
  assert (Hn' : forall op i, op ∈ ops -> target op ≠ Some (pg, i)) by (intros op i Hop; apply Hn; by right).
  destruct (target o) as [x|] eqn:Hx.
  2:{ subst s1. apply (IH s s'); [done|intros; apply Hr; by right|done|done|done]. }
  destruct Hs1 as (U & HU & Hmv & Hnone). rewrite (IH s1 s' pg); [|done| |done|done|done].
  - apply (sr_frame _ _ _ _ Hmv). intros ->. apply (Hn o x.2); [by left|]. rewrite Hx. by destruct x.
  - intros o' Ho'. eapply ready_set; [exact Hmv|apply Hr; by right|]. intros Ht' Hno. specialize (Hnone Hno). subst o.
    destruct x as [pg' i]. cbn [fst snd rev] in Hf. eapply (Hf (rev ops) pg' i [] eq_refl o'); [|done].
    rewrite list_elem_of_In, <-in_rev, <-list_elem_of_In. done.
Qed.

Definition checkpoint_is (s : St) (l : Z) : Prop :=
  exists p, st_page s 0 = Some p /\ read_le CHECKPOINT_LSN_PAGE_OFFSET 8 p = Some l.

Lemma read_checkpoint_run b s l : st_wf s -> checkpoint_is s l -> read_checkpoint_lsn (mkIo b s) = Some (Ok l, mkIo b s).
Proof.
  intros Hwf (p & Hp & Hl). unfold read_checkpoint_lsn, io_bind, io_read. cbn [io_store].
  rewrite law_read, Hp by (done || lia). unfold io_pure. by rewrite Hl.
Qed.

(** The checkpoint field reads back what was written, and nothing else changes. *)
Lemma write_checkpoint_run b s l p :
  st_wf s -> st_page s 0 = Some p -> hdr_magic p = PAGE_MAGIC -> in_u64 l ->
  exists s', write_checkpoint_lsn l (mkIo b s) = Some (Ok tt, mkIo b s') /\ st_wf s' /\ checkpoint_is s' l /\
    forall pg, pg ≠ 0 -> st_page s' pg = st_page s pg.
Proof.
  intros Hwf Hp Hm Hl. destruct (law_valid _ _ _ Hwf Hp) as (_ & Hok & _). pose proof Hok as [Hlen Hb].
  destruct (load_page_spec s 0 p Hwf Hp Hm) as [Hld _].
  destruct (blit_is_Some CHECKPOINT_LSN_PAGE_OFFSET (le_bytes 8 l) p) as [p' Hp'].
  { unfold CHECKPOINT_LSN_PAGE_OFFSET, HEADER_SIZE, CHECKPOINT_LSN_BODY_OFFSET. lia. }
  { rewrite len_le_bytes, Hlen by lia. vm_compute. congruence. }
  assert (Hok' : page_ok p').
  { split; [pose proof (blit_inv _ _ _ _ Hp') as (_ & _ & Hle); by rewrite Hle|]. refine (blit_bytes_ok _ _ _ _ _ Hb Hp'). apply bytes_ok_le_bytes. lia. }
  destruct (law_write s 0 (update_checksum p') Hwf) as (s' & Hw & Hwf' & Hpg); [by rewrite Hp|by apply update_checksum_ok|by apply checksum_valid_verify, update_checksum_valid|].
  exists s'. split_and!; [|done| |].
  - unfold write_checkpoint_lsn, io_bind. rewrite load_checked_store, Hld. unfold io_pure. rewrite Hp'. unfold io_write. cbn [io_store]. by rewrite Hw.
  - exists (update_checksum p'). split; [by rewrite Hpg, decide_True|]. unfold read_le.
    rewrite update_checksum_slice by (done || unfold CHECKPOINT_LSN_PAGE_OFFSET, HEADER_SIZE, CHECKPOINT_LSN_BODY_OFFSET; lia).
    pose proof (slice_blit_eq _ _ _ _ Hp') as Hs. rewrite len_le_bytes in Hs by lia. rewrite Hs. by rewrite le_val_le_bytes by (lia || widths).
  - intros pg Hne. by rewrite Hpg, decide_False.
Qed.

(** A checkpoint flushes, hands its record to the log, and notes the record's LSN in the
    meta page; with a transaction running it is refused. *)
Lemma checkpoint_run {SI : SetIter} m w b s p :
  st_wf s -> st_page s 0 = Some p -> hdr_magic p = PAGE_MAGIC -> in_u64 (next_lsn w) ->
  if decide (tm_active_set m = ∅)
  then exists s', checkpoint m w (mkIo b s) =
         Some (Ok (next_lsn w, wal_commit (wal_append (mkWal 0 0 Checkpoint 0 [] [] []) w).2), mkIo b s') /\
       st_wf s' /\ checkpoint_is s' (next_lsn w) /\ forall pg, pg ≠ 0 -> st_page s' pg = st_page s pg
  else exists t, t ∈ tm_active_set m /\ checkpoint m w (mkIo b s) = Some (Err (TransactionAlreadyActive t), mkIo b s).
Proof.
  intros Hwf Hp Hm Hl. unfold checkpoint, no_active, io_bind. case_decide as Ha.
  - rewrite Ha. destruct (set_first ∅) as [t|] eqn:Ht; [by apply set_first_in, not_elem_of_empty in Ht|]. unfold io_ret at 1.
    destruct (law_flush s Hwf) as (s1 & Hf1 & Hwf1 & Hp1). unfold checkpoint_at, io_bind. unfold io_flush at 1. cbn [io_store io_batch]. rewrite Hf1.
    destruct (write_checkpoint_run b s1 (next_lsn w) p Hwf1 ltac:(by rewrite Hp1) Hm Hl) as (s2 & Hw & Hwf2 & Hck & Hfr).
    change (wal_append (mkWal 0 0 Checkpoint 0 [] [] []) w) with (next_lsn w, (wal_append (mkWal 0 0 Checkpoint 0 [] [] []) w).2). cbv iota beta.
    rewrite Hw. destruct (law_flush s2 Hwf2) as (s3 & Hf3 & Hwf3 & Hp3). unfold io_flush. cbn [io_store io_batch]. rewrite Hf3.
    exists s3. split_and!; [done|done| |].
    + destruct Hck as (q & Hq & Hr). exists q. by rewrite Hp3.
    + intros pg Hne. by rewrite Hp3, Hfr, Hp1.
  - destruct (set_first (tm_active_set m)) as [t|] eqn:Ht; [|by apply set_first_none in Ht]. exists t. split; [by apply set_first_in|done].
Qed.

(** Recovery over a scan whose operations can all be undone. *)
Lemma recover_run fuel wal b s l sc ops :
  st_wf s -> checkpoint_is s l -> scan_log scan_entry wal l scan_init = Some (Ok sc) ->
  undone (sc_active_txns sc) (sc_timeline sc) = omap recovery_op ops ->
  (forall op, op ∈ ops -> ready (st_page s) op) -> insert_first ops ->
  exists s', recover fuel wal (mkIo b s) =
      Some (Ok (mkRecovery (sc_max_committed sc) (wrap32 (Z.of_nat (size (sc_active_txns sc)))) l (current_roots sc)), mkIo b s') /\
    st_wf s' /\ links_same (st_page s) (st_page s') /\
    (forall pg, (forall op i, op ∈ ops -> target op ≠ Some (pg, i)) -> st_page s' pg = st_page s pg) /\
    forall x, row (st_page s') x = undo_values x (rev ops) <$> row (st_page s) x.
Proof.
  intros Hwf Hck Hsc Hops Hr Hf. destruct (undo_loop_spec ops s Hwf Hr Hf) as (s1 & Hl & Hwf1 & Hlk & Hrow).
  destruct (law_flush s1 Hwf1) as (s2 & Hfl & Hwf2 & Hpg).
  exists s2. split_and!; [|done| | |].
  - unfold recover, io_bind, last_checkpoint_lsn. rewrite read_checkpoint_run with (l := l) by done.
    unfold lift_result. rewrite Hsc.
    rewrite (undo_timeline_run fuel (sc_active_txns sc) (current_roots sc) b (rev ops) (rev (sc_timeline sc)) s s1); [| |done].
    + unfold io_flush. cbn [io_store io_batch]. by rewrite Hfl.
    + rewrite undone_rev, Hops. clear. induction ops as [|op ops IH]; [done|]. cbn [rev omap list_omap]. rewrite omap_app, <-IH. cbn.
      by destruct (recovery_op op); cbn [rev]; rewrite ?app_nil_r.
  - intros pg. rewrite Hpg. apply Hlk.
  - intros pg Hpg'. rewrite Hpg. apply (undo_loop_frame (rev ops) s s1); [done|intros o Ho; by apply Hr, in_rev_elem|by rewrite rev_involutive|done|].
    intros op i Hop. by apply Hpg', in_rev_elem.
  - intros x. rewrite <-Hrow. unfold row. by rewrite Hpg.
Qed.
End RecoverRuns.
