(* ===== verification/RecoveryHistory.v ===== *)
(** * What recovery restores

    A history of the log since the last checkpoint: transactions begin, change rows and
    record the changes, commit and roll back, in any interleaving in which a row has one
    writer at a time.  At every point of it, recovery from the log file and the pages
    gives every row its committed contents, up to the deletion stamps that undoing a
    repeated deletion clears.  The statements of TableWrite make such
    histories: what they record reads back as the undo operations they push. *)

From S2P Require Import Prelude SlotBitmap Page FreeList Heap PageRows WalEntry Storage PageIo Undo.
From S2P Require Import ZoneMap HeapChain HeapBatch HeapUpdate TableWrite TableForward TableRollback.
From S2P Require Import WalLog WalWriter Txn WalClustered Recovery.

Create HintDb journals.

(** ** Histories *)

(** The records of heap changes. *)
Definition heap_record (e : WalEntry) : Prop :=
  match entry_type e with
  | Insert | Delete | Update | UpdateInPlace | PageWrite | PageDelete => True
  | _ => False
  end.

(** [recs] are what transaction [t] recorded for the changes that [ops] undo. *)
Definition records (t : Z) (recs : list WalEntry) (ops : list UndoOp) : Prop :=
  Forall (fun e => txn_id e = t /\ heap_record e) recs /\ (recs ≫= heap_recovery_ops) = omap recovery_op ops.

(** The running transactions, their undo operations in the order of the changes, the
    highest committed transaction, the committed contents of the rows, and the pages that
    page batches have set aside, which belong to no table yet. *)
Record Running : Type := mkRunning {
  rn_active : gset Z;
  rn_ops : list (Z * UndoOp);
  rn_max : Z;
  rn_db : Z * Z -> Tuple;
  rn_aside : list Z
}.

Definition holds (t : Z) (ops : list (Z * UndoOp)) (x : Z * Z) : Prop := Exists (fun p => p.1 = t /\ target p.2 = Some x) ops.

Definition ops_of (t : Z) (ops : list (Z * UndoOp)) : list UndoOp := (filter (fun p => p.1 = t) ops).*2.
Definition ops_but (t : Z) (ops : list (Z * UndoOp)) : list (Z * UndoOp) := filter (fun p => p.1 ≠ t) ops.

(** The contents of a row, none when there is no such slot. *)
Definition contents (v : Z -> option Page) (x : Z * Z) : Tuple := default None (row v x).

(** The committed contents when [t] commits: the rows [t] has changed are as they are now. *)
Definition publish (v : Z -> option Page) (t : Z) (ops : list (Z * UndoOp)) (db : Z * Z -> Tuple) (x : Z * Z) : Tuple :=
  if decide (holds t ops x) then contents v x else db x.

Section History.
Context {St : Type} {C : Crc32c} {CR : Crc32cRange C} {E : StorageEngine St} {L : StorageLaws St}.

(** A transaction rolls back by its undo log.  The committed contents change in one case:
    a row that the transaction first changed by deleting it loses the stamp of an earlier
    deletion ([cleared]). *)
Inductive db_history : St -> list WalEntry -> Running -> Prop :=
| db_start s aside : st_wf s -> db_history s [] (mkRunning ∅ [] 0 (contents (hide aside (st_page s))) aside)
| db_checkpoint s es r e : db_history s es r -> entry_type e = Checkpoint -> db_history s (es ++ [e]) r
| db_aside s s' es r aside : db_history s es r -> st_wf s' ->
    (forall i, hide aside (st_page s') i = hide (rn_aside r) (st_page s) i) ->
    db_history s' es (mkRunning (rn_active r) (rn_ops r) (rn_max r) (rn_db r) aside)
| db_begin s es r e : db_history s es r ->
    entry_type e = Begin -> (forall e', e' ∈ es -> txn_id e' ≠ txn_id e) ->
    db_history s (es ++ [e]) (mkRunning ({[txn_id e]} ∪ rn_active r) (rn_ops r) (rn_max r) (rn_db r) (rn_aside r))
| db_change s s' es r t recs ops aside : db_history s es r -> t ∈ rn_active r ->
    st_wf s' -> forward (hide (rn_aside r) (st_page s)) (hide aside (st_page s')) ops -> records t recs ops ->
    (forall x u, u ≠ t -> holds u (rn_ops r) x -> forall op, op ∈ ops -> target op ≠ Some x) ->
    db_history s' (es ++ recs) (mkRunning (rn_active r) (rn_ops r ++ (pair t <$> ops)) (rn_max r) (rn_db r) aside)
| db_commit s es r e : db_history s es r -> entry_type e = Commit -> txn_id e ∈ rn_active r ->
    db_history s (es ++ [e]) (mkRunning (rn_active r ∖ {[txn_id e]}) (ops_but (txn_id e) (rn_ops r)) (Z.max (rn_max r) (txn_id e))
      (publish (hide (rn_aside r) (st_page s)) (txn_id e) (rn_ops r) (rn_db r)) (rn_aside r))
| db_rollback s s' es r e : db_history s es r -> entry_type e = Rollback -> txn_id e ∈ rn_active r ->
    rollback_heap s (ops_of (txn_id e) (rn_ops r)) = Some (Ok tt, s') ->
    db_history s' (es ++ [e]) (mkRunning (rn_active r ∖ {[txn_id e]}) (ops_but (txn_id e) (rn_ops r)) (rn_max r)
      (fun x => cleared (ops_of (txn_id e) (rn_ops r)) x (rn_db r x)) (rn_aside r)).
End History.

(** ** The rows that running transactions have changed *)

(** Some operation is about row [x]. *)
Definition aimed (ops : list UndoOp) (x : Z * Z) : Prop := Some x ∈ target <$> ops.

Lemma aimed_spec ops x : aimed ops x <-> exists op, op ∈ ops /\ target op = Some x.
Proof. unfold aimed. rewrite list_elem_of_fmap. naive_solver. Qed.

Lemma aimed_app ops1 ops2 x : aimed (ops1 ++ ops2) x <-> aimed ops1 x \/ aimed ops2 x.
Proof. unfold aimed. by rewrite fmap_app, elem_of_app. Qed.

Lemma aimed_holds ops x : aimed ops.*2 x <-> exists t, holds t ops x.
Proof.
  rewrite aimed_spec. unfold holds. setoid_rewrite Exists_exists. split.
  - intros (op & Hop & Ht). apply list_elem_of_fmap in Hop as ([t op'] & -> & Hop). exists t, (t, op'). done.
  - intros (t & [t' op] & Hop & <- & Ht). exists op. split; [|done]. apply list_elem_of_fmap. by exists (t', op).
Qed.

Definition saved (db : Z * Z -> Tuple) (ops : list UndoOp) : gmap (Z * Z) Tuple :=
  list_to_map ((fun x => (x, db x)) <$> omap target ops).

Lemma saved_lookup db ops x : saved db ops !! x = if decide (Some x ∈ target <$> ops) then Some (db x) else None.
Proof.
  unfold saved. assert (Hin : x ∈ omap target ops <-> Some x ∈ target <$> ops).
  { rewrite list_elem_of_omap, list_elem_of_fmap. naive_solver. }
  rewrite <-(decide_ext _ _ _ _ Hin). clear Hin. induction (omap target ops) as [|y l IH]; [done|].
  cbn [fmap list_fmap]. rewrite list_to_map_cons. destruct (decide (y = x)) as [->|Hne].
  - rewrite lookup_insert_eq, decide_True by left. done.
  - rewrite lookup_insert_ne by done. rewrite IH. apply decide_ext. set_solver.
Qed.

Lemma undo_values_filter (P : Z * UndoOp -> Prop) `{!forall p, Decision (P p)} x ops T :
  (forall p, p ∈ ops -> target p.2 = Some x -> P p) -> undo_values x (rev (filter P ops).*2) T = undo_values x (rev ops.*2) T.
Proof.
  revert T. induction ops as [|p ops IH]; intros T HP; [done|]. rewrite filter_cons. cbn [fmap list_fmap rev].
  rewrite undo_values_app. rewrite <-IH by (intros; apply HP; [by right|done]). case_decide as Hp.
  - cbn [fmap list_fmap rev]. by rewrite undo_values_app.
  - cbn [undo_values]. rewrite decide_False; [done|]. intros Ht. apply Hp, HP; [by left|done].
Qed.

Lemma cleared_filter (P : Z * UndoOp -> Prop) `{!forall p, Decision (P p)} x ops T :
  (forall p, p ∈ ops -> target p.2 = Some x -> P p) -> cleared (filter P ops).*2 x T = cleared ops.*2 x T.
Proof.
  induction ops as [|p ops IH]; intros HP; [done|]. rewrite filter_cons. cbn [fmap list_fmap cleared].
  rewrite <-IH by (intros; apply HP; [by right|done]). case_decide as Hp; [done|].
  rewrite decide_False; [done|]. intros Ht. apply Hp, HP; [by left|done].
Qed.

(** Operations on pages that are not set aside. *)
Lemma ready_hide ids v op : ready (hide ids v) op <-> ready v op /\ forall x, target op = Some x -> ~ x.1 ∈ ids.
Proof.
  unfold ready. destruct (target op) as [[pg i]|] eqn:Ht; [|naive_solver]. unfold hide. destruct (decide (pg ∈ ids)) as [Hin|Hout].
  - split; [by intros (p & ? & _)|]. intros [_ Hn]. by destruct (Hn (pg, i) eq_refl).
  - split; [intros Hp; split; [done|]; by intros x [= <-]|by intros [? _]].
Qed.

Lemma contents_ext (v w : Z -> option Page) x : (forall i, v i = w i) -> contents v x = contents w x.
Proof. intros Hvw. unfold contents. by rewrite (row_ext v w). Qed.

Lemma insert_first_filter (P : Z * UndoOp -> Prop) `{!forall p, Decision (P p)} ops :
  insert_first ops.*2 -> insert_first (filter P ops).*2.
Proof. apply insert_first_sublist, fmap_sublist, sublist_filter. Qed.

Lemma holds_app t ops1 ops2 x : holds t (ops1 ++ ops2) x <-> holds t ops1 x \/ holds t ops2 x.
Proof. apply Exists_app. Qed.

Lemma holds_but t u ops x : holds u (ops_but t ops) x <-> u ≠ t /\ holds u ops x.
Proof.
  unfold holds, ops_but. rewrite !Exists_exists. setoid_rewrite list_elem_of_filter. naive_solver.
Qed.

Lemma holds_pair t u ops x : holds u (pair t <$> ops) x <-> u = t /\ aimed ops x.
Proof.
  unfold holds. rewrite aimed_spec, Exists_exists. setoid_rewrite list_elem_of_fmap. naive_solver.
Qed.

Lemma pair_snd {A B} (a : A) (l : list B) : (pair a <$> l).*2 = l.
Proof. rewrite <-list_fmap_compose. apply list_fmap_id. Qed.

(** What is known of the rows in a history. *)
Record rows_inv (v : Z -> option Page) (r : Running) : Prop := {
  ri_active t op : (t, op) ∈ rn_ops r -> t ∈ rn_active r;
  ri_owner t u x : holds t (rn_ops r) x -> holds u (rn_ops r) x -> t = u;
  ri_log : log_inv v (rn_ops r).*2 (saved (rn_db r) (rn_ops r).*2);
  ri_rest x : ~ aimed (rn_ops r).*2 x -> contents v x = rn_db r x
}.

Lemma rows_inv_start v aside : rows_inv v (mkRunning ∅ [] 0 (contents v) aside).
Proof. split; cbn [rn_ops rn_active rn_db fmap list_fmap]; [set_solver|by intros ??? ?%Exists_nil|apply log_inv_nil|done]. Qed.

Lemma rows_inv_begin v r t : rows_inv v r -> rows_inv v (mkRunning ({[t]} ∪ rn_active r) (rn_ops r) (rn_max r) (rn_db r) (rn_aside r)).
Proof. intros [Ha Ho Hl Hr]. split; cbn [rn_ops rn_active rn_db]; [|done..]. intros u op Hop. pose proof (Ha u op Hop). set_solver. Qed.

Lemma rows_inv_aside v v' r aside :
  rows_inv v r -> (forall i, v' i = v i) -> rows_inv v' (mkRunning (rn_active r) (rn_ops r) (rn_max r) (rn_db r) aside).
Proof.
  intros [Ha Ho Hl Hr] Hv. assert (Hrow : forall x, row v' x = row v x) by (intros x; by apply row_ext).
  split; cbn [rn_ops rn_active rn_db]; [done|done| |intros x Hx; rewrite (contents_ext v' v) by done; by apply Hr].
  destruct Hl as [H1 H2 H3 H4 H5]. split; [|done|done| |].
  - intros op Hop. specialize (H1 op Hop). unfold ready in *. destruct (target op) as [[pg i]|]; [|done]. by rewrite Hv.
  - intros x Hx. rewrite Hrow. by apply H4.
  - intros x T. rewrite Hrow. apply H5.
Qed.

Lemma forward_contents v v' ops x : forward v v' ops -> ~ aimed ops x -> contents v' x = contents v x.
Proof.
  intros Hf Hx. assert (Hn : forall op, op ∈ ops -> target op ≠ Some x) by (intros op Hop Ht; apply Hx, aimed_spec; by exists op).
  by apply (forward_default v v' ops).
Qed.

Lemma rows_inv_change v v' r t ops aside :
  rows_inv v r -> t ∈ rn_active r -> forward v v' ops ->
  (forall x u, u ≠ t -> holds u (rn_ops r) x -> forall op, op ∈ ops -> target op ≠ Some x) ->
  rows_inv v' (mkRunning (rn_active r) (rn_ops r ++ (pair t <$> ops)) (rn_max r) (rn_db r) aside).
Proof.
  intros [Ha Ho Hl Hr] Ht Hf Hlock.
  assert (Hown : forall u x, holds u (rn_ops r) x -> aimed ops x -> u = t).
  { intros u x Hu (op & Hop & Hx)%aimed_spec. destruct (decide (u = t)); [done|]. by destruct (Hlock x u ltac:(done) Hu op Hop). }
  split; cbn [rn_ops rn_active rn_db].
  - intros u op [Hop|Hop]%elem_of_app; [by eapply Ha|]. apply list_elem_of_fmap in Hop as (? & [= -> ->] & _). done.
  - intros u w x [Hu|Hu]%holds_app [Hw|Hw]%holds_app.
    + by eapply Ho.
    + apply holds_pair in Hw as [-> Hx]. by eapply Hown.
    + apply holds_pair in Hu as [-> Hx]. symmetry. by eapply Hown.
    + apply holds_pair in Hu as [-> _]. by apply holds_pair in Hw as [-> _].
  - rewrite fmap_app, pair_snd. pose proof (log_inv_mine v v' _ _ ops Hl Hf) as Hm.
    assert (saves v ops (saved (rn_db r) (rn_ops r).*2) = saved (rn_db r) ((rn_ops r).*2 ++ ops)) as <-; [|done].
    apply map_eq. intros x. rewrite saves_lookup, !saved_lookup, fmap_app.
    destruct (decide (Some x ∈ target <$> (rn_ops r).*2)) as [Hx|Hx].
    + rewrite decide_True; [done|]. set_solver.
    + destruct (decide (Some x ∈ target <$> ops)) as [Hy|Hy].
      * rewrite decide_True by set_solver. f_equal. by apply (Hr x).
      * rewrite decide_False; [done|]. set_solver.
  - intros x Hx. rewrite fmap_app, pair_snd, aimed_app in Hx. rewrite (forward_contents v v' ops x Hf) by tauto. apply Hr. tauto.
Qed.

(** A transaction ends: its rows have their contents for good, and the rows of the others
    are as before. *)
Lemma rows_inv_end v v' r t mx db aside :
  rows_inv v r -> (forall op, op ∈ (ops_but t (rn_ops r)).*2 -> ready v' op) ->
  (forall x u, u ≠ t -> holds u (rn_ops r) x -> row v' x = row v x /\ db x = rn_db r x) ->
  (forall x, ~ aimed (ops_but t (rn_ops r)).*2 x -> contents v' x = db x) ->
  rows_inv v' (mkRunning (rn_active r ∖ {[t]}) (ops_but t (rn_ops r)) mx db aside).
Proof.
  intros [Ha Ho Hl Hr] Hrd Hoth Hrest. split; cbn [rn_ops rn_active rn_db]; [| | |done].
  - intros u op [Hu Hop]%list_elem_of_filter. cbn in Hu. pose proof (Ha u op Hop). set_solver.
  - intros u w x [_ Hu]%holds_but [_ Hw]%holds_but. by eapply Ho.
  - split; [done|apply insert_first_filter, Hl| | |].
    + intros op x Hop Hx. rewrite saved_lookup, decide_True; [by eexists|]. apply list_elem_of_fmap. by exists op.
    + intros x. rewrite saved_lookup. case_decide as Hx; [|by intros [? ?]]. intros _.
      apply list_elem_of_fmap in Hx as (op & Ht & Hop). eapply ready_row; [by apply Hrd|done].
    + intros x T HT. rewrite saved_lookup. case_decide as Hx.
      * apply aimed_holds in Hx as (u & Hu). apply holds_but in Hu as [Hne Hu]. destruct (Hoth x u Hne Hu) as [Hrow ->].
        assert (HP : forall p, p ∈ rn_ops r -> target p.2 = Some x -> p.1 ≠ t).
        { intros [w op] Hop Hx Hw. cbn in Hw. subst w. apply Hne. eapply Ho; [exact Hu|]. apply Exists_exists. by exists (t, op). }
        unfold ops_but. rewrite undo_values_filter, cleared_filter by done. rewrite Hrow in HT. rewrite (li_value _ _ _ Hl x T HT), saved_lookup, decide_True; [done|]. apply aimed_holds. by exists u.
      * apply undo_values_none. intros op Hop%in_rev_elem Ht. apply Hx, list_elem_of_fmap. by exists op.
Qed.

Lemma rows_inv_commit v r t mx aside :
  rows_inv v r -> rows_inv v (mkRunning (rn_active r ∖ {[t]}) (ops_but t (rn_ops r)) mx (publish v t (rn_ops r) (rn_db r)) aside).
Proof.
  intros Hinv. pose proof Hinv as [Ha Ho Hl Hr]. apply (rows_inv_end v v r t); [done| | |].
  - intros op Hop. apply Hl. eapply elem_of_sublist; [exact Hop|]. apply fmap_sublist, sublist_filter.
  - intros x u Hne Hu. split; [done|]. unfold publish. rewrite decide_False; [done|]. intros Ht. apply Hne. by eapply Ho.
  - intros x Hx. unfold publish. case_decide as Ht; [done|]. apply Hr. intros (u & Hu)%aimed_holds.
    apply Hx, aimed_holds. exists u. apply holds_but. split; [by intros ->|done].
Qed.

(** ** Rolling one transaction back beside the others *)

Section RollbackOne.
Context {St : Type} {C : Crc32c} {CR : Crc32cRange C} {E : StorageEngine St} {L : StorageLaws St}.

(** Undoing keeps other operations possible. *)
Lemma undo_loop_ready ops : forall s s' op,
  st_wf s -> (forall o, o ∈ ops -> ready (st_page s) o) -> insert_first (rev ops) -> undo_loop s ops = Some (Ok tt, s') ->
  (forall x, target op = Some x -> ~ aimed ops x) -> ready (st_page s) op -> ready (st_page s') op.
Proof.
  induction ops as [|o ops IH]; intros s s' op Hwf Hr Hf; cbn [undo_loop]; [by intros [= <-]|].
  destruct (apply_undo_spec s o Hwf) as (s1 & -> & Hwf1 & Hs1); [apply Hr; left|]. intros Hl Ha Hop.
  assert (Hf' : insert_first (rev ops)) by (eapply insert_first_sublist; [|exact Hf]; cbn [rev]; by apply sublist_inserts_r).
  assert (Ha' : forall x, target op = Some x -> ~ aimed ops x).
  { intros x Hx Hy. apply (Ha x Hx). unfold aimed in *. cbn. by right. }
  destruct (target o) as [x|] eqn:Hx.
  2:{ subst s1. apply (IH s s'); [done|intros; apply Hr; by right|done|done|done|done]. }
  destruct Hs1 as (T & HT & Hmv & Hnone). apply (IH s1 s'); [done| |done|done|done|].
  - intros o' Ho'. eapply ready_set; [exact Hmv|apply Hr; by right|]. intros Ht' Hn. specialize (Hnone Hn). subst o.
    destruct x as [pg i]. cbn [fst snd rev] in Hf. eapply (Hf (rev ops) pg i [] eq_refl o'); [|done].
    rewrite list_elem_of_In, <-in_rev, <-list_elem_of_In. done.
  - eapply ready_set; [exact Hmv|done|]. intros Ht'. exfalso. apply (Ha x Ht'). unfold aimed. cbn. rewrite Hx. left.
Qed.

(** Undoing the operations of a log, seen without the pages set aside. *)
Lemma undo_hidden s ops ids :
  st_wf s -> (forall op, op ∈ ops -> ready (hide ids (st_page s)) op) -> insert_first ops ->
  exists s', undo_loop s (rev ops) = Some (Ok tt, s') /\ st_wf s' /\
    (forall x, row (hide ids (st_page s')) x = undo_values x (rev ops) <$> row (hide ids (st_page s)) x) /\
    forall op, (forall x, target op = Some x -> ~ aimed ops x) -> ready (hide ids (st_page s)) op -> ready (hide ids (st_page s')) op.
Proof.
  intros Hwf Hrd Hf. assert (Hrd' : forall op, op ∈ ops -> ready (st_page s) op) by (intros op Hop; by apply (ready_hide ids), Hrd).
  destruct (undo_loop_spec ops s Hwf Hrd' Hf) as (s' & Hrun & Hwf' & _ & Hrow). exists s'. split_and!; [done|done| |].
  - intros x. rewrite !row_hide. case_decide; [done|apply Hrow].
  - intros op Hx [Hop Hid]%ready_hide. apply ready_hide. split; [|done].
    apply (undo_loop_ready (rev ops) s s' op); [done|intros o Ho'; by apply Hrd', in_rev_elem|by rewrite rev_involutive|done| |done].
    intros x Ht Hy. apply (Hx x Ht). apply aimed_spec in Hy as (o & Ho & Hto). apply aimed_spec. exists o. split; [by apply in_rev_elem|done].
Qed.

Lemma rows_inv_rollback s s' r t mx ids aside :
  st_wf s -> rows_inv (hide ids (st_page s)) r -> rollback_heap s (ops_of t (rn_ops r)) = Some (Ok tt, s') ->
  st_wf s' /\ rows_inv (hide ids (st_page s')) (mkRunning (rn_active r ∖ {[t]}) (ops_but t (rn_ops r)) mx
    (fun x => cleared (ops_of t (rn_ops r)) x (rn_db r x)) aside).
Proof.
  intros Hwf Hinv Hrb. pose proof Hinv as [Ha Ho Hl Hr]. set (ops := ops_of t (rn_ops r)) in *.
  assert (Hsub : ops `sublist_of` (rn_ops r).*2) by (apply fmap_sublist, sublist_filter).
  destruct (undo_hidden s ops ids Hwf) as (s1 & Hrun & Hwf1 & Hrow & Hrdy);
    [intros op Hop; apply Hl; by eapply elem_of_sublist|eapply insert_first_sublist; [exact Hsub|apply Hl]|].
  assert (s1 = s') as -> by (unfold rollback_heap in Hrb; congruence). split; [done|].
  assert (Hmine : forall x, aimed ops x <-> holds t (rn_ops r) x).
  { intros x. unfold ops, ops_of. rewrite aimed_holds. unfold holds. setoid_rewrite Exists_exists. setoid_rewrite list_elem_of_filter. naive_solver. }
  assert (Hnone : forall x, ~ holds t (rn_ops r) x -> forall op, op ∈ ops -> target op ≠ Some x).
  { intros x Hx op Hop Ht. apply Hx, Hmine, aimed_spec. by exists op. }
  assert (Hother : forall x, ~ holds t (rn_ops r) x -> row (hide ids (st_page s')) x = row (hide ids (st_page s)) x).
  { intros x Hx. rewrite Hrow. destruct (row _ x) as [T|]; [|done]. cbn. f_equal. apply undo_values_none.
    intros op Hop%in_rev_elem. by apply Hnone. }
  apply (rows_inv_end (hide ids (st_page s))); [done| | |].
  - intros op Hop. apply Hrdy; [|apply Hl; eapply elem_of_sublist; [exact Hop|]; apply fmap_sublist, sublist_filter].
    intros x Hx Hy%Hmine. apply list_elem_of_fmap in Hop as ([u o] & -> & Hop). apply list_elem_of_filter in Hop as [Hu Hop]. cbn in Hu, Hx.
    apply Hu. eapply Ho; [|exact Hy]. apply Exists_exists. by exists (u, o).
  - intros x u Hne Hu. assert (Ht : ~ holds t (rn_ops r) x) by (intros Ht; apply Hne; by eapply Ho).
    split; [by apply Hother|]. by apply cleared_none, Hnone.
  - intros x Hx. destruct (decide (holds t (rn_ops r) x)) as [Ht|Ht].
    + unfold contents. rewrite Hrow. destruct (li_exists _ _ _ Hl x) as [T HT].
      { rewrite saved_lookup, decide_True; [by eexists|]. apply aimed_holds. by exists t. }
      assert (HP : forall p, p ∈ rn_ops r -> target p.2 = Some x -> p.1 = t).
      { intros [u o] Hop Hx'. cbn. eapply Ho; [|exact Ht]. apply Exists_exists. by exists (u, o). }
      rewrite HT. cbn [fmap option_fmap option_map default from_option id]. unfold ops, ops_of. rewrite undo_values_filter, cleared_filter by done.
      rewrite (li_value _ _ _ Hl x T HT), saved_lookup, decide_True; [done|]. apply aimed_holds. by exists t.
    + unfold contents. rewrite (Hother x Ht), cleared_none by (by apply Hnone). apply Hr. intros (u & Hu)%aimed_holds. apply Hx, aimed_holds.
      exists u. apply holds_but. split; [by intros ->|done].
Qed.
End RollbackOne.

(** ** What the scan finds *)

Lemma filter_agree {A} (P Q : A -> Prop) `{!forall a, Decision (P a)} `{!forall a, Decision (Q a)} (l : list A) :
  (forall a, a ∈ l -> P a <-> Q a) -> filter P l = filter Q l.
Proof.
  induction l as [|a l IH]; intros Hl; [done|]. rewrite !filter_cons, IH by (intros; apply Hl; by right).
  pose proof (Hl a (list_elem_of_here a l)). repeat case_decide; tauto.
Qed.

Lemma filter_all_in {A} (P : A -> Prop) `{!forall a, Decision (P a)} (l : list A) : (forall a, a ∈ l -> P a) -> filter P l = l.
Proof.
  induction l as [|a l IH]; intros Hl; [done|]. rewrite filter_cons_True, IH; [done|intros; apply Hl; by right|apply Hl; by left].
Qed.

Definition tag (p : Z * UndoOp) : option (Z * RecoveryOp) := pair p.1 <$> recovery_op p.2.

Lemma omap_tag_snd (ops : list (Z * UndoOp)) : (omap tag ops).*2 = omap recovery_op ops.*2.
Proof. induction ops as [|[t op] ops IH]; [done|]. cbn. unfold tag at 1. cbn. destruct (recovery_op op); cbn; by rewrite IH. Qed.

Lemma omap_tag_pair t (ops : list UndoOp) : omap tag (pair t <$> ops) = pair t <$> omap recovery_op ops.
Proof. induction ops as [|op ops IH]; [done|]. cbn. unfold tag at 1. cbn. destruct (recovery_op op); cbn; by rewrite IH. Qed.

Lemma omap_tag_filter (P : Z -> Prop) `{!forall t, Decision (P t)} (ops : list (Z * UndoOp)) :
  filter (fun p => P p.1) (omap tag ops) = omap tag (filter (fun p => P p.1) ops).
Proof.
  induction ops as [|[t op] ops IH]; [done|]. rewrite filter_cons. cbn [fst omap list_omap]. unfold tag at 1. cbn [fst snd].
  destruct (recovery_op op) as [o|] eqn:Ho; cbn [fmap option_fmap option_map].
  - rewrite filter_cons. cbn [fst]. case_decide; cbn [omap list_omap]; [unfold tag at 2; cbn [fst snd]; rewrite Ho; cbn|]; by rewrite IH.
  - case_decide; cbn [omap list_omap]; [unfold tag at 2; cbn [fst snd]; rewrite Ho; cbn|]; by rewrite IH.
Qed.

(** The records since the checkpoint. *)
Lemma filter_window (old es : list WalEntry) ck :
  Forall (fun e => lsn e < ck) old -> Forall (fun e => ck <= lsn e) es -> filter (fun e => ck <= lsn e) (old ++ es) = es.
Proof.
  rewrite !Forall_forall. intros Hold Hes. rewrite filter_app, (filter_all_in _ es) by done.
  rewrite (filter_all_out _ old); [done|]. intros e He. specialize (Hold e He). lia.
Qed.

Record scan_inv (es : list WalEntry) (r : Running) (sc : Scan) : Prop := {
  si_active : sc_active_txns sc = rn_active r;
  si_max : sc_max_committed sc = rn_max r;
  si_timeline : filter (fun p => p.1 ∈ rn_active r) (sc_timeline sc) = omap tag (rn_ops r);
  si_seen p : p ∈ sc_timeline sc -> exists e, e ∈ es /\ txn_id e = p.1;
  si_root_timeline : sc_root_timeline sc = [];
  si_active_roots t m : sc_active_roots sc !! t = Some m -> m = ∅;
  si_committed_roots : sc_committed_roots sc = ∅
}.

Lemma scan_inv_roots es r sc : scan_inv es r sc -> current_roots sc = ∅.
Proof. intros Hsc. unfold current_roots. by rewrite (si_root_timeline _ _ _ Hsc), (si_committed_roots _ _ _ Hsc). Qed.

Lemma scan_inv_undone es r sc :
  scan_inv es r sc -> undone (sc_active_txns sc) (sc_timeline sc) = omap recovery_op (rn_ops r).*2.
Proof. intros Hsc. unfold undone. by rewrite (si_active _ _ _ Hsc), (si_timeline _ _ _ Hsc), omap_tag_snd. Qed.

Lemma seen_more (es es' : list WalEntry) (t : Z) :
  (exists e, e ∈ es /\ txn_id e = t) -> exists e, e ∈ es ++ es' /\ txn_id e = t.
Proof. intros (e & He & Ht). exists e. split; [set_solver|done]. Qed.

Lemma scan_inv_begin es r sc e :
  scan_inv es r sc -> entry_type e = Begin -> (forall e', e' ∈ es -> txn_id e' ≠ txn_id e) ->
  exists sc', scan_entry e sc = Ok sc' /\
    scan_inv (es ++ [e]) (mkRunning ({[txn_id e]} ∪ rn_active r) (rn_ops r) (rn_max r) (rn_db r) (rn_aside r)) sc'.
Proof.
  intros [Ha Hm Ht Hs H1 H2 H3] He Hfr. unfold scan_entry. rewrite He. eexists. split; [reflexivity|].
  split; cbn; [by rewrite Ha|done| | |done| |done].
  - rewrite <-Ht. apply filter_agree. intros p Hp. destruct (Hs p Hp) as (e' & He' & Heq).
    pose proof (Hfr e' He'). cbn. rewrite elem_of_union, elem_of_singleton. split; [intros [?|?]; [congruence|done]|by right].
  - intros p Hp. by apply seen_more, Hs.
  - intros t m. destruct (decide (t = txn_id e)) as [->|Hne]; [|rewrite lookup_insert_ne by done; apply H2].
    rewrite lookup_insert_eq. intros [= <-]. destruct (_ !! _) as [m|] eqn:Hm'; [by eapply H2|done].
Qed.

(** The end of a transaction, by a [Commit] or a [Rollback] record. *)
Lemma scan_inv_end es r sc e mx db aside :
  scan_inv es r sc -> entry_type e = Commit /\ mx = Z.max (rn_max r) (txn_id e) \/ entry_type e = Rollback /\ mx = rn_max r ->
  exists sc', scan_entry e sc = Ok sc' /\
    scan_inv (es ++ [e]) (mkRunning (rn_active r ∖ {[txn_id e]}) (ops_but (txn_id e) (rn_ops r)) mx db aside) sc'.
Proof.
  intros [Ha Hm Ht Hs H1 H2 H3] He.
  assert (Htl : filter (fun p => p.1 ∈ rn_active r ∖ {[txn_id e]}) (sc_timeline sc) = omap tag (ops_but (txn_id e) (rn_ops r))).
  { trans (filter (fun p => p.1 ≠ txn_id e) (omap tag (rn_ops r))); [|exact (omap_tag_filter (fun t => t ≠ txn_id e) (rn_ops r))].
    rewrite <-Ht, list_filter_filter. apply list_filter_iff. intros p. rewrite elem_of_difference, elem_of_singleton. tauto. }
  assert (Hr : forall t m, delete (txn_id e) (sc_active_roots sc) !! t = Some m -> m = ∅).
  { intros t m. rewrite lookup_delete_Some. intros [_ Hr]. by eapply H2. }
  assert (Hse : forall p, p ∈ sc_timeline sc -> exists e', e' ∈ es ++ [e] /\ txn_id e' = p.1) by (intros p Hp; by apply seen_more, Hs).
  unfold scan_entry. destruct He as [[-> ->]|[-> ->]]; eexists; (split; [reflexivity|]); split; cbn; try done; rewrite ?Ha, ?Hm; try done.
  rewrite H3, (right_id_L ∅ (∪)). destruct (_ !! _) as [m|] eqn:Hm'; [by eapply H2|done].
Qed.

Lemma scan_records t recs : forall sc,
  Forall (fun e => txn_id e = t /\ heap_record e) recs -> t ∈ sc_active_txns sc ->
  scan_loop scan_entry (Ok <$> recs) sc = Ok (push_ops t (recs ≫= heap_recovery_ops) sc).
Proof.
  induction recs as [|e recs IH]; intros sc Hr Ht.
  { cbn. unfold push_ops. cbn. rewrite app_nil_r. by destruct sc. }
  apply Forall_cons in Hr as [[He Hh] Hr]. cbn [fmap list_fmap scan_loop].
  assert (scan_entry e sc = Ok (push_ops t (heap_recovery_ops e) sc)) as ->.
  { unfold scan_entry. rewrite He, bool_decide_eq_true_2 by done. unfold heap_record in Hh. by destruct (entry_type e). }
  rewrite IH by done. rewrite bind_cons. unfold push_ops. cbn. by rewrite fmap_app, app_assoc.
Qed.

Lemma scan_inv_change es r sc t recs ops aside :
  scan_inv es r sc -> t ∈ rn_active r -> records t recs ops ->
  exists sc', scan_loop scan_entry (Ok <$> recs) sc = Ok sc' /\
    scan_inv (es ++ recs) (mkRunning (rn_active r) (rn_ops r ++ (pair t <$> ops)) (rn_max r) (rn_db r) aside) sc'.
Proof.
  intros [Ha Hm Ht Hs H1 H2 H3] Hin [Hr Hops]. eexists. split; [apply (scan_records t); [done|by rewrite Ha]|].
  rewrite Hops. split; cbn; [done|done| | |done|done|done].
  - rewrite filter_app, Ht, omap_app, omap_tag_pair. f_equal.
    apply filter_all_in. intros p Hp. apply list_elem_of_fmap in Hp as (o & -> & _). done.
  - intros p [Hp|Hp]%elem_of_app; [by apply seen_more, Hs|]. destruct recs as [|e recs].
    { cbn in Hops. rewrite <-Hops in Hp. by apply not_elem_of_nil in Hp. }
    exists e. split; [set_solver|]. apply Forall_cons in Hr as [[-> _] _]. apply list_elem_of_fmap in Hp as (o & -> & _). done.
Qed.

(** ** The invariant of a history *)

Section Histories.
Context {St : Type} {C : Crc32c} {CR : Crc32cRange C} {E : StorageEngine St} {L : StorageLaws St}.

Lemma scan_snoc (es : list WalEntry) e sc sc' :
  scan_loop scan_entry (Ok <$> es) scan_init = Ok sc -> scan_entry e sc = Ok sc' ->
  scan_loop scan_entry (Ok <$> (es ++ [e])) scan_init = Ok sc'.
Proof. intros H1 H2. rewrite scan_loop_app, H1. cbn. by rewrite H2. Qed.

Lemma db_history_inv (s : St) es r : db_history s es r ->
  st_wf s /\ rows_inv (hide (rn_aside r) (st_page s)) r /\ exists sc, scan_loop scan_entry (Ok <$> es) scan_init = Ok sc /\ scan_inv es r sc.
Proof.
  induction 1 as [s aside Hwf|s es r e _ (Hwf & Hri & sc & Hsc & Hsi) He|s s' es r aside _ (Hwf & Hri & sc & Hsc & Hsi) Hwf' Hv
    |s es r e _ (Hwf & Hri & sc & Hsc & Hsi) He Hfr|s s' es r t recs ops aside _ (Hwf & Hri & sc & Hsc & Hsi) Ht Hwf' Hf Hrec Hlock
    |s es r e _ (Hwf & Hri & sc & Hsc & Hsi) He Ht|s s' es r e _ (Hwf & Hri & sc & Hsc & Hsi) He Ht Hrb].
  - split_and!; [done|apply rows_inv_start|]. exists scan_init. split; [done|]. by split; cbn; try done; set_solver.
  - split_and!; [done|done|]. exists sc. split; [eapply scan_snoc; [done|]; unfold scan_entry; by rewrite He|].
    destruct Hsi as [H1 H2 H3 H4 H5 H6 H7]. split; [done..| |done|done|done]. intros p Hp. by apply seen_more, H4.
  - split_and!; [done|by apply (rows_inv_aside (hide (rn_aside r) (st_page s)))|]. exists sc. split; [done|].
    by destruct Hsi as [H1 H2 H3 H4 H5 H6 H7].
  - split_and!; [done|by apply rows_inv_begin|]. destruct (scan_inv_begin es r sc e Hsi He Hfr) as (sc' & Hsc' & Hsi').
    exists sc'. split; [by eapply scan_snoc|done].
  - split_and!; [done|by apply (rows_inv_change (hide (rn_aside r) (st_page s)))|].
    destruct (scan_inv_change es r sc t recs ops aside Hsi Ht Hrec) as (sc' & Hsc' & Hsi').
    exists sc'. split; [|done]. by rewrite scan_loop_app, Hsc.
  - split_and!; [done|by apply rows_inv_commit|].
    destruct (scan_inv_end es r sc e (Z.max (rn_max r) (txn_id e)) (publish (hide (rn_aside r) (st_page s)) (txn_id e) (rn_ops r) (rn_db r)) (rn_aside r) Hsi)
      as (sc' & Hsc' & Hsi'); [by left|].
    exists sc'. split; [by eapply scan_snoc|done].
  - destruct (rows_inv_rollback s s' r (txn_id e) (rn_max r) (rn_aside r) (rn_aside r) Hwf Hri Hrb) as [Hwf' Hri']. split_and!; [done|done|].
    destruct (scan_inv_end es r sc e (rn_max r) (fun x => cleared (ops_of (txn_id e) (rn_ops r)) x (rn_db r x)) (rn_aside r) Hsi)
      as (sc' & Hsc' & Hsi'); [by right|].
    exists sc'. split; [by eapply scan_snoc|done].
Qed.

(** The sets of [is_needed]: what has begun and not ended is running. *)
Lemma need_history (s : St) es r : db_history s es r ->
  exists sets, scan_loop need_entry (Ok <$> es) (∅, ∅) = Ok sets /\ sets.1 ∖ sets.2 = rn_active r /\
    forall t, t ∈ sets.2 -> exists e, e ∈ es /\ txn_id e = t.
Proof.
  assert (Hend : forall es r (sets : gset Z * gset Z) e, sets.1 ∖ sets.2 = rn_active r -> (forall t, t ∈ sets.2 -> exists e, e ∈ es /\ txn_id e = t) ->
    sets.1 ∖ ({[txn_id e]} ∪ sets.2) = rn_active r ∖ {[txn_id e]} /\ forall t, t ∈ {[txn_id e]} ∪ sets.2 -> exists e', e' ∈ es ++ [e] /\ txn_id e' = t).
  { intros es0 r0 sets e <- Hseen. split; [set_solver|]. intros t [Ht|Ht]%elem_of_union; [|by apply seen_more, Hseen].
    apply elem_of_singleton in Ht as ->. exists e. split; [set_solver|done]. }
  induction 1 as [s aside Hwf|s es r e _ (sets & Hs & Ha & Hseen) He|s s' es r aside _ IH Hwf' Hv|s es r e _ (sets & Hs & Ha & Hseen) He Hfr
    |s s' es r t recs ops aside _ (sets & Hs & Ha & Hseen) Ht Hwf' Hf Hrec Hlock|s es r e _ (sets & Hs & Ha & Hseen) He Ht
    |s s' es r e _ (sets & Hs & Ha & Hseen) He Ht Hrb].
  - exists (∅, ∅). split; [done|]. cbn. set_solver.
  - exists sets. rewrite scan_loop_app, Hs. cbn. unfold need_entry. rewrite He. split_and!; [done..|]. intros t Ht. by apply seen_more, Hseen.
  - exact IH.
  - eexists. rewrite scan_loop_app, Hs. cbn. unfold need_entry. rewrite He. split; [done|]. cbn. split.
    + rewrite <-Ha. assert (~ txn_id e ∈ sets.2) by (intros (e' & He' & Heq)%Hseen; by apply (Hfr e')). set_solver.
    + intros t Ht. by apply seen_more, Hseen.
  - exists sets. rewrite scan_loop_app, Hs. split_and!; [|done|intros u Hu; by apply seen_more, Hseen]. destruct Hrec as [Hrec _]. clear -Hrec.
    induction Hrec as [|e recs [_ He] _ IH]; [done|]. cbn. assert (need_entry e sets = Ok sets) as ->; [|done].
    unfold need_entry, heap_record in *. by destruct (entry_type e).
  - eexists. rewrite scan_loop_app, Hs. cbn. unfold need_entry. rewrite He. split; [done|]. by apply (Hend es r sets e).
  - eexists. rewrite scan_loop_app, Hs. cbn. unfold need_entry. rewrite He. split; [done|]. by apply (Hend es r sets e).
Qed.

Context {F : StorageFlush St} {FL : FlushLaws St} {T : ClusteredTree St}.

(** Recovery from the file and the pages of a history. *)
Lemma recover_history (s : St) old es r start tail ck fuel b :
  db_history s es r -> checkpoint_is s ck ->
  in_u64 start -> Forall wal_ok (old ++ es) -> stops tail ->
  Forall (fun e => lsn e < ck) old -> Forall (fun e => ck <= lsn e) es ->
  exists s', recover fuel (layout start (old ++ es) tail) (mkIo b s) =
      Some (Ok (mkRecovery (rn_max r) (wrap32 (Z.of_nat (size (rn_active r)))) ck ∅), mkIo b s') /\
    st_wf s' /\ links_same (st_page s) (st_page s') /\
    forall x, (is_Some (row (st_page s) x) <-> is_Some (row (st_page s') x)) /\
      (~ x.1 ∈ rn_aside r -> contents (st_page s') x = cleared (rn_ops r).*2 x (rn_db r x)).
Proof.
  intros Hh Hck Hst Hok Htl Hold Hes. destruct (db_history_inv s es r Hh) as (Hwf & Hri & sc & Hsc & Hsi).
  assert (Hscan : scan_log scan_entry (layout start (old ++ es) tail) ck scan_init = Some (Ok sc)).
  { by rewrite scan_log_layout, filter_window, Hsc. }
  destruct (recover_run fuel _ b s ck sc (rn_ops r).*2 Hwf Hck Hscan) as (s' & Hrun & Hwf' & Hlk & _ & Hrow).
  { by eapply scan_inv_undone. }
  { intros op Hop. by apply (ready_hide (rn_aside r)), (li_ready _ _ _ (ri_log _ _ Hri)). }
  { apply (ri_log _ _ Hri). }
  exists s'. rewrite (si_active _ _ _ Hsi), (si_max _ _ _ Hsi), (scan_inv_roots _ _ _ Hsi) in Hrun.
  split_and!; [done|done|done|]. intros x. unfold contents. rewrite Hrow. split; [by rewrite fmap_is_Some|]. intros Hx.
  assert (Hv : row (hide (rn_aside r) (st_page s)) x = row (st_page s) x) by (by rewrite row_hide, decide_False).
  assert (Hrest : ~ aimed (rn_ops r).*2 x -> default None (row (st_page s) x) = cleared (rn_ops r).*2 x (rn_db r x)).
  { intros Ha. rewrite cleared_none; [rewrite <-Hv; by apply (ri_rest _ _ Hri)|]. intros op Hop Ht. apply Ha, aimed_spec. by exists op. }
  destruct (row (st_page s) x) as [U|] eqn:HU; cbn.
  - rewrite (li_value _ _ _ (ri_log _ _ Hri) x U Hv), saved_lookup. case_decide as Ha; [done|]. by apply Hrest.
  - apply Hrest. intros (op & Hop & Ht)%aimed_spec. destruct (ready_row _ op x (li_ready _ _ _ (ri_log _ _ Hri) op Hop) Ht). congruence.
Qed.

Lemma is_needed_history (s : St) old es r start tail ck b :
  db_history s es r -> st_wf s -> checkpoint_is s ck ->
  in_u64 start -> Forall wal_ok (old ++ es) -> stops tail ->
  Forall (fun e => lsn e < ck) old -> Forall (fun e => ck <= lsn e) es ->
  is_needed (layout start (old ++ es) tail) (mkIo b s) = Some (Ok (bool_decide (rn_active r ≠ ∅)), mkIo b s).
Proof.
  intros Hh Hwf Hck Hst Hok Htl Hold Hes. destruct (need_history s es r Hh) as (sets & Hs & Ha & _).
  unfold is_needed, io_bind, last_checkpoint_lsn. rewrite read_checkpoint_run with (l := ck) by done.
  unfold lift_result. rewrite scan_log_layout, filter_window, Hs by done. unfold io_ret. do 3 f_equal. apply bool_decide_ext.
  rewrite <-Ha. split; intros Hne Hsub; apply Hne; [|set_solver]. intros t Ht. destruct (decide (t ∈ sets.2)) as [Hin|Hn]; [done|].
  assert (t ∈ sets.1 ∖ sets.2) as Hd by set_solver. rewrite Hsub in Hd. set_solver.
Qed.

(** The writer of a log file that is read back. *)
Lemma cw_open_layout start es tail :
  in_u64 start -> Forall wal_ok es -> stops tail ->
  exists w, cw_open (layout start es tail) = Some (Ok w) /\ next_lsn w = Z.max (last_lsn_of es 0) start + 1 /\
    ws_file (cw_writer w) = layout start es tail.
Proof.
  intros Hs Hok Ht. destruct (header_roundtrip start (enc es ++ tail) Hs) as [_ Hh].
  unfold cw_open. unfold layout at 1. rewrite Hh, scan_valid_tail_layout by done. eexists. split; [reflexivity|]. done.
Qed.
End Histories.

(** ** The records of statements *)

(** The rows of an operation have numbers that fit their fields, and the slots of a page
    record their count. *)
Definition in_range (op : UndoOp) : Prop :=
  match target op with Some (pg, i) => in_u64 pg /\ in_u16 i | None => True end.
Definition counted (e : WalEntry) : Prop :=
  match entry_type e with PageWrite | PageDelete => zlen (new_value e) < 2 + 2 * 2 ^ 16 | _ => True end.

Lemma decode_encode_loc pg i rest : in_u64 pg -> in_u16 i -> decode_physical_loc (encode_physical_loc pg i ++ rest) = Some (pg, i).
Proof.
  intros Hp Hi. unfold decode_physical_loc, encode_physical_loc, PHYSICAL_LOC_LEN. rewrite !length_app, !length_le_bytes by lia.
  rewrite (proj2 (Z.ltb_ge _ _)) by lia.
  set (cs := [le_bytes 8 pg; le_bytes 2 i]).
  assert (Heq : (le_bytes 8 pg ++ le_bytes 2 i) ++ rest = concat cs ++ rest) by (unfold cs; cbn [concat]; by rewrite app_nil_r).
  assert (H1 : zlen (concat (take 1 cs)) = 8) by (unfold cs; cbn [take concat]; rewrite app_nil_r, length_le_bytes by lia; done).
  pose proof (read_le_concat cs rest 0 8 pg ltac:(lia) ltac:(widths) eq_refl) as H8.
  pose proof (read_le_concat cs rest 1 2 i ltac:(lia) ltac:(widths) eq_refl) as H2.
  rewrite H1 in H2. change (zlen (concat (take 0 cs))) with 0 in H8. by rewrite Heq, H8, H2.
Qed.

Lemma drop_loc pg i rest : drop (Z.to_nat PHYSICAL_LOC_LEN) (encode_physical_loc pg i ++ rest) = rest.
Proof. apply drop_app_length'. unfold encode_physical_loc, PHYSICAL_LOC_LEN. rewrite length_app, !length_le_bytes by lia. done. Qed.

Lemma le_bytes_two i : exists b0 b1, le_bytes 2 i = [b0; b1].
Proof. pose proof (length_le_bytes 2 i ltac:(lia)) as Hl. destruct (le_bytes 2 i) as [|b0 [|b1 [|]]]; try done. by exists b0, b1. Qed.

Lemma slots_from_list slots : Forall in_u16 slots -> slots_from (length slots) (concat (le_bytes 2 <$> slots)) = slots.
Proof.
  induction 1 as [|i slots Hi _ IH]; [done|]. cbn [fmap list_fmap concat length]. destruct (le_bytes_two i) as (b0 & b1 & Hb). rewrite Hb.
  cbn [app slots_from]. rewrite <-Hb, le_val_le_bytes by (lia || widths). f_equal. exact IH.
Qed.

Lemma len_slots slots : zlen (concat (le_bytes 2 <$> slots)) = 2 * zlen slots.
Proof. induction slots as [|i slots IH]; [done|]. cbn [fmap list_fmap concat length]. rewrite length_app, length_le_bytes by lia. lia. Qed.

Lemma page_slots_record l own ty tid pg slots :
  in_u64 pg -> Forall in_u16 slots -> zlen (slot_list slots) < 2 + 2 * 2 ^ 16 ->
  page_slots (with_lsn l (mkWal 0 own ty tid (le_bytes 8 pg) [] (slot_list slots))) = Some (pg, slots).
Proof.
  intros Hp Hs Hl. unfold slot_list in *. rewrite length_app, length_le_bytes, Nat2Z.inj_add, len_slots in Hl by lia.
  assert (Hw : wrap16 (zlen slots) = zlen slots) by (apply Z.mod_small; lia). rewrite Hw.
  unfold page_slots. cbn [with_lsn WalEntry.key WalEntry.new_value]. rewrite length_le_bytes by lia.
  destruct (le_bytes_two (zlen slots)) as (b0 & b1 & Hb). rewrite Hb. cbn [app].
  rewrite <-Hb, le_val_le_bytes by lia. rewrite Nat2Z.id, slots_from_list by done.
  rewrite firstn_all2 by (rewrite length_le_bytes by lia; done). by rewrite le_val_le_bytes by (lia || widths).
Qed.

(** The log records of a single change. *)
Lemma records_one l own e op :
  txn_id e = own -> heap_record e -> heap_recovery_ops (with_lsn l e) = omap recovery_op [op] ->
  records own [with_lsn l e] [op].
Proof.
  intros Ht Hh Ho. split.
  - constructor; [|constructor]. split; [done|]. unfold heap_record in *. exact Hh.
  - cbn [mbind list_bind]. rewrite app_nil_r. exact Ho.
Qed.

Lemma records_nil own : records own [] [].
Proof. by split; [constructor|]. Qed.

Lemma records_app own r1 r2 o1 o2 : records own r1 o1 -> records own r2 o2 -> records own (r1 ++ r2) (o1 ++ o2).
Proof. intros [H1 E1] [H2 E2]. split; [by apply Forall_app|]. by rewrite bind_app, omap_app, E1, E2. Qed.

(** A program that hands records to the log and pushes their operations. *)
Definition journals {St A} (own : Z) (m : Stmt St A) : Prop := forall s r s', m s = Some (r, s') ->
  exists recs ops, ss_wal s' = ss_wal s ++ recs /\ ss_undo s' = ss_undo s ++ ops /\
    (Forall in_range ops -> Forall counted recs -> records own recs ops).

Section Journals.
Context {St : Type} {C : Crc32c} {E : StorageEngine St} {SI : SetIter} (own : Z).

Lemma journals_same {A} (m : Stmt St A) :
  (forall s r s', m s = Some (r, s') -> ss_wal s' = ss_wal s /\ ss_undo s' = ss_undo s) -> journals own m.
Proof.
  intros Hm s r s' Hr. destruct (Hm s r s' Hr) as [-> ->]. exists [], []. rewrite !app_nil_r. split_and!; [done..|]. intros _ _. apply records_nil.
Qed.

Lemma journals_ret {A} (a : A) : journals own (s_ret a : Stmt St A).
Proof. apply journals_same. by intros s r s' [= _ <-]. Qed.
Lemma journals_fail {A} e : journals own (s_fail e : Stmt St A).
Proof. apply journals_same. by intros s r s' [= _ <-]. Qed.
Lemma journals_heap {A} (m : M St A) : journals own (heap_op m).
Proof. apply journals_same. intros s r s'. unfold heap_op. destruct (m _) as [[? x]|]; [|done]. by intros [= _ <-]. Qed.
Lemma journals_store {A} (f : St -> option (Result A * St)) : journals own (store_op f).
Proof. apply journals_same. intros s r s'. unfold store_op. destruct (f _) as [[? x]|]; [|done]. by intros [= _ <-]. Qed.
Lemma journals_hint fuel td data t hint : journals own (insert_hint_op fuel td data t hint : Stmt St _).
Proof.
  apply journals_same. intros s r s'. unfold insert_hint_op. destruct (insert_with_hint _ _ _ _ _ _) as [[[[rid|e] h] x]|]; [| |done]; by intros [= _ <-].
Qed.

Lemma journals_bind {A B} (m : Stmt St A) (k : A -> Stmt St B) : journals own m -> (forall a, journals own (k a)) -> journals own (s_bind m k).
Proof.
  intros Hm Hk s r s'. unfold s_bind. destruct (m s) as [[[a|e] s1]|] eqn:Hm1; [| |done].
  - intros Hk1. destruct (Hm _ _ _ Hm1) as (r1 & o1 & W1 & U1 & R1). destruct (Hk a _ _ _ Hk1) as (r2 & o2 & W2 & U2 & R2).
    exists (r1 ++ r2), (o1 ++ o2). rewrite W2, W1, U2, U1, !app_assoc. split_and!; [done..|].
    rewrite !Forall_app. intros [? ?] [? ?]. by apply records_app; auto.
  - intros [= <- <-]. by eapply Hm.
Qed.

Lemma journals_logs (m : Stmt St unit) entries ops :
  logs m entries ops -> (forall l, Forall in_range ops -> Forall counted (entries l) -> records own (entries l) ops) -> journals own m.
Proof.
  intros Hl Hr s r s' Hm. destruct (Hl s) as [next Heq]. rewrite Heq in Hm. injection Hm as <- <-.
  exists (entries (ss_next_lsn s)), ops. split_and!; [done..|]. apply Hr.
Qed.

Lemma journals_change e op :
  txn_id e = own -> heap_record e -> (forall l, in_range op -> heap_recovery_ops (with_lsn l e) = omap recovery_op [op]) ->
  journals own (log_change (e, op) : Stmt St unit).
Proof.
  intros Ht Hh Ho. eapply journals_logs; [apply log_change_logs|]. cbn [fst snd]. intros l [Hop _]%Forall_cons _. apply records_one; auto.
Qed.

(** Batches: one record for each item, with its operations. *)
Lemma records_batch {I} (f : I -> WalEntry) (g : I -> list UndoOp) (items : list I) :
  (forall i l, Forall in_range (g i) -> counted (f i) -> records own [with_lsn l (f i)] (g i)) ->
  forall l, Forall in_range (items ≫= g) -> Forall counted (batch_entries (f <$> items) l) ->
  records own (batch_entries (f <$> items) l) (items ≫= g).
Proof.
  intros Hf l. unfold batch_entries.
  enough (H : forall h : nat -> Z, Forall in_range (items ≫= g) -> Forall counted (imap (fun k e => with_lsn (h k) e) (f <$> items)) ->
    records own (imap (fun k e => with_lsn (h k) e) (f <$> items)) (items ≫= g)) by apply (H (fun k => wrap64 (l + Z.of_nat k))).
  induction items as [|i items IH]; intros h Hr Hc; [apply records_nil|].
  rewrite fmap_cons, imap_cons in Hc |- *. rewrite bind_cons in Hr |- *. apply Forall_app in Hr as [Hr1 Hr2]. apply Forall_cons in Hc as [Hc1 Hc2].
  apply (records_app own [_]); [by apply Hf|]. exact (IH (h ∘ S) Hr2 Hc2).
Qed.

(** The records of the slots of a page, undone slot by slot with [mk]. *)
Lemma records_page ty (mk : Z -> Z -> UndoOp) (rk : Z -> Z -> RecoveryOp) tid pg slots l :
  ty = PageWrite \/ ty = PageDelete -> (forall i, target (mk pg i) = Some (pg, i) /\ recovery_op (mk pg i) = Some (rk pg i)) ->
  (forall e, entry_type e = ty -> heap_recovery_ops e = match page_slots e with Some (p, k) => rk p <$> k | None => [] end) ->
  Forall in_range (mk pg <$> slots) -> counted (mkWal 0 own ty tid (le_bytes 8 pg) [] (slot_list slots)) ->
  records own [with_lsn l (mkWal 0 own ty tid (le_bytes 8 pg) [] (slot_list slots))] (mk pg <$> slots).
Proof.
  intros Hty Hmk Hrec Hr Hc. rewrite Forall_fmap in Hr.
  split; [constructor; [|constructor]; split; [done|]; unfold heap_record; cbn; by destruct Hty as [-> | ->]|].
  cbn [mbind list_bind]. rewrite app_nil_r, Hrec by done.
  assert (Hslots : page_slots (with_lsn l (mkWal 0 own ty tid (le_bytes 8 pg) [] (slot_list slots))) = Some (pg, slots) \/ slots = []).
  { destruct slots as [|i0 slots]; [by right|]. left. apply page_slots_record.
    - apply Forall_cons in Hr as [Hr _]. cbn in Hr. unfold in_range in Hr. rewrite (proj1 (Hmk i0)) in Hr. apply Hr.
    - eapply Forall_impl; [exact Hr|]. intros i. cbn. unfold in_range. rewrite (proj1 (Hmk i)). by intros [_ ?].
    - unfold counted in Hc. cbn in Hc. by destruct Hty as [-> | ->]. }
  assert (Hops : omap recovery_op (mk pg <$> slots) = rk pg <$> slots).
  { clear -Hmk. induction slots as [|i k IH]; [done|]. cbn. by rewrite (proj2 (Hmk i)), IH. }
  rewrite Hops. destruct Hslots as [-> | ->]; [done|]. destruct (page_slots _) as [[? ?]|] eqn:Hps; [|done].
  unfold page_slots in Hps. change (new_value _) with [0; 0] in Hps. destruct (_ <? 8); [done|]. by injection Hps as <- <-.
Qed.

Lemma journals_page_writes tid pages : journals own (record_page_writes own tid pages : Stmt St unit).
Proof.
  eapply journals_logs; [apply record_page_writes_logs|]. rewrite page_locs_fmap. apply records_batch. intros [pg slots] l Hr Hc.
  apply (records_page PageWrite UndoInsert RInsert); [by left|done| |done|done]. intros e He. unfold heap_recovery_ops. by rewrite He.
Qed.

Lemma journals_page_deletes tid pages : journals own (record_delete_batch own tid pages : Stmt St unit).
Proof.
  eapply journals_logs; [apply record_delete_batch_logs|]. rewrite page_locs_fmap. apply records_batch. intros [pg slots] l Hr Hc.
  apply (records_page PageDelete UndoDelete RDelete); [by right|done| |done|done]. intros e He. unfold heap_recovery_ops. by rewrite He.
Qed.

Lemma journals_update_batch tid images : journals own (record_update_in_place_batch own tid images : Stmt St unit).
Proof.
  destruct images as [|im images]; [apply journals_ret|]. unfold record_update_in_place_batch. generalize (im :: images). clear im images. intros images.
  eapply journals_logs; [apply logs_batch|].
  set (f := fun '(key, old_image, new_image, loc) => mkWal 0 own UpdateInPlace tid key (encode_physical_loc loc.1 loc.2 ++ old_image) (encode_physical_loc loc.1 loc.2 ++ new_image)).
  set (g := fun '(_, old_image, _, loc) => UndoUpdateInPlace loc.1 loc.2 old_image).
  assert (Hg : g <$> images = images ≫= fun i => [g i]).
  { clear. induction images as [|i images IH]; [done|]. by rewrite fmap_cons, bind_cons, IH. }
  rewrite Hg. apply records_batch. intros [[[k old] new] [pg i]] l Hr _. apply Forall_cons in Hr as [[Hp Hi] _]. cbn [fst snd] in *.
  apply records_one; [done|done|]. unfold heap_recovery_ops. cbn [with_lsn entry_type f old_value]. rewrite decode_encode_loc by done.
  cbn [fst snd]. by rewrite drop_loc.
Qed.

Lemma journals_insert_record tid k v pg i : journals own (log_change (record_insert own tid k v pg i) : Stmt St unit).
Proof.
  apply journals_change; [done|done|]. intros l [Hp Hi]. unfold heap_recovery_ops. cbn [with_lsn entry_type new_value]. by rewrite decode_encode_loc.
Qed.

Lemma journals_delete_record tid k v pg i : journals own (log_change (record_delete own tid k v pg i) : Stmt St unit).
Proof.
  apply journals_change; [done|done|]. intros l [Hp Hi]. unfold heap_recovery_ops. cbn [with_lsn entry_type old_value]. by rewrite decode_encode_loc.
Qed.

Hint Resolve journals_ret journals_fail journals_heap journals_store journals_hint journals_page_writes journals_page_deletes
  journals_update_batch journals_insert_record journals_delete_record journals_bind : journals.

Lemma journals_txn active_set : journals own (stmt_txn_id active_set : Stmt St Z).
Proof. unfold stmt_txn_id. destruct (active_txn_id active_set); auto with journals. Qed.
Hint Resolve journals_txn : journals.

Lemma journals_delete_rows active_set td rids : journals own (delete_rows_batch own active_set td rids : Stmt St Z).
Proof. destruct rids; cbn [delete_rows_batch]; auto 10 with journals. Qed.
Lemma journals_insert_rows active_set fuel td rows : journals own (insert_rows_batch own active_set fuel td rows : Stmt St _).
Proof. destruct rows; cbn [insert_rows_batch]; auto 10 with journals. Qed.
Hint Resolve journals_delete_rows journals_insert_rows : journals.

Lemma journals_update_row active_set fuel td r d hint : journals own (update_encoded_row_with_hint own active_set fuel td r d hint : Stmt St _).
Proof.
  unfold update_encoded_row_with_hint. apply journals_bind; [auto with journals|]. intros [old|]; [|auto with journals].
  do 3 (apply journals_bind; [auto with journals|intros ?]). apply journals_bind; [|auto with journals].
  destruct hint; auto with journals.
Qed.
Hint Resolve journals_update_row : journals.

Lemma journals_preserve active_set fuel td t prepared : forall results images hint,
  journals own (preserve_loop own active_set fuel td t prepared results images hint : Stmt St _).
Proof.
  induction prepared as [|[r d] prepared IH]; intros results images hint; cbn [preserve_loop]; [auto with journals|].
  destruct results as [|[old|] results]; [auto with journals| |auto 10 with journals].
  destruct (build_in_place_tuple_image old d t); auto with journals.
Qed.
Hint Resolve journals_preserve : journals.

Lemma journals_statement active_set fuel td stmt : journals own (run_statement own active_set fuel td stmt : Stmt St unit).
Proof.
  destruct stmt as [d hint|rows|rows zm|rids|r d hint|rids rows|prepared hint]; cbn [run_statement]; (apply journals_bind; [|auto with journals]).
  - unfold insert_row_with_ctx. auto 10 with journals.
  - auto with journals.
  - destruct rows; cbn [insert_rows_batch_with_ctx]; auto 10 with journals.
  - auto with journals.
  - auto with journals.
  - destruct rids; cbn [update_rows_batch]; auto 10 with journals.
  - destruct prepared; cbn [apply_prepared_updates_preserve_rid]; auto 10 with journals.
Qed.
End Journals.

(** ** Transactions on a table *)

Section Transactions.
Context {St : Type} {C : Crc32c} {CR : Crc32cRange C} {E : StorageEngine St} {L : StorageLaws St} {SI : SetIter}.
Context (own : Z) (table_def : TableDef).
Let root := td_root_page_id table_def.

Lemma statements_journal s stmts s' : statements (St := St) own table_def s stmts s' ->
  exists recs ops, ss_wal s' = ss_wal s ++ recs /\ ss_undo s' = ss_undo s ++ ops /\
    (Forall in_range ops -> Forall counted recs -> records own recs ops).
Proof.
  induction 1 as [s|s s1 s2 active_set fuel ps stmt stmts _ _ _ Hrun _ IH].
  - exists [], []. rewrite !app_nil_r. split_and!; [done..|]. intros _ _. apply records_nil.
  - destruct (journals_statement own active_set fuel table_def stmt s _ s1 Hrun) as (r1 & o1 & W1 & U1 & R1).
    destruct IH as (r2 & o2 & W2 & U2 & R2). exists (r1 ++ r2), (o1 ++ o2). rewrite W2, W1, U2, U1, !app_assoc. split_and!; [done..|].
    rewrite !Forall_app. intros [? ?] [? ?]. by apply records_app; auto.
Qed.

(** The pages of the engine have numbers of 64 bits. *)
Definition page_ids (s : St) : Prop := forall pg, is_Some (st_page s pg) -> pg < 2 ^ 64.

Lemma ready_in_range (s : St) op : st_wf s -> page_ids s -> ready (st_page s) op -> in_range op.
Proof.
  intros Hwf Hid Hr. unfold ready in Hr. unfold in_range. destruct (target op) as [[pg i]|] eqn:Ht; [|done]. destruct Hr as (p & Hp & Hh & Hr).
  pose proof (ready_range _ _ _ _ Ht Hr). pose proof (num_slots_range p (proj1 Hh)). destruct (law_valid _ _ _ Hwf Hp) as [? _].
  assert (pg < 2 ^ 64) by (apply Hid; by eexists). split; [split; lia|unfold in_u16; lia].
Qed.

(** The statements of a transaction extend a history, when they keep off the rows that
    the others have changed. *)
Lemma statements_history s stmts s' es r recs ops :
  db_history (io_store (ss_io s)) es r -> own ∈ rn_active r -> rn_aside r = batch_pages (io_batch (ss_io s)) -> io_wf (ss_io s) ->
  statements own table_def s stmts s' -> ss_wal s' = ss_wal s ++ recs -> ss_undo s' = ss_undo s ++ ops ->
  page_ids (io_store (ss_io s')) -> Forall counted recs ->
  (forall x u, u ≠ own -> holds u (rn_ops r) x -> forall op, op ∈ ops -> target op ≠ Some x) ->
  stepped root s s' ops /\
  db_history (io_store (ss_io s')) (es ++ recs)
    (mkRunning (rn_active r) (rn_ops r ++ (pair own <$> ops)) (rn_max r) (rn_db r) (batch_pages (io_batch (ss_io s')))).
Proof.
  intros Hh Hown Hb Hwf Hst Hw Hu Hid Hc Hlock. destruct (statements_stepped own table_def _ _ _ Hwf Hst) as [ops' Hsp].
  assert (ops' = ops) as -> by (pose proof (sp_undo _ _ _ _ Hsp) as Hu'; rewrite Hu in Hu'; by apply app_inv_head in Hu').
  split; [done|]. destruct (statements_journal _ _ _ Hst) as (recs1 & ops1 & Hw1 & Hu1 & Hrec).
  rewrite Hw in Hw1. rewrite Hu in Hu1. apply app_inv_head in Hw1 as <-. apply app_inv_head in Hu1 as <-.
  destruct Hsp as [Hwf' _ Hf _]. assert (Hwfs' : st_wf (io_store (ss_io s'))) by apply Hwf'.
  apply (db_change (io_store (ss_io s))); [done|done|done|rewrite Hb; exact Hf| |done]. apply Hrec; [|done]. apply Forall_forall. intros op Hop.
  apply (ready_in_range (io_store (ss_io s'))); [done|done|].
  by apply (ready_hide (batch_pages (io_batch (ss_io s')))), (fw_ready _ _ _ Hf).
Qed.

Context {F : StorageFlush St} {FL : FlushLaws St} {T : ClusteredTree St}.

End Transactions.

(** ** Opening a database after a crash *)

Section Opening.
Context {St : Type} {C : Crc32c} {CR : Crc32cRange C} {E : StorageEngine St} {L : StorageLaws St}.
Context {F : StorageFlush St} {FL : FlushLaws St} {T : ClusteredTree St}.

End Opening.

(** *** Witnesses *)

#[local] Existing Instance crc32c_ref.
#[local] Existing Instance crc32c_ref_range.
#[local] Existing Instance set_iter_elements.

Definition no_clustered {St} : ClusteredTree St := {|
  delete_physical_by_key _ _ := io_fail BTreeCorrupted;
  restore_exact_row_image _ _ _ _ := io_fail BTreeCorrupted;
  lookup_physical _ _ := io_fail BTreeCorrupted
|}.
#[local] Existing Instance no_clustered.

(** A database whose page 2 is a table, and the table with a row of transaction 5. *)
Definition empty_db : option MemoryStorage :=
  let! s := mem_new in
  match mem_alloc_page s PtData with Some (Ok _, s) => Some s | _ => None end.
Definition sample_db : option MemoryStorage :=
  let! s := empty_db in
  match insert_at_tail s 2 [1; 2; 3] 5 with Some (Ok _, s) => Some s | _ => None end.

Lemma empty_db_spec : exists s, empty_db = Some s /\ st_wf s /\ page_ids s /\ st_page s 0 = Some (page_new PtMeta 0) /\
  st_page s 2 = Some (page_new PtData 2) /\ heap_page (page_new PtData 2) /\ num_slots (page_new PtData 2) = 0 /\ free_space (page_new PtData 2) = 16320.
Proof.
  destruct mem_new_spec as (s0 & Hs0 & Hwf0 & Hp0). destruct (mem_alloc_spec s0 PtData Hwf0) as [_ Hsome].
  assert (Hid : (match mem_new with Some s => match mem_alloc_page s PtData with Some (Ok i, _) => Some i | _ => None end | None => None end) = Some 2) by (vm_compute; reflexivity).
  unfold empty_db. rewrite Hs0 in *. destruct (mem_alloc_page s0 PtData) as [[[i|e] s]|] eqn:Ha; [|done|done]. injection Hid as ->.
  destruct (Hsome (Ok 2) s eq_refl) as (pg & [= <-] & Hwf & _ & _ & _ & Hp). exists s.
  assert (Hids : page_ids s).
  { intros pg [p Hpg]. apply mem_page_Some in Hpg as (H0 & _ & Hlt). apply lookup_lt_Some in Hlt.
    rewrite <-(Nat2Z.id (length _)) in Hlt. rewrite (mw_pages _ Hwf) in Hlt.
    assert (in_u64 pg) as [_ ?] by (eapply fl_page_u64; [apply Hwf|lia]). done. }
  assert (Hu : in_u64 2) by widths. destruct (page_new_fields PtData 2 Hu) as (_ & Hm & _ & _ & Hn & _ & _ & Hfs & Hfe).
  destruct (page_new_heap_wf PtData 2) as [Hwfp _]; [done|].
  split_and!; [reflexivity|exact Hwf|exact Hids| |exact (Hp 2)|exact (conj Hwfp Hm)|exact Hn|unfold free_space; rewrite Hfs, Hfe; reflexivity].
  change (mem_page s 0 = Some (page_new PtMeta 0)). rewrite Hp. rewrite decide_False by lia. by rewrite Hp0.
Qed.

Lemma meta_checkpoint (s : MemoryStorage) : st_page s 0 = Some (page_new PtMeta 0) -> checkpoint_is s 0.
Proof. intros Hp. exists (page_new PtMeta 0). split; [exact Hp|vm_compute; reflexivity]. Qed.

Definition sample_tuple : Tuple := Some (mkRow 5 0 0 0, [1; 2; 3]).

Lemma sample_db_spec : exists s p, sample_db = Some s /\ st_wf s /\ page_ids s /\ st_page s 0 = Some (page_new PtMeta 0) /\
  st_page s 2 = Some p /\ heap_chain (st_page s) 2 [(2, p)] /\ chain_rows [(2, p)] = [((2, 0), sample_tuple)].
Proof.
  destruct empty_db_spec as (s0 & Hs0 & Hwf0 & Hid0 & Hp0 & Hp & Hh & Hn & Hfree). destruct sample_data as (Hd & Ht & Hl).
  destruct (insert_at_tail_spec s0 2 _ 5 [1; 2; 3] Hwf0 Hp Hh Ht Hd Hl) as (s & Hins & Hwf & Hmv); [rewrite Hfree; vm_compute; congruence|].
  rewrite Hn in Hmv. unfold sample_db. rewrite Hs0, Hins. destruct Hmv as [Hfr (q & p & Hq & _ & Hp' & Htd & HT)]. cbn [fst snd] in *.
  rewrite Hp in Hq. apply (inj Some) in Hq. subst q. exists s, p.
  assert (Hpage : forall pg, is_Some (st_page s pg) -> is_Some (st_page s0 pg)).
  { intros pg. destruct (decide (pg = 2)) as [->|Hne]; [by rewrite Hp|by rewrite Hfr]. }
  assert (Hnum : num_slots p = 1) by (rewrite (td_n _ _ _ Htd), Hn; reflexivity).
  assert (Hrows : chain_rows [(2, p)] = [((2, 0), sample_tuple)]).
  { rewrite chain_rows_one. unfold page_rows. rewrite Hnum. change (seqZ 0 1) with [0]. cbn [fmap list_fmap]. rewrite HT. reflexivity. }
  split_and!; [reflexivity|exact Hwf| | |exact Hp'| |exact Hrows].
  - intros pg Hpg. by apply Hid0, Hpage.
  - rewrite Hfr by lia. exact Hp0.
  - split; [done|done|apply NoDup_singleton|]. cbn [linked]. split_and!; [split; [lia|vm_compute; reflexivity]|exact Hp'|apply Htd| |done].
    assert (Hnx : chain_next_page (page_new PtData 2) = 0) by (vm_compute; reflexivity). cbn [next_of]. rewrite <-Hnx.
    apply reserved_next; [apply Hh|apply (td_reserved _ _ _ Htd)].
Qed.

(** Transaction 5 inserts the row and commits, and 6 begins. *)
Definition sample_log : list WalEntry :=
  [mkWal 1 5 Begin 0 [] [] []; with_lsn 2 (record_insert 5 3 [] [1; 2; 3] 2 0).1; mkWal 3 5 Commit 0 [] [] []; mkWal 4 6 Begin 0 [] [] []].

(** Checking that records are well-formed. *)
Definition bytes_okb (bs : bytes) : bool := forallb (fun b => (0 <=? b) && (b <? 2 ^ 8)) bs.
Definition wal_okb (e : WalEntry) : bool :=
  (0 <=? lsn e) && (lsn e <? 2 ^ 64) && (0 <=? txn_id e) && (txn_id e <? 2 ^ 64) && (0 <=? table_id e) && (table_id e <? 2 ^ 32)
  && bytes_okb (key e) && bytes_okb (old_value e) && bytes_okb (new_value e) && (zlen (key e) <? 2 ^ 16) && (serialized_len e <? 2 ^ 32).

Lemma bytes_okb_sound bs : bytes_okb bs = true -> bytes_ok bs.
Proof.
  unfold bytes_okb. rewrite forallb_forall. intros Hb. apply Forall_forall. intros b Hin%list_elem_of_In. specialize (Hb b Hin).
  apply andb_true_iff in Hb as [?%Z.leb_le ?%Z.ltb_lt]. unfold byte_ok. lia.
Qed.

Lemma wal_okb_sound es : forallb wal_okb es = true -> Forall wal_ok es.
Proof.
  rewrite forallb_forall. intros H. apply Forall_forall. intros e Hin%list_elem_of_In. specialize (H e Hin). unfold wal_okb in H.
  rewrite !andb_true_iff, !Z.leb_le, !Z.ltb_lt in H. destruct H as ((((((((((H1 & H2) & H3) & H4) & H5) & H6) & H7) & H8) & H9) & H10) & H11).
  split; try done; by apply bytes_okb_sound.
Qed.

Lemma sample_history : exists s r, db_history s sample_log r /\ checkpoint_is s 0 /\ rn_active r = {[6]} /\ rn_max r = 5 /\ rn_aside r = [] /\
  rn_db r (2, 0) = sample_tuple /\ row (st_page s) (2, 0) = Some sample_tuple.
Proof.
  destruct empty_db_spec as (s0 & Hs0 & Hwf0 & Hid0 & Hp0 & Hp & Hh & Hn & Hfree). destruct sample_data as (Hd & Ht & Hl).
  destruct (insert_at_tail_spec s0 2 _ 5 [1; 2; 3] Hwf0 Hp Hh Ht Hd Hl) as (s & Hins & Hwf & Hmv); [rewrite Hfree; vm_compute; congruence|].
  rewrite Hn in *. pose proof (row_set _ _ _ _ (2, 0) Hmv) as Hrow. rewrite decide_True in Hrow by done.
  assert (Hdo : do_action s0 5 (HInsert 2 [1; 2; 3]) = Some (Ok (Some (UndoInsert 2 0)), s)) by (cbn [do_action]; by rewrite Hins).
  destruct (insert_changed s0 5 2 [1; 2; 3] (Ok (Some (UndoInsert 2 0))) s Hwf0) as [x Hch]; [split; [exact Ht|]; split; [by eexists|by split]|exact Hdo|].
  pose proof (changed_forward s0 s (HInsert 2 [1; 2; 3]) (UndoInsert 2 0) x Hch) as Hf.
  pose proof (db_begin s0 [] _ (mkWal 1 5 Begin 0 [] [] []) (db_start s0 [] Hwf0) eq_refl ltac:(intros e' Hin; by apply not_elem_of_nil in Hin)) as H1.
  assert (Hrec : records 5 [with_lsn 2 (record_insert 5 3 [] [1; 2; 3] 2 0).1] [UndoInsert 2 0]) by (split; [repeat constructor|vm_compute; reflexivity]).
  pose proof (db_change s0 s _ _ 5 _ _ [] H1 ltac:(cbn; set_solver) Hwf (forward_hide [] _ _ _ Hf ltac:(by intros op y _ _ ?%not_elem_of_nil)) Hrec ltac:(cbn; by intros y u _ ?%Exists_nil)) as H2.
  pose proof (db_commit s _ _ (mkWal 3 5 Commit 0 [] [] []) H2 eq_refl ltac:(cbn; set_solver)) as H3.
  pose proof (db_begin s _ _ (mkWal 4 6 Begin 0 [] [] []) H3 eq_refl) as H4.
  eexists s, _. split; [apply H4; cbn; intros e' Hin; repeat (apply elem_of_cons in Hin as [-> | Hin]; [done|]); by apply not_elem_of_nil in Hin|].
  split; [apply meta_checkpoint; rewrite (sr_frame _ _ _ _ Hmv) by (cbn; lia); exact Hp0|].
  cbn [rn_active rn_max rn_db rn_ops app]. split_and!; [set_solver|reflexivity|reflexivity| |exact Hrow].
  unfold publish. rewrite decide_True; [unfold contents; by rewrite row_hide, decide_False, Hrow by apply not_elem_of_nil|]. apply Exists_cons. left. done.
Qed.


(** Transaction 7 begins and deletes the row of the sample table. *)
Definition sample_session (st : MemoryStorage) : Session MemoryStorage :=
  mkSession (mkIo None st) [] [mkWal 1 7 Begin 0 [] [] []] 2.
Definition sample_delete (s : Session MemoryStorage) : option (Result Z * Session MemoryStorage) :=
  delete_rows_batch 7 {[7]} (mkTable 3 2) [(2, 0)] s.

Lemma sample_delete_records s :
  sample_db = Some (io_store (ss_io s)) -> s = sample_session (io_store (ss_io s)) ->
  forall s', sample_delete s = Some (Ok 1, s') ->
  ss_wal s' = [mkWal 1 7 Begin 0 [] [] []; mkWal 2 7 PageDelete 3 [2; 0; 0; 0; 0; 0; 0; 0] [] [1; 0; 0; 0]].
Proof.
  intros Hs Heq s' Hd.
  assert (Hc : (match sample_db with
                | Some st => match sample_delete (sample_session st) with Some (Ok _, s') => Some (ss_wal s') | _ => None end
                | None => None end) =
    Some [mkWal 1 7 Begin 0 [] [] []; mkWal 2 7 PageDelete 3 [2; 0; 0; 0; 0; 0; 0; 0] [] [1; 0; 0; 0]]) by (vm_compute; reflexivity).
  rewrite Hs, <-Heq, Hd in Hc. by injection Hc.
Qed.

