(* ===== verification/RecoveryFlaws.v ===== *)
(** * Where recovery loses or revives rows

    Executions of crates/axiomdb-wal/src/recovery.rs and its callers that end with rows
    that no committed transaction gave: the scan starts at the checkpoint, and so does the
    search for the highest committed transaction; a transaction that was undone leaves no
    trace in the log, and is undone again; and the records of a transaction reach the file
    only when some transaction commits. *)

From S2P Require Import Prelude SlotBitmap Page FreeList Heap PageRows WalEntry Storage PageIo Undo.
From S2P Require Import ZoneMap HeapChain HeapBatch HeapUpdate TableWrite TableForward TableRollback.
From S2P Require Import WalLog WalWriter Txn WalClustered Recovery RecoveryHistory.

(** ** Logs *)

(** A record without contents, and the records of single-row changes. *)
Definition control (ty : EntryType) (l t : Z) : WalEntry := mkWal l t ty 0 [] [] [].
Definition insert_rec (l t pg i : Z) (data : bytes) : WalEntry := with_lsn l (record_insert t 1 [] data pg i).1.
Definition delete_rec (l t pg i : Z) (data : bytes) : WalEntry := with_lsn l (record_delete t 1 [] data pg i).1.
Definition update_rec (l t pg i : Z) (old new : bytes) : WalEntry := with_lsn l (record_update_in_place t 1 [] old new pg i).1.

Section Running.
Context {St : Type} {C : Crc32c} {CR : Crc32cRange C} {E : StorageEngine St} {L : StorageLaws St}.
Context {F : StorageFlush St} {FL : FlushLaws St} {T : ClusteredTree St}.

(** Recovery with nothing to undo leaves the pages. *)
Lemma recover_idle fuel wal b (s : St) l sc :
  st_wf s -> checkpoint_is s l -> scan_log scan_entry wal l scan_init = Some (Ok sc) ->
  undone (sc_active_txns sc) (sc_timeline sc) = [] ->
  exists s', recover fuel wal (mkIo b s) =
      Some (Ok (mkRecovery (sc_max_committed sc) (wrap32 (Z.of_nat (size (sc_active_txns sc)))) l (current_roots sc)), mkIo b s') /\
    st_wf s' /\ forall pg, st_page s' pg = st_page s pg.
Proof.
  intros Hwf Hck Hsc Hops. destruct (law_flush s Hwf) as (s2 & Hfl & Hwf2 & Hpg). exists s2. split_and!; [|done|done].
  unfold recover, io_bind, last_checkpoint_lsn. rewrite read_checkpoint_run with (l := l) by done. unfold lift_result. rewrite Hsc.
  rewrite (undo_timeline_run fuel (sc_active_txns sc) (current_roots sc) b [] (rev (sc_timeline sc)) s s); [|by rewrite undone_rev, Hops|done].
  unfold io_flush. cbn [io_store io_batch]. by rewrite Hfl.
Qed.

(** Opening, from what recovery does. *)
Lemma open_run fuel start es tail b (s s' : St) res :
  in_u64 start -> Forall wal_ok es -> stops tail ->
  recover fuel (layout start es tail) (mkIo b s) = Some (Ok res, mkIo b s') ->
  exists w, open_with_recovery fuel (layout start es tail) (mkIo b s) =
    Some (Ok (txn_open (rr_max_committed res) (rr_clustered_roots res) false Strict, w, res), mkIo b s').
Proof.
  intros Hs Hok Ht Hr. destruct (cw_open_layout start es tail Hs Hok Ht) as (w & Hw & _). exists w.
  unfold open_with_recovery, io_bind. rewrite Hr. unfold lift_result. by rewrite Hw.
Qed.

Lemma scan_checkpoints es sc : Forall (fun e => entry_type e = Checkpoint) es -> scan_loop scan_entry (Ok <$> es) sc = Ok sc.
Proof. induction 1 as [|e es He _ IH]; [done|]. cbn [fmap list_fmap scan_loop]. unfold scan_entry. by rewrite He. Qed.

(** C37: a checkpoint makes recovery forget which transactions have committed.  When the
    log holds nothing after the last checkpoint but the record of the checkpoint, or not
    even that because it was rotated, opening the database finds nothing to undo and
    leaves every page as it is, but takes 0 for the highest committed transaction,
    whatever the log holds before the checkpoint: no snapshot sees any row, and the next
    transaction is number 1 again. *)
Theorem checkpoint_forgets_commits (s : St) old rest start tail ck fuel b :
  st_wf s -> checkpoint_is s ck -> in_u64 start -> Forall wal_ok (old ++ rest) -> stops tail ->
  Forall (fun e => lsn e < ck) old -> Forall (fun e => ck <= lsn e) rest -> Forall (fun e => entry_type e = Checkpoint) rest ->
  exists s' m w res, open_with_recovery fuel (layout start (old ++ rest) tail) (mkIo b s) = Some (Ok (m, w, res), mkIo b s') /\
    (forall pg, st_page s' pg = st_page s pg) /\ rr_undone_txns res = 0 /\ (begin_alloc m).1 = 1 /\
    forall h, 1 <= txn_id_created h -> is_visible h (snapshot m) = false.
Proof.
  intros Hwf Hck Hs Hok Ht Hold Hrest Hty.
  assert (Hsc : scan_log scan_entry (layout start (old ++ rest) tail) ck scan_init = Some (Ok scan_init)).
  { by rewrite scan_log_layout, filter_window, scan_checkpoints. }
  destruct (recover_idle fuel _ b s ck scan_init Hwf Hck Hsc eq_refl) as (s' & Hr & Hwf' & Hpg).
  destruct (open_run fuel start _ tail b s s' _ Hs Hok Ht Hr) as (w & Ho). cbn [rr_max_committed rr_clustered_roots] in Ho.
  eexists s', _, w, _. split; [exact Ho|]. split_and!; [done|done|done|]. intros h Hh. apply not_true_is_false. rewrite is_visible_spec.
  intros [Hsee _]. revert Hsee. unfold sees. cbn. lia.
Qed.

(** Deleting a live row. *)
Lemma chain_delete_set (s : St) pg i u t :
  st_wf s -> on_heap (st_page s) pg -> row (st_page s) (pg, i) = Some (Some u) -> in_u64 t ->
  exists s', chain_delete s pg i t = Some (Ok tt, s') /\ st_wf s' /\ set_row (st_page s) (st_page s') (pg, i) (Some (set_deleted t u)).
Proof.
  intros Hwf (p & Hp & Hh) (q & Hq & Hi & Hu)%row_Some Ht. cbn [fst snd] in *. assert (q = p) as -> by congruence.
  destruct (load_page_spec s pg p Hwf Hp (proj2 Hh)) as [Hld _]. unfold chain_delete, with_page. rewrite Hld.
  destruct (delete_tuple_spec p i t (proj1 Hh) ltac:(lia) Ht) as (r & p' & -> & _ & Hsp).
  rewrite (proj2 (Z.leb_gt _ _)), Hu in Hsp by lia. destruct Hsp as (-> & Hup & Hc). cbn [then_checksum].
  rewrite update_checksum_id by (done || apply hw_page, Hup).
  destruct (write_moved s pg i p p' Hwf Hp Hh (updated_touched _ _ _ _ Hh Hi Hup) Hc) as (s' & Hw & Hwf' & Hmv). rewrite Hw.
  exists s'. rewrite (up_self _ _ _ _ Hup) in Hmv. by split_and!.
Qed.

Lemma ready_delete (s : St) pg i u : on_heap (st_page s) pg -> row (st_page s) (pg, i) = Some (Some u) -> ready (st_page s) (UndoDelete pg i).
Proof.
  intros (p & Hp & Hh) (q & Hq & Hi & Hu)%row_Some. cbn [fst snd] in *. assert (q = p) as -> by congruence.
  exists p. split_and!; [done|done|]. cbn [undo_ready]. apply live_tuple; [apply Hh|done|by rewrite Hu].
Qed.

Lemma insert_first_one op : insert_first [op].
Proof.
  intros l1 pg i l2 Heq o Ho. apply (f_equal length) in Heq as Hl. rewrite length_app in Hl. destruct l1; [by apply not_elem_of_nil in Ho|cbn in Hl; lia].
Qed.

(** Undoing a deletion again. *)
Lemma recover_delete fuel wal b (s : St) sc t pg i u :
  st_wf s -> checkpoint_is s 0 -> pg ≠ 0 -> on_heap (st_page s) pg -> row (st_page s) (pg, i) = Some (Some u) ->
  scan_log scan_entry wal 0 scan_init = Some (Ok sc) -> sc_active_txns sc = {[t]} ->
  undone (sc_active_txns sc) (sc_timeline sc) = [RDelete pg i] ->
  exists s', recover fuel wal (mkIo b s) = Some (Ok (mkRecovery (sc_max_committed sc) 1 0 (current_roots sc)), mkIo b s') /\
    st_wf s' /\ checkpoint_is s' 0 /\ on_heap (st_page s') pg /\ row (st_page s') (pg, i) = Some (Some (set_deleted 0 u)).
Proof.
  intros Hwf Hck Hne Hh Hrow Hsc Ha Hops.
  destruct (recover_run fuel wal b s 0 sc [UndoDelete pg i] Hwf Hck Hsc Hops) as (s' & Hr & Hwf' & Hlk & Hfr & Hrows).
  { intros op ->%list_elem_of_singleton. by eapply ready_delete. }
  { apply insert_first_one. }
  exists s'. rewrite Ha, size_singleton in Hr. split_and!; [exact Hr|done| | |].
  - destruct Hck as (p & Hp & Hl). exists p. split; [|done]. rewrite Hfr; [done|]. intros op j ->%list_elem_of_singleton [= ? _]. done.
  - destruct Hh as (p & Hp & Hh). specialize (Hlk pg). rewrite Hp in Hlk. destruct (st_page s' pg) as [p'|] eqn:Hp'; [|done].
    exists p'. split; [done|]. by apply Hlk.
  - rewrite Hrows, Hrow. cbn [fmap option_fmap option_map rev app undo_values target]. by rewrite decide_True.
Qed.
End Running.

(** ** A transaction undone twice *)

(** [t] deletes a row and does not finish; [c] commits.  After a restart, transaction
    [c + 1] deletes the row and commits. *)
Definition unfinished_log (t c pg i : Z) (data : bytes) : list WalEntry :=
  [control Begin 1 t; delete_rec 2 t pg i data; control Begin 3 c; control Commit 4 c].
Definition deleted_log (t c pg i : Z) (data : bytes) : list WalEntry :=
  unfinished_log t c pg i data ++ [control Begin 5 (c + 1); delete_rec 6 (c + 1) pg i data; control Commit 7 (c + 1)].

Lemma heap_delete_rec l t pg i data : in_u64 pg -> in_u16 i -> heap_recovery_ops (delete_rec l t pg i data) = [RDelete pg i].
Proof. intros Hp Hi. unfold heap_recovery_ops. cbn [delete_rec with_lsn record_delete fst entry_type old_value]. by rewrite decode_encode_loc. Qed.

Lemma scan_data e sc : heap_record e -> txn_id e ∈ sc_active_txns sc -> scan_entry e sc = Ok (push_ops (txn_id e) (heap_recovery_ops e) sc).
Proof. intros Hh Ht. unfold scan_entry. rewrite bool_decide_eq_true_2 by done. unfold heap_record in Hh. by destruct (entry_type e). Qed.

Lemma scan_unfinished t c pg i data : in_u64 pg -> in_u16 i -> 0 < t < c ->
  exists sc, scan_loop scan_entry (Ok <$> unfinished_log t c pg i data) scan_init = Ok sc /\
    sc_active_txns sc = {[t]} /\ sc_timeline sc = [(t, RDelete pg i)] /\ sc_max_committed sc = c.
Proof.
  intros Hp Hi Hc. cbn [unfinished_log fmap list_fmap scan_loop]. unfold scan_entry at 1. cbn [control entry_type txn_id].
  rewrite scan_data; [|done|cbn; set_solver]. rewrite heap_delete_rec by done. unfold scan_entry at 1. cbn [control entry_type txn_id].
  unfold scan_entry at 1. cbn [control entry_type txn_id]. eexists. split; [reflexivity|]. cbn. split_and!; [|done|lia].
  apply set_eq. intros x. set_unfold. split; [|intros ->]; lia.
Qed.

Lemma scan_deleted t c pg i data : in_u64 pg -> in_u16 i -> 0 < t < c ->
  exists sc, scan_loop scan_entry (Ok <$> deleted_log t c pg i data) scan_init = Ok sc /\
    sc_active_txns sc = {[t]} /\ sc_timeline sc = [(t, RDelete pg i); (c + 1, RDelete pg i)] /\ sc_max_committed sc = c + 1.
Proof.
  intros Hp Hi Hc. destruct (scan_unfinished t c pg i data Hp Hi Hc) as (sc & Hsc & Ha & Htl & Hm).
  unfold deleted_log. rewrite scan_loop_app, Hsc. cbn [fmap list_fmap scan_loop]. unfold scan_entry at 1. cbn [control entry_type txn_id].
  rewrite scan_data; [|done|cbn; set_solver]. rewrite heap_delete_rec by done. unfold scan_entry at 1. cbn [control entry_type txn_id].
  eexists. split; [reflexivity|]. cbn. rewrite Ha, Htl, Hm. split_and!; [|done|lia].
  apply set_eq. intros x. set_unfold. split; [|intros ->]; lia.
Qed.

Lemma undone_own t ops : undone {[t]} (pair t <$> ops) = ops.
Proof.
  unfold undone. rewrite filter_all_in; [apply pair_snd|]. intros p Hp. apply list_elem_of_fmap in Hp as (o & -> & _). by apply elem_of_singleton.
Qed.

Lemma deleted_undone t c pg i : t ≠ c + 1 -> undone {[t]} [(t, RDelete pg i); (c + 1, RDelete pg i)] = [RDelete pg i].
Proof.
  intros Hne. unfold undone. rewrite filter_cons_True by set_solver. rewrite filter_cons_False by (cbn; set_solver). done.
Qed.

(** [t] inserts a row, rewrites it in place, and does not finish. *)
Definition updated_log (t pg i : Z) (data old new : bytes) : list WalEntry :=
  [control Begin 1 t; insert_rec 2 t pg i data; update_rec 3 t pg i old new].

Section Twice.
Context {St : Type} {C : Crc32c} {CR : Crc32cRange C} {E : StorageEngine St} {L : StorageLaws St}.
Context {F : StorageFlush St} {FL : FlushLaws St} {T : ClusteredTree St}.

(** What the logs below need to be read back. *)
Definition row_logged (start : Z) (es : list WalEntry) (tail : bytes) : Prop := in_u64 start /\ Forall wal_ok es /\ stops tail.

Lemma filter_zero es : Forall wal_ok es -> filter (fun e => 0 <= lsn e) es = es.
Proof. intros Hok. apply filter_all_in. intros e He. rewrite Forall_forall in Hok. apply (Hok e He). Qed.

Lemma scan_log_all start es tail sc : row_logged start es tail ->
  scan_loop scan_entry (Ok <$> es) scan_init = Ok sc -> scan_log scan_entry (layout start es tail) 0 scan_init = Some (Ok sc).
Proof. intros (Hs & Hok & Ht) Hsc. by rewrite scan_log_layout, filter_zero, Hsc. Qed.

(** C38: recovery undoes committed changes.  A transaction deletes a row and does not
    finish while another one commits.  Opening the database restores the row, but leaves
    no record that the transaction has ended.  A new transaction then deletes the row and
    commits: the next time the database is opened, recovery undoes the first transaction
    again, and the row whose deletion was committed is back. *)
Theorem recovery_undoes_committed (s : St) t c pg i u data start tail1 tail2 fuel b :
  st_wf s -> checkpoint_is s 0 -> pg ≠ 0 -> in_u64 pg -> in_u16 i -> 0 < t < c -> in_u64 (c + 1) ->
  on_heap (st_page s) pg -> row (st_page s) (pg, i) = Some (Some u) ->
  row_logged start (unfinished_log t c pg i data) tail1 -> row_logged start (deleted_log t c pg i data) tail2 ->
  exists s1 s2 s3 m1 m3 w1 w3 res1 res3,
    open_with_recovery fuel (layout start (unfinished_log t c pg i data) tail1) (mkIo b s) = Some (Ok (m1, w1, res1), mkIo b s1) /\
    row (st_page s1) (pg, i) = Some (Some (set_deleted 0 u)) /\ (begin_alloc m1).1 = c + 1 /\
    chain_delete s1 pg i (c + 1) = Some (Ok tt, s2) /\ row (st_page s2) (pg, i) = Some (Some (set_deleted (c + 1) u)) /\
    open_with_recovery fuel (layout start (deleted_log t c pg i data) tail2) (mkIo b s2) = Some (Ok (m3, w3, res3), mkIo b s3) /\
    snapshot m3 = mkSnap (c + 1 + 1) 0 ∅ /\ row (st_page s3) (pg, i) = Some (Some (set_deleted 0 u)).
Proof.
  intros Hwf Hck Hne Hp Hi Hc Hc1 Hh Hrow Hl1 Hl2.
  destruct (scan_unfinished t c pg i data Hp Hi Hc) as (sc1 & Hsc1 & Ha1 & Htl1 & Hm1).
  destruct (scan_deleted t c pg i data Hp Hi Hc) as (sc3 & Hsc3 & Ha3 & Htl3 & Hm3).
  destruct (recover_delete fuel _ b s sc1 t pg i u Hwf Hck Hne Hh Hrow (scan_log_all _ _ _ _ Hl1 Hsc1) Ha1) as (s1 & Hr1 & Hwf1 & Hck1 & Hh1 & Hrow1).
  { rewrite Ha1, Htl1. exact (undone_own t [RDelete pg i]). }
  destruct (chain_delete_set s1 pg i _ (c + 1) Hwf1 Hh1 Hrow1 Hc1) as (s2 & Hd & Hwf2 & Hmv).
  assert (Hrow2 : row (st_page s2) (pg, i) = Some (Some (set_deleted (c + 1) u))).
  { rewrite (row_set _ _ _ _ _ Hmv), decide_True by done. destruct u as [[? ? ? ?] ?]. done. }
  assert (Hck2 : checkpoint_is s2 0).
  { destruct Hck1 as (p & Hp0 & Hl). exists p. split; [|done]. rewrite (sr_frame _ _ _ _ Hmv); [done|]. cbn. lia. }
  assert (Hh2 : on_heap (st_page s2) pg).
  { destruct (sr_page _ _ _ _ Hmv) as (q & q' & _ & _ & Hq' & Htd & _). exists q'. split; [done|apply Htd]. }
  destruct (recover_delete fuel _ b s2 sc3 t pg i _ Hwf2 Hck2 Hne Hh2 Hrow2 (scan_log_all _ _ _ _ Hl2 Hsc3) Ha3) as (s3 & Hr3 & _ & _ & _ & Hrow3).
  { rewrite Ha3, Htl3. apply deleted_undone. lia. }
  destruct Hl1 as (L1 & L2 & L3), Hl2 as (_ & L5 & L6).
  destruct (open_run fuel start _ tail1 b s s1 _ L1 L2 L3 Hr1) as (w1 & Ho1). destruct (open_run fuel start _ tail2 b s2 s3 _ L1 L5 L6 Hr3) as (w3 & Ho3).
  eexists s1, s2, s3, _, _, w1, w3, _, _. split; [exact Ho1|]. split_and!; [exact Hrow1|cbn; lia|exact Hd|exact Hrow2|exact Ho3|cbn; unfold snapshot; cbn; by rewrite Hm3|].
  rewrite Hrow3. destruct u as [[? ? ? ?] ?]. done.
Qed.

Lemma restore_dead p i img : heap_wf p -> 0 <= i < num_slots p -> tuple_at p i = None ->
  restore_tuple_image p i img = Some (Err (AlreadyDeleted (hdr_page_id p) i), p).
Proof.
  intros Hw Hi Ht. unfold restore_tuple_image, restore_tuple_image_no_checksum. rewrite (proj2 (Z.leb_gt _ _)) by lia.
  rewrite (read_slot_wf p Hw) by done. unfold tuple_at, tuple_of in Ht. by destruct (is_dead (slot_at p i)).
Qed.

Lemma scan_updated t pg i data old new : in_u64 pg -> in_u16 i ->
  exists sc, scan_loop scan_entry (Ok <$> updated_log t pg i data old new) scan_init = Ok sc /\
    sc_active_txns sc = {[t]} /\ sc_timeline sc = [(t, RInsert pg i); (t, RUpdateInPlace pg i old)] /\ sc_max_committed sc = 0.
Proof.
  intros Hp Hi. cbn [updated_log fmap list_fmap scan_loop]. unfold scan_entry at 1. cbn [control entry_type txn_id].
  rewrite scan_data; [|done|cbn; set_solver]. rewrite scan_data; [|done|cbn; set_solver].
  unfold heap_recovery_ops. cbn [insert_rec update_rec with_lsn record_insert record_update_in_place fst entry_type old_value new_value].
  rewrite !decode_encode_loc, drop_loc by done. eexists. split; [reflexivity|]. cbn. split_and!; [set_solver|done|done].
Qed.

(** C39: recovery cannot be run twice.  A transaction inserts a row, rewrites it in place
    and does not finish.  Opening the database succeeds: the old image is restored and the
    slot is marked dead.  The log is the same the next time the database is opened, and
    restoring the image fails because the slot is dead: the database cannot be opened any
    more. *)
Theorem second_recovery_fails (s : St) t pg i data old new start tail fuel b :
  st_wf s -> checkpoint_is s 0 -> pg ≠ 0 -> in_u64 pg -> in_u16 i ->
  ready (st_page s) (UndoInsert pg i) -> ready (st_page s) (UndoUpdateInPlace pg i old) ->
  row_logged start (updated_log t pg i data old new) tail ->
  let wal := layout start (updated_log t pg i data old new) tail in
  exists s1 m w res pid,
    open_with_recovery fuel wal (mkIo b s) = Some (Ok (m, w, res), mkIo b s1) /\ row (st_page s1) (pg, i) = Some None /\
    open_with_recovery fuel wal (mkIo b s1) = Some (Err (AlreadyDeleted pid i), mkIo b s1).
Proof.
  intros Hwf Hck Hne Hp Hi Hr1 Hr2 Hl wal. destruct (scan_updated t pg i data old new Hp Hi) as (sc & Hsc & Ha & Htl & Hm).
  pose proof (scan_log_all _ _ _ _ Hl Hsc) as Hlog. fold wal in Hlog.
  destruct (recover_run fuel wal b s 0 sc [UndoInsert pg i; UndoUpdateInPlace pg i old] Hwf Hck Hlog) as (s1 & Hr & Hwf1 & Hlk & Hfr & Hrows).
  { rewrite Ha, Htl. exact (undone_own t [RInsert pg i; RUpdateInPlace pg i old]). }
  { intros op [-> | ->%list_elem_of_singleton]%elem_of_cons; done. }
  { intros l1 pg' i' l2 Heq op Hop. destruct l1 as [|? [|? l1]]; [by apply not_elem_of_nil in Hop|by injection Heq|].
    apply (f_equal length) in Heq. rewrite length_app in Heq. cbn in Heq. lia. }
  destruct (ready_row _ _ (pg, i) Hr1 eq_refl) as [U HU].
  assert (Hrow : row (st_page s1) (pg, i) = Some None).
  { rewrite Hrows, HU. cbn [fmap option_fmap option_map rev app undo_values target]. by rewrite !decide_True. }
  destruct Hl as (L1 & L2 & L3). destruct (open_run fuel start _ tail b s s1 _ L1 L2 L3 Hr) as (w & Ho).
  pose proof Hrow as (p1 & Hp1 & Hi1 & HT1)%row_Some. cbn [fst snd] in *.
  assert (Hh1 : heap_page p1).
  { destruct Hr1 as (p & Hpp & Hh & _). specialize (Hlk pg). rewrite Hpp, Hp1 in Hlk. by apply Hlk. }
  destruct (load_page_spec s1 pg p1 Hwf1 Hp1 (proj2 Hh1)) as [Hld _].
  assert (Hck1 : checkpoint_is s1 0).
  { destruct Hck as (p & Hp0 & Hl0). exists p. split; [|done]. rewrite Hfr; [done|]. by intros op j [-> | ->%list_elem_of_singleton]%elem_of_cons [= ? _]. }
  eexists s1, _, w, _, (hdr_page_id p1). split; [exact Ho|]. split; [exact Hrow|].
  unfold open_with_recovery, recover, io_bind, last_checkpoint_lsn. rewrite read_checkpoint_run with (l := 0) by done.
  unfold lift_result. rewrite Hlog, Htl, Ha. cbn [rev app undo_timeline]. rewrite bool_decide_eq_true_2 by (by apply elem_of_singleton).
  cbn [undo_recovery_op]. unfold io_bind. rewrite load_checked_store, Hld, (restore_dead p1 i old (proj1 Hh1) Hi1 HT1). done.
Qed.
End Twice.

(** ** Changes whose records are not in the file *)

Section Unflushed.
Context {St : Type} {C : Crc32c} {CR : Crc32cRange C} {E : StorageEngine St} {L : StorageLaws St}.
Context {F : StorageFlush St} {FL : FlushLaws St} {T : ClusteredTree St}.

(** C40: a change reaches the pages before its record reaches the log file, and survives a
    crash.  Appending a record leaves the file as it is.  When every transaction in the
    file has ended, and the next transaction inserts a row and the process stops before
    anything is flushed, opening the database undoes nothing and keeps the row; the first
    transaction that then begins has the number of the one that was lost, and sees the row
    as its own. *)
Theorem unflushed_insert_reappears (s : St) old es r start tail ck fuel b pg data :
  db_history s es r -> rn_active r = ∅ -> 0 <= rn_max r -> in_u64 (rn_max r + 1) ->
  on_heap (st_page s) pg -> pg ≠ 0 -> bytes_ok data -> zlen data < 2 ^ 62 ->
  checkpoint_is s ck -> in_u64 start -> Forall wal_ok (old ++ es) -> stops tail ->
  Forall (fun e => lsn e < ck) old -> Forall (fun e => ck <= lsn e) es ->
  (forall e w, ws_file (cw_writer (wal_append e w).2) = ws_file (cw_writer w)) /\
  forall i s1, insert_at_tail s pg data (rn_max r + 1) = Some (Ok i, s1) ->
    exists s2 m w res, open_with_recovery fuel (layout start (old ++ es) tail) (mkIo b s1) = Some (Ok (m, w, res), mkIo b s2) /\
      rr_undone_txns res = 0 /\ (forall pg', st_page s2 pg' = st_page s1 pg') /\
      row (st_page s2) (pg, i) = Some (Some (mkRow (rn_max r + 1) 0 0 0, data)) /\ (begin_alloc m).1 = rn_max r + 1 /\
      forall iso, let '(conn, m') := begin_register iso (begin_alloc m).1 (begin_alloc m).2 in
        is_visible (mkRow (rn_max r + 1) 0 0 0) (active_snapshot conn m') = true.
Proof.
  intros Hh Hact Hm0 Hm1 (p & Hp & Hhp) Hne Hd Hlen Hck Hs Hok Ht Hold Hes. split; [done|]. intros i s1 Hins.
  destruct (db_history_inv s es r Hh) as (Hwf & _ & sc & Hsc & Hsi). pose proof Hhp as [Hw Hmg].
  assert (Hsp : st_wf s1 /\ set_row (st_page s) (st_page s1) (pg, i) (Some (mkRow (rn_max r + 1) 0 0 0, data))).
  { unfold insert_at_tail, with_page in Hins. destruct (load_page_spec s pg p Hwf Hp Hmg) as [Hld _]. rewrite Hld in Hins.
    pose proof (insert_tuple_spec p data _ Hw Hd Hm1 Hlen) as Hsp. cbv zeta in Hsp.
    destruct (free_space p <? _) eqn:Hf; [by rewrite Hsp in Hins|].
    destruct (insert_at_tail_spec s pg p _ data Hwf Hp Hhp Hm1 Hd Hlen) as (s' & Hins' & Hwf' & Hmv); [lia|].
    unfold insert_at_tail, with_page in Hins'. rewrite Hld in Hins'. rewrite Hins' in Hins. by simplify_eq. }
  destruct Hsp as [Hwf1 Hmv].
  assert (Hck1 : checkpoint_is s1 ck).
  { destruct Hck as (p0 & Hp0 & Hl). exists p0. split; [|done]. rewrite (sr_frame _ _ _ _ Hmv); [done|]. cbn. lia. }
  assert (Hlog : scan_log scan_entry (layout start (old ++ es) tail) ck scan_init = Some (Ok sc)) by (by rewrite scan_log_layout, filter_window, Hsc).
  destruct (recover_idle fuel _ b s1 ck sc Hwf1 Hck1 Hlog) as (s2 & Hr & _ & Hpg).
  { unfold undone. rewrite filter_all_out; [done|]. intros q _. rewrite (si_active _ _ _ Hsi), Hact. apply not_elem_of_empty. }
  destruct (open_run fuel start _ tail b s1 s2 _ Hs Hok Ht Hr) as (w & Ho). cbn [rr_max_committed rr_clustered_roots] in Ho.
  rewrite (si_max _ _ _ Hsi), (si_active _ _ _ Hsi), Hact, size_empty in Ho.
  eexists s2, _, w, _. split; [exact Ho|]. split_and!; [done|done| |done|].
  - assert (row (st_page s2) (pg, i) = row (st_page s1) (pg, i)) as -> by (unfold row; by rewrite Hpg).
    rewrite (row_set _ _ _ _ _ Hmv). by rewrite decide_True.
  - intros iso. cbn [begin_alloc begin_register fst snd txn_open tm_next_txn_id].
    match goal with |- is_visible _ (active_snapshot ?cn ?mm) = true => apply (own_row_visible cn mm 0 0 0) end. cbn. lia.
Qed.
End Unflushed.

(** *** Witnesses *)

#[local] Existing Instance crc32c_ref.
#[local] Existing Instance crc32c_ref_range.
#[local] Existing Instance no_clustered.
#[local] Existing Instance set_iter_elements.

(** The same through the operations themselves: transaction 5 has committed, the manager
    takes a checkpoint, and the database is opened again from what is on disk.  The result
    is the LSN of the checkpoint, and whether a row of the transaction is visible before
    and after. *)
Definition reopened_after_checkpoint : option (Z * bool * bool) :=
  let! st := sample_db in
  let w := wal_commit (wal_append (control Commit 0 5) (wal_append (control Begin 0 5) cw_create).2).2 in
  let m := txn_open 5 ∅ false Strict in
  match checkpoint m w (mkIo None st) with
  | Some (Ok (ck, w), x) =>
      match open_with_recovery 1 (ws_disk (cw_writer w)) x with
      | Some (Ok (m', _, _), _) => Some (ck, is_visible (mkRow 5 0 0 0) (snapshot m), is_visible (mkRow 5 0 0 0) (snapshot m'))
      | _ => None
      end
  | _ => None
  end.

Lemma reopened_without_rows : reopened_after_checkpoint = Some (3, true, false).
Proof. vm_compute. reflexivity. Qed.

(** The row of transaction 5, which has committed, is in the table but not visible. *)
Lemma checkpoint_forgets_commits_witness :
  exists (s s' : MemoryStorage) m w res old, Commit ∈ entry_type <$> old /\ checkpoint_is s 4 /\
    open_with_recovery 1 (layout 0 (old ++ [control Checkpoint 4 0]) []) (mkIo None s) = Some (Ok (m, w, res), mkIo None s') /\
    row (st_page s') (2, 0) = Some sample_tuple /\ is_visible (mkRow 5 0 0 0) (snap_committed 5) = true /\ is_visible (mkRow 5 0 0 0) (snapshot m) = false.
Proof.
  destruct sample_db_spec as (s0 & p & _ & Hwf0 & _ & Hp0 & Hp & Hc & Hrows).
  destruct (write_checkpoint_run None s0 4 (page_new PtMeta 0) Hwf0 Hp0) as (s & _ & Hwf & Hck & Hfr); [vm_compute; reflexivity|widths|].
  set (old := take 3 sample_log).
  destruct (checkpoint_forgets_commits s old [control Checkpoint 4 0] 0 [] 4 1 None Hwf Hck) as (s' & m & w & res & Ho & Hpg & _ & _ & Hv).
  - widths.
  - apply wal_okb_sound. vm_compute. reflexivity.
  - left. cbn. lia.
  - repeat constructor; cbn; lia.
  - repeat constructor; cbn; lia.
  - repeat constructor.
  - exists s, s', m, w, res, old. split; [cbn; set_solver|]. split; [exact Hck|]. split; [exact Ho|]. split_and!; [|vm_compute; reflexivity|apply Hv; cbn; lia].
    assert (row (st_page s') (2, 0) = row (st_page s0) (2, 0)) as ->.
    { unfold row. cbn [fst]. rewrite Hpg, Hfr by lia. reflexivity. }
    apply (chain_row (st_page s0) [(2, p)] 0); [apply Hc|]. rewrite Hrows. left.
Defined.

Lemma sample_row : exists s, sample_db = Some s /\ st_wf s /\ checkpoint_is s 0 /\ on_heap (st_page s) 2 /\ row (st_page s) (2, 0) = Some sample_tuple.
Proof.
  destruct sample_db_spec as (s & p & Hs & Hwf & _ & Hp0 & Hp & Hc & Hrows). exists s. split_and!; [exact Hs|exact Hwf|by apply meta_checkpoint| |].
  - exists p. split; [exact Hp|]. destruct (hc_linked _ _ _ Hc) as (_ & _ & Hh & _). exact Hh.
  - apply (chain_row (st_page s) [(2, p)] 0); [apply Hc|]. rewrite Hrows. left.
Qed.

(** Transaction 6 deletes the row of 5 and does not finish, 7 commits, and 8 deletes the row. *)
Lemma recovery_undoes_committed_witness :
  exists (s2 s3 : MemoryStorage) m w res,
    row (st_page s2) (2, 0) = Some (Some (mkRow 5 8 0 0, [1; 2; 3])) /\
    open_with_recovery 1 (layout 0 (deleted_log 6 7 2 0 [1; 2; 3]) []) (mkIo None s2) = Some (Ok (m, w, res), mkIo None s3) /\
    row (st_page s3) (2, 0) = Some sample_tuple /\
    is_visible (mkRow 5 8 0 0) (snapshot m) = false /\ is_visible (mkRow 5 0 0 0) (snapshot m) = true.
Proof.
  destruct sample_row as (s & _ & Hwf & Hck & Hh & Hrow).
  assert (Hl1 : row_logged 0 (unfinished_log 6 7 2 0 [1; 2; 3]) []) by (split_and!; [widths|apply wal_okb_sound; vm_compute; reflexivity|left; cbn; lia]).
  assert (Hl2 : row_logged 0 (deleted_log 6 7 2 0 [1; 2; 3]) []) by (split_and!; [widths|apply wal_okb_sound; vm_compute; reflexivity|left; cbn; lia]).
  destruct (recovery_undoes_committed s 6 7 2 0 (mkRow 5 0 0 0, [1; 2; 3]) [1; 2; 3] 0 [] [] 1 None Hwf Hck) as
    (s1 & s2 & s3 & m1 & m3 & w1 & w3 & res1 & res3 & _ & _ & _ & _ & Hrow2 & Ho3 & Hmax & Hrow3);
    [lia|widths|widths|lia|widths|exact Hh|exact Hrow|exact Hl1|exact Hl2|].
  exists s2, s3, m3, w3, res3. split; [exact Hrow2|]. split; [exact Ho3|]. split; [exact Hrow3|].
  rewrite Hmax. split; vm_compute; reflexivity.
Defined.

(** Transaction 5 inserts the row and rewrites it. *)
Definition sample_rewrite (s : MemoryStorage) : option (Result (option UndoOp) * MemoryStorage) := do_action s 5 (HRewrite 2 0 [4; 5; 6]).
Definition sample_image : bytes := row_header_bytes (mkRow 5 0 0 0) ++ [1; 2; 3].

Lemma sample_rewrite_spec : exists s, st_wf s /\ checkpoint_is s 0 /\
  ready (st_page s) (UndoInsert 2 0) /\ ready (st_page s) (UndoUpdateInPlace 2 0 sample_image).
Proof.
  destruct sample_row as (s & Hs & Hwf & Hck & Hh & Hrow).
  assert (Hc : (match sample_db with Some s => match sample_rewrite s with Some (Ok o, _) => Some o | _ => None end | None => None end) =
    Some (Some (UndoUpdateInPlace 2 0 sample_image))) by (vm_compute; reflexivity).
  rewrite Hs in Hc. clear Hs. destruct (sample_rewrite s) as [[[o|e] s1]|] eqn:Hr; [|discriminate Hc|discriminate Hc]. injection Hc as ->.
  assert (Hok : action_ok s 5 (HRewrite 2 0 [4; 5; 6])).
  { split; [widths|]. split; [exact Hh|]. split; [lia|]. split; [repeat constructor; unfold byte_ok; lia|vm_compute; reflexivity]. }
  destruct (rewrite_changed s 5 2 0 [4; 5; 6] _ s1 Hwf Hok Hr) as [x Hch]. destruct (ch_moved _ _ _ _ _ Hch) as [u Hmv].
  pose proof (ch_slot _ _ _ _ _ Hch) as Hx. cbn in Hx. subst x.
  exists s1. split; [apply Hch|]. split_and!; [| |exact (ch_ready _ _ _ _ _ Hch)].
  - destruct Hck as (p & Hp & Hl). exists p. split; [|exact Hl]. rewrite (sr_frame _ _ _ _ Hmv); [exact Hp|]. cbn. lia.
  - destruct (sr_page _ _ _ _ Hmv) as (q & q' & _ & _ & Hq' & Htd & _). exists q'. split; [exact Hq'|]. split; [apply Htd|].
    cbn in *. pose proof (td_n _ _ _ Htd). pose proof (td_range _ _ _ Htd). lia.
Qed.

Lemma second_recovery_fails_witness :
  exists (s s1 : MemoryStorage) m w res pid, let wal := layout 0 (updated_log 5 2 0 [1; 2; 3] sample_image sample_image) [] in
    open_with_recovery 1 wal (mkIo None s) = Some (Ok (m, w, res), mkIo None s1) /\
    open_with_recovery 1 wal (mkIo None s1) = Some (Err (AlreadyDeleted pid 0), mkIo None s1).
Proof.
  destruct sample_rewrite_spec as (s & Hwf & Hck & Hr1 & Hr2).
  assert (Hl : row_logged 0 (updated_log 5 2 0 [1; 2; 3] sample_image sample_image) []) by (split_and!; [widths|apply wal_okb_sound; vm_compute; reflexivity|left; cbn; lia]).
  destruct (second_recovery_fails s 5 2 0 [1; 2; 3] sample_image sample_image 0 [] 1 None Hwf Hck) as (s1 & m & w & res & pid & Ho1 & _ & Ho2);
    [lia|widths|widths|exact Hr1|exact Hr2|exact Hl|].
  exists s, s1, m, w, res, pid. split; [exact Ho1|exact Ho2].
Defined.

Lemma unflushed_insert_reappears_witness :
  exists (s1 s2 : MemoryStorage) m w res, open_with_recovery 1 (layout 0 ([] ++ []) []) (mkIo None s1) = Some (Ok (m, w, res), mkIo None s2) /\
    row (st_page s2) (2, 0) = Some (Some (mkRow 1 0 0 0, [1; 2; 3])) /\ (begin_alloc m).1 = 1.
Proof.
  destruct empty_db_spec as (s & _ & Hwf & _ & Hp0 & Hp & Hh & Hn & Hfree). destruct sample_data as (Hd & _ & Hl).
  assert (H1 : in_u64 1) by widths.
  destruct (insert_at_tail_spec s 2 _ 1 [1; 2; 3] Hwf Hp Hh H1 Hd Hl) as (s1 & Hins & _); [rewrite Hfree; vm_compute; congruence|].
  rewrite Hn in Hins.
  destruct (unflushed_insert_reappears s [] [] (mkRunning ∅ [] 0 (contents (hide [] (st_page s))) []) 0 [] 0 1 None 2 [1; 2; 3]) as [_ Hall].
  - exact (db_start s [] Hwf).
  - reflexivity.
  - cbn. lia.
  - exact H1.
  - exists (page_new PtData 2). split; [exact Hp|exact Hh].
  - lia.
  - exact Hd.
  - exact Hl.
  - apply meta_checkpoint. exact Hp0.
  - widths.
  - constructor.
  - left. cbn. lia.
  - constructor.
  - constructor.
  - destruct (Hall 0 s1 Hins) as (s2 & m & w & res & Ho & _ & _ & Hrow & Hid & _). exists s1, s2, m, w, res. split; [exact Ho|]. split; [exact Hrow|exact Hid].
Defined.
